(* ===== verification/_CoqProject ===== *)
-Q . S2P
Prelude.v
NetAddr.v
VideoQos.v
PortForwardMux.v
AccessHours.v
IdPermissions.v
LoginFailure.v
Terminal.v
Forwarding.v
ForwardEngine.v
TenantKeys.v
ManagedSettings.v
SessionGrant.v
TrustedControllers.v
ConnLogin.v
LoginSafety.v
Admission.v
AuditQueue.v
Json.v
SessionLog.v
AuditSink.v
PosixFs.v
FileTransfer.v
FileCopy.v
SessionScope.v
FileScan.v
FileClipboard.v
FileServe.v
Services.v
SessionState.v
SessionHandler.v
SessionSafety.v
SessionClip.v
SessionSubs.v
