(* ===== verification/Prelude.v ===== *)
(** * ClantoDesk: a verification of the core of the client

    ClantoDesk is a remote-desktop program derived from RustDesk.  One executable is
    the host (the PC that is controlled), the controller (who drives it) and their user
    interfaces.  A controller opens a connection to the host
    ([src/src/server/connection.rs]); the host lets it in after a chain of checks, some
    set on the PC and some by the tenant (the organisation the PC is enrolled in)
    through signed documents; an open session carries video, terminals, files, tunnels.
    The library models the decisions and the protocols of the host, and what the
    controller does for them, as executable definitions that follow the Rust code, and
    proves what makes them correct.

    ** Parts

    The files, in order of dependency, with the code that each models:

    - [Prelude]: machine integers ([Int], wrapping, saturating and checked), texts
      ([Str]: a [str] is the list of its Unicode scalar values), binary32 floats
      ([F32]), the results of fallible code, shared lemmas, tactics and hints.
    - [NetAddr]: IP addresses as [std::net] parses and prints them.
    - [VideoQos] ([server/video_qos.rs]): the viewers' delays drive the frame rate and
      the bitrate ratio.  [Rtt], [Delay] (one viewer), [Qos] (the shared controller).
    - [PortForwardMux] ([port_forward_mux.rs], [server/port_forward_mux.rs]): channels
      of a tunnel with credit-based flow control; [Flow] composes a sender, the wire
      and a receiver.
    - [AccessHours] ([clanto/access_hours.rs]): weekly windows of access.
    - [IdPermissions] ([clanto/id_permissions.rs], the whitelist and the permissions of
      [server/connection.rs]): what a controller's id allows.
    - [LoginFailure] ([server/login_failure_check.rs], the failure tables of
      [connection.rs]): who has failed too often.
    - [Terminal] ([server/terminal_service.rs]): output, replay buffer, sessions.
    - [Forwarding] ([clanto/forwarding/policy.rs], [catalog.rs]): which destinations a
      session may open.
    - [ForwardEngine] ([clanto/forwarding/engine.rs], [host.rs]): the channels and
      listeners of a session's forwards, with the tasks that open and close them.
    - [TenantKeys] ([clanto/tenant_keys.rs]): the keys that the tenant's documents are
      checked with, their rotation and revocation.
    - [ManagedSettings] ([clanto/policy.rs], [gpo.rs], [managed_config.rs],
      [settings_lock.rs], [outgoing.rs], and the device of [enrollment.rs]): the
      settings fixed by the group policy and by the tenant's signed policy.
    - [SessionGrant] ([clanto/session_grant.rs]): logins with a signed grant.
    - [TrustedControllers] ([clanto/trusted_controllers.rs]): controllers that are
      spared the second factor.
    - [ConnLogin] ([server/connection.rs] up to the authorisation, with
      [two_factor_policy.rs], [two_factor_store.rs] and [clanto::login_block]): the
      handlers of one connection as state transformers over what it keeps ([Conn]) and
      what all share ([World]).  It calls [LoginFailure], [SessionGrant],
      [AccessHours], [IdPermissions] and [TrustedControllers] where the code does.
    - [LoginSafety]: the runs of a connection among the others, and their theorems.
    - [Admission] ([connection.rs], lines 53 to 184): the places of the connections
      that are not authorised yet.
    - [AuditQueue] ([clanto/audit_queue.rs]): the delivery queue of the audit events.
    - [Json]: JSON values and their sorted objects, as [serde_json] keeps them.
    - [SessionLog] ([clanto/session_log.rs]): the sessions that are under way, their
      records, the files of the log with the chain of their lines, the check of the
      chain and the report.
    - [AuditSink] ([clanto/audit_sink.rs]): the events for a syslog collector: their
      queue and its worker, the two formats, the frames and the connections.  An event
      passes through it to [SessionLog], and the end of a connection takes the summary
      of its session from there ([emit_conn]).
    - [PosixFs]: the file system calls that the transfer makes, over a tree with links.
    - [FileTransfer] ([libs/base/src/fs.rs], the write jobs of
      [src/client/io_loop.rs]): read and write jobs, names, digests, confirmations.
    - [FileCopy]: a whole transfer, from the sender's list to the receiver's files.
    - [SessionScope] ([connection.rs], lines 6403 to 6813): the messages and options
      that a session of each kind may send.
    - [FileScan] ([clanto/file_scan.rs]): the tenant's policy on files: directions,
      extensions, the clipboard, the registry of antivirus scans and their outcome.
    - [FileClipboard] ([clipboard_file.rs] and the Unix side of [libs/clipboard]): files
      that are copied on one side and pasted on the other: the list that is sent, the
      lists that are kept for late requests, the check of a list that was received.
    - [FileServe] ([serv_files.rs], [local_file.rs]): the contents that are served.
    - [Services] ([server/service.rs], [Server] of [server.rs]): the services, who is
      subscribed to them, and snapshots.
    - [SessionState], [SessionHandler] ([connection.rs] from the authorisation on): the
      state of an open session and its handlers, for the peer, the connection manager,
      the services and the clock, up to its end.
    - [SessionSafety], [SessionSubs]: what a session does and what it is subscribed to.
    - [SessionClip] ([connection.rs], the file clipboard): the messages of the clipboard
      that a session sends, and the contents that reach its peer.

    An operation has the name of its Rust function; a struct is a record, an enum an
    inductive type.  A function that changes its receiver returns the new state; one
    that may fail returns an [option] or a [result]; in [ConnLogin] and
    [SessionHandler] a handler is [St -> A * St] with its monadic notation.  What the code reads from outside (clock,
    options, operating system, another task) is an argument of the definition, a fresh
    one for each time the code reads it when the difference matters; what it sends is
    returned in order.

    ** Theorems

    Each theorem that states a property of the program is preceded by a comment that
    opens with its number (C1, C2, ...); its witness, where it has hypotheses, applies
    it to concrete inputs.

    - Safety of the host: a session is authorised only by a login that went through
      every check or by the code to switch sides, of which only the ID whitelist is
      asked ([authorised_logins_were_vetted]), for one scope
      ([login_scope_is_bound]); grants are authentic and used once ([SessionGrant]), and
      so are the tenant's documents while the file of the keys is whole ([TenantKeys]);
      each permission is what options, profile and grant leave of it ([IdPermissions]),
      the tenant's policy never loosens the group policy ([ManagedSettings]);
      destinations are vetted ([Forwarding]) and an engine connects only to those
      ([ForwardEngine]); received files stay inside their folder, when no link is in the
      place of an unfinished one ([FileTransfer]), and are clean ([FileScan]); pasted
      files stay inside theirs, and copied files leave by the policy only
      ([pasted_names_stay_inside], [clipboard_leaves_by_the_policy]).
    - Evidence: what the log holds verifies ([written_log_verifies]); two logs that
      verify agree in all the records of the chain that precede a digest they share
      ([tampering_shows]); audit numbers never repeat; each record for the collector is
      delivered, given up, waiting or counted as lost ([records_are_accounted_for]), the
      bytes of a stream are its frames ([collector_reads_the_records]), and a session
      that ends is told in full ([closing_tells_the_session]).
    - Safety of an open session: what a message makes it do is admitted by its kind,
      its permissions and its options, which only a switch of sides takes again
      ([session_acts_within_its_permissions]); its subscriptions follow them at every
      other step and end with it ([subscriptions_follow_the_permissions]).
    - Refinement: the managed settings are a function of the two policies whatever
      happened before ([settings_refine_the_overlay]); the text of the trusted
      controllers is a set of pairs ([list_is_a_set]); the records of a session are those of
      its own life, whatever the other connections do ([sessions_do_not_mix]).
    - Equivalence with a reference: weekly arcs, glob matching, acceptance by a trusted
      key, the contents that the clipboard serves and a plain read of the file.
    - Round trips: a transferred directory ([transfer_copies_the_files]), the printed
      list of controllers, the clipboard's list of files ([sent_list_is_read_back]) and
      its contents, from one session to its peer ([copied_files_reach_the_peer]), both for
      names without a backslash, the fields
      of a CEF record whatever texts they hold ([cef_records_are_read_back]).
    - Invariants and bounds: flow control, replay buffer, frame rate and ratio, audit
      queue, failure counters, the lists of files that were sent.
    - Termination and progress: the redraw of a terminal, the tunnels, the loops of a
      transfer.
    - Errors: behaviours that the code does not intend, each stated as it is and listed
      with its source.

    ** Bounds and fuel

    Machine integers are [Z] with the width written at each operation; arithmetic wraps
    as in a release build, and panics of debug builds are not modelled except where a
    release build panics too (the [clamp]s of [f32] and of [u32], slices; the divisions
    of [VideoQos] are by constants, powers of two, a delay that was tested and the length
    of a list that was just added to).  Recursion is structural wherever
    the code's loop consumes a list.  The loops that do not have fuel, and a
    theorem shows that it is enough: the wildcard matcher has the product of the two
    lengths and more, a range of days seven, the search of a free channel id one more
    than there are channels, the loop that fills a block one call for each byte, the
    digits of a number its bits, the walk of a path of [PosixFs] the 40 links that Linux
    allows.  The walk of a copied folder has the length of a path as its fuel (4096), and
    the loop that reads a range one round more than the bytes asked.  For a reading job's loop [transfer_copies_the_files] gives a number of rounds
    and bounds it by the bytes and files to send.

    ** Parameters

    Third-party code is a type class of the functions the code calls and, where a
    theorem needs it, a class or a hypothesis of the documented laws, each with an
    instance in the samples ([Toy], [LoginToy]): Ed25519, SHA-256 and base64
    ([Crypto], [KeyCodec], [Passwords]), the JSON decoders of [serde]
    ([GrantDecoders], [PolicyDecoders], ...), the texts of JSON values ([JsonText]), the
    seal of the log and its digests ([Sealing], [LogHash]), the certificates of TLS
    ([TlsStack]), compression and metadata ([Codec]),
    Unicode lowercasing, name resolution, time zones, translations.  The configuration
    ([hbb_common::config]) is a submodule that is not in the repository: options are
    texts given to the definitions.

    ** Not modelled

    Device and operating-system I/O (capture, codecs, input, clipboard, sound, virtual
    displays, key stores, services, installers), the user interfaces and their
    bindings, the transport and the rendezvous protocol, HTTP requests to the tenant's
    server, the controller's session.  They are calls into systems outside the repository with
    little logic of their own, or logic whose types live in a submodule.  Within the
    components: reasons kept for the log, messages that only update a window, the
    Windows helper of terminals, listings of directories; of an open session the
    branches of Windows, macOS and Android, the reading of a job's files ([FileTransfer]
    has it), the raw relay of a port forward with a socket of its own and the log of
    removals; of the audit sink the event log of Windows; of the clipboard of files the FUSE server and its cache, and the code of
    Windows and macOS. *)

From Stdlib Require Export ZArith Lia SpecFloat.
From stdpp Require Export strings option gmap sets base list.

#[global] Open Scope Z_scope.

(** Lemmas that the components' proofs use as automation. *)
Create HintDb clanto discriminated.

(** ** Tactics *)

(** Splits every boolean comparison of [Z] and every [if] of the context and
    the goal, turning tests into propositions for [lia]. *)
Ltac zbool :=
  repeat match goal with
  | H : context [ ?a <? ?b ] |- _ => destruct (Z.ltb_spec a b)
  | H : context [ ?a <=? ?b ] |- _ => destruct (Z.leb_spec a b)
  | H : context [ ?a =? ?b ] |- _ => destruct (Z.eqb_spec a b)
  | |- context [ ?a <? ?b ] => destruct (Z.ltb_spec a b)
  | |- context [ ?a <=? ?b ] => destruct (Z.leb_spec a b)
  | |- context [ ?a =? ?b ] => destruct (Z.eqb_spec a b)
  end.

(** Case analysis on the innermost [match] of the goal or of a hypothesis. *)
Ltac split_match :=
  match goal with
  | |- context [ match ?x with _ => _ end ] =>
      lazymatch x with
      | context [ match _ with _ => _ end ] => fail
      | _ => destruct x eqn:?
      end
  | H : context [ match ?x with _ => _ end ] |- _ =>
      lazymatch x with
      | context [ match _ with _ => _ end ] => fail
      | _ => destruct x eqn:?
      end
  end.

(** Proves a decidable proposition by evaluating its decision. *)
Ltac decide_now := apply (bool_decide_unpack _); vm_compute; exact I.

(** ** Results, as Rust's [Result] *)

Inductive result (A E : Type) : Type :=
| Ok (a : A)
| Err (e : E).
Arguments Ok {A E} a.
Arguments Err {A E} e.

Definition is_ok {A E} (r : result A E) : bool :=
  match r with Ok _ => true | Err _ => false end.

Definition result_ok {A E} (r : result A E) : option A :=
  match r with Ok a => Some a | Err _ => None end.

(** ** Lists *)

Lemma omap_all_None {A B} (f : A -> option B) (l : list A) :
  Forall (fun x => f x = None) l -> omap f l = [].
Proof. induction 1 as [|x l Hx _ IH]; simpl; [done|]. by rewrite Hx. Qed.

(** ** Machine integers

    An integer of width [w] is a [Z]; the operations below write out Rust's
    wrapping, saturating and checked arithmetic. *)

Module Int.
Definition umax (w : Z) : Z := 2 ^ w - 1.
Definition smin (w : Z) : Z := - 2 ^ (w - 1).
Definition smax (w : Z) : Z := 2 ^ (w - 1) - 1.

(** The values of [uN] and [iN]. *)
Definition is_u (w x : Z) : Prop := 0 <= x <= umax w.
Definition is_s (w x : Z) : Prop := smin w <= x <= smax w.

(** [as uN] and the release build's wrapping arithmetic. *)
Definition wrap (w x : Z) : Z := x mod 2 ^ w.
Definition swrap (w x : Z) : Z := (x + 2 ^ (w - 1)) mod 2 ^ w - 2 ^ (w - 1).

Definition limit (lo hi x : Z) : Z :=
  if x <? lo then lo else if hi <? x then hi else x.

(** [Ord::clamp]: it panics ([None]) when the bounds are in the wrong order, in a release
    build too.  With constant bounds the order is checked here. *)
Definition clamp (lo hi x : Z) : option Z := if hi <? lo then None else Some (limit lo hi x).
Definition clamp_const (lo hi : Z) (_ : (lo <=? hi) = true) (x : Z) : Z := limit lo hi x.

Definition sat_addu (w a b : Z) : Z := Z.min (a + b) (umax w).
Definition sat_subu (a b : Z) : Z := Z.max 0 (a - b).
Definition sat_adds (w a b : Z) : Z := limit (smin w) (smax w) (a + b).
Definition sat_subs (w a b : Z) : Z := limit (smin w) (smax w) (a - b).
Definition checked_sub (a b : Z) : option Z :=
  if b <=? a then Some (a - b) else None.
Definition checked_addu (w a b : Z) : option Z :=
  if a + b <=? umax w then Some (a + b) else None.
Definition checked_mulu (w a b : Z) : option Z :=
  if a * b <=? umax w then Some (a * b) else None.

#[export] Instance is_u_dec w x : Decision (is_u w x).
Proof. unfold is_u. apply _. Defined.
#[export] Instance is_s_dec w x : Decision (is_s w x).
Proof. unfold is_s. apply _. Defined.

Lemma umax_nonneg w : 0 <= w -> 0 <= umax w.
Proof.
  intros Hw. unfold umax.
  pose proof (Z.pow_pos_nonneg 2 w ltac:(lia) Hw). lia.
Qed.

Lemma is_u_0 w : 0 <= w -> is_u w 0.
Proof. intros Hw. split; [lia|by apply umax_nonneg]. Qed.

Lemma wrap_range w x : 0 <= w -> is_u w (wrap w x).
Proof.
  intros Hw. unfold is_u, wrap, umax.
  pose proof (Z.mod_pos_bound x (2 ^ w) ltac:(apply Z.pow_pos_nonneg; lia)). lia.
Qed.

Lemma wrap_small w x : is_u w x -> wrap w x = x.
Proof. unfold is_u, wrap, umax. intros. apply Z.mod_small. lia. Qed.

Lemma swrap_range w x : 0 < w -> is_s w (swrap w x).
Proof.
  intros Hw. unfold is_s, swrap, smin, smax.
  assert (2 ^ w = 2 * 2 ^ (w - 1)) as E.
  { rewrite <- Z.pow_succ_r by lia. f_equal; lia. }
  pose proof (Z.mod_pos_bound (x + 2 ^ (w - 1)) (2 ^ w)
                ltac:(apply Z.pow_pos_nonneg; lia)). lia.
Qed.

Lemma swrap_small w x : 0 < w -> is_s w x -> swrap w x = x.
Proof.
  unfold is_s, swrap, smin, smax. intros Hw Hx.
  assert (2 ^ w = 2 * 2 ^ (w - 1)) as E.
  { rewrite <- Z.pow_succ_r by lia. f_equal; lia. }
  rewrite Z.mod_small by lia. lia.
Qed.

Lemma limit_range lo hi x : lo <= hi -> lo <= limit lo hi x <= hi.
Proof. unfold limit. zbool; lia. Qed.

Lemma limit_le lo hi x :
  lo <= hi -> limit lo hi x <= hi /\ limit lo hi x <= Z.max lo x.
Proof. unfold limit. zbool; lia. Qed.

Lemma limit_id lo hi x : lo <= x <= hi -> limit lo hi x = x.
Proof. unfold limit. zbool; lia. Qed.

Lemma clamp_limit lo hi x : lo <= hi -> clamp lo hi x = Some (limit lo hi x).
Proof. unfold clamp. intros. by rewrite (proj2 (Z.ltb_ge _ _)). Qed.

Lemma sat_addu_range w a b : 0 <= w -> 0 <= a -> 0 <= b -> is_u w (sat_addu w a b).
Proof.
  unfold is_u, sat_addu, umax. intros.
  pose proof (Z.pow_pos_nonneg 2 w ltac:(lia) ltac:(lia)). lia.
Qed.

Lemma sat_subu_le a b : 0 <= b -> sat_subu a b <= Z.max 0 a.
Proof. unfold sat_subu. lia. Qed.

Lemma checked_sub_Some a b c : checked_sub a b = Some c <-> b <= a /\ c = a - b.
Proof.
  unfold checked_sub. zbool; split; intros; destruct_and?; simplify_eq; done || lia.
Qed.
End Int.
#[export] Existing Instances Int.is_u_dec Int.is_s_dec.
#[export] Hint Resolve Int.wrap_range Int.swrap_range Int.sat_addu_range : clanto.

(** ** Strings: a Rust [str] is the list of its Unicode scalar values *)

Module Str.
Abbreviation rstr := (list Z).

(** An ASCII literal of the source. *)
Definition lit (s : string) : rstr :=
  (fun a => Z.of_N (Stdlib.Strings.Ascii.N_of_ascii a)) <$> String.list_ascii_of_string s.

(** [char::is_whitespace]: the code points of Unicode's White_Space. *)
Definition is_whitespace (c : Z) : bool :=
  ((9 <=? c) && (c <=? 13)) || (c =? 32) || (c =? 133) || (c =? 160) || (c =? 5760)
  || ((8192 <=? c) && (c <=? 8202)) || (c =? 8232) || (c =? 8233) || (c =? 8239)
  || (c =? 8287) || (c =? 12288).

Definition is_ascii_digit (c : Z) : bool := (48 <=? c) && (c <=? 57).
Definition is_ascii_upper (c : Z) : bool := (65 <=? c) && (c <=? 90).
Definition is_ascii_lower (c : Z) : bool := (97 <=? c) && (c <=? 122).
Definition is_ascii_alphanumeric (c : Z) : bool :=
  is_ascii_digit c || is_ascii_upper c || is_ascii_lower c.

Definition ascii_lower (c : Z) : Z := if is_ascii_upper c then c + 32 else c.
Definition to_ascii_lowercase (s : rstr) : rstr := ascii_lower <$> s.
Definition eq_ignore_ascii_case (a b : rstr) : bool :=
  bool_decide (to_ascii_lowercase a = to_ascii_lowercase b).

Fixpoint trim_start (s : rstr) : rstr :=
  match s with
  | c :: s' => if is_whitespace c then trim_start s' else s
  | [] => []
  end.
Definition trim_end (s : rstr) : rstr := rev (trim_start (rev s)).
Definition trim (s : rstr) : rstr := trim_end (trim_start s).

(** [str::split] by a character test: always at least one piece. *)
Fixpoint split (p : Z -> bool) (s : rstr) : list rstr :=
  match s with
  | [] => [[]]
  | c :: s' =>
      if p c then [] :: split p s'
      else match split p s' with
           | piece :: rest => (c :: piece) :: rest
           | [] => [[c]]
           end
  end.

(** [str::split_once]: around the first separator. *)
Fixpoint split_once (p : Z -> bool) (s : rstr) : option (rstr * rstr) :=
  match s with
  | [] => None
  | c :: s' =>
      if p c then Some ([], s')
      else match split_once p s' with
           | Some (a, b) => Some (c :: a, b)
           | None => None
           end
  end.

(** [str::rsplit_once]: around the last separator. *)
Definition rsplit_once (p : Z -> bool) (s : rstr) : option (rstr * rstr) :=
  match split_once p (rev s) with
  | Some (a, b) => Some (rev b, rev a)
  | None => None
  end.

(** [trim_start_matches] and [trim_end_matches] with a character test. *)
Fixpoint trim_start_matches (p : Z -> bool) (s : rstr) : rstr :=
  match s with
  | c :: s' => if p c then trim_start_matches p s' else s
  | [] => []
  end.
Definition trim_end_matches (p : Z -> bool) (s : rstr) : rstr :=
  rev (trim_start_matches p (rev s)).

(** [str::len]: the bytes of the UTF-8 text. *)
Definition len_utf8 (c : Z) : Z :=
  if c <? 128 then 1 else if c <? 2048 then 2 else if c <? 65536 then 3 else 4.
Definition len (s : rstr) : Z := foldr (fun c n => len_utf8 c + n) 0 s.

(** [str::as_bytes]: the UTF-8 bytes of a text. *)
Definition utf8_char (c : Z) : list Z :=
  if c <? 128 then [c]
  else if c <? 2048 then [192 + c / 64; 128 + c mod 64]
  else if c <? 65536 then [224 + c / 4096; 128 + (c / 64) mod 64; 128 + c mod 64]
  else [240 + c / 262144; 128 + (c / 4096) mod 64; 128 + (c / 64) mod 64; 128 + c mod 64].
Definition as_bytes (s : rstr) : list Z := concat (utf8_char <$> s).

Definition ch (c : Z) : Z -> bool := Z.eqb c.

(** [str::parse] at an unsigned width: an optional [+], then at least one
    digit and nothing else, within the width. *)
Fixpoint parse_digits (w acc : Z) (s : rstr) : option Z :=
  match s with
  | [] => Some acc
  | c :: s' =>
      if is_ascii_digit c then
        m ← Int.checked_mulu w acc 10;
        a ← Int.checked_addu w m (c - 48);
        parse_digits w a s'
      else None
  end.
Definition parse_uint (w : Z) (s : rstr) : option Z :=
  match s with
  | [] => None
  | [43] => None
  | 43 :: s' => parse_digits w 0 s'
  | _ => parse_digits w 0 s
  end.

Fixpoint starts_with (prefix s : rstr) : bool :=
  match prefix, s with
  | [], _ => true
  | a :: p', b :: s' => (a =? b) && starts_with p' s'
  | _ :: _, [] => false
  end.

(** Decimal text of a non-negative integer, as [format!("{}")]. *)
Fixpoint digits_fuel (fuel : nat) (z : Z) (acc : rstr) : rstr :=
  match fuel with
  | O => acc
  | S f =>
      let acc' := (48 + z mod 10) :: acc in
      if z <? 10 then acc' else digits_fuel f (z / 10) acc'
  end.
Definition show_nat (z : Z) : rstr := digits_fuel (S (Z.to_nat (Z.log2 z))) z [].

(** The same for a signed one. *)
Definition show_int (z : Z) : rstr :=
  if z <? 0 then 45 :: show_nat (- z) else show_nat z.

Lemma ascii_lower_idemp c : ascii_lower (ascii_lower c) = ascii_lower c.
Proof.
  unfold ascii_lower. destruct (is_ascii_upper c) eqn:E; [|by rewrite E].
  unfold is_ascii_upper in *. apply andb_true_iff in E as [?%Z.leb_le ?%Z.leb_le].
  by rewrite (proj2 (Z.leb_gt (c + 32) 90)) by lia; rewrite andb_false_r.
Qed.

Lemma to_ascii_lowercase_idemp s :
  to_ascii_lowercase (to_ascii_lowercase s) = to_ascii_lowercase s.
Proof.
  unfold to_ascii_lowercase. rewrite <- list_fmap_compose.
  apply list_fmap_ext. intros. apply ascii_lower_idemp.
Qed.

Lemma as_bytes_app s t : as_bytes (s ++ t) = as_bytes s ++ as_bytes t.
Proof. unfold as_bytes. by rewrite fmap_app, concat_app. Qed.

Lemma digits_as_bytes s : Forall (fun c => is_ascii_digit c = true) s -> as_bytes s = s.
Proof.
  induction 1 as [|c s Hc _ IH]; [done|]. change (as_bytes (c :: s)) with (utf8_char c ++ as_bytes s). rewrite IH.
  unfold utf8_char. unfold is_ascii_digit in Hc. apply andb_true_iff in Hc as [_ ?%Z.leb_le].
  by rewrite (proj2 (Z.ltb_lt c 128)) by lia.
Qed.

Lemma split_nonempty p s : split p s <> [].
Proof. induction s as [|c s IH]; simpl; [done|]. by repeat case_match. Qed.

(** No piece of a split holds a separator. *)
Lemma split_no_sep p s : Forall (Forall (fun c => p c = false)) (split p s).
Proof.
  induction s as [|c s IH]; simpl; [by repeat constructor|].
  destruct (p c) eqn:E; [by constructor|].
  destruct (split p s) as [|x l] eqn:E'; [by repeat constructor|].
  inversion IH; subst. constructor; [by constructor|done].
Qed.

Lemma split_once_Some p s a b :
  split_once p s = Some (a, b) ->
  exists c, s = a ++ c :: b /\ p c = true /\ Forall (fun c => p c = false) a.
Proof.
  revert a b. induction s as [|c s IH]; simpl; intros a b H; [done|].
  destruct (p c) eqn:E; simplify_eq; [by exists c; repeat constructor|].
  destruct (split_once p s) as [[a' b']|]; simplify_eq.
  destruct (IH a' b eq_refl) as (d & -> & ? & ?). exists d. by repeat constructor.
Qed.

Lemma parse_digits_range w acc s v :
  0 <= acc -> parse_digits w acc s = Some v -> Int.is_u w acc -> Int.is_u w v.
Proof.
  revert acc. induction s as [|c s IH]; simpl; intros acc Ha H Hu; simplify_eq; [done|].
  destruct (is_ascii_digit c) eqn:D; [|done].
  unfold Int.checked_mulu, Int.checked_addu, is_ascii_digit in *.
  destruct (Z.leb_spec (acc * 10) (Int.umax w)); [|done]; simpl in H.
  destruct (Z.leb_spec (acc * 10 + (c - 48)) (Int.umax w)); [|done]; simpl in H.
  apply IH in H; [done|lia|unfold Int.is_u; lia].
Qed.

Lemma parse_uint_range w s v : 0 <= w -> parse_uint w s = Some v -> Int.is_u w v.
Proof.
  intros Hw H. pose proof (Int.is_u_0 w Hw). unfold parse_uint in H.
  repeat case_match; try done; simplify_eq; by eapply (parse_digits_range w 0).
Qed.
(** The number that a text of digits stands for. *)
Definition value (s : rstr) : Z := foldl (fun a c => a * 10 + (c - 48)) 0 s.

Lemma digits_fuel_app f z acc : digits_fuel f z acc = digits_fuel f z [] ++ acc.
Proof.
  revert z acc. induction f as [|f IH]; intros z acc; [done|]. cbn [digits_fuel].
  destruct (z <? 10); [done|]. rewrite IH, (IH _ [_]), <- app_assoc. done.
Qed.

Lemma digits_fuel_spec f z :
  0 <= z < 2 ^ Z.of_nat f ->
  Forall (fun c => is_ascii_digit c = true) (digits_fuel f z []) /\ value (digits_fuel f z []) = z.
Proof.
  revert z. induction f as [|f IH]; intros z Hz; [cbn in Hz; split; [constructor|cbn; lia]|].
  rewrite Nat2Z.inj_succ, Z.pow_succ_r in Hz by lia. cbn [digits_fuel].
  assert (Hd : is_ascii_digit (48 + z mod 10) = true).
  { pose proof (Z.mod_pos_bound z 10). unfold is_ascii_digit. rewrite (proj2 (Z.leb_le _ _)), (proj2 (Z.leb_le _ _)); lia. }
  destruct (Z.ltb_spec z 10) as [Hl|Hl].
  - split; [by repeat constructor|]. cbn. rewrite Z.mod_small; lia.
  - pose proof (Z.div_mod z 10). pose proof (Z.mod_pos_bound z 10).
    destruct (IH (z / 10)) as [IH1 IH2]; [lia|]. rewrite digits_fuel_app. split.
    + apply Forall_app. by repeat constructor.
    + unfold value in *. rewrite foldl_app, IH2. cbn. lia.
Qed.

Lemma show_nat_spec z :
  0 <= z -> Forall (fun c => is_ascii_digit c = true) (show_nat z) /\ value (show_nat z) = z.
Proof.
  intros Hz. apply digits_fuel_spec. split; [done|]. rewrite Nat2Z.inj_succ, Z2Nat.id by apply Z.log2_nonneg.
  destruct (decide (z = 0)) as [->|]; [done|]. apply Z.log2_spec. lia.
Qed.

Lemma show_nat_cons z : exists c s, show_nat z = c :: s.
Proof.
  unfold show_nat. cbn [digits_fuel]. case_match; [by eexists _, []|]. rewrite digits_fuel_app.
  destruct (digits_fuel _ _ []); by eexists _, _.
Qed.

Lemma value_ge acc s :
  0 <= acc -> Forall (fun c => is_ascii_digit c = true) s -> acc <= foldl (fun a c => a * 10 + (c - 48)) acc s.
Proof.
  revert acc. induction s as [|c s IH]; intros acc Ha; [done|]. cbn. intros [Hc Hs]%Forall_cons.
  unfold is_ascii_digit in Hc. apply andb_true_iff in Hc as [?%Z.leb_le ?%Z.leb_le].
  specialize (IH (acc * 10 + (c - 48)) ltac:(lia) Hs). lia.
Qed.

Lemma parse_digits_value w acc s :
  0 <= acc -> Forall (fun c => is_ascii_digit c = true) s ->
  foldl (fun a c => a * 10 + (c - 48)) acc s <= Int.umax w ->
  parse_digits w acc s = Some (foldl (fun a c => a * 10 + (c - 48)) acc s).
Proof.
  revert acc. induction s as [|c s IH]; intros acc Ha; [done|]. cbn [foldl parse_digits]. intros [Hc Hs]%Forall_cons Hu.
  rewrite Hc. unfold is_ascii_digit in Hc. apply andb_true_iff in Hc as [?%Z.leb_le ?%Z.leb_le].
  pose proof (value_ge (acc * 10 + (c - 48)) s ltac:(lia) Hs). unfold Int.checked_mulu, Int.checked_addu.
  rewrite (proj2 (Z.leb_le (acc * 10) _)) by lia. cbn [mbind option_bind].
  rewrite (proj2 (Z.leb_le _ _)) by lia. cbn [mbind option_bind]. apply IH; [lia|done..].
Qed.

(** A printed number is read back. *)
Lemma parse_show w z : Int.is_u w z -> parse_uint w (show_nat z) = Some z.
Proof.
  intros [Hz Hu]. destruct (show_nat_spec z Hz) as [Hd Hv]. destruct (show_nat_cons z) as (c & s & E).
  rewrite E in Hd, Hv |- *. apply Forall_cons in Hd as Hd'. destruct Hd' as [Hc _].
  assert (Hp : parse_digits w 0 (c :: s) = Some z).
  { rewrite parse_digits_value; [f_equal; exact Hv|lia|done|]. unfold value in Hv. lia. }
  unfold parse_uint. assert (c <> 43) by (intros ->; done). repeat case_match; simplify_eq; done.
Qed.

Lemma show_nat_inj z z' : 0 <= z -> 0 <= z' -> show_nat z = show_nat z' -> z = z'.
Proof. intros [_ H1]%show_nat_spec [_ H2]%show_nat_spec E. congruence. Qed.

Lemma show_nat_minus z s : 0 <= z -> show_nat z <> 45 :: s.
Proof. intros [Hd _]%show_nat_spec E. rewrite E in Hd. by apply Forall_cons in Hd as [? _]. Qed.

Lemma show_int_inj z z' : show_int z = show_int z' -> z = z'.
Proof.
  unfold show_int. destruct (Z.ltb_spec z 0), (Z.ltb_spec z' 0); intros E.
  - injection E as E. apply show_nat_inj in E; lia.
  - symmetry in E. by apply show_nat_minus in E.
  - by apply show_nat_minus in E.
  - by apply show_nat_inj.
Qed.

(** A printed number has digits and a sign only. *)
Lemma show_int_chars z : Forall (fun c => is_ascii_digit c = true \/ c = 45) (show_int z).
Proof.
  unfold show_int. destruct (Z.ltb_spec z 0) as [Hz|Hz]; [constructor; [by right|]|].
  - destruct (show_nat_spec (- z) ltac:(lia)) as [Hd _]. apply (Forall_impl _ _ _ Hd). tauto.
  - destruct (show_nat_spec z Hz) as [Hd _]. apply (Forall_impl _ _ _ Hd). tauto.
Qed.
End Str.

Abbreviation rstr := (list Z) (only parsing).

(** ** [f32]: IEEE 754 binary32 with round-to-nearest-even, executable *)

Module F32.
Abbreviation t := spec_float.
Definition prec : Z := 24.
Definition emax : Z := 128.

(** [as f32] of an integer. *)
Definition of_Z (z : Z) : t := binary_normalize prec emax z 0 false.
Definition mul : t -> t -> t := SFmul prec emax.
Definition div : t -> t -> t := SFdiv prec emax.
Definition add : t -> t -> t := SFadd prec emax.

(** The literal whose decimal value is [n / d]: the division of two exactly
    representable integers rounds once, as the literal does. *)
Definition lit (n d : Z) : t := div (of_Z n) (of_Z d).

Definition is_nan (x : t) : bool :=
  match x with S754_nan => true | _ => false end.
Definition ltb : t -> t -> bool := SFltb.
Definition leb : t -> t -> bool := SFleb.
Definition eqb : t -> t -> bool := SFeqb.

(** [f32::max] and [f32::min]: a NaN operand gives the other one. *)
Definition max (x y : t) : t :=
  if is_nan x then y else if is_nan y then x else if ltb x y then y else x.
Definition min (x y : t) : t :=
  if is_nan x then y else if is_nan y then x else if ltb y x then y else x.

(** [f32::clamp], [None] where it panics ([min > max] or a NaN bound). *)
Definition clamp (lo hi x : t) : option t :=
  if leb lo hi then
    let x := if ltb x lo then lo else x in
    Some (if ltb hi x then hi else x)
  else None.

(** [x.ceil() as u32]: NaN gives 0, the rest saturates. *)
Definition ceil_to_u32 (x : t) : Z :=
  match x with
  | S754_zero _ | S754_nan => 0
  | S754_infinity s => if s then 0 else Int.umax 32
  | S754_finite s m e =>
      let v := if s then Zneg m else Zpos m in
      let c := if 0 <=? e then v * 2 ^ e else - ((- v) / 2 ^ (- e)) in
      Int.limit 0 (Int.umax 32) c
  end.

(** The order: a key whose lexicographic comparison is the float's. *)
Definition key (x : t) : option (Z * Z * Z) :=
  match x with
  | S754_nan => None
  | S754_infinity true => Some (-2, 0, 0)
  | S754_finite true m e => Some (-1, - e, Zneg m)
  | S754_zero _ => Some (0, 0, 0)
  | S754_finite false m e => Some (1, e, Zpos m)
  | S754_infinity false => Some (2, 0, 0)
  end.
Definition key_lt (a b : Z * Z * Z) : Prop :=
  let '(a1, a2, a3) := a in
  let '(b1, b2, b3) := b in
  a1 < b1 \/ a1 = b1 /\ (a2 < b2 \/ a2 = b2 /\ a3 < b3).

Lemma compare_spec x y :
  match SFcompare x y, key x, key y with
  | None, kx, ky => kx = None \/ ky = None
  | Some Lt, Some kx, Some ky => key_lt kx ky
  | Some Eq, Some kx, Some ky => kx = ky
  | Some Gt, Some kx, Some ky => key_lt ky kx
  | _, _, _ => False
  end.
Proof.
  destruct x as [[]|[]| |[] m e], y as [[]|[]| |[] n f]; simpl; auto; try lia;
    change (PosDef.Pos.compare_cont Eq m n) with (Pos.compare m n);
    destruct (Z.compare_spec e f), (Pos.compare_spec m n); simpl; subst; auto; lia.
Qed.

Lemma key_lt_trans a b c : key_lt a b -> key_lt b c -> key_lt a c.
Proof. destruct a as [[]], b as [[]], c as [[]]. simpl. lia. Qed.

Lemma key_lt_irrefl a : ~ key_lt a a.
Proof. destruct a as [[]]. simpl. lia. Qed.

Lemma ltb_key x y :
  ltb x y = true <-> exists kx ky, key x = Some kx /\ key y = Some ky /\ key_lt kx ky.
Proof.
  pose proof (compare_spec x y) as S. unfold ltb, SFltb.
  destruct (SFcompare x y) as [[]|], (key x) as [kx|], (key y) as [ky|]; try done;
    (split; [intros ?; try done; eauto 6|intros (kx' & ky' & ? & ? & L); simplify_eq; try done]);
    try (destruct S; done); exfalso.
  - by eapply key_lt_irrefl.
  - eapply key_lt_irrefl, key_lt_trans; eauto.
Qed.

Lemma leb_key x y :
  leb x y = true <->
  exists kx ky, key x = Some kx /\ key y = Some ky /\ (kx = ky \/ key_lt kx ky).
Proof.
  pose proof (compare_spec x y) as S. unfold leb, SFleb.
  destruct (SFcompare x y) as [[]|], (key x) as [kx|], (key y) as [ky|]; try done;
    (split; [intros ?; try done; eauto 7|intros (kx' & ky' & ? & ? & L); simplify_eq; try done]);
    try (destruct S; done); exfalso.
  destruct L as [->|L]; [by eapply key_lt_irrefl|].
  eapply key_lt_irrefl, key_lt_trans; eauto.
Qed.

Lemma leb_trans x y z : leb x y = true -> leb y z = true -> leb x z = true.
Proof.
  rewrite !leb_key. intros (a & b & ? & ? & H1) (b' & c & ? & ? & H2).
  exists a, c. simplify_eq.
  destruct H1 as [->|H1], H2 as [->|H2]; eauto using key_lt_trans.
Qed.

Lemma leb_refl x : is_nan x = false -> leb x x = true.
Proof.
  intros H. rewrite leb_key. destruct (key x) as [k|] eqn:E; [eauto 6|].
  by destruct x as [[]|[]| |[]].
Qed.

Lemma ltb_leb x y : ltb x y = true -> leb x y = true.
Proof. rewrite ltb_key, leb_key. intros (a & b & ? & ? & ?). eauto 7. Qed.

(** On numbers the order is total. *)
Lemma not_ltb_leb x y :
  is_nan x = false -> is_nan y = false -> ltb x y = false -> leb y x = true.
Proof.
  intros Hx Hy H. rewrite leb_key.
  pose proof (compare_spec x y) as S. unfold ltb, SFltb in H.
  destruct (key x) as [kx|] eqn:Ex; [|by destruct x as [[]|[]| |[]]].
  destruct (key y) as [ky|] eqn:Ey; [|by destruct y as [[]|[]| |[]]].
  destruct (SFcompare x y) as [[]|]; try done; subst; eauto 7.
  by destruct S.
Qed.

Lemma leb_not_nan x y : leb x y = true -> is_nan x = false /\ is_nan y = false.
Proof. rewrite leb_key. intros (?&?&?&?&?). by destruct x, y. Qed.

Lemma leb_not_ltb x y : leb x y = true -> ltb y x = false.
Proof.
  intros H. destruct (ltb y x) eqn:E; [|done]. exfalso.
  apply ltb_key in E as (a & b & ? & ? & L). apply leb_key in H as (a' & b' & ? & ? & L').
  simplify_eq. destruct L' as [->|L']; [by eapply key_lt_irrefl|].
  eapply key_lt_irrefl, key_lt_trans; eauto.
Qed.

Lemma clamp_Some lo hi x r :
  is_nan x = false -> clamp lo hi x = Some r -> leb lo r = true /\ leb r hi = true.
Proof.
  unfold clamp. intros Hx H. destruct (leb lo hi) eqn:L; [|done].
  destruct (leb_not_nan _ _ L) as [? ?]. injection H as H.
  destruct (ltb x lo) eqn:E1.
  - rewrite (leb_not_ltb _ _ L) in H. subst. auto using leb_refl.
  - destruct (ltb hi x) eqn:E2; subst; auto using leb_refl, not_ltb_leb.
Qed.

Lemma clamp_defined lo hi x : leb lo hi = true -> is_Some (clamp lo hi x).
Proof. unfold clamp. intros ->. eauto. Qed.

Lemma max_ub_l x y : is_nan x = false -> leb x (max x y) = true.
Proof.
  intros Hx. unfold max. rewrite Hx. destruct (is_nan y); [by apply leb_refl|].
  destruct (ltb x y) eqn:E; [by apply ltb_leb|by apply leb_refl].
Qed.

Lemma max_ub_r x y : is_nan y = false -> leb y (max x y) = true.
Proof.
  intros Hy. unfold max. rewrite Hy. destruct (is_nan x) eqn:Hx; [by apply leb_refl|].
  destruct (ltb x y) eqn:E; [by apply leb_refl|by apply not_ltb_leb].
Qed.

Lemma max_lub x y z : leb x z = true -> leb y z = true -> leb (max x y) z = true.
Proof. intros. unfold max. by repeat case_match. Qed.

(** A product of numbers that are not infinite is a number. *)
Definition is_finite (x : t) : bool :=
  match x with S754_zero _ | S754_finite _ _ _ => true | _ => false end.

Lemma shr_1_nonneg r : 0 <= shr_m r -> 0 <= shr_m (shr_1 r).
Proof. destruct r as [[|[]|] ? ?]; simpl; lia. Qed.

Lemma iter_shr_nonneg n r : 0 <= shr_m r -> 0 <= shr_m (SpecFloat.iter_pos shr_1 n r).
Proof. revert r. induction n; simpl; auto using shr_1_nonneg. Qed.

Lemma shr_fexp_nonneg m e l : 0 <= m -> 0 <= shr_m (fst (shr_fexp prec emax m e l)).
Proof.
  intros. unfold shr_fexp, shr.
  assert (0 <= shr_m (shr_record_of_loc m l)) by (by destruct l as [|[]]).
  destruct (_ - _); simpl; auto using iter_shr_nonneg.
Qed.

Lemma binary_round_aux_not_nan s m e l :
  0 <= m -> is_nan (binary_round_aux prec emax s m e l) = false.
Proof.
  intros Hm. unfold binary_round_aux.
  pose proof (shr_fexp_nonneg m e l Hm) as H1. destruct (shr_fexp _ _ m e l) as [r e'].
  set (m' := round_nearest_even _ _).
  assert (0 <= m') as H2.
  { subst m'. simpl in H1. unfold round_nearest_even. repeat case_match; lia. }
  pose proof (shr_fexp_nonneg m' e' loc_Exact H2) as H3.
  destruct (shr_fexp _ _ m' e' _) as [r' e'']. simpl in H3.
  destruct (shr_m r'); [done| |lia]. by destruct (_ <=? _).
Qed.

Lemma mul_not_nan x y :
  is_finite x = true -> is_finite y = true -> is_nan (mul x y) = false.
Proof.
  destruct x, y; try done. intros _ _. unfold mul, SFmul.
  apply binary_round_aux_not_nan. lia.
Qed.

(** What lies between two finite bounds is finite. *)
Lemma between_finite lo hi x :
  is_finite lo = true -> is_finite hi = true ->
  leb lo x = true -> leb x hi = true -> is_finite x = true.
Proof.
  intros Hl Hh H1 H2.
  destruct x as [|[]| |]; try done; [destruct lo as [|[]| |[]]|destruct hi as [|[]| |[]]];
    try done; by destruct lo.
Qed.
End F32.
