(* ===== verification/NetAddr.v ===== *)
(** * IP addresses, as [std::net] reads and writes them

    What the components use of [IpAddr], [Ipv4Addr] and [Ipv6Addr]: the parser of
    [FromStr], the text of [Display] for IPv6, the loopback test and the network
    masks.  An address is its number, big endian: a [u32] or a [u128]. *)

From S2P Require Import Prelude.

Inductive IpAddr := V4 (a : Z) | V6 (a : Z).

#[export] Instance IpAddr_eq_dec : EqDecision IpAddr.
Proof. solve_decision. Defined.

(** ** [FromStr] *)

Definition to_digit (radix c : Z) : option Z :=
  let d := if Str.is_ascii_digit c then Some (c - 48)
           else if Str.is_ascii_lower c then Some (c - 87)
           else if Str.is_ascii_upper c then Some (c - 55) else None in
  match d with
  | Some d => if d <? radix then Some d else None
  | None => None
  end.

Fixpoint read_digits (radix acc : Z) (count : nat) (p : rstr) : Z * nat * rstr :=
  match p with
  | c :: p' =>
      match to_digit radix c with
      | Some d => read_digits radix (acc * radix + d) (S count) p'
      | None => (acc, count, p)
      end
  | [] => (acc, count, p)
  end.

(** [read_number] with at most [max_digits] digits and a value up to [max]. *)
Definition read_number (radix : Z) (max_digits : nat) (max : Z) (allow_zero_prefix : bool)
    (p : rstr) : option (Z * rstr) :=
  let '(v, count, p') := read_digits radix 0 0 p in
  let leading := match p with c :: _ => c =? 48 | [] => false end in
  if (count =? 0)%nat || (max_digits <? count)%nat || (max <? v) then None
  else if negb allow_zero_prefix && leading && (1 <? count)%nat then None
  else Some (v, p').

Definition read_char (c : Z) (p : rstr) : option rstr :=
  match p with
  | x :: p' => if x =? c then Some p' else None
  | [] => None
  end.

(** [read_separator]: the separator comes before every item but the first. *)
Definition read_separator (sep : Z) (index : nat) (inner : rstr -> option (Z * rstr))
    (p : rstr) : option (Z * rstr) :=
  match index with
  | O => inner p
  | S _ => p ← read_char sep p; inner p
  end.

Definition read_octet : rstr -> option (Z * rstr) := read_number 10 3 255 false.

Definition read_ipv4 (p : rstr) : option (Z * rstr) :=
  '(a, p) ← read_separator 46 0 read_octet p;
  '(b, p) ← read_separator 46 1 read_octet p;
  '(c, p) ← read_separator 46 2 read_octet p;
  '(d, p) ← read_separator 46 3 read_octet p;
  Some (((a * 256 + b) * 256 + c) * 256 + d, p).

(** [read_groups] with [n] groups left: the groups read, whether the last two are
    an embedded IPv4 address, and the rest. *)
Fixpoint read_groups (n i : nat) (p : rstr) : list Z * bool * rstr :=
  match n with
  | O => ([], false, p)
  | S n' =>
      match (if (0 <? n')%nat then read_separator 58 i read_ipv4 p else None) with
      | Some (v4, p') => ([v4 / 2 ^ 16; v4 mod 2 ^ 16], true, p')
      | None =>
          match read_separator 58 i (read_number 16 4 65535 true) p with
          | Some (g, p') =>
              let '(gs, v4, q) := read_groups n' (S i) p' in (g :: gs, v4, q)
          | None => ([], false, p)
          end
      end
  end.

Definition of_segments (l : list Z) : Z := foldl (fun acc g => acc * 2 ^ 16 + g) 0 l.

Definition read_ipv6 (p : rstr) : option (Z * rstr) :=
  let '(head, head_v4, p) := read_groups 8 0 p in
  if (length head =? 8)%nat then Some (of_segments head, p)
  else if head_v4 then None
  else
    p ← read_char 58 p;
    p ← read_char 58 p;
    let '(tl, _, p) := read_groups (8 - (length head + 1)) 0 p in
    Some (of_segments (head ++ replicate (8 - length head - length tl) 0 ++ tl), p).

Definition whole {A} (r : option (A * rstr)) : option A :=
  match r with Some (a, []) => Some a | _ => None end.

Definition Ipv6Addr_from_str (s : rstr) : option Z := whole (read_ipv6 s).

Definition read_ip_addr (p : rstr) : option (IpAddr * rstr) :=
  match read_ipv4 p with
  | Some (a, p') => Some (V4 a, p')
  | None => '(a, p') ← read_ipv6 p; Some (V6 a, p')
  end.

Definition IpAddr_from_str (s : rstr) : option IpAddr := whole (read_ip_addr s).

(** ** [Display] of an IPv6 address *)

Definition show_hex_digit (d : Z) : Z := if d <? 10 then 48 + d else 87 + d.

Fixpoint hex_fuel (fuel : nat) (z : Z) (acc : rstr) : rstr :=
  match fuel with
  | O => acc
  | S f =>
      let acc' := show_hex_digit (z mod 16) :: acc in
      if z <? 16 then acc' else hex_fuel f (z / 16) acc'
  end.
Definition show_hex16 (z : Z) : rstr := hex_fuel 4 z [].

Definition segments (a : Z) : list Z :=
  (fun i => (a / 2 ^ (16 * Z.of_nat (7 - i))) mod 2 ^ 16) <$> seq 0 8.

Fixpoint join (sep : rstr) (l : list rstr) : rstr :=
  match l with
  | [] => []
  | [x] => x
  | x :: l' => x ++ sep ++ join sep l'
  end.

Definition show_ipv4 (a : Z) : rstr :=
  join [46] ((fun i => Str.show_nat ((a / 2 ^ (8 * Z.of_nat (3 - i))) mod 256)) <$> seq 0 4).

(** The first longest run of zero segments: its start and length. *)
Definition zero_step (s : nat * (nat * nat) * (nat * nat)) (seg : Z)
  : nat * (nat * nat) * (nat * nat) :=
  let '(i, (start, len), longest) := s in
  if seg =? 0 then
    let current := (if (len =? 0)%nat then i else start, S len) in
    (S i, current, if (longest.2 <? S len)%nat then current else longest)
  else (S i, (0%nat, 0%nat), longest).

Definition longest_zeroes (l : list Z) : nat * nat :=
  (foldl zero_step (0%nat, (0%nat, 0%nat), (0%nat, 0%nat)) l).2.

Definition show_ipv6 (a : Z) : rstr :=
  let segs := segments a in
  if a / 2 ^ 32 =? 65535 then Str.lit "::ffff:" ++ show_ipv4 (a mod 2 ^ 32)
  else
    let '(start, len) := longest_zeroes segs in
    let sub l := join [58] (show_hex16 <$> l) in
    if (1 <? len)%nat then sub (take start segs) ++ [58; 58] ++ sub (drop (start + len) segs)
    else sub segs.

(** ** Tests and masks *)

Definition LOCALHOST4 : IpAddr := V4 (127 * 2 ^ 24 + 1).
Definition LOCALHOST6 : IpAddr := V6 1.

Definition is_ipv4 (ip : IpAddr) : bool := match ip with V4 _ => true | V6 _ => false end.

Definition is_loopback (ip : IpAddr) : bool :=
  match ip with V4 a => a / 2 ^ 24 =? 127 | V6 a => a =? 1 end.

(** [MAX << (w - bits)] at width [w]. *)
Definition high_mask (w bits : Z) : Z := Int.wrap w (Z.shiftl (Int.umax w) (w - bits)).

(** * Specification *)

Definition ip_width (ip : IpAddr) : Z := if is_ipv4 ip then 32 else 128.
Definition ip_num (ip : IpAddr) : Z := match ip with V4 a => a | V6 a => a end.
Definition ip_wf (ip : IpAddr) : Prop := Int.is_u (ip_width ip) (ip_num ip).

(** * Theorems *)

Example parses :
  IpAddr_from_str <$> (Str.lit <$> ["127.0.0.1"; "::1"; "1.2.3"; "01.2.3.4"; "256.1.1.1"; "::";
    "fe80::1:2"; "1:2:3:4:5:6:7:8"; "::ffff:10.0.0.5"; "1::2::3"; "1:2:3:4:5:6:7"; "12345::"; "nas"]%string)
  = [Some LOCALHOST4; Some LOCALHOST6; None; None; None; Some (V6 0);
     Some (V6 (0xfe80 * 2 ^ 112 + 0x10002)); Some (V6 0x00010002000300040005000600070008);
     Some (V6 0xffff0a000005); None; None; None; None].
Proof. vm_compute. reflexivity. Qed.

Example shows :
  show_ipv6 <$> [0; 1; 0x20010db8 * 2 ^ 96 + 1; 0x00010002000300040005000600070008; 0xffff0a000005;
                 0x00010000000200000000000300000000]
  = (Str.lit <$> ["::"; "::1"; "2001:db8::1"; "1:2:3:4:5:6:7:8"; "::ffff:10.0.0.5";
                  "1:0:2::3:0:0"]%string).
Proof. vm_compute. reflexivity. Qed.

Lemma high_mask_testbit w bits i :
  0 <= bits <= w -> 0 <= i ->
  Z.testbit (high_mask w bits) i = (w - bits <=? i) && (i <? w).
Proof.
  intros Hb Hi. unfold high_mask, Int.wrap, Int.umax.
  replace (2 ^ w - 1) with (Z.ones w) by (rewrite Z.ones_equiv; lia).
  destruct (Z.ltb_spec i w).
  - rewrite Z.mod_pow2_bits_low, Z.shiftl_spec by lia. rewrite andb_true_r.
    destruct (Z.leb_spec (w - bits) i).
    + rewrite Z.ones_spec_low by lia. done.
    + rewrite Z.testbit_neg_r by lia. done.
  - rewrite Z.mod_pow2_bits_high by lia. by rewrite andb_false_r.
Qed.

Lemma high_mask_land w bits a :
  0 <= bits <= w -> Int.is_u w a ->
  Z.land a (high_mask w bits) = Z.shiftl (Z.shiftr a (w - bits)) (w - bits).
Proof.
  intros Hb Ha. apply Z.bits_inj'. intros i Hi.
  rewrite Z.land_spec, high_mask_testbit, Z.shiftl_spec by lia.
  destruct (Z.leb_spec (w - bits) i).
  - rewrite Z.shiftr_spec by lia. replace (i - (w - bits) + (w - bits)) with i by lia. simpl.
    destruct (Z.ltb_spec i w); [by rewrite andb_true_r|]. rewrite andb_false_r.
    unfold Int.is_u, Int.umax in Ha. destruct (decide (a = 0)) as [->|]; [by rewrite Z.bits_0|].
    symmetry. apply Z.bits_above_log2; [lia|].
    assert (Z.log2 a < w) by (apply Z.log2_lt_pow2; lia). lia.
  - rewrite andb_false_r. rewrite Z.testbit_neg_r by lia. done.
Qed.

(** Two addresses agree under the mask exactly when they share the prefix. *)
Lemma high_mask_eq w bits a b :
  0 <= bits <= w -> Int.is_u w a -> Int.is_u w b ->
  Z.land a (high_mask w bits) = Z.land b (high_mask w bits)
  <-> Z.shiftr a (w - bits) = Z.shiftr b (w - bits).
Proof.
  intros Hb Ha Hb'. rewrite !high_mask_land by done. split; [|by intros ->].
  intros E%(f_equal (fun x => Z.shiftr x (w - bits))).
  rewrite !Z.shiftr_shiftl_l, !Z.sub_diag, !Z.shiftl_0_r in E by lia. done.
Qed.

(** ** Parsed addresses are in range *)

Lemma to_digit_range radix c d : to_digit radix c = Some d -> 0 <= d < radix.
Proof.
  unfold to_digit, Str.is_ascii_digit, Str.is_ascii_lower, Str.is_ascii_upper.
  intros H. destruct ((48 <=? c) && (c <=? 57)) eqn:E1; [|destruct ((97 <=? c) && (c <=? 122)) eqn:E2;
    [|destruct ((65 <=? c) && (c <=? 90)) eqn:E3]]; try done;
  rewrite ?andb_true_iff, ?Z.leb_le in *; zbool; simplify_eq; lia.
Qed.

Lemma read_digits_nonneg radix acc n p :
  0 <= radix -> 0 <= acc -> 0 <= (read_digits radix acc n p).1.1.
Proof.
  intros Hr. revert acc n. induction p as [|c p IH]; simpl; intros acc n Ha; [done|].
  destruct (to_digit radix c) as [d|] eqn:E; [|done]. apply to_digit_range in E. apply IH. nia.
Qed.

Lemma read_number_range radix n mx z p v q :
  0 <= radix -> read_number radix n mx z p = Some (v, q) -> 0 <= v <= mx.
Proof.
  unfold read_number. intros Hr H. pose proof (read_digits_nonneg radix 0 0 p Hr ltac:(lia)).
  destruct (read_digits _ _ _ _) as [[w k] r]. simpl in *.
  destruct (_ || _) eqn:E; [done|]. destruct (_ && _); [done|]. simplify_eq.
  apply orb_false_iff in E as [_ ?%Z.ltb_ge]. lia.
Qed.

Lemma read_separator_Some sep i inner p r :
  read_separator sep i inner p = Some r -> exists p', inner p' = Some r.
Proof.
  unfold read_separator. destruct i; [eauto|]. destruct (read_char _ _); [simpl; eauto|done].
Qed.

Lemma read_ipv4_range p v q : read_ipv4 p = Some (v, q) -> Int.is_u 32 v.
Proof.
  assert (forall i p v q, read_separator 46 i read_octet p = Some (v, q) -> 0 <= v <= 255) as Ho.
  { intros i p' v' q' (p'' & E)%read_separator_Some. by apply read_number_range in E. }
  unfold read_ipv4. intros H.
  repeat (match type of H with context [read_separator ?s ?i ?f ?p] =>
    let E := fresh "E" in
    destruct (read_separator s i f p) as [[? ?]|] eqn:E; [|done]; apply Ho in E;
    cbn [mbind option_bind] in H end).
  injection H as <- <-. unfold Int.is_u, Int.umax. lia.
Qed.

Lemma read_groups_range n i p :
  let '(gs, _, _) := read_groups n i p in
  (length gs <= n)%nat /\ Forall (fun g => 0 <= g < 2 ^ 16) gs.
Proof.
  revert i p. induction n as [|n IH]; intros i p; cbn [read_groups]; [by split|].
  destruct (if (0 <? n)%nat then _ else None) as [[v4 q]|] eqn:E.
  - destruct (Nat.ltb_spec 0 n); [|done]. apply read_separator_Some in E as [? E].
    apply read_ipv4_range in E as [? Hv]. unfold Int.umax in Hv. simpl. split; [lia|].
    repeat constructor; try (apply Z.mod_pos_bound; lia); [apply Z.div_pos; lia|].
    apply Z.div_lt_upper_bound; lia.
  - clear E. destruct (read_separator 58 i (read_number 16 4 65535 true) p) as [[g q]|] eqn:E';
      [|by split; [simpl; lia|constructor]].
    apply read_separator_Some in E' as [? E']. apply read_number_range in E'; [|done].
    specialize (IH (S i) q). destruct (read_groups n (S i) q) as [[gs b] r].
    destruct IH. split; [simpl; lia|]. constructor; [lia|done].
Qed.

Lemma of_segments_range l acc :
  0 <= acc -> Forall (fun g => 0 <= g < 2 ^ 16) l ->
  0 <= foldl (fun acc g => acc * 2 ^ 16 + g) acc l < (acc + 1) * 2 ^ (16 * Z.of_nat (length l)).
Proof.
  intros Ha H. revert acc Ha. induction H as [|g l Hg _ IH]; intros acc Ha; simpl foldl.
  - simpl. lia.
  - specialize (IH (acc * 2 ^ 16 + g) ltac:(nia)).
    replace (16 * Z.of_nat (length (g :: l))) with (16 + 16 * Z.of_nat (length l)) by (simpl; lia).
    rewrite Z.pow_add_r by lia.
    assert (0 < 2 ^ (16 * Z.of_nat (length l))) by (apply Z.pow_pos_nonneg; lia). nia.
Qed.

Lemma read_ipv6_range p v q : read_ipv6 p = Some (v, q) -> Int.is_u 128 v.
Proof.
  assert (forall l, length l = 8%nat -> Forall (fun g => 0 <= g < 2 ^ 16) l ->
    Int.is_u 128 (of_segments l)) as Hl.
  { intros l Hn Hf. pose proof (of_segments_range l 0 ltac:(lia) Hf) as H. rewrite Hn in H.
    unfold Int.is_u, Int.umax, of_segments. change (16 * Z.of_nat 8) with 128 in H. lia. }
  unfold read_ipv6. pose proof (read_groups_range 8 0 p) as Hh.
  destruct (read_groups 8 0 p) as [[head v4] r]. destruct Hh as [Hlen Hh].
  destruct (Nat.eqb_spec (length head) 8); [intros [= <- <-]; by apply Hl|].
  destruct v4; [done|]. destruct (read_char 58 r) as [r1|]; [|done]. cbn [mbind option_bind].
  destruct (read_char 58 r1) as [r2|]; [|done]. cbn [mbind option_bind].
  pose proof (read_groups_range (8 - (length head + 1)) 0 r2) as Ht.
  destruct (read_groups (8 - _) 0 r2) as [[tl b] r3]. destruct Ht as [Htl Ht].
  intros [= <- <-]. apply Hl.
  - rewrite !length_app, length_replicate. lia.
  - apply Forall_app; split; [done|]. apply Forall_app; split; [|done].
    apply Forall_replicate. lia.
Qed.

Lemma Ipv6Addr_from_str_range s v : Ipv6Addr_from_str s = Some v -> Int.is_u 128 v.
Proof.
  unfold Ipv6Addr_from_str, whole. destruct (read_ipv6 s) as [[a [|]]|] eqn:E; try done.
  intros [= <-]. by eapply read_ipv6_range.
Qed.

Lemma IpAddr_from_str_wf s ip : IpAddr_from_str s = Some ip -> ip_wf ip.
Proof.
  unfold IpAddr_from_str, read_ip_addr. destruct (read_ipv4 s) as [[a q]|] eqn:E; simpl.
  - destruct q; [|done]. intros [= <-]. by apply read_ipv4_range in E.
  - destruct (read_ipv6 s) as [[a [|]]|] eqn:E6; try done. intros [= <-].
    by apply read_ipv6_range in E6.
Qed.

#[export] Hint Resolve Ipv6Addr_from_str_range IpAddr_from_str_wf : clanto.
