(* ===== verification/VideoQos.v ===== *)
(** * Video quality of service: [src/server/video_qos.rs]

    The controller that picks the capture frame rate and the encoder's bitrate
    ratio from the delays of the viewers' probe replies.  [Rtt] is the baseline
    estimator, [Delay] one viewer's adaptation state, [Qos] the shared
    controller.  Ratios are binary32 floats ([Prelude.F32]), frame rates and
    delays unsigned integers.  An [Instant] is a count of nanoseconds and is an
    argument of the operations that read the clock.  The operations that can
    panic are [f32::clamp] and [u32::clamp], when their bounds are in the wrong
    order; they make the operations that reach them partial. *)

From S2P Require Import Prelude.

(** ** Constants *)

Definition FPS : Z := 30.
Definition MIN_FPS : Z := 1.
Definition MAX_FPS : Z := 120.
Definition INIT_FPS : Z := 15.
Definition MIN_AUTO_FPS : Z := 5.
Definition BR_MAX : F32.t := F32.of_Z 40.
Definition BR_MIN : F32.t := F32.lit 2 10.
Definition BR_MIN_HIGH_RESOLUTION : F32.t := F32.lit 1 10.
Definition MAX_BR_MULTIPLE : F32.t := F32.of_Z 1.
Definition HISTORY_DELAY_LEN : Z := 2.
Definition ADJUST_RATIO_INTERVAL : Z := 3.
Definition DYNAMIC_SCREEN_THRESHOLD : Z := 2.
Definition DELAY_THRESHOLD_150MS : Z := 150.
Definition RESTORE_GUARD_SAMPLES : Z := 5.
Definition BR_BEST : F32.t := F32.lit 15 10.
Definition BR_BALANCED : F32.t := F32.lit 67 100.
Definition BR_SPEED : F32.t := F32.lit 5 10.

Inductive Quality := Best | Balanced | Low | Custom (v : F32.t).

Definition quality_ratio (q : Quality) : F32.t :=
  match q with
  | Best => BR_BEST
  | Balanced => BR_BALANCED
  | Low => BR_SPEED
  | Custom v => v
  end.

(** [iter().min()]: [None] on an empty iterator. *)
Fixpoint min_list (l : list Z) : option Z :=
  match l with
  | [] => None
  | x :: l' => Some (match min_list l' with Some m => Z.min x m | None => x end)
  end.

(** [VecDeque]: drop the front when [n] elements are held, then push back. *)
Definition push_bounded (n : Z) (l : list Z) (x : Z) : list Z :=
  (if n <=? Z.of_nat (length l) then tail l else l) ++ [x].

(** ** The baseline estimator *)

Module Rtt.
Record RttCalculator := mk { baseline : option Z; samples : list Z }.
Definition default : RttCalculator := mk None [].

Definition WINDOW_SAMPLES : Z := 20.
Definition MAX_INCREASE_MS : Z := 50.

Definition update (r : RttCalculator) (delay : Z) : RttCalculator :=
  let samples := push_bounded WINDOW_SAMPLES (samples r) delay in
  let base := Z.min (stdpp.option.default delay (baseline r)) delay in
  let r' := mk (Some base) samples in
  if Z.of_nat (length samples) <? WINDOW_SAMPLES then r'
  else
    let half := Z.to_nat (WINDOW_SAMPLES / 2) in
    match min_list (take half samples), min_list (drop half samples) with
    | Some older_min, Some recent_min =>
        if Int.sat_addu 32 older_min 10 <? recent_min then r'
        else
          let rise := Int.sat_subu (Z.min older_min recent_min) base in
          if 0 <? rise
          then mk (Some (base + Int.clamp_const 1 MAX_INCREASE_MS eq_refl (rise / 2))) samples
          else r'
    | _, _ => r'
    end.

Definition get_rtt (r : RttCalculator) : option Z := baseline r.
End Rtt.

(** ** One viewer's adaptation state *)

Module Delay.
Record UserDelay := mk {
  stall_ticks : Z;
  delay_history : list Z;
  fps : option Z;
  rtt_calculator : Rtt.RttCalculator;
  quick_increase_fps_count : Z;
  increase_fps_count : Z;
  consecutive_bad_samples : Z;
  fps_bad_samples : Z;
  good_samples : Z;
  replies_after_bitrate_reduction : option Z;
  fps_before_congestion : option Z;
  samples_since_restore : option Z;
  stall_reference_fps : option Z;
  startup_good_samples : Z;
}.
Definition default : UserDelay :=
  mk 0 [] None Rtt.default 0 0 0 0 0 None None None None 0.

(** Field assignments. *)
Definition set_stall_ticks v (d : UserDelay) : UserDelay :=
  mk v (delay_history d) (fps d) (rtt_calculator d) (quick_increase_fps_count d)
     (increase_fps_count d) (consecutive_bad_samples d) (fps_bad_samples d)
     (good_samples d) (replies_after_bitrate_reduction d) (fps_before_congestion d)
     (samples_since_restore d) (stall_reference_fps d) (startup_good_samples d).
Definition set_delay_history v (d : UserDelay) : UserDelay :=
  mk (stall_ticks d) v (fps d) (rtt_calculator d) (quick_increase_fps_count d)
     (increase_fps_count d) (consecutive_bad_samples d) (fps_bad_samples d)
     (good_samples d) (replies_after_bitrate_reduction d) (fps_before_congestion d)
     (samples_since_restore d) (stall_reference_fps d) (startup_good_samples d).
Definition set_fps v (d : UserDelay) : UserDelay :=
  mk (stall_ticks d) (delay_history d) v (rtt_calculator d)
     (quick_increase_fps_count d) (increase_fps_count d) (consecutive_bad_samples d)
     (fps_bad_samples d) (good_samples d) (replies_after_bitrate_reduction d)
     (fps_before_congestion d) (samples_since_restore d) (stall_reference_fps d)
     (startup_good_samples d).
Definition set_rtt_calculator v (d : UserDelay) : UserDelay :=
  mk (stall_ticks d) (delay_history d) (fps d) v (quick_increase_fps_count d)
     (increase_fps_count d) (consecutive_bad_samples d) (fps_bad_samples d)
     (good_samples d) (replies_after_bitrate_reduction d) (fps_before_congestion d)
     (samples_since_restore d) (stall_reference_fps d) (startup_good_samples d).
Definition set_quick_increase_fps_count v (d : UserDelay) : UserDelay :=
  mk (stall_ticks d) (delay_history d) (fps d) (rtt_calculator d) v
     (increase_fps_count d) (consecutive_bad_samples d) (fps_bad_samples d)
     (good_samples d) (replies_after_bitrate_reduction d) (fps_before_congestion d)
     (samples_since_restore d) (stall_reference_fps d) (startup_good_samples d).
Definition set_increase_fps_count v (d : UserDelay) : UserDelay :=
  mk (stall_ticks d) (delay_history d) (fps d) (rtt_calculator d)
     (quick_increase_fps_count d) v (consecutive_bad_samples d) (fps_bad_samples d)
     (good_samples d) (replies_after_bitrate_reduction d) (fps_before_congestion d)
     (samples_since_restore d) (stall_reference_fps d) (startup_good_samples d).
Definition set_consecutive_bad_samples v (d : UserDelay) : UserDelay :=
  mk (stall_ticks d) (delay_history d) (fps d) (rtt_calculator d)
     (quick_increase_fps_count d) (increase_fps_count d) v (fps_bad_samples d)
     (good_samples d) (replies_after_bitrate_reduction d) (fps_before_congestion d)
     (samples_since_restore d) (stall_reference_fps d) (startup_good_samples d).
Definition set_fps_bad_samples v (d : UserDelay) : UserDelay :=
  mk (stall_ticks d) (delay_history d) (fps d) (rtt_calculator d)
     (quick_increase_fps_count d) (increase_fps_count d) (consecutive_bad_samples d) v
     (good_samples d) (replies_after_bitrate_reduction d) (fps_before_congestion d)
     (samples_since_restore d) (stall_reference_fps d) (startup_good_samples d).
Definition set_good_samples v (d : UserDelay) : UserDelay :=
  mk (stall_ticks d) (delay_history d) (fps d) (rtt_calculator d)
     (quick_increase_fps_count d) (increase_fps_count d) (consecutive_bad_samples d)
     (fps_bad_samples d) v (replies_after_bitrate_reduction d)
     (fps_before_congestion d) (samples_since_restore d) (stall_reference_fps d)
     (startup_good_samples d).
Definition set_replies_after_bitrate_reduction v (d : UserDelay) : UserDelay :=
  mk (stall_ticks d) (delay_history d) (fps d) (rtt_calculator d)
     (quick_increase_fps_count d) (increase_fps_count d) (consecutive_bad_samples d)
     (fps_bad_samples d) (good_samples d) v (fps_before_congestion d)
     (samples_since_restore d) (stall_reference_fps d) (startup_good_samples d).
Definition set_fps_before_congestion v (d : UserDelay) : UserDelay :=
  mk (stall_ticks d) (delay_history d) (fps d) (rtt_calculator d)
     (quick_increase_fps_count d) (increase_fps_count d) (consecutive_bad_samples d)
     (fps_bad_samples d) (good_samples d) (replies_after_bitrate_reduction d) v
     (samples_since_restore d) (stall_reference_fps d) (startup_good_samples d).
Definition set_samples_since_restore v (d : UserDelay) : UserDelay :=
  mk (stall_ticks d) (delay_history d) (fps d) (rtt_calculator d)
     (quick_increase_fps_count d) (increase_fps_count d) (consecutive_bad_samples d)
     (fps_bad_samples d) (good_samples d) (replies_after_bitrate_reduction d)
     (fps_before_congestion d) v (stall_reference_fps d) (startup_good_samples d).
Definition set_stall_reference_fps v (d : UserDelay) : UserDelay :=
  mk (stall_ticks d) (delay_history d) (fps d) (rtt_calculator d)
     (quick_increase_fps_count d) (increase_fps_count d) (consecutive_bad_samples d)
     (fps_bad_samples d) (good_samples d) (replies_after_bitrate_reduction d)
     (fps_before_congestion d) (samples_since_restore d) v (startup_good_samples d).
Definition set_startup_good_samples v (d : UserDelay) : UserDelay :=
  mk (stall_ticks d) (delay_history d) (fps d) (rtt_calculator d)
     (quick_increase_fps_count d) (increase_fps_count d) (consecutive_bad_samples d)
     (fps_bad_samples d) (good_samples d) (replies_after_bitrate_reduction d)
     (fps_before_congestion d) (samples_since_restore d) (stall_reference_fps d) v.

Definition rtt_or_0 (d : UserDelay) : Z :=
  stdpp.option.default 0 (Rtt.get_rtt (rtt_calculator d)).

Definition add_delay (d : UserDelay) (delay : Z) : UserDelay :=
  set_delay_history (push_bounded HISTORY_DELAY_LEN (delay_history d) delay) d.

(** The first reduction of an episode remembers the level to return to. *)
Definition on_reduction (d : UserDelay) (current_fps : Z) : UserDelay :=
  let d := set_startup_good_samples (Int.umax 8) d in
  let d := set_good_samples 0 d in
  let d := set_fps_bad_samples 0 d in
  match fps_before_congestion d with
  | None => set_fps_before_congestion (Some current_fps) d
  | Some _ => d
  end.

Definition recover (d : UserDelay) (current_fps fps : Z) : UserDelay * Z :=
  let gradual := current_fps + Z.max (current_fps / 10) 1 in
  let level :=
    match fps_before_congestion d with
    | Some l => if current_fps <? l then Some l else None
    | None => None
    end in
  match level with
  | Some l =>
      if (good_samples d =? 2) || (good_samples d =? 3) then
        (set_samples_since_restore (Some 0) (set_fps_before_congestion None d), Z.max fps l)
      else (d, gradual)
  | None =>
      if good_samples d =? 3 then
        (set_fps_before_congestion None d,
         Z.max fps (current_fps + Z.max (current_fps / 5) 2))
      else (d, gradual)
  end.

(** [is_some_and(|samples| samples <= RESTORE_GUARD_SAMPLES)] *)
Definition recently_restored (d : UserDelay) : bool :=
  match samples_since_restore d with
  | Some s => s <=? RESTORE_GUARD_SAMPLES
  | None => false
  end.

Definition limit_fps_change (d : UserDelay) (current_fps fps delay : Z)
    (bitrate_first braked : bool) : UserDelay * Z :=
  let delay := Int.sat_subu delay (rtt_or_0 d) in
  let d := set_samples_since_restore
             ((fun s => Int.sat_addu 8 s 1) <$> samples_since_restore d) d in
  if delay <? DELAY_THRESHOLD_150MS then
    let d := set_consecutive_bad_samples 0 d in
    let d := set_fps_bad_samples 0 d in
    let d := set_replies_after_bitrate_reduction None d in
    let d := set_good_samples (Z.min (good_samples d + 1) 3) d in
    recover d current_fps fps
  else
    let d := set_consecutive_bad_samples (Z.min (consecutive_bad_samples d + 1) 3) d in
    let d := set_fps_bad_samples (Z.min (fps_bad_samples d + 1) 3) d in
    let d := set_replies_after_bitrate_reduction
               ((fun r => Z.min (r + 1) 2) <$> replies_after_bitrate_reduction d) d in
    let failed_restore := (600 <=? delay) && recently_restored d in
    let d :=
      if recently_restored d && (failed_restore || (3 <=? consecutive_bad_samples d))
      then set_samples_since_restore None
             (set_fps_before_congestion (Some (current_fps - current_fps / 4)) d)
      else d in
    if (current_fps <=? fps) || braked then (d, current_fps)
    else if negb failed_restore && (delay <? 1000)
            && ((fps_bad_samples d <? 3)
                || (bitrate_first
                    && (stdpp.option.default 0 (replies_after_bitrate_reduction d) <? 2)))
    then (d, current_fps)
    else
      let divisor := if (1000 <=? delay) || failed_restore then 2 else 5 in
      (on_reduction d current_fps,
       Z.max fps (Int.sat_subu current_fps (Z.max (current_fps / divisor) 1))).

Definition accelerate_startup (d : UserDelay) (current_fps fps cap delay : Z)
    (braked : bool) : UserDelay * Z :=
  if startup_good_samples d =? Int.umax 8 then (d, fps)
  else
    let excess := Int.sat_subu delay (rtt_or_0 d) in
    if braked || (50 <=? excess) || (cap <=? current_fps)
    then (set_startup_good_samples (Int.umax 8) d, fps)
    else
      let d := set_startup_good_samples (startup_good_samples d + 1) d in
      if startup_good_samples d <? 2 then (d, fps)
      else
        let d := set_startup_good_samples 0 d in
        let accelerated := Z.min (Z.max fps (Z.min (current_fps * 2) (Int.umax 32))) cap in
        if cap <=? accelerated
        then (set_startup_good_samples (Int.umax 8) d, accelerated)
        else (d, accelerated).

Definition needs_bitrate_reduction (d : UserDelay) : bool :=
  (2 <=? consecutive_bad_samples d) || (2 <=? stall_ticks d).

Definition avg_delay (d : UserDelay) : Z :=
  match delay_history d with
  | [] => DELAY_THRESHOLD_150MS
  | h =>
      let sum := foldl (fun acc x => Int.wrap 32 (acc + x)) 0 h in
      Int.sat_subu (sum / Z.of_nat (length h)) (rtt_or_0 d)
  end.

Definition ratio_reduction (d : UserDelay) : option F32.t :=
  if negb (needs_bitrate_reduction d) then None
  else
    let excess := avg_delay d in
    let confirmed := 3 <=? consecutive_bad_samples d in
    Some (if excess <? 200 then F32.lit 95 100
          else if excess <? 300 then F32.lit 9 10
          else if excess <? 500 then if confirmed then F32.lit 7 10 else F32.lit 85 100
          else if confirmed then F32.lit 5 10 else F32.lit 8 10).
End Delay.

(** ** A viewer, a display, the controller *)

Module Qos.
Record UserData := mk_user {
  auto_adjust_fps : option Z;
  custom_fps : option Z;
  quality : option (Z * Quality);
  delay : Delay.UserDelay;
  record : bool;
  joined_at : option Z;
}.
Definition default_user : UserData := mk_user None None None Delay.default false None.
Definition set_delay (d : Delay.UserDelay) (u : UserData) : UserData :=
  mk_user (auto_adjust_fps u) (custom_fps u) (quality u) d (record u) (joined_at u).

Definition fps_cap (u : UserData) : Z :=
  let fps := default FPS (custom_fps u) in
  let fps := match auto_adjust_fps u with
             | Some a => if (fps =? 0) || (a <? fps) then a else fps
             | None => fps
             end in
  Int.clamp_const MIN_FPS MAX_FPS eq_refl fps.

Record DisplayData := mk_display { send_counter : Z; support_changing_quality : bool }.
Definition default_display : DisplayData := mk_display 0 false.

(** The two [HashMap]s are finite maps; the code's iterations below take
    minima, maxima, disjunctions and conjunctions over them. *)
Record VideoQoS := mk {
  fps_ : Z;
  ratio_ : F32.t;
  users : gmap Z UserData;
  displays : gmap rstr DisplayData;
  bitrate_store : Z;
  adjust_ratio_instant : Z;
  abr_config : bool;
  first_reply_adjusts_ratio : bool;
}.
Definition set_fps v q := mk v (ratio_ q) (users q) (displays q) (bitrate_store q)
  (adjust_ratio_instant q) (abr_config q) (first_reply_adjusts_ratio q).
Definition set_ratio v q := mk (fps_ q) v (users q) (displays q) (bitrate_store q)
  (adjust_ratio_instant q) (abr_config q) (first_reply_adjusts_ratio q).
Definition set_users v q := mk (fps_ q) (ratio_ q) v (displays q) (bitrate_store q)
  (adjust_ratio_instant q) (abr_config q) (first_reply_adjusts_ratio q).
Definition set_displays v q := mk (fps_ q) (ratio_ q) (users q) v (bitrate_store q)
  (adjust_ratio_instant q) (abr_config q) (first_reply_adjusts_ratio q).
Definition set_instant v q := mk (fps_ q) (ratio_ q) (users q) (displays q)
  (bitrate_store q) v (abr_config q) (first_reply_adjusts_ratio q).
Definition set_abr v q := mk (fps_ q) (ratio_ q) (users q) (displays q)
  (bitrate_store q) (adjust_ratio_instant q) v (first_reply_adjusts_ratio q).

(** [VideoQoS::default()] on a host whose [cfg!(target_os = "linux")] is
    [linux], at the instant [now]. *)
Definition new (linux : bool) (now : Z) : VideoQoS :=
  mk FPS BR_BALANCED ∅ ∅ 0 now true (negb linux).

(** Whole seconds of [now.saturating_duration_since(instant)]. *)
Definition since_secs (now instant : Z) : Z := Z.max 0 (now - instant) / 10 ^ 9.

Definition user_list (q : VideoQoS) : list UserData := (map_to_list (users q)).*2.
Definition display_list (q : VideoQoS) : list DisplayData := (map_to_list (displays q)).*2.

Definition fps (q : VideoQoS) : Z :=
  if (MIN_FPS <=? fps_ q) && (fps_ q <=? MAX_FPS) then fps_ q else FPS.

Definition store_bitrate (q : VideoQoS) (bitrate : Z) : VideoQoS :=
  mk (fps_ q) (ratio_ q) (users q) (displays q) bitrate
    (adjust_ratio_instant q) (abr_config q) (first_reply_adjusts_ratio q).

Definition ratio (q : VideoQoS) : VideoQoS * F32.t :=
  if F32.ltb (ratio_ q) BR_MIN_HIGH_RESOLUTION || F32.ltb BR_MAX (ratio_ q)
  then (set_ratio BR_BALANCED q, BR_BALANCED)
  else (q, ratio_ q).

Definition any_record (q : VideoQoS) : bool := existsb record (user_list q).

Definition set_support_changing_quality (q : VideoQoS) (name : rstr) (support : bool)
  : VideoQoS :=
  match displays q !! name with
  | Some d => set_displays (<[name := mk_display (send_counter d) support]> (displays q)) q
  | None => q
  end.

Definition in_vbr_state (q : VideoQoS) : bool :=
  abr_config q && forallb support_changing_quality (display_list q).

Definition highest_fps (q : VideoQoS) : Z :=
  Int.clamp_const MIN_FPS MAX_FPS eq_refl (default FPS (min_list (fps_cap <$> user_list q))).

(** [max_by] over the users that chose a quality: the latest one, the last
    in iteration order among equals. *)
Definition later (best : option (Z * Quality)) (u : UserData) : option (Z * Quality) :=
  match quality u, best with
  | Some (t, k), Some (t', k') => if t <? t' then Some (t', k') else Some (t, k)
  | Some tk, None => Some tk
  | None, _ => best
  end.
Definition latest_quality (q : VideoQoS) : Quality :=
  match foldl later None (user_list q) with
  | Some (_, k) => k
  | None => Balanced
  end.

Definition min_ratio (q : VideoQoS) : F32.t :=
  let current_bitrate := bitrate_store q in
  let ratio_1mbps :=
    if 0 <? current_bitrate then
      Some (F32.max (F32.div (F32.mul (ratio_ q) (F32.of_Z 1000)) (F32.of_Z current_bitrate))
              BR_MIN_HIGH_RESOLUTION)
    else None in
  let lower (m : F32.t) :=
    match ratio_1mbps with
    | Some r => if F32.ltb r m then r else m
    | None => m
    end in
  match latest_quality q with
  | Best => F32.max (lower (F32.div BR_BEST (F32.lit 25 10))) BR_MIN
  | Balanced =>
      F32.max (lower (F32.min (F32.div BR_BALANCED (F32.of_Z 2)) (F32.lit 4 10)))
        BR_MIN_HIGH_RESOLUTION
  | Low | Custom _ => BR_MIN_HIGH_RESOLUTION
  end.

Definition can_reduce_bitrate (q : VideoQoS) : bool :=
  in_vbr_state q && negb (bool_decide (displays q = ∅))
  && F32.ltb (F32.mul (min_ratio q) (F32.lit 102 100)) (ratio_ q).

Definition reset_send_counters (q : VideoQoS) : VideoQoS :=
  set_displays ((fun d => mk_display 0 (support_changing_quality d)) <$> displays q) q.

(** The ratio that the adjustment aims at, before clamping. *)
Definition ratio_target (q : VideoQoS) (reduction : option F32.t) (max_delay : Z)
    (dynamic_screen : bool) : F32.t :=
  let current_ratio := ratio_ q in
  let current_bitrate := bitrate_store q in
  let ratio_add_150kbps :=
    if 0 <? current_bitrate then
      Some (F32.div (F32.mul (F32.of_Z (Int.wrap 32 (current_bitrate + 150))) current_ratio)
              (F32.of_Z current_bitrate))
    else None in
  let v :=
    match reduction with
    | Some factor => F32.mul current_ratio factor
    | None =>
        if max_delay <? 50 then
          if dynamic_screen then F32.mul current_ratio (F32.lit 115 100) else current_ratio
        else if max_delay <? 100 then
          if dynamic_screen then F32.mul current_ratio (F32.lit 11 10) else current_ratio
        else if dynamic_screen then F32.mul current_ratio (F32.lit 105 100)
        else current_ratio
    end in
  match ratio_add_150kbps with
  | Some r =>
      if F32.ltb r v && F32.ltb current_ratio r && F32.leb BR_SPEED current_ratio
      then r else v
  | None => v
  end.

(** A viewer that called for the reduction starts counting its replies. *)
Definition mark_reduced (lowered : bool) (u : UserData) : UserData :=
  match Delay.replies_after_bitrate_reduction (delay u) with
  | None =>
      if Delay.needs_bitrate_reduction (delay u) then
        set_delay (Delay.set_replies_after_bitrate_reduction
                     (Some (if lowered then 0 else 2)) (delay u)) u
      else u
  | Some _ => u
  end.

Definition max_list (l : list Z) : option Z :=
  match l with
  | [] => None
  | x :: l' => Some (foldl Z.max x l')
  end.

(** [filter_map(ratio_reduction).reduce(f32::min)] *)
Definition strongest_reduction (q : VideoQoS) : option F32.t :=
  match omap (fun u => Delay.ratio_reduction (delay u)) (user_list q) with
  | [] => None
  | x :: l => Some (foldl F32.min x l)
  end.

(** [None] where [clamp] would panic. *)
Definition adjust_ratio (q : VideoQoS) (now : Z) (dynamic_screen : bool)
  : option VideoQoS :=
  if negb (in_vbr_state q) then Some q
  else
    match max_list ((fun u => Delay.avg_delay (delay u)) <$> user_list q) with
    | None => Some q
    | Some max_delay =>
        let reduction := strongest_reduction q in
        if bool_decide (reduction = None) && (DELAY_THRESHOLD_150MS <=? max_delay)
        then Some (reset_send_counters q)
        else
          let target_ratio := quality_ratio (latest_quality q) in
          let current_ratio := ratio_ q in
          let min := min_ratio q in
          let max := F32.mul target_ratio MAX_BR_MULTIPLE in
          let v := ratio_target q reduction max_delay dynamic_screen in
          r ← F32.clamp min max v;
          let users' :=
            match reduction with
            | Some _ => mark_reduced (F32.ltb r current_ratio) <$> users q
            | None => users q
            end in
          let q := set_ratio r (set_users users' q) in
          Some (set_instant now (reset_send_counters q))
    end.

Definition starting_up (now : Z) (u : UserData) : bool :=
  match joined_at u with
  | Some joined => since_secs now joined <? 1
  | None => false
  end.

(** [None] where [clamp] would panic. *)
Definition adjust_fps (q : VideoQoS) (now : Z) : option VideoQoS :=
  let highest := highest_fps q in
  let f := default INIT_FPS
             (min_list ((fun u => default INIT_FPS (Delay.fps (delay u))) <$> user_list q)) in
  let f := if existsb (starting_up now) (user_list q) then Z.min f INIT_FPS else f in
  f ← Int.clamp MIN_FPS highest f;
  Some (set_fps f q).

(** *** Sessions *)

Definition on_connection_open (q : VideoQoS) (now : Z) (enable_abr : rstr) (id : Z)
  : VideoQoS :=
  let user := mk_user None None None Delay.default false (Some now) in
  set_abr (negb (bool_decide (enable_abr = Str.lit "N"))) (set_users (<[id := user]> (users q)) q).

Definition on_connection_close (linux : bool) (q : VideoQoS) (now : Z) (id : Z) : option VideoQoS :=
  let q := set_users (delete id (users q)) q in
  if bool_decide (users q = ∅) then Some (new linux now) else adjust_fps q now.

Definition update_user (q : VideoQoS) (id : Z) (f : UserData -> UserData) : VideoQoS :=
  match users q !! id with
  | Some u => set_users (<[id := f u]> (users q)) q
  | None => q
  end.

Definition user_custom_fps (q : VideoQoS) (id fps : Z) : VideoQoS :=
  if (fps <? MIN_FPS) || (MAX_FPS <? fps) then q
  else update_user q id (fun u =>
    mk_user (auto_adjust_fps u) (Some fps) (quality u) (delay u) (record u) (joined_at u)).

Definition user_auto_adjust_fps (q : VideoQoS) (id fps : Z) : VideoQoS :=
  if (fps <? MIN_FPS) || (MAX_FPS <? fps) then q
  else update_user q id (fun u =>
    mk_user (Some fps) (custom_fps u) (quality u) (delay u) (record u) (joined_at u)).

(** The protocol's [ImageQuality] values. *)
Definition ImageQuality_Low : Z := 2.
Definition ImageQuality_Balanced : Z := 3.
Definition ImageQuality_Best : Z := 4.

(** The custom ratio carried by bits 8..19 of the message's value. *)
Definition custom_ratio (k : Z) : F32.t := F32.div (F32.of_Z (k * 2)) (F32.of_Z 100).

Definition convert_quality (q : Z) : option Quality :=
  if q =? ImageQuality_Balanced then Some Balanced
  else if q =? ImageQuality_Low then Some Low
  else if q =? ImageQuality_Best then Some Best
  else
    let b := custom_ratio (Z.land (Z.shiftr q 8) 4095) in
    r ← F32.clamp BR_MIN BR_MAX b; Some (Custom r).

Definition user_image_quality (q : VideoQoS) (id image_quality time : Z)
  : option VideoQoS :=
  k ← convert_quality image_quality;
  match users q !! id with
  | None => Some q
  | Some u =>
      let u := mk_user (auto_adjust_fps u) (custom_fps u) (Some (time, k)) (delay u)
                 (record u) (joined_at u) in
      let q := set_users (<[id := u]> (users q)) q in
      Some (set_ratio (quality_ratio (latest_quality q)) q)
  end.

Definition user_record (q : VideoQoS) (id : Z) (v : bool) : VideoQoS :=
  update_user q id (fun u =>
    mk_user (auto_adjust_fps u) (custom_fps u) (quality u) (delay u) v (joined_at u)).

(** *** Probe replies *)

(** [(min_fps, normal_fps)] for the target ratio. *)
Definition fps_levels (target_ratio : F32.t) : Z * Z :=
  if F32.leb BR_BEST target_ratio then (8, 16)
  else if F32.leb BR_BALANCED target_ratio then (10, 20)
  else (12, 24).

(** The frame rate that the averaged excess delay asks for, and the two
    counters of consecutive good samples. *)
Definition fps_from_delay (min_fps normal_fps current_fps old_avg_delay avg_delay
    quick increase : Z) : Z * Z * Z :=
  let dividend_ms := DELAY_THRESHOLD_150MS * min_fps in
  let '(fps, quick) :=
    if avg_delay <? 50 then
      let quick := quick + 1 in
      let step := if current_fps <? normal_fps then 1 else 0 in
      let '(step, quick) := if 3 <=? quick then (5, 0) else (step, quick) in
      (Z.max min_fps (current_fps + step), quick)
    else if avg_delay <? 100 then
      let step :=
        if avg_delay <? old_avg_delay then if current_fps <? normal_fps then 1 else 0 else 0 in
      (Z.max min_fps (current_fps + step), quick)
    else if avg_delay <? DELAY_THRESHOLD_150MS then (Z.max min_fps current_fps, quick)
    else
      let devide_fps :=
        F32.ceil_to_u32
          (F32.div (F32.of_Z current_fps)
             (F32.div (F32.of_Z avg_delay) (F32.of_Z DELAY_THRESHOLD_150MS))) in
      (if avg_delay <? 200 then Z.max min_fps devide_fps
       else if avg_delay <? 300 then Z.min min_fps devide_fps
       else if avg_delay <? 600 then dividend_ms / avg_delay
       else Z.min (dividend_ms / avg_delay) devide_fps, quick) in
  let increase := if avg_delay <? DELAY_THRESHOLD_150MS then increase + 1 else 0 in
  let '(fps, increase) := if 3 <=? increase then (fps + 1, 0) else (fps, increase) in
  let quick := if 50 <? avg_delay then 0 else quick in
  (fps, quick, increase).

(** The body of [user_network_delay] for a known viewer: its new state and
    the flags [adjust_ratio] and [reduce_bitrate]. *)
Definition user_reply (target_ratio : F32.t) (bitrate_first : bool) (u : UserData) (delay : Z)
  : option (UserData * bool * bool) :=
  let '(min_fps, normal_fps) := fps_levels target_ratio in
  let delay := Z.max delay 10 in
  let d := Delay.set_stall_ticks 0 (Qos.delay u) in
  let braked := bool_decide (Delay.stall_reference_fps d <> None) in
  let d := Delay.set_stall_reference_fps None d in
  let old_avg_delay := Delay.avg_delay d in
  let d := if braked then d
           else Delay.set_rtt_calculator (Rtt.update (Delay.rtt_calculator d) delay) d in
  let d := Delay.add_delay d delay in
  let avg_delay := Z.max (Delay.avg_delay d) 10 in
  let user_cap := fps_cap u in
  let current_fps := default (Z.min INIT_FPS user_cap) (Delay.fps d) in
  let '(fps, quick, increase) :=
    fps_from_delay min_fps normal_fps current_fps old_avg_delay avg_delay
      (Delay.quick_increase_fps_count d) (Delay.increase_fps_count d) in
  let d := Delay.set_increase_fps_count increase (Delay.set_quick_increase_fps_count quick d) in
  let fps := if bitrate_first then Z.max fps min_fps else fps in
  let fps := Z.max fps (Z.min MIN_AUTO_FPS user_cap) in
  let '(d, fps) := Delay.limit_fps_change d current_fps fps delay bitrate_first braked in
  let '(d, fps) := Delay.accelerate_startup d current_fps fps user_cap delay braked in
  let reduce_bitrate :=
    bitrate_first && Delay.needs_bitrate_reduction d
    && bool_decide (Delay.replies_after_bitrate_reduction d = None) in
  fps ← Int.clamp MIN_FPS user_cap fps;
  let adjust_ratio := bool_decide (Delay.fps d = None) in
  Some (set_delay (Delay.set_fps (Some fps) d) u, adjust_ratio, reduce_bitrate).

Definition cooled_down (q : VideoQoS) (now : Z) : bool :=
  ADJUST_RATIO_INTERVAL <=? since_secs now (adjust_ratio_instant q).

Definition user_network_delay (q : VideoQoS) (now id delay : Z) : option VideoQoS :=
  let target_ratio := quality_ratio (latest_quality q) in
  let bitrate_first := can_reduce_bitrate q in
  '(q, want_adjust, want_reduce) ←
    match users q !! id with
    | Some u =>
        '(u', a, r) ← user_reply target_ratio bitrate_first u delay;
        Some (set_users (<[id := u']> (users q)) q, a, r)
    | None => Some (q, false, false)
    end;
  q ← adjust_fps q now;
  q ← (if want_adjust && first_reply_adjusts_ratio q && cooled_down q now
       then adjust_ratio q now false else Some q);
  (if want_reduce && cooled_down q now then adjust_ratio q now false else Some q).

(** A probe still outstanding after [elapsed] milliseconds. *)
Definition user_delay_response_elapsed (q : VideoQoS) (now id elapsed : Z) : option VideoQoS :=
  match users q !! id with
  | None => Some q
  | Some u =>
      if elapsed <=? 2000 then Some q
      else
        let d := Delay.set_stall_ticks (Int.sat_addu 8 (Delay.stall_ticks (delay u)) 1) (delay u) in
        let d := Delay.add_delay d (Int.wrap 32 elapsed) in
        let '(d, reference) :=
          match Delay.stall_reference_fps d with
          | Some reference => (d, reference)
          | None =>
              let reference := default (Z.min INIT_FPS (fps_cap u)) (Delay.fps d) in
              (Delay.on_reduction (Delay.set_stall_reference_fps (Some reference) d) reference,
               reference)
          end in
        let divisor :=
          Z.shiftl 1 (Z.min (Int.sat_subu (Int.wrap 32 (elapsed / 1000)) 1) 5) in
        let user_cap := fps_cap u in
        let current := default reference (Delay.fps d) in
        f ← Int.clamp (Z.min MIN_AUTO_FPS user_cap) user_cap (reference / divisor);
        let f := Z.min f current in
        let u := set_delay (Delay.set_fps (Some f) d) u in
        adjust_fps (set_users (<[id := u]> (users q)) q) now
  end.

(** *** Displays *)

Definition new_display (q : VideoQoS) (name : rstr) : VideoQoS :=
  set_displays (<[name := default_display]> (displays q)) q.

Definition remove_display (q : VideoQoS) (name : rstr) : VideoQoS :=
  set_displays (delete name (displays q)) q.

Definition update_display_data (q : VideoQoS) (now : Z) (name : rstr) (send_counter : Z)
  : option VideoQoS :=
  let q :=
    match displays q !! name with
    | Some d =>
        set_displays
          (<[name := mk_display (Int.wrap 64 (Qos.send_counter d + send_counter))
                       (support_changing_quality d)]> (displays q)) q
    | None => q
    end in
  q ← adjust_fps q now;
  if in_vbr_state q then
    if cooled_down q now then
      let dynamic_screen :=
        existsb (fun d => ADJUST_RATIO_INTERVAL * DYNAMIC_SCREEN_THRESHOLD <=? Qos.send_counter d)
          (display_list q) in
      adjust_ratio q now dynamic_screen
    else Some q
  else Some (set_ratio (quality_ratio (latest_quality q)) q).
End Qos.

(** * Specification *)

Definition rtt_wf (r : Rtt.RttCalculator) : Prop :=
  Z.of_nat (length (Rtt.samples r)) <= Rtt.WINDOW_SAMPLES
  /\ Forall (Int.is_u 32) (Rtt.samples r)
  /\ match Rtt.baseline r with
     | Some b => 0 <= b /\ Forall (fun s => b <= s) (Rtt.samples r)
     | None => Rtt.samples r = []
     end.

Definition opt_in (lo hi : Z) (o : option Z) : Prop :=
  match o with Some x => lo <= x <= hi | None => True end.

Record delay_wf (d : Delay.UserDelay) : Prop := {
  wf_stall : Int.is_u 8 (Delay.stall_ticks d);
  wf_hist_len : Z.of_nat (length (Delay.delay_history d)) <= HISTORY_DELAY_LEN;
  wf_hist : Forall (Int.is_u 32) (Delay.delay_history d);
  wf_fps : opt_in MIN_FPS MAX_FPS (Delay.fps d);
  wf_rtt : rtt_wf (Delay.rtt_calculator d);
  wf_quick : 0 <= Delay.quick_increase_fps_count d <= 2;
  wf_incr : 0 <= Delay.increase_fps_count d <= 2;
  wf_bad : 0 <= Delay.consecutive_bad_samples d <= 3;
  wf_fps_bad : 0 <= Delay.fps_bad_samples d <= 3;
  wf_good : 0 <= Delay.good_samples d <= 3;
  wf_replies : opt_in 0 2 (Delay.replies_after_bitrate_reduction d);
  wf_before : opt_in MIN_FPS MAX_FPS (Delay.fps_before_congestion d);
  wf_restore : opt_in 0 (Int.umax 8) (Delay.samples_since_restore d);
  wf_reference : opt_in MIN_FPS MAX_FPS (Delay.stall_reference_fps d);
  wf_startup : Delay.startup_good_samples d = 0 \/ Delay.startup_good_samples d = 1
               \/ Delay.startup_good_samples d = Int.umax 8;
}.

(** Proves [delay_wf] of a state given by field assignments to a well-formed one. *)
Ltac wf_fields :=
  unfold Int.is_u, Int.sat_addu, Int.umax, opt_in, MIN_FPS, MAX_FPS in *; simpl in *;
  repeat match goal with
  | |- context [_ <$> ?o] => destruct o eqn:?; simpl in *
  | |- context [match ?o with _ => _ end] => destruct o eqn:?
  end;
  simpl in *; try done; try lia; auto.
Ltac wf_delay := match goal with H : delay_wf ?d |- _ => destruct H; constructor; wf_fields end.

(** A quality that [convert_quality] can produce. *)
Definition quality_valid (k : Quality) : Prop :=
  match k with
  | Custom v => exists c, 0 <= c <= 4095 /\ F32.clamp BR_MIN BR_MAX (Qos.custom_ratio c) = Some v
  | _ => True
  end.

Record user_wf (u : Qos.UserData) : Prop := {
  wf_custom : opt_in MIN_FPS MAX_FPS (Qos.custom_fps u);
  wf_auto : opt_in MIN_FPS MAX_FPS (Qos.auto_adjust_fps u);
  wf_quality : match Qos.quality u with Some (_, k) => quality_valid k | None => True end;
  wf_delay_ : delay_wf (Qos.delay u);
}.

(** The ratios that [VideoQoS::ratio] hands out unchanged. *)
Definition ratio_valid (r : F32.t) : Prop :=
  F32.leb BR_MIN_HIGH_RESOLUTION r = true /\ F32.leb r BR_MAX = true.

Record qos_wf (q : Qos.VideoQoS) : Prop := {
  wf_q_fps : MIN_FPS <= Qos.fps_ q <= MAX_FPS;
  wf_q_ratio : ratio_valid (Qos.ratio_ q);
  wf_q_users : map_Forall (fun _ => user_wf) (Qos.users q);
}.

Definition custom_ok (c : Z) : bool :=
  match F32.clamp BR_MIN BR_MAX (Qos.custom_ratio c) with
  | Some v => F32.leb BR_MIN_HIGH_RESOLUTION v && F32.leb v BR_MAX
              && F32.leb BR_MIN_HIGH_RESOLUTION (F32.mul v MAX_BR_MULTIPLE)
              && F32.leb (F32.mul v MAX_BR_MULTIPLE) BR_MAX
  | None => false
  end.

Inductive qos_op :=
| OpOpen (now : Z) (enable_abr : rstr) (id : Z)
| OpClose (now id : Z)
| OpCustomFps (id fps : Z)
| OpAutoFps (id fps : Z)
| OpQuality (id image_quality time : Z)
| OpRecord (id : Z) (v : bool)
| OpDelay (now id delay : Z)
| OpElapsed (now id elapsed : Z)
| OpNewDisplay (name : rstr)
| OpRemoveDisplay (name : rstr)
| OpDisplayData (now : Z) (name : rstr) (send_counter : Z)
| OpSupport (name : rstr) (support : bool)
| OpBitrate (bitrate : Z)
| OpRatio.

(** The arguments have the types of the code. *)
Definition op_valid (o : qos_op) : Prop :=
  match o with
  | OpDelay _ _ d => Int.is_u 32 d
  | OpElapsed _ _ e => Int.is_u 128 e
  | _ => True
  end.

Definition qos_step (linux : bool) (q : Qos.VideoQoS) (o : qos_op) : option Qos.VideoQoS :=
  match o with
  | OpOpen now abr id => Some (Qos.on_connection_open q now abr id)
  | OpClose now id => Qos.on_connection_close linux q now id
  | OpCustomFps id f => Some (Qos.user_custom_fps q id f)
  | OpAutoFps id f => Some (Qos.user_auto_adjust_fps q id f)
  | OpQuality id i t => Qos.user_image_quality q id i t
  | OpRecord id v => Some (Qos.user_record q id v)
  | OpDelay now id d => Qos.user_network_delay q now id d
  | OpElapsed now id e => Qos.user_delay_response_elapsed q now id e
  | OpNewDisplay n => Some (Qos.new_display q n)
  | OpRemoveDisplay n => Some (Qos.remove_display q n)
  | OpDisplayData now n c => Qos.update_display_data q now n c
  | OpSupport n s => Some (Qos.set_support_changing_quality q n s)
  | OpBitrate b => Some (Qos.store_bitrate q b)
  | OpRatio => Some (fst (Qos.ratio q))
  end.

Definition qos_run (linux : bool) (q : Qos.VideoQoS) (ops : list qos_op)
  : option Qos.VideoQoS :=
  foldl (fun oq o => q ← oq; qos_step linux q o) (Some q) ops.

(** A viewer whose baseline is 10 ms and whose target is the full rate. *)
Definition sample_delay : Delay.UserDelay :=
  Delay.mk 0 [10; 10] (Some 30) (Rtt.mk (Some 10) [10]) 0 0 0 0 0 None None None None 255.
Definition sample_user : Qos.UserData := Qos.set_delay sample_delay Qos.default_user.
Definition sample_qos : Qos.VideoQoS :=
  Qos.set_users {[1 := sample_user]} (Qos.new true 0).
(** The same viewer with two slow replies in its history, unconfirmed. *)
Definition slow_qos : Qos.VideoQoS :=
  Qos.set_users {[1 := Qos.set_delay (Delay.set_delay_history [500; 500] sample_delay)
                        Qos.default_user]} (Qos.new true 0).

(** * Theorems *)

(** ** Lists *)

Lemma min_list_le l m : min_list l = Some m -> Forall (fun x => m <= x) l.
Proof.
  revert m. induction l as [|x l IH]; simpl; intros m H; [done|]. injection H as <-.
  destruct (min_list l) as [m'|] eqn:E; (constructor; [lia|]).
  - specialize (IH _ eq_refl). eapply Forall_impl; [exact IH|]. simpl. lia.
  - destruct l; [constructor|done].
Qed.

Lemma min_list_In l m : min_list l = Some m -> m ∈ l.
Proof.
  revert m. induction l as [|x l IH]; simpl; intros m H; [done|]. injection H as <-.
  destruct (min_list l) as [m'|]; [|by left].
  destruct (Z.min_spec x m') as [[_ ->]|[_ ->]]; [by left|right; auto].
Qed.

Lemma min_list_None l : min_list l = None <-> l = [].
Proof. by destruct l. Qed.

Lemma push_bounded_Forall (P : Z -> Prop) n l x :
  Forall P l -> P x -> Forall P (push_bounded n l x).
Proof.
  intros Hl Hx. unfold push_bounded. apply Forall_app; split; [|by constructor].
  case_match; [|done]. destruct l; [done|by inversion Hl].
Qed.

Lemma push_bounded_length n l x :
  1 <= n -> Z.of_nat (length l) <= n -> Z.of_nat (length (push_bounded n l x)) <= n.
Proof.
  intros. unfold push_bounded. rewrite length_app. simpl.
  destruct (Z.leb_spec n (Z.of_nat (length l))); destruct l; simpl in *; lia.
Qed.

Lemma min_list_some l x : x ∈ l -> exists m, min_list l = Some m /\ m <= x.
Proof.
  intros Hx. destruct (min_list l) as [m|] eqn:E.
  - exists m. split; [done|]. pose proof (min_list_le l m E) as H.
    rewrite Forall_forall in H. by apply H.
  - destruct l; [by apply not_elem_of_nil in Hx|done].
Qed.

Lemma foldl_max_init l z : z <= foldl Z.max z l.
Proof. revert z. induction l as [|y l IH]; intros z; simpl; [lia|]. specialize (IH (Z.max z y)). lia. Qed.

Lemma foldl_max_ge l z x : x ∈ z :: l -> x <= foldl Z.max z l.
Proof.
  revert z. induction l as [|y l IH]; intros z H; simpl.
  - apply list_elem_of_singleton in H. lia.
  - rewrite !elem_of_cons in H. pose proof (foldl_max_init l (Z.max z y)).
    destruct H as [->|[->|H]]; [lia|lia|]. apply IH. by right.
Qed.

Lemma max_list_ge l m x : Qos.max_list l = Some m -> x ∈ l -> x <= m.
Proof. destruct l as [|z l]; [done|]. intros [= <-] H. by apply foldl_max_ge. Qed.

(** ** The baseline never exceeds what the window has seen *)

Lemma rtt_default_wf : rtt_wf Rtt.default.
Proof. split; [done|split; [constructor|done]]. Qed.

Lemma rtt_update_wf r delay :
  Int.is_u 32 delay -> rtt_wf r -> rtt_wf (Rtt.update r delay).
Proof.
  intros Hd (Hlen & Hu & Hb). unfold Rtt.update.
  set (samples := push_bounded _ _ _).
  set (base := Z.min _ delay).
  assert (Forall (Int.is_u 32) samples) as Hu' by (by apply push_bounded_Forall).
  assert (Z.of_nat (length samples) <= Rtt.WINDOW_SAMPLES) as Hlen'
    by (by apply push_bounded_length).
  assert (0 <= base /\ Forall (fun s => base <= s) samples) as [Hb0 Hbase].
  { subst base samples. unfold Int.is_u in Hd.
    destruct (Rtt.baseline r) as [b|]; simpl.
    - destruct Hb as [? Hb]. split; [lia|]. apply push_bounded_Forall; [|lia].
      eapply Forall_impl; [exact Hb|]. simpl. lia.
    - rewrite Hb. unfold push_bounded. simpl. split; [lia|]. repeat constructor; lia. }
  assert (rtt_wf (Rtt.mk (Some base) samples)) as W by (by repeat split).
  destruct (_ <? _); [done|].
  destruct (min_list (take _ _)) as [m1|] eqn:E1; [|done].
  destruct (min_list (drop _ _)) as [m2|] eqn:E2; [|done].
  destruct (_ <? _); [done|]. destruct (Z.ltb_spec 0 (Int.sat_subu (Z.min m1 m2) base)); [|done].
  unfold Int.sat_subu in *. split; [done|]. split; [done|]. simpl.
  set (rise := Z.max 0 (Z.min m1 m2 - base)) in *.
  assert (1 <= Int.clamp_const 1 Rtt.MAX_INCREASE_MS eq_refl (rise / 2) <= rise).
  { unfold Int.clamp_const, Int.limit, Rtt.MAX_INCREASE_MS. pose proof (Z.div_lt rise 2 ltac:(lia) ltac:(lia)).
    zbool; lia. }
  split; [lia|]. rewrite <- (take_drop (Z.to_nat (Rtt.WINDOW_SAMPLES / 2)) samples).
  apply Forall_app; split; eapply Forall_impl; [by eapply min_list_le| |by eapply min_list_le|];
    simpl; lia.
Qed.

(** Follows a lower delay at once. *)
Lemma rtt_update_le r delay b :
  Int.is_u 32 delay -> rtt_wf r ->
  Rtt.baseline (Rtt.update r delay) = Some b -> b <= delay.
Proof.
  intros Hd Hr Hb. destruct (rtt_update_wf r delay Hd Hr) as (_ & _ & H).
  rewrite Hb in H. destruct H as [_ H]. rewrite Forall_forall in H. apply H.
  unfold Rtt.update. repeat case_match; simpl; apply elem_of_app; right; by left.
Qed.

Lemma rtt_run_wf delays r :
  Forall (Int.is_u 32) delays -> rtt_wf r -> rtt_wf (foldl Rtt.update r delays).
Proof. intros H. revert r. induction H; simpl; auto using rtt_update_wf. Qed.

Lemma rtt_update_samples r d :
  Rtt.samples (Rtt.update r d) = push_bounded Rtt.WINDOW_SAMPLES (Rtt.samples r) d.
Proof. unfold Rtt.update. by repeat case_match. Qed.

Lemma rtt_run_samples delays :
  Rtt.samples (foldl Rtt.update Rtt.default delays) = drop (length delays - 20) delays.
Proof.
  induction delays as [|d l IH] using rev_ind; [done|].
  rewrite foldl_snoc, rtt_update_samples, IH. unfold push_bounded, Rtt.WINDOW_SAMPLES.
  rewrite length_app, length_drop. simpl.
  destruct (Z.leb_spec 20 (Z.of_nat (length l - (length l - 20)))).
  - assert (forall x : list Z, tail x = drop 1 x) as -> by (by intros []).
    rewrite drop_drop, <- drop_app_le by lia. f_equal. lia.
  - rewrite <- drop_app_le by lia. f_equal. lia.
Qed.

Lemma rtt_update_rise r d b0 b :
  Rtt.baseline r = Some b0 -> Rtt.baseline (Rtt.update r d) = Some b ->
  b <= b0 + Rtt.MAX_INCREASE_MS.
Proof.
  unfold Rtt.update. intros ->. cbv zeta. simpl default.
  assert (forall x, Int.clamp_const 1 Rtt.MAX_INCREASE_MS eq_refl x <= Rtt.MAX_INCREASE_MS)
    by (intros; unfold Int.clamp_const, Int.limit, Rtt.MAX_INCREASE_MS; zbool; lia).
  repeat case_match; simpl; intros [= <-]; try (unfold Rtt.MAX_INCREASE_MS; lia).
  match goal with |- context [Int.clamp_const 1 Rtt.MAX_INCREASE_MS eq_refl ?x] => specialize (H x) end. lia.
Qed.

(** After any series of replies the estimator holds exactly the last twenty
    of them; its baseline exists, is at most every one of them (so a faster
    reply is followed at once), and rose by at most 50 ms with the last one. *)
Theorem rtt_tracks_the_window (delays : list Z) (d : Z)
    (Hd : Forall (Int.is_u 32) (delays ++ [d])) :
  let r := foldl Rtt.update Rtt.default delays in
  let r' := Rtt.update r d in
  exists b, Rtt.get_rtt r' = Some b /\ 0 <= b
  /\ Rtt.samples r' = drop (length (delays ++ [d]) - 20) (delays ++ [d])
  /\ Forall (fun s => b <= s) (Rtt.samples r')
  /\ (forall b0, Rtt.get_rtt r = Some b0 -> b <= b0 + Rtt.MAX_INCREASE_MS).
Proof.
  cbv zeta. pose proof (rtt_run_wf _ _ Hd rtt_default_wf) as (_ & _ & W).
  pose proof (rtt_run_samples (delays ++ [d])) as E. rewrite foldl_snoc in W, E.
  unfold Rtt.get_rtt. destruct (Rtt.baseline _) as [b|] eqn:Eb.
  - exists b. destruct W. repeat split; try done. intros b0 Hb0. by eapply rtt_update_rise.
  - rewrite rtt_update_samples in W. by apply app_nil in W as [_ ?].
Qed.

(** ** A viewer's state is well formed *)

Lemma delay_default_wf : delay_wf Delay.default.
Proof. constructor; try apply rtt_default_wf; wf_fields. Qed.

Lemma on_reduction_wf d f :
  delay_wf d -> MIN_FPS <= f <= MAX_FPS -> delay_wf (Delay.on_reduction d f).
Proof.
  intros W Hf. unfold Delay.on_reduction. simpl.
  destruct (Delay.fps_before_congestion d) eqn:E; wf_delay; unfold MIN_FPS, MAX_FPS in *; wf_fields.
Qed.

Lemma add_delay_wf d x : delay_wf d -> Int.is_u 32 x -> delay_wf (Delay.add_delay d x).
Proof.
  intros [] Hx. constructor; simpl; auto.
  - by apply push_bounded_length.
  - by apply push_bounded_Forall.
Qed.

Lemma recover_wf d cur f :
  delay_wf d -> MIN_FPS <= cur <= MAX_FPS ->
  delay_wf (fst (Delay.recover d cur f)) /\ cur < snd (Delay.recover d cur f).
Proof.
  intros W Hc. unfold Delay.recover.
  destruct (Delay.fps_before_congestion d) as [l|] eqn:E;
    [destruct (Z.ltb_spec cur l)|]; repeat case_match; simpl;
    (split; [wf_delay|unfold MIN_FPS, MAX_FPS in *; try lia]).
Qed.

(** A fresh good reply never lowers the frame rate; a fresh bad one never
    raises it, and lowers it by a fifth at most unless the excess is a second
    or a recent restore failed, when it may halve. *)
Lemma limit_fps_change_wf d cur f delay bf br :
  delay_wf d -> MIN_FPS <= cur <= MAX_FPS ->
  delay_wf (fst (Delay.limit_fps_change d cur f delay bf br))
  /\ (Int.sat_subu delay (Delay.rtt_or_0 d) < DELAY_THRESHOLD_150MS ->
      cur < snd (Delay.limit_fps_change d cur f delay bf br))
  /\ (DELAY_THRESHOLD_150MS <= Int.sat_subu delay (Delay.rtt_or_0 d) ->
      cur - Z.max (cur / 2) 1 <= snd (Delay.limit_fps_change d cur f delay bf br) <= cur).
Proof.
  intros W Hc. unfold Delay.limit_fps_change. cbv zeta.
  set (excess := Int.sat_subu delay _).
  match goal with |- context [Delay.set_samples_since_restore ?v d] =>
    assert (delay_wf (Delay.set_samples_since_restore v d)) as W1 end.
  { wf_delay. }
  destruct (Z.ltb_spec excess DELAY_THRESHOLD_150MS).
  - match goal with |- context [Delay.recover ?d' _ _] =>
      destruct (recover_wf d' cur f) as [Wr Hr] end; [wf_delay|done|].
    split; [done|]. split; intros; [done|lia].
  - match goal with |- context [Delay.set_replies_after_bitrate_reduction ?v ?d'] =>
      set (d1 := Delay.set_replies_after_bitrate_reduction v d');
      assert (delay_wf d1) as W2 end.
    { subst d1. wf_delay. }
    set (fr := (600 <=? excess) && Delay.recently_restored d1).
    match goal with |- context [Delay.fps_bad_samples ?x] => set (d2 := x) end.
    assert (delay_wf d2) as W3.
    { subst d2. case_match; [|done]. destruct W2. constructor; wf_fields.
      pose proof (Z.div_pos cur 4). pose proof (Z.div_lt cur 4). lia. }
    assert (0 <= cur / 2 /\ cur / 5 <= cur / 2) as P2
      by (unfold MIN_FPS in *; split; [apply Z.div_pos|apply Z.div_le_compat_l]; lia).
    destruct (Z.leb_spec cur f); simpl;
      (split; [|split]); repeat case_match; simpl; auto using on_reduction_wf; unfold Int.sat_subu, MIN_FPS in *; try lia.
Qed.

Lemma accelerate_startup_wf d cur f cap delay br :
  delay_wf d ->
  delay_wf (fst (Delay.accelerate_startup d cur f cap delay br))
  /\ Z.min f cap <= snd (Delay.accelerate_startup d cur f cap delay br) <= Z.max f cap.
Proof.
  intros W. unfold Delay.accelerate_startup. cbv zeta.
  destruct (Z.eqb_spec (Delay.startup_good_samples d) (Int.umax 8)); [simpl; split; [done|lia]|].
  destruct (_ || _); [simpl; split; [wf_delay|lia]|]. simpl.
  destruct (Z.ltb_spec (Delay.startup_good_samples d + 1) 2); [simpl; split; [wf_delay|lia]|].
  case_match; (split; [wf_delay|simpl; lia]).
Qed.

Lemma foldl_wrap_range w l z :
  0 <= w -> Int.is_u w z -> Int.is_u w (foldl (fun acc x => Int.wrap w (acc + x)) z l).
Proof. intros Hw. revert z. induction l; simpl; auto with clanto. Qed.

Lemma avg_delay_range d : delay_wf d -> Int.is_u 32 (Delay.avg_delay d).
Proof.
  intros [? ? Hh ? (_ & _ & Hr) ? ? ? ? ? ? ? ? ? ?]. unfold Delay.avg_delay.
  destruct (Delay.delay_history d) as [|x l] eqn:E; [done|].
  pose proof (foldl_wrap_range 32 (x :: l) 0 ltac:(lia) ltac:(done)) as Hs.
  set (sum := foldl _ _ _) in *. set (n := Z.of_nat _).
  assert (1 <= n) by (subst n; simpl; lia).
  assert (0 <= sum / n <= sum).
  { unfold Int.is_u in Hs. split; [apply Z.div_pos; lia|].
    apply Z.div_le_upper_bound; nia. }
  assert (0 <= Delay.rtt_or_0 d).
  { unfold Delay.rtt_or_0, Rtt.get_rtt. destruct (Rtt.baseline _); simpl; lia. }
  unfold Int.is_u, Int.sat_subu in *. lia.
Qed.

(** *** One probe reply *)

Lemma fps_from_delay_counters mn nf cur old avg quick incr :
  0 <= quick <= 2 -> 0 <= incr <= 2 ->
  let '(_, q, i) := Qos.fps_from_delay mn nf cur old avg quick incr in
  0 <= q <= 2 /\ 0 <= i <= 2.
Proof.
  intros. unfold Qos.fps_from_delay.
  destruct (avg <? 50), (3 <=? quick + 1) eqn:E1; repeat case_match; simplify_eq; lia.
Qed.

(** Below a second of excess, without a recent restore and before the third
    bad reply, the frame rate is not lowered. *)
Lemma limit_fps_change_keeps d cur f delay bf br :
  delay_wf d -> MIN_FPS <= cur <= MAX_FPS ->
  Delay.samples_since_restore d = None -> Delay.fps_bad_samples d <= 1 ->
  Int.sat_subu delay (Delay.rtt_or_0 d) < 1000 ->
  cur <= snd (Delay.limit_fps_change d cur f delay bf br).
Proof.
  intros W Hc Hs Hb He.
  destruct (limit_fps_change_wf d cur f delay bf br W Hc) as (_ & Hgood & _).
  destruct (Z.ltb_spec (Int.sat_subu delay (Delay.rtt_or_0 d)) DELAY_THRESHOLD_150MS) as [L|L];
    [specialize (Hgood L); lia|].
  unfold Delay.limit_fps_change, Delay.recently_restored. cbv zeta. rewrite Hs. simpl.
  rewrite (proj2 (Z.ltb_ge _ _) L), andb_false_r. simpl.
  rewrite (proj2 (Z.ltb_lt _ _) He).
  destruct (Z.ltb_spec (Z.min (Delay.fps_bad_samples d + 1) 3) 3); [|lia].
  simpl. case_match; simpl; lia.
Qed.

Lemma fps_cap_range u : MIN_FPS <= Qos.fps_cap u <= MAX_FPS.
Proof. apply Int.limit_range. done. Qed.

(** What one reply does, as a relation between the viewer before and after. *)
Lemma user_reply_spec tr bf u delay (cur := default (Z.min INIT_FPS (Qos.fps_cap u))
                                              (Delay.fps (Qos.delay u))) :
  delay_wf (Qos.delay u) -> Int.is_u 32 delay ->
  exists d' f a r,
    Qos.user_reply tr bf u delay = Some (Qos.set_delay (Delay.set_fps (Some f) d') u, a, r)
    /\ delay_wf (Delay.set_fps (Some f) d') /\ MIN_FPS <= f <= Qos.fps_cap u
    /\ (Delay.samples_since_restore (Qos.delay u) = None ->
        Delay.fps_bad_samples (Qos.delay u) <= 1 -> Z.max delay 10 < 1000 ->
        cur <= Qos.fps_cap u -> cur <= f).
Proof.
  intros W Hd. unfold Qos.user_reply. destruct (Qos.fps_levels tr) as [mn nf].
  cbv zeta. set (delay' := Z.max delay 10).
  assert (Int.is_u 32 delay') as Hd' by (unfold Int.is_u, Int.umax in *; lia).
  set (d1 := Delay.set_stall_reference_fps None (Delay.set_stall_ticks 0 (Qos.delay u))).
  assert (delay_wf d1) as W1 by (subst d1; wf_delay).
  set (braked := bool_decide _).
  set (d2 := if braked then d1 else _).
  assert (delay_wf d2) as W2.
  { subst d2. destruct braked; [done|]. destruct W1. constructor; simpl; auto.
    by apply rtt_update_wf. }
  pose proof (add_delay_wf d2 delay' W2 Hd') as W3. set (d3 := Delay.add_delay d2 delay') in *.
  assert (Delay.fps d3 = Delay.fps (Qos.delay u)
          /\ Delay.samples_since_restore d3 = Delay.samples_since_restore (Qos.delay u)
          /\ Delay.fps_bad_samples d3 = Delay.fps_bad_samples (Qos.delay u)) as (E1 & E2 & E3).
  { subst d3 d2. by destruct braked. }
  rewrite E1. fold cur.
  assert (MIN_FPS <= cur <= MAX_FPS) as Hcur.
  { destruct W. subst cur. pose proof (fps_cap_range u). unfold MIN_FPS, MAX_FPS, INIT_FPS in *.
    destruct (Delay.fps (Qos.delay u)); simpl in *; lia. }
  pose proof (fps_from_delay_counters mn nf cur (Delay.avg_delay d1)
    (Z.max (Delay.avg_delay d3) 10) (Delay.quick_increase_fps_count d3)
    (Delay.increase_fps_count d3) (wf_quick _ W3) (wf_incr _ W3)) as Hq.
  destruct (Qos.fps_from_delay _ _ _ _ _ _ _) as [[f0 quick] incr].
  set (d4 := Delay.set_increase_fps_count _ _).
  assert (delay_wf d4) as W4 by (subst d4; wf_delay).
  set (f1 := Z.max (if bf then Z.max f0 mn else f0) _).
  destruct (limit_fps_change_wf d4 cur f1 delay' bf braked W4 Hcur) as (W5 & _ & _).
  pose proof (limit_fps_change_keeps d4 cur f1 delay' bf braked W4 Hcur) as Hkeep.
  destruct (Delay.limit_fps_change _ _ _ _ _ _) as [d5 f2]. simpl in W5, Hkeep.
  destruct (accelerate_startup_wf d5 cur f2 (Qos.fps_cap u) delay' braked W5) as [W6 Hf].
  destruct (Delay.accelerate_startup _ _ _ _ _ _) as [d6 f3]. simpl in W6, Hf.
  pose proof (fps_cap_range u) as Hcap.
  pose proof (Int.limit_range MIN_FPS (Qos.fps_cap u) f3 ltac:(lia)) as Hclamp.
  rewrite Int.clamp_limit by lia. cbn [mbind option_bind].
  do 4 eexists. split; [reflexivity|]. split; [|split; [done|]].
  - destruct W6. constructor; simpl; auto. lia.
  - intros Hn Hb Hlt Hle. specialize (Hkeep ltac:(change (Delay.samples_since_restore d3 = None); congruence)
      ltac:(change (Delay.fps_bad_samples d3 <= 1); lia)).
    assert (cur <= f2).
    { apply Hkeep. unfold Int.sat_subu.
      pose proof (wf_rtt _ W4) as (_ & _ & Hr). unfold Delay.rtt_or_0, Rtt.get_rtt.
      destruct (Rtt.baseline (Delay.rtt_calculator d4)); simpl; lia. }
    unfold Int.limit. zbool; lia.
Qed.

(** ** The controller is well formed *)

(** *** Every quality's ratio is an allowed one *)

Lemma custom_all_ok : forallb custom_ok (seqZ 0 4096) = true.
Proof. vm_compute. reflexivity. Qed.

Lemma custom_ok_all c : 0 <= c <= 4095 -> custom_ok c = true.
Proof.
  intros H. pose proof custom_all_ok as A. rewrite forallb_forall in A. apply A.
  apply list_elem_of_In, elem_of_seqZ. lia.
Qed.

Lemma quality_ratio_valid k :
  quality_valid k ->
  ratio_valid (quality_ratio k)
  /\ F32.leb BR_MIN_HIGH_RESOLUTION (F32.mul (quality_ratio k) MAX_BR_MULTIPLE) = true
  /\ F32.leb (F32.mul (quality_ratio k) MAX_BR_MULTIPLE) BR_MAX = true.
Proof.
  destruct k as [| | |v]; try (intros _; by repeat split).
  intros (c & Hc & Hv). pose proof (custom_ok_all c Hc) as H. unfold custom_ok in H.
  rewrite Hv in H. simpl. unfold ratio_valid.
  apply andb_prop in H as [H H4]. apply andb_prop in H as [H H3]. apply andb_prop in H as [H1 H2].
  done.
Qed.

Lemma convert_quality_valid i : exists k, Qos.convert_quality i = Some k /\ quality_valid k.
Proof.
  unfold Qos.convert_quality. repeat (case_match; [by eexists|]).
  set (c := Z.land _ _).
  assert (0 <= c <= 4095) as Hc.
  { change c with (Z.land (Z.shiftr i 8) (Z.ones 12)). rewrite Z.land_ones by lia.
    pose proof (Z.mod_pos_bound (Z.shiftr i 8) (2 ^ 12) ltac:(lia)). lia. }
  pose proof (custom_ok_all c Hc) as HO. unfold custom_ok in HO.
  destruct (F32.clamp BR_MIN BR_MAX (Qos.custom_ratio c)) as [v|] eqn:E; [|done].
  exists (Custom v). split; [done|]. by exists c.
Qed.

Lemma latest_quality_valid q : qos_wf q -> quality_valid (Qos.latest_quality q).
Proof.
  intros [_ _ Hu]. unfold Qos.latest_quality, Qos.user_list.
  assert (Forall user_wf ((map_to_list (Qos.users q)).*2)) as H.
  { apply Forall_fmap, Forall_forall. intros [i u] Hi. apply elem_of_map_to_list in Hi.
    by apply (Hu i). }
  assert (forall best, match best with Some (_, k) => quality_valid k | None => True end ->
    match foldl Qos.later best ((map_to_list (Qos.users q)).*2) with
    | Some (_, k) => quality_valid k | None => True end) as G.
  { induction H as [|u l Hu' H IH]; intros best Hb; simpl; [done|]. apply IH.
    destruct Hu' as [_ _ Hq _]. unfold Qos.later.
    destruct (Qos.quality u) as [[t k]|], best as [[t' k']|]; auto. by destruct (t <? t'). }
  specialize (G None I). by destruct (foldl _ _ _) as [[? ?]|].
Qed.

(** *** The bounds of the adjustment *)

Lemma min_ratio_ge q : F32.leb BR_MIN_HIGH_RESOLUTION (Qos.min_ratio q) = true.
Proof.
  unfold Qos.min_ratio. cbv zeta.
  destruct (Qos.latest_quality q); try done; [|by apply F32.max_ub_r].
  eapply F32.leb_trans; [|by apply F32.max_ub_r]. done.
Qed.

Lemma lower_le o m z :
  F32.leb m z = true ->
  F32.leb (match o with Some r => if F32.ltb r m then r else m | None => m end) z = true.
Proof.
  intros H. destruct o as [r|]; [|done]. destruct (F32.ltb r m) eqn:E; [|done].
  eapply F32.leb_trans; [by apply F32.ltb_leb|done].
Qed.

(** The floor is never above the ceiling, so [clamp] does not panic. *)
Lemma min_ratio_le q :
  qos_wf q ->
  F32.leb (Qos.min_ratio q) (F32.mul (quality_ratio (Qos.latest_quality q)) MAX_BR_MULTIPLE)
  = true.
Proof.
  intros W. pose proof (latest_quality_valid q W) as V.
  unfold Qos.min_ratio. cbv zeta.
  destruct (Qos.latest_quality q) as [| | |v] eqn:E; [| |done|].
  1,2: apply F32.max_lub; [by apply lower_le|done].
  by apply quality_ratio_valid.
Qed.

Lemma ratio_finite r : ratio_valid r -> F32.is_finite r = true.
Proof. intros [H1 H2]. by eapply F32.between_finite; [| |exact H1|exact H2]. Qed.

Lemma finite_not_nan r : F32.is_finite r = true -> F32.is_nan r = false.
Proof. by destruct r. Qed.

Lemma ratio_reduction_finite d f : Delay.ratio_reduction d = Some f -> F32.is_finite f = true.
Proof.
  unfold Delay.ratio_reduction. destruct (negb _); [done|]. cbv zeta.
  repeat case_match; intros [= <-]; done.
Qed.

Lemma min_finite x y : F32.is_finite x = true -> F32.is_finite y = true ->
  F32.is_finite (F32.min x y) = true.
Proof. intros. unfold F32.min. by repeat case_match. Qed.

Lemma strongest_reduction_finite q f :
  Qos.strongest_reduction q = Some f -> F32.is_finite f = true.
Proof.
  unfold Qos.strongest_reduction.
  assert (Forall (fun x => F32.is_finite x = true)
            (omap (fun u => Delay.ratio_reduction (Qos.delay u)) (Qos.user_list q))) as H.
  { apply Forall_forall. intros x Hx. apply list_elem_of_omap in Hx as (u & _ & Hx).
    by eapply ratio_reduction_finite. }
  destruct (omap _ _) as [|x l]; [done|]. intros [= <-]. inversion H as [|? ? Hx Hl]; subst.
  clear H. revert x Hx. induction l as [|y l IH]; intros x Hx; simpl; [done|].
  inversion Hl; subst. apply IH; [done|by apply min_finite].
Qed.

Lemma ratio_target_number q red mx dyn :
  ratio_valid (Qos.ratio_ q) ->
  (forall f, red = Some f -> F32.is_finite f = true) ->
  F32.is_nan (Qos.ratio_target q red mx dyn) = false.
Proof.
  intros Hr Hf. pose proof (ratio_finite _ Hr) as Fr. unfold Qos.ratio_target. cbv zeta.
  set (v := match red with Some _ => _ | None => _ end).
  assert (F32.is_nan v = false) as Nv.
  { subst v. destruct red as [f|]; [by apply F32.mul_not_nan; auto|].
    repeat case_match; auto using finite_not_nan, F32.mul_not_nan. }
  destruct (if 0 <? _ then _ else _) as [r|]; [|done].
  destruct (F32.ltb r v) eqn:L; simpl; [|done].
  destruct (_ && _); [|done].
  apply F32.ltb_leb, F32.leb_not_nan in L. by destruct L.
Qed.

(** *** Every operation keeps the controller well formed *)

Lemma set_delay_wf u d : user_wf u -> delay_wf d -> user_wf (Qos.set_delay d u).
Proof. intros [] ?. by constructor. Qed.

Lemma user_list_wf q : qos_wf q -> Forall user_wf (Qos.user_list q).
Proof.
  intros [_ _ H]. apply Forall_fmap, Forall_forall. intros [i u] Hi.
  apply elem_of_map_to_list in Hi. by apply (H i).
Qed.

Lemma user_list_elem q i u : Qos.users q !! i = Some u -> u ∈ Qos.user_list q.
Proof.
  intros H. apply list_elem_of_fmap. exists (i, u). split; [done|]. by apply elem_of_map_to_list.
Qed.

Lemma highest_fps_range q : MIN_FPS <= Qos.highest_fps q <= MAX_FPS.
Proof. by apply Int.limit_range. Qed.

Lemma adjust_fps_spec q now :
  exists f, Qos.adjust_fps q now = Some (Qos.set_fps f q) /\ MIN_FPS <= f <= Qos.highest_fps q.
Proof.
  pose proof (highest_fps_range q). unfold Qos.adjust_fps. rewrite Int.clamp_limit by lia.
  eexists. split; [done|]. apply Int.limit_range. lia.
Qed.

Lemma adjust_fps_wf q now : qos_wf q -> exists q', Qos.adjust_fps q now = Some q' /\ qos_wf q'.
Proof.
  intros W. pose proof (highest_fps_range q). destruct (adjust_fps_spec q now) as (f & -> & Hf).
  eexists. split; [done|]. destruct W. constructor; simpl; auto. lia.
Qed.

Lemma mark_reduced_wf b u : user_wf u -> user_wf (Qos.mark_reduced b u).
Proof.
  intros W. unfold Qos.mark_reduced. destruct (Delay.replies_after_bitrate_reduction _) eqn:E;
    [done|]. case_match; [|done]. apply set_delay_wf; [done|]. destruct W as [_ _ _ W].
  destruct b; wf_delay.
Qed.

Lemma adjust_ratio_wf q now dyn :
  qos_wf q -> exists q', Qos.adjust_ratio q now dyn = Some q' /\ qos_wf q'.
Proof.
  intros W. unfold Qos.adjust_ratio. destruct (negb _); [by eauto|].
  destruct (Qos.max_list _) as [mx|]; [|by eauto].
  destruct (_ && _).
  { eexists; split; [done|]. destruct W. by constructor. }
  cbv zeta. set (hi := F32.mul _ _). set (v := Qos.ratio_target _ _ _ _).
  destruct (F32.clamp_defined (Qos.min_ratio q) hi v (min_ratio_le q W)) as [r Hr].
  rewrite Hr. simpl. eexists; split; [done|].
  assert (F32.is_nan v = false) as Nv.
  { apply ratio_target_number; [apply W|]. apply strongest_reduction_finite. }
  destruct (F32.clamp_Some _ _ _ _ Nv Hr) as [Hlo Hhi].
  destruct (quality_ratio_valid _ (latest_quality_valid q W)) as (_ & _ & Hmax).
  destruct W as [Wf Wr Wu]. constructor; simpl; auto.
  - split; [eapply F32.leb_trans; [apply min_ratio_ge|done]|by eapply F32.leb_trans].
  - destruct (Qos.strongest_reduction q); [|done]. apply map_Forall_fmap.
    eapply map_Forall_impl; [exact Wu|]. intros. by apply mark_reduced_wf.
Qed.

Lemma update_user_wf q id f :
  qos_wf q -> (forall u, user_wf u -> user_wf (f u)) -> qos_wf (Qos.update_user q id f).
Proof.
  intros [? ? Hu] Hf. unfold Qos.update_user. destruct (Qos.users q !! id) as [u|] eqn:E;
    [|by constructor]. constructor; simpl; auto.
  apply map_Forall_insert_2; [|done]. apply Hf. by apply (Hu id).
Qed.

Lemma insert_user_wf q id u : qos_wf q -> user_wf u ->
  qos_wf (Qos.set_users (<[id := u]> (Qos.users q)) q).
Proof. intros [? ? Hu] Hw. constructor; simpl; auto. by apply map_Forall_insert_2. Qed.

Lemma new_wf linux now : qos_wf (Qos.new linux now).
Proof. constructor; simpl; [done| |apply map_Forall_empty]. by split. Qed.

(** *** The transition system *)

Lemma user_network_delay_wf q now id delay :
  qos_wf q -> Int.is_u 32 delay ->
  exists q', Qos.user_network_delay q now id delay = Some q' /\ qos_wf q'.
Proof.
  intros W Hd. unfold Qos.user_network_delay. cbv zeta.
  set (x := match Qos.users q !! id with Some _ => _ | None => _ end).
  assert (exists q1 wa wr, x = Some (q1, wa, wr) /\ qos_wf q1) as (q1 & wa & wr & -> & Wx).
  { subst x. destruct (Qos.users q !! id) as [u|] eqn:E; [|by eauto].
    pose proof (wf_q_users q W id u E) as Wu.
    destruct (user_reply_spec (quality_ratio (Qos.latest_quality q))
                (Qos.can_reduce_bitrate q) u delay (wf_delay_ u Wu) Hd)
      as (d' & f & a & r & Er & Wd & _).
    rewrite Er. simpl. do 3 eexists. split; [done|]. by apply insert_user_wf, set_delay_wf. }
  cbn [mbind option_bind]. destruct (adjust_fps_wf q1 now Wx) as (q2 & -> & W2). cbn [mbind option_bind].
  assert (exists q3, (if wa && Qos.first_reply_adjusts_ratio q2 && Qos.cooled_down q2 now
                      then Qos.adjust_ratio q2 now false else Some q2) = Some q3
                     /\ qos_wf q3) as (q3 & -> & W3).
  { case_match; [by apply adjust_ratio_wf|by eauto]. }
  simpl. case_match; [by apply adjust_ratio_wf|by eauto].
Qed.

Lemma elapsed_spec q now id elapsed u :
  qos_wf q -> Int.is_u 128 elapsed -> Qos.users q !! id = Some u -> 2000 < elapsed ->
  exists d f,
    Qos.user_delay_response_elapsed q now id elapsed
      = Qos.adjust_fps (Qos.set_users (<[id := Qos.set_delay (Delay.set_fps (Some f) d) u]>
                                         (Qos.users q)) q) now
    /\ delay_wf (Delay.set_fps (Some f) d) /\ MIN_FPS <= f <= Qos.fps_cap u
    /\ Delay.stall_reference_fps d <> None
    /\ (forall cur, Delay.fps (Qos.delay u) = Some cur ->
        Z.min (Z.min MIN_AUTO_FPS (Qos.fps_cap u)) cur <= f <= cur)
    /\ (forall cur, Delay.fps (Qos.delay u) = Some cur -> elapsed < 2 ^ 32 ->
        f <= Z.max (Z.min MIN_AUTO_FPS (Qos.fps_cap u))
               (stdpp.option.default cur (Delay.stall_reference_fps (Qos.delay u))
                / 2 ^ Z.min (elapsed / 1000 - 1) 5)).
Proof.
  intros W He Hu Hlt. unfold Qos.user_delay_response_elapsed. rewrite Hu.
  rewrite (proj2 (Z.leb_gt _ _) Hlt). cbv zeta.
  pose proof (wf_delay_ u (wf_q_users q W id u Hu)) as Wd.
  pose proof (fps_cap_range u) as Hcap.
  set (d1 := Delay.set_stall_ticks _ _).
  assert (delay_wf d1) as W1 by (subst d1; wf_delay).
  assert (delay_wf (Delay.add_delay d1 (Int.wrap 32 elapsed))) as W2
    by (apply add_delay_wf; auto with clanto lia).
  set (d2 := Delay.add_delay d1 _) in *.
  assert (Delay.fps d2 = Delay.fps (Qos.delay u)) as E by done.
  assert (Delay.stall_reference_fps d2 = Delay.stall_reference_fps (Qos.delay u)) as Er2 by done.
  clearbody d2.
  set (dr := match Delay.stall_reference_fps d2 with Some _ => _ | None => _ end).
  assert (delay_wf (fst dr) /\ MIN_FPS <= snd dr <= MAX_FPS
          /\ Delay.fps (fst dr) = Delay.fps (Qos.delay u)
          /\ Delay.stall_reference_fps (fst dr) <> None
          /\ (forall cur, Delay.fps (Qos.delay u) = Some cur ->
              snd dr = stdpp.option.default cur (Delay.stall_reference_fps (Qos.delay u))))
    as (W3 & Href & E3 & Hs3 & Hsnd).
  { subst dr. pose proof (wf_reference d2 W2) as Hr. pose proof (wf_fps d2 W2) as Hf.
    rewrite <- Er2, <- E.
    destruct (Delay.stall_reference_fps d2) as [r|] eqn:Er; [simpl; by rewrite Er|]. simpl.
    assert (MIN_FPS <= default (Z.min INIT_FPS (Qos.fps_cap u)) (Delay.fps d2) <= MAX_FPS).
    { destruct (Delay.fps d2); simpl in *; unfold MIN_FPS, MAX_FPS, INIT_FPS in *; lia. }
    split; [|split; [done|split; [|split]]].
    - apply on_reduction_wf; [|done]. destruct W2. by constructor.
    - unfold Delay.on_reduction. simpl. by destruct (Delay.fps_before_congestion d2).
    - unfold Delay.on_reduction. simpl. by destruct (Delay.fps_before_congestion d2).
    - by intros cur ->. }
  clearbody dr. destruct dr as [d3 reference]. simpl in W3, Href, E3, Hs3, Hsnd. rewrite E3.
  set (divisor := Z.shiftl _ _). set (lo := Z.min MIN_AUTO_FPS _).
  pose proof (Int.limit_range lo (Qos.fps_cap u) (reference / divisor) ltac:(subst lo; lia)).
  rewrite Int.clamp_limit by (subst lo; lia). cbn [mbind option_bind].
  pose proof (wf_fps _ Wd) as Hf.
  do 2 eexists. split; [reflexivity|].
  assert (MIN_FPS <= lo) by (subst lo; unfold MIN_FPS, MIN_AUTO_FPS in *; lia).
  split; [destruct W3; constructor; simpl; auto|split; [|split; [done|split]]].
  - destruct (Delay.fps (Qos.delay u)); simpl in *; unfold MIN_FPS, MAX_FPS in *; lia.
  - destruct (Delay.fps (Qos.delay u)); simpl in *; unfold MIN_FPS, MAX_FPS in *; lia.
  - intros cur ->. simpl. lia.
  - intros cur Hcur H32. rewrite <- (Hsnd cur Hcur).
    assert (divisor = 2 ^ Z.min (elapsed / 1000 - 1) 5) as ->.
    { subst divisor. rewrite Z.shiftl_1_l. f_equal. unfold Int.sat_subu.
      pose proof (Z.div_le_mono 2000 elapsed 1000 ltac:(lia) ltac:(lia)).
      change (2000 / 1000) with 2 in *.
      assert (elapsed / 1000 < 2 ^ 32) by (apply Z.div_lt_upper_bound; lia).
      rewrite (Int.wrap_small 32); [lia|]. split; [lia|]. unfold Int.umax. lia. }
    unfold Int.limit. zbool; lia.
Qed.

Lemma user_delay_response_elapsed_wf q now id elapsed :
  qos_wf q -> Int.is_u 128 elapsed ->
  exists q', Qos.user_delay_response_elapsed q now id elapsed = Some q' /\ qos_wf q'.
Proof.
  intros W He. destruct (Qos.users q !! id) as [u|] eqn:Hu;
    [|unfold Qos.user_delay_response_elapsed; rewrite Hu; by eauto].
  destruct (Z.leb_spec elapsed 2000) as [L|L].
  { unfold Qos.user_delay_response_elapsed. rewrite Hu, (proj2 (Z.leb_le _ _) L). by eauto. }
  destruct (elapsed_spec q now id elapsed u W He Hu L) as (d & f & -> & Wd & _).
  apply adjust_fps_wf, insert_user_wf; [done|]. apply set_delay_wf; [|done].
  by apply (wf_q_users q W id).
Qed.

Lemma set_ratio_latest_wf q :
  qos_wf q -> qos_wf (Qos.set_ratio (quality_ratio (Qos.latest_quality q)) q).
Proof.
  intros W. pose proof (quality_ratio_valid _ (latest_quality_valid q W)) as [H _].
  destruct W. by constructor.
Qed.

Lemma qos_step_wf linux q o :
  qos_wf q -> op_valid o -> exists q', qos_step linux q o = Some q' /\ qos_wf q'.
Proof.
  intros W Ho. destruct o; simpl in *.
  - eexists; split; [done|]. assert (user_wf (Qos.mk_user None None None Delay.default false (Some now)))
      by (constructor; simpl; auto using delay_default_wf).
    destruct (insert_user_wf q id _ W H). by constructor.
  - unfold Qos.on_connection_close. cbv zeta.
    case_bool_decide; [eexists; split; [done|apply new_wf]|]. apply adjust_fps_wf. destruct W as [? ? Wu].
    constructor; simpl; auto. by apply map_Forall_delete.
  - eexists; split; [done|]. unfold Qos.user_custom_fps. destruct (_ || _) eqn:E; [done|].
    apply update_user_wf; [done|]. intros u []. apply orb_false_iff in E. constructor; simpl; auto. lia.
  - eexists; split; [done|]. unfold Qos.user_auto_adjust_fps. destruct (_ || _) eqn:E; [done|].
    apply update_user_wf; [done|]. intros u []. apply orb_false_iff in E. constructor; simpl; auto. lia.
  - unfold Qos.user_image_quality. destruct (convert_quality_valid image_quality) as (k & -> & Hk).
    simpl. destruct (Qos.users q !! id) as [u|] eqn:E; [|by eauto]. eexists; split; [done|].
    apply set_ratio_latest_wf, insert_user_wf; [done|].
    destruct (wf_q_users q W id u E). by constructor.
  - eexists; split; [done|]. apply update_user_wf; [done|]. intros u []. by constructor.
  - by apply user_network_delay_wf.
  - by apply user_delay_response_elapsed_wf.
  - eexists; split; [done|]. destruct W. by constructor.
  - eexists; split; [done|]. destruct W. by constructor.
  - unfold Qos.update_display_data. cbv zeta.
    set (q1 := match Qos.displays q !! name with Some _ => _ | None => _ end).
    assert (qos_wf q1) as W1 by (subst q1; case_match; [destruct W; by constructor|done]).
    destruct (adjust_fps_wf q1 now W1) as (q2 & -> & W2). cbn [mbind option_bind].
    case_match; [|eexists; split; [done|by apply set_ratio_latest_wf]].
    case_match; [by apply adjust_ratio_wf|by eauto].
  - eexists; split; [done|]. unfold Qos.set_support_changing_quality.
    case_match; [destruct W; by constructor|done].
  - eexists; split; [done|]. destruct W. by constructor.
  - eexists; split; [done|]. unfold Qos.ratio. case_match; [|done].
    destruct W. by constructor.
Qed.

(** ** The properties *)

(** C37 Whatever sequence of connections, settings, probe replies, stalls and
    display reports reaches the controller, no [clamp] panics and the frame
    rate, the ratio, the counters and every viewer's target keep their ranges. *)
Theorem qos_run_never_panics (linux : bool) (now : Z) (ops : list qos_op)
    (Hops : Forall op_valid ops) :
  exists q, qos_run linux (Qos.new linux now) ops = Some q /\ qos_wf q.
Proof.
  assert (qos_wf (Qos.new linux now)) as W by apply new_wf. unfold qos_run.
  generalize dependent (Qos.new linux now).
  induction Hops as [|o ops Ho _ IH]; intros q W; simpl; [by eauto|].
  destruct (qos_step_wf linux q o W Ho) as (q' & -> & W'). by apply IH.
Qed.

(** The getters' out-of-range fallbacks are never taken. *)
Lemma qos_getters_exact (q : Qos.VideoQoS) (W : qos_wf q) :
  Qos.fps q = Qos.fps_ q /\ Qos.ratio q = (q, Qos.ratio_ q).
Proof.
  destruct W as [[H1 H2] [R1 R2] _]. split.
  - unfold Qos.fps. apply Z.leb_le in H1, H2. by rewrite H1, H2.
  - unfold Qos.ratio. by rewrite (F32.leb_not_ltb _ _ R1), (F32.leb_not_ltb _ _ R2).
Qed.

(** An adjustment either leaves the ratio and its cooldown alone, or starts a
    new cooldown with a ratio between the floor that the quality allows and the
    quality's own ratio. *)
Theorem adjust_ratio_bounds (q : Qos.VideoQoS) (now : Z) (dyn : bool) (q' : Qos.VideoQoS)
    (W : qos_wf q) (H : Qos.adjust_ratio q now dyn = Some q') :
  (Qos.ratio_ q' = Qos.ratio_ q /\ Qos.adjust_ratio_instant q' = Qos.adjust_ratio_instant q)
  \/ (F32.leb (Qos.min_ratio q) (Qos.ratio_ q') = true
      /\ F32.leb (Qos.ratio_ q')
           (F32.mul (quality_ratio (Qos.latest_quality q)) MAX_BR_MULTIPLE) = true
      /\ Qos.adjust_ratio_instant q' = now
      /\ Forall (fun d => Qos.send_counter d = 0) (Qos.display_list q')).
Proof.
  unfold Qos.adjust_ratio in H. destruct (negb _); [simplify_eq; by left|].
  destruct (Qos.max_list _) as [mx|]; [|simplify_eq; by left].
  destruct (_ && _); [simplify_eq; by left|]. cbv zeta in H.
  destruct (F32.clamp _ _ _) as [r|] eqn:Hr; [|done]. simpl in H. simplify_eq. right. simpl.
  destruct (F32.clamp_Some _ _ _ _ ltac:(apply ratio_target_number;
    [apply W|apply strongest_reduction_finite]) Hr) as [Hlo Hhi].
  do 3 (split; [done|]). unfold Qos.display_list. simpl.
  apply Forall_fmap, Forall_forall. intros [n d] Hd. apply elem_of_map_to_list in Hd.
  rewrite lookup_fmap in Hd. destruct (Qos.displays q !! n); simpl in Hd; by simplify_eq.
Qed.

(** Elevated but unconfirmed delay: when no viewer calls for a reduction and
    some viewer's average excess is at least 150 ms, neither the ratio nor the
    cooldown nor any viewer changes. *)
Theorem adjust_ratio_needs_confirmation (q : Qos.VideoQoS) (now : Z) (dyn : bool) (i : Z)
    (u : Qos.UserData)
    (Hu : Qos.users q !! i = Some u)
    (Hslow : DELAY_THRESHOLD_150MS <= Delay.avg_delay (Qos.delay u))
    (Hnone : forall j v, Qos.users q !! j = Some v ->
               Delay.needs_bitrate_reduction (Qos.delay v) = false) :
  exists q', Qos.adjust_ratio q now dyn = Some q' /\ Qos.ratio_ q' = Qos.ratio_ q
             /\ Qos.adjust_ratio_instant q' = Qos.adjust_ratio_instant q
             /\ Qos.users q' = Qos.users q.
Proof.
  unfold Qos.adjust_ratio. destruct (negb _); [by eauto|].
  assert (Qos.strongest_reduction q = None) as ->.
  { unfold Qos.strongest_reduction.
    replace (omap _ _) with (@nil F32.t); [done|]. symmetry. apply omap_all_None, Forall_forall.
    intros v Hv. unfold Qos.user_list in Hv. apply list_elem_of_fmap in Hv as ([j v'] & -> & Hj).
    apply elem_of_map_to_list, Hnone in Hj. simpl. unfold Delay.ratio_reduction. by rewrite Hj. }
  destruct (Qos.max_list _) as [mx|] eqn:Emx; [|by eauto].
  assert (Delay.avg_delay (Qos.delay u) <= mx) as Hmx.
  { eapply max_list_ge; [exact Emx|]. apply list_elem_of_fmap.
    exists u. split; [done|]. by eapply user_list_elem. }
  simpl. rewrite (proj2 (Z.leb_le _ _) (Z.le_trans _ _ _ Hslow Hmx)). eauto.
Qed.

(** Jitter is not congestion: one reply below a second, with at most one bad
    reply before it and no restore on trial, never lowers the viewer's target. *)
Theorem isolated_spike_keeps_fps (tr : F32.t) (bf : bool) (u : Qos.UserData) (delay cur : Z)
    (W : delay_wf (Qos.delay u)) (Hd : Int.is_u 32 delay)
    (Hcur : Delay.fps (Qos.delay u) = Some cur) (Hcap : cur <= Qos.fps_cap u)
    (Hlt : Z.max delay 10 < 1000)
    (Hr : Delay.samples_since_restore (Qos.delay u) = None)
    (Hb : Delay.fps_bad_samples (Qos.delay u) <= 1) :
  exists u' a r f, Qos.user_reply tr bf u delay = Some (u', a, r)
    /\ Delay.fps (Qos.delay u') = Some f /\ cur <= f <= Qos.fps_cap u.
Proof.
  destruct (user_reply_spec tr bf u delay W Hd) as (d & f & a & r & -> & _ & Hf & Hk).
  do 4 eexists. split; [done|]. split; [done|]. rewrite Hcur in Hk. simpl in Hk. specialize (Hk Hr Hb Hlt Hcap). lia.
Qed.

(** A probe out for more than two seconds never raises the viewer's target
    and never takes it below the automatic floor (or the cap, or the target
    itself, when those are lower); above that floor the target is at most the
    rate held when the stall began, halved for each second beyond the first (at
    most five times). *)
Theorem stalled_probe_brakes (q : Qos.VideoQoS) (now id elapsed : Z) (u : Qos.UserData) (cur : Z)
    (W : qos_wf q) (He : Int.is_u 128 elapsed) (Hlate : 2000 < elapsed)
    (Hu : Qos.users q !! id = Some u) (Hcur : Delay.fps (Qos.delay u) = Some cur) :
  exists q' u' f, Qos.user_delay_response_elapsed q now id elapsed = Some q' /\ Qos.users q' !! id = Some u'
    /\ Delay.fps (Qos.delay u') = Some f
    /\ Z.min (Z.min MIN_AUTO_FPS (Qos.fps_cap u)) cur <= f <= cur
    /\ Delay.stall_reference_fps (Qos.delay u') <> None
    /\ (elapsed < 2 ^ 32 ->
        f <= Z.max (Z.min MIN_AUTO_FPS (Qos.fps_cap u))
               (default cur (Delay.stall_reference_fps (Qos.delay u))
                / 2 ^ Z.min (elapsed / 1000 - 1) 5)).
Proof.
  destruct (elapsed_spec q now id elapsed u W He Hu Hlate) as (d & f & -> & _ & _ & Hs & Hf & Hq).
  destruct (adjust_fps_spec (Qos.set_users (<[id := Qos.set_delay (Delay.set_fps (Some f) d) u]> (Qos.users q)) q) now)
    as (f' & -> & _).
  do 3 eexists. split; [done|]. split; [apply lookup_insert_eq|]. split; [done|].
  split; [by apply Hf|]. split; [done|]. by apply Hq.
Qed.

(** The stream follows the slowest viewer: its rate is at most every viewer's
    own target and cap, and at most [INIT_FPS] while any viewer is in its first
    second. *)
Theorem stream_follows_slowest (q : Qos.VideoQoS) (now i : Z) (u : Qos.UserData)
    (W : qos_wf q) (Hu : Qos.users q !! i = Some u) :
  exists q', Qos.adjust_fps q now = Some q'
  /\ Qos.fps_ q' <= Qos.fps_cap u
  /\ Qos.fps_ q' <= default INIT_FPS (Delay.fps (Qos.delay u))
  /\ (Qos.starting_up now u = true -> Qos.fps_ q' <= INIT_FPS).
Proof.
  pose proof (user_list_elem q i u Hu) as Hin.
  pose proof (highest_fps_range q) as Hh. pose proof (fps_cap_range u) as Hcap.
  assert (Qos.highest_fps q <= Qos.fps_cap u) as Hle.
  { unfold Qos.highest_fps.
    destruct (min_list_some (Qos.fps_cap <$> Qos.user_list q) (Qos.fps_cap u)
                ltac:(by apply list_elem_of_fmap_2)) as (m & -> & Hm). simpl.
    pose proof (Int.limit_le MIN_FPS MAX_FPS m ltac:(done)). unfold Int.clamp_const. lia. }
  destruct (min_list_some ((fun u => default INIT_FPS (Delay.fps (Qos.delay u))) <$> Qos.user_list q)
              (default INIT_FPS (Delay.fps (Qos.delay u)))
              ltac:(by apply (list_elem_of_fmap_2 (fun u => default INIT_FPS (Delay.fps (Qos.delay u))))))
    as (m & Em & Hm).
  assert (MIN_FPS <= default INIT_FPS (Delay.fps (Qos.delay u))) as Hmin.
  { pose proof (wf_fps _ (wf_delay_ u (wf_q_users q W i u Hu))) as Hf.
    destruct (Delay.fps (Qos.delay u)); simpl in *; unfold MIN_FPS, INIT_FPS in *; lia. }
  unfold Qos.adjust_fps. cbv zeta. rewrite Em. rewrite Int.clamp_limit by lia. simpl.
  eexists. split; [done|]. simpl.
  match goal with |- context [Int.limit _ _ ?x] =>
    destruct (Int.limit_le MIN_FPS (Qos.highest_fps q) x) as [C1 C2]; [lia|] end.
  assert (Qos.starting_up now u = true -> existsb (Qos.starting_up now) (Qos.user_list q) = true).
  { intros E. apply existsb_exists. exists u. by rewrite <- list_elem_of_In. }
  unfold INIT_FPS, MIN_FPS in *.
  destruct (existsb _ _); (split; [lia|split; [lia|]]); intros E; [lia|]. specialize (H E). done.
Qed.

(** ** Witnesses *)

Lemma sample_delay_wf : delay_wf sample_delay.
Proof.
  constructor; simpl; try done; try (by right; right); try (unfold HISTORY_DELAY_LEN; lia).
  - repeat constructor; done.
  - split; [done|]. split; [by repeat constructor|]. split; [done|]. by repeat constructor.
Qed.

Lemma sample_qos_wf : qos_wf sample_qos.
Proof.
  constructor; simpl; [done|by split|]. apply map_Forall_singleton.
  constructor; simpl; auto using sample_delay_wf.
Qed.

Lemma qos_run_never_panics_witness :
  exists q, qos_run false (Qos.new false 0)
              [OpOpen 0 [] 1; OpDelay 0 1 10; OpQuality 1 1280 7; OpDelay 5 1 800;
               OpElapsed 6 1 3001; OpClose 7 1] = Some q /\ qos_wf q.
Proof. apply qos_run_never_panics. by repeat constructor. Defined.

Lemma adjust_ratio_bounds_witness :
  exists q', Qos.adjust_ratio sample_qos 9 true = Some q'
    /\ ((Qos.ratio_ q' = BR_BALANCED /\ Qos.adjust_ratio_instant q' = 0)
        \/ (F32.leb (Qos.min_ratio sample_qos) (Qos.ratio_ q') = true
            /\ F32.leb (Qos.ratio_ q') (F32.mul BR_BALANCED MAX_BR_MULTIPLE) = true
            /\ Qos.adjust_ratio_instant q' = 9
            /\ Forall (fun d => Qos.send_counter d = 0) (Qos.display_list q'))).
Proof.
  eexists. split; [vm_compute; reflexivity|].
  apply (adjust_ratio_bounds sample_qos 9 true); [apply sample_qos_wf|vm_compute; reflexivity].
Defined.

Lemma adjust_ratio_needs_confirmation_witness :
  exists q', Qos.adjust_ratio slow_qos 9 true = Some q' /\ Qos.ratio_ q' = BR_BALANCED
             /\ Qos.adjust_ratio_instant q' = 0 /\ Qos.users q' = Qos.users slow_qos.
Proof.
  apply (adjust_ratio_needs_confirmation slow_qos 9 true 1
           (Qos.set_delay (Delay.set_delay_history [500; 500] sample_delay) Qos.default_user)).
  - reflexivity.
  - vm_compute. discriminate.
  - intros j v Hv. simpl in Hv. apply lookup_singleton_Some in Hv as [_ <-]. reflexivity.
Defined.

Lemma isolated_spike_keeps_fps_witness :
  exists u' a r f, Qos.user_reply BR_BALANCED true sample_user 800 = Some (u', a, r)
    /\ Delay.fps (Qos.delay u') = Some f /\ 30 <= f <= Qos.fps_cap sample_user.
Proof.
  apply isolated_spike_keeps_fps; [apply sample_delay_wf|by split|reflexivity|done|done|done|done].
Defined.

Lemma stalled_probe_brakes_witness :
  exists q' u' f, Qos.user_delay_response_elapsed sample_qos 0 1 3001 = Some q' /\ Qos.users q' !! 1 = Some u'
    /\ Delay.fps (Qos.delay u') = Some f /\ 5 <= f <= 30
    /\ Delay.stall_reference_fps (Qos.delay u') <> None
    /\ (3001 < 2 ^ 32 -> f <= Z.max 5 (30 / 2 ^ Z.min (3001 / 1000 - 1) 5)).
Proof.
  apply (stalled_probe_brakes sample_qos 0 1 3001 sample_user 30);
    [apply sample_qos_wf|by split|done|reflexivity|reflexivity].
Defined.

Lemma stream_follows_slowest_witness :
  exists q', Qos.adjust_fps sample_qos 0 = Some q'
  /\ Qos.fps_ q' <= 30 /\ Qos.fps_ q' <= 30
  /\ (Qos.starting_up 0 sample_user = true -> Qos.fps_ q' <= 15).
Proof.
  apply (stream_follows_slowest sample_qos 0 1 sample_user); [apply sample_qos_wf|reflexivity].
Defined.

Lemma rtt_tracks_the_window_witness :
  exists b, Rtt.get_rtt (Rtt.update (foldl Rtt.update Rtt.default [100; 20]) 300) = Some b
  /\ 0 <= b
  /\ Rtt.samples (Rtt.update (foldl Rtt.update Rtt.default [100; 20]) 300) = [100; 20; 300]
  /\ Forall (fun s => b <= s)
       (Rtt.samples (Rtt.update (foldl Rtt.update Rtt.default [100; 20]) 300))
  /\ (forall b0, Rtt.get_rtt (foldl Rtt.update Rtt.default [100; 20]) = Some b0 -> b <= b0 + 50).
Proof. apply (rtt_tracks_the_window [100; 20] 300). decide_now. Defined.
