(* ===== verification/PortForwardMux.v ===== *)
(** * Multiplexed port forwarding: [src/port_forward_mux.rs] and
    [src/server/port_forward_mux.rs]

    Credit-based flow control of the channels of one tunnel.  [Window] holds
    the two accounting structures, [Relay] the two relay tasks of a channel as
    step functions over the events that [select!] can choose, [Tunnel] the
    controller's handle and [Host] the controlled side's dispatcher.  [Flow]
    composes one sender, one receiver and the wire between them. *)

From S2P Require Import Prelude.

Abbreviation bytes := (list Z).

(** ** Windows and credit *)

Module Window.
Definition INITIAL_WINDOW : Z := 64 * 1024.
Definition MIN_FRAME_CHARGE : Z := 64.
Definition CHANNEL_WINDOW : Z := 256 * 1024.
Definition MAX_FRAME : Z := 64 * 1024.
Definition MAX_PACKET : Z := 2 * MAX_FRAME.
Definition UPDATE_THRESHOLD : Z := CHANNEL_WINDOW / 2.
Definition MAX_CHANNELS : Z := 256.
Definition DATA_QUEUE_FRAMES : Z := 128.
Definition MAX_SEND_CREDIT : Z := CHANNEL_WINDOW.

Definition effective_window (advertised : Z) : Z := Z.max advertised INITIAL_WINDOW.

(** [len] is a [usize]. *)
Definition charge (len : Z) : Z :=
  Z.max (if len <=? Int.umax 32 then len else Int.umax 32) MIN_FRAME_CHARGE.

Record RecvWindow := mk { remaining : Z; drained_since_update : Z }.

Definition new (granted : Z) : RecvWindow := mk (effective_window granted) 0.

(** The new window and the verdict; a refusal leaves the window alone. *)
Definition accept (w : RecvWindow) (len : Z) : RecvWindow * bool :=
  match Int.checked_sub (remaining w) (charge len) with
  | Some l => (mk l (drained_since_update w), true)
  | None => (w, false)
  end.

Definition grant (w : RecvWindow) (n : Z) : RecvWindow :=
  mk (Int.sat_addu 32 (remaining w) n) (drained_since_update w).

Definition drained (w : RecvWindow) (n : Z) : RecvWindow * option Z :=
  let total := Int.sat_addu 32 (drained_since_update w) (charge n) in
  if total <? UPDATE_THRESHOLD then (mk (remaining w) total, None)
  else (mk (Int.sat_addu 32 (remaining w) total) 0, Some total).

(** [SendCredit] is the [u32] behind its lock. *)
Definition credit_new (initial : Z) : Z := Z.min initial MAX_SEND_CREDIT.

(** One turn of [take]'s loop: the amount taken and the credit left, or
    [None] while it parks. *)
Definition take (credit max : Z) : option (Z * Z) :=
  if MIN_FRAME_CHARGE <=? credit then
    let n := Z.min credit max in Some (n, credit - n)
  else None.

Definition add (credit n : Z) : Z := Z.min (Int.sat_addu 32 credit n) MAX_SEND_CREDIT.

Definition raise_initial (credit total : Z) : Z :=
  let extra := effective_window total - INITIAL_WINDOW in
  if 0 <? extra then add credit extra else credit.
End Window.

(** ** Messages *)

(** [PortForwardChannel]'s union; the last case is an unset or unknown one. *)
Inductive frame :=
| Open (channel_id : Z) (host : rstr) (port window : Z)
| Opened (channel_id : Z) (success : bool) (message : rstr) (window : Z)
| Data (channel_id : Z) (data : bytes)
| Close (channel_id : Z)
| WindowUpdate (channel_id add : Z)
| Unknown.

Definition open_msg (id : Z) (host : rstr) (port window : Z) : frame := Open id host port window.
Definition opened_msg (id : Z) (success : bool) (message : rstr) (window : Z) : frame :=
  Opened id success message window.
Definition data_msg (id : Z) (data : bytes) : frame := Data id data.
Definition close_msg (id : Z) : frame := Close id.
Definition window_update_msg (id add : Z) : frame := WindowUpdate id add.

Definition blen (b : bytes) : Z := Z.of_nat (length b).

Inductive Inbound := InData (b : bytes) | InClose | InViolation.

(** ** The relay tasks of one channel *)

Module Relay.
Inductive RelayEnd := LocalEof | PeerClosed | Violation | Cancelled | TunnelGone.
#[export] Instance RelayEnd_eq_dec : EqDecision RelayEnd.
Proof. solve_decision. Defined.

(** *** Local socket to tunnel *)

Inductive out_phase :=
| Taking
| Reading (allow : Z)
| Sending (chunk : bytes)
| OutEnded (e : RelayEnd).
Record Out := mk_out { out_at : out_phase; credit : Z }.

(** What a suspended point can resume with. *)
Inductive out_event :=
| CreditReady                 (* [credit.take] resolves *)
| ReadReady (got : bytes)     (* the read resolves; empty on end of file or error *)
| OutCancel                   (* [cancel.changed()] *)
| SinkReady (ok : bool).      (* [send_ordered] resolves *)

(** The next state and the frame handed to the sink; [None] where the event
    is not one the task waits for. *)
Definition out_step (id : Z) (s : Out) (e : out_event) : option (Out * option frame) :=
  match out_at s, e with
  | Taking, CreditReady =>
      match Window.take (credit s) Window.MAX_FRAME with
      | Some (allow, l) => Some (mk_out (Reading allow) l, None)
      | None => None
      end
  | Taking, OutCancel => Some (mk_out (OutEnded Cancelled) (credit s), None)
  | Reading allow, OutCancel =>
      Some (mk_out (OutEnded Cancelled) (Window.add (credit s) allow), None)
  | Reading allow, ReadReady got =>
      if allow <? blen got then None
      else
        let spent := if blen got =? 0 then 0 else Window.charge (blen got) in
        let c := if spent <? allow then Window.add (credit s) (allow - spent) else credit s in
        if blen got =? 0 then Some (mk_out (OutEnded LocalEof) c, None)
        else Some (mk_out (Sending got) c, Some (data_msg id got))
  | Sending _, SinkReady ok =>
      Some (mk_out (if ok then Taking else OutEnded TunnelGone) (credit s), None)
  | _, _ => None
  end.

(** *** Tunnel to local socket *)

Inductive in_phase :=
| Next
| Writing (chunk : bytes)
| InEnded (e : RelayEnd).
Record In := mk_in {
  in_at : in_phase;
  pending : list bytes;
  inbound : list Inbound;      (* queued in the channel, oldest first *)
  senders_gone : bool;         (* the entry that feeds the queue was dropped *)
  window : Window.RecvWindow;
}.

Inductive in_event :=
| InReady                        (* the next chunk, or [recv] resolves *)
| InCancel
| Written (ok control_ok : bool). (* [write_all] and then [send_control] *)

Definition in_step (id : Z) (s : In) (e : in_event) : option (In * option frame) :=
  let go ph p i w := mk_in ph p i (senders_gone s) w in
  match in_at s, e with
  | Next, InReady =>
      match pending s with
      | c :: rest => Some (go (Writing c) rest (inbound s) (window s), None)
      | [] =>
          match inbound s with
          | InData c :: q => Some (go (Writing c) [] q (window s), None)
          | InClose :: q => Some (go (InEnded PeerClosed) [] q (window s), None)
          | InViolation :: q => Some (go (InEnded Violation) [] q (window s), None)
          | [] =>
              if senders_gone s then Some (go (InEnded TunnelGone) [] [] (window s), None)
              else None
          end
      end
  | Next, InCancel =>
      match pending s with
      | [] => Some (go (InEnded Cancelled) [] (inbound s) (window s), None)
      | _ => None
      end
  | Writing _, InCancel =>
      Some (go (InEnded Cancelled) (pending s) (inbound s) (window s), None)
  | Writing c, Written ok control_ok =>
      if negb ok then Some (go (InEnded LocalEof) (pending s) (inbound s) (window s), None)
      else
        let '(w, update) := Window.drained (window s) (blen c) in
        match update with
        | Some add =>
            if control_ok
            then Some (go Next (pending s) (inbound s) w, Some (window_update_msg id add))
            else Some (go (InEnded TunnelGone) (pending s) (inbound s) w, None)
        | None => Some (go Next (pending s) (inbound s) w, None)
        end
  | _, _ => None
  end.

(** *** [run_channel], once both halves have ended *)

Definition is_local (e : RelayEnd) : bool :=
  match e with LocalEof | Violation => true | _ => false end.

(** The frame sent down the ordered queue at the end. *)
Definition run_channel_end (id : Z) (first second : RelayEnd) : option frame :=
  let peer_closed := bool_decide (first = PeerClosed) || bool_decide (second = PeerClosed) in
  let tunnel_gone := bool_decide (first = TunnelGone) || bool_decide (second = TunnelGone) in
  let local_reason := is_local first || is_local second in
  if negb peer_closed && negb tunnel_gone && local_reason then Some (close_msg id) else None.
End Relay.

(** ** The controller's tunnel *)

Module Tunnel.
Definition REPORT_AGAIN_AFTER : Z := 10 * 10 ^ 9.   (* nanoseconds *)
Definition MAX_REPORTED_OPEN_ERRORS : Z := 8.

(** What a channel's map entry shares with its task: the two [Arc]s and the
    queue between them.  Objects outlive their entry, so they live in a
    store of their own and the entry holds a reference. *)
Record ChanObj := mk_obj {
  o_inbound : list Inbound;
  o_rx_alive : bool;           (* the task still holds the receiver *)
  o_tx_alive : bool;           (* an entry still holds the sender *)
  o_credit : Z;
  o_window : Window.RecvWindow;
}.
Record ChannelEntry := mk_entry { e_ref : nat; e_opened : bool }.

Record TunnelHandle := mk {
  sink_closed : bool;
  store : gmap nat ChanObj;
  channels : gmap Z ChannelEntry;
  next_id : Z;
  reported : gmap rstr Z;
  teardown : bool;
}.
Definition set_store v h := mk (sink_closed h) v (channels h) (next_id h) (reported h) (teardown h).
Definition set_channels v h := mk (sink_closed h) (store h) v (next_id h) (reported h) (teardown h).
Definition set_reported v h := mk (sink_closed h) (store h) (channels h) (next_id h) v (teardown h).

(** [set_muxed]'s fresh handle. *)
Definition new : TunnelHandle := mk false ∅ ∅ 1 ∅ false.

(** [send(x).is_ok()] on the unbounded queue. *)
Definition send (o : ChanObj) (x : Inbound) : ChanObj * bool :=
  if o_rx_alive o
  then (mk_obj (o_inbound o ++ [x]) true (o_tx_alive o) (o_credit o) (o_window o), true)
  else (o, false).
Definition drop_sender (o : ChanObj) : ChanObj :=
  mk_obj (o_inbound o) (o_rx_alive o) false (o_credit o) (o_window o).

Definition update_obj (h : TunnelHandle) (r : nat) (f : ChanObj -> ChanObj) : TunnelHandle :=
  set_store (alter f r (store h)) h.

(** The entry leaves the map and its sender is dropped. *)
Definition remove_entry (h : TunnelHandle) (id : Z) : TunnelHandle :=
  match channels h !! id with
  | Some e => update_obj (set_channels (delete id (channels h)) h) (e_ref e) drop_sender
  | None => h
  end.

(** [fetch_add(1)] on the [i32] counter, until a free id comes up. *)
Fixpoint alloc_id (fuel : nat) (chs : gmap Z ChannelEntry) (next : Z) : option (Z * Z) :=
  match fuel with
  | O => None
  | S f =>
      let id := next in
      let next := Int.swrap 32 (next + 1) in
      match chs !! id with
      | Some _ => alloc_id f chs next
      | None => Some (id, next)
      end
  end.

Inductive open_error := TunnelIsGone | TooManyChannels.

(** [open]: the channel's id, its object and the frame its task sends first. *)
Definition open (h : TunnelHandle) (host : rstr) (port : Z)
  : TunnelHandle * option (result (Z * nat * frame) open_error) :=
  if sink_closed h then (h, Some (Err TunnelIsGone))
  else if Window.MAX_CHANNELS <=? Z.of_nat (size (channels h)) then (h, Some (Err TooManyChannels))
  else
    match alloc_id (S (size (channels h))) (channels h) (next_id h) with
    | None => (h, None)
    | Some (id, next) =>
        let r := fresh (dom (store h)) in
        let o := mk_obj [] true true (Window.credit_new Window.INITIAL_WINDOW)
                   (Window.new Window.CHANNEL_WINDOW) in
        (mk (sink_closed h) (<[r := o]> (store h)) (<[id := mk_entry r false]> (channels h))
            next (reported h) (teardown h),
         Some (Ok (id, r, open_msg id host port Window.CHANNEL_WINDOW)))
    end.

(** The channel task is over: the receiver is dropped, the entry removed. *)
Definition task_end (h : TunnelHandle) (id : Z) (r : nat) : TunnelHandle :=
  remove_entry
    (update_obj h r (fun o => mk_obj [] false (o_tx_alive o) (o_credit o) (o_window o))) id.

Definition first_report_at (h : TunnelHandle) (message : rstr) (now : Z)
  : TunnelHandle * option rstr :=
  match message with
  | [] => (h, None)
  | _ =>
      let rep := filter (fun '(_, last) => Z.max 0 (now - last) < REPORT_AGAIN_AFTER) (reported h) in
      match rep !! message with
      | Some _ => (set_reported (<[message := now]> rep) h, None)
      | None =>
          if MAX_REPORTED_OPEN_ERRORS <=? Z.of_nat (size rep) then (set_reported rep h, None)
          else (set_reported (<[message := now]> rep) h, Some message)
      end
  end.

(** [on_frame]: the new handle and the error to show, if any. *)
Definition on_frame (h : TunnelHandle) (now : Z) (f : frame) : TunnelHandle * option rstr :=
  match f with
  | Opened id success message w =>
      match channels h !! id with
      | None => (h, None)
      | Some e =>
          if success then
            if e_opened e then (h, None)
            else
              (update_obj (set_channels (<[id := mk_entry (e_ref e) true]> (channels h)) h)
                 (e_ref e)
                 (fun o => mk_obj (o_inbound o) (o_rx_alive o) (o_tx_alive o)
                             (Window.raise_initial (o_credit o) w) (o_window o)), None)
          else
            let h := update_obj h (e_ref e) (fun o => fst (send o InClose)) in
            first_report_at (remove_entry h id) message now
      end
  | Data id data =>
      match channels h !! id with
      | None => (h, None)
      | Some e =>
          match store h !! e_ref e with
          | None => (h, None)
          | Some o =>
              let '(w, accepted) := Window.accept (o_window o) (blen data) in
              let o := mk_obj (o_inbound o) (o_rx_alive o) (o_tx_alive o) (o_credit o) w in
              let '(o, delivered) := if accepted then send o (InData data) else (o, false) in
              let h := set_store (<[e_ref e := o]> (store h)) h in
              if delivered then (h, None)
              else
                let h := if accepted then h
                         else update_obj h (e_ref e) (fun o => fst (send o InViolation)) in
                (remove_entry h id, None)
          end
      end
  | Close id =>
      match channels h !! id with
      | Some e =>
          (remove_entry (update_obj h (e_ref e) (fun o => fst (send o InClose))) id, None)
      | None => (h, None)
      end
  | WindowUpdate id add =>
      match channels h !! id with
      | Some e =>
          (update_obj h (e_ref e)
             (fun o => mk_obj (o_inbound o) (o_rx_alive o) (o_tx_alive o)
                         (Window.add (o_credit o) add) (o_window o)), None)
      | None => (h, None)
      end
  | Open _ _ _ _ | Unknown => (h, None)
  end.

Definition close_all (h : TunnelHandle) : TunnelHandle :=
  let refs := e_ref <$> ((map_to_list (channels h)).*2) in
  mk (sink_closed h) (foldr (alter drop_sender) (store h) refs) ∅ (next_id h) (reported h) true.

(** *** The listener's view *)

Inductive TunnelState := Unset | Muxed (h : TunnelHandle) | Legacy | Failed.
Inductive Claim := Claimed | ClaimMuxed (h : TunnelHandle) | ClaimLegacy.

Definition claim (s : TunnelState) : Claim :=
  match s with
  | Unset | Failed => Claimed
  | Muxed h => ClaimMuxed h
  | Legacy => ClaimLegacy
  end.
End Tunnel.

(** ** The controlled side *)

Module Host.
Import Tunnel.

(** [Connection::normalize_port_forward_target]: the address and [is_rdp]. *)
Definition normalize_port_forward_target (host : rstr) (port : Z) : rstr * bool :=
  let '(host, port, is_rdp) :=
    if bool_decide (host = Str.lit "RDP") && (port =? 0)
    then (Str.lit "localhost", 3389, true) else (host, port, false) in
  let host := match host with [] => Str.lit "localhost" | _ => host end in
  (host ++ Str.lit ":" ++ Str.show_int port, is_rdp).

Definition pending_fits (charged add_len : Z) : bool :=
  Int.sat_addu 64 charged (Window.charge add_len) <=? Window.INITIAL_WINDOW.

Record PortForwardMux := mk {
  h_store : gmap nat ChanObj;
  h_channels : gmap Z nat;
  login_target : rstr;
  h_teardown : bool;
}.
Definition new (target : rstr) : PortForwardMux := mk ∅ ∅ target false.

Definition set_store v m := mk v (h_channels m) (login_target m) (h_teardown m).
Definition set_channels v m := mk (h_store m) v (login_target m) (h_teardown m).
Definition update_obj (m : PortForwardMux) (r : nat) (f : ChanObj -> ChanObj) : PortForwardMux :=
  set_store (alter f r (h_store m)) m.
Definition remove_entry (m : PortForwardMux) (id : Z) : PortForwardMux :=
  match h_channels m !! id with
  | Some r => update_obj (set_channels (delete id (h_channels m)) m) r drop_sender
  | None => m
  end.

(** [e.inbound.is_closed()]: the channel's task dropped its receiver. *)
Definition is_closed (m : PortForwardMux) (r : nat) : bool :=
  match h_store m !! r with Some o => negb (o_rx_alive o) | None => true end.

(** What a spawned channel task starts with. *)
Record spawn := mk_spawn { sp_id : Z; sp_addr : rstr; sp_is_rdp : bool; sp_ref : nat }.

(** [on_open]: the replies sent and the task spawned. *)
Definition on_open (m : PortForwardMux) (id : Z) (host : rstr) (port window : Z)
    (permitted : bool) : PortForwardMux * list frame * option spawn :=
  let m := set_channels (filter (fun '(_, r) => is_closed m r = false) (h_channels m)) m in
  if negb permitted then
    (m, [opened_msg id false (Str.lit "No permission of IP tunneling") 0], None)
  else if Window.MAX_CHANNELS <=? Z.of_nat (size (h_channels m)) then
    (m, [opened_msg id false (Str.lit "Too many port forward channels") 0], None)
  else
    match h_channels m !! id with
    | Some _ => (m, [], None)
    | None =>
        let '(addr, is_rdp) := normalize_port_forward_target host port in
        if negb (bool_decide (addr = login_target m)) then
          (m, [opened_msg id false (Str.lit "Port forward target not authorized") 0], None)
        else
          let r := fresh (dom (h_store m)) in
          let o := mk_obj [] true true
                     (Window.credit_new (Window.effective_window window))
                     (Window.new Window.INITIAL_WINDOW) in
          (mk (<[r := o]> (h_store m)) (<[id := r]> (h_channels m)) (login_target m) (h_teardown m),
           [], Some (mk_spawn id addr is_rdp r))
    end.

(** [handle]; [tunnel_permitted] is the caller's closure. *)
Definition handle (m : PortForwardMux) (f : frame) (tunnel_permitted : bool)
  : PortForwardMux * list frame * option spawn :=
  match f with
  | Open id host port window => on_open m id host port window tunnel_permitted
  | Data id data =>
      match h_channels m !! id with
      | None => (m, [], None)
      | Some r =>
          match h_store m !! r with
          | None => (m, [], None)
          | Some o =>
              let '(w, accepted) := Window.accept (o_window o) (blen data) in
              let o := mk_obj (o_inbound o) (o_rx_alive o) (o_tx_alive o) (o_credit o) w in
              let '(o, delivered) := if accepted then send o (InData data) else (o, false) in
              let m := set_store (<[r := o]> (h_store m)) m in
              if delivered then (m, [], None)
              else
                let m := if accepted then m
                         else update_obj m r (fun o => fst (send o InViolation)) in
                (remove_entry m id, [], None)
          end
      end
  | Close id =>
      match h_channels m !! id with
      | Some r => (remove_entry (update_obj m r (fun o => fst (send o InClose))) id, [], None)
      | None => (m, [], None)
      end
  | WindowUpdate id add =>
      match h_channels m !! id with
      | Some r =>
          (update_obj m r
             (fun o => mk_obj (o_inbound o) (o_rx_alive o) (o_tx_alive o)
                         (Window.add (o_credit o) add) (o_window o)), [], None)
      | None => (m, [], None)
      end
  | Opened _ _ _ _ | Unknown => (m, [], None)
  end.

Definition close_all (m : PortForwardMux) : PortForwardMux :=
  let refs := (map_to_list (h_channels m)).*2 in
  mk (foldr (alter drop_sender) (h_store m) refs) ∅ (login_target m) true.

Definition unreachable_message (addr : rstr) (is_rdp : bool) : rstr :=
  Str.lit "Failed to access remote " ++ (if is_rdp then Str.lit "RDP" else addr)
  ++ Str.lit ". Please make sure it is reachable/open.".

(** *** [run_controlled_channel] until it relays *)

(** [Connecting]: the chunks buffered and their total charge. *)
Inductive conn_state :=
| Connecting (pending : list bytes) (pending_len : Z)
| Relaying (pending : list bytes)
| Gone.
(** The [select!] is biased: the connect is looked at only when the queue is
    empty and its senders alive. *)
Inductive conn_event :=
| Command (c : option Inbound)
| Connected (sink_ok : bool)
| ConnectFailed.

Definition conn_step (id : Z) (addr : rstr) (is_rdp : bool) (w : Window.RecvWindow)
    (s : conn_state) (e : conn_event) : option (conn_state * Window.RecvWindow * list frame) :=
  match s, e with
  | Connecting pending len, Command (Some (InData b)) =>
      if pending_fits len (blen b)
      then Some (Connecting (pending ++ [b]) (len + Window.charge (blen b)), w, [])
      else Some (Gone, w, [close_msg id])
  | Connecting _ _, Command (Some InClose) | Connecting _ _, Command None => Some (Gone, w, [])
  | Connecting _ _, Command (Some InViolation) => Some (Gone, w, [close_msg id])
  | Connecting _ _, ConnectFailed =>
      Some (Gone, w, [opened_msg id false (unreachable_message addr is_rdp) 0])
  | Connecting pending _, Connected sink_ok =>
      let w := Window.grant w (Window.CHANNEL_WINDOW - Window.INITIAL_WINDOW) in
      if sink_ok
      then Some (Relaying pending, w, [opened_msg id true [] Window.CHANNEL_WINDOW])
      else Some (Gone, w, [])
  | _, _ => None
  end.
End Host.

(** ** One direction of a channel, end to end *)

Module Flow.
Import Relay.

(** The sender's relay, the two halves of the wire, the receiver's connect
    phase and relay.  [opened] is the entry's flag; [got] and [put] are the
    bytes read from the sender's socket and written to the receiver's. *)
Record Flow := mk {
  tx : Out;
  opened : bool;
  wire : list bytes;
  back : list frame;
  conn : Host.conn_state;
  rx : In;
  overrun : bool;
  got : bytes;
  put : bytes;
}.

(** Controller to target: the credit of [TunnelHandle::open], the window of
    [PortForwardMux::on_open]. *)
Definition init_up : Flow :=
  mk (mk_out Taking (Window.credit_new Window.INITIAL_WINDOW)) false [] []
     (Host.Connecting [] 0)
     (mk_in Next [] [] false (Window.new Window.INITIAL_WINDOW)) false [] [].

(** Target to controller: the credit of [on_open] for a controller that
    advertises [CHANNEL_WINDOW], the window of [open]. *)
Definition init_down : Flow :=
  mk (mk_out Taking (Window.credit_new (Window.effective_window Window.CHANNEL_WINDOW)))
     true [] [] (Host.Relaying [])
     (mk_in Next [] [] false (Window.new Window.CHANNEL_WINDOW)) false [] [].

Inductive event :=
| Sender (e : out_event)
| Deliver                       (* the oldest data frame reaches the demultiplexer *)
| Connect (e : Host.conn_event)
| Receiver (e : in_event)
| Back.                         (* the oldest frame back reaches the sender's side *)

Definition set_inbound (q : list Inbound) (s : In) : In :=
  mk_in (in_at s) (pending s) q (senders_gone s) (window s).

(** The receiver's relay runs once the connect phase handed over to it. *)
Definition receiver_step (id : Z) (s : Flow) (e : in_event) : option Flow :=
  match conn s with
  | Host.Relaying _ =>
      match in_step id (rx s) e with
      | Some (r, out) =>
          let out := match out with Some f => [f] | None => [] end in
          let put' := match in_at (rx s), e with
                      | Writing c, Written true _ => put s ++ c
                      | _, _ => put s
                      end in
          Some (mk (tx s) (opened s) (wire s) (back s ++ out) (conn s) r (overrun s)
                   (got s) put')
      | None => None
      end
  | _ => None
  end.

(** Events of a tunnel that stays up: no send to its writer fails. *)
Definition step (id : Z) (s : Flow) (e : event) : option Flow :=
  match e with
  | Sender (SinkReady false) => None
  | Sender e =>
      match out_step id (tx s) e with
      | Some (t, Some (Data _ b)) =>
          Some (mk t (opened s) (wire s ++ [b]) (back s) (conn s) (rx s) (overrun s)
                   (got s ++ b) (put s))
      | Some (t, _) =>
          Some (mk t (opened s) (wire s) (back s) (conn s) (rx s) (overrun s) (got s) (put s))
      | None => None
      end
  | Deliver =>
      match wire s with
      | b :: rest =>
          let '(w, accepted) := Window.accept (window (rx s)) (blen b) in
          let x := if accepted then InData b else InViolation in
          Some (mk (tx s) (opened s) rest (back s) (conn s)
                   (mk_in (in_at (rx s)) (pending (rx s)) (inbound (rx s) ++ [x])
                          (senders_gone (rx s)) w)
                   (overrun s || negb accepted) (got s) (put s))
      | [] => None
      end
  | Connect e =>
      let put_conn q c w out :=
        mk (tx s) (opened s) (wire s) (back s ++ out) c
           (mk_in (in_at (rx s))
                  (match c with Host.Relaying p => p | _ => pending (rx s) end)
                  q (senders_gone (rx s)) w)
           (overrun s) (got s) (put s) in
      match e, inbound (rx s) with
      | Host.Command (Some c), c' :: q =>
          match c, c' with
          | InData b, InData b' =>
              if bool_decide (b = b') then
                match Host.conn_step id [] false (window (rx s)) (conn s) e with
                | Some (c, w, out) => Some (put_conn q c w out)
                | None => None
                end
              else None
          | _, _ => None
          end
      | Host.Connected true, [] =>
          match Host.conn_step id [] false (window (rx s)) (conn s) e with
          | Some (c, w, out) => Some (put_conn [] c w out)
          | None => None
          end
      | _, _ => None
      end
  | Receiver (Written _ false) => None
  | Receiver e => receiver_step id s e
  | Back =>
      let put_tx c o rest :=
        mk (mk_out (out_at (tx s)) c) o (wire s) rest (conn s) (rx s) (overrun s)
           (got s) (put s) in
      match back s with
      | WindowUpdate _ n :: rest => Some (put_tx (Window.add (credit (tx s)) n) (opened s) rest)
      | Opened _ true _ w :: rest =>
          Some (put_tx (if opened s then credit (tx s)
                        else Window.raise_initial (credit (tx s)) w) true rest)
      | _ :: rest => Some (put_tx (credit (tx s)) (opened s) rest)
      | [] => None
      end
  end.

Inductive reachable (id : Z) (init : Flow) : Flow -> Prop :=
| reach_init : reachable id init init
| reach_step s e s' : reachable id init s -> step id s e = Some s' -> reachable id init s'.

(** *** What the accounting adds up to *)

Definition sum (l : list Z) : Z := foldr Z.add 0 l.
Definition charges (l : list bytes) : Z := sum ((fun b => Window.charge (blen b)) <$> l).

Definition held (t : Out) : Z := match out_at t with Reading allow => allow | _ => 0 end.
(** The credit that a frame in flight carries to the sender. *)
Definition carries (o : bool) (f : frame) : Z :=
  match f with
  | WindowUpdate _ n => n
  | Opened _ true _ w => if o then 0 else Window.effective_window w - Window.INITIAL_WINDOW
  | _ => 0
  end.
Definition queued (q : list Inbound) : list bytes :=
  omap (fun x => match x with InData b => Some b | _ => None end) q.
(** Accepted chunks that are not yet written to the socket, oldest first. *)
Definition undrained (s : Flow) : list bytes :=
  (match in_at (rx s) with Writing c => [c] | _ => [] end)
  ++ (match conn s with Host.Connecting p _ => p | _ => pending (rx s) end)
  ++ queued (inbound (rx s)).
Definition granted (s : Flow) : Z :=
  match conn s with
  | Host.Relaying _ => Window.CHANNEL_WINDOW
  | _ => Window.INITIAL_WINDOW
  end.
(** The receiver's relay has not ended. *)
Definition live (s : Flow) : bool :=
  match in_at (rx s) with InEnded _ => false | _ => true end.
End Flow.

(** * Specification *)

Definition is_opened_frame (f : frame) : bool :=
  match f with Opened _ _ _ _ => true | _ => false end.

Definition frame_sane (f : frame) : Prop :=
  match f with
  | WindowUpdate _ n => 0 <= n
  | Opened _ ok _ w => ok = true /\ w = Window.CHANNEL_WINDOW
  | _ => False
  end.

Record flow_inv (s : Flow.Flow) : Prop := {
  fi_phase : match Relay.out_at (Flow.tx s) with
             | Relay.Reading a => Window.MIN_FRAME_CHARGE <= a <= Window.MAX_FRAME
             | _ => True
             end;
  fi_credit : 0 <= Relay.credit (Flow.tx s);
  fi_wire : Forall (fun b => blen b <= Window.MAX_FRAME) (Flow.wire s);
  fi_back : Forall frame_sane (Flow.back s);
  fi_balance : Relay.credit (Flow.tx s) + Flow.held (Flow.tx s) + Flow.charges (Flow.wire s)
               + Flow.sum (Flow.carries (Flow.opened s) <$> Flow.back s)
               = Window.remaining (Relay.window (Flow.rx s));
  fi_opened : length (List.filter is_opened_frame (Flow.back s))
              = match Flow.conn s with
                | Host.Relaying _ => if Flow.opened s then 0%nat else 1%nat
                | _ => 0%nat
                end;
  fi_memory : exists lost, 0 <= lost
              /\ Window.remaining (Relay.window (Flow.rx s)) + Flow.charges (Flow.undrained s)
                 + Window.drained_since_update (Relay.window (Flow.rx s)) + lost
                 = Flow.granted s
              /\ (Flow.live s = true -> lost = 0);
  fi_drained : 0 <= Window.drained_since_update (Relay.window (Flow.rx s))
                 < Window.UPDATE_THRESHOLD;
  fi_conn : match Flow.conn s with
            | Host.Connecting p l => l = Flow.charges p /\ Relay.pending (Flow.rx s) = []
                                     /\ Relay.in_at (Flow.rx s) = Relay.Next
                                     /\ Flow.opened s = false
            | Host.Relaying _ => True
            | Host.Gone => False
            end;
  fi_queue : Forall (fun x => exists b, x = InData b) (Relay.inbound (Flow.rx s));
  fi_overrun : Flow.overrun s = false;
  fi_bytes : exists rest, Flow.got s = Flow.put s ++ rest
             /\ (Flow.live s = true ->
                 rest = concat (Flow.undrained s) ++ concat (Flow.wire s));
}.

Definition phase_ok (p : Relay.out_phase) : Prop :=
  match p with
  | Relay.Reading a => Window.MIN_FRAME_CHARGE <= a <= Window.MAX_FRAME
  | _ => True
  end.

(** The data frame that a step hands to the sink. *)
Definition sent (o : option frame) : list bytes :=
  match o with Some (Data _ b) => [b] | _ => [] end.

Fixpoint flow_run (id : Z) (s : Flow.Flow) (es : list Flow.event) : option Flow.Flow :=
  match es with
  | [] => Some s
  | e :: es => s' ← Flow.step id s e; flow_run id s' es
  end.

(** Three bytes travel from the controller's socket to the target's. *)
Definition sample_events : list Flow.event :=
  [Flow.Sender Relay.CreditReady; Flow.Sender (Relay.ReadReady [1; 2; 3]);
   Flow.Sender (Relay.SinkReady true); Flow.Deliver;
   Flow.Connect (Host.Command (Some (InData [1; 2; 3]))); Flow.Connect (Host.Connected true);
   Flow.Back; Flow.Receiver Relay.InReady; Flow.Receiver (Relay.Written true true)].
Definition sample_flow : Flow.Flow :=
  default Flow.init_up (flow_run 1 Flow.init_up sample_events).

(** A tunnel with channel 7, whose window has 70 bytes left. *)
Definition tight_tunnel : Tunnel.TunnelHandle :=
  Tunnel.mk false {[0%nat := Tunnel.mk_obj [] true true 0 (Window.mk 70 0)]}
    {[7 := Tunnel.mk_entry 0 true]} 8 ∅ false.

(** * Theorems *)

(** ** Windows *)

Lemma charge_pos n : Window.MIN_FRAME_CHARGE <= Window.charge n.
Proof. unfold Window.charge. lia. Qed.

Lemma charge_frame n :
  0 <= n <= Window.MAX_FRAME -> Window.charge n = Z.max n Window.MIN_FRAME_CHARGE.
Proof. unfold Window.charge, Window.MAX_FRAME, Int.umax. intros. zbool; lia. Qed.

Lemma accept_spec w n :
  Window.accept w n =
    if Window.charge n <=? Window.remaining w
    then (Window.mk (Window.remaining w - Window.charge n) (Window.drained_since_update w), true)
    else (w, false).
Proof. unfold Window.accept, Int.checked_sub. by destruct (_ <=? _). Qed.

Lemma add_small c n :
  0 <= c -> 0 <= n -> c + n <= Window.MAX_SEND_CREDIT -> Window.add c n = c + n.
Proof. unfold Window.add, Int.sat_addu, Int.umax, Window.MAX_SEND_CREDIT, Window.CHANNEL_WINDOW. lia. Qed.

Lemma raise_initial_small c w :
  0 <= c -> c + (Window.effective_window w - Window.INITIAL_WINDOW) <= Window.MAX_SEND_CREDIT ->
  Window.raise_initial c w = c + (Window.effective_window w - Window.INITIAL_WINDOW).
Proof.
  intros Hc Hle. unfold Window.raise_initial. cbv zeta.
  assert (0 <= Window.effective_window w - Window.INITIAL_WINDOW)
    by (unfold Window.effective_window; lia).
  destruct (Z.ltb_spec 0 (Window.effective_window w - Window.INITIAL_WINDOW)); [|lia].
  by apply add_small.
Qed.

(** Draining moves the charge to the pending update, and an update gives back
    exactly what it advertises. *)
Lemma drained_spec w n :
  0 <= Window.drained_since_update w < Window.UPDATE_THRESHOLD ->
  0 <= Window.remaining w ->
  Window.remaining w + Window.drained_since_update w + Window.charge n <= Window.CHANNEL_WINDOW ->
  let '(w', u) := Window.drained w n in
  Window.remaining w' = Window.remaining w + default 0 u
  /\ Window.drained_since_update w' + default 0 u
     = Window.drained_since_update w + Window.charge n
  /\ 0 <= Window.drained_since_update w' < Window.UPDATE_THRESHOLD
  /\ match u with Some a => 0 <= a | None => True end.
Proof.
  intros Hd Hr Hle. pose proof (charge_pos n).
  assert (forall a b, 0 <= a -> 0 <= b -> a + b <= Window.CHANNEL_WINDOW ->
    Int.sat_addu 32 a b = a + b) as S.
  { unfold Int.sat_addu, Int.umax, Window.CHANNEL_WINDOW. lia. }
  unfold Window.MIN_FRAME_CHARGE in *. unfold Window.drained. rewrite S by lia. cbv zeta.
  destruct (Z.ltb_spec (Window.drained_since_update w + Window.charge n) Window.UPDATE_THRESHOLD);
    simpl; [lia|].
  rewrite S by lia. repeat split; lia.
Qed.

(** ** Accounting *)

Lemma sum_app l k : Flow.sum (l ++ k) = Flow.sum l + Flow.sum k.
Proof. induction l; simpl; [done|]. rewrite IHl. lia. Qed.

Lemma sum_cons {A} (g : A -> Z) x l : Flow.sum (g <$> x :: l) = g x + Flow.sum (g <$> l).
Proof. done. Qed.

Lemma charges_app l k : Flow.charges (l ++ k) = Flow.charges l + Flow.charges k.
Proof. unfold Flow.charges. by rewrite fmap_app, sum_app. Qed.

Lemma charges_cons b l : Flow.charges (b :: l) = Window.charge (blen b) + Flow.charges l.
Proof. done. Qed.

Lemma charges_nonneg l : 0 <= Flow.charges l.
Proof.
  induction l as [|b l IH]; [done|]. rewrite charges_cons. pose proof (charge_pos (blen b)).
  unfold Window.MIN_FRAME_CHARGE in *. lia.
Qed.

Lemma sum_nonneg l : Forall (fun x => 0 <= x) l -> 0 <= Flow.sum l.
Proof. induction 1; simpl; lia. Qed.

Lemma queued_app q r : Flow.queued (q ++ r) = Flow.queued q ++ Flow.queued r.
Proof. apply omap_app. Qed.

(** *** The invariant of one direction *)

(** *** The sender's relay *)

(** A turn of the sending relay pays exactly [charge] for the frame it sends
    and refunds the rest of its allowance. *)
Lemma out_step_spec id t e t' o :
  phase_ok (Relay.out_at t) -> 0 <= Relay.credit t ->
  Relay.credit t + Flow.held t <= Window.MAX_SEND_CREDIT ->
  Relay.out_step id t e = Some (t', o) ->
  phase_ok (Relay.out_at t') /\ 0 <= Relay.credit t'
  /\ Relay.credit t' + Flow.held t' + Flow.charges (sent o) = Relay.credit t + Flow.held t
  /\ Forall (fun b => blen b <= Window.MAX_FRAME) (sent o)
  /\ (o = None \/ exists b, o = Some (Data id b)).
Proof.
  destruct t as [ph c]. unfold Flow.held. simpl. intros Hp Hc Hm H.
  destruct ph as [|allow|chunk|], e as [|got| |ok]; try done; unfold Relay.out_step in H; simpl in H.
  - unfold Window.take in H. destruct (Z.leb_spec Window.MIN_FRAME_CHARGE c); [|done].
    simplify_eq. simpl. unfold Flow.charges, Window.MAX_FRAME, Window.MIN_FRAME_CHARGE in *. simpl.
    repeat split; try lia; auto.
  - simplify_eq. simpl. unfold Flow.charges. simpl. repeat split; try lia; auto.
  - simpl in Hp. destruct (Z.ltb_spec allow (blen got)); [done|].
    assert (0 <= blen got) by (unfold blen; lia).
    pose proof (charge_frame (blen got) ltac:(lia)) as Ech.
    destruct (Z.eqb_spec (blen got) 0) as [E0|E0].
    + unfold Window.MIN_FRAME_CHARGE in *. rewrite (proj2 (Z.ltb_lt 0 allow)) in H by lia.
      rewrite add_small in H by lia. simplify_eq. simpl. unfold Flow.charges. simpl. repeat split; try lia; auto.
    + rewrite Ech in H. unfold Window.MIN_FRAME_CHARGE in *.
      assert (exists c', (if Z.max (blen got) 64 <? allow
               then Window.add c (allow - Z.max (blen got) 64) else c) = c'
               /\ c' + Z.max (blen got) 64 = c + allow) as (c' & E & Hc').
      { destruct (Z.ltb_spec (Z.max (blen got) 64) allow); eexists; (split; [done|]);
          [rewrite add_small by lia|]; lia. }
      rewrite E in H. simplify_eq. simpl. rewrite charges_cons, Ech.
      unfold Flow.charges, Window.MIN_FRAME_CHARGE, Window.MAX_FRAME in *. simpl.
      repeat split; try lia; eauto. constructor; [lia|constructor].
  - rewrite add_small in H by (simpl in Hp; unfold Window.MIN_FRAME_CHARGE in *; lia).
    simplify_eq. simpl in *. unfold Flow.charges, Window.MIN_FRAME_CHARGE in *. simpl. repeat split; try lia; auto.
  - destruct ok; simplify_eq; simpl; unfold Flow.charges; simpl; repeat split; try lia; auto.
Qed.

Lemma flow_init_inv s : s = Flow.init_up \/ s = Flow.init_down -> flow_inv s.
Proof.
  intros [->| ->]; constructor; try done; try (by exists 0); try (by exists []).

Qed.

(** [remaining] covers everything in flight, so no [u32] saturates. *)
Lemma flow_inv_bounds s :
  flow_inv s ->
  0 <= Flow.held (Flow.tx s)
  /\ 0 <= Flow.sum (Flow.carries (Flow.opened s) <$> Flow.back s)
  /\ Window.remaining (Relay.window (Flow.rx s)) + Flow.charges (Flow.undrained s)
     + Window.drained_since_update (Relay.window (Flow.rx s)) <= Window.CHANNEL_WINDOW.
Proof.
  intros [Hp _ _ Hb _ _ (lost & ? & Hm & _) _ _ _ _ _]. split; [|split].
  - unfold Flow.held. destruct (Relay.out_at _); try lia.
    unfold Window.MIN_FRAME_CHARGE in *. lia.
  - apply sum_nonneg, Forall_fmap. eapply Forall_impl; [exact Hb|].
    intros [] H1; simpl in *; try done. destruct H1 as [-> ->]. by destruct (Flow.opened s).
  - assert (Flow.granted s <= Window.CHANNEL_WINDOW); [|lia].
    unfold Flow.granted. by destruct (Flow.conn s).
Qed.

Lemma sender_inv id s e s' :
  flow_inv s -> Flow.step id s (Flow.Sender e) = Some s' -> flow_inv s'.
Proof.
  intros I H. destruct (flow_inv_bounds s I) as (Bh & Bs & Bm).
  pose proof (charges_nonneg (Flow.wire s)). pose proof (charges_nonneg (Flow.undrained s)).
  destruct I as [Hp Hc Hw Hb Hbal Ho Hm Hd Hcn Hq Hov Hby].
  assert (exists t o, Relay.out_step id (Flow.tx s) e = Some (t, o)
    /\ s' = Flow.mk t (Flow.opened s) (Flow.wire s ++ sent o) (Flow.back s)
              (Flow.conn s) (Flow.rx s) (Flow.overrun s)
              (Flow.got s ++ concat (sent o)) (Flow.put s)) as (t & o & Hs & ->).
  { simpl in H. destruct e as [| | |[]]; try done;
      (destruct (Relay.out_step id (Flow.tx s) _) as [[t [[]|]]|]; [..|done];
       injection H as <-; do 2 eexists; (split; [done|]); simpl; by rewrite ?app_nil_r). }
  clear H. apply out_step_spec in Hs as (Hp' & Hc' & Hbal' & Hw' & _); [|done|done|].
  2: { unfold Window.MAX_SEND_CREDIT. lia. }
  constructor; simpl; try assumption.
  - by apply Forall_app.
  - rewrite charges_app. lia.
  - destruct Hby as (rest & -> & Hr). exists (rest ++ concat (sent o)).
    split; [by rewrite app_assoc|]. intros Hl. rewrite (Hr Hl), concat_app, <- app_assoc. done.
Qed.

Lemma deliver_inv id s s' :
  flow_inv s -> Flow.step id s Flow.Deliver = Some s' -> flow_inv s'.
Proof.
  intros I H. destruct (flow_inv_bounds s I) as (Bh & Bs & Bm).
  destruct I as [Hp Hc Hw Hb Hbal Ho Hm Hd Hcn Hq Hov Hby].
  simpl in H. destruct (Flow.wire s) as [|b rest] eqn:Ew; [done|].
  rewrite charges_cons in Hbal. pose proof (charges_nonneg rest).
  rewrite accept_spec in H.
  destruct (Z.leb_spec (Window.charge (blen b)) (Window.remaining (Relay.window (Flow.rx s))));
    [|lia]. simpl in H. simplify_eq.
  assert (forall s0 : Flow.Flow, Relay.in_at (Flow.rx s0) = Relay.in_at (Flow.rx s) ->
    Relay.pending (Flow.rx s0) = Relay.pending (Flow.rx s) -> Flow.conn s0 = Flow.conn s ->
    Relay.inbound (Flow.rx s0) = Relay.inbound (Flow.rx s) ++ [InData b] ->
    Flow.undrained s0 = Flow.undrained s ++ [b]) as Hu.
  { intros s0 E1 E2 E3 E4. unfold Flow.undrained. rewrite E1, E2, E3, E4, queued_app.
    by rewrite !app_assoc. }
  inversion Hw; subst. constructor; simpl; try assumption.
  - lia.
  - destruct Hm as (lost & ? & Hm & Hl). exists lost. split; [done|].
    rewrite Hu by done. rewrite charges_app, charges_cons. unfold Flow.granted in *. simpl.
    unfold Flow.charges at 2. simpl. split; [lia|done].
  - apply Forall_app; split; [done|]. constructor; [by eexists|constructor].
  - by rewrite Hov.
  - destruct Hby as (r & -> & Hr). exists r. split; [done|]. intros Hl. rewrite Hu by done.
    rewrite (Hr Hl), concat_app. simpl. by rewrite app_nil_r, <- app_assoc.
Qed.

Lemma back_inv id s s' :
  flow_inv s -> Flow.step id s Flow.Back = Some s' -> flow_inv s'.
Proof.
  intros I H. destruct (flow_inv_bounds s I) as (Bh & Bs & Bm).
  pose proof (charges_nonneg (Flow.wire s)). pose proof (charges_nonneg (Flow.undrained s)).
  destruct I as [Hp Hc Hw Hb Hbal Ho Hm Hd Hcn Hq Hov Hby].
  simpl in H. destruct (Flow.back s) as [|f rest] eqn:Eb; [done|].
  inversion Hb as [|? ? Hf Hrest]; subst. rewrite sum_cons in Bs, Hbal.
  assert (forall o, 0 <= Flow.sum (Flow.carries o <$> rest)) as Hnn.
  { intros o. apply sum_nonneg, Forall_fmap. eapply Forall_impl; [exact Hrest|].
    intros [] Hs; simpl in *; try done. destruct Hs as [-> ->]. by destruct o. }
  assert (Window.remaining (Relay.window (Flow.rx s)) <= Window.MAX_SEND_CREDIT) as Hmax.
  { unfold Window.MAX_SEND_CREDIT. lia. }
  destruct f as [|i ok m w| | |i n|]; try done.
  - destruct Hf as [-> ->]. simpl in Ho.
    destruct (Flow.conn s) as [| |] eqn:Ec; try done.
    destruct (Flow.opened s) eqn:Eo; [done|]. injection Ho as Ho. simplify_eq.
    specialize (Hnn true).
    assert (Flow.sum (Flow.carries true <$> rest) = Flow.sum (Flow.carries false <$> rest)) as Es.
    { clear -Ho. induction rest as [|f rest IH]; [done|].
      rewrite !sum_cons.
      destruct f; simpl in Ho; try done; rewrite (IH Ho); done. }
    rewrite <- Es in Hbal. cbn [Flow.carries] in Hbal.
    rewrite raise_initial_small by lia.
    constructor; simpl; try assumption; rewrite ?Ec; try done; try lia.
    all: unfold Flow.undrained, Flow.granted, Flow.held in *; simpl; rewrite Ec in *; try done.
    all: unfold Window.effective_window, Window.CHANNEL_WINDOW, Window.INITIAL_WINDOW in *; try lia.
  - cbn [frame_sane Flow.carries] in Hf, Hbal. simplify_eq. specialize (Hnn (Flow.opened s)).
    rewrite add_small by lia. constructor; simpl; try assumption; try done; try lia.
    unfold Flow.held in *. simpl. lia.
Qed.

Lemma pending_fits_charges l n :
  0 <= l -> l + Window.charge n <= Window.INITIAL_WINDOW -> Host.pending_fits l n = true.
Proof.
  intros. unfold Host.pending_fits, Int.sat_addu, Int.umax. pose proof (charge_pos n).
  unfold Window.INITIAL_WINDOW, Window.MIN_FRAME_CHARGE in *. apply Z.leb_le. lia.
Qed.

Lemma grant_connected w :
  0 <= Window.remaining w <= Window.INITIAL_WINDOW ->
  Window.remaining (Window.grant w (Window.CHANNEL_WINDOW - Window.INITIAL_WINDOW))
  = Window.remaining w + (Window.CHANNEL_WINDOW - Window.INITIAL_WINDOW).
Proof.
  unfold Window.grant, Int.sat_addu, Int.umax, Window.CHANNEL_WINDOW, Window.INITIAL_WINDOW.
  simpl. lia.
Qed.

Lemma connect_inv id s e s' :
  flow_inv s -> Flow.step id s (Flow.Connect e) = Some s' -> flow_inv s'.
Proof.
  intros I H. destruct (flow_inv_bounds s I) as (Bh & Bs & Bm).
  pose proof (charges_nonneg (Flow.wire s)).
  destruct I as [Hp Hc Hw Hb Hbal Ho Hm Hd Hcn Hq Hov Hby]. simpl in H.
  destruct (Flow.conn s) as [p l|p|] eqn:Ec; [|by repeat case_match|done].
  destruct Hcn as (-> & Epn & Eat & Eop).
  unfold Flow.undrained, Flow.granted, Flow.live in *. rewrite Ec, Eat in *. simpl in Hm, Hby.
  destruct Hm as (lost & Hl0 & Hm & Hl). specialize (Hl eq_refl) as ->.
  pose proof (charges_nonneg p).
  destruct e as [[[b| |]|]|[]|], (Relay.inbound (Flow.rx s)) as [|[b'| |] q] eqn:Eq; try done.
  - case_bool_decide as Eb; [subst b'|done].
    simpl in Hm. rewrite charges_app, charges_cons in Hm. fold (Flow.queued q) in Hm.
    pose proof (charges_nonneg (Flow.queued q)). pose proof (charges_nonneg (Flow.wire s)).
    unfold Host.conn_step in H. rewrite pending_fits_charges in H by lia. simplify_eq.
    inversion Hq as [|? ? _ Hq']; subst.
    constructor; simpl; try assumption.
    + by rewrite app_nil_r.
    + by rewrite app_nil_r.
    + rewrite app_nil_r, Ho. done.
    + exists 0. unfold Flow.undrained, Flow.granted. simpl. simpl.
      rewrite <- app_assoc, charges_app. simpl. rewrite charges_cons. split; [done|split; [lia|done]].
    + rewrite charges_app. unfold Flow.charges at 3. simpl. split_and!; auto. lia.
    + destruct Hby as (r & -> & Hr). exists r. split; [done|]. intros Hl. unfold Flow.undrained.
      simpl. simpl. rewrite (Hr eq_refl), <- (app_assoc p). done.
  - unfold Host.conn_step in H. simplify_eq. simpl in Hm. rewrite app_nil_r in Hm.
    assert (Window.remaining (Relay.window (Flow.rx s)) <= Window.INITIAL_WINDOW) by lia.
    pose proof (grant_connected (Relay.window (Flow.rx s)) ltac:(unfold Flow.held in *; lia)) as Eg.
    assert (Window.drained_since_update (Window.grant (Relay.window (Flow.rx s))
              (Window.CHANNEL_WINDOW - Window.INITIAL_WINDOW))
            = Window.drained_since_update (Relay.window (Flow.rx s))) as Eg' by done.
    set (g := Window.grant _ _) in *. clearbody g.
    constructor; simpl; rewrite ?Eg'; try assumption; try done.
    + apply Forall_app; split; [done|]. by repeat constructor.
    + rewrite fmap_app, sum_app, Eg. rewrite Eop in *. unfold opened_msg. rewrite sum_cons.
      cbn [Flow.carries]. change (Flow.sum (Flow.carries false <$> [])) with 0.
      unfold Flow.held, Window.effective_window, Window.CHANNEL_WINDOW, Window.INITIAL_WINDOW in *. lia.
    + rewrite List.filter_app, length_app, Ho, Eop. done.
    + exists 0. unfold Flow.undrained, Flow.granted. simpl. rewrite Eg.
      rewrite app_nil_r. split; [done|split; [lia|done]].
Qed.

Lemma receiver_inv id s e s' :
  flow_inv s -> Flow.step id s (Flow.Receiver e) = Some s' -> flow_inv s'.
Proof.
  intros I H. assert (forall ok, e <> Relay.Written ok false) as Hne by (intros [] ->; done).
  destruct (flow_inv_bounds s I) as (Bh & Bs & Bm).
  pose proof (charges_nonneg (Flow.wire s)) as Nw. pose proof (charges_nonneg (Flow.undrained s)) as Nu.
  destruct I as [Hp Hc Hw Hb Hbal Ho Hm Hd Hcn Hq Hov Hby].
  assert (Flow.receiver_step id s e = Some s') as H' by (destruct e as [| |? []]; done).
  clear H. rename H' into H. unfold Flow.receiver_step in H.
  destruct (Flow.conn s) as [|p|] eqn:Ec; try done. clear Hcn.
  destruct s as [t op wi ba cn [ph pe inb sg w] ov gt pt]. simpl in *. subst cn.
  unfold Flow.undrained, Flow.granted, Flow.live, Flow.held in *. simpl in *.
  destruct Hm as (lost & Hl0 & Hm & Hl). destruct Hby as (r & -> & Hr).
  assert (forall ph' pe' q' pt' rest lost',
    0 <= lost' ->
    Window.remaining w + Flow.charges ((match ph' with Relay.Writing c => [c] | _ => [] end)
       ++ pe' ++ Flow.queued q') + Window.drained_since_update w + lost' = Window.CHANNEL_WINDOW ->
    (match ph' with Relay.InEnded _ => false | _ => true end = true -> lost' = 0) ->
    pt ++ r = pt' ++ rest ->
    (match ph' with Relay.InEnded _ => false | _ => true end = true ->
     rest = concat ((match ph' with Relay.Writing c => [c] | _ => [] end)
              ++ pe' ++ Flow.queued q') ++ concat wi) ->
    Forall (fun x => exists b, x = InData b) q' ->
    flow_inv (Flow.mk t op wi (ba ++ []) (Host.Relaying p) (Relay.mk_in ph' pe' q' sg w) ov
                (pt ++ r) pt')) as K.
  { intros. rewrite app_nil_r. constructor; simpl; try done; eauto. }
  pose proof (charges_nonneg pe) as Npe. pose proof (charges_nonneg (Flow.queued inb)) as Nq.
  unfold Relay.in_step in H. simpl in H.
  destruct ph as [|c|], e as [| |ok cok]; try done.
  - specialize (Hl eq_refl) as ->. specialize (Hr eq_refl) as ->.
    destruct pe as [|c pe].
    + destruct inb as [|[c| |] q].
      * destruct sg; [|done]. simplify_eq. by eapply (K _ _ _ _ _ 0); eauto; try lia.
      * simplify_eq. inversion Hq; subst. eapply (K _ _ _ _ _ 0); eauto.
      * inversion Hq as [|? ? [? ?]]; done.
      * inversion Hq as [|? ? [? ?]]; done.
    + simplify_eq. eapply (K _ _ _ _ _ 0); eauto.
  - specialize (Hl eq_refl) as ->. destruct pe; [|done]. simplify_eq.
    by eapply (K _ _ _ _ _ 0); eauto; try lia.
  - simplify_eq. rewrite charges_app in Hm. pose proof (charge_pos (blen c)).
    eapply (K _ _ _ _ _ (lost + Flow.charges [c])); eauto; simpl; try done; try lia.
    all: unfold Flow.charges in *; simpl in *; unfold Window.MIN_FRAME_CHARGE in *; lia.
  - specialize (Hl eq_refl) as ->. specialize (Hr eq_refl) as ->.
    rewrite charges_app, charges_cons in Hm, Nu. change (Flow.charges []) with 0 in Hm.
    rewrite charges_app in Nu, Hm. pose proof (charge_pos (blen c)).
    destruct ok; simpl in H; simplify_eq.
    2: { eapply (K _ _ _ _ _ (Window.charge (blen c))); eauto; simpl;
           rewrite ?charges_app; unfold Window.MIN_FRAME_CHARGE in *; try lia; done. }
    pose proof (drained_spec w (blen c) Hd) as D.
    destruct (Window.drained w (blen c)) as [w' u].
    destruct D as (D1 & D2 & D3 & D4); [lia|lia|].
    assert (forall ph', (ph' = Relay.Next \/ exists e, ph' = Relay.InEnded e) ->
      forall out, Forall frame_sane out -> List.filter is_opened_frame out = [] ->
      Flow.sum (Flow.carries op <$> out) = default 0 u ->
      flow_inv (Flow.mk t op wi (ba ++ out) (Host.Relaying p) (Relay.mk_in ph' pe inb sg w') false
        (pt ++ concat (([c]) ++ pe ++ Flow.queued inb) ++ concat wi) (pt ++ c))) as K'.
    { intros ph' Hph out Hsane Hno Hsum.
      constructor; simpl; try assumption.
      - by apply Forall_app.
      - rewrite fmap_app, sum_app. unfold Flow.held. lia.
      - by rewrite List.filter_app, Hno, app_nil_r.
      - exists 0. unfold Flow.undrained, Flow.granted, Flow.live. simpl.
        destruct Hph as [-> |[e ->]]; simpl; rewrite charges_app; (split; [done|split; [lia|done]]).
      - done.
      - done.
      - exists (concat (pe ++ Flow.queued inb) ++ concat wi). unfold Flow.undrained, Flow.live.
        cbn [concat app]. split; [by rewrite <- (app_assoc c), (app_assoc pt c)|]. by destruct Hph as [-> |[e ->]]. }
    destruct u as [a|]; [destruct cok|]; simplify_eq.
    + apply K'; [by left|by repeat constructor|done|]. simpl. unfold Flow.sum. simpl. lia.
    + by destruct (Hne true).
    + apply K'; auto.
Qed.

Lemma flow_step_inv id s e s' : flow_inv s -> Flow.step id s e = Some s' -> flow_inv s'.
Proof.
  destruct e; eauto using sender_inv, deliver_inv, connect_inv, receiver_inv, back_inv.
Qed.

Lemma flow_reachable_inv id init s :
  init = Flow.init_up \/ init = Flow.init_down -> Flow.reachable id init s -> flow_inv s.
Proof. intros Hi. induction 1; eauto using flow_init_inv, flow_step_inv. Qed.

(** ** Properties of one direction *)

(** C12 Whatever interleaving of reads, deliveries, connects, writes and window
    updates the two ends and the wire take, the receiver's window is never
    overrun, the peer never holds more credit than one window, and what the
    receiver buffers (charged per frame) stays within the window it granted. *)
Theorem flow_never_overruns (id : Z) (init s : Flow.Flow)
    (Hi : init = Flow.init_up \/ init = Flow.init_down) (Hs : Flow.reachable id init s) :
  Flow.overrun s = false
  /\ 0 <= Relay.credit (Flow.tx s) <= Window.MAX_SEND_CREDIT
  /\ Flow.charges (Flow.undrained s) <= Window.CHANNEL_WINDOW
  /\ Flow.conn s <> Host.Gone.
Proof.
  pose proof (flow_reachable_inv id init s Hi Hs) as I.
  destruct (flow_inv_bounds s I) as (? & ? & ?).
  pose proof (charges_nonneg (Flow.wire s)). pose proof (charges_nonneg (Flow.undrained s)).
  destruct I as [_ Hc _ _ Hbal _ _ Hd Hcn _ Hov _]. unfold Window.MAX_SEND_CREDIT.
  repeat split; try done; try lia. by intros E; rewrite E in Hcn.
Qed.

(** C13 The tunnel is a byte stream: what was written to the receiving socket is
    always a prefix of what was read from the sending one, in order, and while
    the receiver is live the rest is exactly what it holds and what is on the
    wire. *)
Theorem flow_is_a_byte_stream (id : Z) (init s : Flow.Flow)
    (Hi : init = Flow.init_up \/ init = Flow.init_down) (Hs : Flow.reachable id init s) :
  exists rest, Flow.got s = Flow.put s ++ rest
  /\ (Flow.live s = true -> rest = concat (Flow.undrained s) ++ concat (Flow.wire s)).
Proof. apply (fi_bytes s). by apply (flow_reachable_inv id init). Qed.

(** C39 Credit is not lost, so the channel does not stall: once nothing is in
    flight and everything is drained, a connected live channel whose sender
    waits for credit gets some. *)
Theorem flow_no_deadlock (id : Z) (init s : Flow.Flow)
    (Hi : init = Flow.init_up \/ init = Flow.init_down) (Hs : Flow.reachable id init s)
    (Hquiet : Flow.wire s = [] /\ Flow.back s = [] /\ Flow.undrained s = [])
    (Hlive : Flow.live s = true) (Hconn : exists p, Flow.conn s = Host.Relaying p)
    (Hwait : Relay.out_at (Flow.tx s) = Relay.Taking) :
  exists n s', Flow.step id s (Flow.Sender Relay.CreditReady) = Some s'
    /\ Relay.out_at (Flow.tx s') = Relay.Reading n /\ 0 < n.
Proof.
  pose proof (flow_reachable_inv id init s Hi Hs) as [_ Hc _ _ Hbal _ Hm Hd _ _ _ _].
  destruct Hquiet as (Ew & Eb & Eu), Hconn as [p Ec], Hm as (lost & _ & Hm & Hl).
  rewrite (Hl Hlive) in Hm. unfold Flow.granted, Flow.held in *.
  rewrite Ew, Eb, Hwait in Hbal. rewrite Eu, Ec in Hm.
  change (Flow.charges []) with 0 in *. change (Flow.sum (_ <$> [])) with 0 in Hbal.
  assert (Window.MIN_FRAME_CHARGE <= Relay.credit (Flow.tx s)) as Hge.
  { unfold Window.UPDATE_THRESHOLD, Window.MIN_FRAME_CHARGE in *.
    pose proof (Z.mul_div_le Window.CHANNEL_WINDOW 2 ltac:(lia)).
    unfold Window.CHANNEL_WINDOW in *. lia. }
  simpl. unfold Relay.out_step, Window.take. rewrite Hwait, (proj2 (Z.leb_le _ _) Hge).
  do 2 eexists. split; [done|]. split; [done|].
  unfold Window.MIN_FRAME_CHARGE, Window.MAX_FRAME in *. lia.
Qed.

(** ** The controller's tunnel *)

Lemma swrap_succ x : Int.swrap 32 (Int.swrap 32 x + 1) = Int.swrap 32 (x + 1).
Proof.
  unfold Int.swrap. f_equal.
  replace ((x + 2 ^ (32 - 1)) mod 2 ^ 32 - 2 ^ (32 - 1) + 1 + 2 ^ (32 - 1))
    with ((x + 2 ^ (32 - 1)) mod 2 ^ 32 + 1) by lia.
  rewrite Z.add_mod_idemp_l by lia. f_equal. lia.
Qed.

Lemma swrap_inj_near x i j :
  0 <= i < 2 ^ 32 -> 0 <= j < 2 ^ 32 ->
  Int.swrap 32 (x + i) = Int.swrap 32 (x + j) -> i = j.
Proof.
  unfold Int.swrap. intros Hi Hj E.
  assert (((x + i + 2 ^ (32 - 1)) mod 2 ^ 32) = ((x + j + 2 ^ (32 - 1)) mod 2 ^ 32)) as E' by lia.
  pose proof (Z.div_mod (x + i + 2 ^ (32 - 1)) (2 ^ 32) ltac:(lia)) as A.
  pose proof (Z.div_mod (x + j + 2 ^ (32 - 1)) (2 ^ 32) ltac:(lia)) as B.
  rewrite E' in A. clear E E'.
  assert ((x + i + 2 ^ (32 - 1)) / 2 ^ 32 = (x + j + 2 ^ (32 - 1)) / 2 ^ 32); [|lia].
  set (p := _ / _) in *. set (q := (x + j + _) / _) in *. nia.
Qed.

(** When the search fails, every id it tried is taken. *)
Lemma alloc_id_None fuel chs x :
  Tunnel.alloc_id fuel chs (Int.swrap 32 x) = None ->
  forall i, 0 <= i < Z.of_nat fuel -> is_Some (chs !! Int.swrap 32 (x + i)).
Proof.
  revert x. induction fuel as [|f IH]; intros x H i Hi; [lia|]. simpl in H.
  destruct (chs !! Int.swrap 32 x) as [e|] eqn:E; [|done]. rewrite swrap_succ in H.
  destruct (decide (i = 0)) as [->|]; [rewrite Z.add_0_r; eauto|].
  replace (x + i) with (x + 1 + (i - 1)) by lia. apply IH; [done|lia].
Qed.

Lemma alloc_id_total chs x :
  Z.of_nat (size chs) < Window.MAX_CHANNELS ->
  is_Some (Tunnel.alloc_id (S (size chs)) chs (Int.swrap 32 x)).
Proof.
  intros Hsz. destruct (Tunnel.alloc_id _ _ _) eqn:E; [eauto|]. exfalso.
  pose proof (alloc_id_None _ _ _ E) as H.
  set (ids := (fun i => Int.swrap 32 (x + i)) <$> seqZ 0 (Z.of_nat (S (size chs)))).
  assert (NoDup ids) as ND.
  { apply NoDup_fmap_2_strong; [|apply NoDup_seqZ].
    unfold Window.MAX_CHANNELS in Hsz. intros a b Ha Hb. rewrite elem_of_seqZ in Ha, Hb.
    apply swrap_inj_near; lia. }
  assert (list_to_set ids ⊆ dom chs) as Sub.
  { intros k Hk. apply elem_of_list_to_set, list_elem_of_fmap in Hk as (i & -> & Hi).
    rewrite elem_of_seqZ in Hi. apply elem_of_dom, H. lia. }
  apply subseteq_size in Sub. rewrite size_dom, size_list_to_set in Sub by done.
  unfold ids in Sub. rewrite length_fmap, length_seqZ in Sub. lia.
Qed.

Lemma alloc_id_fresh fuel chs next id next' :
  Int.is_s 32 next -> Tunnel.alloc_id fuel chs next = Some (id, next') ->
  chs !! id = None /\ Int.is_s 32 id /\ Int.is_s 32 next'.
Proof.
  revert next. induction fuel as [|f IH]; intros next Hn H; [done|]. simpl in H.
  destruct (chs !! next) eqn:E; [|simplify_eq; split; [done|split; [done|by apply Int.swrap_range]]].
  apply IH in H; [done|]. apply Int.swrap_range. lia.
Qed.

(** Below the channel limit and while the writer lives, [open] always finds
    an id: it is not in use, whatever the counter's position, wrap-around
    included, and the new entry starts with [INITIAL_WINDOW] of credit and a
    full receive window. *)
Theorem open_gets_a_fresh_id (h : Tunnel.TunnelHandle) (host : rstr) (port : Z)
    (Hsink : Tunnel.sink_closed h = false)
    (Hroom : Z.of_nat (size (Tunnel.channels h)) < Window.MAX_CHANNELS)
    (Hid : Int.is_s 32 (Tunnel.next_id h)) :
  exists h' id r, Tunnel.open h host port = (h', Some (Ok (id, r, open_msg id host port Window.CHANNEL_WINDOW)))
    /\ Tunnel.channels h !! id = None /\ Tunnel.store h !! r = None
    /\ Tunnel.channels h' = <[id := Tunnel.mk_entry r false]> (Tunnel.channels h)
    /\ Tunnel.store h' = <[r := Tunnel.mk_obj [] true true Window.INITIAL_WINDOW
                                  (Window.mk Window.CHANNEL_WINDOW 0)]> (Tunnel.store h)
    /\ Int.is_s 32 (Tunnel.next_id h')
    /\ Z.of_nat (size (Tunnel.channels h')) <= Window.MAX_CHANNELS.
Proof.
  unfold Tunnel.open. rewrite Hsink, (proj2 (Z.leb_gt _ _) Hroom).
  destruct (alloc_id_total (Tunnel.channels h) (Tunnel.next_id h) Hroom) as [[id next] E].
  rewrite Int.swrap_small in E by (lia || done). rewrite E.
  destruct (alloc_id_fresh _ _ _ _ _ Hid E) as (Hf & _ & Hn).
  do 3 eexists. split; [reflexivity|]. simpl. split; [done|]. split.
  { apply not_elem_of_dom, is_fresh. }
  split; [done|]. split; [done|]. split; [done|].
  rewrite map_size_insert_None by done. lia.
Qed.

(** A peer over its window loses the channel at once: the frame's bytes are
    not queued, the task is told, the entry is gone, and every later frame for
    that id changes nothing. *)
Theorem overrun_closes_the_channel (h : Tunnel.TunnelHandle) (now id : Z) (data : bytes)
    (e : Tunnel.ChannelEntry) (o : Tunnel.ChanObj)
    (He : Tunnel.channels h !! id = Some e) (Ho : Tunnel.store h !! Tunnel.e_ref e = Some o)
    (Halive : Tunnel.o_rx_alive o = true)
    (Hover : Window.remaining (Tunnel.o_window o) < Window.charge (blen data)) :
  let h' := fst (Tunnel.on_frame h now (Data id data)) in
  Tunnel.channels h' = delete id (Tunnel.channels h)
  /\ Tunnel.store h' !! Tunnel.e_ref e
     = Some (Tunnel.mk_obj (Tunnel.o_inbound o ++ [InViolation]) true false
               (Tunnel.o_credit o) (Tunnel.o_window o))
  /\ (forall now' d, Tunnel.on_frame h' now' (Data id d) = (h', None))
  /\ (forall now', Tunnel.on_frame h' now' (Close id) = (h', None))
  /\ (forall now' a, Tunnel.on_frame h' now' (WindowUpdate id a) = (h', None)).
Proof.
  assert (Tunnel.channels (fst (Tunnel.on_frame h now (Data id data)))
            = delete id (Tunnel.channels h)
          /\ Tunnel.store (fst (Tunnel.on_frame h now (Data id data))) !! Tunnel.e_ref e
            = Some (Tunnel.mk_obj (Tunnel.o_inbound o ++ [InViolation]) true false
                      (Tunnel.o_credit o) (Tunnel.o_window o))) as [E1 E2].
  { unfold Tunnel.on_frame. rewrite He, Ho, accept_spec, (proj2 (Z.leb_gt _ _) Hover).
    destruct o as [inb rxa txa cr w]. simpl in *. subst rxa.
    unfold Tunnel.remove_entry, Tunnel.update_obj. simpl. rewrite He. simpl. split; [done|].
    rewrite !lookup_alter_eq, lookup_insert_eq. done. }
  cbv zeta. set (h' := fst _) in *. split; [done|]. split; [done|].
  unfold Tunnel.on_frame. rewrite E1, lookup_delete_eq. done.
Qed.

(** *** Reports *)

(** What is remembered is bounded, and every message has been heard of within
    [REPORT_AGAIN_AFTER] of the last report. *)
Lemma first_report_bound h m now :
  Z.of_nat (size (Tunnel.reported h)) <= Tunnel.MAX_REPORTED_OPEN_ERRORS ->
  Z.of_nat (size (Tunnel.reported (fst (Tunnel.first_report_at h m now))))
  <= Tunnel.MAX_REPORTED_OPEN_ERRORS.
Proof.
  intros Hb. unfold Tunnel.first_report_at. destruct m as [|c m]; [done|].
  set (rep := filter _ _). cbv zeta.
  assert (Z.of_nat (size rep) <= Tunnel.MAX_REPORTED_OPEN_ERRORS) as Hr.
  { pose proof (map_filter_subseteq (fun '(_, last) => Z.max 0 (now - last) < Tunnel.REPORT_AGAIN_AFTER)
      (Tunnel.reported h)) as Hs. apply map_subseteq_size in Hs. subst rep. lia. }
  destruct (rep !! (c :: m)) eqn:E; simpl.
  - rewrite map_size_insert_Some by eauto. done.
  - destruct (Z.leb_spec Tunnel.MAX_REPORTED_OPEN_ERRORS (Z.of_nat (size rep))); simpl; [done|].
    rewrite map_size_insert_None by done. lia.
Qed.

(** A refused reason is shown once and then kept quiet: at most eight reasons
    are remembered, an empty reason is never shown, a reason heard of within
    ten seconds is not shown again, and one that is shown becomes remembered. *)
Theorem refusals_are_reported_once (h : Tunnel.TunnelHandle) (m : rstr) (now : Z)
    (Hb : Z.of_nat (size (Tunnel.reported h)) <= Tunnel.MAX_REPORTED_OPEN_ERRORS) :
  let '(h', shown) := Tunnel.first_report_at h m now in
  Z.of_nat (size (Tunnel.reported h')) <= Tunnel.MAX_REPORTED_OPEN_ERRORS
  /\ (shown = None \/ shown = Some m /\ m <> [])
  /\ (forall last, Tunnel.reported h !! m = Some last ->
        Z.max 0 (now - last) < Tunnel.REPORT_AGAIN_AFTER -> shown = None)
  /\ (shown = Some m -> forall now', now <= now' < now + Tunnel.REPORT_AGAIN_AFTER ->
        snd (Tunnel.first_report_at h' m now') = None).
Proof.
  pose proof (first_report_bound h m now Hb) as Hb'.
  destruct (Tunnel.first_report_at h m now) as [h' shown] eqn:E. simpl in Hb'.
  split; [done|]. unfold Tunnel.first_report_at in E. destruct m as [|c m].
  { simplify_eq. split_and!; auto; done. }
  set (rep := filter _ _) in E. cbv zeta in E.
  destruct (rep !! (c :: m)) as [l|] eqn:El.
  { simplify_eq. split_and!; auto; done. }
  assert (forall last, Tunnel.reported h !! (c :: m) = Some last ->
    Z.max 0 (now - last) < Tunnel.REPORT_AGAIN_AFTER -> False) as Hno.
  { intros last Hl Hlt. subst rep. eapply map_lookup_filter_None in El as [El|El]; [congruence|].
    by eapply El. }
  destruct (Z.leb _ _); simplify_eq; split_and!; auto; try done; try by intros; exfalso; eauto.
  intros _ now' Hn. unfold Tunnel.first_report_at. simpl.
  assert (filter (fun '(_, last) => Z.max 0 (now' - last) < Tunnel.REPORT_AGAIN_AFTER)
            (<[c :: m := now]> rep) !! (c :: m) = Some now) as ->; [|done].
  apply map_lookup_filter_Some. rewrite lookup_insert_eq. split; [done|].
  unfold Tunnel.REPORT_AGAIN_AFTER in *. lia.
Qed.

(** ** The controlled side *)

(** A channel task is spawned only for a permitted [open] of the one target
    that the login approved, under an id that no live channel holds, and never
    beyond [MAX_CHANNELS]; a refused [open] leaves no channel behind. *)
Theorem host_open_is_authorised (m : Host.PortForwardMux) (id : Z) (host : rstr)
    (port window : Z) (permitted : bool) :
  let live := filter (fun '(_, r) => Host.is_closed m r = false) (Host.h_channels m) in
  let '(m', replies, task) := Host.handle m (Open id host port window) permitted in
  match task with
  | Some t =>
      permitted = true
      /\ Host.sp_id t = id
      /\ Host.sp_addr t = Host.login_target m
      /\ Host.sp_addr t = fst (Host.normalize_port_forward_target host port)
      /\ live !! id = None
      /\ Z.of_nat (size (Host.h_channels m')) <= Window.MAX_CHANNELS
      /\ Host.h_channels m' = <[id := Host.sp_ref t]> live
      /\ Host.h_store m !! Host.sp_ref t = None
      /\ replies = []
  | None => Host.h_channels m' = live /\ Host.h_store m' = Host.h_store m
  end
  /\ Host.login_target m' = Host.login_target m.
Proof.
  cbv zeta. unfold Host.handle, Host.on_open. cbv zeta.
  set (live := filter _ _). destruct permitted; simpl; [|done].
  destruct (Z.leb_spec Window.MAX_CHANNELS (Z.of_nat (size live))); simpl; [done|].
  destruct (live !! id) eqn:El; [done|].
  destruct (Host.normalize_port_forward_target host port) as [addr rdp] eqn:En.
  case_bool_decide as Ea; simpl; [|done]. subst addr.
  split; [|done]. split_and!; auto.
  - rewrite map_size_insert_None by done. lia.
  - apply not_elem_of_dom, is_fresh.
Qed.

(** ** Closing *)

(** [close] is sent once, for a local reason only: never in answer to the
    peer's own [close], never into a dead tunnel, and independently of which
    half ended first. *)
Theorem close_only_for_local_reasons (id : Z) (a b : Relay.RelayEnd) :
  Relay.run_channel_end id a b = Relay.run_channel_end id b a
  /\ (Relay.run_channel_end id a b = Some (close_msg id)
      <-> (a = Relay.LocalEof \/ a = Relay.Violation \/ b = Relay.LocalEof \/ b = Relay.Violation)
          /\ a <> Relay.PeerClosed /\ b <> Relay.PeerClosed
          /\ a <> Relay.TunnelGone /\ b <> Relay.TunnelGone).
Proof. split; [by destruct a, b|]. destruct a, b; vm_compute; intuition congruence. Qed.

(** ** Witnesses *)

Lemma flow_run_reachable id init es s s' :
  Flow.reachable id init s -> flow_run id s es = Some s' -> Flow.reachable id init s'.
Proof.
  revert s. induction es as [|e es IH]; simpl; intros s Hr H; [by simplify_eq|].
  destruct (Flow.step id s e) as [t|] eqn:E; [|done]. eauto using Flow.reach_step.
Qed.

Lemma sample_flow_reachable : Flow.reachable 1 Flow.init_up sample_flow.
Proof.
  apply (flow_run_reachable 1 Flow.init_up sample_events Flow.init_up); [constructor|].
  vm_compute. reflexivity.
Qed.

Lemma flow_never_overruns_witness :
  Flow.overrun sample_flow = false
  /\ 0 <= Relay.credit (Flow.tx sample_flow) <= Window.MAX_SEND_CREDIT
  /\ Flow.charges (Flow.undrained sample_flow) <= Window.CHANNEL_WINDOW
  /\ Flow.conn sample_flow <> Host.Gone.
Proof.
  apply (flow_never_overruns 1 Flow.init_up); [by left|apply sample_flow_reachable].
Defined.

Lemma flow_is_a_byte_stream_witness :
  exists rest, Flow.got sample_flow = Flow.put sample_flow ++ rest
  /\ (Flow.live sample_flow = true ->
      rest = concat (Flow.undrained sample_flow) ++ concat (Flow.wire sample_flow)).
Proof.
  apply (flow_is_a_byte_stream 1 Flow.init_up); [by left|apply sample_flow_reachable].
Defined.

Lemma flow_no_deadlock_witness :
  exists n s', Flow.step 1 sample_flow (Flow.Sender Relay.CreditReady) = Some s'
    /\ Relay.out_at (Flow.tx s') = Relay.Reading n /\ 0 < n.
Proof.
  apply (flow_no_deadlock 1 Flow.init_up);
    [by left|apply sample_flow_reachable| | | |]; vm_compute; repeat split; by eexists.
Defined.

Lemma open_gets_a_fresh_id_witness :
  exists h' id r, Tunnel.open Tunnel.new [] 80
      = (h', Some (Ok (id, r, open_msg id [] 80 Window.CHANNEL_WINDOW)))
    /\ Tunnel.channels Tunnel.new !! id = None /\ Tunnel.store Tunnel.new !! r = None
    /\ Tunnel.channels h' = <[id := Tunnel.mk_entry r false]> (Tunnel.channels Tunnel.new)
    /\ Tunnel.store h' = <[r := Tunnel.mk_obj [] true true Window.INITIAL_WINDOW
                                  (Window.mk Window.CHANNEL_WINDOW 0)]> (Tunnel.store Tunnel.new)
    /\ Int.is_s 32 (Tunnel.next_id h')
    /\ Z.of_nat (size (Tunnel.channels h')) <= Window.MAX_CHANNELS.
Proof. apply open_gets_a_fresh_id; [reflexivity|done|decide_now]. Defined.

Lemma overrun_closes_the_channel_witness :
  let h' := fst (Tunnel.on_frame tight_tunnel 0 (Data 7 (repeat 0 71))) in
  Tunnel.channels h' = delete 7 (Tunnel.channels tight_tunnel)
  /\ Tunnel.store h' !! 0%nat = Some (Tunnel.mk_obj [InViolation] true false 0 (Window.mk 70 0))
  /\ (forall now' d, Tunnel.on_frame h' now' (Data 7 d) = (h', None))
  /\ (forall now', Tunnel.on_frame h' now' (Close 7) = (h', None))
  /\ (forall now' a, Tunnel.on_frame h' now' (WindowUpdate 7 a) = (h', None)).
Proof.
  apply (overrun_closes_the_channel tight_tunnel 0 7 (repeat 0 71)
           (Tunnel.mk_entry 0 true) (Tunnel.mk_obj [] true true 0 (Window.mk 70 0)));
    reflexivity.
Defined.

Lemma refusals_are_reported_once_witness :
  let '(h', shown) := Tunnel.first_report_at Tunnel.new (Str.lit "refused") 5 in
  Z.of_nat (size (Tunnel.reported h')) <= Tunnel.MAX_REPORTED_OPEN_ERRORS
  /\ (shown = None \/ shown = Some (Str.lit "refused") /\ Str.lit "refused" <> [])
  /\ (forall last, Tunnel.reported Tunnel.new !! Str.lit "refused" = Some last ->
        Z.max 0 (5 - last) < Tunnel.REPORT_AGAIN_AFTER -> shown = None)
  /\ (shown = Some (Str.lit "refused") ->
      forall now', 5 <= now' < 5 + Tunnel.REPORT_AGAIN_AFTER ->
        snd (Tunnel.first_report_at h' (Str.lit "refused") now') = None).
Proof. apply refusals_are_reported_once. done. Defined.
