(* ===== verification/AccessHours.v ===== *)
(** * Access hours: [src/clanto/access_hours.rs]

    The weekly time windows in which the host accepts connections: the parser of
    the option's text, the test of an instant and the decision at login.  A
    weekday is an index (Monday is 0), a time of day a number of minutes.  The
    option's value, the local time and the translation of the refusal come from
    code outside the file and are arguments. *)

From S2P Require Import Prelude.

Definition LOGIN_ERROR : rstr := Str.lit "clanto_access_hours_error".
Definition DAY_MINUTES : Z := 24 * 60.

(** ** Windows *)

Record Window := mk { w_days : list bool; w_start : Z; w_end : Z }.

#[export] Instance Window_eq_dec : EqDecision Window.
Proof. solve_decision. Defined.

(** ** The parser *)

Definition EN : list rstr := Str.lit <$> ["mon"; "tue"; "wed"; "thu"; "fri"; "sat"; "sun"]%string.
Definition IT : list rstr := Str.lit <$> ["lun"; "mar"; "mer"; "gio"; "ven"; "sab"; "dom"]%string.

(** [Iterator::position]. *)
Fixpoint position (x : rstr) (l : list rstr) : option nat :=
  match l with
  | [] => None
  | y :: l' => if bool_decide (y = x) then Some O else S <$> position x l'
  end.

Definition day (name : rstr) : option nat :=
  let name := Str.to_ascii_lowercase (Str.trim name) in
  match position name EN with
  | Some d => Some d
  | None => position name IT
  end.

(** The [loop] of a range [a-b]; seven turns go all the way round the week. *)
Fixpoint mark_range (fuel : nat) (out : list bool) (d b : nat) : option (list bool) :=
  match fuel with
  | O => None
  | S f =>
      let out := <[d := true]> out in
      if (d =? b)%nat then Some out else mark_range f out ((d + 1) mod 7)%nat b
  end.

Definition mark_part (out : list bool) (part : rstr) : option (list bool) :=
  match Str.split_once (Str.ch 45) part with
  | Some (a, b) => a ← day a; b ← day b; mark_range 7 out a b
  | None => d ← day part; Some (<[d := true]> out)
  end.

Definition days (spec : rstr) : option (list bool) :=
  foldl (fun acc part => out ← acc; mark_part out part)
        (Some (replicate 7 false)) (Str.split (Str.ch 44) spec).

Definition minutes (hhmm : rstr) : option Z :=
  '(h, m) ← Str.split_once (Str.ch 58) (Str.trim hhmm);
  h ← Str.parse_uint 32 h;
  m ← Str.parse_uint 32 m;
  t ← Int.checked_mulu 32 h 60;
  total ← Int.checked_addu 32 t m;
  if (m <? 60) && (total <=? DAY_MINUTES) then Some total else None.

Definition parse_range (ds : list bool) (range : rstr) : option Window :=
  '(s, e) ← Str.split_once (Str.ch 45) (Str.trim range);
  s ← minutes s;
  e ← minutes e;
  if (s =? e) || (s =? DAY_MINUTES) then None else Some (mk ds s e).

Definition parse_entry (entry : rstr) : option (list Window) :=
  if Str.eq_ignore_ascii_case entry (Str.lit "none") then Some []
  else
    '(day_spec, ranges) ← Str.split_once Str.is_whitespace entry;
    ds ← days day_spec;
    mapM (parse_range ds) (Str.split (Str.ch 44) ranges).

Definition parse (value : rstr) : option (list Window) :=
  @concat _ <$> mapM parse_entry
    (filter (fun e => e <> []) (Str.trim <$> Str.split (Str.ch 59) value)).

(** ** The decision *)

(** [w.days[i]]; the index is below seven wherever it is used. *)
Definition on_day (w : Window) (i : nat) : bool := default false (w_days w !! i).

Definition allowed_at (windows : list Window) (weekday : nat) (minute : Z) : bool :=
  let yesterday := ((weekday + 6) mod 7)%nat in
  existsb (fun w =>
    if w_start w <? w_end w then
      on_day w weekday && (w_start w <=? minute) && (minute <? w_end w)
    else
      (on_day w weekday && (w_start w <=? minute)) || (on_day w yesterday && (minute <? w_end w)))
    windows.

Definition login_block (translate : rstr -> rstr) (value : rstr)
    (weekday : nat) (hour minute : Z) : option rstr :=
  if bool_decide (Str.trim value = []) then None
  else
    let allowed :=
      match parse value with
      | Some windows => allowed_at windows weekday (hour * 60 + minute)
      | None => false
      end in
    if allowed then None else Some (translate LOGIN_ERROR).

(** * Specification *)

Definition WEEK_MINUTES : Z := 7 * DAY_MINUTES.

(** The length of a window: one that ends before it starts goes on into the
    next day. *)
Definition duration (w : Window) : Z :=
  if w_start w <? w_end w then w_end w - w_start w else w_end w + DAY_MINUTES - w_start w.

(** The minute [t] of the week is in the arc of [w] that starts on one of its
    days. *)
Definition covers (w : Window) (t : Z) : Prop :=
  exists d, (d < 7)%nat /\ w_days w !! d = Some true
    /\ (t - (Z.of_nat d * DAY_MINUTES + w_start w)) mod WEEK_MINUTES < duration w.

Record window_wf (w : Window) : Prop := {
  wf_days : length (w_days w) = 7%nat;
  wf_start : 0 <= w_start w < DAY_MINUTES;
  wf_end : 0 <= w_end w <= DAY_MINUTES;
  wf_neq : w_start w <> w_end w;
}.

(** The days a part of the list names: one, or from [a] on to [b] cyclically. *)
Definition part_names (part : rstr) (k : nat) : Prop :=
  match Str.split_once (Str.ch 45) part with
  | Some (a, b) => exists x y, day a = Some x /\ day b = Some y
                   /\ ((k + 7 - x) mod 7 <= (y + 7 - x) mod 7)%nat
  | None => day part = Some k
  end.

Definition part_valid (part : rstr) : Prop :=
  match Str.split_once (Str.ch 45) part with
  | Some (a, b) => day a <> None /\ day b <> None
  | None => day part <> None
  end.

(** * Theorems *)

Example office_hours :
  (fun w => (allowed_at w 0 (8 * 60), allowed_at w 0 (13 * 60 + 30), allowed_at w 4 (18 * 60),
             allowed_at w 5 (10 * 60), allowed_at w 6 (10 * 60)))
    <$> parse (Str.lit "mon-fri 08:00-13:00,14:00-18:00; sat 09:00-12:00")
  = Some (true, false, false, true, false).
Proof. vm_compute. reflexivity. Qed.

Example overnight_and_italian_days :
  (fun w => (allowed_at w 4 (23 * 60), allowed_at w 5 (5 * 60), allowed_at w 5 (7 * 60),
             allowed_at w 3 (23 * 60)))
    <$> parse (Str.lit "ven 22:00-06:00")
  = Some (true, true, false, false).
Proof. vm_compute. reflexivity. Qed.

Example invalid_values_are_rejected :
  parse <$> (Str.lit <$> ["mon"; "xyz 08:00-09:00"; "mon 08:00"; "mon 25:00-26:00";
                          "mon 08:00-08:00"; "mon 8:61-9:00"; ""; "none"]%string)
  = [None; None; None; None; None; None; Some []; Some []].
Proof. vm_compute. reflexivity. Qed.

(** ** Days *)

Lemma position_lt x l d : position x l = Some d -> (d < length l)%nat.
Proof.
  revert d. induction l as [|y l IH]; simpl; intros d H; [done|].
  case_bool_decide; simplify_eq; [lia|].
  destruct (position x l) as [e|]; simplify_eq/=. specialize (IH e eq_refl). lia.
Qed.

Lemma day_lt name d : day name = Some d -> (d < 7)%nat.
Proof.
  unfold day. intros H. case_match eqn:E; simplify_eq.
  - by apply position_lt in E.
  - by apply position_lt in H.
Qed.

(** Days from [x] on to [y], cyclically. *)
Lemma mod7_cases n : (n < 14)%nat -> (n mod 7 = if n <? 7 then n else n - 7)%nat.
Proof.
  intros H. destruct (Nat.ltb_spec n 7); [by apply Nat.mod_small|].
  replace n with (n - 7 + 1 * 7)%nat at 1 by lia. rewrite Nat.Div0.mod_add.
  apply Nat.mod_small. lia.
Qed.

Lemma mark_range_spec fuel out d b :
  length out = 7%nat -> (d < 7)%nat -> (b < 7)%nat -> ((b + 7 - d) mod 7 < fuel)%nat ->
  exists out', mark_range fuel out d b = Some out' /\ length out' = 7%nat
  /\ forall k, (k < 7)%nat ->
       out' !! k = Some true
       <-> out !! k = Some true \/ ((k + 7 - d) mod 7 <= (b + 7 - d) mod 7)%nat.
Proof.
  revert out d. induction fuel as [|f IH]; intros out d Hl Hd Hb Hf; [lia|]. cbn [mark_range].
  assert (forall k, <[d := true]> out !! k = Some true <-> out !! k = Some true \/ k = d) as Hins.
  { intros k. destruct (decide (k = d)) as [->|].
    - rewrite list_lookup_insert_eq by lia. tauto.
    - rewrite list_lookup_insert_ne by done. tauto. }
  destruct (Nat.eqb_spec d b) as [->|Hne].
  - eexists. split; [done|]. split; [by rewrite length_insert|]. intros k Hk. rewrite Hins.
    apply or_iff_compat_l. rewrite !mod7_cases by lia.
    destruct (Nat.ltb_spec (k + 7 - b) 7), (Nat.ltb_spec (b + 7 - b) 7); lia.
  - assert (forall x, (x < 7)%nat -> x <> d -> (0 < (x + 7 - d) mod 7)%nat) as Hpos.
    { intros x Hx Hxd. rewrite mod7_cases by lia. destruct (Nat.ltb_spec (x + 7 - d) 7); lia. }
    assert (forall x, (x < 7)%nat ->
      (x + 7 - (d + 1) mod 7) mod 7
      = if (x =? d)%nat then 6 else ((x + 7 - d) mod 7 - 1))%nat as Hnext.
    { intros x Hx. destruct (Nat.eqb_spec d 6) as [->|].
      - change ((6 + 1) mod 7)%nat with 0%nat. rewrite !mod7_cases by lia.
        destruct (Nat.ltb_spec (x + 7 - 0) 7), (Nat.eqb_spec x 6), (Nat.ltb_spec (x + 7 - 6) 7); lia.
      - rewrite (mod7_cases (d + 1)) by lia. destruct (Nat.ltb_spec (d + 1) 7); [|lia].
        rewrite !mod7_cases by lia.
        destruct (Nat.ltb_spec (x + 7 - (d + 1)) 7), (Nat.eqb_spec x d), (Nat.ltb_spec (x + 7 - d) 7); lia. }
    destruct (IH (<[d := true]> out) ((d + 1) mod 7)%nat) as (out' & -> & Hl' & Hk').
    + by rewrite length_insert.
    + by apply Nat.mod_upper_bound.
    + done.
    + rewrite Hnext by lia. pose proof (Hpos b ltac:(lia) ltac:(done)).
      destruct (Nat.eqb_spec b d); lia.
    + eexists. split; [done|]. split; [done|]. intros k Hk. rewrite Hk', Hins by done.
      enough (k = d \/ (k + 7 - (d + 1) mod 7) mod 7 <= (b + 7 - (d + 1) mod 7) mod 7
              <-> (k + 7 - d) mod 7 <= (b + 7 - d) mod 7)%nat by tauto.
      rewrite (Hnext k) by done. rewrite (Hnext b) by lia.
      destruct (Nat.eqb_spec k d) as [->|]; [|destruct (Nat.eqb_spec b d); [lia|]].
      * rewrite (mod7_cases (d + 7 - d)) by lia. destruct (Nat.ltb_spec (d + 7 - d) 7); lia.
      * pose proof (Hpos k ltac:(done) ltac:(done)). pose proof (Hpos b ltac:(done) ltac:(done)). lia.
Qed.

#[local] Arguments mark_range : simpl never.

Lemma mark_part_spec out part :
  length out = 7%nat ->
  match mark_part out part with
  | Some out' => part_valid part /\ length out' = 7%nat
      /\ forall k, (k < 7)%nat -> out' !! k = Some true <-> out !! k = Some true \/ part_names part k
  | None => ~ part_valid part
  end.
Proof.
  intros Hl. unfold mark_part, part_valid, part_names.
  destruct (Str.split_once _ part) as [[a b]|].
  - destruct (day a) as [x|] eqn:Ea; simpl; [|by intros []].
    destruct (day b) as [y|] eqn:Eb; simpl; [|by intros []].
    pose proof (day_lt _ _ Ea). pose proof (day_lt _ _ Eb).
    pose proof (Nat.mod_upper_bound (y + 7 - x) 7 ltac:(lia)).
    destruct (mark_range_spec 7 out x y) as (out' & -> & Hl' & Hk); [done..|].
    split; [done|]. split; [done|]. intros k Hlt. rewrite Hk by done.
    split; (intros [|]; [by left|right]); [by eauto|].
    match goal with Hx : exists _ _, _ |- _ => destruct Hx as (? & ? & [= <-] & [= <-] & ?) end. done.
  - destruct (day part) as [d|] eqn:E; simpl; [|tauto]. pose proof (day_lt _ _ E).
    split; [done|]. split; [by rewrite length_insert|]. intros k Hk.
    destruct (decide (k = d)) as [->|].
    + rewrite list_lookup_insert_eq by lia. tauto.
    + rewrite list_lookup_insert_ne by done. split; [by left|]. intros [?|[=]]; [done|congruence].
Qed.

Lemma days_fold_spec parts out :
  length out = 7%nat ->
  match foldl (fun acc part => o ← acc; mark_part o part) (Some out) parts with
  | Some out' => Forall part_valid parts /\ length out' = 7%nat
      /\ forall k, (k < 7)%nat ->
           out' !! k = Some true
           <-> out !! k = Some true \/ exists part, part ∈ parts /\ part_names part k
  | None => ~ Forall part_valid parts
  end.
Proof.
  revert out. induction parts as [|part parts IH]; intros out Hl; simpl.
  - split; [done|]. split; [done|]. intros k _. split; [by left|].
    intros [?|(? & ?%elem_of_nil & _)]; done.
  - pose proof (mark_part_spec out part Hl) as H. destruct (mark_part out part) as [o|].
    + destruct H as (Hv & Hlo & Hk). specialize (IH o Hlo).
      destruct (foldl _ _ parts) as [out'|]; [|by intros [_ ?]%Forall_cons].
      destruct IH as (? & ? & Hk'). split; [by constructor|]. split; [done|].
      intros k Hlt. rewrite Hk', Hk by done. setoid_rewrite elem_of_cons.
      split; [intros [[?|?]|(p & ? & ?)]|intros [?|(p & [->|?] & ?)]]; eauto 6.
    + assert (foldl (fun acc part => o ← acc; mark_part o part) None parts = None) as ->
        by (clear; induction parts; [done|]; simpl; auto).
      by intros [? _]%Forall_cons.
Qed.

Lemma days_length spec out : days spec = Some out -> length out = 7%nat.
Proof.
  unfold days. intros H.
  pose proof (days_fold_spec (Str.split (Str.ch 44) spec) (replicate 7 false) eq_refl) as Hd.
  rewrite H in Hd. by destruct Hd as (_ & ? & _).
Qed.

(** A list of days is accepted exactly when every part names days, and then
    marks exactly the days that some part names: the one it spells or, for
    [a-b], those from [a] on to [b], round the end of the week if need be (the
    loop that marks them ends). *)
Theorem days_marks_the_named (spec : rstr) :
  match days spec with
  | Some out => Forall part_valid (Str.split (Str.ch 44) spec) /\ length out = 7%nat
      /\ forall k, (k < 7)%nat ->
           out !! k = Some true
           <-> exists part, part ∈ Str.split (Str.ch 44) spec /\ part_names part k
  | None => ~ Forall part_valid (Str.split (Str.ch 44) spec)
  end.
Proof.
  unfold days. pose proof (days_fold_spec (Str.split (Str.ch 44) spec) (replicate 7 false) eq_refl) as H.
  destruct (foldl _ _ _) as [out|]; [|done]. destruct H as (? & ? & Hk).
  split; [done|]. split; [done|]. intros k Hlt. rewrite Hk by done.
  split; [|by right]. intros [Hr|?]; [|done]. by apply lookup_replicate in Hr as [? _].
Qed.

(** ** Windows *)

Lemma minutes_range s m : minutes s = Some m -> 0 <= m <= DAY_MINUTES.
Proof.
  unfold minutes. intros H. destruct (Str.split_once _ _) as [[h m']|]; [|done]. simpl in H.
  destruct (Str.parse_uint 32 h) as [hv|] eqn:Eh; [|done]. simpl in H.
  destruct (Str.parse_uint 32 m') as [mv|] eqn:Em; [|done]. simpl in H.
  apply Str.parse_uint_range in Eh as [? _], Em as [? _]; [|done..].
  unfold Int.checked_mulu, Int.checked_addu in H.
  destruct (hv * 60 <=? _); [|done]. simpl in H.
  destruct (hv * 60 + mv <=? _); [|done]. simpl in H.
  destruct (mv <? 60); [|done]. destruct (Z.leb_spec (hv * 60 + mv) DAY_MINUTES); [|done].
  simplify_eq/=. lia.
Qed.

Lemma parse_range_wf ds range w :
  length ds = 7%nat -> parse_range ds range = Some w -> window_wf w.
Proof.
  unfold parse_range. intros Hl H. destruct (Str.split_once _ _) as [[s e]|]; [|done]. simpl in H.
  destruct (minutes s) as [sv|] eqn:Es; [|done]. simpl in H.
  destruct (minutes e) as [ev|] eqn:Ee; [|done]. simpl in H.
  apply minutes_range in Es, Ee. destruct (_ || _) eqn:E; [done|]. simplify_eq.
  apply orb_false_iff in E as [?%Z.eqb_neq ?%Z.eqb_neq]. constructor; simpl; auto; lia.
Qed.

Lemma parse_entry_wf entry ws : parse_entry entry = Some ws -> Forall window_wf ws.
Proof.
  unfold parse_entry. intros H. destruct (Str.eq_ignore_ascii_case _ _); [by simplify_eq|].
  destruct (Str.split_once _ _) as [[spec ranges]|]; [|done]. simpl in H.
  destruct (days spec) as [ds|] eqn:Ed; [|done]. apply days_length in Ed. simpl in H.
  apply mapM_Some in H. apply Forall2_flip in H. eapply Forall2_Forall_l; [exact H|].
  apply Forall_true. intros r w Hw. by eapply parse_range_wf.
Qed.

Lemma parse_wf value ws : parse value = Some ws -> Forall window_wf ws.
Proof.
  unfold parse. destruct (mapM _ _) as [wss|] eqn:E; [|done]. intros [= <-].
  apply mapM_Some in E. apply Forall_concat. apply Forall2_flip in E.
  eapply Forall2_Forall_l; [exact E|]. apply Forall_true. intros x y. apply parse_entry_wf.
Qed.

(** ** The decision *)

Lemma on_day_true w i : on_day w i = true <-> w_days w !! i = Some true.
Proof. unfold on_day. destruct (w_days w !! i) as [[]|]; simpl; naive_solver. Qed.

(** A minute after midnight of day [i] is [x] minutes after the start of day
    [d], counting round the week. *)
Lemma arc_position i d x :
  (i < 7)%nat -> (d < 7)%nat -> - DAY_MINUTES < x < DAY_MINUTES ->
  (Z.of_nat i * DAY_MINUTES - Z.of_nat d * DAY_MINUTES + x) mod WEEK_MINUTES
  = (if (i <? d)%nat || ((i =? d)%nat && (x <? 0)) then WEEK_MINUTES else 0)
    + (Z.of_nat i - Z.of_nat d) * DAY_MINUTES + x.
Proof.
  unfold WEEK_MINUTES, DAY_MINUTES. intros. symmetry.
  destruct (Nat.ltb_spec i d); simpl; [apply (Z.mod_unique _ _ (-1)); lia|].
  destruct (Nat.eqb_spec i d); simpl; [|apply (Z.mod_unique _ _ 0); lia].
  destruct (Z.ltb_spec x 0); [apply (Z.mod_unique _ _ (-1))|apply (Z.mod_unique _ _ 0)]; lia.
Qed.

Lemma allowed_in_window w i m :
  window_wf w -> (i < 7)%nat -> 0 <= m < DAY_MINUTES ->
  allowed_at [w] i m = true <-> covers w (Z.of_nat i * DAY_MINUTES + m).
Proof.
  intros [Hl Hs He Hne] Hi Hm. unfold allowed_at. cbn [existsb]. rewrite orb_false_r.
  assert (forall d, (d < 7)%nat ->
    (Z.of_nat i * DAY_MINUTES + m - (Z.of_nat d * DAY_MINUTES + w_start w)) mod WEEK_MINUTES
    = (if (i <? d)%nat || ((i =? d)%nat && (m - w_start w <? 0)) then WEEK_MINUTES else 0)
      + (Z.of_nat i - Z.of_nat d) * DAY_MINUTES + (m - w_start w)) as Harc.
  { intros d Hd. rewrite <- arc_position by lia. f_equal. lia. }
  assert (((i + 6) mod 7)%nat = if (i =? 0)%nat then 6%nat else (i - 1)%nat) as ->.
  { rewrite mod7_cases by lia. destruct (Nat.ltb_spec (i + 6) 7), (Nat.eqb_spec i 0); lia. }
  unfold covers, duration. unfold WEEK_MINUTES, DAY_MINUTES in *.
  split.
  - intros H. destruct (Z.ltb_spec (w_start w) (w_end w)).
    + rewrite !andb_true_iff, on_day_true in H. destruct H as [[? ?%Z.leb_le] ?%Z.ltb_lt].
      exists i. split; [done|]. split; [done|]. rewrite Harc by done.
      rewrite Nat.ltb_irrefl, Nat.eqb_refl. simpl. zbool; lia.
    + rewrite orb_true_iff, !andb_true_iff, !on_day_true in H.
      destruct H as [[? ?%Z.leb_le]|[? ?%Z.ltb_lt]].
      * exists i. split; [done|]. split; [done|]. rewrite Harc by done.
        rewrite Nat.ltb_irrefl, Nat.eqb_refl. simpl. zbool; lia.
      * eexists. split; [|split; [eassumption|]]; [destruct (Nat.eqb_spec i 0); lia|].
        destruct (Nat.eqb_spec i 0) as [->|]; rewrite Harc by lia.
        -- simpl. lia.
        -- destruct (Nat.ltb_spec i (i - 1)), (Nat.eqb_spec i (i - 1)); simpl; lia.
  - intros (d & Hd & Hday & Hlt). rewrite Harc in Hlt by done.
    destruct (Nat.eqb_spec i d) as [->|].
    + rewrite Nat.ltb_irrefl in Hlt. simpl in Hlt. apply on_day_true in Hday. rewrite Hday. simpl.
      zbool; simpl; try done; try lia; rewrite ?orb_true_r; done || lia.
    + rewrite andb_false_l, orb_false_r in Hlt.
      assert (w_end w <= w_start w /\ m < w_end w /\ (if (i =? 0)%nat then 6%nat else (i - 1)%nat) = d)
        as (? & ? & ->).
      { destruct (Nat.ltb_spec i d), (Nat.eqb_spec i 0); zbool; lia. }
      apply on_day_true in Hday. rewrite Hday. zbool; rewrite ?orb_true_r; done || lia.
Qed.

Lemma existsb_app_one {A} (f : A -> bool) l :
  existsb f l = true <-> exists x, x ∈ l /\ existsb f [x] = true.
Proof.
  rewrite existsb_exists. simpl. setoid_rewrite orb_false_r. by setoid_rewrite list_elem_of_In.
Qed.

Lemma allowed_at_covers ws i m :
  Forall window_wf ws -> (i < 7)%nat -> 0 <= m < DAY_MINUTES ->
  allowed_at ws i m = true <-> exists w, w ∈ ws /\ covers w (Z.of_nat i * DAY_MINUTES + m).
Proof.
  rewrite Forall_forall. intros W Hi Hm. unfold allowed_at. rewrite existsb_app_one.
  split; intros (w & Hw & H); exists w; (split; [done|]);
    by apply (allowed_in_window w i m (W w Hw) Hi Hm).
Qed.

(** C32 The option's windows are arcs of the week: an instant is allowed exactly
    when it lies in the half-open arc of some window, which starts on one of the
    window's days at its start time and runs for its duration, over midnight and
    over the end of the week when it ends before it starts. *)
Theorem allowed_at_is_weekly (value : rstr) (ws : list Window) (i : nat) (m : Z)
    (Hp : parse value = Some ws) (Hi : (i < 7)%nat) (Hm : 0 <= m < DAY_MINUTES) :
  allowed_at ws i m = true
  <-> exists w, w ∈ ws /\ covers w (Z.of_nat i * DAY_MINUTES + m).
Proof. apply allowed_at_covers; [by eapply parse_wf|done..]. Qed.

(** The check at login fails closed: it lets a connection in only when the
    option is blank or when it parses and some window covers the local time;
    otherwise the refusal is the translated error. *)
Theorem login_block_fails_closed (translate : rstr -> rstr) (value : rstr) (i : nat)
    (hour minute : Z) (Hi : (i < 7)%nat) (Hh : 0 <= hour < 24) (Hm : 0 <= minute < 60) :
  (login_block translate value i hour minute = None
   <-> Str.trim value = []
       \/ exists ws w, parse value = Some ws /\ w ∈ ws
          /\ covers w (Z.of_nat i * DAY_MINUTES + (hour * 60 + minute)))
  /\ (login_block translate value i hour minute = None
      \/ login_block translate value i hour minute = Some (translate LOGIN_ERROR)).
Proof.
  unfold login_block. case_bool_decide as Hb; [tauto|].
  destruct (parse value) as [ws|] eqn:E.
  - assert (0 <= hour * 60 + minute < DAY_MINUTES) as Ht by (unfold DAY_MINUTES; lia).
    pose proof (allowed_at_covers ws i _ (parse_wf value ws E) Hi Ht) as H.
    destruct (allowed_at ws i _).
    + split; [|by left]. split; [|done]. intros _. right.
      destruct (proj1 H eq_refl) as (w & ? & ?). by exists ws, w.
    + split; [|by right]. split; [done|]. intros [?|(ws' & w & [= <-] & ? & ?)]; [done|].
      assert (false = true) by (apply H; by exists w). done.
  - split; [|by right]. split; [done|]. intros [?|(? & ? & ? & _)]; done.
Qed.

(** ** Witnesses *)

Lemma allowed_at_is_weekly_witness :
  allowed_at [mk [false; false; false; false; true; false; false] 1320 360] 5 300 = true
  <-> exists w, w ∈ [mk [false; false; false; false; true; false; false] 1320 360]
      /\ covers w (Z.of_nat 5 * DAY_MINUTES + 300).
Proof.
  apply (allowed_at_is_weekly (Str.lit "ven 22:00-06:00"));
    [vm_compute; reflexivity|lia|unfold DAY_MINUTES; lia].
Defined.

Lemma login_block_fails_closed_witness :
  (login_block (fun s => s) (Str.lit "fri 22:00-06:00") 5 5 30 = None
   <-> Str.trim (Str.lit "fri 22:00-06:00") = []
       \/ exists ws w, parse (Str.lit "fri 22:00-06:00") = Some ws /\ w ∈ ws
          /\ covers w (Z.of_nat 5 * DAY_MINUTES + (5 * 60 + 30)))
  /\ (login_block (fun s => s) (Str.lit "fri 22:00-06:00") 5 5 30 = None
      \/ login_block (fun s => s) (Str.lit "fri 22:00-06:00") 5 5 30 = Some LOGIN_ERROR).
Proof. apply (login_block_fails_closed (fun s => s)); lia. Defined.
