(* ===== verification/IdPermissions.v ===== *)
(** * Permissions by controller id: [src/clanto/id_permissions.rs] and the ID
    whitelist of [src/server/connection.rs]

    [Glob] is the whitelist's wildcard matcher (the two files hold the same
    loop), [Profiles] the choice of a permission profile for a controller's
    reported id, [Connection] the whitelist test and the permissions a
    connection ends up with.  Unicode lowercasing ([str::to_lowercase], tables of
    the standard library) and the JSON decoder of [serde] are parameters. *)

From S2P Require Import Prelude.

(** ** The wildcard matcher *)

Module Glob.

(** [*] and [?]. *)
Definition STAR : Z := 42.
Definition QUESTION : Z := 63.

(** One run of the [while] loop: at indices [pi] and [ti], with the position
    after the last star and the text position it was tried at. *)
Fixpoint scan (fuel : nat) (p t : rstr) (pi ti : nat) (star : option (nat * nat))
  : option (option nat) :=
  match fuel with
  | O => None
  | S f =>
      match t !! ti with
      | None => Some (Some pi)
      | Some c =>
          if bool_decide (p !! pi = Some STAR) then
            scan f p t (S pi) ti (Some (S pi, ti))
          else if bool_decide (p !! pi = Some QUESTION) || bool_decide (p !! pi = Some c) then
            scan f p t (S pi) (S ti) star
          else
            match star with
            | Some (sp, st) => scan f p t sp (S st) (Some (sp, S st))
            | None => Some None
            end
      end
  end.

(** The second loop and the final test, from [pi] on. *)
Fixpoint only_stars (p : rstr) : bool :=
  match p with
  | c :: p' => if c =? STAR then only_stars p' else false
  | [] => true
  end.

Definition scan_fuel (p t : rstr) : nat := S (length t * S (length p) + length p).

Definition matches (p t : rstr) : option bool :=
  r ← scan (scan_fuel p t) p t 0 0 None;
  Some (match r with Some pi => only_stars (drop pi p) | None => false end).

Definition wildcard_match (to_lowercase : rstr -> rstr) (pattern text : rstr) : bool :=
  bool_decide (matches (to_lowercase (Str.trim pattern)) (to_lowercase (Str.trim text)) = Some true).

Definition has_wildcard (pattern : rstr) : bool :=
  existsb (fun c => (c =? STAR) || (c =? QUESTION)) pattern.
End Glob.

(** ** Profiles *)

Module Profiles.

Inductive Permission :=
| Keyboard | Clipboard | File | Audio | Camera | Terminal | Tunnel | Restart | Recording
| BlockInput | PrivacyMode | RemotePrinter.

#[export] Instance Permission_eq_dec : EqDecision Permission.
Proof. solve_decision. Defined.

Record CustomPermissions := mk_custom {
  keyboard : bool; clipboard : bool; file : bool; audio : bool; camera : bool; terminal : bool;
  tunnel : bool; restart : bool; recording : bool; block_input : bool; privacy_mode : bool;
  remote_printer : bool;
}.

Definition custom_default : CustomPermissions :=
  mk_custom false false false false false false false false false false false false.

Definition custom_allows (c : CustomPermissions) (p : Permission) : bool :=
  match p with
  | Keyboard => keyboard c | Clipboard => clipboard c | File => file c | Audio => audio c
  | Camera => camera c | Terminal => terminal c | Tunnel => tunnel c | Restart => restart c
  | Recording => recording c | BlockInput => block_input c | PrivacyMode => privacy_mode c
  | RemotePrinter => remote_printer c
  end.

Inductive Profile := View | Support | Full | Custom.

#[export] Instance Profile_eq_dec : EqDecision Profile.
Proof. solve_decision. Defined.

Definition as_str (p : Profile) : rstr :=
  Str.lit (match p with View => "view" | Support => "support" | Full => "full"
           | Custom => "custom" end)%string.

Record ProfileConfig := mk_config { c_name : rstr; c_profile : Profile; c_perms : CustomPermissions }.

Record ResolvedProfile := mk_resolved {
  name : rstr; profile : Profile; permissions : CustomPermissions }.

Definition view : ResolvedProfile := mk_resolved [] View custom_default.
Definition full : ResolvedProfile := mk_resolved [] Full custom_default.

Definition allows (r : ResolvedProfile) (p : Permission) : bool :=
  match profile r with
  | View => false
  | Support =>
      match p with
      | Keyboard | Clipboard | File | Audio | Restart | BlockInput | PrivacyMode
      | RemotePrinter => true
      | _ => false
      end
  | Full => true
  | Custom => custom_allows (permissions r) p
  end.

Record Resolution := mk_resolution { r_profile : option ResolvedProfile; invalid_json : bool }.

(** [text.split('@').next()] *)
Definition before_at (text : rstr) : rstr :=
  match Str.split (Str.ch 64) text with
  | piece :: _ => piece
  | [] => text
  end.

Section Profiles.
Context (to_lowercase : rstr -> rstr) (from_json : rstr -> option (list (rstr * ProfileConfig))).

Definition match_rank (pattern controller_id bare_id : rstr) : option (Z * Z) :=
  if negb (Glob.has_wildcard pattern) then
    if Str.eq_ignore_ascii_case pattern controller_id then Some (3, Z.of_nat (length pattern))
    else if Str.eq_ignore_ascii_case pattern bare_id then Some (2, Z.of_nat (length pattern))
    else None
  else if negb (Glob.wildcard_match to_lowercase pattern controller_id)
       && negb (Glob.wildcard_match to_lowercase pattern bare_id) then None
  else if bool_decide (pattern = [Glob.STAR]) then Some (0, 0)
  else Some (1, Z.of_nat (length
         (filter (fun c => ~ (c = Glob.STAR \/ c = Glob.QUESTION)) pattern))).

(** The order of a pair. *)
Definition rank_gt (a b : Z * Z) : bool := (b.1 <? a.1) || ((a.1 =? b.1) && (b.2 <? a.2)).

Definition best_step (controller_id bare_id : rstr) (best : option (rstr * (Z * Z))) (entry : rstr)
  : option (rstr * (Z * Z)) :=
  let entry := Str.trim entry in
  match match_rank entry controller_id bare_id with
  | None => best
  | Some rank =>
      match best with
      | None => Some (entry, rank)
      | Some (_, best_rank) => if rank_gt rank best_rank then Some (entry, rank) else best
      end
  end.

Definition matching_entry (id_whitelist : list rstr) (controller_id : rstr) : option rstr :=
  let controller_id := Str.trim controller_id in
  let bare_id := before_at controller_id in
  fst <$> foldl (best_step controller_id bare_id) None id_whitelist.

(** [find_map] over the map's entries, in the order of their keys. *)
Definition find_profile (entry : rstr) (profiles : list (rstr * ProfileConfig))
  : option ProfileConfig :=
  snd <$> find (fun kc => Str.eq_ignore_ascii_case kc.1 entry) profiles.

Definition resolve_profile (id_whitelist : list rstr) (json controller_id : rstr) : Resolution :=
  match matching_entry id_whitelist controller_id with
  | None => mk_resolution None false
  | Some entry =>
      if bool_decide (Str.trim json = []) then mk_resolution (Some full) false
      else
        match from_json json with
        | None => mk_resolution (Some view) true
        | Some profiles =>
            match find_profile entry profiles with
            | None => mk_resolution (Some full) false
            | Some config =>
                mk_resolution
                  (Some (mk_resolved (c_name config) (c_profile config) (c_perms config))) false
            end
        end
  end.
End Profiles.
End Profiles.

(** ** The connection *)

Module Connection.
Import Profiles.

Record Connection := mk {
  id_profile : rstr;
  k_keyboard : bool; k_clipboard : bool; k_file : bool; k_audio : bool; k_camera : bool;
  k_terminal : bool; k_tunnel : bool; k_restart : bool; k_recording : bool;
  k_block_input : bool; k_privacy_mode : bool; k_remote_printer : bool;
  clanto_forward_profile : bool; clanto_camera_profile : bool;
}.

(** The options' trimmed, non-empty entries. *)
Definition whitelist_entries (option : rstr) : list rstr :=
  filter (fun x => x <> []) (Str.trim <$> Str.split (Str.ch 44) option).

Definition id_whitelist_allows (to_lowercase : rstr -> rstr) (id_whitelist : list rstr)
    (my_id : rstr) : bool :=
  match id_whitelist with
  | [] => true
  | _ => existsb (fun x => Glob.wildcard_match to_lowercase x my_id
                           || Glob.wildcard_match to_lowercase x (before_at my_id)) id_whitelist
  end.

(** [permission] is [Self::permission] with the connection's control permissions:
    the value of an option of the configuration. *)
Definition restore_global_permissions (permission : rstr -> bool) (c : Connection) : Connection :=
  mk (id_profile c)
    (permission (Str.lit "enable-keyboard")) (permission (Str.lit "enable-clipboard"))
    (permission (Str.lit "enable-file-transfer")) (permission (Str.lit "enable-audio"))
    (permission (Str.lit "enable-camera")) (permission (Str.lit "enable-terminal"))
    (permission (Str.lit "enable-tunnel")) (permission (Str.lit "enable-remote-restart"))
    (permission (Str.lit "enable-record-session")) (permission (Str.lit "enable-block-input"))
    (permission (Str.lit "enable-privacy-mode")) (permission (Str.lit "enable-remote-printer"))
    (clanto_forward_profile c) (clanto_camera_profile c).

Definition recording_allowed (requested require_controller_watermark : bool) : bool :=
  requested && negb require_controller_watermark.

Definition apply_profile (p : ResolvedProfile) (c : Connection) : Connection :=
  mk (as_str (profile p))
    (k_keyboard c && allows p Keyboard) (k_clipboard c && allows p Clipboard)
    (k_file c && allows p File) (k_audio c && allows p Audio) (k_camera c && allows p Camera)
    (k_terminal c && allows p Terminal) (k_tunnel c && allows p Tunnel)
    (k_restart c && allows p Restart) (k_recording c && allows p Recording)
    (k_block_input c && allows p BlockInput) (k_privacy_mode c && allows p PrivacyMode)
    (k_remote_printer c && allows p RemotePrinter)
    (allows p Tunnel) (allows p Camera).

(** A session grant restricts what it does not name. *)
Definition apply_grant (g : rstr -> bool) (c : Connection) : Connection :=
  mk (id_profile c)
    (k_keyboard c && g (Str.lit "control")) (k_clipboard c && g (Str.lit "clipboard"))
    (k_file c && g (Str.lit "file")) (k_audio c) (k_camera c)
    (k_terminal c && g (Str.lit "control")) (k_tunnel c && g (Str.lit "control"))
    (k_restart c && g (Str.lit "control")) (k_recording c && g (Str.lit "record"))
    (k_block_input c && g (Str.lit "control")) (k_privacy_mode c) (k_remote_printer c)
    (clanto_forward_profile c) (clanto_camera_profile c).

Definition set_recording (v : bool) (c : Connection) : Connection :=
  mk (id_profile c) (k_keyboard c) (k_clipboard c) (k_file c) (k_audio c) (k_camera c)
    (k_terminal c) (k_tunnel c) (k_restart c) v (k_block_input c) (k_privacy_mode c)
    (k_remote_printer c) (clanto_forward_profile c) (clanto_camera_profile c).

Definition clear_profile (c : Connection) : Connection :=
  mk [] (k_keyboard c) (k_clipboard c) (k_file c) (k_audio c) (k_camera c)
    (k_terminal c) (k_tunnel c) (k_restart c) (k_recording c) (k_block_input c)
    (k_privacy_mode c) (k_remote_printer c) true true.

Section Apply.
Context (to_lowercase : rstr -> rstr) (from_json : rstr -> option (list (rstr * ProfileConfig))).

Definition apply_id_permissions (permission : rstr -> bool) (option_whitelist option_permissions : rstr)
    (require_watermark : bool) (grant : option (rstr -> bool)) (my_id : rstr) (c : Connection)
  : Connection :=
  let id_whitelist := whitelist_entries option_whitelist in
  let profile := r_profile (resolve_profile to_lowercase from_json id_whitelist
                              option_permissions my_id) in
  let c := restore_global_permissions permission (clear_profile c) in
  let c := match profile with Some p => apply_profile p c | None => c end in
  let c := match grant with Some g => apply_grant g c | None => c end in
  set_recording (recording_allowed (k_recording c) require_watermark) c.
End Apply.
End Connection.

(** * Specification *)

Import Glob Profiles Connection.

(** Which texts a pattern matches: a star any text, a question mark any one
    character, anything else itself. *)
Fixpoint glob (p t : rstr) : Prop :=
  match p with
  | [] => t = []
  | c :: p' =>
      if c =? STAR then exists t1 t2, t = t1 ++ t2 /\ glob p' t2
      else match t with
           | [] => False
           | d :: t' => (c = QUESTION \/ c = d) /\ glob p' t'
           end
  end.

Definition no_star (p : rstr) : Prop := Forall (fun c => c <> STAR) p.

(** What the loop knows at [pi], [ti]: the pattern matches the text exactly when
    its rest matches the rest; after a star, when the star and what follows it
    match the text from where the star was last tried, and what has been matched
    since holds no star. *)
Definition scan_inv (p t : rstr) (pi ti : nat) (star : option (nat * nat)) : Prop :=
  (pi <= length p)%nat /\ (ti <= length t)%nat /\
  match star with
  | None => glob p t <-> glob (drop pi p) (drop ti t)
  | Some (sp, st) =>
      exists l, (sp <= pi)%nat /\ drop sp p = l ++ drop pi p /\ no_star l /\ ti = (st + length l)%nat
      /\ (glob p t <-> glob (STAR :: drop sp p) (drop st t))
      /\ (forall q, glob (l ++ q) (drop st t) <-> glob q (drop ti t))
  end.

(** The bound on the turns left. *)
Definition scan_measure (p t : rstr) (pi : nat) (star : option (nat * nat)) : nat :=
  ((length t - default 0%nat (snd <$> star)) * S (length p) + (length p - pi))%nat.

Definition is_ascii (s : rstr) : Prop := Forall (fun c => 0 <= c < 128) s.

(** [str::to_lowercase] on ASCII text. *)
Definition lowercase_law (to_lowercase : rstr -> rstr) : Prop :=
  forall s, is_ascii s -> to_lowercase s = Str.to_ascii_lowercase s.

(** A rank is at most another. *)
Definition rank_le (a b : Z * Z) : Prop := rank_gt a b = false.

(** The hypothesis about a suffix is the goal's, up to arithmetic. *)
Ltac same_drop :=
  rewrite ?drop_drop in *; match goal with
  | H : glob _ (drop ?a ?t) |- glob _ (drop ?b ?t) => replace b with a by lia; exact H
  end.

(** * Theorems *)

(** ** The matcher *)

Lemma glob_star p t : glob (STAR :: p) t <-> exists k, (k <= length t)%nat /\ glob p (drop k t).
Proof.
  simpl. split.
  - intros (t1 & t2 & -> & H). exists (length t1). rewrite length_app, drop_app_length.
    split; [lia|done].
  - intros (k & _ & H). exists (take k t), (drop k t). by rewrite take_drop.
Qed.

Lemma glob_no_star l q t :
  no_star l -> glob (l ++ q) t ->
  (length l <= length t)%nat /\ glob q (drop (length l) t).
Proof.
  intros Hl. revert t. induction Hl as [|c l Hc _ IH]; intros t H; [split; [simpl; lia|by rewrite drop_0]|].
  simpl in H. destruct (Z.eqb_spec c STAR); [done|]. destruct t as [|d t]; [done|].
  destruct H as [_ H]. destruct (IH t H). simpl. split; [lia|done].
Qed.

Lemma glob_only_stars p : glob p [] <-> only_stars p = true.
Proof.
  induction p as [|c p IH]; simpl; [done|]. destruct (c =? STAR); [|done].
  rewrite <- IH. split.
  - intros (t1 & t2 & H & ?). symmetry in H. apply app_nil in H as [_ ->]. done.
  - intros ?. by exists [], [].
Qed.

Lemma drop_cons_lookup {A} (l : list A) i x : l !! i = Some x -> drop i l = x :: drop (S i) l.
Proof. apply drop_S. Qed.

Lemma scan_inv_star p t pi ti star :
  scan_inv p t pi ti star -> p !! pi = Some STAR -> scan_inv p t (S pi) ti (Some (S pi, ti)).
Proof.
  intros (Hp & Ht & H) E. pose proof (lookup_lt_Some _ _ _ E).
  split; [lia|]. split; [done|]. exists []. split; [done|]. split; [done|]. split; [constructor|].
  split; [simpl; lia|]. split; [|done]. rewrite <- (drop_cons_lookup p pi STAR E).
  destruct star as [[sp st]|]; [|done]. destruct H as (l & Hsp & El & Hl & -> & Hg & Hq).
  rewrite Hg, El, <- Hq. split; [|intros ?; rewrite glob_star; exists 0%nat; split; [lia|done]].
  rewrite glob_star. intros (k & Hk & H). rewrite Hq.
  apply glob_no_star in H as [Hle H]; [|done]. rewrite (drop_cons_lookup p pi STAR E) in H |- *.
  apply glob_star in H as (k' & Hk' & H). apply glob_star.
  rewrite !drop_drop in *. rewrite !length_drop in *.
  exists (k + k')%nat. split; [lia|same_drop].
Qed.

Lemma scan_inv_match p t pi ti star c d :
  scan_inv p t pi ti star -> p !! pi = Some c -> t !! ti = Some d ->
  c <> STAR -> c = QUESTION \/ c = d -> scan_inv p t (S pi) (S ti) star.
Proof.
  intros (Hp & Ht & H) Ec Ed Hc Hcd.
  pose proof (lookup_lt_Some _ _ _ Ec). pose proof (lookup_lt_Some _ _ _ Ed).
  assert (forall q, glob (c :: q) (drop ti t) <-> glob q (drop (S ti) t)) as Hstep.
  { intros q. rewrite (drop_cons_lookup t ti d Ed). simpl.
    destruct (Z.eqb_spec c STAR); [done|]. tauto. }
  split; [lia|]. split; [lia|]. destruct star as [[sp st]|].
  - destruct H as (l & Hsp & El & Hl & -> & Hg & Hq). exists (l ++ [c]). split; [lia|].
    rewrite (drop_cons_lookup p pi c Ec) in El. rewrite <- app_assoc. split; [done|].
    split; [by apply Forall_app; split; [|repeat constructor]|].
    split; [rewrite length_app; simpl; lia|]. split; [done|].
    intros q. rewrite <- app_assoc, Hq. apply Hstep.
  - rewrite H, (drop_cons_lookup p pi c Ec). apply Hstep.
Qed.

(** The rest of the pattern does not match here. *)
Lemma scan_mismatch p t pi ti d :
  (pi <= length p)%nat -> t !! ti = Some d -> p !! pi <> Some STAR ->
  p !! pi <> Some QUESTION -> p !! pi <> Some d -> ~ glob (drop pi p) (drop ti t).
Proof.
  intros Hp Ed H1 H2 H3. rewrite (drop_cons_lookup t ti d Ed).
  destruct (p !! pi) as [c|] eqn:E.
  - rewrite (drop_cons_lookup p pi c E). simpl. destruct (Z.eqb_spec c STAR); [congruence|].
    intros [[->| ->] _]; done.
  - apply lookup_ge_None in E. by rewrite drop_ge by lia.
Qed.

Lemma scan_inv_backtrack p t pi ti sp st d :
  scan_inv p t pi ti (Some (sp, st)) -> t !! ti = Some d -> ~ glob (drop pi p) (drop ti t) ->
  scan_inv p t sp (S st) (Some (sp, S st)).
Proof.
  intros (Hp & Ht & l & Hsp & El & Hl & -> & Hg & Hq) Ed Hno.
  pose proof (lookup_lt_Some _ _ _ Ed) as Hlt. split; [lia|]. split; [lia|].
  exists []. split; [done|]. split; [done|]. split; [constructor|]. split; [simpl; lia|]. split; [|done].
  rewrite Hg, !glob_star, !length_drop. split.
  - intros (k & Hk & H). destruct k as [|k].
    + exfalso. apply Hno. rewrite drop_drop, Nat.add_0_r, El, Hq in H. done.
    + exists k. split; [lia|]. rewrite drop_drop in *. same_drop.
  - intros (k & Hk & H). exists (S k). split; [lia|].
    rewrite drop_drop in *. same_drop.
Qed.

Lemma scan_spec fuel p t pi ti star :
  scan_inv p t pi ti star -> (scan_measure p t pi star < fuel)%nat ->
  exists r, scan fuel p t pi ti star = Some r
  /\ (glob p t <-> match r with Some i => only_stars (drop i p) = true | None => False end).
Proof.
  revert pi ti star. induction fuel as [|f IH]; intros pi ti star I Hf; [lia|]. cbn [scan].
  pose proof I as (Hp & Ht & Hi). destruct (t !! ti) as [d|] eqn:Ed.
  - pose proof (lookup_lt_Some _ _ _ Ed) as Hlt. case_bool_decide as E1.
    { pose proof (lookup_lt_Some _ _ _ E1). apply IH; [by apply scan_inv_star with star|].
      unfold scan_measure in *. simpl. destruct star as [[sp st]|]; simpl in *; [|nia].
      destruct Hi as (l & _ & _ & _ & -> & _). nia. }
    destruct (bool_decide _ || bool_decide _) eqn:E2.
    { apply orb_true_iff in E2. rewrite !bool_decide_eq_true in E2.
      assert (exists c, p !! pi = Some c /\ c <> STAR /\ (c = QUESTION \/ c = d)) as (c & Ec & ? & ?)
        by (destruct E2 as [E2|E2]; [exists QUESTION|exists d]; (split; [exact E2|]);
            (split; [intros E; by rewrite E2, E in E1|auto])).
      pose proof (lookup_lt_Some _ _ _ Ec).
      apply IH; [by apply scan_inv_match with c d|]. unfold scan_measure in *. lia. }
    apply orb_false_iff in E2. rewrite !bool_decide_eq_false in E2. destruct E2 as [E2 E3].
    pose proof (scan_mismatch p t pi ti d Hp Ed E1 E2 E3) as Hno.
    destruct star as [[sp st]|].
    { apply IH; [by apply scan_inv_backtrack with pi ti d|].
      unfold scan_measure in *. simpl in *. destruct Hi as (l & _ & _ & _ & -> & _).
      assert (length t - st = S (length t - S st))%nat as E by lia. rewrite E in Hf. nia. }
    exists None. split; [done|]. tauto.
  - apply lookup_ge_None in Ed. assert (ti = length t) as Et by lia. exists (Some pi). split; [done|].
    rewrite <- glob_only_stars. destruct star as [[sp st]|].
    + destruct Hi as (l & Hsp & El & Hl & -> & Hg & Hq). rewrite Hg, glob_star, length_drop. split.
      * intros (k & Hk & H). rewrite El in H. apply glob_no_star in H as [Hle H]; [|done].
        rewrite !drop_drop in H. rewrite (drop_ge t) in H by lia. done.
      * intros H. exists 0%nat. split; [lia|]. rewrite drop_0, El, Hq, (drop_ge t) by lia. done.
    + rewrite Hi, (drop_ge t) by lia. done.
Qed.

Lemma matches_spec p t :
  exists b, matches p t = Some b /\ (b = true <-> glob p t).
Proof.
  unfold matches.
  destruct (scan_spec (scan_fuel p t) p t 0 0 None) as (r & -> & H).
  - split; [lia|]. split; [lia|]. done.
  - unfold scan_measure, scan_fuel. simpl. lia.
  - simpl. eexists. split; [done|]. rewrite H. by destruct r.
Qed.

Lemma wildcard_match_aux to_lowercase pattern text :
  matches (to_lowercase (Str.trim pattern)) (to_lowercase (Str.trim text)) <> None
  /\ (wildcard_match to_lowercase pattern text = true
      <-> glob (to_lowercase (Str.trim pattern)) (to_lowercase (Str.trim text))).
Proof.
  unfold wildcard_match.
  destruct (matches_spec (to_lowercase (Str.trim pattern)) (to_lowercase (Str.trim text)))
    as (b & -> & H).
  split; [done|]. rewrite bool_decide_eq_true, <- H. split; congruence.
Qed.

(** C40 The backtracking loop ends and decides wildcard matching: the pattern,
    trimmed and lowercased, matches the text exactly when the text can be cut
    into what its stars, question marks and characters stand for. *)
Theorem wildcard_match_is_glob (to_lowercase : rstr -> rstr) (pattern text : rstr) :
  let p := to_lowercase (Str.trim pattern) in
  let t := to_lowercase (Str.trim text) in
  matches p t <> None
  /\ (wildcard_match to_lowercase pattern text = true <-> glob p t).
Proof. apply wildcard_match_aux. Qed.

(** ** The matching entry *)

Lemma rank_gt_irrefl a : rank_gt a a = false.
Proof. unfold rank_gt. zbool; simpl; done || lia. Qed.

Lemma rank_gt_trans a b c : rank_gt a b = true -> rank_gt b c = true -> rank_gt a c = true.
Proof. unfold rank_gt. intros. zbool; simpl in *; done || lia. Qed.

Lemma rank_le_gt a b c : rank_gt a b = false -> rank_gt c b = true -> rank_gt c a = true.
Proof. unfold rank_gt. intros. zbool; simpl in *; done || lia. Qed.

Lemma rank_le_trans a b c : rank_gt a b = false -> rank_gt c b = true -> rank_gt a c = false.
Proof. unfold rank_gt. intros. zbool; simpl in *; done || lia. Qed.

Lemma lookup_snoc_inv {A} (l : list A) e j x :
  (l ++ [e]) !! j = Some x -> l !! j = Some x \/ j = length l /\ x = e.
Proof.
  intros [H|[H1 H2]]%lookup_app_Some; [by left|right].
  apply list_lookup_singleton_Some in H2 as [? <-]. split; [lia|done].
Qed.

(** The entry chosen for a controller matches its id, no other entry that
    matches has a higher rank and none before it has as high a one; there is
    none exactly when no entry of the whitelist matches. *)
Theorem matching_entry_is_best (to_lowercase : rstr -> rstr) (id_whitelist : list rstr) (id : rstr) :
  let cid := Str.trim id in
  let rank e := match_rank to_lowercase (Str.trim e) cid (before_at cid) in
  match matching_entry to_lowercase id_whitelist id with
  | Some x => exists i e r, id_whitelist !! i = Some e /\ x = Str.trim e /\ rank e = Some r
      /\ forall j e' r', id_whitelist !! j = Some e' -> rank e' = Some r' ->
           rank_gt r' r = false /\ ((j < i)%nat -> rank_gt r r' = true)
  | None => Forall (fun e => rank e = None) id_whitelist
  end.
Proof.
  cbv zeta. unfold matching_entry. cbv zeta. set (cid := Str.trim id). set (bare := before_at cid).
  enough (match foldl (best_step to_lowercase cid bare) None id_whitelist with
    | Some (x, r) => exists i e, id_whitelist !! i = Some e /\ x = Str.trim e
        /\ match_rank to_lowercase (Str.trim e) cid bare = Some r
        /\ forall j e' r', id_whitelist !! j = Some e' ->
             match_rank to_lowercase (Str.trim e') cid bare = Some r' ->
             rank_gt r' r = false /\ ((j < i)%nat -> rank_gt r r' = true)
    | None => Forall (fun e => match_rank to_lowercase (Str.trim e) cid bare = None) id_whitelist
    end) as H.
  { destruct (foldl _ _ _) as [[x r]|]; simpl; [|done]. destruct H as (i & e & ?). by exists i, e, r. }
  induction id_whitelist as [|e l IH] using rev_ind; [by constructor|].
  rewrite foldl_snoc. unfold best_step at 1.
  destruct (match_rank to_lowercase (Str.trim e) cid bare) as [r|] eqn:Er.
  - destruct (foldl _ None l) as [[x rb]|].
    + destruct IH as (i & eb & Hi & -> & Hb & Hmax). pose proof (lookup_lt_Some _ _ _ Hi) as Hlt.
      destruct (rank_gt r rb) eqn:G.
      * exists (length l), e. rewrite list_lookup_middle by done. split; [done|]. split; [done|].
        split; [done|]. intros j e' r' Hj Hr'. apply lookup_snoc_inv in Hj as [Hj|[-> ->]].
        -- destruct (Hmax j e' r' Hj Hr') as [H1 _]. pose proof (rank_le_gt r' rb r H1 G) as H2.
           split; [|done]. destruct (rank_gt r' r) eqn:G'; [|done].
           by rewrite <- (rank_gt_irrefl r), (rank_gt_trans r r' r).
        -- rewrite Er in Hr'. injection Hr' as <-.
           rewrite rank_gt_irrefl. split; [done|]. lia.
      * exists i, eb. rewrite lookup_app_l by done. split; [done|]. split; [done|]. split; [done|].
        intros j e' r' Hj Hr'. apply lookup_snoc_inv in Hj as [Hj|[-> ->]]; [by apply Hmax with e'|].
        rewrite Er in Hr'. injection Hr' as <-.
        split; [done|]. lia.
    + rewrite Forall_forall in IH. exists (length l), e. rewrite list_lookup_middle by done.
      split; [done|]. split; [done|]. split; [done|]. intros j e' r' Hj Hr'. apply lookup_snoc_inv in Hj as [Hj|[-> ->]].
      * apply list_elem_of_lookup_2 in Hj. by rewrite (IH e' Hj) in Hr'.
      * rewrite Er in Hr'. injection Hr' as <-.
        rewrite rank_gt_irrefl. split; [done|]. lia.
  - destruct (foldl _ None l) as [[x rb]|].
    + destruct IH as (i & eb & Hi & -> & Hb & Hmax). pose proof (lookup_lt_Some _ _ _ Hi) as Hlt.
      exists i, eb. rewrite lookup_app_l by done. split; [done|]. split; [done|]. split; [done|].
      intros j e' r' Hj Hr'. apply lookup_snoc_inv in Hj as [Hj|[-> ->]]; [by apply Hmax with e'|].
      congruence.
    + apply Forall_app. split; [done|]. by constructor.
Qed.

(** ** The whitelist and the profiles *)

Lemma glob_literal p t : has_wildcard p = false -> glob p t <-> p = t.
Proof.
  revert t. induction p as [|c p IH]; simpl; intros t H; [split; congruence|].
  apply orb_false_iff in H as [[H1 H2]%orb_false_iff H3]. rewrite H1.
  apply Z.eqb_neq in H1, H2. destruct t as [|d t]; [split; [done|congruence]|].
  rewrite IH by done. split; [intros [[?| ->] ->]; [done|done]|intros [= -> ->]; auto].
Qed.

Lemma lower_no_wildcard p : has_wildcard p = false -> has_wildcard (Str.to_ascii_lowercase p) = false.
Proof.
  induction p as [|c p IH]; simpl; [done|]. intros [H1 H2]%orb_false_iff.
  apply orb_false_iff. split; [|by apply IH].
  unfold Str.ascii_lower, Str.is_ascii_upper, STAR, QUESTION in *. zbool; simpl in *; done || lia.
Qed.

Lemma split_Forall (P : Z -> Prop) f s : Forall P s -> Forall (Forall P) (Str.split f s).
Proof.
  induction 1 as [|c s Hc Hs IH]; simpl; [by repeat constructor|].
  destruct (f c); [by constructor|]. destruct (Str.split f s); [by repeat constructor|].
  apply Forall_cons in IH as [? ?]. repeat constructor; done.
Qed.

Lemma before_at_ascii s : is_ascii s -> is_ascii (before_at s).
Proof.
  intros H. unfold before_at. pose proof (split_Forall _ (Str.ch 64) s H) as Hs.
  destruct (Str.split _ s); [done|]. by apply Forall_cons in Hs as [? _].
Qed.

Lemma match_rank_iff lower e id bare :
  lowercase_law lower -> is_ascii e -> is_ascii id -> is_ascii bare ->
  Str.trim e = e -> Str.trim id = id -> Str.trim bare = bare ->
  match_rank lower e id bare <> None
  <-> wildcard_match lower e id || wildcard_match lower e bare = true.
Proof.
  intros L He Hid Hb Te Tid Tb. unfold match_rank.
  destruct (has_wildcard e) eqn:W; simpl.
  - destruct (wildcard_match lower e id), (wildcard_match lower e bare); simpl;
      try (by case_bool_decide); split; congruence.
  - assert (forall t, is_ascii t -> Str.trim t = t ->
      wildcard_match lower e t = Str.eq_ignore_ascii_case e t) as Hw.
    { intros t Ht Tt. apply eq_true_iff_eq. unfold Str.eq_ignore_ascii_case.
      pose proof (proj2 (wildcard_match_aux lower e t)) as ->. rewrite Te, Tt, (L e He), (L t Ht).
      rewrite glob_literal by (by apply lower_no_wildcard). by rewrite bool_decide_eq_true. }
    rewrite !Hw by done.
    destruct (Str.eq_ignore_ascii_case e id); simpl; [done|].
    destruct (Str.eq_ignore_ascii_case e bare); simpl; split; congruence.
Qed.

Lemma matching_entry_None lower l id :
  matching_entry lower l id = None
  <-> Forall (fun e => match_rank lower (Str.trim e) (Str.trim id) (before_at (Str.trim id)) = None) l.
Proof.
  unfold matching_entry. cbv zeta. set (cid := Str.trim id). set (bare := before_at cid).
  assert (forall best, foldl (best_step lower cid bare) best l = None
    <-> best = None /\ Forall (fun e => match_rank lower (Str.trim e) cid bare = None) l) as H.
  { induction l as [|e l IH]; intros best; simpl; [split; [by intros ->|by intros [-> _]]|].
    rewrite IH. unfold best_step at 1. rewrite Forall_cons.
    destruct (match_rank lower (Str.trim e) cid bare), best as [[]|]; try case_match; clear IH; intuition congruence. }
  rewrite fmap_None, H. tauto.
Qed.

(** The whitelist and the profiles agree on who is listed: for ASCII ids and
    entries without white space at their ends (before the [@] too), a
    non-empty whitelist lets a controller in exactly when some entry gives it a
    profile. *)
Theorem whitelisted_has_profile (to_lowercase : rstr -> rstr) (id_whitelist : list rstr) (id : rstr)
    (L : lowercase_law to_lowercase)
    (Hl : id_whitelist <> []) (He : Forall (fun e => is_ascii e /\ Str.trim e = e) id_whitelist)
    (Hid : is_ascii id) (Ht : Str.trim id = id) (Hb : Str.trim (before_at id) = before_at id) :
  id_whitelist_allows to_lowercase id_whitelist id = true
  <-> matching_entry to_lowercase id_whitelist id <> None.
Proof.
  rewrite matching_entry_None, Ht. unfold id_whitelist_allows.
  destruct id_whitelist as [|e0 l0] eqn:E; [done|]. rewrite <- E in *. clear E Hl.
  rewrite existsb_exists. rewrite Forall_forall in He.
  assert (forall e, e ∈ id_whitelist ->
    match_rank to_lowercase (Str.trim e) id (before_at id) <> None
    <-> wildcard_match to_lowercase e id || wildcard_match to_lowercase e (before_at id) = true) as Hm.
  { intros e Hin. destruct (He e Hin) as [? Te]. rewrite Te.
    apply match_rank_iff; auto using before_at_ascii. }
  split.
  - intros (e & Hin & H) HF. rewrite Forall_forall in HF. apply list_elem_of_In in Hin.
    by apply (Hm e Hin) in H; auto.
  - intros H. apply not_Forall_Exists in H; [|apply _]. apply Exists_exists in H as (e & Hin & H).
    exists e. split; [by apply list_elem_of_In|]. by apply Hm.
Qed.

(** A gap between the two: the whitelist trims the id before its [@] and the
    choice of a profile does not.  With a whitelist of the one id [12345], a
    controller that reports [12345 @x] is let in and no profile restricts it:
    it gets the host's global permissions whatever the profile of [12345]. *)
Theorem whitelist_profile_gap (to_lowercase : rstr -> rstr)
    (from_json : rstr -> option (list (rstr * ProfileConfig))) (L : lowercase_law to_lowercase)
    (permission : rstr -> bool) (json : rstr) (c : Connection) :
  let id := Str.lit "12345 @x" in
  let c' := apply_id_permissions to_lowercase from_json permission (Str.lit "12345") json false None id c in
  id_whitelist_allows to_lowercase (whitelist_entries (Str.lit "12345")) id = true
  /\ r_profile (resolve_profile to_lowercase from_json (whitelist_entries (Str.lit "12345")) json id) = None
  /\ id_profile c' = []
  /\ k_keyboard c' = permission (Str.lit "enable-keyboard")
  /\ k_terminal c' = permission (Str.lit "enable-terminal")
  /\ k_file c' = permission (Str.lit "enable-file-transfer").
Proof.
  cbv zeta.
  assert (whitelist_entries (Str.lit "12345") = [Str.lit "12345"]) as E by (vm_compute; reflexivity).
  assert (r_profile (resolve_profile to_lowercase from_json (whitelist_entries (Str.lit "12345")) json
            (Str.lit "12345 @x")) = None) as Hr by (rewrite E; vm_compute; reflexivity).
  unfold apply_id_permissions. rewrite Hr. split; [|done].
  rewrite E. unfold id_whitelist_allows, wildcard_match. cbn [existsb]. rewrite !L.
  - vm_compute. reflexivity.
  - decide_now.
  - decide_now.
  - decide_now.
Qed.

(** ** What a connection may do *)

(** What a connection may do, by permission. *)
Definition granted (c : Connection) (q : Permission) : bool :=
  match q with
  | Keyboard => k_keyboard c | Clipboard => k_clipboard c | File => k_file c | Audio => k_audio c
  | Camera => k_camera c | Terminal => k_terminal c | Tunnel => k_tunnel c | Restart => k_restart c
  | Recording => k_recording c | BlockInput => k_block_input c | PrivacyMode => k_privacy_mode c
  | RemotePrinter => k_remote_printer c
  end.

(** The option of the configuration behind a permission. *)
Definition option_of (q : Permission) : rstr :=
  Str.lit (match q with
  | Keyboard => "enable-keyboard" | Clipboard => "enable-clipboard" | File => "enable-file-transfer"
  | Audio => "enable-audio" | Camera => "enable-camera" | Terminal => "enable-terminal"
  | Tunnel => "enable-tunnel" | Restart => "enable-remote-restart" | Recording => "enable-record-session"
  | BlockInput => "enable-block-input" | PrivacyMode => "enable-privacy-mode"
  | RemotePrinter => "enable-remote-printer" end)%string.

(** The right of a session grant that a permission needs, if a grant restricts it. *)
Definition right_of (q : Permission) : option rstr :=
  match q with
  | Keyboard | Terminal | Tunnel | Restart | BlockInput => Some (Str.lit "control")
  | File => Some (Str.lit "file") | Clipboard => Some (Str.lit "clipboard")
  | Recording => Some (Str.lit "record")
  | Audio | Camera | PrivacyMode | RemotePrinter => None
  end.

Section LetIn.
Context (to_lowercase : rstr -> rstr) (from_json : rstr -> option (list (rstr * ProfileConfig))).

Definition rank_for (id e : rstr) : option (Z * Z) :=
  match_rank to_lowercase (Str.trim e) (Str.trim id) (before_at (Str.trim id)).

(** [x] is the entry of the whitelist for the controller: the first of the highest rank. *)
Definition entry_for (wl : list rstr) (id x : rstr) : Prop :=
  exists i e r, wl !! i = Some e /\ x = Str.trim e /\ rank_for id e = Some r
  /\ forall j e' r', wl !! j = Some e' -> rank_for id e' = Some r' ->
       rank_gt r' r = false /\ ((j < i)%nat -> rank_gt r r' = true).

(** The profiles let the controller have [q]: no entry is for it; or its entry has no
    profile; or the profile of its entry has [q].  Permissions that do not parse admit
    nothing. *)
Definition profiles_admit (wl : list rstr) (json id : rstr) (q : Permission) : Prop :=
  Forall (fun e => rank_for id e = None) wl
  \/ exists x, entry_for wl id x
     /\ (Str.trim json = []
         \/ exists ps, from_json json = Some ps
            /\ match find_profile x ps with
               | None => True
               | Some cfg => allows (mk_resolved (c_name cfg) (c_profile cfg) (c_perms cfg)) q = true
               end).

Lemma entry_for_unique wl id x y : entry_for wl id x -> entry_for wl id y -> x = y.
Proof.
  intros (i & e & r & Hi & -> & Hr & Hmax) (i' & e' & r' & Hi' & -> & Hr' & Hmax').
  destruct (Hmax _ _ _ Hi' Hr') as [H1 H2], (Hmax' _ _ _ Hi Hr) as [H3 H4].
  destruct (Nat.lt_trichotomy i i') as [Hl|[->|Hl]]; [by rewrite H4 in H1|congruence|by rewrite H2 in H3].
Qed.

(** What the resolution of the code comes to. *)
Lemma resolve_admits wl json id q :
  match r_profile (resolve_profile to_lowercase from_json wl json id) with
  | Some p => allows p q = true | None => True end
  <-> profiles_admit wl json id q.
Proof.
  pose proof (matching_entry_is_best to_lowercase wl id) as Hm. cbv zeta in Hm.
  unfold resolve_profile. destruct (matching_entry to_lowercase wl id) as [x|].
  - assert (Hx : entry_for wl id x) by exact Hm.
    assert (Hn : ~ Forall (fun e => rank_for id e = None) wl).
    { destruct Hx as (i & e & r & Hi & _ & Hr & _). intros H. rewrite Forall_forall in H.
      rewrite (H e) in Hr; [done|]. by eapply list_elem_of_lookup_2. }
    assert (E : profiles_admit wl json id q <-> (Str.trim json = [] \/ exists ps, from_json json = Some ps
            /\ match find_profile x ps with
               | None => True
               | Some cfg => allows (mk_resolved (c_name cfg) (c_profile cfg) (c_perms cfg)) q = true
               end)).
    { unfold profiles_admit. split; [|by right; exists x]. intros [|(y & Hy & H)]; [done|].
      by rewrite (entry_for_unique _ _ _ _ Hx Hy). }
    rewrite E. case_bool_decide as Hj; [by split; [left|]|]. destruct (from_json json) as [ps|].
    + destruct (find_profile x ps) as [cfg|] eqn:Ef; cbn [r_profile].
      * split; [intros H; right; exists ps; by rewrite Ef|]. intros [|(ps' & [= <-] & H)]; [done|]. by rewrite Ef in H.
      * split; [intros _; right; exists ps; by rewrite Ef|done].
    + split; [done|]. by intros [|(ps & H & _)].
  - split; [by left|done].
Qed.
End LetIn.

(** C14 Applying the permissions grants exactly what everyone grants.  Whatever the
    connection could do before, it then has each of the twelve permissions if and only if
    the option of the configuration gives it, the profile of the controller's entry, the
    first of the highest rank in the whitelist, lets it, the session grant, where there is one,
    holds the right that it needs, and, for recording, no watermark is required of the
    controller.  With permissions that do not parse a listed controller has none of them. *)
Theorem permissions_never_widen (to_lowercase : rstr -> rstr)
    (from_json : rstr -> option (list (rstr * ProfileConfig)))
    (permission : rstr -> bool) (wl json : rstr) (wm : bool) (grant : option (rstr -> bool))
    (id : rstr) (c : Connection) :
  let c' := apply_id_permissions to_lowercase from_json permission wl json wm grant id c in
  let admits := profiles_admit to_lowercase from_json (whitelist_entries wl) json id in
  (forall q, granted c' q = true <->
     permission (option_of q) = true /\ admits q
     /\ (forall g s, grant = Some g -> right_of q = Some s -> g s = true)
     /\ (q = Recording -> wm = false))
  /\ (clanto_forward_profile c' = true <-> admits Tunnel)
  /\ (clanto_camera_profile c' = true <-> admits Camera)
  /\ (Str.trim json <> [] -> from_json json = None ->
      (exists x, entry_for to_lowercase (whitelist_entries wl) id x) ->
      id_profile c' = Str.lit "view" /\ forall q, ~ admits q).
Proof.
  cbv zeta. pose proof (resolve_admits to_lowercase from_json (whitelist_entries wl) json id) as Ha.
  split; [|split; [|split]].
  - intros q. rewrite <- Ha. unfold apply_id_permissions, recording_allowed. cbv zeta.
    assert (Hg : forall s, (forall g t, grant = Some g -> Some s = Some t -> g t = true)
                           <-> match grant with Some g => g s = true | None => True end).
    { intros s. destruct grant as [g|]; [|by split]. split; [by intros H; apply (H g)|by intros H ? ? [= <-] [= <-]]. }
    destruct q; cbn [right_of option_of]; rewrite ?Hg;
      destruct (r_profile _) as [p|], grant as [g|]; cbn -[allows Str.lit];
      rewrite ?andb_true_iff, ?negb_true_iff; intuition (congruence || done).
  - rewrite <- Ha. unfold apply_id_permissions. destruct (r_profile _), grant; by cbn -[allows Str.lit].
  - rewrite <- Ha. unfold apply_id_permissions. destruct (r_profile _), grant; by cbn -[allows Str.lit].
  - intros Hj Hn [x Hx]. pose proof (matching_entry_is_best to_lowercase (whitelist_entries wl) id) as Hm. cbv zeta in Hm.
    assert (Hs : exists y, matching_entry to_lowercase (whitelist_entries wl) id = Some y).
    { destruct (matching_entry _ _ _); [by eexists|]. destruct Hx as (i & e & r & Hi & _ & Hr & _).
      rewrite Forall_forall in Hm. unfold rank_for in Hr. rewrite (Hm e) in Hr; [done|]. by eapply list_elem_of_lookup_2. }
    destruct Hs as [y Hy]. split.
    + unfold apply_id_permissions, resolve_profile. rewrite Hy, bool_decide_false, Hn by done. by destruct grant.
    + intros q. rewrite <- Ha. unfold resolve_profile. by rewrite Hy, bool_decide_false, Hn by done.
Qed.

(** ** Witnesses *)

Lemma lowercase_law_ascii : lowercase_law Str.to_ascii_lowercase.
Proof. by intros s _. Qed.

Lemma whitelisted_has_profile_witness :
  id_whitelist_allows Str.to_ascii_lowercase [Str.lit "lab-*"; Str.lit "12345"] (Str.lit "LAB-7@srv") = true
  <-> matching_entry Str.to_ascii_lowercase [Str.lit "lab-*"; Str.lit "12345"] (Str.lit "LAB-7@srv") <> None.
Proof.
  apply whitelisted_has_profile; [apply lowercase_law_ascii|done|decide_now|decide_now|reflexivity|reflexivity].
Defined.

Lemma whitelist_profile_gap_witness :
  id_whitelist_allows Str.to_ascii_lowercase (whitelist_entries (Str.lit "12345")) (Str.lit "12345 @x") = true
  /\ r_profile (resolve_profile Str.to_ascii_lowercase (fun _ => Some [(Str.lit "12345", mk_config [] View custom_default)])
                  (whitelist_entries (Str.lit "12345")) (Str.lit "{}") (Str.lit "12345 @x")) = None.
Proof.
  destruct (whitelist_profile_gap Str.to_ascii_lowercase
    (fun _ => Some [(Str.lit "12345", mk_config [] View custom_default)]) lowercase_law_ascii
    (fun _ => true) (Str.lit "{}")
    (mk [] false false false false false false false false false false false false false false)) as (? & ? & _).
  by split.
Defined.
