(* ===== verification/LoginFailure.v ===== *)
(** * Login attempts: [src/server/login_failure_check.rs] and the failure
    counters of [src/server/connection.rs]

    [Backoff] is the policy for the operating system's credentials, one global
    state with an exponential back-off.  [Buckets] is the table of failed
    attempts per address and per IPv6 prefix, of which the program has one per
    kind of attempt.  The clock (milliseconds, an [i64]) is an argument. *)

From S2P Require Import Prelude NetAddr IdPermissions.

Inductive FailureScope := Default | TerminalOsLogin.

Inductive AlarmAuditType :=
| IpWhitelist | ExceedThirtyAttempts | SixAttemptsWithinOneMinute | ExceedIPv6PrefixAttempts
| TerminalOsLoginBackoff | TerminalOsLoginConcurrency | SessionScopeViolation | IdWhitelist
| PostureRejected | PasswordWrong | TwoFactorWrong.

#[export] Instance FailureScope_eq_dec : EqDecision FailureScope.
Proof. solve_decision. Defined.
#[export] Instance AlarmAuditType_eq_dec : EqDecision AlarmAuditType.
Proof. solve_decision. Defined.

(** ** Back-off *)

Module Backoff.

Definition TOTAL_IDLE_RESET_MS : Z := 120 * 60 * 1000.
Definition BASE_SECONDS : Z := 15.
Definition MAX_SECONDS : Z := 30 * 60.

Record OsCredentialPolicyDecision := mk_decision {
  allowed : bool; login_error : option rstr; audit : option AlarmAuditType }.

Record OsCredentialFailureState := mk {
  total_failures : Z; backoff_until_ms : option Z; last_failure_ms : option Z }.

Definition default_state : OsCredentialFailureState := mk 0 None None.

Definition is_os_credential_scope (scope : FailureScope) : bool :=
  match scope with TerminalOsLogin => true | Default => false end.

Definition backoff_audit_type_for_scope (scope : FailureScope) : option AlarmAuditType :=
  match scope with TerminalOsLogin => Some TerminalOsLoginBackoff | Default => None end.

Definition backoff_seconds (total_failures : Z) : Z :=
  if total_failures <=? 2 then 0
  else
    let exp := Z.min (total_failures - 3) 7 in
    let seconds := Int.swrap 64 (BASE_SECONDS * Int.swrap 64 (Z.shiftl 1 exp)) in
    Z.min seconds MAX_SECONDS.

Definition normalize_backoff (s : OsCredentialFailureState) (now_ms : Z) : OsCredentialFailureState :=
  match backoff_until_ms s with
  | Some until_ms =>
      if until_ms <=? now_ms then mk (total_failures s) None (last_failure_ms s) else s
  | None => s
  end.

Definition reset_totals_on_idle (s : OsCredentialFailureState) (now_ms : Z)
  : OsCredentialFailureState :=
  match last_failure_ms s with
  | Some last_ms =>
      if TOTAL_IDLE_RESET_MS <=? Int.sat_subs 64 now_ms last_ms then mk 0 None None else s
  | None => s
  end.

Definition allow_decision : OsCredentialPolicyDecision := mk_decision true None None.
Definition block_decision (login_error : rstr) (alarm_type : option AlarmAuditType)
  : OsCredentialPolicyDecision := mk_decision false (Some login_error) alarm_type.

(** The seconds left, as the refusal tells them. *)
Definition remaining_seconds (until_ms now_ms : Z) : Z :=
  let remaining_ms := Z.max (Int.swrap 64 (until_ms - now_ms)) 0 in
  Z.max (Z.quot (Int.swrap 64 (remaining_ms + 999)) 1000) 1.

Definition backoff_message (seconds : Z) : rstr :=
  Str.lit "Please try again in " ++ Str.show_int seconds ++ Str.lit " "
  ++ (if seconds =? 1 then Str.lit "second" else Str.lit "seconds") ++ Str.lit ".".

Definition evaluate_os_credential_policy (s : OsCredentialFailureState) (scope : FailureScope)
    (now_ms : Z) : OsCredentialFailureState * OsCredentialPolicyDecision :=
  if negb (is_os_credential_scope scope) then (s, allow_decision)
  else
    let s := normalize_backoff (reset_totals_on_idle s now_ms) now_ms in
    match backoff_until_ms s with
    | Some until_ms =>
        (s, block_decision (backoff_message (remaining_seconds until_ms now_ms))
              (backoff_audit_type_for_scope scope))
    | None => (s, allow_decision)
    end.

Definition record_os_credential_failure (s : OsCredentialFailureState) (scope : FailureScope)
    (now_ms : Z) : OsCredentialFailureState :=
  if negb (is_os_credential_scope scope) then s
  else
    let s := normalize_backoff (reset_totals_on_idle s now_ms) now_ms in
    let total := Int.sat_adds 32 (total_failures s) 1 in
    let seconds := backoff_seconds total in
    mk total
       (if 0 <? seconds then Some (Int.swrap 64 (now_ms + seconds * 1000)) else backoff_until_ms s)
       (Some now_ms).
End Backoff.

(** ** Buckets *)

Module Buckets.

(** The minute of the last failure, how many in that minute, how many in all. *)
Record entry := mk { e_minute : Z; e_recent : Z; e_total : Z }.
Definition zero : entry := mk 0 0 0.

Abbreviation table := (gmap rstr entry).

(** What a check tells the peer and the audit. *)
Inductive effect := LoginError (text : rstr) | Alarm (t : AlarmAuditType).

Definition lookup (m : table) (key : rstr) : entry := stdpp.option.default zero (m !! key).

Definition mask_u128 (addr prefix : Z) : Z :=
  Z.land addr (if (prefix =? 0) || (128 <? prefix) then 0 else NetAddr.high_mask 128 prefix).

(** [ip.split('%').next()], trimmed. *)
Definition ip_only (ip : rstr) : rstr :=
  Str.trim (match Str.split (Str.ch 37) ip with piece :: _ => piece | [] => ip end).

Definition prefix_key (addr prefix : Z) (label : string) : rstr :=
  NetAddr.show_ipv6 (mask_u128 addr prefix) ++ Str.lit label.

Definition get_ipv6_prefixes (ip : rstr) : option (rstr * rstr * rstr) :=
  a ← NetAddr.Ipv6Addr_from_str (ip_only ip);
  Some (prefix_key a 64 "/64", prefix_key a 56 "/56", prefix_key a 48 "/48").

Definition bump_failure_entry (cur : entry) (time : Z) : entry :=
  if e_minute cur =? time
  then mk (e_minute cur) (Int.swrap 32 (e_recent cur + 1)) (Int.swrap 32 (e_total cur + 1))
  else mk time 1 (Int.swrap 32 (e_total cur + 1)).

Definition bump (time : Z) (m : table) (key : rstr) : table :=
  <[key := bump_failure_entry (lookup m key) time]> m.

(** [update_failure] on the table of the kind of attempt. *)
Definition update_failure (m : table) (ip : rstr) (failure : entry) (time : Z) (remove : bool)
  : table :=
  if remove then
    if negb (e_minute failure =? 0) then
      match get_ipv6_prefixes ip with
      | Some (p64, p56, p48) => delete ip (delete p48 (delete p56 (delete p64 m)))
      | None => delete ip m
      end
    else m
  else
    match get_ipv6_prefixes ip with
    | Some (p64, p56, p48) => bump time (foldl (bump time) m [p64; p56; p48]) ip
    | None => bump time m ip
    end.

Definition update_failure_with_scope (s : Backoff.OsCredentialFailureState) (m : table) (ip : rstr)
    (failure : entry) (time : Z) (remove : bool) (scope : FailureScope) (now_ms : Z)
  : Backoff.OsCredentialFailureState * table :=
  match scope with
  | TerminalOsLogin =>
      (if remove then s else Backoff.record_os_credential_failure s scope now_ms, m)
  | Default => (s, update_failure m ip failure time remove)
  end.

Definition check_failure_ipv6_prefix (m : table) (prefix : rstr) (prefix_num thresh : Z)
  : option (entry * list effect) :=
  let failure_prefix := lookup m prefix in
  if thresh <? e_total failure_prefix then
    Some (failure_prefix,
          [LoginError (Str.lit "Too many wrong attempts for IPv6 prefix /" ++ Str.show_int prefix_num);
           Alarm ExceedIPv6PrefixAttempts])
  else None.

(** The minute of the check. *)
Definition minute_of (now_ms : Z) : Z := Int.swrap 32 (Z.quot now_ms 60000).

Definition check_direct (m : table) (ip : rstr) (time : Z) : entry * bool * list effect :=
  let failure := lookup m ip in
  if 30 <? e_total failure then
    (failure, false, [LoginError (Str.lit "Too many wrong attempts"); Alarm ExceedThirtyAttempts])
  else if (time =? e_minute failure) && (6 <? e_recent failure) then
    (failure, false,
     [LoginError (Str.lit "Please try 1 minute later"); Alarm SixAttemptsWithinOneMinute])
  else (failure, true, []).

Definition check_failure (m : table) (ip : rstr) (time : Z) : entry * bool * list effect :=
  match get_ipv6_prefixes ip with
  | Some (p64, p56, p48) =>
      match check_failure_ipv6_prefix m p64 64 60 with
      | Some (f, es) => (f, false, es)
      | None =>
          match check_failure_ipv6_prefix m p56 56 80 with
          | Some (f, es) => (f, false, es)
          | None =>
              match check_failure_ipv6_prefix m p48 48 100 with
              | Some (f, es) => (f, false, es)
              | None => check_direct m ip time
              end
          end
      end
  | None => check_direct m ip time
  end.

Definition check_failure_with_scope (s : Backoff.OsCredentialFailureState) (m : table) (ip : rstr)
    (scope : FailureScope) (now_ms : Z)
  : Backoff.OsCredentialFailureState * (entry * Z * bool * list effect) :=
  let time := minute_of now_ms in
  match scope with
  | TerminalOsLogin =>
      let '(s, d) := Backoff.evaluate_os_credential_policy s scope now_ms in
      (s, (zero, time, Backoff.allowed d,
           if Backoff.allowed d then []
           else (match Backoff.login_error d with Some e => [LoginError e] | None => [] end)
                ++ (match Backoff.audit d with Some a => [Alarm a] | None => [] end)))
  | Default =>
      let '(f, res, es) := check_failure m ip time in (s, (f, time, res, es))
  end.

(** *** The ID whitelist's own table *)

Definition ID_WHITELIST_FAILURE_DECAY_MINUTES : Z := 10.

Definition failure_keys (ip : rstr) : list rstr :=
  ip :: match get_ipv6_prefixes ip with
        | Some (p64, p56, p48) => [p64; p56; p48]
        | None => []
        end.

Definition decay_step (now window : Z) (m : table) (key : rstr) : table :=
  match m !! key with
  | Some v => if window <=? Int.sat_subs 32 now (e_minute v) then delete key m else m
  | None => m
  end.

Definition decay_stale_failures (m : table) (keys : list rstr) (now window : Z) : table :=
  foldl (decay_step now window) m keys.

Definition clear_failures (m : table) (keys : list rstr) : table :=
  foldl (fun m key => delete key m) m keys.

(** [check_id_whitelist]: the decision and what the peer and the audit are told.
    [check_failure] and the decay read the clock; here it is the same minute. *)
Definition check_id_whitelist (to_lowercase : rstr -> rstr) (m : table) (option_whitelist : rstr)
    (ip my_id : rstr) (now_ms : Z) : table * bool * list effect :=
  match Connection.whitelist_entries option_whitelist with
  | [] => (m, true, [])
  | id_whitelist =>
      let time := minute_of now_ms in
      let m := decay_stale_failures m (failure_keys ip) time ID_WHITELIST_FAILURE_DECAY_MINUTES in
      let '(failure, res, es) := check_failure m ip time in
      if negb res then (m, false, es)
      else if Connection.id_whitelist_allows to_lowercase id_whitelist my_id then (m, true, es)
      else (update_failure m ip failure time false, false,
            es ++ [LoginError (Str.lit "Your ID is blocked by the peer"); Alarm IdWhitelist])
  end.
End Buckets.

(** * Specification *)

Import Backoff Buckets.

(** The state after failures at the given times. *)
Definition failures_at (ts : list Z) : OsCredentialFailureState :=
  foldl (fun s t => record_os_credential_failure s TerminalOsLogin t) default_state ts.

(** Times go forward and never pause for the idle reset. *)
Fixpoint steady (ts : list Z) : Prop :=
  match ts with
  | t :: ((u :: _) as ts') => t <= u < t + TOTAL_IDLE_RESET_MS /\ steady ts'
  | _ => True
  end.

(** A clock reading far from the ends of [i64]. *)
Definition sane_time (t : Z) : Prop := 0 <= t <= 2 ^ 62.

(** The table after failed attempts from addresses at minutes, none removed. *)
Definition attempts (l : list (rstr * Z)) : table :=
  foldl (fun m '(ip, t) => update_failure m ip zero t false) ∅ l.

(** How many of the attempts came from addresses that count towards [key]. *)
Definition counts_towards (key : rstr) (l : list (rstr * Z)) : nat :=
  length (filter (fun '(ip, _) => key ∈ failure_keys ip) l).

(** An address is written without a slash, a prefix with one. *)
Definition plain (ip : rstr) : Prop := 47 ∉ ip.

(** The address' first 64 bits. *)
Definition same_64 (a b : Z) : Prop := Z.shiftr a 64 = Z.shiftr b 64.

(** The minutes of the attempts that count towards a key. *)
Definition minutes_for (key : rstr) (l : list (rstr * Z)) : list Z :=
  (filter (fun '(ip, _) => key ∈ failure_keys ip) l).*2.

Definition bucket_of (ts : list Z) : entry := foldl bump_failure_entry zero ts.

(** How many of the last attempts were all in the minute [t]. *)
Fixpoint run_rev (t : Z) (rts : list Z) : nat :=
  match rts with
  | u :: rts' => if u =? t then S (run_rev t rts') else O
  | [] => O
  end.
Definition latest_run (t : Z) (ts : list Z) : nat := run_rev t (rev ts).

(** The prefixes a check looks at and how many attempts each may have. *)
Definition prefix_limits (ip : rstr) : list (rstr * nat) :=
  match get_ipv6_prefixes ip with
  | Some (p64, p56, p48) => [(p64, 60); (p56, 80); (p48, 100)]%nat
  | None => []
  end.

(** The address [ip] is an IPv6 one that shares the first 64 bits of [a]. *)
Definition in_same_64 (a : Z) (ip : rstr) : bool :=
  match NetAddr.Ipv6Addr_from_str (ip_only ip) with
  | Some b => Z.shiftr a 64 =? Z.shiftr b 64
  | None => false
  end.

(** The state after [n] failures without an idle reset, the last at [t]. *)
Definition after_failures (n t : Z) : OsCredentialFailureState :=
  Backoff.mk n (if n <=? 2 then None else Some (t + 1000 * backoff_seconds n)) (Some t).

(** * Theorems *)

Example backoff_schedule :
  backoff_seconds <$> [1; 2; 3; 4; 5; 9; 10; 11; 1000] = [0; 0; 15; 30; 60; 960; 1800; 1800; 1800].
Proof. vm_compute. reflexivity. Qed.

Example prefixes_of_an_address :
  get_ipv6_prefixes (Str.lit "2001:db8:1:2ab:3::9%eth0")
  = Some (Str.lit "2001:db8:1:2ab::/64", Str.lit "2001:db8:1:200::/56", Str.lit "2001:db8:1::/48").
Proof. vm_compute. reflexivity. Qed.

(** ** Back-off *)

Lemma backoff_seconds_spec n :
  0 <= n -> backoff_seconds n = if n <=? 2 then 0 else Z.min (15 * 2 ^ Z.min (n - 3) 7) 1800.
Proof.
  intros Hn. unfold backoff_seconds. destruct (Z.leb_spec n 2); [done|].
  assert (forall e, 0 <= e <= 7 ->
    Int.swrap 64 (BASE_SECONDS * Int.swrap 64 (Z.shiftl 1 e)) = 15 * 2 ^ e) as He.
  { intros e He. assert (e = 0 \/ e = 1 \/ e = 2 \/ e = 3 \/ e = 4 \/ e = 5 \/ e = 6 \/ e = 7) as Hc
      by lia. by destruct Hc as [->|[->|[->|[->|[->|[->|[->| ->]]]]]]]. }
  rewrite He by lia. done.
Qed.

Lemma backoff_seconds_range n : 0 <= n -> 0 <= backoff_seconds n <= 1800.
Proof.
  intros Hn. rewrite backoff_seconds_spec by done. destruct (n <=? 2) eqn:E; [lia|].
  pose proof (Z.pow_nonneg 2 (Z.min (n - 3) 7) ltac:(lia)). lia.
Qed.

Lemma backoff_seconds_pos n : 2 < n -> 15 <= backoff_seconds n.
Proof.
  intros Hn. rewrite backoff_seconds_spec by lia. rewrite (proj2 (Z.leb_gt _ _) Hn).
  pose proof (Z.pow_le_mono_r 2 0 (Z.min (n - 3) 7) ltac:(lia) ltac:(lia)). lia.
Qed.

Lemma not_idle s t u :
  last_failure_ms s = Some t -> sane_time t -> sane_time u -> t <= u < t + TOTAL_IDLE_RESET_MS ->
  reset_totals_on_idle s u = s.
Proof.
  unfold sane_time. intros E Ht Hu H. unfold reset_totals_on_idle. rewrite E.
  unfold Int.sat_subs. rewrite Int.limit_id by (unfold Int.smin, Int.smax; simpl; lia).
  destruct (Z.leb_spec TOTAL_IDLE_RESET_MS (u - t)); [lia|done].
Qed.

Lemma normalize_total s u :
  total_failures (normalize_backoff s u) = total_failures s
  /\ last_failure_ms (normalize_backoff s u) = last_failure_ms s
  /\ (backoff_until_ms s = None -> backoff_until_ms (normalize_backoff s u) = None).
Proof. unfold normalize_backoff. repeat case_match; by simplify_eq/=. Qed.

Lemma record_after_failures s n t u :
  total_failures s = n -> last_failure_ms s = Some t \/ s = default_state ->
  (n <= 2 -> backoff_until_ms s = None) ->
  0 <= n < Int.smax 32 -> sane_time t -> sane_time u -> t <= u < t + TOTAL_IDLE_RESET_MS ->
  record_os_credential_failure s TerminalOsLogin u = after_failures (n + 1) u.
Proof.
  intros En Hl Hu0 Hn Ht Hu Htu. unfold record_os_credential_failure. cbn [is_os_credential_scope negb].
  assert (reset_totals_on_idle s u = s) as ->
    by (destruct Hl as [Hl| ->]; [by eapply not_idle|done]).
  destruct (normalize_total s u) as (-> & _ & Hun). rewrite En. cbv zeta.
  unfold Int.sat_adds. rewrite Int.limit_id by (unfold Int.smin, Int.smax in *; simpl in *; lia).
  unfold after_failures. pose proof (backoff_seconds_range (n + 1) ltac:(lia)).
  destruct (Z.leb_spec (n + 1) 2) as [Hle|Hgt].
  - rewrite (backoff_seconds_spec (n + 1)), (proj2 (Z.leb_le _ _) Hle) by lia.
    cbn [Z.ltb Z.compare]. by rewrite Hun by (apply Hu0; lia).
  - pose proof (backoff_seconds_pos (n + 1) Hgt).
    rewrite (proj2 (Z.ltb_lt 0 _)) by lia. do 2 f_equal. unfold sane_time in *.
    rewrite Int.swrap_small; [lia|lia|]. unfold Int.is_s, Int.smin, Int.smax. simpl. lia.
Qed.

Lemma failures_at_spec ts t :
  steady (ts ++ [t]) -> Forall sane_time (ts ++ [t]) -> Z.of_nat (length ts) < Int.smax 32 ->
  failures_at (ts ++ [t]) = after_failures (Z.of_nat (length ts) + 1) t.
Proof.
  revert t. induction ts as [|u ts IH] using rev_ind; intros t Hs Hf Hn.
  - simpl in Hf. rewrite Forall_singleton in Hf.
    apply (record_after_failures _ _ t); try done; try (by right);
      unfold TOTAL_IDLE_RESET_MS, Int.smax; simpl; lia.
  - apply Forall_app in Hf as [Hf Ht]. rewrite length_app in Hn. simpl in Hn.
    assert (steady (ts ++ [u]) /\ u <= t < u + TOTAL_IDLE_RESET_MS) as [Hs' Hut].
    { clear -Hs. rewrite <- app_assoc in Hs. induction ts as [|x ts IH]; [simpl in *; tauto|].
      simpl in *. destruct ts as [|y ts]; simpl in *; tauto. }
    assert (failures_at ((ts ++ [u]) ++ [t])
            = record_os_credential_failure (failures_at (ts ++ [u])) TerminalOsLogin t) as ->
      by (unfold failures_at; by rewrite foldl_snoc).
    rewrite IH by (done || lia). rewrite length_app. simpl.
    rewrite (record_after_failures _ (Z.of_nat (length ts) + 1) u t).
    + f_equal. lia.
    + done.
    + by left.
    + intros Hle. unfold after_failures. simpl. by rewrite (proj2 (Z.leb_le _ _) Hle).
    + lia.
    + apply Forall_app in Hf as [_ Hf]. by rewrite Forall_singleton in Hf.
    + by rewrite Forall_singleton in Ht.
    + done.
Qed.

(** After [n] failed logins with the system's credentials, none two hours
    after the one before, the next attempt is refused exactly until the back-off
    has passed since the last one: none for two failures, then 15 seconds
    doubled with every failure up to half an hour.  The refusal is audited and
    tells the seconds left, rounded up. *)
Theorem backoff_blocks_until (ts : list Z) (t now : Z)
    (Hs : steady (ts ++ [t])) (Hf : Forall sane_time (ts ++ [t])) (Hnow : sane_time now)
    (Hn : Z.of_nat (length ts) < Int.smax 32) (Hle : t <= now) :
  let n := Z.of_nat (length ts) + 1 in
  let wait := if n <=? 2 then 0 else Z.min (15 * 2 ^ Z.min (n - 3) 7) 1800 in
  let d := snd (evaluate_os_credential_policy (failures_at (ts ++ [t])) TerminalOsLogin now) in
  (allowed d = true <-> t + 1000 * wait <= now)
  /\ (allowed d = false ->
      exists s, login_error d = Some (backoff_message s) /\ audit d = Some TerminalOsLoginBackoff
        /\ t + 1000 * wait <= now + 1000 * s < t + 1000 * wait + 1000).
Proof.
  cbv zeta. rewrite failures_at_spec by done. set (n := Z.of_nat (length ts) + 1) in *.
  rewrite <- backoff_seconds_spec by lia. pose proof (backoff_seconds_range n ltac:(lia)) as Hr.
  assert (sane_time t) as Ht by (apply Forall_app in Hf as [_ Hf]; by rewrite Forall_singleton in Hf).
  unfold evaluate_os_credential_policy. cbn [is_os_credential_scope negb].
  destruct (Z.lt_ge_cases now (t + TOTAL_IDLE_RESET_MS)) as [Hi|Hi].
  - rewrite (not_idle _ t) by done. unfold after_failures, normalize_backoff.
    cbn [backoff_until_ms]. destruct (Z.leb_spec n 2) as [H2|H2].
    + rewrite (backoff_seconds_spec n), (proj2 (Z.leb_le _ _) H2) in * by lia. simpl.
      split; [split; [lia|done]|done].
    + destruct (Z.leb_spec (t + 1000 * backoff_seconds n) now) as [Hp|Hp]; simpl.
      * split; [split; [lia|done]|done].
      * split; [split; [done|lia]|]. intros _. eexists. split; [done|]. split; [done|].
        unfold remaining_seconds, sane_time in *.
        rewrite (Int.swrap_small 64 (_ - now)) by (unfold Int.is_s, Int.smin, Int.smax; simpl; lia).
        rewrite (Z.max_l (_ - _) 0) by lia.
        rewrite Int.swrap_small by (unfold Int.is_s, Int.smin, Int.smax; simpl; lia). rewrite Z.quot_div_nonneg by lia.
        set (r := t + 1000 * backoff_seconds n - now) in *.
        pose proof (Z.div_mod (r + 999) 1000 ltac:(lia)).
        pose proof (Z.mod_pos_bound (r + 999) 1000 ltac:(lia)). lia.
  - unfold reset_totals_on_idle, after_failures. cbn [last_failure_ms].
    unfold Int.sat_subs, sane_time in *.
    rewrite Int.limit_id by (unfold Int.smin, Int.smax; simpl; lia).
    rewrite (proj2 (Z.leb_le _ _)) by lia. simpl.
    split; [split; [unfold TOTAL_IDLE_RESET_MS in Hi; lia|done]|done].
Qed.

(** ** Buckets *)

Lemma lookup_bump t m k k' :
  lookup (bump t m k) k' = if decide (k' = k) then bump_failure_entry (lookup m k) t else lookup m k'.
Proof.
  unfold lookup, bump. destruct (decide (k' = k)) as [->|].
  - by rewrite lookup_insert_eq.
  - by rewrite lookup_insert_ne.
Qed.

Lemma lookup_bumps t ks m k :
  NoDup ks ->
  lookup (foldl (bump t) m ks) k
  = if decide (k ∈ ks) then bump_failure_entry (lookup m k) t else lookup m k.
Proof.
  intros Hnd. revert m. induction Hnd as [|x ks Hx _ IH]; intros m; cbn [foldl].
  - by rewrite decide_False by apply not_elem_of_nil.
  - rewrite IH, lookup_bump. destruct (decide (k ∈ ks)) as [H|H].
    + rewrite (decide_True (P := k ∈ x :: ks)) by (by right). rewrite decide_False by (intros ->; done). done.
    + destruct (decide (k = x)) as [->|Hne].
      * by rewrite decide_True by left.
      * rewrite decide_False by (intros [?|?]%elem_of_cons; done). done.
Qed.

Lemma prefix_key_neq a b p q (x y : string) :
  List.last (Str.lit x) 0 <> List.last (Str.lit y) 0 -> Str.lit x <> [] -> Str.lit y <> [] ->
  prefix_key a p x <> prefix_key b q y.
Proof.
  intros Hl Hx Hy E. apply Hl. unfold prefix_key in E.
  apply (f_equal (fun l => List.last l 0)) in E.
  destruct (exists_last Hx) as (x' & cx & Ex), (exists_last Hy) as (y' & cy & Ey).
  rewrite Ex, Ey in *. by rewrite !app_assoc, !last_last in E; rewrite !last_last.
Qed.

Lemma plain_prefix_key ip a p (x : string) : plain ip -> 47 ∈ Str.lit x -> ip <> prefix_key a p x.
Proof. intros H Hx ->. apply H. apply elem_of_app. by right. Qed.

(** The keys an attempt counts towards are distinct. *)
Lemma failure_keys_NoDup ip : plain ip -> NoDup (failure_keys ip).
Proof.
  intros H. unfold failure_keys, get_ipv6_prefixes.
  destruct (NetAddr.Ipv6Addr_from_str (ip_only ip)) as [a|]; cbn [mbind option_bind].
  - repeat (constructor; [rewrite ?elem_of_cons, elem_of_nil; intros Hc; destruct_or? Hc;
      first [by eapply (plain_prefix_key ip); [exact H| |exact Hc]; decide_now
            |by eapply prefix_key_neq; [| | |exact Hc]; vm_compute; congruence|done]|]).
    constructor.
  - apply NoDup_singleton.
Qed.

Lemma update_failure_keys m ip f t :
  exists ks, ks ≡ₚ failure_keys ip /\ update_failure m ip f t false = foldl (bump t) m ks.
Proof.
  unfold update_failure, failure_keys. destruct (get_ipv6_prefixes ip) as [[[p64 p56] p48]|].
  - exists [p64; p56; p48; ip]. split; [|done]. by rewrite (Permutation_app_comm [p64; p56; p48] [ip]).
  - by exists [ip].
Qed.

Lemma lookup_update m ip f t k :
  plain ip ->
  lookup (update_failure m ip f t false) k
  = if decide (k ∈ failure_keys ip) then bump_failure_entry (lookup m k) t else lookup m k.
Proof.
  intros H. destruct (update_failure_keys m ip f t) as (ks & Hp & ->).
  rewrite lookup_bumps by (rewrite Hp; by apply failure_keys_NoDup).
  destruct (decide (k ∈ ks)) as [Hk|Hk]; rewrite Hp in Hk.
  - by rewrite decide_True.
  - by rewrite decide_False.
Qed.

Lemma lookup_attempts l k :
  Forall (fun a => plain a.1) l -> lookup (attempts l) k = bucket_of (minutes_for k l).
Proof.
  induction l as [|[ip t] l IH] using rev_ind; intros H; [done|].
  apply Forall_app in H as [Hl Hip]. rewrite Forall_singleton in Hip.
  unfold attempts, minutes_for, bucket_of in *. rewrite foldl_snoc, lookup_update, IH by done.
  rewrite filter_app, fmap_app, foldl_app. rewrite filter_cons, filter_nil. simpl.
  by destruct (decide (k ∈ failure_keys ip)).
Qed.

Lemma bucket_of_snoc ts t : bucket_of (ts ++ [t]) = bump_failure_entry (bucket_of ts) t.
Proof. apply foldl_snoc. Qed.

Lemma latest_run_snoc t ts u :
  latest_run t (ts ++ [u]) = if u =? t then S (latest_run t ts) else 0%nat.
Proof. unfold latest_run. by rewrite rev_unit. Qed.

Lemma latest_run_le t ts : (latest_run t ts <= length ts)%nat.
Proof.
  unfold latest_run. rewrite <- length_rev. induction (rev ts) as [|u l IH]; simpl; [lia|].
  destruct (u =? t); lia.
Qed.

Lemma bucket_of_spec ts :
  Z.of_nat (length ts) <= Int.smax 32 ->
  e_total (bucket_of ts) = Z.of_nat (length ts)
  /\ e_recent (bucket_of ts) = Z.of_nat (latest_run (e_minute (bucket_of ts)) ts)
  /\ (forall t, t <> e_minute (bucket_of ts) -> latest_run t ts = 0%nat).
Proof.
  induction ts as [|u ts IH] using rev_ind; [done|].
  rewrite length_app. simpl. intros Hn. destruct IH as (Ht & Hr & Hz); [lia|].
  rewrite bucket_of_snoc. unfold bump_failure_entry. pose proof (latest_run_le (e_minute (bucket_of ts)) ts).
  assert (forall x, 0 <= x <= Int.smax 32 -> Int.swrap 32 x = x) as Hw.
  { intros x Hx. apply Int.swrap_small; [lia|]. unfold Int.is_s, Int.smin, Int.smax in *. simpl in *. lia. }
  destruct (Z.eqb_spec (e_minute (bucket_of ts)) u) as [E|E]; cbn [e_total e_recent e_minute].
  - rewrite Ht, Hr, !Hw by lia. split; [lia|]. rewrite E, latest_run_snoc, Z.eqb_refl. split; [lia|].
    intros t Hne. rewrite latest_run_snoc. by destruct (Z.eqb_spec u t).
  - rewrite Ht, !Hw by lia. split; [lia|]. rewrite latest_run_snoc, Z.eqb_refl, Hz by done.
    split; [done|]. intros t Hne. rewrite latest_run_snoc. by destruct (Z.eqb_spec u t).
Qed.

Lemma minutes_for_length k l : length (minutes_for k l) = counts_towards k l.
Proof. apply length_fmap. Qed.

Lemma counts_towards_le k l : (counts_towards k l <= length l)%nat.
Proof. apply length_filter. Qed.

Lemma total_attempts l k :
  Forall (fun a => plain a.1) l -> Z.of_nat (length l) <= Int.smax 32 ->
  e_total (lookup (attempts l) k) = Z.of_nat (counts_towards k l).
Proof.
  intros Hl Hn. rewrite lookup_attempts by done. rewrite <- minutes_for_length.
  apply bucket_of_spec. rewrite minutes_for_length. pose proof (counts_towards_le k l). lia.
Qed.

Lemma check_direct_spec l ip time :
  Forall (fun a => plain a.1) l -> Z.of_nat (length l) <= Int.smax 32 ->
  (check_direct (attempts l) ip time).1.2 = true
  <-> (counts_towards ip l <= 30)%nat /\ (latest_run time (minutes_for ip l) <= 6)%nat.
Proof.
  intros Hl Hn. unfold check_direct. rewrite total_attempts by done.
  rewrite lookup_attempts by done. pose proof (counts_towards_le ip l).
  destruct (bucket_of_spec (minutes_for ip l)) as (_ & Hr & Hz);
    [rewrite minutes_for_length; lia|]. rewrite Hr.
  destruct (Z.ltb_spec 30 (Z.of_nat (counts_towards ip l))); [simpl; split; [done|lia]|].
  destruct (Z.eqb_spec time (e_minute (bucket_of (minutes_for ip l)))) as [->|Hne]; simpl.
  - destruct (Z.ltb_spec 6 (Z.of_nat (latest_run (e_minute (bucket_of (minutes_for ip l))) (minutes_for ip l))));
      simpl; split; (done || lia).
  - rewrite Hz by done. split; [lia|done].
Qed.

Lemma check_prefix_spec l p num thresh :
  Forall (fun a => plain a.1) l -> Z.of_nat (length l) <= Int.smax 32 ->
  match check_failure_ipv6_prefix (attempts l) p num thresh with
  | Some _ => thresh < Z.of_nat (counts_towards p l)
  | None => Z.of_nat (counts_towards p l) <= thresh
  end.
Proof.
  intros Hl Hn. unfold check_failure_ipv6_prefix. rewrite total_attempts by done. by zbool.
Qed.

(** C15 The failure table enforces its limits: after any sequence of failed
    attempts from any addresses, an attempt from [ip] is let through exactly when
    at most 30 came from that address, at most 60, 80 and 100 from its IPv6
    prefixes of 64, 56 and 48 bits, and at most six in a row from the address in
    this same minute. *)
Theorem check_failure_limits (l : list (rstr * Z)) (ip : rstr) (time : Z)
    (Hl : Forall (fun a => plain a.1) l) (Hn : Z.of_nat (length l) <= Int.smax 32) :
  (check_failure (attempts l) ip time).1.2 = true
  <-> Forall (fun '(p, n) => (counts_towards p l <= n)%nat) (prefix_limits ip)
      /\ (counts_towards ip l <= 30)%nat /\ (latest_run time (minutes_for ip l) <= 6)%nat.
Proof.
  unfold check_failure, prefix_limits. destruct (get_ipv6_prefixes ip) as [[[p64 p56] p48]|].
  - rewrite !Forall_cons.
    pose proof (check_prefix_spec l p64 64 60 Hl Hn) as H1. destruct (check_failure_ipv6_prefix _ p64 _ _) as [[]|];
      [simpl; split; [done|lia]|].
    pose proof (check_prefix_spec l p56 56 80 Hl Hn) as H2. destruct (check_failure_ipv6_prefix _ p56 _ _) as [[]|];
      [simpl; split; [done|lia]|].
    pose proof (check_prefix_spec l p48 48 100 Hl Hn) as H3. destruct (check_failure_ipv6_prefix _ p48 _ _) as [[]|];
      [simpl; split; [done|lia]|].
    rewrite check_direct_spec by done. rewrite Forall_nil. intuition lia.
  - rewrite check_direct_spec by done. rewrite Forall_nil. tauto.
Qed.

Lemma same_64_key a b :
  Int.is_u 128 a -> Int.is_u 128 b -> Z.shiftr a 64 = Z.shiftr b 64 ->
  prefix_key a 64 "/64" = prefix_key b 64 "/64".
Proof.
  intros Ha Hb E. unfold prefix_key, mask_u128. simpl. do 2 f_equal.
  by apply (NetAddr.high_mask_eq 128 64).
Qed.

Lemma in_same_64_counts a ip l :
  NetAddr.Ipv6Addr_from_str (ip_only ip) = Some a ->
  (length (filter (fun x => Is_true (in_same_64 a x.1)) l) <= counts_towards (prefix_key a 64 "/64") l)%nat.
Proof.
  intros Ha. apply NetAddr.Ipv6Addr_from_str_range in Ha. unfold counts_towards.
  induction l as [|[ip' t] l IH]; [done|]. rewrite !filter_cons.
  destruct (decide (Is_true (in_same_64 a (ip', t).1))) as [H|H].
  - rewrite decide_True; [cbn [length]; lia|]. unfold in_same_64 in H. cbn [fst] in H.
    destruct (NetAddr.Ipv6Addr_from_str (ip_only ip')) as [b|] eqn:Eb; [|done].
    apply Is_true_true, Z.eqb_eq in H. unfold failure_keys, get_ipv6_prefixes. rewrite Eb.
    cbn [mbind option_bind].
    apply NetAddr.Ipv6Addr_from_str_range in Eb. right. rewrite (same_64_key a b) by done. by left.
  - destruct (decide (_ ∈ _)); cbn [length]; lia.
Qed.

(** Changing the address within a /64 does not help: after more than sixty
    failed attempts from any addresses of the /64 of [ip], every attempt from
    [ip] is refused, whatever the minute and whether or not [ip] itself tried. *)
Theorem rotating_addresses_does_not_help (l : list (rstr * Z)) (ip : rstr) (a time : Z)
    (Hl : Forall (fun x => plain x.1) l) (Hn : Z.of_nat (length l) <= Int.smax 32)
    (Ha : NetAddr.Ipv6Addr_from_str (ip_only ip) = Some a)
    (Hmany : (60 < length (filter (fun x => Is_true (in_same_64 a x.1)) l))%nat) :
  let '(_, res, effects) := check_failure (attempts l) ip time in
  res = false
  /\ effects = [LoginError (Str.lit "Too many wrong attempts for IPv6 prefix /64");
                Alarm ExceedIPv6PrefixAttempts].
Proof.
  pose proof (in_same_64_counts a ip l Ha) as Hc.
  unfold check_failure, get_ipv6_prefixes. rewrite Ha. cbn [mbind option_bind].
  unfold check_failure_ipv6_prefix at 1. rewrite total_attempts by done.
  rewrite (proj2 (Z.ltb_lt _ _)) by lia. split; [done|]. by vm_compute.
Qed.

(** ** Witnesses *)

Lemma backoff_blocks_until_witness :
  let d := snd (evaluate_os_credential_policy (failures_at ([1000; 2000] ++ [3000])) TerminalOsLogin 17999) in
  (allowed d = true <-> 3000 + 1000 * 15 <= 17999)
  /\ (allowed d = false ->
      exists s, login_error d = Some (backoff_message s) /\ audit d = Some TerminalOsLoginBackoff
        /\ 3000 + 1000 * 15 <= 17999 + 1000 * s < 3000 + 1000 * 15 + 1000).
Proof.
  apply (backoff_blocks_until [1000; 2000] 3000 17999).
  - decide_now.
  - decide_now.
  - decide_now.
  - decide_now.
  - lia.
Defined.

Lemma check_failure_limits_witness :
  (check_failure (attempts (replicate 31 (Str.lit "10.0.0.7", 5%Z))) (Str.lit "10.0.0.7") 9).1.2 = true
  <-> Forall (fun '(p, n) => (counts_towards p (replicate 31 (Str.lit "10.0.0.7", 5%Z)) <= n)%nat)
        (prefix_limits (Str.lit "10.0.0.7"))
      /\ (counts_towards (Str.lit "10.0.0.7") (replicate 31 (Str.lit "10.0.0.7", 5%Z)) <= 30)%nat
      /\ (latest_run 9 (minutes_for (Str.lit "10.0.0.7") (replicate 31 (Str.lit "10.0.0.7", 5%Z))) <= 6)%nat.
Proof. apply check_failure_limits; [decide_now|vm_compute; discriminate]. Defined.

Lemma rotating_addresses_does_not_help_witness :
  let '(_, res, effects) :=
    check_failure (attempts (replicate 61 (Str.lit "2001:db8::1", 5%Z))) (Str.lit "2001:db8::2") 9 in
  res = false
  /\ effects = [LoginError (Str.lit "Too many wrong attempts for IPv6 prefix /64");
                Alarm ExceedIPv6PrefixAttempts].
Proof.
  apply (rotating_addresses_does_not_help _ _ (0x20010db8 * 2 ^ 96 + 2));
    [decide_now|vm_compute; discriminate|vm_compute; reflexivity|decide_now].
Defined.
