(* ===== verification/Terminal.v ===== *)
(** * Terminal sessions: [src/server/terminal_service.rs]

    The output of a remote terminal on its way to the client: [Utf8] cuts the
    chunks read from the PTY at character boundaries, [Buffer] keeps the recent
    output for a reconnection, [Session] is the state machine of a session that
    the polling loop and a reconnection drive, [Services] the registry.  The PTY,
    the child process and the channel from the reader thread are outside the
    file: what they answer is an argument (the result of a resize, whether the
    shell has ended, the chunks waiting in the channel).  The build modelled is
    the one without the Windows helper process. *)

From S2P Require Import Prelude.

Abbreviation bytes := (list Z).

Definition blen (b : bytes) : Z := Z.of_nat (length b).
Definition NEWLINE : Z := 10.

(** ** Character boundaries *)

Module Utf8.

(** The well-formed sequences of two, three and four bytes. *)
Definition cont (b : Z) : bool := (128 <=? b) && (b <=? 191).
Definition char2 (a b : Z) : bool := (194 <=? a) && (a <=? 223) && cont b.
Definition char3 (a b c : Z) : bool :=
  cont c
  && (((a =? 224) && (160 <=? b) && (b <=? 191))
      || ((225 <=? a) && (a <=? 236) && cont b)
      || ((a =? 237) && (128 <=? b) && (b <=? 159))
      || ((238 <=? a) && (a <=? 239) && cont b)).
Definition char4 (a b c d : Z) : bool :=
  cont c && cont d
  && (((a =? 240) && (144 <=? b) && (b <=? 191))
      || ((241 <=? a) && (a <=? 243) && cont b)
      || ((a =? 244) && (128 <=? b) && (b <=? 143))).

(** [std::str::from_utf8] succeeds. *)
Fixpoint from_utf8_ok (s : bytes) : bool :=
  match s with
  | [] => true
  | a :: s1 =>
      if (0 <=? a) && (a <? 128) then from_utf8_ok s1
      else match s1 with
      | [] => false
      | b :: s2 =>
          if char2 a b then from_utf8_ok s2
          else match s2 with
          | [] => false
          | c :: s3 =>
              if char3 a b c then from_utf8_ok s3
              else match s3 with
              | [] => false
              | d :: s4 => char4 a b c d && from_utf8_ok s4
              end
          end
      end
  end.

(** The loop over the last bytes, [n] of them left from [start] on. *)
Fixpoint split_scan (n start : nat) (buf : bytes) : nat :=
  match n with
  | O => length buf
  | S n' =>
      let i := (start + n')%nat in
      match buf !! i with
      | None => length buf
      | Some b =>
          if Z.land b 128 =? 0 then length buf
          else if Z.land b 192 =? 128 then split_scan n' start buf
          else
            let seq_len :=
              if Z.land b 224 =? 192 then Some 2%nat
              else if Z.land b 240 =? 224 then Some 3%nat
              else if Z.land b 248 =? 240 then Some 4%nat
              else None in
            match seq_len with
            | None => length buf
            | Some k => if (k <=? length buf - i)%nat then length buf else i
            end
      end
  end.

Definition find_utf8_split_point (buf : bytes) : nat :=
  match buf with
  | [] => O
  | _ => let start := (length buf - 3)%nat in split_scan (length buf - start) start buf
  end.

Record Utf8ChunkAccumulator := mk { remainder : bytes }.

Definition push_chunk (acc : Utf8ChunkAccumulator) (data : bytes)
  : Utf8ChunkAccumulator * option bytes :=
  match data with
  | [] => (acc, None)
  | _ =>
      let had_remainder := negb (bool_decide (remainder acc = [])) in
      let data := if had_remainder then remainder acc ++ data else data in
      let split := find_utf8_split_point data in
      if (split =? length data)%nat then (mk [], Some data)
      else if negb had_remainder && (0 <? split)%nat && negb (from_utf8_ok (take split data))
      then (mk [], Some data)
      else
        (mk (drop split data),
         match take split data with [] => None | out => Some out end)
  end.

Definition finish (acc : Utf8ChunkAccumulator) : Utf8ChunkAccumulator * option bytes :=
  match remainder acc with [] => (acc, None) | r => (mk [], Some r) end.
End Utf8.

(** ** The replay buffer *)

Module Buffer.

Definition MAX_OUTPUT_BUFFER_SIZE : Z := 1024 * 1024.
Definition MAX_BUFFER_LINES : Z := 10000.

Record OutputBuffer := mk { lines : list bytes; total_size : Z; last_line_incomplete : bool }.

Definition new : OutputBuffer := mk [] 0 false.

Fixpoint position (x : Z) (l : bytes) : option nat :=
  match l with
  | [] => None
  | y :: l' => if y =? x then Some O else S <$> position x l'
  end.

Definition sum_len (ls : list bytes) : Z := foldr (fun l acc => blen l + acc) 0 ls.

Definition push_line (b : OutputBuffer) (line : bytes) : OutputBuffer :=
  mk (lines b ++ [line]) (total_size b + blen line) (last_line_incomplete b).

(** The loop over the pieces between newlines. *)
Fixpoint push_pieces (ends_with_newline : bool) (pieces : list bytes) (b : OutputBuffer)
  : OutputBuffer :=
  match pieces with
  | [] => b
  | [line] =>
      let b :=
        if negb ends_with_newline && negb (bool_decide (line = []))
        then mk (lines b) (total_size b) true else b in
      if negb (bool_decide (line = []))
      then push_line b (if ends_with_newline then line ++ [NEWLINE] else line)
      else b
  | line :: pieces' => push_pieces ends_with_newline pieces' (push_line b (line ++ [NEWLINE]))
  end.

(** The trimming loop; each turn pops a line. *)
Fixpoint trim_loop (ls : list bytes) (total : Z) (incomplete : bool) : OutputBuffer :=
  let over := (MAX_OUTPUT_BUFFER_SIZE <? total) || (MAX_BUFFER_LINES <? Z.of_nat (length ls)) in
  match ls with
  | [] => if over then mk [] 0 false else mk [] total incomplete
  | removed :: ls' =>
      if over then
        trim_loop ls' (if total <? blen removed then sum_len ls' else total - blen removed)
          (match ls' with [] => false | _ => incomplete end)
      else mk ls total incomplete
  end.

Definition append_rest (b : OutputBuffer) (remaining : bytes) : OutputBuffer :=
  let ends_with_newline := bool_decide (last remaining = Some NEWLINE) in
  let b := push_pieces ends_with_newline (Str.split (Str.ch NEWLINE) remaining) b in
  trim_loop (lines b) (total_size b) (last_line_incomplete b).

(** [lines.back_mut()] *)
Definition extend_last (b : OutputBuffer) (data : bytes) (incomplete : bool) : OutputBuffer :=
  match last (lines b) with
  | Some l => mk (removelast (lines b) ++ [l ++ data]) (total_size b + blen data) incomplete
  | None => b
  end.

Definition append (b : OutputBuffer) (data : bytes) : OutputBuffer :=
  match data with
  | [] => b
  | _ =>
      if last_line_incomplete b then
        match last (lines b) with
        | Some _ =>
            match position NEWLINE data with
            | Some newline_pos =>
                append_rest (extend_last b (take (S newline_pos) data) false)
                  (drop (S newline_pos) data)
            | None => extend_last b data true
            end
        | None => append_rest b data
        end
      else append_rest b data
  end.

(** Up to [n] continuation bytes are skipped from [offset] on. *)
Fixpoint skip_continuation (n : nat) (line : bytes) (offset : nat) : nat :=
  match n with
  | O => offset
  | S n' =>
      match line !! offset with
      | Some b =>
          if Z.land b 192 =? 128 then skip_continuation n' line (S offset) else offset
      | None => offset
      end
  end.

(** The loop from the newest line back; [chunks] in chronological order. *)
Fixpoint collect_recent (max_bytes : nat) (rlines : list bytes) (size : nat) (chunks : list bytes)
  : list bytes :=
  match rlines with
  | [] => chunks
  | line :: rlines' =>
      if (max_bytes <? size + length line)%nat then
        if (size =? 0)%nat && (max_bytes <? length line)%nat then
          let offset := skip_continuation 3 line (length line - max_bytes) in
          if (offset <? length line)%nat then drop offset line :: chunks else chunks
        else chunks
      else collect_recent max_bytes rlines' (size + length line) (line :: chunks)
  end.

Definition get_recent (b : OutputBuffer) (max_bytes : nat) : bytes :=
  if (max_bytes =? 0)%nat then [] else concat (collect_recent max_bytes (rev (lines b)) 0 []).
End Buffer.

(** ** Sessions *)

Module Session.

Definition DEFAULT_RECONNECT_BUFFER_BYTES : nat := (8 * 1024)%nat.
Definition CHANNEL_BUFFER_SIZE : nat := 500%nat.
Definition MAX_SIGWINCH_PHASE_ATTEMPTS : Z := 3.
Definition COMPRESS_THRESHOLD : Z := 512.

Inductive SigwinchPhase := Idle | TempResize (retries : Z) | Restore (retries : Z).
Inductive SigwinchAction := ActTempResize | ActRestore.

Inductive SessionState :=
| Closed
| Active (pending_buffer : option bytes) (sigwinch : SigwinchPhase).

Record TerminalSession := mk {
  output_rx : option (list bytes);      (* the chunks waiting in the channel *)
  output_buffer : Buffer.OutputBuffer;
  has_pty : bool;
  has_child : bool;
  pid : Z; rows : Z; cols : Z;
  closed_message_sent : bool;
  last_activity : Z;
  state : SessionState;
}.

Definition set_state v s := mk (output_rx s) (output_buffer s) (has_pty s) (has_child s) (pid s)
  (rows s) (cols s) (closed_message_sent s) (last_activity s) v.
Definition set_output rx buf s := mk rx buf (has_pty s) (has_child s) (pid s)
  (rows s) (cols s) (closed_message_sent s) (last_activity s) (state s).
Definition set_closed_message_sent v s := mk (output_rx s) (output_buffer s) (has_pty s)
  (has_child s) (pid s) (rows s) (cols s) v (last_activity s) (state s).
Definition update_activity (now : Z) s := mk (output_rx s) (output_buffer s) (has_pty s)
  (has_child s) (pid s) (rows s) (cols s) (closed_message_sent s) now (state s).
Definition set_size r c s := mk (output_rx s) (output_buffer s) (has_pty s)
  (has_child s) (pid s) r c (closed_message_sent s) (last_activity s) (state s).

(** The size of the temporary resize, of the restore. *)
Definition target_rows (action : SigwinchAction) (rows : Z) : Z :=
  match action with
  | ActTempResize => if 2 <? rows then Int.sat_subu rows 1 else Int.sat_addu 16 rows 1
  | ActRestore => rows
  end.

(** [resize] is the PTY's answer to a resize to these rows and columns. *)
Definition do_sigwinch_resize (resize : Z -> Z -> bool) (s : TerminalSession)
    (action : SigwinchAction) : bool :=
  if (rows s =? 0) || (cols s =? 0) then false
  else if has_pty s then resize (target_rows action (rows s)) (cols s) else false.

(** The message for the client: its data and whether it is compressed. *)
Definition data_payload (compress : bytes -> bytes) (data : bytes) : bytes * bool :=
  if COMPRESS_THRESHOLD <? blen data then
    let compressed := compress data in
    if blen compressed <? blen data then (compressed, true) else (data, false)
  else (data, false).

(** The retry counters, as the first block of the polling loop moves them. *)
Definition sigwinch_tick (p : SigwinchPhase) : SigwinchPhase * option SigwinchAction :=
  match p with
  | TempResize r => if r =? 0 then (Idle, None) else (TempResize (r - 1), Some ActTempResize)
  | Restore r => if r =? 0 then (Idle, None) else (Restore (r - 1), Some ActRestore)
  | Idle => (Idle, None)
  end.

(** The phase after the resize was tried. *)
Definition sigwinch_advance (p : SigwinchPhase) (action : SigwinchAction) (ok : bool)
  : SigwinchPhase :=
  match action with
  | ActTempResize => if ok then Restore MAX_SIGWINCH_PHASE_ATTEMPTS else p
  | ActRestore => if ok then Idle else p
  end.

(** One session in [read_outputs]: the session after, the data for the client in
    order and whether the session has just been found ended. *)
Definition poll (resize : Z -> Z -> bool) (ended : bool) (now : Z) (s : TerminalSession)
  : TerminalSession * list bytes * bool :=
  let closed := negb (closed_message_sent s) && ended in
  let s := if closed then set_closed_message_sent true s else s in
  let received := match output_rx s with Some q => q | None => [] end in
  let s := set_output (match output_rx s with Some _ => Some [] | None => None end)
             (foldl Buffer.append (output_buffer s) received) s in
  match state s with
  | Closed => (s, [], closed)
  | Active pending sigwinch =>
      let '(sigwinch, action) := sigwinch_tick sigwinch in
      let s := match received with [] => s | _ => update_activity now s end in
      let replay := match pending with Some (x :: b) => [x :: b] | _ => [] end in
      let sigwinch :=
        match action with
        | Some a => sigwinch_advance sigwinch a (do_sigwinch_resize resize s a)
        | None => sigwinch
        end in
      (set_state (Active None sigwinch) s, replay ++ received, closed)
  end.

(** The part of [handle_open] that finds the session: the channel is drained,
    at most [CHANNEL_BUFFER_SIZE] chunks, and the recent output queued. *)
Definition reconnect (s : TerminalSession) : TerminalSession :=
  let q := match output_rx s with Some q => q | None => [] end in
  let backlog := take CHANNEL_BUFFER_SIZE q in
  let buf := foldl Buffer.append (output_buffer s) backlog in
  let buffer := Buffer.get_recent buf DEFAULT_RECONNECT_BUFFER_BYTES in
  let s := set_output (match output_rx s with Some _ => Some (drop CHANNEL_BUFFER_SIZE q)
                       | None => None end) buf s in
  set_state (Active (match buffer with [] => None | _ => Some buffer end)
               (TempResize MAX_SIGWINCH_PHASE_ATTEMPTS)) s.
End Session.

(** ** Services *)

Module Services.
Import Session.

Definition MAX_SERVICES : Z := 100.
Definition SERVICE_IDLE_TIMEOUT : Z := 3600 * 10 ^ 9.   (* nanoseconds *)

Record PersistentTerminalService := mk_service {
  sessions : gmap Z TerminalSession;
  sv_last_activity : Z;
  is_persistent : bool;
  needs_session_sync : bool;
  is_specified_user : bool;
}.

Abbreviation registry := (gmap rstr PersistentTerminalService).

Definition set_sessions v sv := mk_service v (sv_last_activity sv) (is_persistent sv)
  (needs_session_sync sv) (is_specified_user sv).

Definition reset_status (persistent : bool) (sv : PersistentTerminalService)
  : PersistentTerminalService :=
  mk_service (set_state Closed <$> sessions sv) (sv_last_activity sv) persistent true
    (is_specified_user sv).

Definition get_or_create_service (r : registry) (now : Z) (id : rstr) (persistent specified_user : bool)
  : registry * result PersistentTerminalService unit :=
  match r !! id with
  | None =>
      if MAX_SERVICES <=? Z.of_nat (size r) then (r, Err tt)
      else
        let sv := reset_status persistent (mk_service ∅ now persistent false specified_user) in
        (<[id := sv]> r, Ok sv)
  | Some sv => let sv := reset_status persistent sv in (<[id := sv]> r, Ok sv)
  end.

(** The ids [cleanup_inactive_services] removes. *)
Definition expired (now : Z) (sv : PersistentTerminalService) : bool :=
  let idle := Z.max 0 (now - sv_last_activity sv) in
  (negb (is_persistent sv) && (SERVICE_IDLE_TIMEOUT <? idle))
  || (is_persistent sv && bool_decide (sessions sv = ∅) && (SERVICE_IDLE_TIMEOUT * 2 <? idle)).

Definition cleanup_inactive_services (r : registry) (now : Z) : registry :=
  filter (fun '(_, sv) => expired now sv = false) r.

(** *** Opening *)

Record TerminalOpened := mk_opened {
  terminal_id : Z; success : bool; message : rstr; o_pid : Z; persistent_sessions : gset Z;
  replay_terminal_output : bool }.

(** [keys().min()] *)
Definition lowest_id (m : gmap Z TerminalSession) : option Z :=
  match (map_to_list m).*1 with
  | [] => None
  | k :: ks => Some (foldl Z.min k ks)
  end.

(** A surviving session is handed to the id the client asks for. *)
Definition remap (sv : PersistentTerminalService) (id : Z) : PersistentTerminalService :=
  match sessions sv !! id with
  | Some _ => sv
  | None =>
      if needs_session_sync sv then
        match lowest_id (sessions sv) with
        | Some low =>
            match sessions sv !! low with
            | Some s => set_sessions (<[id := s]> (delete low (sessions sv))) sv
            | None => sv
            end
        | None => sv
        end
      else sv
  end.

(** [handle_open] up to the creation of a new session, which is [None] here. *)
Definition handle_open (sv : PersistentTerminalService) (id : Z)
  : PersistentTerminalService * option TerminalOpened :=
  let sv := remap sv id in
  match sessions sv !! id with
  | None => (sv, None)
  | Some s =>
      let s := reconnect s in
      let has_pending := match state s with Active (Some _) _ => true | _ => false end in
      let sv' := mk_service (<[id := s]> (sessions sv)) (sv_last_activity sv) (is_persistent sv)
                   false (is_specified_user sv) in
      (sv',
       Some (mk_opened id true
         (if has_pending then Str.lit "Reconnected to existing terminal with pending output"
          else Str.lit "Reconnected to existing terminal")
         (pid s)
         (if needs_session_sync sv && (1 <? Z.of_nat (size (sessions sv)))
          then dom (sessions sv) ∖ {[id]} else ∅)
         has_pending))
  end.

(** *** The polling loop *)

Inductive TerminalResponse :=
| RData (id : Z) (data : bytes) (compressed : bool)
| RClosed (id exit_code : Z).

(** The answers of the system for one round: whether a session's lock is free,
    whether its shell has ended, the exit code and the answers to resizes; and
    the compressor of the messages. *)
Record oracle := mk_oracle {
  lock_free : Z -> bool; shell_ended : Z -> bool; exit_status : Z -> Z;
  pty_resize : Z -> Z -> Z -> bool; now : Z; compress : bytes -> bytes }.

Definition poll_one (o : oracle)
    (acc : gmap Z TerminalSession * list TerminalResponse * list Z)
    (entry : Z * TerminalSession) : gmap Z TerminalSession * list TerminalResponse * list Z :=
  let '(m, responses, closed) := acc in
  let '(id, s) := entry in
  if lock_free o id then
    let '(s', data, ended) := poll (pty_resize o id) (shell_ended o id) (now o) s in
    (<[id := s']> m,
     responses ++ ((fun d => let '(x, c) := data_payload (compress o) d in RData id x c) <$> data),
     if ended then closed ++ [id] else closed)
  else acc.

(** [read_outputs]: the ended sessions leave the service, whether or not it is
    persistent (their closed message is marked as sent). *)
Definition close_one (o : oracle)
    (acc : gmap Z TerminalSession * list TerminalResponse) (id : Z)
  : gmap Z TerminalSession * list TerminalResponse :=
  let '(m, responses) := acc in
  let code := match m !! id with
              | Some s => if has_child s then exit_status o id else 0
              | None => 0
              end in
  (delete id m, responses ++ [RClosed id code]).

Definition read_outputs (o : oracle) (sv : PersistentTerminalService)
  : PersistentTerminalService * list TerminalResponse :=
  let '(m, responses, closed) :=
    foldl (poll_one o) (sessions sv, [], []) (map_to_list (sessions sv)) in
  let '(m, responses) := foldl (close_one o) (m, responses) closed in
  (set_sessions m sv, responses).

(** *** The other actions *)

Definition handle_resize (sv : PersistentTerminalService) (now id r c : Z)
  : PersistentTerminalService :=
  match sessions sv !! id with
  | Some s =>
      set_sessions
        (<[id := set_size (Int.wrap 16 r) (Int.wrap 16 c) (update_activity now s)]> (sessions sv)) sv
  | None => sv
  end.

(** A close forgets the session; a live child is killed and reported as [-1]. *)
Definition handle_close (sv : PersistentTerminalService) (id : Z)
  : PersistentTerminalService * option TerminalResponse :=
  match sessions sv !! id with
  | Some s => (set_sessions (delete id (sessions sv)) sv,
               Some (RClosed id (if has_child s then -1 else 0)))
  | None => (sv, None)
  end.
End Services.

(** * Specification *)

Import Utf8 Buffer Session Services.

(** One encoded character. *)
Definition is_char (ch : bytes) : Prop :=
  match ch with
  | [a] => 0 <= a < 128
  | [a; b] => char2 a b = true
  | [a; b; c] => char3 a b c = true
  | [a; b; c; d] => char4 a b c d = true
  | _ => False
  end.

(** Nothing, or a proper prefix of a character. *)
Definition is_partial (q : bytes) : Prop :=
  q = [] \/ exists r, q <> [] /\ r <> [] /\ is_char (q ++ r).

(** The chunks the accumulator lets through. *)
Fixpoint feed (acc : Utf8ChunkAccumulator) (chunks : list bytes)
  : Utf8ChunkAccumulator * list bytes :=
  match chunks with
  | [] => (acc, [])
  | c :: cs =>
      let '(acc, o) := push_chunk acc c in
      let '(acc, os) := feed acc cs in
      (acc, match o with Some x => x :: os | None => os end)
  end.

Definition full_line (l : bytes) : Prop := exists t, l = t ++ [NEWLINE] /\ NEWLINE ∉ t.
Definition partial_line (l : bytes) : Prop := l <> [] /\ NEWLINE ∉ l.

(** The lines are whole but for the last when it is marked incomplete, and their
    sizes are counted. *)
Record buffer_wf (b : OutputBuffer) : Prop := {
  wf_total : total_size b = sum_len (lines b);
  wf_lines : if last_line_incomplete b
             then exists ls l, lines b = ls ++ [l] /\ Forall full_line ls /\ partial_line l
             else Forall full_line (lines b);
}.

Definition within_limits (b : OutputBuffer) : Prop :=
  total_size b <= MAX_OUTPUT_BUFFER_SIZE /\ Z.of_nat (length (lines b)) <= MAX_BUFFER_LINES.

(** Turns a boolean test of the context into comparisons. *)
Ltac bprop H :=
  repeat first [rewrite andb_true_iff in H | rewrite orb_true_iff in H | rewrite Z.leb_le in H
               | rewrite Z.ltb_lt in H | rewrite Z.eqb_eq in H].

(** How many polls a phase can still last. *)
Definition phase_bound (p : SigwinchPhase) : Z :=
  match p with
  | TempResize r => r + MAX_SIGWINCH_PHASE_ATTEMPTS + 1
  | Restore r => r + 1
  | Idle => 0
  end.

Definition phase_wf (p : SigwinchPhase) : Prop :=
  match p with
  | TempResize r | Restore r => 0 <= r <= MAX_SIGWINCH_PHASE_ATTEMPTS
  | Idle => True
  end.

(** Chunks arrive in the channel. *)
Definition arrive (q : list bytes) (s : TerminalSession) : TerminalSession :=
  set_output (match output_rx s with Some q0 => Some (q0 ++ q) | None => None end)
    (output_buffer s) s.

(** Rounds of the polling loop: the chunks that came, the PTY's answers to
    resizes, whether the shell has ended, the time. *)
Fixpoint poll_rounds (rounds : list (list bytes * (Z -> Z -> bool) * bool * Z)) (s : TerminalSession)
  : TerminalSession :=
  match rounds with
  | [] => s
  | (q, resize, ended, now) :: rest => poll_rounds rest (poll resize ended now (arrive q s)).1.1
  end.

(** The length of the character that a byte starts. *)
Definition lead_width (b : Z) : nat :=
  if b <? 224 then 2%nat else if b <? 240 then 3%nat else 4%nat.

Definition lead_len (b : Z) : option nat :=
  if Z.land b 224 =? 192 then Some 2%nat
  else if Z.land b 240 =? 224 then Some 3%nat
  else if Z.land b 248 =? 240 then Some 4%nat
  else None.

Fixpoint unsplit (ps : list bytes) : bytes :=
  match ps with
  | [] => []
  | [l] => l
  | l :: ps' => l ++ NEWLINE :: unsplit ps'
  end.

(** The lines that the loop pushes. *)
Fixpoint pieces_lines (ends : bool) (ps : list bytes) : list bytes :=
  match ps with
  | [] => []
  | [l] => match l with [] => [] | _ => [if ends then l ++ [NEWLINE] else l] end
  | l :: ps' => (l ++ [NEWLINE]) :: pieces_lines ends ps'
  end.

(** The lines of a text, each with its newline. *)
Fixpoint split_lines (s : bytes) : list bytes :=
  match s with
  | [] => []
  | c :: s =>
      if c =? NEWLINE then [c] :: split_lines s
      else match split_lines s with [] => [[c]] | l :: ls => (c :: l) :: ls end
  end.

Definition keeps_tail (ls : list bytes) (b : OutputBuffer) (ds : list bytes) : Prop :=
  ls = ds ++ lines b
  /\ (ds = [] \/ exists d, last ds = Some d
      /\ (MAX_OUTPUT_BUFFER_SIZE < total_size b + blen d
          \/ MAX_BUFFER_LINES < Z.of_nat (S (length (lines b))))).

Definition waiting (s : TerminalSession) : list bytes :=
  match output_rx s with Some q => q | None => [] end.

Definition replay_of (pending : option bytes) : list bytes :=
  match pending with Some (x :: b) => [x :: b] | _ => [] end.

Definition sample_session : TerminalSession :=
  mk (Some [[104; 105]; [10]]) (Buffer.mk [[97; 10]] 2 false) true true 7 24 80 false 0 Closed.

(** * Theorems *)

Example utf8_split_points :
  find_utf8_split_point <$> [[104; 105]; [228; 184; 173]; [97; 228; 184]; [255; 228]; [128; 129; 130]]
  = [2; 3; 1; 1; 3]%nat.
Proof. vm_compute. reflexivity. Qed.

Example utf8_accumulators :
  (fun cs => (feed (Utf8.mk []) cs).2)
    <$> [[[228]; [184]; [173]]; [[97; 228]]; [[255]]; [[255; 228]]]
  = [[[228; 184; 173]]; [[97]]; [[255]]; [[255; 228]]].
Proof. vm_compute. reflexivity. Qed.

(** ** Bytes *)

Lemma byte_cases (P : Z -> bool) :
  forallb (fun i => P (Z.of_nat i)) (seq 0 256) = true -> forall b, 0 <= b < 256 -> P b = true.
Proof.
  intros H b Hb. rewrite forallb_forall in H. specialize (H (Z.to_nat b)).
  rewrite Z2Nat.id in H by lia. apply H. apply in_seq. lia.
Qed.

(** The bit tests of the scan, on the bytes a character can have. *)
Lemma ascii_byte b : 0 <= b < 128 -> (Z.land b 128 =? 0) = true.
Proof.
  intros Hb.
  pose proof (byte_cases (fun b => if b <? 128 then Z.land b 128 =? 0 else true)
    ltac:(vm_compute; reflexivity) b ltac:(lia)) as H. simpl in H.
  rewrite (proj2 (Z.ltb_lt b 128)) in H by lia. done.
Qed.

Lemma cont_byte b : cont b = true -> (Z.land b 128 =? 0) = false /\ (Z.land b 192 =? 128) = true.
Proof.
  intros Hb. apply andb_true_iff in Hb as Hb'. destruct Hb' as [H1%Z.leb_le H2%Z.leb_le].
  pose proof (byte_cases (fun b => if cont b then negb (Z.land b 128 =? 0) && (Z.land b 192 =? 128) else true)
    ltac:(vm_compute; reflexivity) b ltac:(lia)) as H. cbv beta in H. rewrite Hb in H.
  apply andb_true_iff in H as [?%negb_true_iff ?]. done.
Qed.

Lemma lead_byte b :
  194 <= b <= 244 ->
  (Z.land b 128 =? 0) = false /\ (Z.land b 192 =? 128) = false
  /\ lead_len b = Some (lead_width b).
Proof.
  intros Hb.
  pose proof (byte_cases (fun b => if (194 <=? b) && (b <=? 244)
     then negb (Z.land b 128 =? 0) && negb (Z.land b 192 =? 128)
          && match lead_len b with Some k => (k =? lead_width b)%nat | None => false end
     else true)
    ltac:(vm_compute; reflexivity) b ltac:(lia)) as H. cbv beta in H.
  rewrite (proj2 (Z.leb_le 194 b)), (proj2 (Z.leb_le b 244)) in H by lia. simpl in H.
  rewrite !andb_true_iff, !negb_true_iff in H. destruct H as [[? ?] H].
  destruct (lead_len b); [|done]. apply Nat.eqb_eq in H as ->. done.
Qed.

(** What the tests on a character say of its bytes. *)
Lemma char_shape ch :
  is_char ch ->
  exists a t, ch = a :: t /\ Forall (fun b => cont b = true) t
  /\ (t = [] /\ 0 <= a < 128 \/ 194 <= a <= 244 /\ length ch = lead_width a).
Proof.
  destruct ch as [|a [|b [|c [|d [|e ch]]]]]; simpl; try done; intros H; exists a; unfold lead_width.
  - exists []. auto.
  - exists [b]. unfold char2 in H. bprop H. destruct H as [H Hb]. split; [done|]. split; [by repeat constructor|]. right.
    rewrite (proj2 (Z.ltb_lt a 224)) by lia. lia.
  - exists [b; c]. assert (cont b = true /\ cont c = true /\ 224 <= a < 240) as (Hb & Hc & ?).
    { unfold char3, cont in *. bprop H. rewrite !andb_true_iff, !Z.leb_le. lia. }
    split; [done|]. split; [by repeat constructor|]. right.
    rewrite (proj2 (Z.ltb_ge a 224)), (proj2 (Z.ltb_lt a 240)) by lia. lia.
  - exists [b; c; d]. assert (cont b = true /\ cont c = true /\ cont d = true /\ 240 <= a <= 244)
      as (Hb & Hc & Hd & ?).
    { unfold char4, cont in *. bprop H. rewrite !andb_true_iff, !Z.leb_le. lia. }
    split; [done|]. split; [by repeat constructor|]. right.
    rewrite (proj2 (Z.ltb_ge a 224)), (proj2 (Z.ltb_ge a 240)) by lia. lia.
Qed.

(** ** Valid text is a list of characters *)

Lemma not_ascii a : 194 <= a -> (0 <=? a) && (a <? 128) = false.
Proof. intros. apply not_true_iff_false. intros C. bprop C. lia. Qed.

Lemma not_char2 a b : 224 <= a -> char2 a b = false.
Proof. intros. apply not_true_iff_false. intros C. unfold char2 in C. bprop C. lia. Qed.

Lemma not_char3 a b c : 240 <= a -> char3 a b c = false.
Proof. intros. apply not_true_iff_false. intros C. unfold char3 in C. bprop C. lia. Qed.

Lemma ok_char ch r : is_char ch -> from_utf8_ok (ch ++ r) = from_utf8_ok r.
Proof.
  intros H. destruct (char_shape ch H) as (a & t & -> & Ht & Ha).
  assert (forall n, length (a :: t) = n -> (2 <= n)%nat ->
    194 <= a /\ (n = 3%nat -> 224 <= a) /\ (n = 4%nat -> 240 <= a)) as Hn.
  { intros n En Hn. destruct Ha as [[-> _]|[? Hl]]; [simpl in En; lia|].
    rewrite En in Hl. unfold lead_width in Hl. zbool; lia. }
  destruct t as [|b [|c [|d [|e t]]]]; simpl in H |- *; try done.
  - rewrite (proj2 (Z.leb_le 0 a)), (proj2 (Z.ltb_lt a 128)) by lia. done.
  - destruct (Hn 2%nat eq_refl ltac:(lia)) as (? & _ & _). by rewrite not_ascii, H.
  - destruct (Hn 3%nat eq_refl ltac:(lia)) as (? & ? & _). rewrite not_ascii, not_char2, H; auto.
  - destruct (Hn 4%nat eq_refl ltac:(lia)) as (? & _ & ?).
    rewrite not_ascii, not_char2, not_char3, H by auto with lia. done.
Qed.

Lemma ok_cases s :
  from_utf8_ok s = true -> s = [] \/ exists ch r, is_char ch /\ s = ch ++ r /\ from_utf8_ok r = true.
Proof.
  destruct s as [|a s1]; [by left|]. right. simpl in H.
  destruct ((0 <=? a) && (a <? 128)) eqn:E1.
  { exists [a], s1. apply andb_true_iff in E1 as [?%Z.leb_le ?%Z.ltb_lt]. by simpl. }
  destruct s1 as [|b s2]; [done|]. destruct (char2 a b) eqn:E2; [by exists [a; b], s2|].
  destruct s2 as [|c s3]; [done|]. destruct (char3 a b c) eqn:E3; [by exists [a; b; c], s3|].
  destruct s3 as [|d s4]; [done|]. apply andb_true_iff in H as [? ?]. by exists [a; b; c; d], s4.
Qed.

Lemma is_char_nonempty ch : is_char ch -> ch <> [].
Proof. by destruct ch. Qed.

Lemma ok_app v w : from_utf8_ok v = true -> from_utf8_ok (v ++ w) = from_utf8_ok w.
Proof.
  induction v as [v IH] using (induction_ltof1 _ (@length Z)); unfold ltof in IH. intros H.
  destruct (ok_cases v H) as [->|(ch & r & Hc & -> & Hr)]; [done|].
  rewrite <- app_assoc, ok_char by done. apply IH; [|done].
  rewrite length_app. apply is_char_nonempty in Hc. destruct ch; [done|simpl; lia].
Qed.

(** A prefix of valid text is valid text and the beginning of a character. *)
Lemma ok_prefix p t :
  from_utf8_ok (p ++ t) = true ->
  exists v q, p = v ++ q /\ from_utf8_ok v = true /\ is_partial q.
Proof.
  induction p as [p IH] using (induction_ltof1 _ (@length Z)); unfold ltof in IH. intros H.
  destruct (ok_cases (p ++ t) H) as [E|(ch & r & Hc & E & Hr)].
  { apply app_nil in E as [-> ->]. exists [], []. split; [done|]. split; [done|by left]. }
  apply app_eq_inv in E as [(k & -> & ->)|(k & -> & ->)].
  - destruct (IH k) as (v & q & -> & Hv & Hq).
    { rewrite length_app. apply is_char_nonempty in Hc. destruct ch; [done|simpl; lia]. }
    { done. }
    exists (ch ++ v), q. rewrite <- app_assoc, ok_char by done. done.
  - destruct (decide (p = [])) as [->|Hp].
    { exists [], []. split; [done|]. split; [done|by left]. }
    destruct (decide (k = [])) as [->|Hk].
    + rewrite app_nil_r in Hc. exists p, []. rewrite app_nil_r. split; [done|].
      split; [|by left]. by rewrite <- (app_nil_r p), ok_char.
    + exists [], p. split; [done|]. split; [done|]. right. by exists k.
Qed.

(** Valid text ends in a character. *)
Lemma ok_last v :
  from_utf8_ok v = true -> v = [] \/ exists v' ch, v = v' ++ ch /\ is_char ch.
Proof.
  induction v as [v IH] using (induction_ltof1 _ (@length Z)); unfold ltof in IH. intros H.
  destruct (ok_cases v H) as [->|(ch & r & Hc & -> & Hr)]; [by left|]. right.
  destruct (IH r) as [->|(v' & ch' & -> & ?)]; [|done| |].
  { rewrite length_app. apply is_char_nonempty in Hc. destruct ch; [done|simpl; lia]. }
  - exists [], ch. by rewrite app_nil_r.
  - exists (ch ++ v'), ch'. by rewrite app_assoc.
Qed.

(** ** The split point *)

Lemma split_scan_step n start buf b :
  buf !! (start + n)%nat = Some b ->
  split_scan (S n) start buf =
    if Z.land b 128 =? 0 then length buf
    else if Z.land b 192 =? 128 then split_scan n start buf
    else match lead_len b with
         | None => length buf
         | Some k => if (k <=? length buf - (start + n))%nat then length buf else (start + n)%nat
         end.
Proof. intros E. cbn [split_scan]. rewrite E. reflexivity. Qed.

(** Continuation bytes are passed over. *)
Lemma split_scan_conts m n start buf :
  (forall i, (n <= i < n + m)%nat -> exists b, buf !! (start + i)%nat = Some b /\ cont b = true) ->
  split_scan (n + m) start buf = split_scan n start buf.
Proof.
  induction m as [|m IH]; intros H; [by rewrite Nat.add_0_r|].
  replace (n + S m)%nat with (S (n + m)) by lia.
  destruct (H (n + m)%nat ltac:(lia)) as (b & Hb & Hc). rewrite (split_scan_step _ _ _ b Hb).
  apply cont_byte in Hc as [-> ->]. apply IH. intros i Hi. apply H. lia.
Qed.

(** The scan of a text that ends with the first [j] bytes of a character, those
    behind its lead byte being continuation bytes. *)
Lemma split_at_lead v a t :
  Forall (fun b => cont b = true) t -> (length t <= 2)%nat -> 194 <= a <= 244 ->
  find_utf8_split_point (v ++ a :: t)
  = if (lead_width a <=? S (length t))%nat then length (v ++ a :: t) else length v.
Proof.
  intros Ht Hl Ha. unfold find_utf8_split_point.
  destruct (v ++ a :: t) as [|z zs] eqn:E; [by apply app_nil in E as [_ ?]|]. rewrite <- E. clear E z zs.
  set (buf := v ++ a :: t). set (start := (length buf - 3)%nat). cbv zeta.
  assert (length buf = length v + S (length t))%nat as El by (subst buf; by rewrite length_app).
  assert (length buf - start = S (length v - start) + length t)%nat as -> by (subst start; lia).
  assert (forall i, (length v < i < length buf)%nat -> exists b, buf !! i = Some b /\ cont b = true) as Hc.
  { intros i Hi. subst buf. rewrite lookup_app_r by lia.
    replace (i - length v)%nat with (S (i - length v - 1)) by lia. simpl.
    destruct (lookup_lt_is_Some_2 t (i - length v - 1)) as [b Hb]; [lia|]. exists b. split; [done|].
    exact (Forall_lookup_1 _ _ _ _ Ht Hb). }
  rewrite split_scan_conts by (intros i Hi; apply Hc; subst start; lia).
  assert (buf !! (start + (length v - start))%nat = Some a) as Hb.
  { subst buf. rewrite list_lookup_middle; [done|subst start; lia]. }
  rewrite (split_scan_step _ _ _ a Hb).
  destruct (lead_byte a Ha) as (-> & -> & ->).
  replace (start + (length v - start))%nat with (length v) by (subst start; lia).
  replace (length buf - length v)%nat with (S (length t)) by lia. done.
Qed.

Lemma split_point_ascii v a : 0 <= a < 128 -> find_utf8_split_point (v ++ [a]) = length (v ++ [a]).
Proof.
  intros Ha. unfold find_utf8_split_point.
  destruct (v ++ [a]) as [|z zs] eqn:E; [by apply app_nil in E as [_ ?]|]. rewrite <- E. clear E z zs.
  cbv zeta. rewrite length_app. cbn [length].
  replace (length v + 1 - (length v + 1 - 3))%nat with (S (length v - (length v + 1 - 3))) by lia.
  rewrite (split_scan_step _ _ _ a).
  - rewrite ascii_byte by done. by rewrite length_app.
  - rewrite list_lookup_middle; [done|lia].
Qed.

(** Four bytes: the lead byte is out of the scan's sight. *)
Lemma split_point_conts v b c d :
  cont b = true -> cont c = true -> cont d = true ->
  find_utf8_split_point (v ++ [b; c; d]) = length (v ++ [b; c; d]).
Proof.
  intros Hb Hc Hd. unfold find_utf8_split_point.
  destruct (v ++ [b; c; d]) as [|z zs] eqn:E; [by apply app_nil in E as [_ ?]|]. rewrite <- E. clear E z zs.
  cbv zeta. rewrite length_app. cbn [length].
  replace (length v + 3 - (length v + 3 - 3))%nat with (0 + 3)%nat by lia.
  replace (length v + 3 - 3)%nat with (length v) by lia.
  rewrite split_scan_conts; [cbn [split_scan]; by rewrite length_app|].
  intros i Hi. rewrite lookup_app_r by lia. replace (length v + i - length v)%nat with i by lia.
  destruct i as [|[|[|i]]]; [by exists b|by exists c|by exists d|lia].
Qed.

Lemma split_point_valid v :
  from_utf8_ok v = true -> find_utf8_split_point v = length v.
Proof.
  intros H. destruct (ok_last v H) as [->|(v' & ch & -> & Hc)]; [done|].
  destruct (char_shape ch Hc) as (a & t & -> & Ht & [[-> Ha]|[Ha Hl]]); [by apply split_point_ascii|].
  destruct (decide (length t <= 2)%nat) as [Hle|Hgt].
  - rewrite split_at_lead by done. simpl in Hl. by rewrite <- Hl, (proj2 (Nat.leb_le _ _)) by lia.
  - destruct t as [|b [|c [|d [|e t]]]]; simpl in Hl, Hgt; try lia.
    + rewrite !Forall_cons in Ht. destruct Ht as (? & ? & ? & _).
      replace (v' ++ [a; b; c; d]) with ((v' ++ [a]) ++ [b; c; d]) by (by rewrite <- app_assoc).
      by apply split_point_conts.
    + unfold lead_width in Hl. zbool; lia.
Qed.

Lemma split_point_partial v q :
  is_partial q -> q <> [] -> find_utf8_split_point (v ++ q) = length v.
Proof.
  intros [->|(r & _ & Hr & Hc)] Hq; [done|].
  destruct (char_shape _ Hc) as (a & t & E & Ht & Ha). destruct q as [|x q]; [done|].
  injection E as -> Et.
  assert (q ++ r <> []) as Hne by (by destruct q).
  destruct Ha as [[Ha _]|[Ha Hl]]; [by rewrite Et in Hne|].
  assert (length (a :: q) < lead_width a)%nat as Hlt.
  { rewrite <- Hl, length_app. destruct r; [done|simpl; lia]. }
  assert (lead_width a <= 4)%nat by (unfold lead_width; zbool; lia). simpl in Hlt.
  rewrite <- Et in Ht. apply Forall_app in Ht as [Ht _].
  rewrite split_at_lead by (done || lia). by rewrite (proj2 (Nat.leb_gt _ _)) by lia.
Qed.

(** ** The accumulator *)

Lemma split_point_le buf : (find_utf8_split_point buf <= length buf)%nat
  /\ (length buf <= find_utf8_split_point buf + 3)%nat.
Proof.
  unfold find_utf8_split_point. destruct buf as [|b buf]; [simpl; lia|]. cbv zeta.
  set (l := b :: buf). assert (forall n start, (start + n <= length l)%nat -> (length l <= start + 3)%nat ->
    (split_scan n start l <= length l)%nat /\ (length l <= split_scan n start l + 3)%nat) as H.
  { induction n as [|n IH]; intros start H1 H2; [simpl; lia|].
    destruct (l !! (start + n)%nat) as [x|] eqn:E; [|cbn [split_scan]; rewrite E; lia].
    rewrite (split_scan_step _ _ _ x E). pose proof (IH start ltac:(lia) ltac:(lia)).
    destruct (_ =? 0); [lia|]. destruct (_ =? 128); [done|]. destruct (lead_len x); [|lia].
    destruct (_ <=? _)%nat; lia. }
  apply H; lia.
Qed.

Lemma push_chunk_bytes acc data :
  let '(acc', o) := push_chunk acc data in
  remainder acc ++ data = default [] o ++ remainder acc' /\ o <> Some []
  /\ (length (remainder acc') <= Nat.max 3 (length (remainder acc)))%nat.
Proof.
  unfold push_chunk. destruct data as [|x data]; [simpl; rewrite app_nil_r; split; [done|split; [done|lia]]|]. set (dt := x :: data).
  assert ((if negb (bool_decide (remainder acc = [])) then remainder acc ++ dt else dt)
          = remainder acc ++ dt) as -> by (case_bool_decide as E; [by rewrite E|done]).
  cbv zeta. set (all := remainder acc ++ dt).
  assert (all <> []) as Hne by (subst all dt; by destruct (remainder acc)).
  destruct (split_point_le all) as [H1 H2].
  destruct (Nat.eqb_spec (find_utf8_split_point all) (length all)).
  { rewrite app_nil_r. split; [done|]. split; [congruence|simpl; lia]. }
  destruct (_ && _ && _).
  { rewrite app_nil_r. split; [done|]. split; [congruence|simpl; lia]. }
  simpl. rewrite length_drop. split; [|split; [by destruct (take _ all)|lia]].
  rewrite <- (take_drop (find_utf8_split_point all) all) at 1. by destruct (take _ all).
Qed.

Lemma feed_bytes chunks acc :
  let '(acc', outs) := feed acc chunks in
  remainder acc ++ concat chunks = concat outs ++ remainder acc'
  /\ (length (remainder acc') <= Nat.max 3 (length (remainder acc)))%nat.
Proof.
  revert acc. induction chunks as [|c cs IH]; intros acc; simpl; [by rewrite app_nil_r; split; [|lia]|].
  pose proof (push_chunk_bytes acc c) as H. destruct (push_chunk acc c) as [acc1 o].
  destruct H as (E & _ & Hl). specialize (IH acc1). destruct (feed acc1 cs) as [acc2 os].
  destruct IH as [IH Hl2]. split; [|lia].
  rewrite app_assoc, E, <- app_assoc, IH. destruct o; simpl; [by rewrite app_assoc|done].
Qed.

(** A step on text that may still become valid. *)
Lemma push_chunk_valid acc data tail :
  is_partial (remainder acc) -> from_utf8_ok (remainder acc ++ data ++ tail) = true ->
  let '(acc', o) := push_chunk acc data in
  is_partial (remainder acc') /\ from_utf8_ok (default [] o) = true
  /\ from_utf8_ok (remainder acc' ++ tail) = true.
Proof.
  intros Hp H. pose proof (push_chunk_bytes acc data) as E.
  unfold push_chunk in *. destruct data as [|x data]; [done|]. set (dt := x :: data) in *.
  assert ((if negb (bool_decide (remainder acc = [])) then remainder acc ++ dt else dt)
          = remainder acc ++ dt) as E' by (case_bool_decide as E'; [by rewrite E'|done]).
  rewrite E' in *. cbv zeta in *. set (all := remainder acc ++ dt) in *.
  rewrite app_assoc in H. fold all in H. destruct (ok_prefix all tail H) as (v & q & Ea & Hv & Hq).
  destruct (decide (q = [])) as [->|Hne].
  - rewrite app_nil_r in Ea. rewrite Ea in *. rewrite split_point_valid, Nat.eqb_refl in * by done.
    simpl. split; [by left|]. split; [done|]. by rewrite ok_app in H.
  - rewrite Ea in *. rewrite split_point_partial in * by done.
    assert ((length v =? length (v ++ q))%nat = false) as ->.
    { apply Nat.eqb_neq. rewrite length_app. destruct q; [done|simpl; lia]. }
    rewrite take_app_length, drop_app_length, Hv in *. rewrite andb_false_r in *. simpl.
    split; [done|]. split; [by destruct v|]. by rewrite <- app_assoc, ok_app in H.
Qed.

Lemma feed_valid chunks acc tail :
  is_partial (remainder acc) -> from_utf8_ok (remainder acc ++ concat chunks ++ tail) = true ->
  let '(acc', outs) := feed acc chunks in
  is_partial (remainder acc') /\ Forall (fun o => from_utf8_ok o = true) outs
  /\ from_utf8_ok (remainder acc' ++ tail) = true.
Proof.
  revert acc. induction chunks as [|c cs IH]; intros acc Hp H; simpl in *; [done|].
  rewrite <- app_assoc in H. pose proof (push_chunk_valid acc c (concat cs ++ tail) Hp H) as Hs.
  destruct (push_chunk acc c) as [acc1 o]. destruct Hs as (Hp1 & Ho & H1).
  specialize (IH acc1 Hp1 H1). destruct (feed acc1 cs) as [acc2 os]. destruct IH as (? & ? & ?).
  split; [done|]. split; [|done]. destruct o; [by constructor|done].
Qed.

(** The accumulator neither loses nor reorders output and holds back at most
    three bytes; and however the reads cut the text, as long as the stream is
    the beginning of valid UTF-8 every chunk it passes on is valid UTF-8, with
    nothing left over when the stream ends there. *)
Theorem accumulator_cuts_at_characters (chunks : list bytes) :
  let '(acc, outs) := feed (Utf8.mk []) chunks in
  concat chunks = concat outs ++ remainder acc
  /\ (length (remainder acc) <= 3)%nat
  /\ (forall tail, from_utf8_ok (concat chunks ++ tail) = true ->
      Forall (fun o => from_utf8_ok o = true) outs)
  /\ (from_utf8_ok (concat chunks) = true -> finish acc = (acc, None)).
Proof.
  pose proof (feed_bytes chunks (Utf8.mk [])) as Hb. pose proof (fun tail => feed_valid chunks (Utf8.mk []) tail) as Hv.
  destruct (feed (Utf8.mk []) chunks) as [acc outs]. simpl in Hb, Hv. destruct Hb as [Hb Hl].
  split; [done|]. split; [lia|]. split.
  - intros tail Ht. by apply (Hv tail); [left|].
  - intros H. destruct (Hv []) as (Hp & _ & Hr); [by left|by rewrite app_nil_r|].
    rewrite app_nil_r in Hr. unfold finish. destruct Hp as [->|(r & Hne & Hrne & Hc)]; [done|].
    exfalso. destruct (ok_cases _ Hr) as [?|(ch & s & Hch & E & _)]; [done|].
    destruct (char_shape _ Hc) as (a & t & Ea & _ & Ha), (char_shape _ Hch) as (a' & t' & Ea' & _ & Ha').
    rewrite E, Ea' in Ea. injection Ea as -> Et. assert (length r <> 0)%nat by (by destruct r).
    apply (f_equal length) in Et as Etl. rewrite !length_app in Etl.
    destruct Ha as [[-> ?]|[? Hw]], Ha' as [[-> ?]|[? Hw']]; simpl in Etl; try lia.
    rewrite E, !length_app in Hw. rewrite Ea' in Hw'. rewrite Ea' in Hw. simpl in Hw, Hw'. lia.
Qed.

(** ** The replay buffer *)

Lemma sum_len_cons x a : sum_len (x :: a) = blen x + sum_len a.
Proof. done. Qed.

Lemma sum_len_app a b : sum_len (a ++ b) = sum_len a + sum_len b.
Proof.
  induction a as [|x a IH]; [done|]. rewrite <- app_comm_cons, !sum_len_cons, IH. lia.
Qed.

Lemma sum_len_concat a : sum_len a = blen (concat a).
Proof.
  induction a as [|x a IH]; [done|]. rewrite sum_len_cons, IH. unfold blen. simpl. rewrite length_app. lia.
Qed.

Lemma sum_len_nonneg a : 0 <= sum_len a.
Proof. rewrite sum_len_concat. unfold blen. lia. Qed.

Lemma unsplit_split r : unsplit (Str.split (Str.ch NEWLINE) r) = r.
Proof.
  induction r as [|c r IH]; [done|]. cbn [Str.split]. unfold Str.ch at 1.
  pose proof (Str.split_nonempty (Str.ch NEWLINE) r) as Hne.
  destruct (Z.eqb_spec NEWLINE c) as [<-|].
  - cbn [unsplit]. destruct (Str.split _ r); [done|]. by rewrite IH.
  - destruct (Str.split _ r) as [|l ps]; [done|]. cbn [unsplit] in *.
    destruct ps; simpl in *; congruence.
Qed.

Lemma split_snoc_newline r :
  Str.split (Str.ch NEWLINE) (r ++ [NEWLINE]) = Str.split (Str.ch NEWLINE) r ++ [[]].
Proof.
  induction r as [|c r IH]; [done|]. cbn [app Str.split]. destruct (Str.ch NEWLINE c); [by rewrite IH|].
  rewrite IH. pose proof (Str.split_nonempty (Str.ch NEWLINE) r).
  by destruct (Str.split _ r).
Qed.

Lemma split_snoc_other r c :
  c <> NEWLINE -> exists ps l, Str.split (Str.ch NEWLINE) (r ++ [c]) = ps ++ [l ++ [c]].
Proof.
  intros Hc. induction r as [|d r (ps & l & IH)]; cbn [app Str.split].
  - exists [], []. unfold Str.ch. by destruct (Z.eqb_spec NEWLINE c).
  - rewrite IH. destruct (Str.ch NEWLINE d); [by exists ([] :: ps), l|].
    destruct ps as [|p ps]; simpl; [by exists [], (d :: l)|by exists ((d :: p) :: ps), l].
Qed.

Lemma push_pieces_spec ends ps b :
  push_pieces ends ps b =
    Buffer.mk (lines b ++ pieces_lines ends ps) (total_size b + sum_len (pieces_lines ends ps))
      (last_line_incomplete b
       || (negb ends && match last ps with Some (_ :: _) => true | _ => false end)).
Proof.
  revert b. induction ps as [|l ps IH]; intros b.
  { destruct b. cbn. by rewrite app_nil_r, Z.add_0_r, andb_false_r, orb_false_r. }
  destruct ps as [|l' ps].
  - cbn [push_pieces pieces_lines last]. destruct l as [|x l]; cbn [bool_decide].
    + rewrite bool_decide_true by done. rewrite andb_false_r. simpl. destruct b.
      by rewrite app_nil_r, Z.add_0_r, andb_false_r, orb_false_r.
    + rewrite bool_decide_false by done. unfold push_line. destruct ends; simpl.
      * by rewrite orb_false_r, Z.add_0_r.
      * by rewrite orb_true_r, Z.add_0_r.
  - change (push_pieces ends (l :: l' :: ps) b)
      with (push_pieces ends (l' :: ps) (push_line b (l ++ [NEWLINE]))).
    rewrite IH. unfold push_line. cbn [lines total_size last_line_incomplete].
    change (pieces_lines ends (l :: l' :: ps)) with ((l ++ [NEWLINE]) :: pieces_lines ends (l' :: ps)).
    rewrite sum_len_cons, <- app_assoc, Z.add_assoc. reflexivity.
Qed.

Lemma pieces_lines_concat ends ps :
  ps <> [] -> (ends = true -> last ps = Some []) -> concat (pieces_lines ends ps) = unsplit ps.
Proof.
  intros Hne He. induction ps as [|l ps IH]; [done|]. destruct ps as [|l' ps].
  - simpl. destruct l; [done|]. destruct ends; [by specialize (He eq_refl)|]. simpl. by rewrite app_nil_r.
  - change (concat (pieces_lines ends (l :: l' :: ps)))
      with ((l ++ [NEWLINE]) ++ concat (pieces_lines ends (l' :: ps))).
    rewrite IH by done. rewrite <- app_assoc. reflexivity.
Qed.

(** The loop's lines are whole but for the last one when it is not ended. *)
Lemma pieces_lines_wf ends ps :
  Forall (fun p => NEWLINE ∉ p) ps ->
  if negb ends && match last ps with Some (_ :: _) => true | _ => false end
  then exists ls l, pieces_lines ends ps = ls ++ [l] /\ Forall full_line ls /\ partial_line l
  else Forall full_line (pieces_lines ends ps).
Proof.
  induction 1 as [|l ps Hl Hps IH]; [by rewrite andb_false_r; constructor|].
  destruct ps as [|l' ps].
  - simpl. destruct l as [|x l]; [rewrite andb_false_r; constructor|]. destruct ends; simpl.
    + constructor; [by exists (x :: l)|constructor].
    + exists [], (x :: l). split; [done|]. split; [constructor|done].
  - change (last (l :: l' :: ps)) with (last (l' :: ps)).
    change (pieces_lines ends (l :: l' :: ps)) with ((l ++ [NEWLINE]) :: pieces_lines ends (l' :: ps)).
    assert (full_line (l ++ [NEWLINE])) by (by exists l). destruct (_ && _).
    + destruct IH as (ls & z & -> & ? & ?). exists ((l ++ [NEWLINE]) :: ls), z.
      split; [done|]. split; [by constructor|done].
    + by constructor.
Qed.

Lemma trim_loop_spec ls inc :
  exists ds, let b := trim_loop ls (sum_len ls) inc in
  keeps_tail ls b ds /\ total_size b = sum_len (lines b) /\ within_limits b
  /\ last_line_incomplete b = (if bool_decide (lines b = [] /\ ds <> []) then false else inc).
Proof.
  induction ls as [|l ls IH]; cbn [trim_loop].
  { exists []. change (MAX_OUTPUT_BUFFER_SIZE <? sum_len []) with false.
    change (MAX_BUFFER_LINES <? Z.of_nat (@length bytes [])) with false. simpl.
    split; [split; [done|by left]|]. split; [done|]. split; [split; vm_compute; congruence|].
    by destruct inc. }
  destruct (_ || _) eqn:Eo.
  - assert ((sum_len (l :: ls) <? blen l) = false) as ->.
    { apply Z.ltb_ge. rewrite sum_len_cons. pose proof (sum_len_nonneg ls). lia. }
    replace (sum_len (l :: ls) - blen l) with (sum_len ls) by (rewrite sum_len_cons; lia).
    destruct ls as [|l' ls'] eqn:Els.
    { exists [l]. cbn -[within_limits]. split.
      - split; [done|]. right. exists l. split; [done|]. rewrite sum_len_cons in Eo.
        apply orb_true_iff in Eo as [?%Z.ltb_lt|?%Z.ltb_lt]; [left|right]; simpl in *; lia.
      - split; [done|]. split; [split; vm_compute; congruence|].
        by rewrite bool_decide_true. }
    cbv iota. rewrite <- Els in *. destruct IH as (ds & [E Hd] & Ht & Hw & Hi). exists (l :: ds).
    split; [split; [by rewrite <- app_comm_cons, <- E|]|].
    + right. destruct Hd as [->|(d & Hd & Hd')]; [|exists d; split; [by destruct ds|done]].
      exists l. split; [done|]. simpl in E. rewrite <- E, Ht, <- E. rewrite sum_len_cons in Eo.
      apply orb_true_iff in Eo as [?%Z.ltb_lt|?%Z.ltb_lt]; [left; lia|right; simpl in *; lia].
    + split; [done|]. split; [done|]. rewrite Hi.
      destruct (decide (lines (trim_loop ls (sum_len ls) inc) = [])) as [E'|E'].
      * rewrite E', app_nil_r in E. rewrite !bool_decide_true; [done|done|]. split; [done|congruence].
      * by rewrite !bool_decide_false by (by intros [? _]).
  - exists []. rewrite bool_decide_false by (by intros [_ ?]).
    split; [split; [done|by left]|]. split; [done|]. split; [|done].
    apply orb_false_iff in Eo as [?%Z.ltb_ge ?%Z.ltb_ge]. by split.
Qed.

Lemma split_lines_full t s : NEWLINE ∉ t -> split_lines ((t ++ [NEWLINE]) ++ s) = (t ++ [NEWLINE]) :: split_lines s.
Proof.
  induction t as [|c t IH]; [done|]. rewrite not_elem_of_cons. intros [Hc Ht].
  cbn [app split_lines]. rewrite (proj2 (Z.eqb_neq _ _)) by congruence. by rewrite IH.
Qed.

Lemma split_lines_app ls s : Forall full_line ls -> split_lines (concat ls ++ s) = ls ++ split_lines s.
Proof.
  induction 1 as [|l ls (t & -> & Ht) _ IH]; [done|]. cbn [concat]. rewrite <- app_assoc, split_lines_full, IH by done. done.
Qed.

Lemma split_lines_partial l : partial_line l -> split_lines l = [l].
Proof.
  intros [Hne Hl]. induction l as [|c l IH]; [done|]. apply not_elem_of_cons in Hl as [Hc Hl].
  cbn [split_lines]. rewrite (proj2 (Z.eqb_neq _ _)) by congruence. destruct l; [done|]. by rewrite IH.
Qed.

Lemma split_lines_concat s : concat (split_lines s) = s.
Proof.
  induction s as [|c s IH]; [done|]. cbn [split_lines]. destruct (c =? NEWLINE); [by cbn; rewrite IH|].
  destruct (split_lines s); cbn in *; by rewrite <- IH.
Qed.

(** The lines of a buffer are those of its text. *)
Lemma split_lines_shape (inc : bool) ls :
  (if inc then exists xs x, ls = xs ++ [x] /\ Forall full_line xs /\ partial_line x
   else Forall full_line ls) -> split_lines (concat ls) = ls.
Proof.
  destruct inc.
  - intros (xs & x & -> & Hxs & Hx). rewrite concat_app. cbn [concat]. rewrite app_nil_r, split_lines_app by done.
    by rewrite split_lines_partial.
  - intros H. rewrite <- (app_nil_r (concat ls)), split_lines_app by done. apply app_nil_r.
Qed.

Lemma app_snoc_suffix {A} (ds rest xs : list A) x :
  ds ++ rest = xs ++ [x] -> rest = [] \/ exists r, rest = r ++ [x] /\ xs = ds ++ r.
Proof.
  intros E. destruct (decide (rest = [])) as [|Hne]; [by left|]. right.
  destruct (exists_last Hne) as (r & y & ->). rewrite app_assoc in E.
  apply app_inj_tail in E as [<- <-]. by exists r.
Qed.

Lemma trim_keeps_wf ls (inc : bool) :
  (if inc then exists xs x, ls = xs ++ [x] /\ Forall full_line xs /\ partial_line x
   else Forall full_line ls) ->
  exists ds, let b := trim_loop ls (sum_len ls) inc in
  buffer_wf b /\ keeps_tail ls b ds /\ within_limits b.
Proof.
  intros H. destruct (trim_loop_spec ls inc) as (ds & Hk & Ht & Hw & Hi). exists ds. cbv zeta.
  split; [|done]. constructor; [done|]. rewrite Hi. destruct Hk as [E _].
  case_bool_decide as Hc; [destruct Hc as [-> _]; constructor|].
  destruct inc.
  - destruct H as (xs & x & -> & Hxs & Hx). symmetry in E.
    destruct (app_snoc_suffix _ _ _ _ E) as [E'|(r & -> & ->)].
    + exfalso. apply Hc. split; [done|]. intros ->. rewrite E' in E. simpl in E. by destruct xs.
    + exists r, x. apply Forall_app in Hxs as [_ ?]. done.
  - rewrite E in H. by apply Forall_app in H as [_ ?].
Qed.

(** The part of [append] after the last line has been completed. *)
Lemma append_rest_spec b data :
  buffer_wf b -> last_line_incomplete b = false ->
  exists ds, let b' := append_rest b data in
  buffer_wf b' /\ within_limits b' /\ keeps_tail (split_lines (concat (lines b) ++ data)) b' ds.
Proof.
  intros [Ht Hl] Hinc. rewrite Hinc in Hl. unfold append_rest. rewrite push_pieces_spec, Hinc, Ht.
  cbn [lines total_size last_line_incomplete]. rewrite <- sum_len_app.
  set (ends := bool_decide (last data = Some NEWLINE)). set (ps := Str.split (Str.ch NEWLINE) data).
  assert (Forall (fun p => NEWLINE ∉ p) ps) as Hps.
  { eapply Forall_impl; [apply Str.split_no_sep|]. intros p Hp Hin. rewrite Forall_forall in Hp.
    specialize (Hp _ Hin). unfold Str.ch in Hp. by rewrite Z.eqb_refl in Hp. }
  assert (ends = true -> last ps = Some []) as He.
  { subst ends ps. intros H%bool_decide_eq_true. apply last_Some in H as [r ->].
    rewrite split_snoc_newline. apply last_snoc. }
  set (inc := false || (negb ends && match last ps with Some (_ :: _) => true | _ => false end)).
  assert (Hshape : if inc then exists xs x, lines b ++ pieces_lines ends ps = xs ++ [x] /\ Forall full_line xs /\ partial_line x
                   else Forall full_line (lines b ++ pieces_lines ends ps)).
  { unfold inc. pose proof (pieces_lines_wf ends ps Hps) as H. simpl. destruct (_ && _).
    + destruct H as (ls & l & -> & ? & ?). exists (lines b ++ ls), l.
      split; [by rewrite app_assoc|]. split; [by apply Forall_app|done].
    + by apply Forall_app. }
  destruct (trim_keeps_wf _ _ Hshape) as (ds & W & Hk & Hw).
  exists ds. split; [done|]. split; [done|].
  replace (split_lines _) with (lines b ++ pieces_lines ends ps); [done|].
  rewrite <- (split_lines_shape _ _ Hshape) at 1. f_equal.
  rewrite concat_app, pieces_lines_concat by (done || apply Str.split_nonempty).
    subst ps. by rewrite unsplit_split.
Qed.

Lemma position_Some x l n :
  Buffer.position x l = Some n -> exists t, take (S n) l = t ++ [x] /\ x ∉ t.
Proof.
  revert n. induction l as [|y l IH]; cbn [Buffer.position]; intros n H; [done|].
  destruct (Z.eqb_spec y x) as [->|].
  - injection H as <-. exists []. split; [done|]. apply not_elem_of_nil.
  - destruct (Buffer.position x l) as [m|]; [|done]. injection H as <-.
    destruct (IH m eq_refl) as (t & E & Ht). exists (y :: t). cbn [take]. rewrite E. split; [done|].
    rewrite not_elem_of_cons. done.
Qed.

Lemma position_None x l : Buffer.position x l = None <-> x ∉ l.
Proof.
  induction l as [|y l IH]; cbn [Buffer.position]; [split; [intros _; apply not_elem_of_nil|done]|].
  rewrite not_elem_of_cons. destruct (Z.eqb_spec y x) as [->|].
  - split; [done|]. by intros [? _].
  - destruct (Buffer.position x l); simpl.
    + split; [done|]. intros [_ H]. by apply IH in H.
    + split; [|done]. intros _. split; [congruence|]. by apply IH.
Qed.

Lemma extend_last_spec b ls l data inc :
  lines b = ls ++ [l] ->
  extend_last b data inc = Buffer.mk (ls ++ [l ++ data]) (total_size b + blen data) inc.
Proof. intros E. unfold extend_last. rewrite E, last_snoc, removelast_last. done. Qed.

Lemma append_spec b data :
  buffer_wf b ->
  let b' := append b data in
  buffer_wf b'
  /\ (exists ds, keeps_tail (split_lines (concat (lines b) ++ data)) b' ds)
  /\ (within_limits b -> last_line_incomplete b = false \/ NEWLINE ∈ data -> within_limits b').
Proof.
  intros W.
  cbv zeta. unfold append. destruct data as [|x data].
  { rewrite app_nil_r. split; [done|]. split; [|done]. exists [].
    split; [by apply (split_lines_shape (last_line_incomplete b)), wf_lines|by left]. }
  set (dt := x :: data). destruct W as [Ht Hl]. destruct (last_line_incomplete b) eqn:Hinc.
  - destruct Hl as (ls & l & El & Hls & Hne & Hl).
    assert (last (lines b) = Some l) as -> by (by rewrite El, last_snoc).
    destruct (Buffer.position NEWLINE dt) as [n|] eqn:Ep.
    + rewrite (extend_last_spec b ls l _ _ El). destruct (position_Some _ _ _ Ep) as (t & Et & Hnt).
      destruct (append_rest_spec (Buffer.mk (ls ++ [l ++ take (S n) dt])
        (total_size b + blen (take (S n) dt)) false) (drop (S n) dt)) as (ds & W & Hw & Hk).
      * constructor; cbn [lines total_size last_line_incomplete].
        -- rewrite Ht, El, !sum_len_app, !sum_len_cons. unfold blen. rewrite length_app. lia.
        -- apply Forall_app. split; [done|]. constructor; [|constructor]. rewrite Et.
           exists (l ++ t). rewrite app_assoc. split; [done|]. by apply not_elem_of_app.
      * done.
      * split; [exact W|]. split; [|intros _ _; exact Hw]. exists ds. cbn [lines] in Hk.
        replace (concat (lines b) ++ dt) with (concat (ls ++ [l ++ take (S n) dt]) ++ drop (S n) dt); [exact Hk|].
        rewrite El, !concat_app. cbn [concat]. rewrite !app_nil_r, <- !app_assoc. by rewrite take_drop.
    + rewrite (extend_last_spec b ls l _ _ El). split; [constructor; cbn [lines total_size last_line_incomplete]|].
      * rewrite Ht, El, !sum_len_app, !sum_len_cons. unfold blen. rewrite length_app. lia.
      * exists ls, (l ++ dt). split; [done|]. split; [done|]. split; [by destruct l|].
        apply not_elem_of_app. split; [done|]. by apply position_None.
      * split; [|intros _ [?|Hin]; [done|]; by apply position_None in Ep].
        exists []. split; [|by left]. cbn [lines app].
        rewrite <- (split_lines_shape true (ls ++ [l ++ dt])).
        { rewrite El, !concat_app. simpl. by rewrite !app_nil_r, app_assoc. }
        exists ls, (l ++ dt). split; [done|]. split; [done|]. split; [by destruct l|].
        apply not_elem_of_app. split; [done|]. by apply position_None.
  - destruct (append_rest_spec b dt) as (ds & W & Hw & Hk);
      [constructor; [done|by rewrite Hinc]|done|].
    split; [exact W|]. split; [|intros _ _; exact Hw]. by exists ds.
Qed.

(** C38 Appending to a well-formed buffer keeps it so.  The lines kept are the last
    lines of what it held followed by the new data: those dropped are whole lines from
    the front, and with the last of them the buffer would exceed its limit of bytes or
    of lines.  The limits hold afterwards unless the data continued an unfinished line
    without ending it. *)
Theorem append_keeps_the_tail (b : OutputBuffer) (data : bytes) (W : buffer_wf b) :
  let b' := append b data in
  buffer_wf b'
  /\ (exists ds, keeps_tail (split_lines (concat (lines b) ++ data)) b' ds)
  /\ (within_limits b -> last_line_incomplete b = false \/ NEWLINE ∈ data -> within_limits b').
Proof. by apply append_spec. Qed.

Lemma split_no_newline c : NEWLINE ∉ c -> Str.split (Str.ch NEWLINE) c = [c].
Proof.
  induction c as [|x c IH]; [done|]. rewrite not_elem_of_cons. intros [Hx Hc].
  cbn [Str.split]. unfold Str.ch at 1. destruct (Z.eqb_spec NEWLINE x); [done|]. by rewrite IH.
Qed.

Lemma append_unterminated b l c :
  lines b = [l] -> last_line_incomplete b = true -> c <> [] -> NEWLINE ∉ c ->
  append b c = Buffer.mk [l ++ c] (total_size b + blen c) true.
Proof.
  intros El Hi Hc Hn. unfold append. destruct c as [|x c]; [done|]. rewrite Hi, El. cbn [last].
  rewrite (proj2 (position_None _ _) Hn). by rewrite (extend_last_spec b [] l).
Qed.

(** Output without newlines is never trimmed: after any number of chunks that
    hold no newline the buffer holds all of them, however far beyond the limit
    that the constant [MAX_OUTPUT_BUFFER_SIZE] states. *)
Theorem unterminated_output_grows (c : bytes) (n : nat)
    (Hc : c <> []) (Hn : NEWLINE ∉ c) (Hmax : blen c <= MAX_OUTPUT_BUFFER_SIZE) :
  total_size (foldl append new (replicate (S n) c)) = Z.of_nat (S n) * blen c.
Proof.
  enough (exists l, foldl append new (replicate (S n) c) = Buffer.mk [l] (Z.of_nat (S n) * blen c) true)
    as [l ->] by done.
  induction n as [|n [l IH]].
  - exists c. simpl foldl. unfold append, new. destruct c as [|x c'] eqn:E; [done|]. rewrite <- E in *.
    cbn [last_line_incomplete]. unfold append_rest. rewrite split_no_newline by done.
    rewrite bool_decide_false.
    + rewrite push_pieces_spec. cbn [pieces_lines last negb orb andb lines total_size last_line_incomplete].
      rewrite E. rewrite <- E. cbn [app]. rewrite sum_len_cons, E, <- E. change (sum_len []) with 0.
      unfold trim_loop. rewrite (proj2 (Z.ltb_ge _ _)) by lia.
      change (MAX_BUFFER_LINES <? Z.of_nat (length [c])) with false. simpl orb. cbv iota. f_equal. lia.
    + intros Hl. apply last_Some in Hl as [r Er]. apply Hn. rewrite Er. apply elem_of_app. right. by left.
  - exists (l ++ c). rewrite replicate_S_end, foldl_snoc, IH.
    rewrite (append_unterminated _ l) by done. cbn [total_size]. f_equal. lia.
Qed.

(** ** Replay *)

Lemma collect_recent_spec mx rl size chunks :
  size = length (concat chunks) -> (size <= mx)%nat ->
  exists pre, concat (rev rl) ++ concat chunks = pre ++ concat (collect_recent mx rl size chunks)
  /\ (length (concat (collect_recent mx rl size chunks)) <= mx)%nat.
Proof.
  revert size chunks. induction rl as [|line rl IH]; intros size chunks Hs Hle; cbn [collect_recent].
  - exists []. split; [done|lia].
  - cbn [rev]. rewrite concat_app. cbn [concat]. rewrite app_nil_r, <- app_assoc.
    destruct (Nat.ltb_spec mx (size + length line)).
    + destruct (Nat.eqb_spec size 0) as [H0|H0]; cbn [andb].
      * destruct (Nat.ltb_spec mx (length line)); [|lia].
        assert (concat chunks = []) as Hnil by (apply length_zero_iff_nil; lia).
        assert (forall n o, (o <= skip_continuation n line o)%nat) as Hsk.
        { induction n as [|n IHn]; intros o; simpl; [lia|]. destruct (line !! o); [|lia].
          destruct (_ =? _); [|lia]. specialize (IHn (S o)). lia. }
        specialize (Hsk 3%nat (length line - mx)%nat).
        destruct (Nat.ltb_spec (skip_continuation 3 line (length line - mx)) (length line)).
        -- set (o := skip_continuation 3 line (length line - mx)) in *.
           exists (concat (rev rl) ++ take o line). cbn [concat]. rewrite Hnil, !app_nil_r, <- app_assoc, take_drop.
           split; [done|]. rewrite length_drop. lia.
        -- exists (concat (rev rl) ++ line). rewrite Hnil. rewrite !app_nil_r. split; [done|simpl; lia].
      * exists (concat (rev rl) ++ line). rewrite <- app_assoc. split; [done|lia].
    + destruct (IH (size + length line)%nat (line :: chunks)) as (pre & E & Hl).
      * cbn [concat]. rewrite length_app. lia.
      * lia.
      * exists pre. split; [|done]. rewrite <- E. done.
Qed.

Lemma get_recent_spec b n :
  exists pre, concat (lines b) = pre ++ get_recent b n /\ (length (get_recent b n) <= n)%nat.
Proof.
  unfold get_recent. destruct (Nat.eqb_spec n 0) as [->|].
  - exists (concat (lines b)). rewrite app_nil_r. split; [done|simpl; lia].
  - destruct (collect_recent_spec n (rev (lines b)) 0 []) as (pre & E & Hl); [done|lia|].
    rewrite rev_involutive in E. cbn [concat] in E. rewrite app_nil_r in E. by exists pre.
Qed.

Lemma append_suffix b data :
  buffer_wf b -> buffer_wf (append b data)
  /\ exists pre, concat (lines b) ++ data = pre ++ concat (lines (append b data)).
Proof.
  intros W. destruct (append_spec b data W) as (W' & (ds & Ek & _) & _).
  split; [done|]. exists (concat ds). by rewrite <- concat_app, <- Ek, split_lines_concat.
Qed.

Lemma appends_suffix q b :
  buffer_wf b -> buffer_wf (foldl append b q)
  /\ exists pre, concat (lines b) ++ concat q = pre ++ concat (lines (foldl append b q)).
Proof.
  revert b. induction q as [|d q IH]; intros b W; simpl.
  - split; [done|]. exists []. by rewrite app_nil_r.
  - destruct (append_suffix b d W) as (W1 & pre1 & E1). destruct (IH _ W1) as (W2 & pre2 & E2).
    split; [done|]. exists (pre1 ++ pre2). by rewrite app_assoc, E1, <- app_assoc, E2, app_assoc.
Qed.

(** ** Polling *)

(** What a poll does to an active session. *)
Lemma poll_active resize ended now s pending p :
  state s = Active pending p ->
  let '(s', data, _) := poll resize ended now s in
  data = replay_of pending ++ waiting s
  /\ output_buffer s' = foldl append (output_buffer s) (waiting s)
  /\ output_rx s' = (match output_rx s with Some _ => Some [] | None => None end)
  /\ has_pty s' = has_pty s /\ rows s' = rows s /\ cols s' = cols s
  /\ state s' = Active None
       (let '(p1, action) := sigwinch_tick p in
        match action with
        | Some a => sigwinch_advance p1 a (do_sigwinch_resize resize s a)
        | None => p1
        end).
Proof.
  intros E. unfold poll.
  set (s1 := if negb (closed_message_sent s) && ended then _ else s).
  assert (output_rx s1 = output_rx s /\ output_buffer s1 = output_buffer s /\ has_pty s1 = has_pty s
    /\ rows s1 = rows s /\ cols s1 = cols s /\ state s1 = Active pending p) as (E1 & E2 & E3 & E4 & E5 & E6)
    by (subst s1; by destruct (_ && _)).
  clearbody s1. rewrite E1. fold (waiting s). generalize (waiting s) as q. intros q.
  unfold set_output. cbn [state]. rewrite E6.
  destruct (sigwinch_tick p) as [p1 a]. rewrite E2, E3, E4, E5.
  set (s2 := mk _ _ _ _ _ _ _ _ _ _).
  assert (forall a, do_sigwinch_resize resize (match q with [] => s2 | _ => update_activity now s2 end) a
    = do_sigwinch_resize resize s a) as Hd.
  { intros a'. unfold do_sigwinch_resize. by destruct q. }
  split; [done|]. destruct q; (split; [done|]); (split; [done|]); (split; [done|]); (split; [done|]);
    (split; [done|]); destruct a as [a|]; cbn [set_state state]; [|done| |done];
    do 2 f_equal; rewrite <- (Hd a); done.
Qed.

(** What a reconnecting client is sent first is a contiguous end of the
    session's output, in order: the replayed text, at most 8 KiB, followed
    directly by every chunk that was still in the channel or arrived since; the
    session is polled as active and its buffer stays well formed. *)
Theorem reconnect_replays_the_tail (s : TerminalSession) (q more : list bytes)
    (resize : Z -> Z -> bool) (ended : bool) (now : Z)
    (W : buffer_wf (output_buffer s)) (Hq : output_rx s = Some q) :
  let '(s', data, _) := poll resize ended now (arrive more (reconnect s)) in
  (exists pre, concat (lines (output_buffer s)) ++ concat q ++ concat more = pre ++ concat data)
  /\ (exists replay, data = replay ++ drop CHANNEL_BUFFER_SIZE q ++ more
      /\ (length (concat replay) <= 8 * 1024)%nat)
  /\ buffer_wf (output_buffer s') /\ output_rx s' = Some []
  /\ exists p, state s' = Active None p.
Proof.
  unfold reconnect. rewrite Hq. set (backlog := take CHANNEL_BUFFER_SIZE q).
  set (buf := foldl append (output_buffer s) backlog).
  destruct (appends_suffix backlog (output_buffer s) W) as (W1 & pre1 & E1). fold buf in W1, E1.
  destruct (get_recent_spec buf DEFAULT_RECONNECT_BUFFER_BYTES) as (pre2 & E2 & Hl).
  set (buffer := get_recent buf DEFAULT_RECONNECT_BUFFER_BYTES) in *.
  set (received := drop CHANNEL_BUFFER_SIZE q ++ more).
  destruct (appends_suffix received buf W1) as (W2 & _).
  set (s0 := arrive more _).
  set (pending := match buffer with [] => None | _ => Some buffer end).
  assert (state s0 = Active pending (TempResize MAX_SIGWINCH_PHASE_ATTEMPTS)) as Es by done.
  assert (waiting s0 = received) as Ew by done.
  pose proof (poll_active resize ended now s0 _ _ Es) as H.
  destruct (poll resize ended now s0) as [[s1 data] c].
  destruct H as (-> & Hb & Hx & _ & _ & _ & Hst). rewrite Ew in *.
  assert (concat (replay_of pending) = buffer) as Hr
    by (subst pending; destruct buffer; [done|]; cbn [replay_of concat]; by rewrite app_nil_r).
  split; [|split; [|split; [by rewrite Hb|split; [by rewrite Hx|by eexists]]]].
  - exists (pre1 ++ pre2). rewrite concat_app, Hr. subst received. rewrite concat_app.
    rewrite <- (take_drop CHANNEL_BUFFER_SIZE q) at 1. fold backlog. rewrite concat_app.
    rewrite <- !app_assoc. rewrite app_assoc, E1, E2, <- !app_assoc. done.
  - exists (replay_of pending). split; [done|]. rewrite Hr. exact Hl.
Qed.

(** ** The redraw sequence *)

Lemma sigwinch_bound p ok :
  phase_wf p ->
  let '(p1, action) := sigwinch_tick p in
  let p2 := match action with Some a => sigwinch_advance p1 a ok | None => p1 end in
  phase_wf p2 /\ (phase_bound p2 < phase_bound p \/ p = Idle /\ p2 = Idle).
Proof.
  destruct p as [|r|r]; simpl; unfold MAX_SIGWINCH_PHASE_ATTEMPTS; intros H; [by split; [|right]|..];
    (destruct (Z.eqb_spec r 0); simpl; [split; [done|left; lia]|]);
    destruct ok; simpl; unfold MAX_SIGWINCH_PHASE_ATTEMPTS; split; try done; try lia; left; lia.
Qed.

Lemma poll_phase resize ended now s pending p :
  state s = Active pending p -> phase_wf p ->
  exists p', state (poll resize ended now s).1.1 = Active None p' /\ phase_wf p'
  /\ (phase_bound p' < phase_bound p \/ p = Idle /\ p' = Idle).
Proof.
  intros E W. pose proof (poll_active resize ended now s pending p E) as H.
  destruct (poll resize ended now s) as [[s' data] c]. destruct H as (_ & _ & _ & _ & _ & _ & Hs).
  simpl. rewrite Hs. eexists. split; [reflexivity|].
  pose proof (fun ok => sigwinch_bound p ok W) as Hb.
  destruct (sigwinch_tick p) as [p1 [a|]]; [apply Hb|apply (Hb true)].
Qed.

(** The redraw of a reconnected terminal settles: whatever the PTY answers,
    after at most seven polls no resize is pending, and nothing is left to
    replay. *)
Theorem redraw_settles (s : TerminalSession)
    (rounds : list (list bytes * (Z -> Z -> bool) * bool * Z)) (Hn : (7 <= length rounds)%nat) :
  state (poll_rounds rounds (reconnect s)) = Active None Idle.
Proof.
  enough (forall rounds s pending p, state s = Active pending p -> phase_wf p ->
    phase_bound p <= Z.of_nat (length rounds) -> (rounds <> [] \/ pending = None) ->
    state (poll_rounds rounds s) = Active None Idle) as H.
  { eapply (H rounds); [reflexivity| | |].
    - simpl. unfold MAX_SIGWINCH_PHASE_ATTEMPTS. lia.
    - simpl. unfold MAX_SIGWINCH_PHASE_ATTEMPTS. lia.
    - left. intros ->. simpl in Hn. lia. }
  clear. induction rounds as [|[[[q resize] ended] now] rounds IH]; intros s pending p E W Hb Hp; simpl.
  - destruct Hp as [?| ->]; [done|]. rewrite E. destruct p; simpl in *; unfold MAX_SIGWINCH_PHASE_ATTEMPTS in *; try lia. done.
  - destruct (poll_phase resize ended now (arrive q s) pending p) as (p' & E' & W' & Hlt); [done|done|].
    apply (IH _ None p'); [done|done| |by right].
    simpl length in Hb. destruct Hlt as [?|[-> ->]]; simpl in *; lia.
Qed.

(** When the PTY accepts them, a reconnection makes exactly two resizes, on
    two polls: to a size that differs in rows from the real one, then back to
    the real one. *)
Theorem redraw_resizes_and_restores (s : TerminalSession) (q1 q2 : list bytes) (e1 e2 : bool) (t1 t2 : Z)
    (resize : Z -> Z -> bool)
    (Hpty : has_pty s = true) (Hr : 0 < rows s <= Int.umax 16) (Hc : 0 < cols s <= Int.umax 16)
    (Hok : resize (target_rows ActTempResize (rows s)) (cols s) = true)
    (Hok2 : resize (rows s) (cols s) = true) :
  let s1 := (poll resize e1 t1 (arrive q1 (reconnect s))).1.1 in
  let s2 := (poll resize e2 t2 (arrive q2 s1)).1.1 in
  target_rows ActTempResize (rows s) <> rows s
  /\ 0 < target_rows ActTempResize (rows s) <= Int.umax 16
  /\ state s1 = Active None (Restore MAX_SIGWINCH_PHASE_ATTEMPTS)
  /\ state s2 = Active None Idle
  /\ rows s2 = rows s /\ cols s2 = cols s.
Proof.
  assert (forall e t x pending p,
    has_pty x = true -> rows x = rows s -> cols x = cols s -> state x = Active pending p ->
    let x' := (poll resize e t x).1.1 in
    has_pty x' = true /\ rows x' = rows s /\ cols x' = cols s
    /\ (p = TempResize MAX_SIGWINCH_PHASE_ATTEMPTS -> state x' = Active None (Restore MAX_SIGWINCH_PHASE_ATTEMPTS))
    /\ (p = Restore MAX_SIGWINCH_PHASE_ATTEMPTS -> state x' = Active None Idle)) as H.
  { intros e t x pending p Hp Ex Ec Es. pose proof (poll_active resize e t x pending p Es) as H.
    destruct (poll resize e t x) as [[x' data] c]. destruct H as (_ & _ & _ & E1 & E2 & E3 & Hs).
    cbn [fst]. rewrite E1, E2, E3, Hs. split; [done|]. split; [done|]. split; [done|].
    assert (forall act, resize (target_rows act (rows s)) (cols s) = true ->
      do_sigwinch_resize resize x act = true) as Hd.
    { intros act Ha. unfold do_sigwinch_resize. rewrite Hp, Ex, Ec.
      destruct (Z.eqb_spec (rows s) 0), (Z.eqb_spec (cols s) 0); try lia. done. }
    split; intros ->; cbn -[do_sigwinch_resize]; by rewrite Hd. }
  cbv zeta. assert (target_rows ActTempResize (rows s) <> rows s
    /\ 0 < target_rows ActTempResize (rows s) <= Int.umax 16) as [Hne Hrange].
  { unfold target_rows, Int.sat_subu, Int.sat_addu, Int.umax in *. destruct (Z.ltb_spec 2 (rows s)); lia. }
  split; [done|]. split; [done|].
  destruct (H e1 t1 (arrive q1 (reconnect s)) _ _ Hpty eq_refl eq_refl eq_refl) as (P1 & R1 & C1 & S1 & _).
  specialize (S1 eq_refl). split; [done|].
  destruct (H e2 t2 (arrive q2 (poll resize e1 t1 (arrive q1 (reconnect s))).1.1) _ _ P1 R1 C1 S1)
    as (_ & R2 & C2 & _ & S2). by specialize (S2 eq_refl).
Qed.

(** ** Witnesses *)

Lemma append_keeps_the_tail_witness :
  let b := Buffer.mk [[97; 10]; [98]] 3 true in
  let b' := append b [99; 10; 100] in
  buffer_wf b'
  /\ (exists ds, keeps_tail (split_lines (concat (lines b) ++ [99; 10; 100])) b' ds)
  /\ (within_limits b -> last_line_incomplete b = false \/ NEWLINE ∈ [99; 10; 100] -> within_limits b').
Proof.
  apply append_keeps_the_tail. constructor; [reflexivity|].
  exists [[97; 10]], [98]. split; [done|]. split; [repeat constructor; exists [97]; split; [done|decide_now]|].
  split; [done|decide_now].
Defined.

Lemma unterminated_output_grows_witness :
  total_size (foldl append new (replicate 3 [120; 121])) = 3 * 2.
Proof. apply (unterminated_output_grows [120; 121] 2); [done|decide_now|vm_compute; discriminate]. Defined.

Lemma reconnect_replays_the_tail_witness :
  let '(s', data, _) := poll (fun _ _ => true) false 5 (arrive [[122]] (reconnect sample_session)) in
  (exists pre, concat (lines (output_buffer sample_session)) ++ concat [[104; 105]; [10]] ++ concat [[122]]
               = pre ++ concat data)
  /\ (exists replay, data = replay ++ drop CHANNEL_BUFFER_SIZE [[104; 105]; [10]] ++ [[122]]
      /\ (length (concat replay) <= 8 * 1024)%nat)
  /\ buffer_wf (output_buffer s') /\ output_rx s' = Some []
  /\ exists p, state s' = Active None p.
Proof.
  apply (reconnect_replays_the_tail sample_session [[104; 105]; [10]] [[122]]); [|reflexivity].
  constructor; [reflexivity|]. repeat constructor. exists [97]. split; [done|decide_now].
Defined.

Lemma redraw_settles_witness :
  state (poll_rounds (replicate 7 ([], fun _ _ => false, false, 3)) (reconnect sample_session))
  = Active None Idle.
Proof. apply redraw_settles. simpl. lia. Defined.

Lemma redraw_resizes_and_restores_witness :
  let s1 := (poll (fun _ _ => true) false 1 (arrive [] (reconnect sample_session))).1.1 in
  let s2 := (poll (fun _ _ => true) false 2 (arrive [] s1)).1.1 in
  target_rows ActTempResize 24 <> 24
  /\ 0 < target_rows ActTempResize 24 <= Int.umax 16
  /\ state s1 = Active None (Restore MAX_SIGWINCH_PHASE_ATTEMPTS)
  /\ state s2 = Active None Idle
  /\ rows s2 = 24 /\ cols s2 = 80.
Proof.
  apply (redraw_resizes_and_restores sample_session [] [] false false 1 2 (fun _ _ => true));
    first [reflexivity|simpl; unfold Int.umax; lia].
Defined.
