(* ===== verification/Forwarding.v ===== *)
(** * Forwarding: [src/clanto/forwarding/policy.rs] and [catalog.rs]

    Who may open what through a session's forwarding channels: the text of the
    options (lists of destinations, ticked services of the catalogue), the match of
    a destination against a pattern, and the decisions of the side that exposes its
    network.  The options ([Config::get_option]) and the name resolution
    ([lookup_host]) are not code of the repository and are arguments; a decision
    returns, with its result, the names it had resolved. *)

From S2P Require Import Prelude NetAddr.

(** ** [catalog.rs], what the policy uses of it *)

Inductive Direction := ToHost | ToController.

#[export] Instance Direction_eq_dec : EqDecision Direction.
Proof. solve_decision. Defined.

Definition id_char (c : Z) : bool :=
  Str.is_ascii_alphanumeric c || (c =? 45) || (c =? 95) || (c =? 46).

Definition valid_id (id : rstr) : bool :=
  negb (bool_decide (id = [])) && (Str.len id <=? 64) && forallb id_char id.

(** ** Options and refusals *)

Definition OPT_ENABLED : rstr := Str.lit "clanto-forward-enabled".
Definition OPT_SERVICES_HOST : rstr := Str.lit "clanto-forward-services-host".
Definition OPT_SERVICES_CONTROLLER : rstr := Str.lit "clanto-forward-services-controller".
Definition OPT_CUSTOM_HOST : rstr := Str.lit "clanto-forward-custom-host".
Definition OPT_CUSTOM_HOST_TARGETS : rstr := Str.lit "clanto-forward-custom-host-targets".
Definition OPT_REVERSE : rstr := Str.lit "clanto-forward-reverse".
Definition OPT_CUSTOM_CONTROLLER : rstr := Str.lit "clanto-forward-custom-controller".
Definition OPT_CUSTOM_CONTROLLER_TARGETS : rstr :=
  Str.lit "clanto-forward-custom-controller-targets".
Definition OPT_WEBCAM : rstr := Str.lit "clanto-forward-webcam".
Definition OPT_WEBCAM_SEND : rstr := Str.lit "clanto-forward-webcam-send".
Definition OPT_WEBCAM_RECEIVE : rstr := Str.lit "clanto-forward-webcam-receive".

Definition DENIED_DISABLED : rstr := Str.lit "Forwarding is disabled on this device".
Definition DENIED_TARGET : rstr := Str.lit "Forwarding target not allowed".
Definition DENIED_REVERSE : rstr :=
  Str.lit "Forwarding towards the controller is not allowed on this device".
Definition DENIED_WEBCAM : rstr := Str.lit "Webcam forwarding is disabled on this device".
Definition DENIED_WEBCAM_SEND : rstr :=
  Str.lit "Sending this PC's webcam is not allowed on this device".
Definition DENIED_WEBCAM_RECEIVE : rstr :=
  Str.lit "Using the remote PC's webcam is not allowed on this device".

(** ** Patterns *)

Inductive Addr := Any | Name (n : rstr) | Net (net : IpAddr) (bits : Z).

Record Pattern := mkPattern { addr : Addr; ports : Z * Z }.

#[export] Instance Addr_eq_dec : EqDecision Addr.
Proof. solve_decision. Defined.
#[export] Instance Pattern_eq_dec : EqDecision Pattern.
Proof. solve_decision. Defined.

Definition star : rstr := [42].

Definition parse_ports (s : rstr) : option (Z * Z) :=
  if bool_decide (s = star) then Some (1, Int.umax 16)
  else
    let '(a, b) := default (s, s) (Str.split_once (Str.ch 45) s) in
    a ← Str.parse_uint 16 (Str.trim a);
    b ← Str.parse_uint 16 (Str.trim b);
    if (1 <=? a) && (a <=? b) then Some (a, b) else None.

(** [trim_start_matches('[').trim_end_matches(']')]. *)
Definition strip_brackets (s : rstr) : rstr :=
  Str.trim_end_matches (Str.ch 93) (Str.trim_start_matches (Str.ch 91) s).

Definition name_char (c : Z) : bool :=
  Str.is_ascii_alphanumeric c || (c =? 45) || (c =? 46).

Definition parse_addr (s : rstr) : option Addr :=
  if bool_decide (s = star) then Some Any
  else
    let bare := strip_brackets s in
    match Str.split_once (Str.ch 47) bare with
    | Some (ip, bits) =>
        ip ← IpAddr_from_str ip;
        bits ← Str.parse_uint 8 bits;
        let max := if is_ipv4 ip then 32 else 128 in
        if bits <=? max then Some (Net ip bits) else None
    | None =>
        match IpAddr_from_str bare with
        | Some ip => Some (Net ip (if is_ipv4 ip then 32 else 128))
        | None =>
            let name := Str.to_ascii_lowercase bare in
            if negb (bool_decide (name = [])) && (Str.len name <=? 253) && forallb name_char name
            then Some (Name name) else None
        end
    end.

Definition parse_pattern (item : rstr) : option Pattern :=
  '(a, p) ← Str.rsplit_once (Str.ch 58) (Str.trim item);
  a ← parse_addr (Str.trim a);
  p ← parse_ports (Str.trim p);
  Some (mkPattern a p).

Definition list_sep (c : Z) : bool := (c =? 44) || (c =? 59) || Str.is_whitespace c.

Definition parse_item (acc : list Pattern * list rstr) (item : rstr)
  : list Pattern * list rstr :=
  match parse_pattern item with
  | Some p => (acc.1 ++ [p], acc.2)
  | None => (acc.1, acc.2 ++ [item])
  end.

Definition parse_list (l : rstr) : list Pattern * list rstr :=
  foldl parse_item ([], [])
    (List.filter (fun s => negb (bool_decide (s = []))) (Str.split list_sep l)).

Definition parse_service (entry : rstr) : option (rstr * Pattern) :=
  '(id, target) ← Str.split_once (Str.ch 61) (Str.trim entry);
  let id := Str.trim id in
  if valid_id id then
    p ← parse_pattern (Str.trim target);
    Some (id, p)
  else None.

Definition parse_services (value : rstr) : list (rstr * Pattern) :=
  omap parse_service (Str.split (Str.ch 59) value).

Definition services_key (direction : Direction) : rstr :=
  match direction with
  | ToHost => OPT_SERVICES_HOST
  | ToController => OPT_SERVICES_CONTROLLER
  end.

(** ** The match of an address *)

Definition in_net (ip net : IpAddr) (bits : Z) : bool :=
  match ip, net with
  | V4 a, V4 b =>
      let mask := if bits =? 0 then 0 else high_mask 32 bits in
      Z.land a mask =? Z.land b mask
  | V6 a, V6 b =>
      let mask := if bits =? 0 then 0 else high_mask 128 bits in
      Z.land a mask =? Z.land b mask
  | _, _ => false
  end.

Definition is_loopback_name (name : rstr) : bool :=
  Str.eq_ignore_ascii_case name (Str.lit "localhost").

Definition port_ok (p : Pattern) (port : Z) : bool :=
  ((ports p).1 <=? port) && (port <=? (ports p).2).

Definition name_ok (p : Pattern) (name : rstr) : bool :=
  match addr p with
  | Any => true
  | Name n => Str.eq_ignore_ascii_case n name
  | Net _ _ => false
  end.

Definition ip_ok (p : Pattern) (ip : IpAddr) : bool :=
  match addr p with
  | Any => true
  | Net net bits => in_net ip net bits
  | Name n => is_loopback_name n && is_loopback ip
  end.

Definition literal_match (p : Pattern) (host : rstr) (port : Z) : bool :=
  if negb (port_ok p port) then false
  else
    let host := strip_brackets host in
    match IpAddr_from_str host with
    | Some ip => ip_ok p ip
    | None => name_ok p host || (is_loopback_name host && ip_ok p LOCALHOST4)
    end.

Definition is_any_or_net (a : Addr) : bool :=
  match a with Any | Net _ _ => true | Name _ => false end.

Definition may_match (p : Pattern) (host : rstr) (port : Z) : bool :=
  literal_match p host port || (port_ok p port && is_any_or_net (addr p)).

Definition SocketAddr : Type := IpAddr * Z.

Inductive Target := Addrs (l : list SocketAddr).

Definition loopback_addrs (port : Z) : list SocketAddr :=
  [(LOCALHOST4, port); (LOCALHOST6, port)].

Definition check (patterns : list Pattern) (host : rstr) (port : Z) (resolved : list IpAddr)
  : option Target :=
  let host := strip_brackets host in
  match IpAddr_from_str host with
  | Some ip =>
      if existsb (fun p => port_ok p port && ip_ok p ip) patterns
      then Some (Addrs [(ip, port)]) else None
  | None =>
      if is_loopback_name host then
        if existsb (fun p => port_ok p port && (name_ok p host || ip_ok p LOCALHOST4)) patterns
        then Some (Addrs (loopback_addrs port)) else None
      else if existsb (fun p => port_ok p port && name_ok p host) patterns then
        let addrs := (fun ip => (ip, port)) <$> resolved in
        if bool_decide (addrs = []) then None else Some (Addrs addrs)
      else
        let vetted := (fun ip => (ip, port)) <$>
          List.filter (fun ip => existsb (fun p => port_ok p port && ip_ok p ip) patterns) resolved in
        if bool_decide (vetted = []) then None else Some (Addrs vetted)
  end.

(** ** Decisions *)

Record Decision := mkDecision { target : Target; service : rstr }.

Section Decisions.
Context (get_option : rstr -> rstr).
Context (lookup_host : rstr -> Z -> option (list IpAddr)).

Definition on (key : rstr) : bool := bool_decide (get_option key = Str.lit "Y").

(** The addresses, and the name asked of the resolver if any. *)
Definition resolve (host : rstr) (port : Z) : list IpAddr * list (rstr * Z) :=
  let bare := strip_brackets host in
  if bool_decide (is_Some (IpAddr_from_str bare)) || is_loopback_name bare then ([], [])
  else
    match lookup_host bare port with
    | Some addrs => (addrs, [(bare, port)])
    | None => ([], [(bare, port)])
    end.

Definition custom_options (direction : Direction) : bool * rstr :=
  match direction with
  | ToHost => (on OPT_CUSTOM_HOST, OPT_CUSTOM_HOST_TARGETS)
  | ToController => (on OPT_CUSTOM_CONTROLLER, OPT_CUSTOM_CONTROLLER_TARGETS)
  end.

(** [u16::try_from(port).ok().filter(|p| *p > 0)] of an [i32]. *)
Definition valid_port (port : Z) : option Z :=
  if (0 <? port) && (port <=? Int.umax 16) then Some port else None.

Definition authorize_target (direction : Direction) (host : rstr) (port : Z)
  : result Decision rstr * list (rstr * Z) :=
  if negb (on OPT_ENABLED) then (Err DENIED_DISABLED, [])
  else
    match valid_port port with
    | None => (Err DENIED_TARGET, [])
    | Some port =>
        let services := parse_services (get_option (services_key direction)) in
        let service := List.find (fun s => literal_match s.2 host port) services in
        let service_patterns := match service with Some s => [s.2] | None => [] end in
        let '(custom_on, list_key) := custom_options direction in
        let custom_patterns := if custom_on then (parse_list (get_option list_key)).1 else [] in
        if negb (existsb (fun p => may_match p host port) (service_patterns ++ custom_patterns))
        then (Err DENIED_TARGET, [])
        else
          let '(resolved, asked) := resolve host port in
          match service, check service_patterns host port resolved with
          | Some (id, _), Some target => (Ok (mkDecision target id), asked)
          | _, _ =>
              match check custom_patterns host port resolved with
              | Some target => (Ok (mkDecision target []), asked)
              | None => (Err DENIED_TARGET, asked)
              end
          end
    end.

Definition offered_service (entry : rstr) : option (rstr * rstr) :=
  '(id, target) ← Str.split_once (Str.ch 61) (Str.trim entry);
  let '(id, target) := (Str.trim id, Str.trim target) in
  if valid_id id && bool_decide (is_Some (parse_pattern target)) then Some (id, target) else None.

Definition offered_targets (direction : Direction) : result (list (rstr * rstr)) rstr :=
  if negb (on OPT_ENABLED) then Err DENIED_DISABLED
  else
    let '(custom_on, list_key) := custom_options direction in
    let targets := omap offered_service (Str.split (Str.ch 59) (get_option (services_key direction))) in
    Ok (targets ++
        if custom_on then
          (fun item => ([], item)) <$>
          List.filter (fun item => bool_decide (is_Some (parse_pattern item)))
            (Str.split list_sep (get_option list_key))
        else []).

Definition authorize_listen : result unit rstr :=
  if negb (on OPT_ENABLED) then Err DENIED_DISABLED
  else if negb (on OPT_REVERSE) then Err DENIED_REVERSE
  else Ok tt.

Definition authorize_camera : result unit rstr :=
  if negb (on OPT_WEBCAM) then Err DENIED_WEBCAM else Ok tt.

Definition authorize_webcam_send : result unit rstr :=
  match authorize_camera with
  | Err e => Err e
  | Ok _ => if negb (on OPT_WEBCAM_SEND) then Err DENIED_WEBCAM_SEND else Ok tt
  end.

Definition authorize_webcam_receive : result unit rstr :=
  match authorize_camera with
  | Err e => Err e
  | Ok _ => if negb (on OPT_WEBCAM_RECEIVE) then Err DENIED_WEBCAM_RECEIVE else Ok tt
  end.
End Decisions.

(** ** [catalog.rs]: the published catalogue and its cache *)

(** In nanoseconds. *)
Definition REFRESH_AFTER : Z := 60 * 60 * 1000000000.
Definition RETRY_AFTER : Z := 5 * 60 * 1000000000.
Definition MAX_SERVICES : nat := 500.

Module Catalog.
Record Service := mkService {
  id : rstr; name : rstr; kind : rstr; direction : Direction; target : rstr; description : rstr }.

Definition matches (s : Service) (host : rstr) (port : Z) : bool :=
  match parse_pattern (target s) with Some p => literal_match p host port | None => false end.

Definition usable (s : Service) : bool :=
  valid_id (id s) && bool_decide (kind s = Str.lit "tcp")
  && bool_decide (is_Some (parse_pattern (target s))).

(** [parse]; the JSON decoder, an argument, gives the version and the services. *)
Definition parse (decode : rstr -> result (Z * list Service) rstr) (body : rstr)
  : result (list Service) rstr :=
  match decode body with
  | Err e => Err (Str.lit "catalog: " ++ e)
  | Ok (version, services) =>
      if negb (version =? 1)
      then Err (Str.lit "catalog: unsupported version " ++ Str.show_nat version)
      else Ok (take MAX_SERVICES (List.filter usable services))
  end.

(** An instant is a number of nanoseconds; [duration_since] saturates at zero. *)
Record Cache := mkCache { services : list Service; fetched : option Z; next_try : option Z }.

Definition empty_cache : Cache := mkCache [] None None.

Definition is_stale (cache : Cache) (now : Z) : bool :=
  let fresh := match fetched cache with Some t => Z.max 0 (now - t) <? REFRESH_AFTER | None => false end in
  let waiting := match next_try cache with Some t => now <? t | None => false end in
  negb (fresh || waiting).

Definition store (cache : Cache) (now : Z) (r : result (list Service) rstr) : Cache :=
  match r with
  | Ok services => mkCache services (Some now) None
  | Err _ => mkCache (services cache) (fetched cache) (Some (now + RETRY_AFTER))
  end.

(** [refresh_if_stale] called by several tasks at once: each call has read the
    cache and is about to claim the download, or is downloading, or has its result
    to write.  A call is the instant it started at. *)
Record State := mkState {
  cache : Cache; refreshing : bool;
  claiming : list Z; downloading : list Z; writing : list (Z * result (list Service) rstr) }.

Definition initial : State := mkState empty_cache false [] [] [].

Inductive step (decode : rstr -> result (Z * list Service) rstr) : State -> State -> Prop :=
| Look_stale now s :
    is_stale (cache s) now = true ->
    step decode s (mkState (cache s) (refreshing s) (now :: claiming s) (downloading s) (writing s))
| Claim_lost now c1 c2 s :
    claiming s = c1 ++ now :: c2 -> refreshing s = true ->
    step decode s (mkState (cache s) true (c1 ++ c2) (downloading s) (writing s))
| Claim_won now c1 c2 s :
    claiming s = c1 ++ now :: c2 -> refreshing s = false ->
    step decode s (mkState (cache s) true (c1 ++ c2) (now :: downloading s) (writing s))
| Downloaded now d1 d2 body s :
    downloading s = d1 ++ now :: d2 ->
    step decode s (mkState (cache s) false (claiming s) (d1 ++ d2)
      ((now, parse decode body) :: writing s))
| Failed now d1 d2 e s :
    downloading s = d1 ++ now :: d2 ->
    step decode s (mkState (cache s) false (claiming s) (d1 ++ d2) ((now, Err e) :: writing s))
| Write now r w1 w2 s :
    writing s = w1 ++ (now, r) :: w2 ->
    step decode s (mkState (store (cache s) now r) (refreshing s) (claiming s) (downloading s)
      (w1 ++ w2)).
End Catalog.

(** * Specification *)

(** Ports and networks as the parser leaves them. *)
Definition addr_wf (a : Addr) : Prop :=
  match a with
  | Net net bits => ip_wf net /\ 0 <= bits <= ip_width net
  | Name n => n <> [] /\ Forall (fun c => name_char c = true) n /\ Str.to_ascii_lowercase n = n
  | Any => True
  end.
Definition pattern_wf (p : Pattern) : Prop :=
  addr_wf (addr p) /\ 1 <= (ports p).1 <= (ports p).2 /\ (ports p).2 <= Int.umax 16.

(** [ip] shares the leading [bits] of the network. *)
Definition same_prefix (ip net : IpAddr) (bits : Z) : Prop :=
  is_ipv4 ip = is_ipv4 net
  /\ Z.shiftr (ip_num ip) (ip_width net - bits) = Z.shiftr (ip_num net) (ip_width net - bits).

Definition has_ip (a : Addr) (ip : IpAddr) : Prop :=
  match a with
  | Any => True
  | Name n => Str.to_ascii_lowercase n = Str.lit "localhost" /\ is_loopback ip = true
  | Net net bits => same_prefix ip net bits
  end.

Definition has_name (a : Addr) (host : rstr) : Prop :=
  match a with
  | Any => True
  | Name n => Str.to_ascii_lowercase n = Str.to_ascii_lowercase host
  | Net _ _ => False
  end.

Definition has_port (p : Pattern) (port : Z) : Prop := (ports p).1 <= port <= (ports p).2.

(** The pattern admits the request by what it says, without asking the DNS. *)
Definition says (p : Pattern) (host : rstr) (port : Z) : Prop :=
  has_port p port
  /\ match IpAddr_from_str (strip_brackets host) with
     | Some ip => has_ip (addr p) ip
     | None =>
         has_name (addr p) (strip_brackets host)
         \/ is_loopback_name (strip_brackets host) = true /\ has_ip (addr p) LOCALHOST4
     end.

(** The pattern admits a connection to [ip] for this request. *)
Definition admits (p : Pattern) (host : rstr) (port : Z) (ip : IpAddr) : Prop :=
  says p host port
  \/ has_port p port /\ IpAddr_from_str (strip_brackets host) = None
     /\ is_loopback_name (strip_brackets host) = false /\ has_ip (addr p) ip.

(** The addresses a destination stands for, given those of its name. *)
Definition addresses (host : rstr) (resolved : list IpAddr) : list IpAddr :=
  match IpAddr_from_str (strip_brackets host) with
  | Some ip => [ip]
  | None =>
      if is_loopback_name (strip_brackets host) then [LOCALHOST4; LOCALHOST6] else resolved
  end.

Definition connectable (patterns : list Pattern) (host : rstr) (port : Z)
    (resolved : list IpAddr) (a : SocketAddr) : Prop :=
  a.2 = port /\ a.1 ∈ addresses host resolved
  /\ exists p, p ∈ patterns /\ admits p host port a.1.

Definition targets_exactly (P : SocketAddr -> Prop) (t : option Target) : Prop :=
  match t with
  | Some (Addrs l) => l <> [] /\ forall a, a ∈ l <-> P a
  | None => forall a, ~ P a
  end.

(** A list that [parse] can give. *)
Definition catalogue (l : list Catalog.Service) : Prop :=
  (length l <= MAX_SERVICES)%nat /\ Forall (fun s => Catalog.usable s = true) l.

Definition download_inv (s : Catalog.State) : Prop :=
  length (Catalog.downloading s) = (if Catalog.refreshing s then 1 else 0)%nat
  /\ catalogue (Catalog.services (Catalog.cache s))
  /\ (Catalog.fetched (Catalog.cache s) = None -> Catalog.services (Catalog.cache s) = [])
  /\ Forall (fun w => match w.2 with Ok l => catalogue l | Err _ => True end) (Catalog.writing s).

(** Samples: a resolver that knows one name, and a decoder. *)
Definition yes : rstr := Str.lit "Y".

Definition sample_options (key : rstr) : rstr :=
  if bool_decide (key = OPT_ENABLED) then yes
  else if bool_decide (key = OPT_SERVICES_HOST) then Str.lit "rdp=localhost:3389; ssh = 10.0.0.5:22;bad"
  else if bool_decide (key = OPT_CUSTOM_HOST) then yes
  else if bool_decide (key = OPT_CUSTOM_HOST_TARGETS) then Str.lit "192.168.1.0/24:443, nope"
  else [].

Definition sample_lookup (host : rstr) (port : Z) : option (list IpAddr) :=
  if bool_decide (host = Str.lit "nas.lan") then Some [V4 0xcb007109; V4 0xc0a8010a] else None.

Definition no_decoder (body : rstr) : result (Z * list Catalog.Service) rstr := Ok (1, []).

Section Authorized.
Context (get_option : rstr -> rstr).
Context (lookup_host : rstr -> Z -> option (list IpAddr)).

(** The rules in force for a direction: the ticked services, and the custom list
    when it is switched on. *)
Definition services_on (direction : Direction) : list (rstr * Pattern) :=
  parse_services (get_option (services_key direction)).
Definition customs_on (direction : Direction) : list Pattern :=
  let '(custom_on, list_key) := custom_options get_option direction in
  if custom_on then (parse_list (get_option list_key)).1 else [].

(** The rules behind a decision that names [id]. *)
Definition rules_of (direction : Direction) (id : rstr) (rules : list Pattern) : Prop :=
  (exists p, (id, p) ∈ services_on direction /\ rules = [p])
  \/ id = [] /\ rules = customs_on direction.

Definition resolves (host : rstr) (port : Z) : list IpAddr :=
  default [] (lookup_host (strip_brackets host) port).

(** A rule for which the name is worth resolving. *)
Definition worth_asking (p : Pattern) (host : rstr) (port : Z) : Prop :=
  says p host port \/ has_port p port /\ is_any_or_net (addr p) = true.

(** The resolver gives addresses of the right width. *)
Definition resolver_wf : Prop :=
  forall h p l, lookup_host h p = Some l -> Forall ip_wf l.

(** * Theorems *)

Lemma lit_localhost_lower : Str.to_ascii_lowercase (Str.lit "localhost") = Str.lit "localhost".
Proof. reflexivity. Qed.

Lemma is_loopback_name_spec n :
  is_loopback_name n = true <-> Str.to_ascii_lowercase n = Str.lit "localhost".
Proof.
  unfold is_loopback_name, Str.eq_ignore_ascii_case.
  by rewrite bool_decide_eq_true, lit_localhost_lower.
Qed.

(** ** What the parsers build *)

Lemma parse_ports_wf s a b :
  parse_ports s = Some (a, b) -> 1 <= a <= b /\ b <= Int.umax 16.
Proof.
  unfold parse_ports. case_bool_decide; [by intros [= <- <-]|].
  destruct (default (s, s) _) as [x y].
  destruct (Str.parse_uint 16 (Str.trim x)) as [a'|]; [|done]. cbn [mbind option_bind].
  destruct (Str.parse_uint 16 (Str.trim y)) as [b'|] eqn:Eb; [|done]. cbn [mbind option_bind].
  apply Str.parse_uint_range in Eb; [|done]. destruct Eb. case_match eqn:E; [|done]. intros [= <- <-].
  apply andb_true_iff in E as [?%Z.leb_le ?%Z.leb_le]. lia.
Qed.

Lemma parse_addr_wf s a : parse_addr s = Some a -> addr_wf a.
Proof.
  unfold parse_addr. case_bool_decide; [by intros [= <-]|]. cbv zeta.
  destruct (Str.split_once _ _) as [[ip bits]|].
  - destruct (IpAddr_from_str ip) as [a'|] eqn:Ei; [|done]. cbn [mbind option_bind].
    destruct (Str.parse_uint 8 bits) as [b|] eqn:Eb; [|done]. cbn [mbind option_bind].
    apply Str.parse_uint_range in Eb as [? _]; [|done]. apply IpAddr_from_str_wf in Ei.
    case_match eqn:E; [|done]. apply Z.leb_le in E. intros [= <-]. simpl. split; [done|].
    unfold ip_width. lia.
  - destruct (IpAddr_from_str _) as [a'|] eqn:Ei.
    + apply IpAddr_from_str_wf in Ei. intros [= <-]. split; [done|].
      unfold ip_width. destruct (is_ipv4 a'); lia.
    + destruct (_ && _) eqn:E; [|done]. intros [= <-].
      apply andb_true_iff in E as [[E1 _]%andb_true_iff E2].
      apply negb_true_iff, bool_decide_eq_false in E1. simpl. split; [done|].
      split; [apply List.Forall_forall; by apply forallb_forall|]. apply Str.to_ascii_lowercase_idemp.
Qed.

Lemma parse_pattern_wf s p : parse_pattern s = Some p -> pattern_wf p.
Proof.
  unfold parse_pattern. destruct (Str.rsplit_once _ _) as [[a q]|]; [|done].
  cbn [mbind option_bind]. destruct (parse_addr _) as [a'|] eqn:Ea; [|done].
  cbn [mbind option_bind]. destruct (parse_ports _) as [[lo hi]|] eqn:Ep; [|done].
  intros [= <-]. apply parse_ports_wf in Ep. apply parse_addr_wf in Ea. by split.
Qed.

Lemma parse_list_eq l :
  parse_list l
  = (omap parse_pattern (Str.split list_sep l),
     List.filter (fun s => negb (bool_decide (s = [])) && bool_decide (parse_pattern s = None))
       (Str.split list_sep l)).
Proof.
  unfold parse_list. generalize (Str.split list_sep l) as items.
  assert (forall items ok bad,
    foldl parse_item (ok, bad) (List.filter (fun s => negb (bool_decide (s = []))) items)
    = (ok ++ omap parse_pattern items,
       bad ++ List.filter (fun s => negb (bool_decide (s = [])) && bool_decide (parse_pattern s = None)) items))
    as H; [|intros; apply H].
  induction items as [|s items IH]; intros ok bad; cbn [List.filter omap list_omap].
  - by rewrite !app_nil_r.
  - case_bool_decide as Es; cbn [negb andb].
    + subst s. change (parse_pattern []) with (@None Pattern). cbn. apply IH.
    + cbn [foldl]. unfold parse_item at 2. cbn [fst snd].
      destruct (parse_pattern s) as [p|] eqn:E; rewrite IH.
      * rewrite bool_decide_eq_false_2 by done. by rewrite <- app_assoc.
      * rewrite bool_decide_eq_true_2 by done. by rewrite <- app_assoc.
Qed.

Lemma parse_list_wf l : Forall pattern_wf (parse_list l).1.
Proof.
  rewrite parse_list_eq. apply Forall_forall. intros p (s & _ & E)%list_elem_of_omap.
  by eapply parse_pattern_wf.
Qed.

Lemma parse_service_Some e id p :
  parse_service e = Some (id, p) -> valid_id id = true /\ pattern_wf p.
Proof.
  unfold parse_service. destruct (Str.split_once _ _) as [[i t]|]; [|done].
  cbn [mbind option_bind]. cbv zeta. destruct (valid_id _) eqn:Ev; [|done].
  destruct (parse_pattern _) as [q|] eqn:E; [|done]. intros [= <- <-].
  split; [done|]. by eapply parse_pattern_wf.
Qed.

Lemma parse_services_wf v :
  Forall (fun s => valid_id s.1 = true /\ pattern_wf s.2) (parse_services v).
Proof.
  apply Forall_forall. intros [id p] (e & _ & E)%list_elem_of_omap.
  by apply parse_service_Some in E.
Qed.

(** ** The tests of a pattern decide what it says *)

Lemma has_port_spec p port : port_ok p port = true <-> has_port p port.
Proof. unfold port_ok, has_port. by rewrite andb_true_iff, !Z.leb_le. Qed.

Lemma in_net_spec ip net bits :
  ip_wf ip -> ip_wf net -> 0 <= bits <= ip_width net ->
  in_net ip net bits = true <-> same_prefix ip net bits.
Proof.
  assert (forall w a b, 0 < w -> Int.is_u w a -> Int.is_u w b -> 0 <= bits <= w ->
    (Z.land a (if bits =? 0 then 0 else high_mask w bits)
     =? Z.land b (if bits =? 0 then 0 else high_mask w bits)) = true
    <-> Z.shiftr a (w - bits) = Z.shiftr b (w - bits)) as Hw.
  { intros w a b Hw Ha Hb Hbits. rewrite Z.eqb_eq. destruct (Z.eqb_spec bits 0) as [->|].
    - rewrite !Z.land_0_r. split; [|done]. intros _. unfold Int.is_u, Int.umax in *.
      rewrite !Z.shiftr_div_pow2, Z.sub_0_r by lia. by rewrite !Z.div_small by lia.
    - by apply high_mask_eq. }
  unfold same_prefix, ip_wf. intros Hi Hn Hb.
  destruct ip, net; cbn [in_net is_ipv4 ip_num] in *; unfold ip_width in *; cbn [is_ipv4] in *;
    try (rewrite Hw by (done || lia); tauto); (split; [done|by intros [? _]]).
Qed.

Lemma has_ip_spec p ip :
  pattern_wf p -> ip_wf ip -> ip_ok p ip = true <-> has_ip (addr p) ip.
Proof.
  intros [Ha _] Hi. unfold ip_ok. destruct (addr p) as [|n|net bits]; cbn [has_ip].
  - done.
  - by rewrite andb_true_iff, is_loopback_name_spec.
  - destruct Ha. by apply in_net_spec.
Qed.

Lemma has_name_spec p host : name_ok p host = true <-> has_name (addr p) host.
Proof.
  unfold name_ok, has_name. destruct (addr p); [done| |by split].
  unfold Str.eq_ignore_ascii_case. by rewrite bool_decide_eq_true.
Qed.

Lemma localhost_wf : ip_wf LOCALHOST4.
Proof. by vm_compute. Qed.

Lemma says_spec p host port :
  pattern_wf p -> literal_match p host port = true <-> says p host port.
Proof.
  intros Hp. unfold literal_match, says. destruct (port_ok p port) eqn:Eport; cbn [negb].
  - apply has_port_spec in Eport.
    destruct (IpAddr_from_str _) as [ip|] eqn:E.
    + apply IpAddr_from_str_wf in E. rewrite has_ip_spec by done. tauto.
    + rewrite orb_true_iff, andb_true_iff, has_name_spec, has_ip_spec by auto using localhost_wf.
      tauto.
  - split; [done|]. intros [H%has_port_spec _]. congruence.
Qed.

Lemma elem_of_filter_bool {A} (f : A -> bool) (l : list A) x :
  x ∈ List.filter f l <-> x ∈ l /\ f x = true.
Proof. by rewrite !list_elem_of_In, filter_In. Qed.

(** ** [check] gives exactly the addresses that some pattern admits *)

Lemma existsb_iff {A} (f : A -> bool) (P : A -> Prop) l :
  (forall x, x ∈ l -> f x = true <-> P x) ->
  existsb f l = true <-> exists x, x ∈ l /\ P x.
Proof.
  intros H. rewrite existsb_exists. setoid_rewrite <- list_elem_of_In.
  split; intros (x & Hx & E); exists x; (split; [done|]); by apply H.
Qed.

Lemma existsb_iff_false {A} (f : A -> bool) (P : A -> Prop) l :
  (forall x, x ∈ l -> f x = true <-> P x) ->
  existsb f l = false <-> forall x, x ∈ l -> ~ P x.
Proof.
  intros H. rewrite <- not_true_iff_false, (existsb_iff f P) by done.
  split; [intros H' x ??; apply H'; eauto|intros H' (x & Hx & Px); by eapply H'].
Qed.

Lemma elem_of_at_port (ips : list IpAddr) (port : Z) (a : SocketAddr) :
  a ∈ (fun ip => (ip, port)) <$> ips <-> a.2 = port /\ a.1 ∈ ips.
Proof.
  rewrite list_elem_of_fmap. destruct a as [ip q]. simpl. split.
  - by intros (? & [= -> ->] & ?).
  - intros [-> ?]. eauto.
Qed.

Lemma targets_at_port (ips : list IpAddr) (port : Z) P :
  (forall a, P a <-> a.2 = port /\ a.1 ∈ ips) ->
  targets_exactly P
    (if bool_decide ((fun ip => (ip, port)) <$> ips = []) then None
     else Some (Addrs ((fun ip => (ip, port)) <$> ips))).
Proof.
  intros H. case_bool_decide as E; simpl.
  - intros a Ha%H%elem_of_at_port. rewrite E in Ha. by apply elem_of_nil in Ha.
  - split; [done|]. intros a. by rewrite H, elem_of_at_port.
Qed.

Lemma check_exact ps host port resolved :
  Forall pattern_wf ps -> Forall ip_wf resolved ->
  targets_exactly (connectable ps host port resolved) (check ps host port resolved).
Proof.
  rewrite !Forall_forall. intros Hps Hres. unfold check, connectable, addresses, admits, says.
  destruct (IpAddr_from_str _) as [ip|] eqn:E; [|destruct (is_loopback_name _) eqn:El].
  - pose proof (IpAddr_from_str_wf _ _ E) as Hip.
    assert (forall p, p ∈ ps -> (port_ok p port && ip_ok p ip) = true
                                <-> has_port p port /\ has_ip (addr p) ip) as Hp.
    { intros p Hp. rewrite andb_true_iff, has_port_spec, has_ip_spec by auto. done. }
    destruct (existsb _ ps) eqn:Ee; simpl.
    + apply (existsb_iff _ _ _ Hp) in Ee as (p & Hin & Hh). split; [done|]. intros [q r]. simpl.
      rewrite !list_elem_of_singleton. split; [intros [= -> ->]; eauto 6|by intros (-> & -> & _)].
    + intros a (_ & Ha & p & Hin & [Hh|(_ & ? & _)]); [|done].
      by apply (proj1 (existsb_iff_false _ _ _ Hp) Ee p).
  - assert (forall p, p ∈ ps ->
      (port_ok p port && (name_ok p (strip_brackets host) || ip_ok p LOCALHOST4)) = true
      <-> has_port p port
          /\ (has_name (addr p) (strip_brackets host) \/ has_ip (addr p) LOCALHOST4)) as Hp.
    { intros p Hp. rewrite andb_true_iff, orb_true_iff, has_port_spec, has_name_spec, has_ip_spec
        by auto using localhost_wf. done. }
    destruct (existsb _ ps) eqn:Ee; simpl.
    + apply (existsb_iff _ _ _ Hp) in Ee as (p & Hin & Hh). split; [done|].
      intros a. pose proof (elem_of_at_port [LOCALHOST4; LOCALHOST6] port a) as ->.
      split; [|tauto].
      intros [-> ?]. repeat split; [done|]. exists p. tauto.
    + intros a (_ & Ha & p & Hin & Hh).
      apply (proj1 (existsb_iff_false _ _ _ Hp) Ee p Hin). intuition congruence.
  - assert (forall p, p ∈ ps -> (port_ok p port && name_ok p (strip_brackets host)) = true
      <-> has_port p port /\ has_name (addr p) (strip_brackets host)) as Hp.
    { intros p Hp. by rewrite andb_true_iff, has_port_spec, has_name_spec. }
    destruct (existsb _ ps) eqn:Ee.
    + apply (existsb_iff _ _ _ Hp) in Ee as (p & Hin & Hh). apply targets_at_port.
      intros a. split; [tauto|]. intros [-> ?]. repeat split; [done|]. exists p. tauto.
    + apply targets_at_port. intros a. pose proof (proj1 (existsb_iff_false _ _ _ Hp) Ee) as Hn.
      assert (forall ip, ip ∈ resolved ->
        existsb (fun p => port_ok p port && ip_ok p ip) ps = true
        <-> exists p, p ∈ ps /\ has_port p port /\ has_ip (addr p) ip) as Hi.
      { intros ip Hip. apply existsb_iff. intros p Hq.
        rewrite andb_true_iff, has_port_spec, has_ip_spec by auto. done. }
      rewrite elem_of_filter_bool. split.
      * intros (-> & Ha & p & Hin & [[Hport [Hh|[? _]]]|(Hport & _ & _ & Hh)]); [|done|].
        -- exfalso. by eapply (Hn p).
        -- repeat split; [done|]. apply Hi; eauto.
      * intros (-> & Ha & (p & Hin & Hport & Hh)%Hi); [|done]. repeat split; [done|].
        exists p. tauto.
Qed.

(** ** The decisions *)

Lemma services_on_wf direction :
  Forall (fun s => valid_id s.1 = true /\ pattern_wf s.2) (services_on direction).
Proof. apply parse_services_wf. Qed.

Lemma customs_on_wf direction : Forall pattern_wf (customs_on direction).
Proof.
  unfold customs_on. destruct (custom_options _ _) as [[] ?]; [apply parse_list_wf|constructor].
Qed.

Lemma may_match_spec p host port :
  pattern_wf p -> may_match p host port = true <-> worth_asking p host port.
Proof.
  intros Hp. unfold may_match, worth_asking.
  by rewrite orb_true_iff, andb_true_iff, says_spec, has_port_spec.
Qed.

Lemma resolve_wf host port : resolver_wf -> Forall ip_wf (resolve lookup_host host port).1.
Proof.
  intros Hd. unfold resolve. destruct (_ || _); [constructor|].
  destruct (lookup_host _ _) eqn:E; [|constructor]. by eapply Hd.
Qed.

Lemma addresses_resolve host port :
  addresses host (resolve lookup_host host port).1 = addresses host (resolves host port).
Proof.
  unfold addresses, resolve, resolves. destruct (IpAddr_from_str _); [done|].
  destruct (is_loopback_name _); [done|]. cbn. by destruct (lookup_host _ _).
Qed.

Lemma targets_exactly_ext P Q t :
  (forall a, P a <-> Q a) -> targets_exactly P t -> targets_exactly Q t.
Proof.
  intros H. destruct t as [[l]|]; simpl.
  - intros [? Hl]. split; [done|]. intros a. by rewrite Hl, H.
  - intros Hn a Ha. by apply (Hn a), H.
Qed.

Lemma check_resolved ps host port :
  resolver_wf -> Forall pattern_wf ps ->
  targets_exactly (connectable ps host port (resolves host port))
    (check ps host port (resolve lookup_host host port).1).
Proof.
  intros Hd Hps. eapply targets_exactly_ext; [|by apply check_exact, resolve_wf].
  intros a. unfold connectable. by rewrite addresses_resolve.
Qed.

(** The service a request finds: the first that names it. *)
Lemma find_service direction host port :
  match List.find (fun s => literal_match s.2 host port) (services_on direction) with
  | Some s => s ∈ services_on direction /\ says s.2 host port
  | None => forall s, s ∈ services_on direction -> ~ says s.2 host port
  end.
Proof.
  pose proof (services_on_wf direction) as Hwf. rewrite Forall_forall in Hwf.
  destruct (List.find _ _) as [s|] eqn:E.
  - apply find_some in E as [Hin%list_elem_of_In Hs]. split; [done|].
    apply says_spec in Hs; [done|]. by apply Hwf.
  - intros s Hin Hs. apply list_elem_of_In in Hin as Hi. pose proof (find_none _ _ E s Hi) as Hf.
    cbv beta in Hf. rewrite (proj2 (says_spec _ _ _ (proj2 (Hwf s Hin))) Hs) in Hf. done.
Qed.

Lemma valid_port_spec port p : valid_port port = Some p <-> p = port /\ 1 <= port <= Int.umax 16.
Proof.
  unfold valid_port. destruct (_ && _) eqn:E.
  - apply andb_true_iff in E as [?%Z.ltb_lt ?%Z.leb_le]. split; [intros [= ->]; lia|].
    by intros [-> _].
  - split; [done|]. intros [_ H]. apply andb_false_iff in E as [?%Z.ltb_ge|?%Z.leb_gt]; lia.
Qed.

(** What [authorize_target] does once the guards have passed: the decision over
    the service found, then over the custom list. *)
Lemma authorize_target_eq direction host port :
  authorize_target get_option lookup_host direction host port
  = if negb (on get_option OPT_ENABLED) then (Err DENIED_DISABLED, [])
    else if bool_decide (valid_port port = None) then (Err DENIED_TARGET, [])
    else
      let service := List.find (fun s => literal_match s.2 host port) (services_on direction) in
      let own := match service with Some s => [s.2] | None => [] end in
      let '(resolved, asked) := resolve lookup_host host port in
      if negb (existsb (fun p => may_match p host port) (own ++ customs_on direction))
      then (Err DENIED_TARGET, [])
      else
        match service, check own host port resolved with
        | Some (id, _), Some target => (Ok (mkDecision target id), asked)
        | _, _ =>
            match check (customs_on direction) host port resolved with
            | Some target => (Ok (mkDecision target []), asked)
            | None => (Err DENIED_TARGET, asked)
            end
        end.
Proof.
  unfold authorize_target, services_on, customs_on. destruct (negb _); [done|].
  destruct (valid_port port) as [q|] eqn:Ep; [|done].
  apply valid_port_spec in Ep as [-> _]. rewrite bool_decide_eq_false_2 by done.
  destruct (custom_options _ _) as [c k]. cbv zeta. destruct (resolve _ _ _). by destruct (negb _).
Qed.

Lemma vetted_addresses direction host port d
    (Hdns : resolver_wf)
    (Hok : (authorize_target get_option lookup_host direction host port).1 = Ok d) :
  on get_option OPT_ENABLED = true /\ 1 <= port <= Int.umax 16
  /\ exists rules, rules_of direction (service d) rules
     /\ targets_exactly (connectable rules host port (resolves host port)) (Some (target d)).
Proof.
  rewrite authorize_target_eq in Hok. destruct (on get_option OPT_ENABLED); [|done]. cbn in Hok.
  case_bool_decide as Ep; [done|].
  destruct (valid_port port) as [q|] eqn:Eq; [|done]. apply valid_port_spec in Eq as [_ Hport].
  do 2 (split; [done|]). pose proof (find_service direction host port) as Hs.
  pose proof (check_resolved (customs_on direction) host port Hdns (customs_on_wf _)) as Hc.
  destruct (List.find _ _) as [[id p]|] eqn:Ef.
  - destruct Hs as [Hin _].
    assert (Forall pattern_wf [p]) as Hwf.
    { constructor; [|constructor]. pose proof (services_on_wf direction) as Hw.
      rewrite Forall_forall in Hw. by apply (Hw _ Hin). }
    pose proof (check_resolved [p] host port Hdns Hwf) as Hp.
    destruct (resolve _ _ _) as [res asked]. cbn [fst snd] in *. destruct (negb _); [done|].
    destruct (check [p] _ _ _) as [t|].
    + cbn in Hok. injection Hok as <-. exists [p]. split; [left; eauto|]. exact Hp.
    + destruct (check (customs_on _) _ _ _) as [t|]; [|done]. cbn in Hok. injection Hok as <-.
      exists (customs_on direction). split; [by right|]. exact Hc.
  - destruct (resolve _ _ _) as [res asked]. cbn [fst snd] in *. destruct (negb _); [done|].
    destruct (check (customs_on _) _ _ _) as [t|]; [|done]. cbn in Hok. injection Hok as <-.
    exists (customs_on direction). split; [by right|]. exact Hc.
Qed.

(** C9 When a destination is authorised, forwarding is on, the port is a real
    one, and the addresses to connect to are exactly those, of the ones the
    destination stands for, that a rule in force admits: the ticked service that
    the decision names, or the custom list.  There is at least one. *)
Theorem authorized_addresses_are_vetted direction host port d
    (Hdns : resolver_wf)
    (Hok : (authorize_target get_option lookup_host direction host port).1 = Ok d) :
  on get_option OPT_ENABLED = true /\ 1 <= port <= Int.umax 16
  /\ exists rules, rules_of direction (service d) rules
     /\ targets_exactly (connectable rules host port (resolves host port)) (Some (target d)).
Proof. exact (vetted_addresses direction host port d Hdns Hok). Qed.

Lemma addresses_empty host port ps :
  (forall a, ~ connectable ps host port (resolves host port) a) ->
  (exists p, p ∈ ps /\ says p host port) ->
  addresses host (resolves host port) = [].
Proof.
  intros Hn (p & Hin & Hs). destruct (addresses _ _) as [|ip l] eqn:E; [done|].
  exfalso. apply (Hn (ip, port)). repeat split; [rewrite E; left|]. exists p.
  split; [done|]. by left.
Qed.

(** With the switch on and a real port a destination is refused only when no
    rule wants it: it is authorised exactly when a ticked service says it and it
    has an address, or a custom rule makes it worth resolving and a custom rule
    admits one of its addresses. *)
Theorem authorized_when_a_rule_admits direction host port
    (Hdns : resolver_wf)
    (Hon : on get_option OPT_ENABLED = true) (Hport : 1 <= port <= Int.umax 16) :
  is_ok (authorize_target get_option lookup_host direction host port).1 = true
  <-> (exists s, s ∈ services_on direction /\ says s.2 host port
                 /\ addresses host (resolves host port) <> [])
      \/ (exists p, p ∈ customs_on direction /\ worth_asking p host port)
         /\ exists a, connectable (customs_on direction) host port (resolves host port) a.
Proof.
  rewrite authorize_target_eq, Hon. cbn [negb].
  rewrite bool_decide_eq_false_2 by (by rewrite (proj2 (valid_port_spec port port)) by done).
  pose proof (find_service direction host port) as Hs.
  pose proof (services_on_wf direction) as Hw. rewrite Forall_forall in Hw.
  pose proof (check_resolved (customs_on direction) host port Hdns (customs_on_wf _)) as Hc.
  pose proof (customs_on_wf direction) as Hcw. rewrite Forall_forall in Hcw.
  assert (forall p, p ∈ customs_on direction ->
    may_match p host port = true <-> worth_asking p host port) as Hm
    by (intros; apply may_match_spec; auto).
  destruct (List.find _ _) as [[id p]|] eqn:Ef.
  - destruct Hs as [Hin Hsays].
    assert (Forall pattern_wf [p]) as Hwf by (constructor; [by apply (Hw _ Hin)|constructor]).
    pose proof (check_resolved [p] host port Hdns Hwf) as Hp.
    destruct (resolve _ _ _) as [res asked]. cbn [fst snd app] in *.
    rewrite (proj2 (existsb_exists _ _)); cycle 1.
    { exists p. split; [by left|]. apply may_match_spec; [by inversion Hwf|]. by left. }
    cbn [negb]. destruct (check [p] _ _ _) as [[l]|].
    + split; [intros _|done]. left. exists (id, p). repeat (split; [done|]). destruct Hp as [Hl Ha].
      destruct l as [|a l]; [done|]. destruct (proj1 (Ha a)) as (_ & Hx & _); [left|].
      intros E. rewrite E in Hx. by apply elem_of_nil in Hx.
    + assert (addresses host (resolves host port) = []) as E0.
      { apply (addresses_empty host port [p] Hp). exists p. split; [left|done]. }
      destruct (check (customs_on _) _ _ _) as [[l]|].
      * destruct Hc as [Hl Ha]. destruct l as [|a l]; [done|].
        destruct (proj1 (Ha a)) as (_ & Hx & _); [left|]. rewrite E0 in Hx. by apply elem_of_nil in Hx.
      * split; [done|]. intros [(s & _ & _ & Hne)|[_ [a Ha]]]; [done|]. by destruct (Hc a).
  - destruct (resolve _ _ _) as [res asked]. cbn [fst snd app] in *.
    destruct (existsb _ _) eqn:Ee; cbn [negb].
    + apply (existsb_iff _ _ _ Hm) in Ee. destruct (check (customs_on _) _ _ _) as [[l]|].
      * split; [intros _|done]. right. split; [done|]. destruct Hc as [Hl Ha].
        destruct l as [|a l]; [done|]. exists a. apply Ha. left.
      * split; [done|]. intros [(s & Hin & Hsays & _)|[_ [a Ha]]]; [by destruct (Hs s)|by destruct (Hc a)].
    + pose proof (proj1 (existsb_iff_false _ _ _ Hm) Ee) as Hno. split; [done|].
      intros [(s & Hin & Hsays & _)|[(p & Hin & Hp) _]]; [by destruct (Hs s)|by destruct (Hno p)].
Qed.

(** A peer cannot have this side resolve names at will: a decision asks the
    resolver at most once, for the very name requested, and only when forwarding
    is on, the name is neither an address nor localhost, and a rule in force
    names it or covers the port with a network or with any address. *)
Theorem names_are_resolved_only_for_a_rule direction host port q
    (Hq : q ∈ (authorize_target get_option lookup_host direction host port).2) :
  (authorize_target get_option lookup_host direction host port).2 = [q]
  /\ q = (strip_brackets host, port)
  /\ on get_option OPT_ENABLED = true
  /\ IpAddr_from_str q.1 = None /\ is_loopback_name q.1 = false
  /\ exists p, p ∈ (services_on direction).*2 ++ customs_on direction /\ worth_asking p host port.
Proof.
  rewrite authorize_target_eq in *. destruct (on get_option OPT_ENABLED); [|by apply elem_of_nil in Hq].
  cbn [negb] in *. case_bool_decide; [by apply elem_of_nil in Hq|]. cbv zeta in *.
  pose proof (find_service direction host port) as Hs.
  pose proof (services_on_wf direction) as Hw. rewrite Forall_forall in Hw.
  pose proof (customs_on_wf direction) as Hcw. rewrite Forall_forall in Hcw.
  set (own := match List.find _ _ with Some s => [s.2] | None => [] end) in *.
  assert (forall p, p ∈ own ++ customs_on direction ->
    p ∈ (services_on direction).*2 ++ customs_on direction /\ pattern_wf p) as Hin.
  { intros p. rewrite !elem_of_app. intros [Hp|Hp]; [|split; [by right|by apply Hcw]].
    unfold own in Hp. destruct (List.find _ _) as [s|]; [|by apply elem_of_nil in Hp].
    apply list_elem_of_singleton in Hp as ->. destruct Hs as [Hs _].
    split; [left; by apply list_elem_of_fmap_2|by apply Hw]. }
  destruct (resolve lookup_host host port) as [res asked] eqn:Er.
  destruct (existsb _ _) eqn:Ee; cbn [negb] in *; [|by apply elem_of_nil in Hq].
  apply existsb_exists in Ee as (p & Hp%list_elem_of_In & Hm). apply Hin in Hp as [Hp Hwf].
  apply may_match_spec in Hm; [|done].
  match type of Hq with _ ∈ ?r.2 => assert (r.2 = asked) as E by (by repeat case_match) end.
  rewrite E in *.
  unfold resolve in Er. destruct (_ || _) eqn:El; [injection Er as <- <-; by apply elem_of_nil in Hq|].
  apply orb_false_iff in El as [Ei El]. apply bool_decide_eq_false in Ei.
  assert (asked = [(strip_brackets host, port)]) as -> by (by destruct (lookup_host _ _); injection Er as <- <-).
  apply list_elem_of_singleton in Hq as ->. repeat (split; [done|]). cbn [fst].
  split; [by apply eq_None_not_Some|]. split; [done|]. eauto.
Qed.

Lemma offered_service_eq e :
  (fun t => (t.1, parse_pattern t.2)) <$> offered_service e
  = (fun s => (s.1, Some s.2)) <$> parse_service e.
Proof.
  unfold offered_service, parse_service. destruct (Str.split_once _ _) as [[i t]|]; [|done].
  cbn [mbind option_bind]. cbv zeta. destruct (valid_id _); [|done].
  destruct (parse_pattern (Str.trim t)) as [p|] eqn:E; [|done]. cbn. by rewrite E.
Qed.

Lemma fmap_omap_eq {A B C D} (f : A -> option B) (f' : A -> option C) (g : B -> D) (g' : C -> D) (l : list A) :
  (forall x, g <$> f x = g' <$> f' x) -> g <$> omap f l = g' <$> omap f' l.
Proof.
  intros H. induction l as [|x l IH]; [done|]. cbn. specialize (H x).
  destruct (f x), (f' x); simplify_eq/=; congruence.
Qed.

Lemma parsed_items items :
  parse_pattern <$> List.filter (fun item => bool_decide (is_Some (parse_pattern item))) items
  = Some <$> omap parse_pattern items.
Proof.
  induction items as [|s items IH]; [done|]. cbn [List.filter omap list_omap].
  destruct (parse_pattern s) as [p|] eqn:E; [|done]. cbn. rewrite E. congruence.
Qed.

(** The destinations shown to the peer are, in order, exactly the rules that
    authorise: each reads back as the pattern of the ticked service or of the
    custom rule that the decisions use, and none is left out. *)
Theorem offered_targets_are_the_rules direction :
  match offered_targets get_option direction with
  | Ok l =>
      on get_option OPT_ENABLED = true
      /\ (fun t => (t.1, parse_pattern t.2)) <$> l
         = ((fun s => (s.1, Some s.2)) <$> services_on direction)
           ++ ((fun p => ([], Some p)) <$> customs_on direction)
  | Err e => e = DENIED_DISABLED /\ on get_option OPT_ENABLED = false
  end.
Proof.
  unfold offered_targets, customs_on, services_on, parse_services.
  destruct (on get_option OPT_ENABLED); [|done]. cbn [negb].
  destruct (custom_options _ _) as [c k]. split; [done|]. rewrite fmap_app. f_equal.
  - apply fmap_omap_eq. apply offered_service_eq.
  - destruct c; [|done]. rewrite parse_list_eq. cbn [fst].
    rewrite <- list_fmap_compose.
    change ((fun t : rstr * rstr => (t.1, parse_pattern t.2)) ∘ (fun item => ([], item)))
      with ((fun o : option Pattern => (@nil Z, o)) ∘ parse_pattern).
    rewrite list_fmap_compose, parsed_items, <- list_fmap_compose. done.
Qed.

(** The rules in force are well formed whatever text the options hold: ports
    between 1 and 65535 and in order, a network's prefix within its width, a host
    name lowercase ASCII and not empty, a service id that fits its option; the
    entries thrown away are exactly those that are not rules. *)
Theorem options_give_well_formed_rules direction list :
  Forall (fun s => valid_id s.1 = true /\ pattern_wf s.2) (services_on direction)
  /\ Forall pattern_wf (parse_list list).1
  /\ forall item, item ∈ (parse_list list).2
       <-> item ∈ Str.split list_sep list /\ item <> [] /\ parse_pattern item = None.
Proof.
  split; [apply services_on_wf|]. split; [apply parse_list_wf|]. intros item.
  rewrite parse_list_eq. cbn [snd]. rewrite elem_of_filter_bool, andb_true_iff, negb_true_iff.
  by rewrite bool_decide_eq_false, bool_decide_eq_true.
Qed.
End Authorized.

(** ** Concrete requests *)

Lemma sample_lookup_wf : resolver_wf sample_lookup.
Proof.
  intros h p l. unfold sample_lookup. case_bool_decide; [|done]. intros [= <-].
  repeat constructor; vm_compute; congruence.
Qed.

Example decides :
  (fun r => (authorize_target sample_options sample_lookup ToHost (Str.lit r.1) r.2).1)
    <$> [("127.0.0.1", 3389); ("localhost", 3389); ("nas.lan", 443); ("nas.lan", 444);
         ("192.168.2.7", 443); ("[::1]", 3389); ("10.0.0.5", 65558)]%string
  = [Ok (mkDecision (Addrs [(V4 0x7f000001, 3389)]) (Str.lit "rdp"));
     Ok (mkDecision (Addrs [(V4 0x7f000001, 3389); (V6 1, 3389)]) (Str.lit "rdp"));
     Ok (mkDecision (Addrs [(V4 0xc0a8010a, 443)]) []);
     Err DENIED_TARGET; Err DENIED_TARGET;
     Ok (mkDecision (Addrs [(V6 1, 3389)]) (Str.lit "rdp")); Err DENIED_TARGET].
Proof. vm_compute. reflexivity. Qed.

Lemma authorized_addresses_are_vetted_witness :
  exists rules, rules_of sample_options ToHost [] rules
    /\ targets_exactly (connectable rules (Str.lit "nas.lan") 443 (resolves sample_lookup (Str.lit "nas.lan") 443))
         (Some (Addrs [(V4 0xc0a8010a, 443)])).
Proof.
  pose proof (authorized_addresses_are_vetted sample_options sample_lookup ToHost
    (Str.lit "nas.lan") 443 (mkDecision (Addrs [(V4 0xc0a8010a, 443)]) [])
    sample_lookup_wf ltac:(vm_compute; reflexivity)) as (_ & _ & H). exact H.
Defined.

Lemma authorized_when_a_rule_admits_witness :
  is_ok (authorize_target sample_options sample_lookup ToHost (Str.lit "10.0.0.5") 22).1 = true.
Proof.
  apply (authorized_when_a_rule_admits sample_options sample_lookup ToHost (Str.lit "10.0.0.5") 22
    sample_lookup_wf ltac:(vm_compute; reflexivity) ltac:(vm_compute; split; discriminate)).
  left. exists (Str.lit "ssh", mkPattern (Net (V4 0x0a000005) 32) (22, 22)). split.
  - replace (services_on sample_options ToHost) with
      [(Str.lit "rdp", mkPattern (Name (Str.lit "localhost")) (3389, 3389));
       (Str.lit "ssh", mkPattern (Net (V4 0x0a000005) 32) (22, 22))] by (vm_compute; reflexivity).
    right. left.
  - split; [|vm_compute; discriminate]. vm_compute. repeat split; discriminate.
Defined.

Lemma names_are_resolved_only_for_a_rule_witness :
  (authorize_target sample_options sample_lookup ToHost (Str.lit "nas.lan") 443).2
  = [(Str.lit "nas.lan", 443)].
Proof.
  assert ((Str.lit "nas.lan", 443) ∈
    (authorize_target sample_options sample_lookup ToHost (Str.lit "nas.lan") 443).2) as Hq.
  { vm_compute. left. }
  exact (proj1 (names_are_resolved_only_for_a_rule sample_options sample_lookup ToHost
    (Str.lit "nas.lan") 443 _ Hq)).
Defined.

(** ** The catalogue *)

Section CatalogProofs.
Context (decode : rstr -> result (Z * list Catalog.Service) rstr).

Lemma parse_catalogue body l : Catalog.parse decode body = Ok l -> catalogue l.
Proof.
  unfold Catalog.parse. destruct (decode body) as [[v ss]|]; [|done]. destruct (negb _); [done|].
  intros [= <-]. split; [rewrite length_take; lia|]. apply Forall_take, List.Forall_forall.
  by intros s [_ Hs]%filter_In.
Qed.

Lemma download_inv_step s t : Catalog.step decode s t -> download_inv s -> download_inv t.
Proof.
  intros Hst (Hd & Hc & Hf & Hw).
  destruct Hst as [now s Hs|now c1 c2 s Es Er|now c1 c2 s Es Er|now d1 d2 body s Es|now d1 d2 e s Es|now r w1 w2 s Es];
    unfold download_inv; cbn.
  - done.
  - rewrite Er in Hd. done.
  - rewrite Er in Hd. rewrite Hd. done.
  - rewrite Es, length_app in Hd. cbn in Hd. repeat split; try apply Hc; [|done|].
    + rewrite length_app. destruct (Catalog.refreshing s); lia.
    + constructor; [|done]. cbn. destruct (Catalog.parse _ _) eqn:E; [by eapply parse_catalogue|done].
  - rewrite Es, length_app in Hd. cbn in Hd. repeat split; try apply Hc; [|done|].
    + rewrite length_app. destruct (Catalog.refreshing s); lia.
    + constructor; done.
  - rewrite Es in Hw. apply Forall_app in Hw as [Hw1 [Hr Hw2]%Forall_cons].
    split; [done|]. unfold Catalog.store. destruct r as [l|e]; cbn in *.
    + repeat split; [apply Hr..|done|]. by apply Forall_app.
    + repeat split; [apply Hc..|done|]. by apply Forall_app.
Qed.

(** However the calls that refresh the catalogue interleave, at most one of
    them downloads, and the catalogue held is empty until a download succeeds and
    always has at most 500 services, each with a valid id and a destination that
    reads as a pattern. *)
Theorem one_download_at_a_time s
    (Hr : rtc (Catalog.step decode) Catalog.initial s) :
  (length (Catalog.downloading s) <= 1)%nat
  /\ catalogue (Catalog.services (Catalog.cache s))
  /\ (Catalog.fetched (Catalog.cache s) = None -> Catalog.services (Catalog.cache s) = []).
Proof.
  enough (download_inv s) as (Hd & Hc & Hf & _).
  { split; [destruct (Catalog.refreshing s); lia|done]. }
  assert (download_inv Catalog.initial) as Hi by (repeat split; cbn; [lia|constructor|constructor]).
  induction Hr; eauto using download_inv_step.
Qed.
End CatalogProofs.

Lemma one_download_at_a_time_witness :
  (length (Catalog.downloading (Catalog.mkState Catalog.empty_cache true [] [100]%Z [])) <= 1)%nat.
Proof.
  apply (one_download_at_a_time no_decoder).
  eapply rtc_l; [apply (Catalog.Look_stale _ 100); vm_compute; reflexivity|].
  eapply rtc_l; [apply (Catalog.Look_stale _ 100); vm_compute; reflexivity|].
  eapply rtc_l; [apply (Catalog.Claim_won _ 100 [] [100]); reflexivity|].
  eapply rtc_l; [apply (Catalog.Claim_lost _ 100 [] []); reflexivity|]. apply rtc_refl.
Defined.
