(* ===== verification/ForwardEngine.v ===== *)
(** * The forwarding engine: [src/clanto/forwarding/engine.rs], with the decisions of
      [host.rs]

    The channels of a session's forwarding, the same on the host and on the controller:
    who may open which id, the listeners that the controller asks the host for, the
    tasks of the channels up to the relay.  Windows, credit, queues and frames are those
    of [PortForwardMux], whose primitives the code reuses; the policy is that of
    [Forwarding].  The tasks are steps that interleave with the peer's messages:
    a task of a channel is known by the object it shares with its entry, a listener's by
    the number it was started with.  Sockets are outcomes given to the steps. *)

From S2P Require Import Prelude NetAddr PortForwardMux Forwarding.

Module Engine.
Import Tunnel.

Definition LISTEN_HOST : rstr := Str.lit "clanto-listen".
Definition MAX_LISTENERS : Z := 32.

Inductive Side := Host | Controller.

Definition first_id (s : Side) : Z := match s with Controller => 1 | Host => 2 end.

(** [%] of a positive number. *)
Definition peer_owns (s : Side) (id : Z) : bool :=
  match s with
  | Host => (0 <? id) && (Z.rem id 2 =? 1)
  | Controller => (0 <? id) && (Z.rem id 2 =? 0)
  end.

(** [ClantoForward]'s union, as far as the engine reads it. *)
Inductive Union :=
| Channel (f : frame)
| Listen (listen_id port : Z)
| Unlisten (listen_id : Z)
| Listening (listen_id : Z) (success : bool) (message : rstr) (port : Z)
| OtherUnion.

(** The trait: what the side decides at a moment. *)
Record Hooks := mkHooks {
  authorize_open : rstr -> Z -> result (list SocketAddr) rstr;
  authorize_listen : result unit rstr }.

(** What leaves the engine, in order: frames and messages to the peer, the calls of
    [on_listening] and [on_refused], the attempts to connect. *)
Inductive Out :=
| ToPeer (f : frame)
| Send (u : Union)
| OnListening (listen_id : Z) (success : bool) (message : rstr) (port : Z)
| OnRefused (channel_id : Z) (message : rstr)
| Tried (r : nat) (a : SocketAddr).

Record Engine := mkEngine {
  side : Side;
  raw_closed : bool;
  store : gmap nat ChanObj;
  channels : gmap Z ChannelEntry;
  next_id : Z;
  listeners : gmap Z nat;
  listener_channels : gmap Z (list Z);
  teardown : bool }.

Definition new (s : Side) : Engine := mkEngine s false ∅ ∅ (first_id s) ∅ ∅ false.

Definition set_channels (v : gmap Z ChannelEntry) (e : Engine) : Engine :=
  mkEngine (side e) (raw_closed e) (store e) v (next_id e) (listeners e) (listener_channels e) (teardown e).
Definition set_store (v : gmap nat ChanObj) (e : Engine) : Engine :=
  mkEngine (side e) (raw_closed e) v (channels e) (next_id e) (listeners e) (listener_channels e) (teardown e).
Definition set_listeners (v : gmap Z nat) (c : gmap Z (list Z)) (e : Engine) : Engine :=
  mkEngine (side e) (raw_closed e) (store e) (channels e) (next_id e) v c (teardown e).

Definition update_obj (r : nat) (f : ChanObj -> ChanObj) (e : Engine) : Engine :=
  set_store (alter f r (store e)) e.

(** An entry goes, and with it its sender. *)
Definition remove_entry (id : Z) (e : Engine) : Engine :=
  match channels e !! id with
  | Some c => update_obj (e_ref c) drop_sender (set_channels (delete id (channels e)) e)
  | None => e
  end.

Definition send_to (r : nat) (x : Inbound) (e : Engine) : Engine :=
  update_obj r (fun o => fst (send o x)) e.

(** ** Opening *)

Definition next_after (s : Side) (id : Z) : Z :=
  if id + 2 <=? Int.smax 32 then id + 2 else first_id s.

Fixpoint alloc_id (fuel : nat) (s : Side) (chs : gmap Z ChannelEntry) (id : Z) : option Z :=
  match fuel with
  | O => None
  | S f =>
      match chs !! id with
      | Some _ => alloc_id f s chs (next_after s id)
      | None => Some id
      end
  end.

(** The id, the object and the frame that the task sends first; [None] if the search of
    an id did not end. *)
Definition open_outgoing (host : rstr) (port : Z) (e : Engine)
  : Engine * option (result (Z * nat * frame) rstr) :=
  if raw_closed e then (e, Some (Err (Str.lit "forwarding session is gone")))
  else if Window.MAX_CHANNELS <=? Z.of_nat (size (channels e))
  then (e, Some (Err (Str.lit "too many forwarding channels")))
  else
    match alloc_id (S (size (channels e))) (side e) (channels e) (next_id e) with
    | None => (e, None)
    | Some id =>
        let r := fresh (dom (store e)) in
        let o := mk_obj [] true true (Window.credit_new Window.INITIAL_WINDOW)
                   (Window.new Window.CHANNEL_WINDOW) in
        (mkEngine (side e) (raw_closed e) (<[r := o]> (store e))
           (<[id := mk_entry r false]> (channels e)) (next_after (side e) id)
           (listeners e) (listener_channels e) (teardown e),
         Some (Ok (id, r, open_msg id host port Window.CHANNEL_WINDOW)))
    end.

Definition is_closed (e : Engine) (r : nat) : bool :=
  match store e !! r with Some o => negb (o_rx_alive o) | None => true end.

(** The object of the task to start, if the open is taken up. *)
Definition on_open (id window : Z) (e : Engine) : Engine * list Out * option nat :=
  if negb (peer_owns (side e) id) then (e, [], None)
  else
    let e := set_channels (filter (fun '(_, c) => is_closed e (e_ref c) = false) (channels e)) e in
    match channels e !! id with
    | Some _ => (e, [], None)
    | None =>
        if Window.MAX_CHANNELS <=? Z.of_nat (size (channels e)) then
          (e, [ToPeer (opened_msg id false (Str.lit "Too many forwarding channels") 0)], None)
        else
          let r := fresh (dom (store e)) in
          let o := mk_obj [] true true (Window.credit_new (Window.effective_window window))
                     (Window.new Window.INITIAL_WINDOW) in
          (set_store (<[r := o]> (store e))
             (set_channels (<[id := mk_entry r true]> (channels e)) e), [], Some r)
    end.

Definition on_opened (id : Z) (success : bool) (message : rstr) (window : Z) (e : Engine)
  : Engine * list Out :=
  match channels e !! id with
  | None => (e, [])
  | Some c =>
      if success then
        if e_opened c then (e, [])
        else
          (update_obj (e_ref c)
             (fun o => mk_obj (o_inbound o) (o_rx_alive o) (o_tx_alive o)
                         (Window.raise_initial (o_credit o) window) (o_window o))
             (set_channels (<[id := mk_entry (e_ref c) true]> (channels e)) e), [])
      else (remove_entry id (send_to (e_ref c) InClose e), [OnRefused id message])
  end.

Definition on_data (id : Z) (data : bytes) (e : Engine) : Engine :=
  match channels e !! id with
  | None => e
  | Some c =>
      match store e !! e_ref c with
      | None => e
      | Some o =>
          let '(w, accepted) := Window.accept (o_window o) (blen data) in
          let o := mk_obj (o_inbound o) (o_rx_alive o) (o_tx_alive o) (o_credit o) w in
          let '(o, delivered) := if accepted then send o (InData data) else (o, false) in
          let e := set_store (<[e_ref c := o]> (store e)) e in
          if delivered then e
          else remove_entry id (if accepted then e else send_to (e_ref c) InViolation e)
      end
  end.

(** The frames of a channel; an open is [on_open]. *)
Definition on_channel (f : frame) (e : Engine) : Engine * list Out * option nat :=
  match f with
  | Open id _ _ window => on_open id window e
  | Opened id success message window => (on_opened id success message window e, None)
  | Data id data => (on_data id data e, [], None)
  | Close id =>
      match channels e !! id with
      | Some c => (remove_entry id (send_to (e_ref c) InClose e), [], None)
      | None => (e, [], None)
      end
  | WindowUpdate id add =>
      match channels e !! id with
      | Some c =>
          (update_obj (e_ref c)
             (fun o => mk_obj (o_inbound o) (o_rx_alive o) (o_tx_alive o)
                         (Window.add (o_credit o) add) (o_window o)) e, [], None)
      | None => (e, [], None)
      end
  | Unknown => (e, [], None)
  end.

Definition close_channel (acc : Engine * list Out) (id : Z) : Engine * list Out :=
  let '(e, out) := acc in
  match channels e !! id with
  | Some c => (remove_entry id (send_to (e_ref c) InClose e), out ++ [ToPeer (close_msg id)])
  | None => (e, out)
  end.

Definition close_channels (ids : list Z) (e : Engine) : Engine * list Out :=
  foldl close_channel (e, []) ids.

Definition close_all (e : Engine) : Engine :=
  let refs := e_ref <$> (map_to_list (channels e)).*2 in
  mkEngine (side e) (raw_closed e) (foldr (alter drop_sender) (store e) refs) ∅ (next_id e) ∅
    (listener_channels e) true.

(** ** Listeners *)

Definition valid_listen_port (port : Z) : bool :=
  (0 <=? port) && (port <=? Int.umax 16) && ((port =? 0) || (1024 <=? port)).

(** [bind] is the outcome of binding 127.0.0.1 at the port: the port bound. *)
Definition on_listen (h : Hooks) (bind : result Z rstr) (task : nat) (listen_id port : Z) (e : Engine)
  : Engine * list Out * bool :=
  let refuse message := (e, [Send (Listening listen_id false message 0)], false) in
  match authorize_listen h with
  | Err message => refuse message
  | Ok _ =>
      if negb (valid_listen_port port) then refuse (Str.lit "Invalid port")
      else if MAX_LISTENERS <=? Z.of_nat (size (listeners e))
      then refuse (Str.lit "Too many forwarding listeners")
      else
        match bind with
        | Err err =>
            refuse (Str.lit "Cannot listen on port " ++ Str.show_int port ++ Str.lit ": " ++ err)
        | Ok bound =>
            (set_listeners (<[listen_id := task]> (listeners e)) (listener_channels e) e,
             [Send (Listening listen_id true [] bound)], true)
        end
  end.

Definition on_unlisten (listen_id : Z) (e : Engine) : Engine * list Out :=
  let ids := default [] (listener_channels e !! listen_id) in
  close_channels ids
    (set_listeners (delete listen_id (listeners e)) (delete listen_id (listener_channels e)) e).

(** The channel of an accepted socket is written down for its listener. *)
Definition record_channel (listen_id channel : Z) (e : Engine) : Engine :=
  let live := List.filter (fun c => bool_decide (is_Some (channels e !! c)))
                (default [] (listener_channels e !! listen_id)) in
  set_listeners (listeners e) (<[listen_id := live ++ [channel]]> (listener_channels e)) e.

(** ** The tasks *)

Inductive Kind := Outgoing (host : rstr) (port : Z) | Accepted (host : rstr) (port : Z).

Inductive Setup := Authorizing | Connecting (addrs : list SocketAddr).

(** [Setting]: what arrived meanwhile, and its charge. *)
Inductive Phase :=
| Sending
| Setting (pending : list bytes) (pending_len : Z) (setup : Setup)
| Relaying (pending : list bytes)
| Over.

Record Task := mkTask { t_id : Z; t_kind : Kind; t_phase : Phase }.

(** A listener's task: [holding] is the channel opened and not written down yet. *)
Record Listener := mkListener { l_id : Z; holding : option Z; aborted : bool }.

Record System := mkSystem { engine : Engine; tasks : gmap nat Task; listening : gmap nat Listener }.

Definition start (s : Side) : System := mkSystem (new s) ∅ ∅.

(** The result, or the last error; the addresses tried. *)
Fixpoint connect_any (try : SocketAddr -> option rstr) (last : rstr) (addrs : list SocketAddr)
  : result SocketAddr rstr * list SocketAddr :=
  match addrs with
  | [] => (Err last, [])
  | a :: addrs =>
      match try a with
      | None => (Ok a, [a])
      | Some err => let '(r, tried) := connect_any try err addrs in (r, a :: tried)
      end
  end.

Inductive TaskEvent :=
| SendOpen (ok : bool)                          (* the open is sent, or the session is gone *)
| Takes                                         (* [inbound.recv()] *)
| Authorizes (h : Hooks)                        (* [authorize.await] *)
| Connects (try : SocketAddr -> option rstr) (ok : bool)  (* [connect_any], then [opened] *)
| RelayEnds (first second : Relay.RelayEnd).

Definition no_address : rstr := Str.lit "no address".

(** The queue is empty and its sender alive: the [select!] looks at the setup. *)
Definition idle (o : ChanObj) : bool :=
  match o_inbound o with [] => o_tx_alive o | _ => false end.

(** The phase after the event, what is sent, the object. *)
Definition task_step (id : Z) (kind : Kind) (phase : Phase) (o : ChanObj) (r : nat) (ev : TaskEvent)
  : option (Phase * list Out * ChanObj) :=
  match phase, kind, ev with
  | Sending, Outgoing host port, SendOpen ok =>
      Some (if ok then (Relaying [], [ToPeer (open_msg id host port Window.CHANNEL_WINDOW)], o)
            else (Over, [], o))
  | Setting pending len setup, Accepted _ _, Takes =>
      let pop q := mk_obj q (o_rx_alive o) (o_tx_alive o) (o_credit o) (o_window o) in
      match o_inbound o with
      | InData b :: q =>
          if Host.pending_fits len (blen b)
          then Some (Setting (pending ++ [b]) (len + Window.charge (blen b)) setup, [], pop q)
          else Some (Over, [ToPeer (close_msg id)], pop q)
      | InClose :: q => Some (Over, [], pop q)
      | InViolation :: q => Some (Over, [ToPeer (close_msg id)], pop q)
      | [] => if o_tx_alive o then None else Some (Over, [], o)
      end
  | Setting pending len Authorizing, Accepted host port, Authorizes h =>
      if negb (idle o) then None
      else
        match authorize_open h host port with
        | Ok addrs => Some (Setting pending len (Connecting addrs), [], o)
        | Err message => Some (Over, [ToPeer (opened_msg id false message 0)], o)
        end
  | Setting pending _ (Connecting addrs), Accepted _ _, Connects try ok =>
      if negb (idle o) then None
      else
        let '(res, tried) := connect_any try no_address addrs in
        let out := Tried r <$> tried in
        match res with
        | Err message => Some (Over, out ++ [ToPeer (opened_msg id false message 0)], o)
        | Ok _ =>
            let o := mk_obj (o_inbound o) (o_rx_alive o) (o_tx_alive o) (o_credit o)
                       (Window.grant (o_window o) (Window.CHANNEL_WINDOW - Window.INITIAL_WINDOW)) in
            if ok then Some (Relaying pending, out ++ [ToPeer (opened_msg id true [] Window.CHANNEL_WINDOW)], o)
            else Some (Over, out, o)
        end
  | Relaying _, _, RelayEnds first second =>
      Some (Over, match Relay.run_channel_end id first second with
                  | Some f => [ToPeer f]
                  | None => []
                  end, o)
  | _, _, _ => None
  end.

(** The receiver of a task that is over is dropped. *)
Definition receiver (phase : Phase) (o : ChanObj) : ChanObj :=
  match phase with
  | Over => mk_obj [] false (o_tx_alive o) (o_credit o) (o_window o)
  | _ => o
  end.

(** ** The system *)

Inductive Event :=
| FromPeer (u : Union) (h : Hooks) (bind : result Z rstr)
| Accepts (t : nat)                (* a listener's task accepts a socket *)
| Records (t : nat)                (* and writes its channel down *)
| OpenHere (host : rstr) (port : Z) (* the side opens a channel of its own *)
| TaskStep (r : nat) (ev : TaskEvent)
| TaskEnds (r : nat)               (* [channels.remove(&id)] at the end of a task *)
| CloseAll.

(** [open_outgoing] with its task. *)
Definition opens (host : rstr) (port : Z) (s : System) : System * option Z :=
  match open_outgoing host port (engine s) with
  | (e, Some (Ok (id, r, _))) =>
      (mkSystem e (<[r := mkTask id (Outgoing host port) Sending]> (tasks s)) (listening s), Some id)
  | (e, _) => (mkSystem e (tasks s) (listening s), None)
  end.

Definition abort (t : nat) (ls : gmap nat Listener) : gmap nat Listener :=
  alter (fun l => mkListener (l_id l) (holding l) true) t ls.

(** [on_message]. *)
Definition on_message (u : Union) (h : Hooks) (bind : result Z rstr) (s : System) : System * list Out :=
  let e := engine s in
  match u, side e with
  | Channel f, _ =>
      let '(e, out, task) := on_channel f e in
      let ts :=
        match task, f with
        | Some r, Open id host port _ =>
            <[r := mkTask id (Accepted host port) (Setting [] 0 Authorizing)]> (tasks s)
        | _, _ => tasks s
        end in
      (mkSystem e ts (listening s), out)
  | Listen id port, Host =>
      let t := fresh (dom (listening s)) in
      let '(e', out, started) := on_listen h bind t id port e in
      if started : bool then
        let ls := match listeners e !! id with Some old => abort old (listening s) | None => listening s end in
        (mkSystem e' (tasks s) (<[t := mkListener id None false]> ls), out)
      else (mkSystem e' (tasks s) (listening s), out)
  | Unlisten id, Host =>
      let ls := match listeners e !! id with Some t => abort t (listening s) | None => listening s end in
      let '(e, out) := on_unlisten id e in
      (mkSystem e (tasks s) ls, out)
  | Listening id success message port, Controller =>
      (s, [OnListening id success message port])
  | _, _ => (s, [])
  end.

Definition step (ev : Event) (s : System) : System * list Out :=
  match ev with
  | FromPeer u h bind => on_message u h bind s
  | OpenHere host port => ((opens host port s).1, [])
  | Accepts t =>
      match listening s !! t with
      | Some (mkListener id None false) =>
          let '(s, channel) := opens LISTEN_HOST id s in
          (mkSystem (engine s) (tasks s) (<[t := mkListener id channel false]> (listening s)), [])
      | _ => (s, [])
      end
  | Records t =>
      match listening s !! t with
      | Some (mkListener id (Some channel) gone) =>
          (mkSystem (record_channel id channel (engine s)) (tasks s)
             (<[t := mkListener id None gone]> (listening s)), [])
      | _ => (s, [])
      end
  | TaskStep r ev =>
      match tasks s !! r, store (engine s) !! r with
      | Some task, Some o =>
          match task_step (t_id task) (t_kind task) (t_phase task) o r ev with
          | Some (phase, out, o) =>
              (mkSystem (set_store (<[r := receiver phase o]> (store (engine s))) (engine s))
                 (<[r := mkTask (t_id task) (t_kind task) phase]> (tasks s)) (listening s), out)
          | None => (s, [])
          end
      | _, _ => (s, [])
      end
  | TaskEnds r =>
      match tasks s !! r with
      | Some (mkTask id _ Over) =>
          (mkSystem (remove_entry id (engine s)) (delete r (tasks s)) (listening s), [])
      | _ => (s, [])
      end
  | CloseAll =>
      (mkSystem (close_all (engine s)) (tasks s)
         (foldr abort (listening s) (map_to_list (listeners (engine s))).*2), [])
  end.

(** A run and what it sent. *)
Fixpoint run (evs : list Event) (s : System) : System * list Out :=
  match evs with
  | [] => (s, [])
  | ev :: evs =>
      let '(s, out) := step ev s in
      let '(s, outs) := run evs s in (s, out ++ outs)
  end.

(** ** The host's decisions *)

(** [allowed] tells whether the connection has the permission to forward. *)
Definition DENIED_PERMISSION : rstr := Str.lit "Forwarding is not allowed for this connection".

Definition host_hooks (get_option : rstr -> rstr) (lookup_host : rstr -> Z -> option (list IpAddr))
    (allowed : bool) : Hooks :=
  mkHooks
    (fun host port =>
       if bool_decide (host = LISTEN_HOST) then Err DENIED_TARGET
       else if negb allowed then Err DENIED_PERMISSION
       else match (authorize_target get_option lookup_host ToHost host port).1 with
            | Ok d => match target d with Addrs addrs => Ok addrs end
            | Err reason => Err reason
            end)
    (if negb allowed then Err DENIED_PERMISSION else Forwarding.authorize_listen get_option).
End Engine.

(** * Specification *)

Definition other (s : Engine.Side) : Engine.Side :=
  match s with Engine.Host => Engine.Controller | Engine.Controller => Engine.Host end.

(** An id that the side gives to its own channels. *)
Definition own (s : Engine.Side) (id : Z) : Prop :=
  Engine.peer_owns (other s) id = true /\ id <= Int.smax 32.

Record sound (s : Engine.System) : Prop := {
  so_next : own (Engine.side (Engine.engine s)) (Engine.next_id (Engine.engine s));
  so_entry id c : Engine.channels (Engine.engine s) !! id = Some c ->
    exists t, Engine.tasks s !! Tunnel.e_ref c = Some t /\ Engine.t_id t = id;
  so_task r t : Engine.tasks s !! r = Some t ->
    is_Some (Engine.store (Engine.engine s) !! r)
    /\ match Engine.t_kind t with
       | Engine.Outgoing _ _ => own (Engine.side (Engine.engine s)) (Engine.t_id t)
       | Engine.Accepted _ _ => Engine.peer_owns (Engine.side (Engine.engine s)) (Engine.t_id t) = true
       end;
  so_size : Z.of_nat (size (Engine.channels (Engine.engine s))) <= Window.MAX_CHANNELS;
  so_listeners : Z.of_nat (size (Engine.listeners (Engine.engine s))) <= Engine.MAX_LISTENERS }.

Section Vetted.
Import Engine.

(** The host's hooks, at whatever moment the task asks them: the options, the resolver
    and the permission of then. *)
Definition host_policy (ev : Event) : Prop :=
  match ev with
  | TaskStep _ (Authorizes h) =>
      exists get_option lookup_host allowed,
        h = host_hooks get_option lookup_host allowed /\ resolver_wf lookup_host
  | _ => True
  end.

(** The peer has asked for the destination, on this id. *)
Definition asked (past : list Event) (id : Z) (host : rstr) (port : Z) : Prop :=
  exists window h bind, FromPeer (Channel (Open id host port window)) h bind ∈ past.

(** The host has decided that the task may connect to these addresses. *)
Definition granted (past : list Event) (r : nat) (host : rstr) (port : Z) (addrs : list SocketAddr) : Prop :=
  exists get_option lookup_host d,
    TaskStep r (Authorizes (host_hooks get_option lookup_host true)) ∈ past
    /\ resolver_wf lookup_host /\ host <> LISTEN_HOST
    /\ (authorize_target get_option lookup_host ToHost host port).1 = Ok d
    /\ target d = Addrs addrs.

Definition vetted (past : list Event) (s : System) : Prop :=
  forall r t host port, tasks s !! r = Some t -> t_kind t = Accepted host port ->
    asked past (t_id t) host port
    /\ match t_phase t with
       | Setting _ _ (Connecting addrs) => granted past r host port addrs
       | _ => True
       end.

Definition no_attempt (x : Out) : Prop := match x with Tried _ _ => False | _ => True end.

(** An entry of the side's own channel for listener [l] is on its list, or in the hands of
    a task of that listener. *)
Definition kept_by (s : System) (l id : Z) : Prop :=
  id ∈ default [] (listener_channels (engine s) !! l)
  \/ exists t x, listening s !! t = Some x /\ l_id x = l /\ holding x = Some id.

Definition channel_of (s : System) (l id : Z) : Prop :=
  exists c t, Engine.channels (engine s) !! id = Some c /\ tasks s !! Tunnel.e_ref c = Some t
    /\ t_kind t = Outgoing LISTEN_HOST l.

Definition kept (s : System) : Prop := forall l id, channel_of s l id -> kept_by s l id.

(** A listener's task that still accepts is the one the engine knows for its id. *)
Definition accepting (s : System) : Prop :=
  forall t x, listening s !! t = Some x -> aborted x = false ->
    listeners (engine s) !! l_id x = Some t.

(** The side opens no channel of its own that looks like a listener's. *)
Definition no_listen_name (ev : Event) : Prop :=
  match ev with OpenHere host _ => host <> LISTEN_HOST | _ => True end.
End Vetted.

(** ** Samples *)

Definition no_hooks : Engine.Hooks := Engine.mkHooks (fun _ _ => Err []) (Ok tt).
Definition sample_hooks : Engine.Hooks := Engine.host_hooks sample_options sample_lookup true.
Definition peer (u : Engine.Union) : Engine.Event := Engine.FromPeer u no_hooks (Ok 40000).

Definition forward_run : list Engine.Event :=
  [peer (Engine.Channel (Open 1 (Str.lit "nas.lan") 443 Window.CHANNEL_WINDOW));
   Engine.TaskStep 0 (Engine.Authorizes sample_hooks);
   Engine.TaskStep 0 (Engine.Connects (fun _ => None) true)].

Definition listen_run : list Engine.Event :=
  [peer (Engine.Listen 7 0); Engine.Accepts 0; Engine.Records 0; Engine.Accepts 0].

(** The first task ends after the peer has closed its channel and opened another under
    the same id. *)
Definition reopen_run : list Engine.Event :=
  [peer (Engine.Channel (Open 1 (Str.lit "nas.lan") 443 0)); peer (Engine.Channel (Close 1));
   Engine.TaskStep 0 Engine.Takes;
   peer (Engine.Channel (Open 1 (Str.lit "nas.lan") 443 0));
   Engine.TaskEnds 0].

(** * Theorems *)

Section EngineProofs.
Import Engine.

(** ** Ids *)

Lemma own_spec s id :
  own s id <-> 0 < id <= Int.smax 32 /\ Z.rem id 2 = match s with Host => 0 | Controller => 1 end.
Proof.
  unfold own, peer_owns. destruct s; cbn [other];
    rewrite andb_true_iff, Z.ltb_lt, Z.eqb_eq; intuition lia.
Qed.

Lemma own_not_peers s id : own s id -> peer_owns s id = false.
Proof.
  rewrite own_spec. intros [Hid Hr]. unfold peer_owns.
  destruct s; apply andb_false_iff; right; apply Z.eqb_neq; lia.
Qed.

(** How many ids a side has, and the one [i] places after an id. *)
Definition id_count (s : Side) : Z := match s with Controller => 1073741824 | Host => 1073741823 end.
Definition id_at (s : Side) (id i : Z) : Z :=
  first_id s + 2 * (((id - first_id s) / 2 + i) mod id_count s).

Lemma id_at_own s id i : own s (id_at s id i).
Proof.
  rewrite own_spec. unfold id_at. change (Int.smax 32) with 2147483647.
  destruct s; cbn [first_id id_count]; Z.to_euclidean_division_equations; lia.
Qed.

Lemma id_at_0 s id : own s id -> id_at s id 0 = id.
Proof.
  rewrite own_spec. unfold id_at. change (Int.smax 32) with 2147483647. intros [Hid Hr].
  destruct s; cbn [first_id id_count] in *; Z.to_euclidean_division_equations; lia.
Qed.

Lemma id_at_next s id i : next_after s (id_at s id i) = id_at s id (i + 1).
Proof.
  unfold id_at, next_after. change (Int.smax 32) with 2147483647.
  set (k := (id - first_id s) / 2). rewrite Z.add_assoc. generalize (k + i). intros m.
  destruct s; cbn [first_id id_count]; zbool;
    Z.to_euclidean_division_equations; lia.
Qed.

Lemma id_at_inj s id i j :
  0 <= i <= 256 -> 0 <= j <= 256 -> id_at s id i = id_at s id j -> i = j.
Proof.
  unfold id_at. set (k := (id - first_id s) / 2). clearbody k. intros Hi Hj E.
  destruct s; cbn [first_id id_count] in *; Z.to_euclidean_division_equations; lia.
Qed.

Lemma own_next s id : own s id -> own s (next_after s id).
Proof. intros Ho. rewrite <- (id_at_0 s id Ho), id_at_next. apply id_at_own. Qed.

Lemma alloc_tried fuel s chs id x :
  Engine.alloc_id fuel s chs (id_at s id x) = None ->
  forall i, 0 <= i < Z.of_nat fuel -> is_Some (chs !! id_at s id (x + i)).
Proof.
  revert x. induction fuel as [|f IH]; intros x Ha i Hi; [lia|]. cbn [Engine.alloc_id] in Ha.
  destruct (chs !! id_at s id x) as [c|] eqn:E; [|done]. rewrite id_at_next in Ha.
  destruct (decide (i = 0)) as [->|]; [rewrite Z.add_0_r; eauto|].
  replace (x + i) with (x + 1 + (i - 1)) by lia. apply IH; [done|lia].
Qed.

Lemma alloc_found fuel s chs id id' :
  Engine.alloc_id fuel s chs id = Some id' -> own s id -> own s id' /\ chs !! id' = None.
Proof.
  revert id. induction fuel as [|f IH]; intros id Ha Ho; [done|]. cbn [Engine.alloc_id] in Ha.
  destruct (chs !! id) eqn:E; [by apply (IH _ Ha), own_next|]. by injection Ha as <-.
Qed.

Lemma alloc_total s (chs : gmap Z Tunnel.ChannelEntry) id :
  own s id -> Z.of_nat (size chs) < Window.MAX_CHANNELS ->
  is_Some (Engine.alloc_id (S (size chs)) s chs id).
Proof.
  intros Ho Hsz. destruct (Engine.alloc_id _ _ _ _) eqn:E; [eauto|]. exfalso.
  rewrite <- (id_at_0 s id Ho) in E. pose proof (alloc_tried _ _ _ _ _ E) as Ht.
  set (ids := (fun i => id_at s id i) <$> seqZ 0 (Z.of_nat (S (size chs)))).
  assert (NoDup ids) as Hnd.
  { apply NoDup_fmap_2_strong; [|apply NoDup_seqZ]. unfold Window.MAX_CHANNELS in Hsz.
    intros a b Ha Hb. rewrite elem_of_seqZ in Ha, Hb. apply id_at_inj; lia. }
  assert (list_to_set ids ⊆ dom chs) as Hsub.
  { intros k Hk. apply elem_of_list_to_set, list_elem_of_fmap in Hk as (i & -> & Hi).
    rewrite elem_of_seqZ in Hi. apply elem_of_dom. specialize (Ht i). rewrite Z.add_0_l in Ht. apply Ht. lia. }
  apply subseteq_size in Hsub. rewrite size_dom, size_list_to_set in Hsub by done.
  unfold ids in Hsub. rewrite length_fmap, length_seqZ in Hsub. lia.
Qed.

(** Below the limit of channels the search of an id ends, and finds one of the side's
    own parity that no channel holds. *)
Theorem outgoing_gets_an_own_id (host : rstr) (port : Z) (e : Engine) :
  raw_closed e = false -> own (side e) (next_id e) ->
  Z.of_nat (size (Engine.channels e)) < Window.MAX_CHANNELS ->
  exists e' id r, Engine.open_outgoing host port e
      = (e', Some (Ok (id, r, open_msg id host port Window.CHANNEL_WINDOW)))
    /\ own (side e) id /\ Engine.channels e !! id = None /\ Engine.store e !! r = None
    /\ Engine.channels e' = <[id := Tunnel.mk_entry r false]> (Engine.channels e)
    /\ own (side e) (next_id e').
Proof.
  intros Hraw Ho Hsz. unfold open_outgoing. rewrite Hraw, (proj2 (Z.leb_gt _ _) Hsz).
  destruct (alloc_total (side e) (Engine.channels e) (next_id e) Ho Hsz) as [id E]. rewrite E.
  destruct (alloc_found _ _ _ _ _ E Ho) as [Hid Hfree].
  do 3 eexists. split; [reflexivity|]. split_and!; try done; [|by apply own_next].
  apply not_elem_of_dom, is_fresh.
Qed.

(** ** What every run keeps *)

(** The engine loses entries, or changes their objects. *)
Record shrinks (e e' : Engine) : Prop := {
  sh_side : side e' = side e;
  sh_next : next_id e' = next_id e;
  sh_entry id c' : Engine.channels e' !! id = Some c' ->
    exists c, Engine.channels e !! id = Some c /\ Tunnel.e_ref c' = Tunnel.e_ref c;
  sh_store r : is_Some (Engine.store e !! r) -> is_Some (Engine.store e' !! r);
  sh_listeners : listeners e' = listeners e;
  sh_listed : listener_channels e' = listener_channels e }.

Lemma shrinks_refl e : shrinks e e.
Proof. by constructor; eauto. Qed.

Lemma shrinks_trans e1 e2 e3 : shrinks e1 e2 -> shrinks e2 e3 -> shrinks e1 e3.
Proof.
  intros [A1 A2 A3 A4 A5 A6] [B1 B2 B3 B4 B5 B6]. constructor; try congruence.
  - intros id c3 H3. destruct (B3 id c3 H3) as (c2 & H2 & E2). destruct (A3 id c2 H2) as (c1 & H1 & E1).
    exists c1. split; [done|congruence].
  - auto.
Qed.

Lemma update_shrinks r f e : shrinks e (Engine.update_obj r f e).
Proof.
  constructor; try done; [eauto|]. intros r' Hr. cbn [Engine.update_obj Engine.set_store Engine.store].
  destruct (decide (r = r')) as [->|Hne]; [by rewrite lookup_alter_eq, fmap_is_Some|by rewrite lookup_alter_ne].
Qed.

Lemma remove_shrinks id e : shrinks e (Engine.remove_entry id e).
Proof.
  unfold Engine.remove_entry. destruct (Engine.channels e !! id) as [c|]; [|apply shrinks_refl].
  eapply shrinks_trans; [|apply update_shrinks]. constructor; try done.
  cbn. intros id' c' [_ H']%lookup_delete_Some. eauto.
Qed.

Lemma insert_entry_shrinks id c b e :
  Engine.channels e !! id = Some c ->
  shrinks e (Engine.set_channels (<[id := Tunnel.mk_entry (Tunnel.e_ref c) b]> (Engine.channels e)) e).
Proof.
  intros Hc. constructor; try done. cbn. intros id' c' H'. destruct (decide (id = id')) as [<-|Hne].
  - rewrite lookup_insert_eq in H'. injection H' as <-. eauto.
  - rewrite lookup_insert_ne in H' by done. eauto.
Qed.

Lemma store_shrinks r o e :
  shrinks e (Engine.set_store (<[r := o]> (Engine.store e)) e).
Proof.
  constructor; try done; [eauto|]. intros r' Hr. cbn. destruct (decide (r = r')) as [->|Hne].
  - rewrite lookup_insert_eq. eauto.
  - by rewrite lookup_insert_ne.
Qed.

Lemma opened_shrinks id success message window e :
  shrinks e (Engine.on_opened id success message window e).1.
Proof.
  unfold on_opened. destruct (Engine.channels e !! id) as [c|] eqn:Ec; [|apply shrinks_refl].
  destruct success; [destruct (Tunnel.e_opened c); [apply shrinks_refl|]|]; cbn [fst].
  - eapply shrinks_trans; [by apply insert_entry_shrinks|apply update_shrinks].
  - eapply shrinks_trans; [apply update_shrinks|apply remove_shrinks].
Qed.

Lemma data_shrinks id data e : shrinks e (Engine.on_data id data e).
Proof.
  unfold on_data. destruct (Engine.channels e !! id) as [c|]; [|apply shrinks_refl].
  destruct (Engine.store e !! Tunnel.e_ref c) as [o|]; [|apply shrinks_refl].
  destruct (Window.accept _ _) as [w accepted].
  destruct (if accepted then _ else _) as [o' delivered].
  eapply shrinks_trans; [apply (store_shrinks (Tunnel.e_ref c) o')|].
  destruct delivered; [apply shrinks_refl|].
  eapply shrinks_trans; [|apply remove_shrinks]. destruct accepted; [apply shrinks_refl|apply update_shrinks].
Qed.

Lemma close_shrinks_from ids e out : shrinks e (foldl close_channel (e, out) ids).1.
Proof.
  revert e out. induction ids as [|id ids IH]; intros e out; [apply shrinks_refl|].
  cbn [foldl]. unfold close_channel at 2. destruct (Engine.channels e !! id) as [c|]; [|apply IH].
  eapply shrinks_trans; [|apply IH]. eapply shrinks_trans; [apply update_shrinks|apply remove_shrinks].
Qed.

Lemma close_shrinks ids e : shrinks e (Engine.close_channels ids e).1.
Proof. apply close_shrinks_from. Qed.

Lemma filter_shrinks e :
  shrinks e (Engine.set_channels (filter (fun '(_, c) => Engine.is_closed e (Tunnel.e_ref c) = false) (Engine.channels e)) e).
Proof. constructor; try done. cbn. intros id c [Hc _]%map_lookup_filter_Some. eauto. Qed.

Lemma shrinks_size e e' : shrinks e e' -> (size (Engine.channels e') <= size (Engine.channels e))%nat.
Proof.
  intros Hs. rewrite <- !size_dom. apply subseteq_size. intros id [c' Hc']%elem_of_dom.
  destruct (sh_entry _ _ Hs id c' Hc') as (c & Hc & _). apply elem_of_dom. eauto.
Qed.

Lemma sound_shrinks e e' ts ls ls' : shrinks e e' -> sound (mkSystem e ts ls) -> sound (mkSystem e' ts ls').
Proof.
  intros Hs [S1 S2 S3 S4 S5]. cbn in *. pose proof (shrinks_size _ _ Hs) as Hsz.
  destruct Hs as [A1 A2 A3 A4 A5 _].
  constructor; cbn; rewrite ?A1, ?A2, ?A5; try done; [|clear -S3 A1 A4|lia].
  - intros id c' Hc'. destruct (A3 id c' Hc') as (c & Hc & ->). by apply S2.
  - intros r t Ht. destruct (S3 r t Ht) as [Hr Hk]. split; [by apply A4|done].
Qed.

Lemma opens_sound host port s : sound s -> sound (opens host port s).1.
Proof.
  intros Hs. unfold opens, open_outgoing. pose proof Hs as [S1 S2 S3 S4 S5].
  destruct (raw_closed (engine s)); [by destruct s|].
  destruct (Z.leb_spec Window.MAX_CHANNELS (Z.of_nat (size (Engine.channels (engine s))))); [by destruct s|].
  destruct (Engine.alloc_id _ _ _ _) as [id|] eqn:E; [|by destruct s].
  destruct (alloc_found _ _ _ _ _ E S1) as [Hid Hfree].
  set (r := fresh (dom (Engine.store (engine s)))).
  assert (Engine.store (engine s) !! r = None) as Hr by apply not_elem_of_dom, is_fresh.
  constructor; cbn [fst engine tasks side next_id Engine.channels Engine.store listeners].
  - by apply own_next.
  - intros id' c Hc. destruct (decide (id = id')) as [<-|Hne].
    + rewrite lookup_insert_eq in Hc. injection Hc as <-. eexists. by rewrite lookup_insert_eq.
    + rewrite lookup_insert_ne in Hc by done. destruct (S2 _ _ Hc) as (t & Ht & Hti).
      exists t. rewrite lookup_insert_ne; [done|]. intros Hx. destruct (S3 _ _ Ht) as [[o Ho] _].
      rewrite <- Hx in Ho. congruence.
  - intros r' t Ht. destruct (decide (r = r')) as [<-|Hne].
    + rewrite lookup_insert_eq in Ht. injection Ht as <-. rewrite lookup_insert_eq. split; [eauto|done].
    + rewrite lookup_insert_ne in Ht by done. rewrite lookup_insert_ne by done. by apply S3.
  - rewrite map_size_insert_None by done. lia.
  - done.
Qed.

Lemma on_open_sound id host port window h bind s :
  sound s -> sound (Engine.on_message (Channel (Open id host port window)) h bind s).1.
Proof.
  intros Hs. unfold Engine.on_message. cbn [on_channel]. unfold Engine.on_open.
  destruct (peer_owns (side (engine s)) id) eqn:Ep; cbn [negb]; [|by destruct s].
  set (e1 := Engine.set_channels _ (engine s)).
  assert (sound (mkSystem e1 (tasks s) (listening s))) as Hs1.
  { destruct s as [e ts ls]. apply (sound_shrinks e _ ts ls); [apply filter_shrinks|done]. }
  change (Engine.channels (Engine.set_channels (Engine.channels e1) (engine s))) with (Engine.channels e1).
  destruct (Engine.channels e1 !! id) as [c|] eqn:Ec; [done|].
  destruct (Z.leb_spec Window.MAX_CHANNELS (Z.of_nat (size (Engine.channels e1)))); [done|].
  pose proof Hs1 as [S1 S2 S3 S4 S5]. cbn [engine tasks] in *.
  set (r := fresh (dom (Engine.store e1))).
  assert (Engine.store e1 !! r = None) as Hr by apply not_elem_of_dom, is_fresh.
  constructor; cbn [fst engine tasks side next_id Engine.channels Engine.store listeners Engine.set_store Engine.set_channels].
  - done.
  - intros id' c' Hc. destruct (decide (id = id')) as [<-|Hne].
    + rewrite lookup_insert_eq in Hc. injection Hc as <-. eexists. by rewrite lookup_insert_eq.
    + rewrite lookup_insert_ne in Hc by done. destruct (S2 _ _ Hc) as (t & Ht & Hti).
      exists t. rewrite lookup_insert_ne; [done|]. intros Hx. destruct (S3 _ _ Ht) as [[o Ho] _].
      rewrite <- Hx in Ho. congruence.
  - intros r' t Ht. destruct (decide (r = r')) as [<-|Hne].
    + rewrite lookup_insert_eq in Ht. injection Ht as <-. rewrite lookup_insert_eq. split; [eauto|done].
    + rewrite lookup_insert_ne in Ht by done. rewrite lookup_insert_ne by done. by apply S3.
  - rewrite map_size_insert_None by done. lia.
  - done.
Qed.

Lemma on_channel_other f e :
  (forall id host port window, f <> Open id host port window) ->
  shrinks e (on_channel f e).1.1 /\ (on_channel f e).2 = None.
Proof.
  intros Hf. destruct f as [id host port window|id success message window|id data|id|id add|];
    [by destruct (Hf id host port window)|..]; cbn [on_channel fst snd].
  - split; [apply opened_shrinks|done].
  - split; [apply data_shrinks|done].
  - destruct (Engine.channels e !! id); split; try done; [|apply shrinks_refl].
    eapply shrinks_trans; [apply update_shrinks|apply remove_shrinks].
  - destruct (Engine.channels e !! id); split; try done; [apply update_shrinks|apply shrinks_refl].
  - split; [apply shrinks_refl|done].
Qed.

(** The channels and their tasks are as before, only the listeners change. *)
Lemma sound_listeners e e' ts ls ls' :
  side e' = side e -> next_id e' = next_id e -> Engine.channels e' = Engine.channels e ->
  Engine.store e' = Engine.store e -> Z.of_nat (size (listeners e')) <= MAX_LISTENERS ->
  sound (mkSystem e ts ls) -> sound (mkSystem e' ts ls').
Proof. intros A1 A2 A3 A4 A5 [S1 S2 S3 S4 S5]. constructor; cbn in *; by rewrite ?A1, ?A2, ?A3, ?A4. Qed.

Lemma delete_size (m : gmap Z nat) k : (size (delete k m) <= size m)%nat.
Proof. rewrite map_size_delete. destruct (m !! k); cbn; lia. Qed.

Lemma insert_size (m : gmap Z nat) k v : (size (<[k := v]> m) <= S (size m))%nat.
Proof. rewrite map_size_insert. destruct (m !! k); cbn; lia. Qed.

Lemma on_message_sound u h bind s : sound s -> sound (Engine.on_message u h bind s).1.
Proof.
  intros Hs. destruct u as [f|id port|id|id success message port|].
  - assert ((exists id host port window, f = Open id host port window)
            \/ (forall id host port window, f <> Open id host port window)) as [(id & host & port & window & ->)|Hf]
      by (destruct f; eauto 6; right; done).
    { by apply on_open_sound. }
    unfold Engine.on_message. destruct (on_channel_other f (engine s) Hf) as [Hsh Hno].
    destruct (on_channel f (engine s)) as [[e out] task]. cbn [fst snd] in *. subst task.
    destruct s as [e0 ts ls]. by apply (sound_shrinks e0 e ts ls).
  - unfold Engine.on_message. destruct (side (engine s)); [|done]. unfold on_listen.
    destruct (authorize_listen h); [|by destruct s]. destruct (valid_listen_port port); [|by destruct s]. cbn [negb].
    destruct (Z.leb_spec MAX_LISTENERS (Z.of_nat (size (listeners (engine s))))); [by destruct s|].
    destruct bind as [bound|err]; [|by destruct s]. cbn [fst].
    apply (sound_listeners (engine s) _ (tasks s) (listening s)); try done; [|by destruct s].
    cbn. pose proof (insert_size (listeners (engine s)) id (fresh (dom (listening s)))). lia.
  - unfold Engine.on_message. destruct (side (engine s)); [|done].
    unfold on_unlisten. set (e1 := set_listeners _ _ (engine s)).
    pose proof (close_shrinks (default [] (listener_channels (engine s) !! id)) e1) as Hsh.
    destruct (Engine.close_channels _ e1) as [e2 out]. cbn [fst] in *.
    apply (sound_shrinks e1 e2 (tasks s) (listening s)); [done|].
    apply (sound_listeners (engine s) _ (tasks s) (listening s)); try done; [|by destruct s].
    cbn. pose proof (delete_size (listeners (engine s)) id). pose proof (so_listeners _ Hs). lia.
  - unfold Engine.on_message. by destruct (side (engine s)).
  - unfold Engine.on_message. by destruct (side (engine s)).
Qed.

(** A task moves on. *)
Lemma sound_task s r t o o' phase :
  tasks s !! r = Some t -> Engine.store (engine s) !! r = Some o -> sound s ->
  sound (mkSystem (Engine.set_store (<[r := o']> (Engine.store (engine s))) (engine s))
           (<[r := mkTask (t_id t) (t_kind t) phase]> (tasks s)) (listening s)).
Proof.
  intros Ht Ho [S1 S2 S3 S4 S5]. constructor; cbn [engine tasks side next_id Engine.channels Engine.store listeners Engine.set_store]; try done.
  - intros id c Hc. destruct (S2 id c Hc) as (t' & Ht' & Hid). destruct (decide (r = Tunnel.e_ref c)) as [E|Hne].
    + rewrite <- E in *. rewrite lookup_insert_eq. eexists. split; [done|]. cbn. congruence.
    + rewrite lookup_insert_ne by done. eauto.
  - intros r' t' Ht'. destruct (decide (r = r')) as [<-|Hne].
    + rewrite lookup_insert_eq in Ht'. injection Ht' as <-. rewrite lookup_insert_eq. split; [eauto|]. exact (proj2 (S3 r t Ht)).
    + rewrite lookup_insert_ne in Ht' by done. rewrite lookup_insert_ne by done. by apply S3.
Qed.

(** The end of a task: the entry of its id goes. *)
Lemma sound_end s r id k p :
  tasks s !! r = Some (mkTask id k p) -> sound s ->
  sound (mkSystem (Engine.remove_entry id (engine s)) (delete r (tasks s)) (listening s)).
Proof.
  intros Ht Hs. assert (sound (mkSystem (Engine.remove_entry id (engine s)) (tasks s) (listening s))) as [S1 S2 S3 S4 S5].
  { destruct s as [e ts ls]. apply (sound_shrinks e _ ts ls); [apply remove_shrinks|done]. }
  constructor; cbn [engine tasks] in *; try done.
  - intros id' c Hc. destruct (S2 id' c Hc) as (t & Ht' & Hid). exists t. split; [|done].
    rewrite lookup_delete_ne; [done|]. intros E. rewrite <- E, Ht in Ht'. injection Ht' as <-. cbn in Hid. subst id'.
    clear -Hc. unfold Engine.remove_entry in Hc. destruct (Engine.channels (engine s) !! id) eqn:E; [|congruence].
    cbn in Hc. by rewrite lookup_delete_eq in Hc.
  - intros r' t [_ Ht']%lookup_delete_Some. by apply S3.
Qed.

Lemma drop_all refs (m : gmap nat Tunnel.ChanObj) r :
  is_Some (m !! r) -> is_Some (foldr (alter Tunnel.drop_sender) m refs !! r).
Proof.
  induction refs as [|r' refs IH]; intros Hr; [done|]. cbn. destruct (decide (r' = r)) as [->|Hne].
  - rewrite lookup_alter_eq, fmap_is_Some. by apply IH.
  - rewrite lookup_alter_ne by done. by apply IH.
Qed.

Lemma close_all_sound s ls : sound s -> sound (mkSystem (Engine.close_all (engine s)) (tasks s) ls).
Proof.
  intros [S1 S2 S3 S4 S5]. constructor; cbn [engine tasks Engine.close_all side next_id Engine.channels Engine.store listeners]; try done.
  intros r t Ht. destruct (S3 r t Ht) as [Hr Hk]. split; [|done]. by apply drop_all.
Qed.

Lemma step_sound ev s : sound s -> sound (step ev s).1.
Proof.
  intros Hs. destruct ev as [u h bind|t|t|host port|r ev|r|]; cbn [step].
  - by apply on_message_sound.
  - destruct (listening s !! t) as [[id [ch|] [|]]|]; try done.
    pose proof (opens_sound LISTEN_HOST id s Hs) as Ho. destruct (opens LISTEN_HOST id s) as [s1 ch].
    destruct s1 as [e ts ls]. by apply (sound_shrinks e e ts ls); [apply shrinks_refl|].
  - destruct (listening s !! t) as [[id [ch|] gone]|]; try done. cbn [fst].
    apply (sound_listeners (engine s) _ (tasks s) (listening s)); try done; [apply Hs|by destruct s].
  - by apply opens_sound.
  - destruct (tasks s !! r) as [t|] eqn:Et; [|done]. destruct (Engine.store (engine s) !! r) as [o|] eqn:Eo; [|done].
    destruct (task_step _ _ _ _ _ _) as [[[phase out] o']|]; [|done]. by apply (sound_task s r t o).
  - destruct (tasks s !! r) as [[id k []]|] eqn:Et; try done. by apply (sound_end s r id k Over).
  - by apply close_all_sound.
Qed.

Lemma start_sound sd : sound (start sd).
Proof.
  constructor; cbn [start engine tasks Engine.new side next_id Engine.channels listeners]; try done.
  apply own_spec. by destruct sd.
Qed.

Lemma run_sound evs s : sound s -> sound (run evs s).1.
Proof.
  revert s. induction evs as [|ev evs IH]; intros s Hs; [done|]. cbn [run].
  pose proof (step_sound ev s Hs) as Hs1. destruct (step ev s) as [s1 out]. specialize (IH s1 Hs1).
  by destruct (run evs s1).
Qed.

Lemma step_side ev s : side (engine (step ev s).1) = side (engine s).
Proof.
  destruct ev as [u h bind|t|t|host port|r ev|r|]; cbn [step].
  - destruct u as [f|id port|id|id success message port|]; unfold Engine.on_message.
    + destruct f as [id host port window|id success message window|id data|id|id add|].
      { cbn [on_channel]. unfold Engine.on_open. destruct (negb _); [done|].
        destruct (_ !! id); [done|]. by destruct (_ <=? _). }
      all: match goal with |- context [on_channel ?f ?e] =>
             destruct (on_channel_other f e ltac:(done)) as [Hsh _]; destruct (on_channel f e) as [[e' out] task];
             apply (sh_side _ _ Hsh) end.
    + destruct (side (engine s)) eqn:E; [|done]. unfold on_listen.
      destruct (authorize_listen h); [|done]. destruct (negb _); [done|]. destruct (_ <=? _); [done|]. by destruct bind.
    + destruct (side (engine s)) eqn:E; [|done]. unfold on_unlisten.
      match goal with |- context [Engine.close_channels ?l ?e] => pose proof (close_shrinks l e) as Hsh;
        destruct (Engine.close_channels l e) as [e2 out] end. cbn in *. by rewrite (sh_side _ _ Hsh).
    + by destruct (side (engine s)) eqn:E.
    + by destruct (side (engine s)) eqn:E.
  - destruct (listening s !! t) as [[id [ch|] [|]]|]; try done. unfold opens, open_outgoing.
    destruct (raw_closed _); [done|]. destruct (_ <=? _); [done|]. by destruct (Engine.alloc_id _ _ _ _).
  - by destruct (listening s !! t) as [[id [ch|] gone]|].
  - unfold opens, open_outgoing.
    destruct (raw_closed _); [done|]. destruct (_ <=? _); [done|]. by destruct (Engine.alloc_id _ _ _ _).
  - destruct (tasks s !! r) as [t|]; [|done]. destruct (Engine.store (engine s) !! r) as [o|]; [|done].
    by destruct (task_step _ _ _ _ _ _) as [[[phase out] o']|].
  - destruct (tasks s !! r) as [[id k []]|]; try done. apply (sh_side _ _ (remove_shrinks id _)).
  - done.
Qed.

(** ** Where the host connects *)

Lemma past_more (past : list Event) ev r host port addrs :
  granted past r host port addrs -> granted (past ++ [ev]) r host port addrs.
Proof.
  intros (go & lh & d & Hin & Hrest). exists go, lh, d. split; [|done].
  apply elem_of_app. by left.
Qed.

Lemma asked_longer (past : list Event) ev id host port :
  asked past id host port -> asked (past ++ [ev]) id host port.
Proof. intros (w & h & b & Hin). exists w, h, b. apply elem_of_app. by left. Qed.

Lemma vetted_more past ev s : vetted past s -> vetted (past ++ [ev]) s.
Proof.
  intros Hv r t host port Ht Hk. destruct (Hv r t host port Ht Hk) as [Ha Hg].
  split; [by apply asked_longer|]. destruct (t_phase t) as [|? ? []| |]; try done. by apply past_more.
Qed.

Lemma vetted_tasks past s s' : tasks s' = tasks s -> vetted past s -> vetted past s'.
Proof. unfold vetted. by intros ->. Qed.

Lemma vetted_insert past s s' r t :
  tasks s' = <[r := t]> (tasks s) -> vetted past s ->
  (forall host port, t_kind t = Accepted host port ->
     asked past (t_id t) host port
     /\ match t_phase t with Setting _ _ (Connecting addrs) => granted past r host port addrs | _ => True end) ->
  vetted past s'.
Proof.
  intros E Hv Hn r' t' host port Ht Hk. rewrite E in Ht.
  destruct (decide (r = r')) as [<-|Hne].
  - rewrite lookup_insert_eq in Ht. injection Ht as <-. by apply Hn.
  - rewrite lookup_insert_ne in Ht by done. by apply Hv.
Qed.

Lemma opens_tasks host port s :
  tasks (opens host port s).1 = tasks s
  \/ exists r id, tasks (opens host port s).1 = <[r := mkTask id (Outgoing host port) Sending]> (tasks s).
Proof.
  unfold opens, open_outgoing. destruct (raw_closed _); [by left|]. destruct (_ <=? _); [by left|].
  destruct (Engine.alloc_id _ _ _ _) as [id|]; [right; by do 2 eexists|by left].
Qed.

Lemma opens_vetted host port past s : vetted past s -> vetted past (opens host port s).1.
Proof.
  intros Hv. destruct (opens_tasks host port s) as [E|(r & id & E)];
    [by apply (vetted_tasks past s)|by apply (vetted_insert past s _ r _ E)].
Qed.

Lemma task_step_vetted past r t o ev phase out o' host port :
  task_step (t_id t) (t_kind t) (t_phase t) o r ev = Some (phase, out, o') ->
  host_policy (TaskStep r ev) -> t_kind t = Accepted host port ->
  match t_phase t with Setting _ _ (Connecting addrs) => granted past r host port addrs | _ => True end ->
  match phase with
  | Setting _ _ (Connecting addrs) => granted (past ++ [TaskStep r ev]) r host port addrs
  | _ => True
  end.
Proof.
  intros Hs Hp Hk Hg. rewrite Hk in Hs. unfold task_step in Hs.
  destruct (t_phase t) as [|pending len setup|pending|], ev as [ok| |h|try ok|first second];
    try done; try (by destruct setup).
  - assert (match setup with
            | Connecting addrs => granted (past ++ [TaskStep r Takes]) r host port addrs
            | Authorizing => True
            end) as Hg' by (destruct setup; [done|by apply past_more]). clear Hg.
    destruct (Tunnel.o_inbound o) as [|[b| |] q].
    + by destruct setup; destruct (Tunnel.o_tx_alive o); try done; injection Hs as <- <- <-.
    + by destruct setup; destruct (Host.pending_fits _ _); injection Hs as <- <- <-.
    + by destruct setup; injection Hs as <- <- <-.
    + by destruct setup; injection Hs as <- <- <-.
  - destruct setup; [|done]. destruct (negb (idle o)); [done|].
    destruct (Engine.authorize_open h host port) as [addrs|m] eqn:Ea; injection Hs as <- <- <-; [|done].
    destruct Hp as (go & lh & al & -> & Hdns). unfold host_hooks in Ea. cbn [Engine.authorize_open] in Ea.
    case_bool_decide as El; [done|]. destruct al; [|done]. cbn [negb] in Ea.
    destruct (authorize_target go lh ToHost host port).1 as [d|] eqn:Ed; [|done].
    exists go, lh, d. split; [apply elem_of_app; right; left|]. split_and!; try done.
    destruct (target d) as [l]. by injection Ea as ->.
  - destruct setup as [|addrs]; [done|]. destruct (negb (idle o)); [done|].
    destruct (connect_any try no_address addrs) as [[a|m] tried]; [|by injection Hs as <- <- <-].
    by destruct ok; injection Hs as <- <- <-.
  - by injection Hs as <- <- <-.
Qed.

Lemma message_tasks u h bind s :
  tasks (Engine.on_message u h bind s).1 = tasks s
  \/ exists r id host port window, u = Channel (Open id host port window)
     /\ tasks (Engine.on_message u h bind s).1
        = <[r := mkTask id (Accepted host port) (Setting [] 0 Authorizing)]> (tasks s).
Proof.
  unfold Engine.on_message. destruct u as [f|id port|id|id success message port|]; [|left..].
  - destruct (on_channel f (engine s)) as [[e out] [r|]]; [|by left].
    destruct f as [id host port window|id success message window|id data|id|id add|]; try by left.
    right. exists r, id, host, port, window. done.
  - destruct (side (engine s)); [|done].
    by destruct (Engine.on_listen _ _ _ _ _ _) as [[e out] []].
  - destruct (side (engine s)); [|done]. by destruct (on_unlisten _ _).
  - by destruct (side (engine s)).
  - by destruct (side (engine s)).
Qed.

Lemma step_vetted past ev s :
  host_policy ev -> vetted past s -> vetted (past ++ [ev]) (step ev s).1.
Proof.
  intros Hp Hv. pose proof (vetted_more past ev s Hv) as Hm.
  destruct ev as [u h bind|t|t|host port|r ev|r|]; cbn [step].
  - destruct (message_tasks u h bind s) as [E|(r & id & host & port & window & -> & E)];
      [by apply (vetted_tasks _ s)|].
    apply (vetted_insert _ s _ r _ E Hm). cbn. intros host' port' [= <- <-]. split; [|done].
    exists window, h, bind. apply elem_of_app. right. left.
  - destruct (listening s !! t) as [[id [ch|] [|]]|]; try done.
    pose proof (opens_vetted LISTEN_HOST id _ s Hm) as Ho.
    destruct (opens LISTEN_HOST id s) as [s1 ch]. by apply (vetted_tasks _ s1).
  - by destruct (listening s !! t) as [[id [ch|] gone]|].
  - by apply opens_vetted.
  - destruct (tasks s !! r) as [t|] eqn:Et; [|done]. destruct (Engine.store (engine s) !! r) as [o|]; [|done].
    destruct (task_step _ _ _ _ _ _) as [[[phase out] o']|] eqn:Es; [|done].
    apply (vetted_insert _ s _ r (mkTask (t_id t) (t_kind t) phase)); [reflexivity|exact Hm|]. cbn. intros host port Hk.
    destruct (Hv r t host port Et Hk) as [Ha Hg]. split; [by apply asked_longer|].
    by apply (task_step_vetted past r t o ev phase out o' host port).
  - destruct (tasks s !! r) as [[id k []]|]; try done. intros r' t host port Ht Hk. cbn in Ht.
    apply lookup_delete_Some in Ht as [_ Ht]. by apply Hm.
  - done.
Qed.

Lemma connect_any_tries try last addrs a :
  a ∈ (connect_any try last addrs).2 -> a ∈ addrs.
Proof.
  revert last. induction addrs as [|b l IH]; intros last Ha; [done|]. cbn in Ha.
  destruct (try b) as [err|]; [|by apply list_elem_of_singleton in Ha as ->; left].
  specialize (IH err). destruct (connect_any try err l) as [res tried]. cbn [snd] in Ha, IH.
  apply elem_of_cons in Ha as [->|Ha]; [left|right; auto].
Qed.

Lemma no_attempt_in (out : list Out) r a : Tried r a ∈ out -> ~ Forall no_attempt out.
Proof. rewrite List.Forall_forall. intros Ha%list_elem_of_In Hf. by apply Hf in Ha. Qed.

Lemma task_step_tries id kind phase o r ev phase' out o' a r' :
  task_step id kind phase o r ev = Some (phase', out, o') -> Tried r' a ∈ out ->
  r' = r /\ exists host port pending len addrs,
    kind = Accepted host port /\ phase = Setting pending len (Connecting addrs) /\ a ∈ addrs.
Proof.
  intros Hs Ha.
  unfold task_step in Hs. destruct phase as [|pending len setup|pending|], kind as [host port|host port], ev as [ok| |h|try ok|first second];
    try done; try (by destruct setup).
  - destruct ok; injection Hs as <- <- <-; exfalso; apply (no_attempt_in _ _ _ Ha); by repeat constructor.
  - exfalso. destruct (Tunnel.o_inbound o) as [|[b| |] q]; destruct setup;
      repeat match type of Hs with
        | context [if ?b then _ else _] => destruct b
        end; try done; injection Hs as <- <- <-; apply (no_attempt_in _ _ _ Ha); by repeat constructor.
  - exfalso. destruct setup; [|done]. destruct (negb (idle o)); [done|].
    destruct (Engine.authorize_open h host port); injection Hs as <- <- <-; apply (no_attempt_in _ _ _ Ha); by repeat constructor.
  - destruct setup as [|addrs]; [done|]. destruct (negb (idle o)); [done|].
    pose proof (connect_any_tries try no_address addrs a) as Hc.
    destruct (connect_any try no_address addrs) as [res tried]. cbn [snd] in Hc.
    assert (r' = r /\ a ∈ tried) as [-> Ht]; [|by split; [|exists host, port, pending, len, addrs; auto]].
    assert (Tried r' a ∈ Tried r <$> tried) as Hin.
    { destruct res as [b|m]; [destruct ok|]; injection Hs as <- <- <-; try done;
        (apply elem_of_app in Ha as [Ha|Ha]; [done|]; by apply list_elem_of_singleton in Ha). }
    apply list_elem_of_fmap in Hin as (b & [= -> ->] & Hb). done.
  - injection Hs as <- <- <-. exfalso. apply (no_attempt_in _ _ _ Ha). destruct (Relay.run_channel_end _ _ _); by repeat constructor.
  - injection Hs as <- <- <-. exfalso. apply (no_attempt_in _ _ _ Ha). destruct (Relay.run_channel_end _ _ _); by repeat constructor.
Qed.

Lemma close_no_attempt ids e out :
  Forall no_attempt out -> Forall no_attempt (foldl close_channel (e, out) ids).2.
Proof.
  revert e out. induction ids as [|id ids IH]; intros e out Ho; [done|]. cbn [foldl close_channel].
  destruct (Engine.channels e !! id); apply IH; [|done]. apply Forall_app. split; [done|by repeat constructor].
Qed.

Lemma on_channel_no_attempt f e : Forall no_attempt (on_channel f e).1.2.
Proof.
  destruct f as [id host port window|id success message window|id data|id|id add|]; cbn [on_channel].
  - unfold Engine.on_open. destruct (negb _); [by constructor|]. destruct (_ !! id); [by constructor|].
    destruct (_ <=? _); by repeat constructor.
  - unfold Engine.on_opened. destruct (_ !! id) as [c|]; [|by constructor].
    destruct success; [destruct (Tunnel.e_opened c)|]; by repeat constructor.
  - by constructor.
  - destruct (_ !! id); by constructor.
  - destruct (_ !! id); by constructor.
  - by constructor.
Qed.

Lemma message_no_attempt u h bind s : Forall no_attempt (Engine.on_message u h bind s).2.
Proof.
  destruct u as [f|id port|id|id success message port|]; unfold Engine.on_message.
  - pose proof (on_channel_no_attempt f (engine s)) as Hn. by destruct (on_channel f (engine s)) as [[e out] task].
  - destruct (side (engine s)); [|by constructor]. unfold Engine.on_listen.
    destruct (Engine.authorize_listen h); [|by repeat constructor]. destruct (negb _); [by repeat constructor|].
    destruct (_ <=? _); [by repeat constructor|]. destruct bind; by repeat constructor.
  - destruct (side (engine s)); [|by constructor]. unfold on_unlisten.
    pose proof (close_no_attempt (default [] (listener_channels (engine s) !! id))
      (set_listeners (delete id (listeners (engine s))) (delete id (listener_channels (engine s))) (engine s))
      [] ltac:(by constructor)) as Hn.
    unfold Engine.close_channels. by destruct (foldl close_channel _ _).
  - destruct (side (engine s)); by repeat constructor.
  - destruct (side (engine s)); by repeat constructor.
Qed.

(** Only a task that was granted addresses tries one of them. *)
Lemma step_tries past ev s r a :
  vetted past s -> Tried r a ∈ (step ev s).2 ->
  exists id host port addrs, asked past id host port /\ granted past r host port addrs /\ a ∈ addrs.
Proof.
  intros Hv Ha. destruct ev as [u h bind|t|t|host port|r' ev|r'|]; cbn [step] in Ha.
  - destruct (no_attempt_in _ _ _ Ha). apply message_no_attempt.
  - destruct (listening s !! t) as [[id [ch|] [|]]|]; try by apply elem_of_nil in Ha.
    destruct (opens LISTEN_HOST id s). by apply elem_of_nil in Ha.
  - destruct (listening s !! t) as [[id [ch|] gone]|]; by apply elem_of_nil in Ha.
  - by apply elem_of_nil in Ha.
  - destruct (tasks s !! r') as [t|] eqn:Et; [|by apply elem_of_nil in Ha].
    destruct (Engine.store (engine s) !! r') as [o|]; [|by apply elem_of_nil in Ha].
    destruct (task_step _ _ _ _ _ _) as [[[phase out] o']|] eqn:Es; [|by apply elem_of_nil in Ha].
    destruct (task_step_tries _ _ _ _ _ _ _ _ _ _ _ Es Ha) as (-> & host & port & p & l & addrs & Hk & Hph & Hin).
    destruct (Hv r' t host port Et Hk) as [Hask Hg]. rewrite Hph in Hg. by exists (t_id t), host, port, addrs.
  - destruct (tasks s !! r') as [[id k []]|]; by apply elem_of_nil in Ha.
  - by apply elem_of_nil in Ha.
Qed.

Lemma asked_app past more id host port : asked past id host port -> asked (past ++ more) id host port.
Proof. intros (w & h & b & Hin). exists w, h, b. apply elem_of_app. by left. Qed.

Lemma granted_app past more r host port addrs :
  granted past r host port addrs -> granted (past ++ more) r host port addrs.
Proof. intros (go & lh & d & Hin & Hr). exists go, lh, d. split; [apply elem_of_app; by left|done]. Qed.

Lemma run_tries evs past s r a :
  Forall host_policy evs -> vetted past s -> Tried r a ∈ (run evs s).2 ->
  exists id host port addrs,
    asked (past ++ evs) id host port /\ granted (past ++ evs) r host port addrs /\ a ∈ addrs.
Proof.
  revert past s. induction evs as [|ev evs IH]; intros past s Hp Hv Ha; [by apply elem_of_nil in Ha|].
  inversion Hp as [|? ? Hp1 Hp2]. subst. cbn [run] in Ha.
  pose proof (step_vetted past ev s Hp1 Hv) as Hv1. pose proof (step_tries past ev s r a Hv) as Ht.
  destruct (step ev s) as [s1 out]. cbn [fst snd] in *. specialize (IH (past ++ [ev]) s1 Hp2 Hv1).
  destruct (run evs s1) as [s2 outs]. cbn [snd] in Ha. apply elem_of_app in Ha as [Ha|Ha].
  - destruct (Ht Ha) as (id & host & port & addrs & H1 & H2 & H3). exists id, host, port, addrs.
    split_and!; [by apply asked_app|by apply granted_app|done].
  - rewrite <- app_assoc in IH. exact (IH Ha).
Qed.

(** C10 An address is tried on the host only if the peer asked, on a channel, for a
    destination that is not a listener's name, the connection had the permission
    to forward when the task asked, and the policy of that moment was on and had a rule,
    a ticked service's or the custom list's, that admits the address. *)
Theorem host_connects_only_where_the_policy_lets (evs : list Event) (r : nat) (a : SocketAddr) :
  Forall host_policy evs -> Tried r a ∈ (run evs (start Host)).2 ->
  exists id host port get_option lookup_host rules d,
    asked evs id host port /\ host <> LISTEN_HOST
    /\ TaskStep r (Authorizes (host_hooks get_option lookup_host true)) ∈ evs
    /\ on get_option OPT_ENABLED = true /\ 1 <= port <= Int.umax 16
    /\ rules_of get_option ToHost (service d) rules
    /\ connectable rules host port (resolves lookup_host host port) a.
Proof.
  intros Hp Ha. destruct (run_tries evs [] (start Host) r a Hp) as (id & host & port & addrs & Hask & Hg & Hin);
    [intros r' t host port Ht; cbn in Ht; by rewrite lookup_empty in Ht|done|]. cbn [app] in *.
  destruct Hg as (go & lh & d & Hev & Hdns & Hl & Hok & Hd).
  destruct (vetted_addresses go lh ToHost host port d Hdns Hok) as (Hon & Hport & rules & Hr & Hx).
  rewrite Hd in Hx. destruct Hx as [_ Hiff]. exists id, host, port, go, lh, rules, d.
  do 6 (split; [assumption|]). by apply Hiff.
Qed.

(** ** A listener and its channels *)

Lemma shrinks_channel e e' ts ls ls' l id :
  shrinks e e' -> channel_of (mkSystem e' ts ls') l id -> channel_of (mkSystem e ts ls) l id.
Proof.
  intros Hs (c & t & Hc & Ht & Hk). destruct (sh_entry _ _ Hs id c Hc) as (c0 & Hc0 & Er).
  exists c0, t. cbn in *. by rewrite <- Er.
Qed.

(** The tasks of the listeners hold what they held, whatever their flags. *)
Definition same_held (ls ls' : gmap nat Listener) : Prop :=
  forall t x, ls !! t = Some x -> exists x', ls' !! t = Some x' /\ l_id x' = l_id x /\ holding x' = holding x.

Lemma same_held_refl ls : same_held ls ls.
Proof. intros t x Hx. eauto. Qed.

Lemma abort_held t ls : same_held ls (abort t ls).
Proof.
  intros t' x Hx. destruct (decide (t = t')) as [<-|Hne].
  - exists (mkListener (l_id x) (holding x) true). unfold abort. by rewrite lookup_alter_eq, Hx.
  - exists x. unfold abort. by rewrite lookup_alter_ne.
Qed.

Lemma kept_by_held s s' l id :
  listener_channels (engine s') = listener_channels (engine s) ->
  same_held (listening s) (listening s') -> kept_by s l id -> kept_by s' l id.
Proof.
  intros El Hh [Hin|(t & x & Hx & Hl & Hid)]; [left; by rewrite El|right].
  destruct (Hh t x Hx) as (x' & Hx' & El' & Eh). exists t, x'. split_and!; [done|congruence..].
Qed.

Lemma kept_shrinks e e' ts ls ls' :
  shrinks e e' -> same_held ls ls' -> kept (mkSystem e ts ls) -> kept (mkSystem e' ts ls').
Proof.
  intros Hs Hh Hk l id Hc. apply (kept_by_held (mkSystem e ts ls)); [apply Hs|done|].
  apply Hk. by apply (shrinks_channel e e' ts ls ls').
Qed.

Lemma remove_gone id e : Engine.channels (Engine.remove_entry id e) !! id = None.
Proof.
  unfold Engine.remove_entry. destruct (Engine.channels e !! id) eqn:E; [|done].
  cbn. by rewrite lookup_delete_eq.
Qed.

Lemma close_closes ids e out id :
  id ∈ ids -> Engine.channels (foldl close_channel (e, out) ids).1 !! id = None.
Proof.
  revert e out. induction ids as [|id' ids IH]; intros e out Hin; [by apply elem_of_nil in Hin|].
  apply elem_of_cons in Hin as [->|Hin]; [|cbn [foldl]; destruct (close_channel _ _); by apply IH].
  cbn [foldl]. assert (forall e out, Engine.channels e !! id' = None ->
    Engine.channels (foldl close_channel (e, out) ids).1 !! id' = None) as Hn.
  { clear. intros e out Hn. pose proof (close_shrinks_from ids e out) as Hs.
    destruct (Engine.channels (foldl close_channel (e, out) ids).1 !! id') as [c|] eqn:E; [|done]. destruct (sh_entry _ _ Hs id' c E) as (c0 & Hc0 & _). congruence. }
  unfold close_channel at 2. destruct (Engine.channels e !! id') as [c|] eqn:Ec; [|by apply Hn].
  apply Hn, remove_gone.
Qed.

Lemma opens_channel host port s l id :
  sound s -> channel_of (opens host port s).1 l id ->
  channel_of s l id \/ (opens host port s).2 = Some id /\ host = LISTEN_HOST /\ port = l.
Proof.
  intros Hs. unfold opens, open_outgoing. destruct (raw_closed _); [by left|]. destruct (_ <=? _); [by left|].
  destruct (Engine.alloc_id _ _ _ _) as [i|]; [|by left]. cbn [fst snd].
  intros (c & t & Hc & Ht & Hk). cbn in Hc, Ht. destruct (decide (i = id)) as [->|Hne].
  - rewrite lookup_insert_eq in Hc. injection Hc as <-. cbn in Ht. rewrite lookup_insert_eq in Ht.
    injection Ht as <-. cbn in Hk. injection Hk as -> ->. by right.
  - rewrite lookup_insert_ne in Hc by done. left. exists c, t. split; [done|]. split; [|done].
    destruct (so_entry _ Hs _ _ Hc) as (t0 & Ht0 & _). destruct (so_task _ Hs _ _ Ht0) as [[o Ho] _].
    rewrite lookup_insert_ne in Ht; [done|]. intros E. rewrite <- E in Ho.
    rewrite (proj1 (not_elem_of_dom _ _) (is_fresh (dom (Engine.store (engine s))))) in Ho. done.
Qed.

Lemma opens_listed host port s :
  listener_channels (engine (opens host port s).1) = listener_channels (engine s)
  /\ listening (opens host port s).1 = listening s.
Proof.
  unfold opens, open_outgoing. destruct (raw_closed _); [done|]. destruct (_ <=? _); [done|].
  by destruct (Engine.alloc_id _ _ _ _) as [i|].
Qed.

Lemma unlisten_eq l h bind s :
  side (engine s) = Host ->
  let e1 := set_listeners (delete l (listeners (engine s))) (delete l (listener_channels (engine s))) (engine s) in
  let e2 := (Engine.close_channels (default [] (listener_channels (engine s) !! l)) e1).1 in
  let ls := match listeners (engine s) !! l with Some t => abort t (listening s) | None => listening s end in
  (Engine.on_message (Unlisten l) h bind s).1 = mkSystem e2 (tasks s) ls.
Proof.
  intros Hside e1 e2 ls. unfold Engine.on_message. rewrite Hside. unfold on_unlisten.
  fold e1. unfold e2, ls. by destruct (Engine.close_channels _ e1).
Qed.

Lemma unlisten_held l s :
  same_held (listening s)
    (match listeners (engine s) !! l with Some t => abort t (listening s) | None => listening s end).
Proof. destruct (_ !! l); [apply abort_held|apply same_held_refl]. Qed.

(** What is left of a listener's channels is in the hands of its tasks. *)
Lemma unlisten_leaves l h bind s id :
  side (engine s) = Host -> kept s ->
  channel_of (Engine.on_message (Unlisten l) h bind s).1 l id ->
  exists t x, listening (Engine.on_message (Unlisten l) h bind s).1 !! t = Some x
    /\ l_id x = l /\ holding x = Some id.
Proof.
  intros Hside Hk. rewrite (unlisten_eq l h bind s Hside). set (e1 := set_listeners _ _ _).
  intros Hc. cbn [listening].
  assert (channel_of s l id) as Hc0.
  { apply (shrinks_channel e1 _ (tasks s) (listening s)) in Hc; [|apply close_shrinks].
    destruct Hc as (c & t & Hc). by exists c, t. }
  destruct (Hk l id Hc0) as [Hin|(t & x & Hx & Hl & Hid)].
  - destruct Hc as (c & t & Hc & _). cbn [engine] in Hc. unfold Engine.close_channels in Hc.
    by rewrite (close_closes _ _ _ _ Hin) in Hc.
  - destruct (unlisten_held l s t x Hx) as (x' & Hx' & El & Eh). exists t, x'. split_and!; [done|congruence..].
Qed.

Lemma unlisten_kept l h bind s :
  side (engine s) = Host -> kept s -> kept (Engine.on_message (Unlisten l) h bind s).1.
Proof.
  intros Hside Hk l' id Hc. destruct (decide (l = l')) as [<-|Hne].
  - right. by apply unlisten_leaves.
  - rewrite (unlisten_eq l h bind s Hside) in Hc |- *. set (e1 := set_listeners _ _ _) in *.
    pose proof (close_shrinks (default [] (listener_channels (engine s) !! l)) e1) as Hsh.
    assert (channel_of s l' id) as Hc0.
    { apply (shrinks_channel e1 _ (tasks s) (listening s)) in Hc; [|done].
      destruct Hc as (c & t & Hc). by exists c, t. }
    destruct (Hk l' id Hc0) as [Hin|(t & x & Hx & Hl & Hid)].
    + left. cbn [engine]. rewrite (sh_listed _ _ Hsh). cbn. by rewrite lookup_delete_ne.
    + destruct (unlisten_held l s t x Hx) as (x' & Hx' & El & Eh). right. exists t, x'. cbn [listening].
      split_and!; [done|congruence..].
Qed.

Lemma message_kept u h bind s :
  sound s -> side (engine s) = Host -> kept s -> kept (Engine.on_message u h bind s).1.
Proof.
  intros Hs Hside Hk. destruct u as [f|id port|id|id success message port|].
  - pose proof (on_message_sound (Channel f) h bind s Hs) as Hs'.
    assert ((exists id host port window, f = Open id host port window)
            \/ (forall id host port window, f <> Open id host port window)) as [(id & host & port & window & ->)|Hf]
      by (destruct f; eauto 6; right; done).
    + revert Hs'. unfold Engine.on_message. cbn [on_channel]. unfold Engine.on_open.
      destruct (negb _); [by destruct s|]. set (e1 := Engine.set_channels _ (engine s)).
      assert (kept (mkSystem e1 (tasks s) (listening s))) as Hk1.
      { destruct s as [e ts ls]. apply (kept_shrinks e _ ts ls); [apply filter_shrinks|apply same_held_refl|done]. }
      change (Engine.channels (Engine.set_channels (Engine.channels e1) (engine s))) with (Engine.channels e1).
      destruct (Engine.channels e1 !! id) as [c|] eqn:Ec; [done|].
      destruct (_ <=? _); [done|]. cbn [fst]. set (r := fresh _). intros Hs' l id' (c & t & Hc & Ht & Ek).
      cbn in Hc, Ht. destruct (decide (id = id')) as [->|Hne].
      { rewrite lookup_insert_eq in Hc. injection Hc as <-. cbn in Ht. rewrite lookup_insert_eq in Ht.
        by injection Ht as <-. }
      rewrite lookup_insert_ne in Hc by done.
      assert (channel_of (mkSystem e1 (tasks s) (listening s)) l id') as Hc1.
      { exists c, t. split; [done|]. split; [|done]. cbn. destruct (decide (r = Tunnel.e_ref c)) as [E|Hr].
        - rewrite <- E, lookup_insert_eq in Ht. by injection Ht as <-.
        - by rewrite lookup_insert_ne in Ht. }
      by apply Hk1.
    + unfold Engine.on_message. destruct (on_channel_other f (engine s) Hf) as [Hsh Hno].
      destruct (on_channel f (engine s)) as [[e out] task]. cbn [fst snd] in *. subst task.
      destruct s as [e0 ts ls]. apply (kept_shrinks e0 e ts ls); [done|apply same_held_refl|done].
  - unfold Engine.on_message. rewrite Hside. unfold Engine.on_listen.
    destruct (Engine.authorize_listen h); [|by destruct s]. destruct (negb _); [by destruct s|].
    destruct (_ <=? _); [by destruct s|]. destruct bind as [bound|]; [|by destruct s]. cbn [fst].
    intros l id' Hc. apply (kept_by_held s); [done| |by apply Hk].
    cbn [listening]. intros t x Hx. set (t0 := fresh (dom (listening s))).
    assert (t0 <> t) as Hne.
    { intros E. assert (listening s !! t0 = None) as Hn by apply not_elem_of_dom, is_fresh. congruence. }
    rewrite lookup_insert_ne by done.
    destruct (listeners (engine s) !! id) as [old|]; [by apply abort_held|eauto].
  - by apply unlisten_kept.
  - unfold Engine.on_message. by destruct (side (engine s)).
  - unfold Engine.on_message. by destruct (side (engine s)).
Qed.

Lemma step_kept ev s :
  sound s -> side (engine s) = Host -> no_listen_name ev -> kept s -> kept (step ev s).1.
Proof.
  intros Hs Hside Hno Hk. destruct ev as [u h bind|t|t|host port|r ev|r|]; cbn [step].
  - by apply message_kept.
  - destruct (listening s !! t) as [[id [ch|] [|]]|] eqn:Et; try done.
    pose proof (opens_channel LISTEN_HOST id s) as Ho. pose proof (opens_listed LISTEN_HOST id s) as [El Els].
    destruct (opens LISTEN_HOST id s) as [s1 ch]. cbn [fst snd] in *.
    intros l id' Hc. destruct (Ho l id' Hs Hc) as [Hc0|(-> & _ & ->)].
    + destruct (Hk l id' Hc0) as [Hin|(t' & x & Hx & Hl & Hid)]; [left; cbn; by rewrite El|right].
      exists t', x. cbn. rewrite Els, lookup_insert_ne; [done|]. intros E. subst t'.
      rewrite Et in Hx. by injection Hx as <-.
    + right. exists t. eexists. cbn. by rewrite lookup_insert_eq.
  - destruct (listening s !! t) as [[id [ch|] gone]|] eqn:Et; try done. cbn [fst].
    intros l id' Hc. assert (channel_of s l id') as Hc0 by exact Hc. assert (is_Some (Engine.channels (engine s) !! id')) as Hlive.
    { destruct Hc0 as (c & t' & Hc0 & _). eauto. }
    unfold kept_by. cbn [engine listening record_channel set_listeners listener_channels].
    destruct (Hk l id' Hc0) as [Hin|(t' & x & Hx & Hl & Hid)].
    + left. destruct (decide (id = l)) as [->|Hne].
      * rewrite lookup_insert_eq. cbn. apply elem_of_app. left.
        apply list_elem_of_In, filter_In. split; [by apply list_elem_of_In|by apply bool_decide_eq_true_2].
      * by rewrite lookup_insert_ne.
    + destruct (decide (t = t')) as [<-|Hne].
      * rewrite Et in Hx. injection Hx as <-. cbn in Hl, Hid. injection Hid as ->. subst l. left.
        rewrite lookup_insert_eq. cbn. apply elem_of_app. right. left.
      * right. exists t', x. by rewrite lookup_insert_ne.
  - pose proof (opens_channel host port s) as Ho. pose proof (opens_listed host port s) as [El Els].
    intros l id' Hc. cbn [fst] in *. destruct (Ho l id' Hs Hc) as [Hc0|(_ & E & _)]; [|done].
    apply (kept_by_held s); [done|rewrite Els; apply same_held_refl|by apply Hk].
  - destruct (tasks s !! r) as [t|] eqn:Et; [|done]. destruct (Engine.store (engine s) !! r) as [o|]; [|done].
    destruct (task_step _ _ _ _ _ _) as [[[phase out] o']|]; [|done]. cbn [fst].
    intros l id (c & t' & Hc & Ht & Ek). apply (kept_by_held s); [done|apply same_held_refl|]. apply Hk.
    cbn in Hc, Ht. destruct (decide (r = Tunnel.e_ref c)) as [E|Hne].
    + exists c, t. rewrite <- E in *. rewrite lookup_insert_eq in Ht. by injection Ht as <-.
    + exists c, t'. by rewrite lookup_insert_ne in Ht.
  - destruct (tasks s !! r) as [[id k []]|]; try done. cbn [fst].
    intros l id' (c & t & Hc & Ht & Ek). cbn in Hc, Ht. apply lookup_delete_Some in Ht as [_ Ht].
    apply (kept_shrinks (engine s) (Engine.remove_entry id (engine s)) (tasks s) (listening s));
      [apply remove_shrinks|apply same_held_refl|by destruct s|]. by exists c, t.
  - intros l id (c & t & Hc & _). cbn in Hc. by rewrite lookup_empty in Hc.
Qed.

Lemma abort_lookup t ls t' x :
  abort t ls !! t' = Some x -> exists y, ls !! t' = Some y /\ l_id x = l_id y
    /\ (aborted x = false -> t <> t' /\ aborted y = false).
Proof.
  unfold abort. destruct (decide (t = t')) as [<-|Hne].
  - rewrite lookup_alter_eq. destruct (ls !! t) as [y|]; [|done]. intros [= <-]. exists y. by split_and!.
  - rewrite lookup_alter_ne by done. intros Hx. by exists x.
Qed.

Lemma abort_old_lookup (old : option nat) ls t x :
  match old with Some o => abort o ls | None => ls end !! t = Some x -> aborted x = false ->
  exists y, ls !! t = Some y /\ l_id x = l_id y /\ aborted y = false /\ old <> Some t.
Proof.
  intros Hx Hal. destruct old as [o|]; [|by exists x].
  destruct (abort_lookup _ _ _ _ Hx) as (y & Hy & El & Hf). destruct (Hf Hal) as [Hno Hy'].
  exists y. split_and!; try done. by intros [= ->].
Qed.

Lemma aborts_lookup ts ls t' x :
  foldr abort ls ts !! t' = Some x -> exists y, ls !! t' = Some y /\ l_id x = l_id y
    /\ (aborted x = false -> (t' ∉ ts) /\ aborted y = false).
Proof.
  revert x. induction ts as [|t ts IH]; intros x Hx.
  - exists x. split_and!; try done. intros Ha. split; [apply not_elem_of_nil|done].
  - cbn in Hx. destruct (abort_lookup _ _ _ _ Hx) as (y & Hy & El & Ha).
    destruct (IH y Hy) as (z & Hz & El' & Ha'). exists z. split_and!; [done|congruence|].
    intros Hf. destruct (Ha Hf) as [Hne Hf']. destruct (Ha' Hf') as [Hni Hfz]. split; [|done].
    by apply not_elem_of_cons.
Qed.

(** The listeners and their tasks change nowhere else. *)
Lemma accepting_same s s' :
  listeners (engine s') = listeners (engine s) -> listening s' = listening s -> accepting s -> accepting s'.
Proof. intros E1 E2 Ha t x. rewrite E1, E2. apply Ha. Qed.

Lemma message_accepting u h bind s :
  side (engine s) = Host -> accepting s -> accepting (Engine.on_message u h bind s).1.
Proof.
  intros Hside Ha. destruct u as [f|id port|id|id success message port|].
  - assert ((exists id host port window, f = Open id host port window)
            \/ (forall id host port window, f <> Open id host port window)) as [(id & host & port & window & ->)|Hf]
      by (destruct f; eauto 6; right; done).
    + unfold Engine.on_message. cbn [on_channel]. unfold Engine.on_open.
      destruct (negb _); [by destruct s|]. destruct (_ !! id); [done|]. by destruct (_ <=? _).
    + unfold Engine.on_message. destruct (on_channel_other f (engine s) Hf) as [Hsh Hno].
      destruct (on_channel f (engine s)) as [[e out] task]. cbn [fst snd] in *. subst task.
      apply (accepting_same s); [apply Hsh|done|done].
  - unfold Engine.on_message. rewrite Hside. unfold Engine.on_listen.
    destruct (Engine.authorize_listen h); [|by destruct s]. destruct (negb _); [by destruct s|].
    destruct (_ <=? _); [by destruct s|]. destruct bind as [bound|]; [|by destruct s]. cbn [fst].
    set (t0 := fresh _). intros t x Hx Hal. cbn in Hx |- *. destruct (decide (t0 = t)) as [<-|Hne].
    { rewrite lookup_insert_eq in Hx. injection Hx as <-. cbn. by rewrite lookup_insert_eq. }
    rewrite lookup_insert_ne in Hx by done.
    destruct (abort_old_lookup _ _ _ _ Hx Hal) as (y & Hy & El & Hal' & Hnot).
    pose proof (Ha t y Hy Hal') as Hl. rewrite El. destruct (decide (id = l_id y)) as [->|Hn]; [done|].
    by rewrite lookup_insert_ne.
  - rewrite (unlisten_eq id h bind s Hside). intros t x Hx Hal. cbn [listening engine] in *.
    rewrite (sh_listeners _ _ (close_shrinks _ _)). cbn.
    destruct (abort_old_lookup _ _ _ _ Hx Hal) as (y & Hy & El & Hal' & Hnot).
    pose proof (Ha t y Hy Hal') as Hl. rewrite El. destruct (decide (id = l_id y)) as [->|Hn]; [done|].
    by rewrite lookup_delete_ne.
  - unfold Engine.on_message. by destruct (side (engine s)).
  - unfold Engine.on_message. by destruct (side (engine s)).
Qed.

Lemma opens_listeners host port s : listeners (engine (opens host port s).1) = listeners (engine s).
Proof.
  unfold opens, open_outgoing. destruct (raw_closed _); [done|]. destruct (_ <=? _); [done|].
  by destruct (Engine.alloc_id _ _ _ _).
Qed.

Lemma step_accepting ev s :
  side (engine s) = Host -> accepting s -> accepting (step ev s).1.
Proof.
  intros Hside Ha. destruct ev as [u h bind|t|t|host port|r ev|r|]; cbn [step].
  - by apply message_accepting.
  - destruct (listening s !! t) as [[id [ch|] [|]]|] eqn:Et; try done.
    pose proof (opens_listed LISTEN_HOST id s) as [_ Els]. pose proof (opens_listeners LISTEN_HOST id s) as El.
    destruct (opens LISTEN_HOST id s) as [s1 ch]. cbn [fst] in *. intros t' x Hx Hal. cbn in Hx |- *. rewrite El.
    rewrite Els in Hx. destruct (decide (t = t')) as [<-|Hne].
    + rewrite lookup_insert_eq in Hx. injection Hx as <-. by apply (Ha t _ Et).
    + rewrite lookup_insert_ne in Hx by done. by apply Ha.
  - destruct (listening s !! t) as [[id [ch|] gone]|] eqn:Et; try done. intros t' x Hx Hal. cbn in Hx |- *.
    destruct (decide (t = t')) as [<-|Hne].
    + rewrite lookup_insert_eq in Hx. injection Hx as <-. by apply (Ha t _ Et).
    + rewrite lookup_insert_ne in Hx by done. by apply Ha.
  - apply (accepting_same s); [apply opens_listeners|apply opens_listed|done].
  - destruct (tasks s !! r) as [t|]; [|done]. destruct (Engine.store (engine s) !! r) as [o|]; [|done].
    by destruct (task_step _ _ _ _ _ _) as [[[phase out] o']|].
  - destruct (tasks s !! r) as [[id k []]|]; try done.
    apply (accepting_same s); [apply (sh_listeners _ _ (remove_shrinks id _))|done|done].
  - intros t x Hx Hal. cbn in Hx. destruct (aborts_lookup _ _ _ _ Hx) as (y & Hy & El & Hf).
    destruct (Hf Hal) as [Hni Hy']. exfalso. apply Hni. apply list_elem_of_fmap. exists (l_id y, t).
    split; [done|]. apply elem_of_map_to_list. by apply Ha.
Qed.

Lemma run_host evs s :
  Forall no_listen_name evs -> sound s -> side (engine s) = Host -> kept s -> accepting s ->
  side (engine (run evs s).1) = Host /\ kept (run evs s).1 /\ accepting (run evs s).1.
Proof.
  intros Hno. revert s. induction Hno as [|ev evs Hn Hno IH]; intros s Hs Hside Hk Ha; [done|]. cbn [run].
  pose proof (step_sound ev s Hs) as H1. pose proof (step_side ev s) as H2. rewrite Hside in H2.
  pose proof (step_kept ev s Hs Hside Hn Hk) as H3. pose proof (step_accepting ev s Hside Ha) as H4.
  destruct (step ev s) as [s1 out]. specialize (IH s1 H1 H2 H3 H4). by destruct (run evs s1).
Qed.

(** When the controller removes a forward, no task of its listener accepts any more,
    and no channel that the listener opened is left: but for one that a task has opened
    and not written down yet. *)
Theorem unlisten_closes_the_forward (evs : list Event) (l : Z) (h : Hooks) (bind : result Z rstr) :
  Forall no_listen_name evs ->
  let s := (step (FromPeer (Unlisten l) h bind) (run evs (start Host)).1).1 in
  (forall t x, listening s !! t = Some x -> l_id x = l -> aborted x = true)
  /\ forall id, channel_of s l id ->
       exists t x, listening s !! t = Some x /\ l_id x = l /\ holding x = Some id.
Proof.
  intros Hno s.
  destruct (run_host evs (start Host)) as (Hside & Hk & Ha); [done|apply start_sound|done| | |].
  { intros l' id (c & t & Hc & _). cbn in Hc. by rewrite lookup_empty in Hc. }
  { intros t x Hx. cbn in Hx. by rewrite lookup_empty in Hx. }
  split; [|intros id Hc; by apply (unlisten_leaves l h bind _ id Hside Hk)]. intros t x Hx Hl.
  destruct (aborted x) eqn:Hal; [done|]. exfalso.
  pose proof (step_accepting (FromPeer (Unlisten l) h bind) _ Hside Ha t x Hx Hal) as He. fold s in He.
  subst s. cbn [step] in He. rewrite (unlisten_eq l h bind _ Hside) in He. cbn [engine] in He.
  rewrite (sh_listeners _ _ (close_shrinks _ _)), Hl in He. cbn in He. by rewrite lookup_delete_eq in He.
Qed.

(** Whatever the peer sends and the tasks do, an engine's channels keep to their
    side: a channel it opened has an id of its own parity, one it
    took up an id of the peer's, the two never share one; at most 256 channels and 32
    listeners are there, and every entry has its task. *)
Theorem ids_keep_to_their_side (sd : Side) (evs : list Event) :
  let s := (run evs (start sd)).1 in
  Z.of_nat (size (Engine.channels (engine s))) <= Window.MAX_CHANNELS
  /\ Z.of_nat (size (listeners (engine s))) <= MAX_LISTENERS
  /\ forall id c, Engine.channels (engine s) !! id = Some c ->
       exists t, tasks s !! Tunnel.e_ref c = Some t /\ t_id t = id
         /\ match t_kind t with
            | Outgoing _ _ => own sd id /\ peer_owns sd id = false
            | Accepted _ _ => peer_owns sd id = true
            end.
Proof.
  intros s. pose proof (run_sound evs (start sd) (start_sound sd)) as Hs. fold s in Hs.
  assert (side (engine s) = sd) as Hside.
  { subst s. clear Hs. assert (side (engine (start sd)) = sd) as E by done. revert E. generalize (start sd).
    induction evs as [|ev evs IH]; intros s0 E; [done|]. cbn [run]. pose proof (step_side ev s0) as E1.
    destruct (step ev s0) as [s1 out]. rewrite E in E1. specialize (IH s1 E1). by destruct (run evs s1). }
  split; [apply Hs|]. split; [apply Hs|]. intros id c Hc.
  destruct (so_entry _ Hs id c Hc) as (t & Ht & Hid). exists t. split; [done|]. split; [done|].
  destruct (so_task _ Hs _ _ Ht) as [_ Hk]. rewrite Hside, Hid in Hk.
  destruct (t_kind t); [|done]. split; [done|]. by apply own_not_peers.
Qed.
End EngineProofs.

(** ** Concrete runs *)

Example forwards :
  (Engine.run forward_run (Engine.start Engine.Host)).2
  = [Engine.Tried 0 (V4 0xc0a8010a, 443);
     Engine.ToPeer (opened_msg 1 true [] Window.CHANNEL_WINDOW)].
Proof. vm_compute. reflexivity. Qed.

(** The channel 2 was written down and is closed, the channel 4 was not and stays. *)
Example unlisten_race :
  let '(s, out) := Engine.run (listen_run ++ [peer (Engine.Unlisten 7); Engine.Records 0])
                     (Engine.start Engine.Host) in
  out = [Engine.Send (Engine.Listening 7 true [] 40000); Engine.ToPeer (close_msg 2)]
  /\ map_to_list (Engine.channels (Engine.engine s)) = [(4, Tunnel.mk_entry 1 false)]
  /\ Engine.listeners (Engine.engine s) = ∅.
Proof. vm_compute. done. Qed.

Example reopened_id_is_lost :
  let s := (Engine.run reopen_run (Engine.start Engine.Host)).1 in
  Engine.channels (Engine.engine s) = ∅
  /\ Engine.t_phase <$> (Engine.tasks s !! 1%nat) = Some (Engine.Setting [] 0 Engine.Authorizing)
  /\ Tunnel.o_tx_alive <$> (Engine.store (Engine.engine s) !! 1%nat) = Some false.
Proof. vm_compute. done. Qed.

Lemma outgoing_gets_an_own_id_witness :
  exists e' id r, Engine.open_outgoing (Str.lit "h") 80 (Engine.new Engine.Controller)
    = (e', Some (Ok (id, r, open_msg id (Str.lit "h") 80 Window.CHANNEL_WINDOW))).
Proof.
  destruct (outgoing_gets_an_own_id (Str.lit "h") 80 (Engine.new Engine.Controller))
    as (e' & id & r & E & _); [done|vm_compute; split; [done|discriminate]|done|].
  exists e', id, r. exact E.
Defined.

Lemma forward_policy : Forall host_policy forward_run.
Proof.
  repeat constructor. exists sample_options, sample_lookup, true. split; [done|apply sample_lookup_wf].
Qed.

Lemma host_connects_only_where_the_policy_lets_witness :
  exists id host port get_option lookup_host rules d,
    asked forward_run id host port /\ host <> Engine.LISTEN_HOST
    /\ Engine.TaskStep 0 (Engine.Authorizes (Engine.host_hooks get_option lookup_host true)) ∈ forward_run
    /\ on get_option OPT_ENABLED = true /\ 1 <= port <= Int.umax 16
    /\ rules_of get_option ToHost (service d) rules
    /\ connectable rules host port (resolves lookup_host host port) (V4 0xc0a8010a, 443).
Proof.
  apply (host_connects_only_where_the_policy_lets forward_run 0 (V4 0xc0a8010a, 443) forward_policy).
  rewrite forwards. left.
Defined.

Lemma unlisten_closes_the_forward_witness :
  let s := (Engine.step (peer (Engine.Unlisten 7)) (Engine.run listen_run (Engine.start Engine.Host)).1).1 in
  exists x, Engine.listening s !! 0%nat = Some x /\ Engine.l_id x = 7 /\ Engine.aborted x = true.
Proof.
  eexists. split; [vm_compute; reflexivity|]. split; [reflexivity|].
  apply (proj1 (unlisten_closes_the_forward listen_run 7 no_hooks (Ok 40000) ltac:(repeat constructor)) 0%nat);
    [vm_compute; reflexivity|reflexivity].
Defined.
