(* ===== verification/TenantKeys.v ===== *)
(** * The tenant's signing keys: [src/clanto/tenant_keys.rs]

    The keys a managed PC trusts: the first comes with the enrolment, the others
    only through documents signed by a key already trusted or by the build's root
    key; the list of revoked grants; the store in memory and on disk.  Base64,
    SHA-256, Ed25519 and the JSON decoders are third-party code: the class [Crypto]
    lists what the module uses of them.  The clock is an argument of each call, one
    for each time the code reads it. *)

From S2P Require Import Prelude.

Definition RETIRING_SECS : Z := 7 * 24 * 60 * 60.

Definition ACTIVE : rstr := Str.lit "active".
Definition RETIRING : rstr := Str.lit "retiring".
Definition REVOKED : rstr := Str.lit "revoked".

Record TenantKey := mkKey {
  k_kid : rstr; k_public_key : rstr; k_state : rstr; k_not_after : option Z }.

Record Revocation := mkRevocation {
  r_nonce : option rstr; r_session_id : option rstr; r_user_id : option rstr; r_until : Z }.

Record Store := mkStore {
  s_tenant_id : rstr; s_keys : list TenantKey; s_rotation_seq : Z;
  s_grant_keys_version : Z; s_revocations : list Revocation }.

(** [SignedPolicy] of [policy.rs]. *)
Record Signed := mkSigned { payload : rstr; signature : rstr }.

(** [Enrollment] of [enrollment.rs], the fields the module reads. *)
Record Enrollment := mkEnrollment { device_id : rstr; tenant_id : rstr; tenant_key : rstr }.

Record Rotation := mkRotation {
  rot_kind : rstr; rot_tenant_id : rstr; rot_new_key : rstr; rot_new_key_id : rstr;
  rot_valid_from : Z; rot_seq : Z }.

Record ListedKey := mkListed {
  l_kid : rstr; l_public_key : rstr; l_not_after : option Z; l_state : rstr }.

Record GrantKeys := mkGrantKeys {
  g_version : Z; g_keys : list ListedKey; g_revocations : list Revocation }.

#[export] Instance TenantKey_eq_dec : EqDecision TenantKey.
Proof. solve_decision. Defined.
#[export] Instance Revocation_eq_dec : EqDecision Revocation.
Proof. solve_decision. Defined.
#[export] Instance Store_eq_dec : EqDecision Store.
Proof. solve_decision. Defined.
#[export] Instance Signed_eq_dec : EqDecision Signed.
Proof. solve_decision. Defined.

Abbreviation bytes := (list Z).

(** The third-party code: [base64], [sodiumoxide] and [serde_json]. *)
Class Crypto := {
  decode64 : rstr -> result bytes rstr;
  encode64 : bytes -> rstr;
  sha256 : bytes -> bytes;
  public_key_from_slice : bytes -> option bytes;
  signature_from_bytes : bytes -> option bytes;
  verify_detached : bytes -> bytes -> bytes -> bool;
  rotation_from_slice : bytes -> result Rotation rstr;
  grant_keys_from_slice : bytes -> result GrantKeys rstr;
  (** [CLANTO_ROOT_KEY] of the build. *)
  CLANTO_ROOT_KEY : option rstr }.

Section Keys.
Context `{Crypto}.

Definition kid_of (public_key : bytes) : rstr := encode64 (take 8 (sha256 public_key)).

Definition root_key : option bytes :=
  b64 ← CLANTO_ROOT_KEY;
  if bool_decide (b64 = []) then None
  else pk ← result_ok (decode64 b64); public_key_from_slice pk.

Definition initial (e : Enrollment) : option Store :=
  pk ← result_ok (decode64 (tenant_key e));
  Some (mkStore (tenant_id e) [mkKey (kid_of pk) (tenant_key e) ACTIVE None] 0 0 []).

(** The process: the store in memory and the one the state file reads back as. *)
Record Keys := mkKeys { mem : option Store; disk : option Store }.

Definition load (disk : option Store) (e : Enrollment) : option Store :=
  match disk with
  | Some s =>
      if bool_decide (s_tenant_id s = tenant_id e) && negb (bool_decide (s_keys s = []))
      then Some s else initial e
  | None => initial e
  end.

Definition expire (now : Z) (key : TenantKey) : TenantKey :=
  if bool_decide (k_state key = RETIRING)
     && match k_not_after key with Some t => t <=? now | None => false end
  then mkKey (k_kid key) (k_public_key key) REVOKED (k_not_after key)
  else key.

Definition prune (s : Store) (now : Z) : Store :=
  mkStore (s_tenant_id s) (expire now <$> s_keys s) (s_rotation_seq s) (s_grant_keys_version s)
    (List.filter (fun r => now <? r_until r) (s_revocations s)).

(** [with_store]: [f] gets the store and the state file. *)
Definition with_store {T} (e : option Enrollment) (now : Z)
    (f : Store -> option Store -> Store * option Store * T) (w : Keys) : option T * Keys :=
  match e with
  | None => (None, w)
  | Some e =>
      let stale := match mem w with
                   | Some s => negb (bool_decide (s_tenant_id s = tenant_id e))
                   | None => true
                   end in
      let m := if stale then load (disk w) e else mem w in
      match m with
      | None => (None, mkKeys m (disk w))
      | Some s =>
          let '(s, d, r) := f (prune s now) (disk w) in (Some r, mkKeys (Some s) d)
      end
  end.

(** An operation of [with_store] that only reads. *)
Definition read_store {T} (e : option Enrollment) (now : Z) (f : Store -> T) (w : Keys)
  : option T * Keys :=
  with_store e now (fun s d => (s, d, f s)) w.

Definition reset (w : Keys) : Keys := mkKeys None None.

Definition usable (key : TenantKey) (now : Z) : bool :=
  if bool_decide (k_state key = ACTIVE) then true
  else if bool_decide (k_state key = RETIRING) then
    match k_not_after key with Some t => now <? t | None => true end
  else false.

Definition verify_with (pk_b64 : rstr) (signed : Signed) : option bytes :=
  pk ← result_ok (decode64 pk_b64);
  pk ← public_key_from_slice pk;
  payload ← result_ok (decode64 (payload signed));
  sig ← result_ok (decode64 (signature signed));
  sig ← signature_from_bytes sig;
  if verify_detached sig payload pk then Some payload else None.

(** [Iterator::find_map]. *)
Fixpoint find_map {A B} (f : A -> option B) (l : list A) : option B :=
  match l with
  | [] => None
  | x :: l' => match f x with Some y => Some y | None => find_map f l' end
  end.

Definition trusted (kid : option rstr) (now : Z) (k : TenantKey) : bool :=
  usable k now && match kid with Some kid => bool_decide (kid = k_kid k) | None => true end.

Definition verify_in (s : Store) (signed : Signed) (kid : option rstr) (now : Z) : option bytes :=
  find_map (fun k => verify_with (k_public_key k) signed)
    (List.filter (trusted kid now) (s_keys s)).

(** [verify]: [t0] is the time of the pruning, [t1] that of the check. *)
Definition verify (e : option Enrollment) (t0 t1 : Z) (signed : Signed) (kid : option rstr)
    (w : Keys) : result bytes rstr * Keys :=
  let '(r, w) := read_store e t0 (fun s => verify_in s signed kid t1) w in
  (match r with
   | Some (Some payload) => Ok payload
   | Some None => Err (Str.lit "signature not valid for any trusted tenant key")
   | None => Err (Str.lit "device not enrolled")
   end, w).

Definition verify_root (signed : Signed) : option bytes :=
  pk ← root_key; verify_with (encode64 pk) signed.

Definition current_kid (e : option Enrollment) (now : Z) (w : Keys) : option rstr * Keys :=
  let '(r, w) := read_store e now (fun s =>
    k_kid <$> List.find (fun k => bool_decide (k_state k = ACTIVE)) (rev (s_keys s))) w in
  (match r with Some r => r | None => None end, w).

(** What a rotation makes of a key already there. *)
Definition rotate_key (by_root : bool) (now : Z) (key : TenantKey) : TenantKey :=
  if bool_decide (k_state key = REVOKED) then key
  else if by_root then mkKey (k_kid key) (k_public_key key) REVOKED (k_not_after key)
  else if bool_decide (k_state key = ACTIVE)
  then mkKey (k_kid key) (k_public_key key) RETIRING (Some (Int.swrap 64 (now + RETIRING_SECS)))
  else key.

Definition valid_key (pk : bytes) (kid : rstr) : bool :=
  bool_decide (is_Some (public_key_from_slice pk)) && bool_decide (kid_of pk = kid).

Definition apply_rotation (s : Store) (r : Rotation) (by_root : bool) (now : Z)
  : result Store rstr :=
  if negb (bool_decide (rot_kind r = []))
     && negb (bool_decide (rot_kind r = Str.lit "tenant_key_rotation"))
  then Err (Str.lit "not a key rotation")
  else if negb (bool_decide (rot_tenant_id r = s_tenant_id s))
  then Err (Str.lit "rotation for another tenant")
  else if rot_seq r <=? s_rotation_seq s
  then Err (Str.lit "rotation " ++ Str.show_nat (rot_seq r) ++ Str.lit " already applied")
  else
    match decode64 (rot_new_key r) with
    | Err e => Err e
    | Ok pk =>
        if negb (valid_key pk (rot_new_key_id r)) then Err (Str.lit "invalid new tenant key")
        else if Int.swrap 64 (now + 300) <? rot_valid_from r
        then Err (Str.lit "rotation not yet valid")
        else
          let keys := rotate_key by_root now <$> s_keys s in
          let keys := List.filter (fun k => negb (bool_decide (k_kid k = rot_new_key_id r))) keys in
          let keys := keys ++ [mkKey (rot_new_key_id r) (rot_new_key r) ACTIVE None] in
          Ok (mkStore (s_tenant_id s) keys (rot_seq r) (s_grant_keys_version s) (s_revocations s))
    end.

(** The payload of a document signed by a trusted key or by the root key, and
    whether it was the root. *)
Definition open_document (s : Store) (signed : Signed) (now : Z) : option (bytes * bool) :=
  match verify_in s signed None now with
  | Some payload => Some (payload, false)
  | None => match verify_root signed with Some payload => Some (payload, true) | None => None end
  end.

(** How [std::fs::write] ends: the store is written; the file could not be opened and
    stays as it was; or the file was truncated and the write failed, so what is left
    of it no longer reads as a store. *)
Inductive Written := Saved | Untouched | Broken.

Definition save (s : Store) (out : Written) (d : option Store) : option Store :=
  match out with Saved => Some s | Untouched => d | Broken => None end.

Definition receive_rotation (e : option Enrollment) (t0 t1 : Z) (out : Written)
    (signed : Signed) (w : Keys) : option (result unit rstr) * Keys :=
  with_store e t0 (fun s d =>
    match open_document s signed t1 with
    | None => (s, d, Err (Str.lit "rotation signature not trusted"))
    | Some (payload, by_root) =>
        match rotation_from_slice payload with
        | Err err => (s, d, Err err)
        | Ok r =>
            match apply_rotation s r by_root t1 with
            | Err err => (s, d, Err err)
            | Ok s => (s, save s out d, Ok tt)
            end
        end
    end) w.

(** The loop over the keys of a list. *)
Fixpoint listed_keys (l : list ListedKey) : result (list TenantKey) rstr :=
  match l with
  | [] => Ok []
  | k :: l' =>
      match decode64 (l_public_key k) with
      | Err e => Err e
      | Ok pk =>
          if negb (valid_key pk (l_kid k)) then Err (Str.lit "invalid key " ++ l_kid k)
          else if negb (bool_decide (l_state k ∈ [ACTIVE; RETIRING; REVOKED]))
          then Err (Str.lit "invalid key state " ++ l_state k)
          else
            match listed_keys l' with
            | Err e => Err e
            | Ok keys => Ok (mkKey (l_kid k) (l_public_key k) (l_state k) (l_not_after k) :: keys)
            end
      end
  end.

Definition has_active (keys : list TenantKey) : bool :=
  existsb (fun k => bool_decide (k_state k = ACTIVE)) keys.

Definition apply_grant_keys (s : Store) (l : GrantKeys) (by_root : bool) : result Store rstr :=
  if g_version l <=? s_grant_keys_version s
  then Err (Str.lit "grant keys v" ++ Str.show_nat (g_version l) ++ Str.lit " not newer than v"
            ++ Str.show_nat (s_grant_keys_version s))
  else
    match listed_keys (g_keys l) with
    | Err e => Err e
    | Ok keys =>
        if negb by_root && negb (has_active keys)
        then Err (Str.lit "grant keys without an active key")
        else
          Ok (mkStore (s_tenant_id s) (if bool_decide (keys = []) then s_keys s else keys)
                (s_rotation_seq s) (g_version l) (g_revocations l))
    end.

Definition receive_grant_keys (e : option Enrollment) (t0 t1 : Z) (out : Written)
    (signed : Signed) (w : Keys) : result unit rstr * Keys :=
  let '(r, w) := with_store e t0 (fun s d =>
    match open_document s signed t1 with
    | None => (s, d, Err (Str.lit "grant keys signature not trusted"))
    | Some (payload, by_root) =>
        match grant_keys_from_slice payload with
        | Err err => (s, d, Err err)
        | Ok l =>
            match apply_grant_keys s l by_root with
            | Err err => (s, d, Err err)
            | Ok s => let s := prune s t1 in (s, save s out d, Ok tt)
            end
        end
    end) w in
  (match r with Some r => r | None => Err (Str.lit "device not enrolled") end, w).

Definition grant_keys_version (e : option Enrollment) (now : Z) (w : Keys) : Z * Keys :=
  let '(r, w) := read_store e now s_grant_keys_version w in (default 0 r, w).

Definition revokes (nonce session_id user_id : rstr) (r : Revocation) : bool :=
  bool_decide (r_nonce r = Some nonce)
  || (negb (bool_decide (session_id = [])) && bool_decide (r_session_id r = Some session_id))
  || (negb (bool_decide (user_id = [])) && bool_decide (r_user_id r = Some user_id)).

Definition is_revoked (e : option Enrollment) (now : Z) (nonce session_id user_id : rstr)
    (w : Keys) : bool * Keys :=
  let '(r, w) := read_store e now (fun s =>
    existsb (revokes nonce session_id user_id) (s_revocations s)) w in
  (default false r, w).
End Keys.

(** * Specification *)

Section Spec.
Context `{Crypto}.

(** The store that a call for [e] works on. *)
Definition in_force (e : Enrollment) (w : Keys) : option Store :=
  match mem w with
  | Some s => if bool_decide (s_tenant_id s = tenant_id e) then Some s else load (disk w) e
  | None => load (disk w) e
  end.

(** A key that signs at [t1] for a call that pruned the store at [t0]. *)
Definition trusted_at (k : TenantKey) (t0 t1 : Z) : Prop :=
  k_state k = ACTIVE
  \/ k_state k = RETIRING
     /\ match k_not_after k with Some t => t0 < t /\ t1 < t | None => True end.

Definition of_kid (kid : option rstr) (k : TenantKey) : Prop :=
  match kid with Some kid => k_kid k = kid | None => True end.

(** What can happen to the keys of an enrolled PC: documents received, reads, and a
    restart of the process. *)
Inductive Op :=
| ReceiveRotation (t0 t1 : Z) (out : Written) (signed : Signed)
| ReceiveGrantKeys (t0 t1 : Z) (out : Written) (signed : Signed)
| Read (t0 : Z)
| RestartProcess.

Definition run_op (e : Enrollment) (w : Keys) (o : Op) : Keys :=
  match o with
  | ReceiveRotation t0 t1 out signed => (receive_rotation (Some e) t0 t1 out signed w).2
  | ReceiveGrantKeys t0 t1 out signed => (receive_grant_keys (Some e) t0 t1 out signed w).2
  | Read t0 => (read_store (Some e) t0 (fun s => s) w).2
  | RestartProcess => mkKeys None (disk w)
  end.

Definition run (e : Enrollment) (w : Keys) (ops : list Op) : Keys := foldl (run_op e) w ops.

(** The root key signs no list that leaves no active key. *)
Definition root_spares_an_active_key (o : Op) : Prop :=
  match o with
  | ReceiveGrantKeys _ _ _ signed =>
      forall p l keys, verify_root signed = Some p -> grant_keys_from_slice p = Ok l ->
        listed_keys (g_keys l) = Ok keys -> keys = [] \/ has_active keys = true
  | _ => True
  end.
(** [P] holds of the store in force, and of the one a restart would load. *)
Definition keeps (e : Enrollment) (P : Store -> Prop) (w : Keys) : Prop :=
  (forall s, in_force e w = Some s -> P s) /\ (forall s, load (disk w) e = Some s -> P s).

(** Stores of the tenant that are past number [n] of a sequence. *)
Definition past (e : Enrollment) (number : Store -> Z) (n : Z) (s : Store) : Prop :=
  s_tenant_id s = tenant_id e /\ s_keys s <> [] /\ n <= number s.

(** A receipt that is accepted, and one of the same document. *)
Definition accepts (e : Enrollment) (w : Keys) (o : Op) : bool :=
  match o with
  | ReceiveRotation t0 t1 ok signed =>
      match (receive_rotation (Some e) t0 t1 ok signed w).1 with Some r => is_ok r | None => false end
  | ReceiveGrantKeys t0 t1 ok signed =>
      is_ok (receive_grant_keys (Some e) t0 t1 ok signed w).1
  | _ => false
  end.

Definition same_document (o o' : Op) : Prop :=
  match o, o' with
  | ReceiveRotation _ _ _ a, ReceiveRotation _ _ _ b
  | ReceiveGrantKeys _ _ _ a, ReceiveGrantKeys _ _ _ b => a = b
  | _, _ => False
  end.

(** How the write of a receipt ends, for one that gets to write. *)
Definition outcome (o : Op) : option Written :=
  match o with
  | ReceiveRotation _ _ out _ | ReceiveGrantKeys _ _ out _ => Some out
  | _ => None
  end.

(** The write does not leave a broken state file behind. *)
Definition leaves_the_file_whole (o : Op) : Prop := outcome o <> Some Broken.

(** From a process that has just started. *)
Definition started (d : option Store) : Keys := mkKeys None d.

Definition anchored (e : Enrollment) (s : Store) : Prop :=
  s_tenant_id s = tenant_id e /\ exists k, k ∈ s_keys s /\ k_state k = ACTIVE.
End Spec.

(** ** Samples *)

(** A toy instance: base64 and the hash do nothing, a public key is one byte, a
    signature is the key followed by the payload; a payload [1; k; seq] is a rotation
    to [k], a payload [2; version; k] a list whose only key is [k]. *)
Definition toy_crypto : Crypto := {|
  decode64 := Ok;
  encode64 := id;
  sha256 := id;
  public_key_from_slice := fun pk => if (length pk =? 1)%nat then Some pk else None;
  signature_from_bytes := Some;
  verify_detached := fun sig payload pk => bool_decide (sig = pk ++ payload);
  rotation_from_slice := fun p =>
    match p with
    | [1; k; seq] => Ok (mkRotation [] (Str.lit "t1") [k] [k] 0 seq)
    | _ => Err (Str.lit "not a rotation")
    end;
  grant_keys_from_slice := fun p =>
    match p with
    | [2; version; k] => Ok (mkGrantKeys version [mkListed [k] [k] None ACTIVE] [])
    | _ => Err (Str.lit "not a list")
    end;
  CLANTO_ROOT_KEY := Some [99] |}.

Definition sample_enrollment : Enrollment := mkEnrollment (Str.lit "d1") (Str.lit "t1") [10].

(** A document with payload [p] signed by the key [k]. *)
Definition signed_by (k : Z) (p : bytes) : Signed := mkSigned p (k :: p).

(** * Theorems *)

Lemma find_map_Some {A B} (f : A -> option B) l y :
  find_map f l = Some y -> exists x, x ∈ l /\ f x = Some y.
Proof.
  induction l as [|x l IH]; simpl; [done|]. destruct (f x) eqn:E.
  - intros [= ->]. exists x. split; [left|done].
  - intros (z & ? & ?)%IH. exists z. split; [by right|done].
Qed.

Lemma find_map_None {A B} (f : A -> option B) l :
  find_map f l = None <-> forall x, x ∈ l -> f x = None.
Proof.
  induction l as [|x l IH]; simpl.
  - split; [|done]. by intros _ x Hx%elem_of_nil.
  - destruct (f x) eqn:E.
    + split; [done|]. intros Hn. specialize (Hn x ltac:(left)). congruence.
    + rewrite IH. split.
      * intros Hn y [->|Hy]%elem_of_cons; auto.
      * intros Hn y Hy. apply Hn. by right.
Qed.

Lemma elem_of_filter_b {A} (f : A -> bool) (l : list A) x :
  x ∈ List.filter f l <-> x ∈ l /\ f x = true.
Proof. by rewrite !list_elem_of_In, filter_In. Qed.

Section Proofs.
Context `{Crypto}.

(** Every key that verifies a document gives the same payload. *)
Lemma verify_with_payload pk signed p :
  verify_with pk signed = Some p -> result_ok (decode64 (payload signed)) = Some p.
Proof.
  unfold verify_with. destruct (result_ok (decode64 pk)) as [a|]; [|done]. cbn [mbind option_bind].
  destruct (public_key_from_slice a); [|done]. cbn [mbind option_bind].
  destruct (result_ok (decode64 (payload signed))); [|done]. cbn [mbind option_bind].
  destruct (result_ok (decode64 (signature signed))); [|done]. cbn [mbind option_bind].
  destruct (signature_from_bytes _); [|done]. cbn [mbind option_bind]. by destruct (verify_detached _ _ _).
Qed.

Lemma verify_in_Some s signed kid now p :
  verify_in s signed kid now = Some p
  <-> exists k, k ∈ s_keys s /\ trusted kid now k = true
                /\ verify_with (k_public_key k) signed = Some p.
Proof.
  unfold verify_in. split.
  - intros (k & [Hk Ht]%elem_of_filter_b & Hv)%find_map_Some. eauto.
  - intros (k & Hk & Ht & Hv). destruct (find_map _ _) as [q|] eqn:E.
    + apply find_map_Some in E as (k' & _ & Hv'). apply verify_with_payload in Hv, Hv'. congruence.
    + apply (proj1 (find_map_None _ _)) with (x := k) in E; [congruence|]. by apply elem_of_filter_b.
Qed.

Lemma open_document_payload s signed now p b :
  open_document s signed now = Some (p, b) -> result_ok (decode64 (payload signed)) = Some p.
Proof.
  unfold open_document. destruct (verify_in _ _ _ _) eqn:E.
  - intros [= -> <-]. apply verify_in_Some in E as (k & _ & _ & Hv). by eapply verify_with_payload.
  - destruct (verify_root signed) eqn:Er; [|done]. intros [= -> <-]. unfold verify_root in Er.
    destruct root_key; [|done]. by eapply verify_with_payload.
Qed.

(** [with_store] runs [f] on the store in force, pruned. *)
Lemma with_store_eq {T} e now f w :
  with_store (T:=T) (Some e) now f w
  = match in_force e w with
    | None => (None, mkKeys None (disk w))
    | Some s => let '(s, d, r) := f (prune s now) (disk w) in (Some r, mkKeys (Some s) d)
    end.
Proof.
  unfold with_store, in_force. destruct (mem w) as [s|]; [|by destruct (load _ _)].
  case_bool_decide; cbn [negb]; [done|]. by destruct (load _ _).
Qed.

Lemma load_tenant d e s : load d e = Some s -> s_tenant_id s = tenant_id e /\ s_keys s <> [].
Proof.
  unfold load, initial. intros Hl.
  destruct d as [s'|]; [destruct (_ && _) eqn:E|].
  - injection Hl as <-. apply andb_true_iff in E as [E1%bool_decide_eq_true E2%negb_true_iff].
    by apply bool_decide_eq_false in E2.
  - destruct (result_ok _); [|done]. injection Hl as <-. done.
  - destruct (result_ok _); [|done]. injection Hl as <-. done.
Qed.

Lemma in_force_tenant e w s : in_force e w = Some s -> s_tenant_id s = tenant_id e.
Proof.
  unfold in_force. destruct (mem w) as [m|]; [|by intros [? _]%load_tenant].
  case_bool_decide; [by intros [= <-]|by intros [? _]%load_tenant].
Qed.

(** A store of the tenant, once in memory, is the one in force. *)
Lemma in_force_mem e s d : s_tenant_id s = tenant_id e -> in_force e (mkKeys (Some s) d) = Some s.
Proof. intros E. unfold in_force. simpl. by rewrite bool_decide_eq_true_2. Qed.

Lemma ACTIVE_RETIRING : ACTIVE <> RETIRING.
Proof. discriminate. Qed.
Lemma REVOKED_others : REVOKED <> ACTIVE /\ REVOKED <> RETIRING.
Proof. by split. Qed.

Lemma usable_spec k now :
  usable k now = true
  <-> k_state k = ACTIVE
      \/ k_state k = RETIRING /\ match k_not_after k with Some t => now < t | None => True end.
Proof.
  unfold usable. pose proof ACTIVE_RETIRING. repeat case_bool_decide; [tauto| |].
  - destruct (k_not_after k); [rewrite Z.ltb_lt|]; tauto.
  - split; [done|tauto].
Qed.

Lemma expire_usable k t0 t1 : usable (expire t0 k) t1 = true <-> trusted_at k t0 t1.
Proof.
  unfold trusted_at. pose proof ACTIVE_RETIRING. pose proof REVOKED_others as [? ?].
  rewrite usable_spec. unfold expire. case_bool_decide as E; cbn [andb].
  - destruct (k_not_after k) as [t|] eqn:Et.
    + destruct (Z.leb_spec t t0); cbn [k_state k_not_after]; rewrite ?Et.
      * split; [intros [?|[? _]]; congruence|]. intros [?|[_ ?]]; [congruence|lia].
      * split; intros [?|[? ?]]; auto; right; split; auto; lia.
    + rewrite Et. tauto.
  - split; intros [?|[? ?]]; auto; congruence.
Qed.

Lemma expire_key k now : k_kid (expire now k) = k_kid k /\ k_public_key (expire now k) = k_public_key k.
Proof. unfold expire. by destruct (_ && _). Qed.

Lemma verify_spec e t0 t1 signed kid w p :
  (verify e t0 t1 signed kid w).1 = Ok p
  <-> exists en s k, e = Some en /\ in_force en w = Some s /\ k ∈ s_keys s
        /\ trusted_at k t0 t1 /\ of_kid kid k
        /\ verify_with (k_public_key k) signed = Some p.
Proof.
  unfold verify, read_store. destruct e as [en|]; cycle 1.
  { cbn. split; [done|]. by intros (? & ? & ? & ? & _). }
  rewrite with_store_eq. destruct (in_force en w) as [s|] eqn:Es; cycle 1.
  { cbn. split; [done|]. intros (? & ? & ? & [= <-] & E & _). congruence. }
  cbn [fst]. transitivity (verify_in (prune s t0) signed kid t1 = Some p).
  { destruct (verify_in _ _ _ _); split; congruence. }
  rewrite verify_in_Some. split.
  - intros (k' & (k & -> & Hk)%list_elem_of_fmap & Ht & Hv). cbn [prune s_keys] in Hk.
    exists en, s, k. do 3 (split; [done|]). unfold trusted in Ht.
    apply andb_true_iff in Ht as [Hu%expire_usable Hkid].
    destruct (expire_key k t0) as [Ekid Epk]. rewrite Epk in Hv. rewrite Ekid in Hkid.
    repeat split; [done| |done]. destruct kid; [|done].
    by apply bool_decide_eq_true in Hkid.
  - intros (? & ? & k & [= <-] & E & Hk & Hu & Hkid & Hv). rewrite Es in E. injection E as <-.
    exists (expire t0 k). destruct (expire_key k t0) as [Ekid Epk]. rewrite Epk.
    split; [by apply list_elem_of_fmap_2|]. split; [|done]. unfold trusted.
    apply andb_true_iff. split; [by apply expire_usable|]. rewrite Ekid.
    destruct kid; [|done]. by apply bool_decide_eq_true.
Qed.

Lemma verify_state e t0 t1 signed kid w :
  (verify (Some e) t0 t1 signed kid w).2
  = mkKeys ((fun s => prune s t0) <$> in_force e w) (disk w).
Proof. unfold verify, read_store. rewrite with_store_eq. by destruct (in_force e w). Qed.

(** After a call the store in force is the one that the call pruned. *)
Lemma in_force_pruned e w t :
  in_force e (mkKeys ((fun s => prune s t) <$> in_force e w) (disk w))
  = match in_force e w with Some s => Some (prune s t) | None => load (disk w) e end.
Proof.
  destruct (in_force e w) as [s|] eqn:E; [|done]. apply in_force_tenant in E.
  cbn [fmap option_fmap option_map]. by rewrite in_force_mem.
Qed.

Lemma is_revoked_spec e t nonce session user w s :
  in_force e w = Some s ->
  (is_revoked (Some e) t nonce session user w).1 = false
  <-> forall r, r ∈ s_revocations s -> t < r_until r -> revokes nonce session user r = false.
Proof.
  intros E. unfold is_revoked, read_store. rewrite with_store_eq, E. cbn.
  rewrite <- not_true_iff_false, existsb_exists. setoid_rewrite <- list_elem_of_In.
  setoid_rewrite elem_of_filter_b. setoid_rewrite Z.ltb_lt. split.
  - intros Hn r Hr Ht. apply not_true_iff_false. intros Hv. apply Hn. eauto.
  - intros Hn (r & [Hr Ht] & Hv). rewrite Hn in Hv by done. done.
Qed.

Lemma expire_trusted k t t0 t1 : trusted_at (expire t k) t0 t1 -> trusted_at k t0 t1.
Proof.
  unfold expire, trusted_at. pose proof REVOKED_others as [? ?].
  destruct (_ && _); [|done]. cbn. intros [?|[? _]]; congruence.
Qed.

(** A document is accepted exactly when a key of the store in force signs its
    payload, a key that is active, or retiring and still within its term, and the
    one asked for when a key is named; what is returned is the signed payload. *)
Theorem verify_accepts_exactly_the_trusted e t0 t1 signed kid w p :
  (verify e t0 t1 signed kid w).1 = Ok p
  <-> exists en s k, e = Some en /\ in_force en w = Some s /\ k ∈ s_keys s
        /\ trusted_at k t0 t1 /\ of_kid kid k
        /\ verify_with (k_public_key k) signed = Some p.
Proof. apply verify_spec. Qed.

Lemma apply_rotation_Ok s r by_root now s' :
  apply_rotation s r by_root now = Ok s' ->
  s_rotation_seq s < rot_seq r
  /\ s' = mkStore (s_tenant_id s)
       (List.filter (fun k => negb (bool_decide (k_kid k = rot_new_key_id r)))
          (rotate_key by_root now <$> s_keys s)
        ++ [mkKey (rot_new_key_id r) (rot_new_key r) ACTIVE None])
       (rot_seq r) (s_grant_keys_version s) (s_revocations s).
Proof.
  unfold apply_rotation. destruct (_ && _); [done|]. destruct (negb _); [done|].
  destruct (Z.leb_spec (rot_seq r) (s_rotation_seq s)); [done|].
  destruct (decode64 _); [|done]. destruct (negb _); [done|]. destruct (_ <? _); [done|].
  intros [= <-]. done.
Qed.

Lemma rotate_key_same by_root now k :
  k_kid (rotate_key by_root now k) = k_kid k
  /\ k_public_key (rotate_key by_root now k) = k_public_key k.
Proof. unfold rotate_key. by repeat case_match. Qed.

Lemma rotate_key_usable by_root now k t :
  Int.is_s 64 (now + RETIRING_SECS) ->
  usable (rotate_key by_root now k) t = true
  <-> by_root = false
      /\ (k_state k = ACTIVE /\ t < now + RETIRING_SECS
          \/ k_state k = RETIRING /\ match k_not_after k with Some na => t < na | None => True end).
Proof.
  intros Hr. pose proof ACTIVE_RETIRING. pose proof REVOKED_others as [? ?].
  rewrite usable_spec. unfold rotate_key. case_bool_decide as E1.
  { split; [intros [?|[? _]]|intros [_ [[? _]|[? _]]]]; congruence. }
  destruct by_root; cbn [k_state k_not_after].
  { split; [intros [?|[? _]]|intros [? _]]; congruence. }
  case_bool_decide as E2; cbn [k_state k_not_after].
  - rewrite Int.swrap_small by done. split; [intros [?|[_ ?]]; [congruence|auto]|].
    intros [_ [[_ ?]|[? _]]]; [auto|congruence].
  - split; [intros [?|?]; [congruence|auto]|]. intros [_ [[? _]|?]]; [congruence|auto].
Qed.

(** What a rotation does to trust: afterwards a document is accepted if the
    new key signs it; after one by the root key nothing else is, at any time; after
    an ordinary one the keys that were active still count for seven days, those
    already retiring for the rest of their term, and no other. *)
Theorem rotation_hands_over s r by_root now s'
    (Hr : apply_rotation s r by_root now = Ok s')
    (Hnow : Int.is_s 64 (now + RETIRING_SECS)) signed t p :
  verify_in s' signed None t = Some p
  <-> verify_with (rot_new_key r) signed = Some p
      \/ by_root = false
         /\ exists k, k ∈ s_keys s /\ k_kid k <> rot_new_key_id r
              /\ verify_with (k_public_key k) signed = Some p
              /\ (k_state k = ACTIVE /\ t < now + RETIRING_SECS
                  \/ k_state k = RETIRING
                     /\ match k_not_after k with Some na => t < na | None => True end).
Proof.
  apply apply_rotation_Ok in Hr as [_ ->]. rewrite verify_in_Some. cbn [s_keys]. split.
  - intros (k' & [Hk|Hk]%elem_of_app & Ht & Hv).
    + apply elem_of_filter_b in Hk as [(k & -> & Hk)%list_elem_of_fmap Hne].
      destruct (rotate_key_same by_root now k) as [Ek Ep]. rewrite Ek in Hne. rewrite Ep in Hv.
      apply negb_true_iff, bool_decide_eq_false in Hne. unfold trusted in Ht.
      rewrite andb_true_r in Ht. apply rotate_key_usable in Ht as [? Ht]; [|done].
      right. split; [done|]. exists k. auto.
    + apply list_elem_of_singleton in Hk as ->. by left.
  - intros [Hv|(-> & k & Hk & Hne & Hv & Hst)].
    + eexists. split; [apply elem_of_app; right; by apply list_elem_of_singleton|]. split; [done|].
      exact Hv.
    + exists (rotate_key false now k). destruct (rotate_key_same false now k) as [Ek Ep].
      rewrite Ep. split; [|split; [|done]].
      * apply elem_of_app. left. apply elem_of_filter_b. split; [by apply list_elem_of_fmap_2|].
        rewrite Ek. by apply negb_true_iff, bool_decide_eq_false.
      * unfold trusted. rewrite andb_true_r. by apply rotate_key_usable.
Qed.

Lemma apply_grant_keys_Ok s l by_root s' :
  apply_grant_keys s l by_root = Ok s' ->
  s_grant_keys_version s < g_version l
  /\ exists keys, listed_keys (g_keys l) = Ok keys
     /\ (by_root = false -> has_active keys = true)
     /\ s' = mkStore (s_tenant_id s) (if bool_decide (keys = []) then s_keys s else keys)
               (s_rotation_seq s) (g_version l) (g_revocations l).
Proof.
  unfold apply_grant_keys. destruct (Z.leb_spec (g_version l) (s_grant_keys_version s)); [done|].
  destruct (listed_keys _) as [keys|]; [|done]. destruct (negb by_root && _) eqn:E; [done|].
  intros [= <-]. split; [done|]. exists keys. repeat split. intros ->.
  by apply negb_false_iff in E.
Qed.

(** ** Invariants of the store, in memory and on disk *)

(** What the operations of an enrolled PC keep of its store, however they follow
    one another: a property of the stores in force now and after a restart. *)
Section Invariant.
Context (e : Enrollment) (P : Store -> Prop) (allowed : Op -> Prop).
Hypothesis P_prune : forall s t, P s -> P (prune s t).
Hypothesis P_saved : forall s s', P s -> load (Some s) e = Some s' -> P s'.
Hypothesis P_tenant : forall s, P s -> s_tenant_id s = tenant_id e.
Hypothesis P_rotation : forall s s' r by_root now,
  P s -> apply_rotation s r by_root now = Ok s' -> P s'.
Hypothesis P_broken : forall o s,
  allowed o -> outcome o = Some Broken -> load None e = Some s -> P s.
Hypothesis P_grant_keys : forall s s' l by_root t0 t1 out signed p,
  allowed (ReceiveGrantKeys t0 t1 out signed) ->
  open_document s signed t1 = Some (p, by_root) -> grant_keys_from_slice p = Ok l ->
  P s -> apply_grant_keys s l by_root = Ok s' -> P s'.

#[local] Abbreviation kept := (keeps e P).

Lemma keeps_store s d : P s -> (forall s, load d e = Some s -> P s) -> kept (mkKeys (Some s) d).
Proof.
  intros Hs Hd. split; [|done]. intros s'. rewrite in_force_mem by auto. by intros [= <-].
Qed.

Lemma keeps_save o out s d :
  allowed o -> outcome o = Some out ->
  P s -> (forall s, load d e = Some s -> P s) -> kept (mkKeys (Some s) (save s out d)).
Proof.
  intros Ho Eo Hs Hd. apply keeps_store; [done|]. destruct out; simpl; [eauto|done|].
  intros x. by eapply P_broken.
Qed.

Lemma keeps_with_store {T} now (f : Store -> option Store -> Store * option Store * T) w :
  kept w ->
  (forall s, P s -> (forall s', load (disk w) e = Some s' -> P s') ->
     kept (mkKeys (Some (f s (disk w)).1.1) (f s (disk w)).1.2)) ->
  kept (with_store (Some e) now f w).2.
Proof.
  intros [Hm Hd] Hf. rewrite with_store_eq. destruct (in_force e w) as [s|] eqn:Es.
  - specialize (Hf (prune s now) ltac:(auto) Hd). by destruct (f _ _) as [[s' d] r].
  - split; [|done]. intros s. unfold in_force. simpl. apply Hd.
Qed.

Lemma run_op_keeps w o : allowed o -> kept w -> kept (run_op e w o).
Proof.
  intros Ha Hw. destruct o as [t0 t1 out signed|t0 t1 out signed|t0|]; cbn [run_op].
  - apply keeps_with_store; [done|]. intros s Hs Hd.
    destruct (open_document _ _ _) as [[p b]|]; [|by apply keeps_store].
    destruct (rotation_from_slice p) as [r|]; [|by apply keeps_store].
    destruct (apply_rotation s r b t1) as [s'|] eqn:E; [|by apply keeps_store].
    eapply keeps_save; eauto.
  - unfold receive_grant_keys. match goal with |- context [with_store (Some e) t0 ?f w] =>
      assert (kept (with_store (Some e) t0 f w).2) as Hk;
        [|by destruct (with_store (Some e) t0 f w)] end.
    apply keeps_with_store; [done|]. intros s Hs Hd.
    destruct (open_document _ _ _) as [[p b]|] eqn:Eo; [|by apply keeps_store].
    destruct (grant_keys_from_slice p) as [l|] eqn:El; [|by apply keeps_store].
    destruct (apply_grant_keys s l b) as [s'|] eqn:Es; [|by apply keeps_store].
    eapply keeps_save; eauto.
  - by apply keeps_with_store; [|intros; apply keeps_store].
  - destruct Hw as [_ Hd]. split; [|done]. intros s. unfold in_force. simpl. apply Hd.
Qed.

Lemma run_keeps ops w : Forall allowed ops -> kept w -> kept (run e w ops).
Proof.
  intros Ha. revert w. induction Ha as [|o ops Ho _ IH]; intros w Hw; [done|].
  simpl. apply IH. by apply run_op_keeps.
Qed.
End Invariant.

Lemma load_past e number n s : past e number n s -> load (Some s) e = Some s.
Proof.
  intros (Ht & Hk & _). unfold load. rewrite bool_decide_eq_true_2 by done.
  by rewrite bool_decide_eq_false_2.
Qed.

Lemma run_keeps_past e number n ops w :
  (forall s t, number (prune s t) = number s) ->
  (forall s s' r b t, apply_rotation s r b t = Ok s' -> number s <= number s') ->
  (forall s s' l b, apply_grant_keys s l b = Ok s' -> number s <= number s') ->
  Forall leaves_the_file_whole ops ->
  keeps e (past e number n) w -> keeps e (past e number n) (run e w ops).
Proof.
  intros Hp Hr Hg Hops. apply (run_keeps e _ leaves_the_file_whole); [| | | | | |done].
  - intros s t (? & Hk & ?). repeat split; [done| |by rewrite Hp].
    intros E. by apply fmap_nil_inv in E.
  - intros s s' Hs. rewrite (load_past _ _ _ _ Hs). by intros [= <-].
  - by intros s (? & _).
  - intros s s' r b t (Ht & Hk & Hn) E. pose proof (Hr _ _ _ _ _ E).
    apply apply_rotation_Ok in E as [_ ->]. repeat split; [done| |lia].
    by intros [_ ?]%app_eq_nil.
  - by intros o s Ho ?.
  - intros s s' l b t0 t1 out signed p _ _ _ (Ht & Hk & Hn) E. pose proof (Hg _ _ _ _ E).
    apply apply_grant_keys_Ok in E as (_ & keys & _ & _ & ->). repeat split; [done| |lia].
    cbn. by case_bool_decide.
Qed.

Lemma receive_rotation_Ok e t0 t1 out signed w w' :
  receive_rotation (Some e) t0 t1 out signed w = (Some (Ok tt), w') ->
  exists s p b r s', in_force e w = Some s /\ open_document (prune s t0) signed t1 = Some (p, b)
    /\ rotation_from_slice p = Ok r /\ apply_rotation (prune s t0) r b t1 = Ok s'
    /\ w' = mkKeys (Some s') (save s' out (disk w)).
Proof.
  unfold receive_rotation. rewrite with_store_eq. destruct (in_force e w) as [s|]; [|done].
  destruct (open_document _ _ _) as [[p b]|] eqn:Eo; [|done].
  destruct (rotation_from_slice p) as [r|] eqn:Er; [|done].
  destruct (apply_rotation _ _ _ _) as [s'|] eqn:Ea; [|done]. intros [= <-].
  by exists s, p, b, r, s'.
Qed.

Lemma receive_grant_keys_Ok e t0 t1 out signed w w' :
  receive_grant_keys (Some e) t0 t1 out signed w = (Ok tt, w') ->
  exists s p b l s', in_force e w = Some s /\ open_document (prune s t0) signed t1 = Some (p, b)
    /\ grant_keys_from_slice p = Ok l /\ apply_grant_keys (prune s t0) l b = Ok s'
    /\ w' = mkKeys (Some (prune s' t1)) (save (prune s' t1) out (disk w)).
Proof.
  unfold receive_grant_keys. rewrite with_store_eq. destruct (in_force e w) as [s|]; [|done].
  destruct (open_document _ _ _) as [[p b]|] eqn:Eo; [|done].
  destruct (grant_keys_from_slice p) as [l|] eqn:El; [|done].
  destruct (apply_grant_keys _ _ _) as [s'|] eqn:Ea; [|done]. intros [= <-].
  by exists s, p, b, l, s'.
Qed.

Lemma keys_remain e d ops : forall s, in_force e (run e (started d) ops) = Some s -> s_keys s <> [].
Proof.
  intros s Hs.
  assert (forall d' x, load d' e = Some x -> past e (fun _ => 0) 0 x) as Hl.
  { intros d' x [? ?]%load_tenant. by repeat split. }
  enough (keeps e (past e (fun _ => 0) 0) (run e (started d) ops)) as [Hk _] by (by apply Hk).
  apply (run_keeps e _ (fun _ => True)); [| | | | | |by apply Forall_true|split; apply Hl].
  - intros x t (? & Hk & ?). repeat split; [done| |cbn; lia]. intros E. by apply fmap_nil_inv in E.
  - intros x x' _. apply Hl.
  - by intros x (? & _).
  - intros x x' r b t (Ht & _) [_ ->]%apply_rotation_Ok. repeat split; [done| |cbn; lia].
    by intros [_ ?]%app_eq_nil.
  - intros o x _ _. apply Hl.
  - intros x x' l b t0 t1 out signed p _ _ _ (Ht & Hk & _) E.
    apply apply_grant_keys_Ok in E as (_ & keys & _ & _ & ->). repeat split; [done| |cbn; lia].
    cbn. by case_bool_decide.
Qed.

Lemma keeps_past_saved e number n s :
  past e number n s -> keeps e (past e number n) (mkKeys (Some s) (Some s)).
Proof.
  intros Hp. apply keeps_store; [by intros ? (? & _)|done|]. intros x.
  rewrite (load_past _ _ _ _ Hp). by intros [= <-].
Qed.

Lemma rotations_apply_once e t0 t1 signed w w' ops t2 t3 out :
  Forall leaves_the_file_whole ops ->
  receive_rotation (Some e) t0 t1 Saved signed w = (Some (Ok tt), w') ->
  (receive_rotation (Some e) t2 t3 out signed (run e w' ops)).1 <> Some (Ok tt).
Proof.
  intros Hops (s & p & b & r & s' & Es & Eo & Er & Ea & ->)%receive_rotation_Ok.
  assert (keeps e (past e s_rotation_seq (rot_seq r)) (run e (mkKeys (Some s') (Some s')) ops)) as [Hk _].
  { apply run_keeps_past; [done| | |done|].
    - intros x x' r' b' t [? ->]%apply_rotation_Ok. cbn. lia.
    - by intros x x' l b' (_ & ? & _ & _ & ->)%apply_grant_keys_Ok.
    - apply keeps_past_saved. apply apply_rotation_Ok in Ea as [_ ->].
      apply in_force_tenant in Es. repeat split; [done| |cbn; lia]. by intros [_ ?]%app_eq_nil. }
  intros Hagain. destruct (receive_rotation (Some e) t2 t3 out signed _) as [[[[]|]|] w2] eqn:E2; try done.
  apply receive_rotation_Ok in E2 as (s2 & p2 & b2 & r2 & s2' & Es2 & Eo2 & Er2 & Ea2 & _).
  apply open_document_payload in Eo, Eo2. assert (p2 = p) as -> by congruence.
  assert (r2 = r) as -> by congruence. apply apply_rotation_Ok in Ea2 as [Hlt _]. cbn in Hlt.
  destruct (Hk _ Es2) as (_ & _ & ?). lia.
Qed.

Lemma grant_keys_apply_once e t0 t1 signed w w' ops t2 t3 out :
  Forall leaves_the_file_whole ops ->
  (forall s, in_force e w = Some s -> s_keys s <> []) ->
  receive_grant_keys (Some e) t0 t1 Saved signed w = (Ok tt, w') ->
  (receive_grant_keys (Some e) t2 t3 out signed (run e w' ops)).1 <> Ok tt.
Proof.
  intros Hops Hne (s & p & b & l & s' & Es & Eo & El & Ea & ->)%receive_grant_keys_Ok.
  assert (keeps e (past e s_grant_keys_version (g_version l))
    (run e (mkKeys (Some (prune s' t1)) (Some (prune s' t1))) ops)) as [Hk _].
  { apply run_keeps_past; [done| | |done|].
    - by intros x x' r' b' t [? ->]%apply_rotation_Ok.
    - intros x x' l' b' (? & ? & _ & _ & ->)%apply_grant_keys_Ok. cbn. lia.
    - apply keeps_past_saved. apply apply_grant_keys_Ok in Ea as (_ & keys & _ & _ & ->).
      pose proof (Hne _ Es). apply in_force_tenant in Es. repeat split; [done| |cbn; lia].
      cbn. intros E%fmap_nil_inv. case_bool_decide; [|done]. by apply fmap_nil_inv in E. }
  intros Hagain. destruct (receive_grant_keys (Some e) t2 t3 out signed _) as [[[]|] w2] eqn:E2; try done.
  apply receive_grant_keys_Ok in E2 as (s2 & p2 & b2 & l2 & s2' & Es2 & Eo2 & El2 & Ea2 & _).
  apply open_document_payload in Eo, Eo2. assert (p2 = p) as -> by congruence.
  assert (l2 = l) as -> by congruence. apply apply_grant_keys_Ok in Ea2 as [Hlt _]. cbn in Hlt.
  destruct (Hk _ Es2) as (_ & _ & ?). lia.
Qed.

(** C8 A rotation or a list of keys and revocations that was applied and written
    down is never applied again while the PC stays enrolled, whatever is received in
    between and however often the process restarts, as long as no later write breaks
    the state file: its signature may still be good, its number is not.  So an old
    document cannot bring back a key or drop a revocation.  The condition is the
    code's: a write that truncates the file and then fails leaves a file that does
    not load, and the next start begins again from the key of the enrolment and
    number 0 ([a_broken_write_forgets_the_numbers]). *)
Theorem documents_apply_once e d before o between o'
    (Ho : accepts e (run e (started d) before) o = true) (Hsaved : outcome o = Some Saved)
    (Hbetween : Forall leaves_the_file_whole between) (Hsame : same_document o o') :
  accepts e (run e (started d) (before ++ o :: between)) o' = false.
Proof.
  unfold run. rewrite foldl_app. fold (run e (started d) before). cbn [foldl].
  fold (run e (run_op e (run e (started d) before) o) between).
  set (w := run e (started d) before) in *.
  destruct o as [t0 t1 out a|t0 t1 out a|?|], o' as [t2 t3 out' b|t2 t3 out' b|?|]; try done;
    cbn in Hsame; subst b; injection Hsaved as ->; cbn [accepts run_op] in *.
  - destruct (receive_rotation (Some e) t0 t1 Saved a w) as [[[[]|]|] w'] eqn:E; try done.
    pose proof (rotations_apply_once _ _ _ _ _ _ between t2 t3 out' Hbetween E) as Hn. cbn [snd].
    by destruct (receive_rotation _ _ _ _ _ _).1 as [[[]|]|].
  - destruct (receive_grant_keys (Some e) t0 t1 Saved a w) as [[[]|] w'] eqn:E; [|done].
    pose proof (grant_keys_apply_once _ _ _ _ _ _ between t2 t3 out' Hbetween (keys_remain _ _ _) E) as Hn.
    cbn [snd]. by destruct (receive_grant_keys _ _ _ _ _ _).1 as [[]|].
Qed.

(** ** The anchor *)

Lemma has_active_spec keys : has_active keys = true <-> exists k, k ∈ keys /\ k_state k = ACTIVE.
Proof.
  unfold has_active. rewrite existsb_exists. setoid_rewrite <- list_elem_of_In.
  by setoid_rewrite bool_decide_eq_true.
Qed.

Lemma load_anchored e s : anchored e s -> load (Some s) e = Some s.
Proof.
  intros [Ht (k & Hk & _)]. apply (load_past e (fun _ => 0) 0). repeat split; [done| |lia].
  intros E. rewrite E in Hk. by apply elem_of_nil in Hk.
Qed.

(** An enrolled PC always keeps a key it can trust: from a state file that is
    missing, of another tenant or with an active key, and whatever documents are
    received, there is an active key in force, as long as the root key itself signs
    no list without one. *)
Theorem an_active_key_remains e d ops
    (Hd : forall s, load d e = Some s -> anchored e s)
    (Hops : Forall root_spares_an_active_key ops) s
    (Hs : in_force e (run e (started d) ops) = Some s) :
  exists k, k ∈ s_keys s /\ k_state k = ACTIVE.
Proof.
  enough (keeps e (anchored e) (run e (started d) ops)) as [Hk _] by (by apply Hk).
  apply (run_keeps e _ root_spares_an_active_key); [| | | | | |done|by split].
  - intros x t [? (k & Hk & Ha)]. split; [done|]. exists (expire t k).
    split; [by apply list_elem_of_fmap_2|]. unfold expire.
    pose proof ACTIVE_RETIRING. rewrite bool_decide_eq_false_2 by congruence. done.
  - intros x x' Hx. rewrite (load_anchored _ _ Hx). by intros [= <-].
  - by intros x [? _].
  - intros x x' r b t [? _] [_ ->]%apply_rotation_Ok. split; [done|]. eexists.
    split; [apply elem_of_app; right; by apply list_elem_of_singleton|done].
  - intros o x _ _ Hx. split; [by apply load_tenant in Hx as [? _]|]. cbn in Hx. unfold initial in Hx.
    destruct (result_ok _); [|done]. injection Hx as <-. eexists. split; [left|done].
  - intros x x' l b t0 t1 out signed p Hal Ho El [Ht Ha] E.
    apply apply_grant_keys_Ok in E as (_ & keys & Ek & Hb & ->). split; [done|]. cbn [s_keys].
    case_bool_decide as En; [done|]. apply has_active_spec. destruct b; [|by apply Hb].
    unfold open_document in Ho. destruct (verify_in _ _ _ _); [done|].
    destruct (verify_root signed) as [q|] eqn:Er; [|done]. injection Ho as ->.
    by destruct (Hal p l keys Er El Ek).
Qed.
End Proofs.

(** ** The toy instance at work *)

Section Samples.
#[local] Existing Instance toy_crypto.

Example seven_days :
  let w := run sample_enrollment (started None)
             [ReceiveRotation 0 1000 Saved (signed_by 10 [1; 20; 1])] in
  (fun q => is_ok (verify (Some sample_enrollment) 1000 q.1 (signed_by q.2 [7]) None w).1)
    <$> [(1000 + RETIRING_SECS - 1, 10); (1000 + RETIRING_SECS, 10); (2 * RETIRING_SECS, 20); (1000, 30)]
  = [true; false; true; false].
Proof. vm_compute. reflexivity. Qed.

Lemma rotation_hands_over_witness :
  exists s', apply_rotation (mkStore (Str.lit "t1") [mkKey [10] [10] ACTIVE None] 0 0 [])
    (mkRotation [] (Str.lit "t1") [20] [20] 0 1) true 1000 = Ok s'
  /\ verify_in s' (signed_by 10 [7]) None 1000 = None.
Proof.
  eexists. split; [vm_compute; reflexivity|].
  match goal with |- ?v = None => destruct v as [p|] eqn:E; [|reflexivity] end. exfalso.
  apply (rotation_hands_over (mkStore (Str.lit "t1") [mkKey [10] [10] ACTIVE None] 0 0 [])
    (mkRotation [] (Str.lit "t1") [20] [20] 0 1) true 1000) in E as [E|[E _]].
  - vm_compute in E. discriminate E.
  - discriminate E.
  - vm_compute. reflexivity.
  - vm_compute. split; discriminate.
Defined.

Lemma documents_apply_once_witness :
  accepts sample_enrollment
    (run sample_enrollment (started None)
       ([] ++ ReceiveRotation 0 1000 Saved (signed_by 10 [1; 20; 1])
           :: [ReceiveRotation 0 2000 Saved (signed_by 20 [1; 10; 2]); RestartProcess]))
    (ReceiveRotation 0 3000 Saved (signed_by 10 [1; 20; 1])) = false.
Proof.
  apply (documents_apply_once sample_enrollment None []
    (ReceiveRotation 0 1000 Saved (signed_by 10 [1; 20; 1]))).
  - vm_compute. reflexivity.
  - reflexivity.
  - repeat constructor; discriminate.
  - reflexivity.
Defined.

(** The condition is needed: the rotation to key 20 is written down, the write of the
    next one breaks the file, and after a restart the first is accepted again. *)
Example a_broken_write_forgets_the_numbers :
  accepts sample_enrollment
    (run sample_enrollment (started None)
       [ReceiveRotation 0 1000 Saved (signed_by 10 [1; 20; 1]);
        ReceiveRotation 0 2000 Broken (signed_by 20 [1; 30; 2]); RestartProcess])
    (ReceiveRotation 0 3000 Saved (signed_by 10 [1; 20; 1])) = true.
Proof. vm_compute. reflexivity. Qed.

Lemma an_active_key_remains_witness :
  exists k, k ∈ [mkKey [20] [20] ACTIVE None] /\ k_state k = ACTIVE.
Proof.
  apply (an_active_key_remains sample_enrollment None
    [ReceiveGrantKeys 0 1000 Saved (signed_by 10 [2; 1; 20])]) with
    (s := mkStore (Str.lit "t1") [mkKey [20] [20] ACTIVE None] 0 1 []).
  - intros s Hs. vm_compute in Hs. injection Hs as <-. split; [vm_compute; reflexivity|].
    eexists. split; [left|vm_compute; reflexivity].
  - constructor; [|constructor]. intros p l keys E. vm_compute in E. discriminate E.
  - vm_compute. reflexivity.
Defined.
End Samples.
