(* ===== verification/ManagedSettings.v ===== *)
(** * Managed settings: [src/clanto/policy.rs], [gpo.rs], [managed_config.rs],
      [settings_lock.rs] and [outgoing.rs]

    The settings that the administrator fixes: the table [OVERWRITE_SETTINGS] that the
    group policy (or the MDM) fills, the tenant's signed policy merged over it, the
    documents received and saved, and what the table allows.  The signature is that
    of [TenantKeys]; JSON is third-party code (the class [PolicyDecoders]); the clock
    and the results of file writes are arguments.  Tables of texts are [gmap]s. *)

From stdpp Require Import sorting.
From S2P Require Import Prelude TenantKeys.

Abbreviation table := (gmap rstr rstr).

Definition GPO_KEYS : list rstr := Str.lit <$> [
    "enable-remote-printer"; "enable-clipboard"; "enable-file-transfer"; "enable-camera";
    "enable-terminal"; "enable-tunnel"; "enable-remote-restart"; "enable-record-session";
    "enable-keyboard"; "enable-audio"; "enable-lan-discovery"; "allow-auto-disconnect";
    "auto-disconnect-timeout"; "verification-method"; "approve-mode"; "id-whitelist";
    "clanto-id-permissions"; "clanto-trusted-controllers"; "clanto-require-2fa";
    "clanto-access-hours"; "clanto-share-device-identity"; "clanto-forward-enabled";
    "clanto-forward-services-host"; "clanto-forward-services-controller";
    "clanto-forward-custom-host"; "clanto-forward-custom-host-targets"; "clanto-forward-reverse";
    "clanto-forward-custom-controller"; "clanto-forward-custom-controller-targets";
    "clanto-forward-webcam"; "clanto-forward-webcam-send"; "clanto-forward-webcam-receive";
    "clanto-forward-camera-device"; "clanto-temp-password-rotate-minutes";
    "clanto-require-protected-device"; "clanto-posture-bypass"; "clanto-file-scan";
    "clanto-file-scan-clamd"; "clanto-file-scan-max-mb"; "clanto-file-direction";
    "clanto-file-blocked-ext"; "clanto-eventlog-enabled"; "clanto-syslog-enabled";
    "clanto-syslog-host"; "clanto-syslog-port"; "clanto-syslog-protocol";
    "clanto-syslog-facility"; "clanto-syslog-tls-ca"; "clanto-syslog-format";
    "clanto-session-log-days"; "clanto-privacy-prompt"; "allow-auto-update";
    "clanto-outgoing-file-transfer"; "clanto-outgoing-clipboard"; "clanto-outgoing-tunnel";
    "clanto-outgoing-terminal"; "clanto-outgoing-remote-printer"; "clanto-outgoing-record";
    "clanto-require-controller-watermark"; "clanto-host-watermark"; "clanto-lock-settings";
    "clanto-enroll-token"; "clanto-unenroll"]%string.

Definition OPT_ENROLL_TOKEN : rstr := Str.lit "clanto-enroll-token".
Definition OPT_UNENROLL : rstr := Str.lit "clanto-unenroll".
Definition OPT_LOCK_SETTINGS : rstr := Str.lit "clanto-lock-settings".

Definition ENROLLMENT_KEYS : list rstr := [OPT_ENROLL_TOKEN; OPT_UNENROLL].
Definition REQUIRE_WINS : list rstr := [Str.lit "clanto-host-watermark"; OPT_LOCK_SETTINGS].

Definition contains (l : list rstr) (k : rstr) : bool := existsb (fun x => bool_decide (x = k)) l.

Definition Y : rstr := Str.lit "Y".
Definition N : rstr := Str.lit "N".
Definition same (a b : rstr) : bool := bool_decide (a = b).

(** ** The policy and its merge with the group policy *)

Record PolicySettings := mkSettings {
  enable_account : bool; record_upload : bool; access_mode : rstr }.

#[export] Instance PolicySettings_eq_dec : EqDecision PolicySettings.
Proof. solve_decision. Defined.

Definition default_settings : PolicySettings := mkSettings false false [].

Record Policy := mkPolicy {
  p_tenant_id : rstr; p_device_id : rstr; p_version : Z; p_issued_at : Z;
  p_options : table; p_settings : PolicySettings }.

Definition policy_key_allowed (key : rstr) : bool :=
  contains GPO_KEYS key && negb (contains ENROLLMENT_KEYS key).

Definition merge (key : rstr) (gpo : option rstr) (policy : rstr) : rstr :=
  match gpo with
  | None => policy
  | Some gpo =>
      if Str.starts_with (Str.lit "enable-") key then
        if same gpo N || same policy N then N else gpo
      else if Str.starts_with (Str.lit "clanto-require-") key || contains REQUIRE_WINS key then
        if same gpo Y || same policy Y then Y else gpo
      else gpo
  end.

(** The keys taken away go back to the baseline, then the new values are written. *)
Definition restore (baseline : table) (key : rstr) (overwrite : table) : table :=
  match baseline !! key with
  | Some v => <[key := v]> overwrite
  | None => delete key overwrite
  end.

Definition write_overwrite (overwrite baseline previous next : table) : table :=
  let gone :=
    List.filter (fun k => negb (bool_decide (is_Some (next !! k)))) (map_to_list previous).*1 in
  let overwrite := foldr (restore baseline) overwrite gone in
  foldr (fun kv o => <[kv.1 := kv.2]> o) overwrite (map_to_list next).

Definition only_allowed (t : table) : table := filter (fun kv => policy_key_allowed kv.1 = true) t.

Definition effective_options (policy : Policy) (baseline : table) : table :=
  map_imap (fun k v => Some (merge k (baseline !! k) v)) (only_allowed (p_options policy)).

(** ** What the process holds *)

(** [overwrite] is [OVERWRITE_SETTINGS], [account_enabled] the hard setting; [mdm_keys]
    are those of the last managed configuration. *)
Record Managed := mkManaged {
  overwrite : table; account_enabled : bool;
  baseline : option table; effective : table; policy : option Policy;
  mdm_keys : list rstr }.

Definition initial (gpo : table) : Managed := mkManaged gpo false None ∅ None [].

Definition apply_effective (next : table) (p : option Policy) (m : Managed) : Managed :=
  let base := match baseline m with Some b => b | None => only_allowed (overwrite m) end in
  mkManaged (write_overwrite (overwrite m) base (effective m) next)
    (match p with Some p => enable_account (p_settings p) | None => false end)
    (Some base) next p (mdm_keys m).

Definition baseline_of (m : Managed) : table := default (only_allowed (overwrite m)) (baseline m).

(** [apply]. *)
Definition apply_policy (p : Policy) (m : Managed) : Managed :=
  apply_effective (effective_options p (baseline_of m)) (Some p) m.

Definition version (m : Managed) : Z := match policy m with Some p => p_version p | None => 0 end.
Definition settings (m : Managed) : PolicySettings :=
  match policy m with Some p => p_settings p | None => default_settings end.
Definition managed_keys (m : Managed) : gset rstr := dom (effective m).

(** ** The answer to the server *)

Record Conflict := mkConflict { cf_key : rstr; cf_server : rstr; cf_local : rstr }.

Record Ack := mkAck { ack_version : Z; conflicts : list Conflict; rejected : list rstr }.

(** The order of Rust's [String]s. *)
Fixpoint text_le (a b : rstr) : bool :=
  match a, b with
  | [], _ => true
  | _ :: _, [] => false
  | x :: a, y :: b => (x <? y) || ((x =? y) && text_le a b)
  end.

Definition pair_le (a b : rstr * rstr) : Prop :=
  (if same a.1 b.1 then text_le a.2 b.2 else text_le a.1 b.1) = true.
#[export] Instance pair_le_dec a b : Decision (pair_le a b).
Proof. unfold pair_le. apply _. Defined.

Definition ack_step (base : table) (kv : rstr * rstr) (a : Ack) : Ack :=
  let '(key, value) := kv in
  if negb (policy_key_allowed key) then mkAck (ack_version a) (conflicts a) (key :: rejected a)
  else
    let eff := merge key (base !! key) value in
    if same eff value then a
    else mkAck (ack_version a) (mkConflict key value eff :: conflicts a) (rejected a).

Definition ack_body (p : Policy) (base : table) : Ack :=
  foldr (ack_step base) (mkAck (p_version p) [] []) (merge_sort pair_le (map_to_list (p_options p))).

(** ** Signed documents *)

(** A JSON value; a number with its text. *)
Inductive Value := VString (s : rstr) | VBool (b : bool) | VNumber (text : rstr) | VOther.

Class PolicyDecoders := {
  policy_from_slice : bytes -> option Policy;
  signed_to_vec : Signed -> option bytes;
  signed_from_slice : bytes -> option Signed;
  (** The members of a JSON object. *)
  object_from_str : rstr -> option (list (rstr * Value)) }.

(** The service: the enrolment, the trusted keys, the settings, the file of the last
    policy and the request to send it again. *)
Record Service := mkService {
  enrolled : option Enrollment; keys : Keys; managed : Managed;
  policy_file : option bytes; force_resync : bool }.

Definition set_managed (m : Managed) (s : Service) : Service :=
  mkService (enrolled s) (keys s) m (policy_file s) (force_resync s).

Section Documents.
Context `{Crypto} `{PolicyDecoders}.

(** Before the enrolment is saved the key is the enrolment's own. *)
Definition verified_payload (t0 t1 : Z) (signed : Signed) (e : Enrollment) (s : Service)
  : option bytes * Service :=
  match enrolled s with
  | Some e' =>
      let '(r, w) := verify (Some e') t0 t1 signed None (keys s) in
      (result_ok r, mkService (enrolled s) w (managed s) (policy_file s) (force_resync s))
  | None => (verify_with (tenant_key e) signed, s)
  end.

Definition verify_policy (t0 t1 : Z) (signed : Signed) (e : Enrollment) (s : Service)
  : option Policy * Service :=
  let '(payload, s) := verified_payload t0 t1 signed e s in
  (payload ← payload;
   p ← policy_from_slice payload;
   if same (p_device_id p) (device_id e) && same (p_tenant_id p) (tenant_id e) then Some p else None, s).

(** [saved] tells whether the file could be written; the answer to the server. *)
Definition receive (t0 t1 : Z) (saved : bool) (signed : Signed) (s : Service) : Service * option Ack :=
  match enrolled s with
  | None => (s, None)
  | Some e =>
      match verify_policy t0 t1 signed e s with
      | (None, s) => (s, None)
      | (Some p, s) =>
          if p_version p <? version (managed s) then (s, None)
          else
            let file :=
              match signed_to_vec signed with
              | Some bytes => if saved then Some bytes else policy_file s
              | None => policy_file s
              end in
            (mkService (enrolled s) (keys s) (apply_policy p (managed s)) file (force_resync s),
             Some (ack_body p (baseline_of (managed s))))
      end
  end.

Definition apply_saved (t0 t1 : Z) (s : Service) : Service :=
  match enrolled s, policy_file s with
  | Some e, Some bytes =>
      match signed_from_slice bytes with
      | None => s
      | Some signed =>
          match verify_policy t0 t1 signed e s with
          | (Some p, s) => set_managed (apply_policy p (managed s)) s
          | (None, s) => s
          end
      end
  | _, _ => s
  end.

(** [removed]: the file could be removed. *)
Definition clear (removed : bool) (s : Service) : Service :=
  mkService (enrolled s) (keys s) (apply_effective ∅ None (managed s))
    (if removed then None else policy_file s) (force_resync s).

Definition request_resync (s : Service) : Service :=
  mkService (enrolled s) (keys s) (managed s) (policy_file s) true.

(** [enrollment::clear]: the enrolment, its keys and its policy go. *)
Definition unenroll (removed : bool) (s : Service) : Service :=
  clear removed (mkService None (reset (keys s)) (managed s) (policy_file s) (force_resync s)).

(** [finish_enrollment], once the enrolment is saved; the answer may hold a policy. *)
Definition enroll (t0 t1 : Z) (saved : bool) (e : Enrollment) (signed : option Signed) (s : Service)
  : Service :=
  let s := mkService (Some e) (reset (keys s)) (managed s) (policy_file s) (force_resync s) in
  match signed with Some signed => (receive t0 t1 saved signed s).1 | None => s end.

Definition heartbeat_version (s : Service) : Z * Service :=
  (if force_resync s then 0 else version (managed s),
   mkService (enrolled s) (keys s) (managed s) (policy_file s) false).

(** ** The user interface's process: the service's values, at most every 5 seconds *)

Record Ui := mkUi { ui : Managed; last_ui_sync : option Z }.

Definition UI_SYNC_INTERVAL : Z := 5000.

(** [reply]: the options and settings that the service sent, if any. *)
Definition sync_ui (now : Z) (reply : option (table * PolicySettings)) (u : Ui) : Ui :=
  if match last_ui_sync u with Some t => now - t <? UI_SYNC_INTERVAL | None => false end then u
  else
    match reply with
    | None => mkUi (ui u) (Some now)
    | Some (options, st) =>
        let options := only_allowed options in
        let p :=
          if negb (bool_decide (options = ∅)) || negb (bool_decide (st = default_settings))
          then Some (mkPolicy [] [] 0 0 ∅ st) else None in
        mkUi (apply_effective options p (ui u)) (Some now)
    end.

(** What the service answers. *)
Definition effective_reply (m : Managed) : table * PolicySettings := (effective m, settings m).

(** ** Managed configurations of an MDM *)

Definition value_string (v : Value) : option rstr :=
  match v with
  | VString s => if same (Str.trim s) [] then None else Some (Str.trim s)
  | VBool b => Some (if b then Y else N)
  | VNumber text => Some text
  | VOther => None
  end.

Definition managed_pairs (json : rstr) : list (rstr * rstr) :=
  match object_from_str json with
  | None => []
  | Some members =>
      omap (fun kv => v ← value_string kv.2; Some (kv.1, v))
        (List.filter (fun kv => contains GPO_KEYS kv.1) members)
  end.

Definition apply_json (json : rstr) (m : Managed) : Managed :=
  let pairs := managed_pairs json in
  let ov := foldl (fun o k => delete k o) (overwrite m) (mdm_keys m) in
  let ov := foldl (fun o kv => <[kv.1 := kv.2]> o) ov pairs in
  mkManaged ov (account_enabled m) (baseline m) (effective m) (policy m) pairs.*1.
End Documents.

(** ** What the table allows *)

Definition user_write_allowed (lock_value : rstr) : bool := negb (same lock_value Y).
Definition user_write_allowed_now (m : Managed) : bool :=
  user_write_allowed (default [] (overwrite m !! OPT_LOCK_SETTINGS)).
Definition user_option_write_allowed (key : rstr) (m : Managed) : bool :=
  negb (same key OPT_LOCK_SETTINGS) && user_write_allowed_now m.

Definition LOCKED_LOCAL_FLUTTER_OPTIONS : list rstr :=
  [Str.lit "clanto-local-password"; Str.lit "clanto-local-password-scope"].
Definition user_local_flutter_option_write_allowed (key lock_value : rstr) : bool :=
  negb (contains LOCKED_LOCAL_FLUTTER_OPTIONS key) || user_write_allowed lock_value.

Definition user_local_flutter_option_write_allowed_now (key : rstr) (m : Managed) : bool :=
  user_local_flutter_option_write_allowed key (default [] (overwrite m !! OPT_LOCK_SETTINGS)).

(** Restrictions of outgoing sessions. *)
Definition outgoing_allowed (value : rstr) : bool := negb (same value N).

(** * Specification *)

(** The value of a key when the group policy fixes [gpo] and the tenant's policy [p]
    is in force. *)
Definition overlay (gpo : table) (p : option Policy) (k : rstr) : option rstr :=
  match p ≫= fun p => only_allowed (p_options p) !! k with
  | Some v => Some (merge k (gpo !! k) v)
  | None => gpo !! k
  end.

(** The value that restricts, where one wins on both sides. *)
Definition restrictive (k : rstr) : option rstr :=
  if Str.starts_with (Str.lit "enable-") k then Some N
  else if Str.starts_with (Str.lit "clanto-require-") k || contains REQUIRE_WINS k then Some Y
  else None.

(** What happens to the service: a document of the server, an enrolment (there is none)
    with or without a policy, its end, a request for the policy, a heartbeat, and a
    new start of the process, which finds the group policy [gpo], the enrolment [e]
    and the files of the keys and of the policy. *)
Inductive Step :=
| SReceive (t0 t1 : Z) (saved : bool) (signed : Signed)
| SEnroll (t0 t1 : Z) (saved : bool) (e : Enrollment) (signed : option Signed)
| SUnenroll (removed : bool)
| SResync
| SHeartbeat
| SStart (gpo : table) (e : option Enrollment) (t0 t1 : Z).

(** The group policy that the last start found. *)
Definition gpo_after (gpo : table) (steps : list Step) : table :=
  foldl (fun g st => match st with SStart gpo _ _ _ => gpo | _ => g end) gpo steps.

(** What the interface's process was told, and when. *)
Definition ui_run (syncs : list (Z * option (table * PolicySettings))) (u : Ui) : Ui :=
  foldl (fun u s => sync_ui s.1 s.2 u) u syncs.

Section Spec.
Context `{Crypto} `{PolicyDecoders}.

Definition booted (gpo : table) (e : option Enrollment) (s : Service) : Service :=
  mkService e (started (disk (keys s))) (initial gpo) (policy_file s) false.

Definition step (st : Step) (s : Service) : Service :=
  match st with
  | SReceive t0 t1 saved signed => (receive t0 t1 saved signed s).1
  | SEnroll t0 t1 saved e signed =>
      match enrolled s with Some _ => s | None => enroll t0 t1 saved e signed s end
  | SUnenroll removed => unenroll removed s
  | SResync => request_resync s
  | SHeartbeat => (heartbeat_version s).2
  | SStart gpo e t0 t1 => apply_saved t0 t1 (booted gpo e s)
  end.

Definition run (steps : list Step) (s : Service) : Service := foldl (fun s st => step st s) s steps.

(** A trusted key of the tenant signs the document, which holds [p] for this device. *)
Definition authentic (t0 t1 : Z) (w : Keys) (e : Enrollment) (signed : Signed) (p : Policy) : Prop :=
  exists store k payload,
    TenantKeys.in_force e w = Some store /\ k ∈ s_keys store /\ trusted_at k t0 t1
    /\ verify_with (k_public_key k) signed = Some payload
    /\ policy_from_slice payload = Some p
    /\ p_device_id p = device_id e /\ p_tenant_id p = tenant_id e.
End Spec.

(** The table is the group policy's with the effective values written over it. *)
Record refines (gpo : table) (m : Managed) : Prop := {
  rf_base : match baseline m with
            | None => overwrite m = gpo /\ effective m = ∅
            | Some base => base = only_allowed gpo
            end;
  rf_account : account_enabled m = enable_account (settings m);
  rf_keys : forall k v, effective m !! k = Some v -> policy_key_allowed k = true;
  rf_table : forall k, overwrite m !! k = match effective m !! k with Some v => Some v | None => gpo !! k end }.

(** The effective values are those of the policy in force. *)
Definition in_force (gpo : table) (m : Managed) : Prop :=
  effective m = match policy m with Some p => effective_options p (only_allowed gpo) | None => ∅ end.

(** * Theorems *)

Lemma only_allowed_lookup t k :
  only_allowed t !! k = if policy_key_allowed k then t !! k else None.
Proof.
  unfold only_allowed. apply option_eq. intros v. rewrite map_lookup_filter_Some. cbn.
  destruct (policy_key_allowed k); [tauto|]. split; [by intros []|done].
Qed.

Lemma restore_lookup (base : table) (k : rstr) (ov : table) (k' : rstr) :
  restore base k ov !! k' = if decide (k = k') then base !! k' else ov !! k'.
Proof.
  unfold restore. destruct (decide (k = k')) as [->|Hne].
  - destruct (base !! k') as [v|]; [apply lookup_insert_eq|apply lookup_delete_eq].
  - destruct (base !! k); [by apply lookup_insert_ne|by apply lookup_delete_ne].
Qed.

Lemma restore_all_lookup (base : table) (ks : list rstr) (ov : table) (k : rstr) :
  foldr (restore base) ov ks !! k = if decide (k ∈ ks) then base !! k else ov !! k.
Proof.
  induction ks as [|k' ks IH]; [done|]. cbn [foldr]. rewrite restore_lookup, IH.
  destruct (decide (k' = k)) as [->|Hne].
  - by rewrite decide_True by (by constructor).
  - destruct (decide (k ∈ ks)); [rewrite decide_True by (by constructor); done|].
    rewrite decide_False; [done|]. rewrite elem_of_cons. intros [?|?]; congruence.
Qed.

Lemma insert_all_lookup (l : list (rstr * rstr)) (ov : table) (k : rstr) :
  NoDup l.*1 ->
  foldr (fun (kv : rstr * rstr) (o : table) => <[kv.1 := kv.2]> o) ov l !! k
  = match (list_to_map l : table) !! k with Some v => Some v | None => ov !! k end.
Proof.
  induction l as [|[k' v'] l IH]; intros Hn; cbn; [by rewrite lookup_empty|].
  apply NoDup_cons in Hn as [_ Hn]. destruct (decide (k' = k)) as [->|Hne].
  - by rewrite !lookup_insert_eq.
  - rewrite !lookup_insert_ne by done. by apply IH.
Qed.

Lemma write_overwrite_lookup ov base previous next k :
  write_overwrite ov base previous next !! k
  = match next !! k with
    | Some v => Some v
    | None => if decide (is_Some (previous !! k)) then base !! k else ov !! k
    end.
Proof.
  unfold write_overwrite. rewrite insert_all_lookup by apply NoDup_fst_map_to_list.
  rewrite list_to_map_to_list. destruct (next !! k) as [v|] eqn:En; [done|].
  rewrite restore_all_lookup.
  set (gone := List.filter _ _).
  assert (k ∈ gone <-> is_Some (previous !! k)) as Hg.
  { unfold gone. rewrite list_elem_of_In, filter_In, <- list_elem_of_In, list_elem_of_fmap.
    split.
    - intros [([k' v] & -> & Hin) _]. apply elem_of_map_to_list in Hin. by exists v.
    - intros [v Hv]. split; [exists (k, v); split; [done|by apply elem_of_map_to_list]|].
      rewrite En. rewrite bool_decide_eq_false_2; [done|]. by intros []. }
  destruct (decide (k ∈ gone)) as [Hd|Hd], (decide (is_Some (previous !! k))) as [Hp|Hp]; tauto.
Qed.

Lemma effective_lookup p base k :
  effective_options p base !! k
  = match only_allowed (p_options p) !! k with Some v => Some (merge k (base !! k) v) | None => None end.
Proof.
  unfold effective_options. rewrite map_lookup_imap.
  by destruct (only_allowed (p_options p) !! k).
Qed.

Lemma initial_refines gpo : refines gpo (initial gpo) /\ in_force gpo (initial gpo).
Proof.
  split; [|done]. split; [by split|done| |]; cbn; [by intros k v; rewrite lookup_empty|].
  intros k. by rewrite lookup_empty.
Qed.

Lemma refines_base gpo m : refines gpo m -> baseline_of m = only_allowed gpo.
Proof. intros [Hb _ _ _]. unfold baseline_of. destruct (baseline m); [done|]. by destruct Hb as [-> _]. Qed.

Lemma apply_refines gpo m next p :
  refines gpo m -> (forall k v, next !! k = Some v -> policy_key_allowed k = true) ->
  refines gpo (apply_effective next p m).
Proof.
  intros Hr Hn. pose proof (refines_base gpo m Hr) as Hb. destruct Hr as [Hbase _ Hk Ht].
  assert (match baseline m with Some b => b | None => only_allowed (overwrite m) end = only_allowed gpo) as E
    by (unfold baseline_of in Hb; by destruct (baseline m)).
  unfold apply_effective. rewrite E. split; cbn; [done|by destruct p|done|].
  intros k. rewrite write_overwrite_lookup. destruct (next !! k) as [v|]; [done|].
  rewrite only_allowed_lookup, Ht. destruct (effective m !! k) as [v|] eqn:Ev.
  - rewrite decide_True by (by exists v). by rewrite (Hk k v Ev).
  - rewrite decide_False; [done|]. by intros [].
Qed.

Lemma effective_allowed p base k v :
  effective_options p base !! k = Some v -> policy_key_allowed k = true.
Proof.
  rewrite effective_lookup, only_allowed_lookup. by destruct (policy_key_allowed k).
Qed.

Lemma apply_policy_refines gpo m p :
  refines gpo m -> refines gpo (apply_policy p m) /\ in_force gpo (apply_policy p m).
Proof.
  intros Hr. unfold apply_policy. rewrite (refines_base gpo m Hr). split.
  - apply apply_refines; [done|]. intros k v. apply effective_allowed.
  - done.
Qed.

Lemma clear_refines gpo m :
  refines gpo m -> refines gpo (apply_effective ∅ None m) /\ in_force gpo (apply_effective ∅ None m).
Proof.
  intros Hr. split; [|done]. apply apply_refines; [done|]. intros k v. by rewrite lookup_empty.
Qed.

(** The abstract state gives the table. *)
Lemma refines_overlay gpo m k :
  refines gpo m -> in_force gpo m -> overwrite m !! k = overlay gpo (policy m) k.
Proof.
  intros [_ _ _ Ht] Hf. rewrite Ht, Hf. unfold overlay. destruct (policy m) as [p|]; cbn.
  - rewrite effective_lookup, !only_allowed_lookup.
    destruct (policy_key_allowed k); [|done]. by destruct (p_options p !! k).
  - by rewrite lookup_empty.
Qed.

Lemma merge_cases k g w : merge k (Some g) w = g \/ restrictive k = Some (merge k (Some g) w).
Proof. unfold merge, restrictive. repeat case_match; auto. Qed.

Lemma merge_restrictive k g w : restrictive k = Some w -> merge k (Some g) w = w.
Proof.
  unfold merge, restrictive, same. repeat case_match; intros [= <-];
    rewrite ?bool_decide_eq_true_2, ?orb_true_r in * by done; congruence.
Qed.

Lemma only_allowed_id (t : table) :
  (forall k v, t !! k = Some v -> policy_key_allowed k = true) -> only_allowed t = t.
Proof.
  intros Ht. apply map_eq. intros k. rewrite only_allowed_lookup.
  destruct (t !! k) as [v|] eqn:E; [by rewrite (Ht k v E)|]. by destruct (policy_key_allowed k).
Qed.

Lemma sync_ui_refines gpo now reply u : refines gpo (ui u) -> refines gpo (ui (sync_ui now reply u)).
Proof.
  intros Hr. unfold sync_ui. destruct (match last_ui_sync u with Some _ => _ | None => _ end); [done|].
  destruct reply as [[options st]|]; [|done]. cbn. apply apply_refines; [done|].
  intros k v. rewrite only_allowed_lookup. by destruct (policy_key_allowed k).
Qed.

Lemma ui_run_refines gpo syncs u : refines gpo (ui u) -> refines gpo (ui (ui_run syncs u)).
Proof.
  revert u. induction syncs as [|s syncs IH]; intros u Hr; [done|]. by apply IH, sync_ui_refines.
Qed.

(** The reply carries the settings whole. *)
Lemma sync_ui_reply gpo m now u :
  refines gpo m -> refines gpo (ui u) ->
  match last_ui_sync u with Some t => UI_SYNC_INTERVAL <= now - t | None => True end ->
  let v := ui (sync_ui now (Some (effective_reply m)) u) in
  effective v = effective m /\ settings v = settings m.
Proof.
  intros Hm Hu Hlast. unfold sync_ui.
  replace (match last_ui_sync u with Some _ => _ | None => _ end) with false; cycle 1.
  { symmetry. destruct (last_ui_sync u); [by apply Z.ltb_ge|done]. }
  cbn. rewrite (only_allowed_id _ (rf_keys gpo m Hm)). split; [done|]. unfold settings at 1. cbn.
  destruct (bool_decide_reflect (effective m = ∅)); cbn; [|done].
  destruct (bool_decide_reflect (settings m = default_settings)); cbn; congruence.
Qed.

Section Service.
Context `{Crypto} `{PolicyDecoders}.

Lemma verify_policy_managed t0 t1 signed e s :
  managed (verify_policy t0 t1 signed e s).2 = managed s
  /\ enrolled (verify_policy t0 t1 signed e s).2 = enrolled s.
Proof.
  unfold verify_policy, verified_payload. destruct (enrolled s) as [e'|] eqn:Ee; [|done].
  destruct (verify (Some e') t0 t1 signed None (keys s)) as [r w]. done.
Qed.

Lemma verify_policy_authentic t0 t1 signed e s p :
  enrolled s = Some e -> (verify_policy t0 t1 signed e s).1 = Some p ->
  authentic t0 t1 (keys s) e signed p.
Proof.
  intros Ee. unfold verify_policy, verified_payload. rewrite Ee.
  pose proof (verify_spec (Some e) t0 t1 signed None (keys s)) as Hv.
  destruct (verify (Some e) t0 t1 signed None (keys s)) as [r w]. cbn in Hv |- *.
  destruct r as [payload|]; cbn; [|done].
  destruct (proj1 (Hv payload) eq_refl) as (en & st & k & [= <-] & Hs & Hk & Ht & _ & Hp).
  destruct (policy_from_slice payload) as [q|] eqn:Eq; cbn; [|done]. unfold same.
  destruct (bool_decide_reflect (p_device_id q = device_id e)); [|done].
  destruct (bool_decide_reflect (p_tenant_id q = tenant_id e)); [|done].
  intros [= <-]. by exists st, k, payload.
Qed.

(** A document does nothing, or it puts the policy it carries in force. *)
Lemma receive_cases t0 t1 saved signed s :
  let s' := (receive t0 t1 saved signed s).1 in
  enrolled s' = enrolled s
  /\ (managed s' = managed s
      \/ exists e p, enrolled s = Some e /\ authentic t0 t1 (keys s) e signed p
           /\ version (managed s) <= p_version p /\ managed s' = apply_policy p (managed s)).
Proof.
  unfold receive. destruct (enrolled s) as [e|] eqn:Ee; [|cbn; rewrite Ee; auto].
  pose proof (verify_policy_managed t0 t1 signed e s) as [Hm He].
  pose proof (verify_policy_authentic t0 t1 signed e s) as Ha.
  destruct (verify_policy t0 t1 signed e s) as [[p|] s1]; cbn [fst snd] in Hm, He, Ha; cbn zeta.
  - rewrite Hm. destruct (Z.ltb_spec (p_version p) (version (managed s))); cbn.
    + rewrite He, Hm. auto.
    + rewrite He. split; [done|]. right. exists e, p. auto.
  - cbn. rewrite He, Hm. auto.
Qed.

Lemma apply_saved_cases t0 t1 s :
  let s' := apply_saved t0 t1 s in
  enrolled s' = enrolled s
  /\ (managed s' = managed s
      \/ exists e p signed, enrolled s = Some e /\ authentic t0 t1 (keys s) e signed p
           /\ managed s' = apply_policy p (managed s)).
Proof.
  unfold apply_saved. destruct (enrolled s) as [e|] eqn:Ee; [|cbn; rewrite Ee; auto].
  destruct (policy_file s) as [bytes|]; [|cbn; rewrite Ee; auto].
  destruct (signed_from_slice bytes) as [signed|]; [|cbn; rewrite Ee; auto].
  pose proof (verify_policy_managed t0 t1 signed e s) as [Hm He].
  pose proof (verify_policy_authentic t0 t1 signed e s) as Ha.
  destruct (verify_policy t0 t1 signed e s) as [[p|] s1]; cbn [fst snd] in Hm, He, Ha; cbn zeta.
  - unfold set_managed. cbn. rewrite He, Hm, Ee. split; [done|]. right. exists e, p, signed. auto.
  - rewrite He, Hm, Ee. auto.
Qed.

Lemma enroll_cases t0 t1 saved e signed s :
  let s' := enroll t0 t1 saved e signed s in
  enrolled s' = Some e
  /\ (managed s' = managed s
      \/ exists p signed, authentic t0 t1 (reset (keys s)) e signed p
           /\ version (managed s) <= p_version p /\ managed s' = apply_policy p (managed s)).
Proof.
  unfold enroll. destruct signed as [signed|]; [|cbn; auto].
  match goal with |- context [receive _ _ _ _ ?s0] =>
    destruct (receive_cases t0 t1 saved signed s0) as [He [Hm|(e' & p & Ee & Ha & Hv & Hm)]] end;
    cbn zeta; rewrite He, Hm; cbn; [auto|].
  cbn in Ee. injection Ee as <-. split; [done|]. right. exists p, signed. auto.
Qed.

Lemma step_refines gpo st s :
  refines gpo (managed s) /\ in_force gpo (managed s) ->
  refines (gpo_after gpo [st]) (managed (step st s)) /\ in_force (gpo_after gpo [st]) (managed (step st s)).
Proof.
  intros [Hr Hf].
  destruct st as [t0 t1 saved signed|t0 t1 saved e signed|removed| | |g e t0 t1];
    cbn [step gpo_after foldl]; try done.
  - destruct (receive_cases t0 t1 saved signed s) as [_ [->|(e & p & _ & _ & _ & ->)]]; [done|].
    by apply apply_policy_refines.
  - destruct (enrolled s); [done|].
    destruct (enroll_cases t0 t1 saved e signed s) as [_ [->|(p & ? & _ & _ & ->)]]; [done|].
    by apply apply_policy_refines.
  - by apply clear_refines.
  - destruct (apply_saved_cases t0 t1 (booted g e s)) as [_ [->|(? & p & signed & _ & _ & ->)]];
      [|apply apply_policy_refines]; apply initial_refines.
Qed.

Lemma run_refines gpo steps s :
  refines gpo (managed s) /\ in_force gpo (managed s) ->
  refines (gpo_after gpo steps) (managed (run steps s)) /\ in_force (gpo_after gpo steps) (managed (run steps s)).
Proof.
  revert s gpo. induction steps as [|st steps IH]; intros s gpo Hs; [done|].
  apply (IH (step st s) (gpo_after gpo [st])). by apply step_refines.
Qed.

Lemma run_overlay gpo steps s k :
  managed s = initial gpo ->
  overwrite (managed (run steps s)) !! k
  = overlay (gpo_after gpo steps) (policy (managed (run steps s))) k.
Proof.
  intros Hs. destruct (run_refines gpo steps s) as [Hr Hf]; [rewrite Hs; apply initial_refines|].
  by apply refines_overlay.
Qed.

(** C5 Whatever documents come, through enrolments, their ends and restarts, the
    managed settings are a function of two things, the group policy that the start
    found and the tenant's policy in force: each key has the group policy's value, or
    its merge with the policy's value if the policy sets the key and may. *)
Theorem settings_refine_the_overlay (gpo : table) (steps : list Step) (s : Service) (k : rstr) :
  managed s = initial gpo ->
  overwrite (managed (run steps s)) !! k
  = overlay (gpo_after gpo steps) (policy (managed (run steps s))) k.
Proof. apply run_overlay. Qed.

(** C16 A policy of the tenant never loosens what the group policy fixes: such a key
    keeps its value or takes the restrictive one ([N] of an [enable-] key, [Y] of a
    requirement, of the watermark and of the lock), and takes it whenever the policy
    asks for it; a key that a policy may not set is as the group policy left it. *)
Theorem policies_never_loosen (gpo : table) (steps : list Step) (s : Service) (k : rstr) :
  managed s = initial gpo ->
  let m := managed (run steps s) in
  (forall g, gpo_after gpo steps !! k = Some g ->
     exists v, overwrite m !! k = Some v
       /\ (v = g \/ restrictive k = Some v)
       /\ (forall p w, policy m = Some p -> p_options p !! k = Some w -> policy_key_allowed k = true ->
             restrictive k = Some w -> v = w))
  /\ (policy_key_allowed k = false -> overwrite m !! k = gpo_after gpo steps !! k).
Proof.
  intros Hs m. unfold m. rewrite (run_overlay gpo steps s k Hs).
  generalize (policy (managed (run steps s))) (gpo_after gpo steps). clear. intros p gpo.
  unfold overlay. split.
  - intros g ->. destruct (p ≫= _) as [w|] eqn:Ew; cbn [from_option].
    + exists (merge k (Some g) w). split; [done|]. split; [apply merge_cases|].
      intros p' w' -> Ep Hk Hr. cbn in Ew. rewrite only_allowed_lookup, Hk, Ep in Ew.
      injection Ew as ->. by apply merge_restrictive.
    + exists g. split; [done|]. split; [by left|]. intros p' w' -> Ep Hk _.
      cbn in Ew. rewrite only_allowed_lookup, Hk in Ew. congruence.
  - intros Hk. destruct p as [p|]; cbn; [|done]. by rewrite only_allowed_lookup, Hk.
Qed.

(** C17 A policy comes in force only from a document that a trusted key of this
    device's tenant signed and that names the device and the tenant; and, save at a
    start, only if its version is not lower than that of the policy in force. *)
Theorem policies_are_authentic (st : Step) (s : Service) (p : Policy) :
  policy (managed (step st s)) = Some p ->
  policy (managed s) = Some p
  \/ exists e t0 t1 signed w,
      enrolled (step st s) = Some e /\ authentic t0 t1 w e signed p
      /\ match st with
         | SReceive _ _ _ _ => enrolled s = Some e /\ w = keys s /\ version (managed s) <= p_version p
         | SEnroll _ _ _ _ _ => enrolled s = None /\ w = reset (keys s) /\ version (managed s) <= p_version p
         | SStart _ _ _ _ => w = started (disk (keys s))
         | _ => False
         end.
Proof.
  destruct st as [t0 t1 saved signed|t0 t1 saved e signed|removed| | |g e t0 t1];
    cbn [step]; auto.
  - destruct (receive_cases t0 t1 saved signed s) as [-> [->|(e & q & Ee & Ha & Hv & ->)]]; [auto|].
    intros [= ->]. right. by exists e, t0, t1, signed, (keys s).
  - destruct (enrolled s) as [e'|] eqn:Ee; [auto|].
    destruct (enroll_cases t0 t1 saved e signed s) as [-> [->|(q & sg & Ha & Hv & ->)]]; [auto|].
    intros [= ->]. right. by exists e, t0, t1, sg, (reset (keys s)).
  - done.
  - destruct (apply_saved_cases t0 t1 (booted g e s)) as [-> [->|(e' & q & sg & Ee & Ha & ->)]]; [done|].
    intros [= ->]. right. by exists e', t0, t1, sg, (started (disk (keys s))).
Qed.

(** After a synchronisation the interface's process holds the very settings of the
    service, whatever it was told before and whatever the service went through:
    every key of the table, the settings of the policy and the account switch. *)
Theorem ui_follows_the_service (gpo : table) (steps : list Step) (s : Service)
    (syncs : list (Z * option (table * PolicySettings))) (now : Z) :
  managed s = initial gpo ->
  let m := managed (run steps s) in
  let u := ui_run syncs (mkUi (initial (gpo_after gpo steps)) None) in
  match last_ui_sync u with Some t => UI_SYNC_INTERVAL <= now - t | None => True end ->
  let v := ui (sync_ui now (Some (effective_reply m)) u) in
  overwrite v = overwrite m /\ settings v = settings m /\ account_enabled v = account_enabled m.
Proof.
  intros Hs m u Hlast v.
  destruct (run_refines gpo steps s) as [Hm _]; [rewrite Hs; apply initial_refines|]. fold m in Hm.
  assert (refines (gpo_after gpo steps) (ui u)) as Hu by (apply ui_run_refines, initial_refines).
  pose proof (sync_ui_refines _ now (Some (effective_reply m)) u Hu) as Hv. fold v in Hv.
  destruct (sync_ui_reply _ m now u Hm Hu Hlast) as [He Hst]. fold v in He, Hst.
  split; [|split; [done|by rewrite (rf_account _ _ Hv), (rf_account _ _ Hm), Hst]].
  apply map_eq. intros k. by rewrite (rf_table _ _ Hv), (rf_table _ _ Hm), He.
Qed.

End Service.

Definition rejection (kv : rstr * rstr) : option rstr :=
  if policy_key_allowed kv.1 then None else Some kv.1.

Definition conflict (base : table) (kv : rstr * rstr) : option Conflict :=
  let w := merge kv.1 (base !! kv.1) kv.2 in
  if policy_key_allowed kv.1 && negb (same w kv.2) then Some (mkConflict kv.1 kv.2 w) else None.

Lemma ack_fold p base l :
  foldr (ack_step base) (mkAck (p_version p) [] []) l
  = mkAck (p_version p) (omap (conflict base) l) (omap rejection l).
Proof.
  induction l as [|[k v] l IH]; [done|]. cbn [foldr]. rewrite IH. cbn. unfold conflict, rejection. cbn.
  destruct (policy_key_allowed k); cbn; [|done]. by destruct (same _ v).
Qed.

Lemma ack_pairs p k v :
  (k, v) ∈ merge_sort pair_le (map_to_list (p_options p)) <-> p_options p !! k = Some v.
Proof. by rewrite merge_sort_Permutation, elem_of_map_to_list. Qed.

(** What the answer to the server reports of a policy is what happens to it: a key
    is refused exactly when it does not enter the values in force, and it is a
    conflict exactly when it enters them with another value, which is the one reported. *)
Theorem ack_reports_what_is_applied (p : Policy) (base : table) :
  let a := ack_body p base in
  let e := effective_options p base in
  ack_version a = p_version p
  /\ (forall k, k ∈ rejected a <-> is_Some (p_options p !! k) /\ e !! k = None)
  /\ (forall k v w, mkConflict k v w ∈ conflicts a
        <-> p_options p !! k = Some v /\ e !! k = Some w /\ w <> v).
Proof.
  intros a e. unfold a, ack_body. rewrite ack_fold. cbn. split; [done|].
  assert (forall k, e !! k = if policy_key_allowed k
            then (fun v => merge k (base !! k) v) <$> p_options p !! k else None) as He.
  { intros k. unfold e. rewrite effective_lookup, only_allowed_lookup.
    destruct (policy_key_allowed k); [|done]. by destruct (p_options p !! k). }
  split.
  - intros k. rewrite He, list_elem_of_omap. unfold rejection. split.
    + intros ([k' v] & Hin%ack_pairs & Hr). cbn in Hr.
      destruct (policy_key_allowed k') eqn:Ek; [done|]. injection Hr as <-.
      rewrite Ek, Hin. split; [by eexists|done].
    + intros [[v Hv] Hn]. exists (k, v). split; [by apply ack_pairs|]. cbn.
      destruct (policy_key_allowed k); [|done]. by rewrite Hv in Hn.
  - intros k v w. rewrite He, list_elem_of_omap. unfold conflict, same. split.
    + intros ([k' v'] & Hin%ack_pairs & Hc). cbn in Hc.
      destruct (policy_key_allowed k') eqn:Ek; [|done]. cbn in Hc.
      destruct (bool_decide_reflect (merge k' (base !! k') v' = v')); [done|].
      injection Hc as <- <- <-. rewrite Ek, Hin. done.
    + intros (Hp & Hk & Hne). exists (k, v). split; [by apply ack_pairs|]. cbn.
      destruct (policy_key_allowed k); [|done]. rewrite Hp in Hk. injection Hk as ->. cbn.
      by rewrite bool_decide_eq_false_2.
Qed.

(** ** A managed configuration that comes after a policy *)

Section Mdm.
Context `{PolicyDecoders}.

Lemma delete_all_lookup (ks : list rstr) (ov : table) (k : rstr) :
  foldl (fun o k => delete k o) ov ks !! k = if decide (k ∈ ks) then None else ov !! k.
Proof.
  revert ov. induction ks as [|k' ks IH]; intros ov; [done|]. cbn [foldl]. rewrite IH.
  destruct (decide (k = k')) as [->|Hne].
  - rewrite lookup_delete_eq, (decide_True (P := k' ∈ k' :: ks)) by (by constructor).
    by destruct (decide _).
  - rewrite lookup_delete_ne by done.
    destruct (decide (k ∈ ks)); [rewrite decide_True by (by constructor); done|].
    rewrite decide_False; [done|]. rewrite elem_of_cons. by intros [?|?].
Qed.

Lemma write_all_lookup (l : list (rstr * rstr)) (ov : table) (k v : rstr) :
  NoDup l.*1 -> (k, v) ∈ l ->
  foldl (fun (o : table) (kv : rstr * rstr) => <[kv.1 := kv.2]> o) ov l !! k = Some v.
Proof.
  intros Hn Hin. revert ov. induction l as [|[k' v'] l IH]; intros ov; [by apply not_elem_of_nil in Hin|].
  cbn in Hn |- *. apply NoDup_cons in Hn as [Hk' Hn].
  apply elem_of_cons in Hin as [[= <- <-]|Hin]; [|by apply IH].
  assert (forall (l : list (rstr * rstr)) (ov : table), k ∉ l.*1 ->
    foldl (fun (o : table) (kv : rstr * rstr) => <[kv.1 := kv.2]> o) ov l !! k = ov !! k) as Hkeep.
  { clear. induction l as [|[k' v'] l IH]; intros ov Hk; [done|]. cbn in Hk |- *.
    apply not_elem_of_cons in Hk as [? ?]. rewrite IH by done. by apply lookup_insert_ne. }
  rewrite Hkeep by done. apply lookup_insert_eq.
Qed.

(** On a phone a new managed configuration that names a key of the policy in force
    undoes the policy there, whatever it restricts: the table has the configuration's
    value, the policy counts as applied as before, and when it ends the value of the
    configuration is lost for the one at the first policy. *)
Theorem mdm_reload_overrides_the_policy (m : Managed) (gpo : table) (json k v : rstr) :
  refines gpo m -> is_Some (effective m !! k) ->
  NoDup (managed_pairs json).*1 -> (k, v) ∈ managed_pairs json ->
  let m' := apply_json json m in
  overwrite m' !! k = Some v /\ policy m' = policy m /\ effective m' = effective m
  /\ overwrite (apply_effective ∅ None m') !! k = only_allowed gpo !! k.
Proof.
  intros Hr He Hn Hin m'. split; [|split; [done|split; [done|]]].
  - unfold m', apply_json. cbn. by apply write_all_lookup.
  - destruct Hr as [Hb _ _ _]. unfold apply_effective. cbn.
    rewrite write_overwrite_lookup, lookup_empty, decide_True by done.
    destruct (baseline m) as [b|]; [by rewrite Hb|].
    destruct Hb as [_ Hb]. rewrite Hb, lookup_empty in He. by destruct He.
Qed.
End Mdm.

(** ** Samples *)

Module Toy.

(** The toy keys of [TenantKeys]; a payload [3; v] is a policy of version [v] that asks
    for the clipboard, a second factor and an enrolment; [1] is the JSON object that
    allows file transfers. *)
#[local] Existing Instance toy_crypto.

Definition options : table :=
  list_to_map [(Str.lit "enable-clipboard", Y); (Str.lit "enable-terminal", N);
               (Str.lit "clanto-require-2fa", Y); (OPT_UNENROLL, Y)].

Definition policy_of (v : Z) : Policy :=
  mkPolicy (Str.lit "t1") (Str.lit "d1") v 0 options (mkSettings true false []).

#[local] Instance decoders : PolicyDecoders := {|
  policy_from_slice := fun p => match p with [3; v] => Some (policy_of v) | _ => None end;
  signed_to_vec := fun s => Some (signature s);
  signed_from_slice := fun b => match b with k :: p => Some (signed_by k p) | [] => None end;
  object_from_str := fun _ => Some [(Str.lit "enable-terminal", VBool true)] |}.

Definition gpo : table :=
  list_to_map [(Str.lit "enable-clipboard", N); (Str.lit "enable-terminal", Y);
               (Str.lit "clanto-host-watermark", Y)].

Definition boot : Service :=
  mkService (Some sample_enrollment) (started None) (initial gpo) None false.

Definition document (v : Z) : Step := SReceive 0 0 true (signed_by 10 [3; v]).

Example policy_in_force :
  let s := run [document 2; document 1; SResync; SHeartbeat] boot in
  let value k := overwrite (managed s) !! Str.lit k in
  version (managed s) = 2 /\ policy_file s = Some [10; 3; 2]
  /\ value "enable-clipboard"%string = Some N /\ value "enable-terminal"%string = Some N
  /\ value "clanto-require-2fa"%string = Some Y /\ value "clanto-unenroll"%string = None
  /\ bool_decide (overwrite (managed (unenroll true s)) = gpo) = true.
Proof. vm_compute. repeat split. Qed.

Lemma settings_refine_the_overlay_witness :
  let s := run [document 2; SStart ∅ (Some sample_enrollment) 0 0] boot in
  version (managed s) = 2 /\ overwrite (managed s) !! Str.lit "enable-clipboard" = Some Y.
Proof.
  split; [vm_compute; reflexivity|].
  rewrite (settings_refine_the_overlay gpo [document 2; SStart ∅ (Some sample_enrollment) 0 0] boot
             (Str.lit "enable-clipboard")); [vm_compute; reflexivity|reflexivity].
Defined.

Lemma policies_never_loosen_witness :
  exists v, overwrite (managed (run [document 2] boot)) !! Str.lit "enable-terminal" = Some v
    /\ (v = Y \/ v = N) /\ v = N.
Proof.
  destruct (policies_never_loosen gpo [document 2] boot (Str.lit "enable-terminal")) as [Hk _];
    [reflexivity|].
  destruct (Hk Y) as (v & Hv & _ & Hr); [reflexivity|]. exists v.
  assert (v = N) as -> by (apply (Hr (policy_of 2) N); vm_compute; reflexivity).
  split; [exact Hv|]. split; [by right|reflexivity].
Defined.

Lemma policies_are_authentic_witness :
  exists e t0 t1 signed w,
    enrolled (step (document 2) boot) = Some e /\ authentic t0 t1 w e signed (policy_of 2).
Proof.
  destruct (policies_are_authentic (document 2) boot (policy_of 2)) as [Hp|Hp].
  - vm_compute; reflexivity.
  - discriminate Hp.
  - destruct Hp as (e & t0 & t1 & signed & w & He & Ha & _). exists e, t0, t1, signed, w.
    split; [exact He|exact Ha].
Defined.

Lemma ui_follows_the_service_witness :
  overwrite (ui (sync_ui 5000 (Some (effective_reply (managed (run [document 2] boot))))
                   (ui_run [(0, None)] (mkUi (initial gpo) None))))
  = overwrite (managed (run [document 2] boot)).
Proof.
  apply (ui_follows_the_service gpo [document 2] boot [(0, None)] 5000); [reflexivity|].
  unfold ui_run. cbn. unfold UI_SYNC_INTERVAL. lia.
Defined.

Lemma mdm_reload_overrides_the_policy_witness :
  let m := managed (run [document 2] boot) in
  overwrite m !! Str.lit "enable-terminal" = Some N
  /\ overwrite (apply_json [] m) !! Str.lit "enable-terminal" = Some Y.
Proof.
  assert (managed_pairs [] = [(Str.lit "enable-terminal", Y)]) as E by (vm_compute; reflexivity).
  intros m. split; [vm_compute; reflexivity|].
  destruct (mdm_reload_overrides_the_policy m gpo [] (Str.lit "enable-terminal") Y) as [Hv _].
  - apply (run_refines gpo [document 2] boot). apply initial_refines.
  - exists N. vm_compute; reflexivity.
  - rewrite E. apply NoDup_singleton.
  - rewrite E. by apply list_elem_of_singleton.
  - exact Hv.
Defined.
End Toy.
