(* ===== verification/SessionGrant.v ===== *)
(** * Session grants: [src/clanto/session_grant.rs], and the login that follows one

    The host's decision on a login that carries a grant (or should): the access mode
    of the policy, the checks on the signed grant, the nonces already used; the
    sessions opened with a grant, their maximum duration and their closing; the
    grants the controller holds; and the part of [on_message] of
    [src/server/connection.rs] that chooses how the login is authorised.  The JSON
    decoders are third-party code (the class [GrantDecoders]); the enrolment, the
    policy's access mode, the block file and the clock are arguments. *)

From stdpp Require Import sorting.
From S2P Require Import Prelude TenantKeys.

Definition CLOCK_SKEW_SECS : Z := 120.

Definition MSG_GRANT_REQUIRED : rstr := Str.lit "clanto_grant_required".
Definition MSG_GRANT_INVALID : rstr := Str.lit "clanto_grant_invalid".
Definition MSG_SESSIONS_BLOCKED : rstr := Str.lit "clanto_sessions_blocked".

(** ** What a login needs *)

Record Requirements := mkRequirements { account : bool; password : bool; confirm : bool }.

#[export] Instance Requirements_eq_dec : EqDecision Requirements.
Proof. solve_decision. Defined.

Definition requirements (access_mode : rstr) : Requirements :=
  if bool_decide (access_mode ∈ [Str.lit "account_password"; Str.lit "account_2fa_password"])
  then mkRequirements true true false
  else if bool_decide (access_mode = Str.lit "account_2fa") then mkRequirements true false false
  else if bool_decide (access_mode = Str.lit "account_2fa_confirm") then mkRequirements true false true
  else mkRequirements false true false.

Record GrantInfo := mkInfo {
  i_session_id : rstr; i_user_id : rstr; i_username : rstr; i_nonce : rstr;
  i_permissions : list rstr; i_max_duration_s : Z; i_needs : Requirements }.

Definition allows (info : GrantInfo) (permission : rstr) : bool :=
  bool_decide (i_permissions info = [])
  || existsb (fun p => bool_decide (p = permission)) (i_permissions info).

Inductive Decision :=
| Unmanaged
| Refuse (code message session_id nonce : rstr)
| Grant (info : GrantInfo).

Record Constraints := mkConstraints {
  max_duration_s : Z; permissions : list rstr; not_before : Z; expires_at : Z }.

Record GrantPayload := mkPayload {
  p_kind : rstr; p_kid : option rstr; p_tenant_id : rstr; p_device_id : rstr;
  p_session_id : rstr; p_user_id : rstr; p_username : rstr; p_requires : list rstr;
  p_constraints : Constraints; p_nonce : rstr }.

Class GrantDecoders := {
  signed_from_str : rstr -> option Signed;
  payload_from_slice : bytes -> option GrantPayload }.

(** ** The nonces already used *)

Definition Seen : Type := list (rstr * Z).

Definition mark_seen (nonce : rstr) (until now : Z) (seen : Seen) : bool * Seen :=
  let seen := List.filter (fun x => now <? x.2) seen in
  if existsb (fun x => bool_decide (x.1 = nonce)) seen then (false, seen)
  else (true, seen ++ [(nonce, Int.swrap 64 (until + CLOCK_SKEW_SECS))]).

(** ** The decision *)

Definition wants (p : GrantPayload) (r : rstr) : bool :=
  existsb (fun x => bool_decide (x = r)) (p_requires p).

Definition check_payload (p : GrantPayload) (e : Enrollment) (local : Requirements) (now : Z)
  : result GrantInfo rstr :=
  if negb (bool_decide (p_kind p = Str.lit "session_grant")) then Err (Str.lit "signature_invalid")
  else if negb (bool_decide (p_tenant_id p = tenant_id e))
          || negb (bool_decide (p_device_id p = device_id e))
  then Err (Str.lit "device_mismatch")
  else if (Int.swrap 64 (now + CLOCK_SKEW_SECS) <? not_before (p_constraints p))
          || (expires_at (p_constraints p) <? Int.swrap 64 (now - CLOCK_SKEW_SECS))
  then Err (Str.lit "expired")
  else if bool_decide (p_nonce p = []) || bool_decide (p_session_id p = [])
  then Err (Str.lit "signature_invalid")
  else
    Ok (mkInfo (p_session_id p) (p_user_id p) (p_username p) (p_nonce p)
          (permissions (p_constraints p)) (max_duration_s (p_constraints p))
          (mkRequirements true
             (password local || wants p (Str.lit "password"))
             (confirm local || wants p (Str.lit "confirm") || wants p (Str.lit "consent")))).

(** The host: the tenant's keys and the nonces seen. *)
Record Host := mkHost { h_keys : Keys; h_seen : Seen }.

(** The readings of the clock of one [evaluate]: the two [verify], the check of the
    payload and [is_revoked]. *)
Record Clock := mkClock { t_first : Z * Z; t_kid : Z * Z; t_now : Z; t_revoked : Z }.

Section Evaluate.
Context `{Crypto} `{GrantDecoders}.

Definition refuse (code : rstr) : Decision := Refuse code MSG_GRANT_INVALID [] [].
Definition refuse_known (p : GrantPayload) (code : rstr) : Decision :=
  Refuse code MSG_GRANT_INVALID (p_session_id p) (p_nonce p).

(** The second [verify], with the key the grant names. *)
Definition kid_ok (e : Enrollment) (c : Clock) (signed : Signed) (p : GrantPayload) (w : Keys)
  : bool * Keys :=
  match p_kid p with
  | Some kid =>
      let '(r, w) := verify (Some e) (t_kid c).1 (t_kid c).2 signed (Some kid) w in (is_ok r, w)
  | None => (true, w)
  end.

Definition evaluate (e : option Enrollment) (access_mode : rstr) (sessions_blocked : bool)
    (c : Clock) (grant : rstr) (h : Host) : Decision * Host :=
  match e with
  | None => (Unmanaged, h)
  | Some e =>
      let local := requirements access_mode in
      if sessions_blocked
      then (Refuse (Str.lit "sessions_blocked") MSG_SESSIONS_BLOCKED [] [], h)
      else if bool_decide (Str.trim grant = []) then
        (if account local then Refuse (Str.lit "grant_required") MSG_GRANT_REQUIRED [] []
         else Unmanaged, h)
      else
        match signed_from_str grant with
        | None => (refuse (Str.lit "signature_invalid"), h)
        | Some signed =>
            let '(r, w) := verify (Some e) (t_first c).1 (t_first c).2 signed None (h_keys h) in
            match r with
            | Err _ => (refuse (Str.lit "signature_invalid"), mkHost w (h_seen h))
            | Ok payload =>
                match payload_from_slice payload with
                | None => (refuse (Str.lit "signature_invalid"), mkHost w (h_seen h))
                | Some p =>
                    let '(known, w) := kid_ok e c signed p w in
                    if negb known
                    then (refuse_known p (Str.lit "kid_unknown"), mkHost w (h_seen h))
                    else
                      match check_payload p e local (t_now c) with
                      | Err code =>
                          (if bool_decide (code = Str.lit "device_mismatch")
                           then refuse (Str.lit "device_mismatch") else refuse_known p code,
                           mkHost w (h_seen h))
                      | Ok info =>
                          let '(revoked, w) :=
                            is_revoked (Some e) (t_revoked c) (i_nonce info) (i_session_id info)
                              (i_user_id info) w in
                          if revoked
                          then (refuse_known p (Str.lit "revoked"), mkHost w (h_seen h))
                          else
                            let '(fresh, seen) :=
                              mark_seen (i_nonce info) (expires_at (p_constraints p)) (t_now c)
                                (h_seen h) in
                            (if fresh then Grant info else refuse_known p (Str.lit "replayed"),
                             mkHost w seen)
                      end
                end
            end
        end
  end.
End Evaluate.

(** ** Outcomes for the server: the bodies of [ack] and [consent] *)

(** [ack]: the path and, of the body, the result, the reason and the nonce. *)
Definition ack (session_id : rstr) (accepted : bool) (reason grant_nonce : rstr)
  : option (rstr * rstr * option rstr * rstr) :=
  if bool_decide (session_id = []) then None
  else Some (Str.lit "/device/sessions/" ++ session_id ++ Str.lit "/ack",
             if accepted then Str.lit "accepted" else Str.lit "refused",
             if accepted then None else Some reason, grant_nonce).

Definition consent_scope (info : GrantInfo) : list rstr :=
  List.filter (allows info) (Str.lit <$> ["view"; "control"; "file"; "clipboard"; "record"]%string).

(** ** Sessions opened with a grant *)

Module Sessions.
Record Active := mkActive { session_id : rstr; started : Z }.

(** A timer of [register]: the connection, its session and the limit, in ns. *)
Record Timer := mkTimer { tm_conn : Z; tm_session : rstr; tm_limit : Z }.

Definition secs (s : Z) : Z := s * 1000000000.

Definition register (conn_id : Z) (info : GrantInfo) (now : Z) (m : gmap Z Active)
  : gmap Z Active * option Timer :=
  (<[conn_id := mkActive (i_session_id info) now]> m,
   if i_max_duration_s info =? 0 then None
   else Some (mkTimer conn_id (i_session_id info) (secs (i_max_duration_s info)))).

(** The timer's thread after its sleep: the connections to close. *)
Definition timer_fires (t : Timer) (now : Z) (m : gmap Z Active) : list Z :=
  match m !! tm_conn t with
  | Some a =>
      if bool_decide (session_id a = tm_session t) && (tm_limit t <=? Z.max 0 (now - started a))
      then [tm_conn t] else []
  | None => []
  end.

Definition unregister (conn_id : Z) (m : gmap Z Active) : gmap Z Active := delete conn_id m.

(** The connections to close, and whether there is one. *)
Definition close_session (id : rstr) (m : gmap Z Active) : list Z * bool :=
  let conns := fst <$> List.filter (fun x => bool_decide (session_id x.2 = id)) (map_to_list m) in
  (conns, negb (bool_decide (conns = []))).

(** [set_sessions_blocked]: the block file after it, the connections to close and
    the result; [write_ok] and [remove_ok] are those of the file system. *)
Definition set_sessions_blocked (blocked : bool) (write_ok remove_ok exists_ : bool)
    (authed : list Z) (m : gmap Z Active) : bool * list Z * bool :=
  let ok := if blocked then write_ok else negb exists_ || remove_ok in
  let file := if blocked then exists_ || write_ok else exists_ && negb remove_ok in
  (file,
   if blocked
   then merge_sort Z.le (elements (list_to_set ((fst <$> map_to_list m) ++ authed) : gset Z))
   else [],
   ok).
End Sessions.

(** ** The controller's grants *)

Module Controller.
Record Fetched := mkFetched { at_ : Z; grant : rstr; f_session_id : rstr }.

(** In nanoseconds. *)
Definition CONTROLLER_GRANT_TTL : Z := 280 * 1000000000.

Definition grant_for (peer_id : rstr) (now : Z) (m : gmap rstr Fetched) : rstr :=
  match m !! peer_id with
  | Some f => if Z.max 0 (now - at_ f) <? CONTROLLER_GRANT_TTL then grant f else []
  | None => []
  end.

(** The session to close at the server, if any. *)
Definition controller_closed (peer_id : rstr) (m : gmap rstr Fetched)
  : option rstr * gmap rstr Fetched :=
  (f_session_id <$> m !! peer_id, delete peer_id m).
End Controller.

(** ** How the login is authorised: [on_message] after the grant *)

Module Login.
(** What the branch reads: the approval mode of the settings, the password and the
    checks it calls on. *)
Record Input := mkInput {
  needs : option Requirements;
  approve_click : bool; approve_both : bool; has_valid_password : bool;
  allow_logon_screen_password : bool;
  (** [prepare_terminal_login_for_authorization], when the terminal logs in with
      the system's credentials: the answer that ends the login there. *)
  terminal_login : option bool;
  recent_session : bool; password_empty : bool;
  check_failure : bool; validate_password : bool }.

Inductive Outcome :=
| AskUser
| Terminal (keep_alive : bool)
| TooManyFailures
| WrongPassword
| Logon.

(** [Logon] is [send_logon_response], [AskUser] opens the accept window. *)
Definition by_password (i : Input) : Outcome :=
  let ask := match terminal_login i with Some keep_alive => Terminal keep_alive | None => AskUser end in
  let clanto_password_required := match needs i with Some n => password n | None => false end in
  if negb clanto_password_required
     && ((approve_click i && negb (allow_logon_screen_password i))
         || (approve_both i && negb (has_valid_password i)))
  then ask
  else if recent_session i then Logon
  else if password_empty i then ask
  else if negb (check_failure i) then TooManyFailures
  else if negb (validate_password i) then WrongPassword
  else Logon.

Definition primary_auth (i : Input) : Outcome :=
  match needs i with
  | Some n =>
      if confirm n && negb (password n) then AskUser
      else if negb (password n) then Logon
      else by_password i
  | None => by_password i
  end.
End Login.

(** * Specification *)

Section Spec.
Context `{Crypto} `{GrantDecoders}.

(** The payload of a grant's text, whoever signed it. *)
Definition grant_payload (grant : rstr) : option GrantPayload :=
  signed ← signed_from_str grant;
  p ← result_ok (decode64 (payload signed));
  payload_from_slice p.

(** One login: the options of the moment, the clock and the grant's text. *)
Record Attempt := mkAttempt {
  a_enrollment : option Enrollment; a_mode : rstr; a_blocked : bool; a_clock : Clock;
  a_grant : rstr }.

Definition attempt (h : Host) (a : Attempt) : Decision * Host :=
  evaluate (a_enrollment a) (a_mode a) (a_blocked a) (a_clock a) (a_grant a) h.

Definition after (h : Host) (l : list Attempt) : Host := foldl (fun h a => (attempt h a).2) h l.

(** [signed] carries a good signature by [k]. *)
Definition signs (k : TenantKey) (signed : Signed) : Prop :=
  is_Some (verify_with (k_public_key k) signed).
End Spec.

(** A clock whose distance from the ends of [i64] the checks cannot notice. *)
Definition sane_clock (now : Z) : Prop :=
  Int.is_s 64 (now - CLOCK_SKEW_SECS) /\ Int.is_s 64 (now + CLOCK_SKEW_SECS).

Definition implies (a b : Requirements) : Prop :=
  (account a = true -> account b = true) /\ (password a = true -> password b = true)
  /\ (confirm a = true -> confirm b = true).

(** ** Samples: a grant's text is its signature, a payload is [3; not_before;
    expires_at; nonce; whether the consent is required]. *)

Definition toy_decoders : GrantDecoders := {|
  signed_from_str := fun s => match s with _ :: p => Some (mkSigned p s) | [] => None end;
  payload_from_slice := fun b =>
    match b with
    | [3; nb; ex; nonce; consent] =>
        Some (mkPayload (Str.lit "session_grant") None (Str.lit "t1") (Str.lit "d1") [nonce] [] []
          (if consent =? 1 then [Str.lit "consent"] else [])
          (mkConstraints 3600 [] nb ex) [nonce])
    | _ => None
    end |}.

Definition sample_payload (consent : bool) : GrantPayload :=
  mkPayload (Str.lit "session_grant") None (Str.lit "t1") (Str.lit "d1") [77] [] []
    (if consent then [Str.lit "consent"] else []) (mkConstraints 3600 [] 900 1100) [77].

Definition sample_info (needs : Requirements) : GrantInfo := mkInfo [77] [] [] [77] [] 3600 needs.

Definition clock_at (now : Z) : Clock := mkClock (now, now) (now, now) now now.

Definition fresh_host : Host := mkHost (TenantKeys.started None) [].

Definition sample_login (needs : Requirements) : Login.Input :=
  Login.mkInput (Some needs) false false true false None false false true true.

Definition text : rstr := [10; 3; 900; 1100; 77; 0].

Definition evaluate_at (now : Z) (grant : rstr) (h : Host) : Decision * Host :=
  @evaluate toy_crypto toy_decoders (Some sample_enrollment) (Str.lit "account_2fa") false (clock_at now) grant h.

(** * Theorems *)

(** ** The nonces *)

Lemma mark_seen_true nonce until now seen seen' :
  mark_seen nonce until now seen = (true, seen') ->
  (forall t, (nonce, t) ∈ seen -> t <= now)
  /\ (nonce, Int.swrap 64 (until + CLOCK_SKEW_SECS)) ∈ seen'.
Proof.
  unfold mark_seen. destruct (existsb _ _) eqn:E; [done|]. intros [= <-]. split.
  - intros t Ht. apply Z.nlt_ge. intros Hlt. apply not_true_iff_false in E. apply E.
    apply existsb_exists. exists (nonce, t). split; [|by apply bool_decide_eq_true].
    apply filter_In. split; [by apply list_elem_of_In|]. by apply Z.ltb_lt.
  - apply elem_of_app. right. by apply list_elem_of_singleton.
Qed.

Lemma mark_seen_keeps nonce until now seen n t :
  (n, t) ∈ seen -> now < t -> (n, t) ∈ (mark_seen nonce until now seen).2.
Proof.
  intros Hin Ht. unfold mark_seen.
  assert ((n, t) ∈ List.filter (fun x => now <? x.2) seen) as Hf.
  { by apply elem_of_filter_b; split; [|apply Z.ltb_lt]. }
  destruct (existsb _ _); [done|]. apply elem_of_app. by left.
Qed.

(** ** The payload *)

Lemma check_payload_Ok p e local now info :
  check_payload p e local now = Ok info ->
  p_kind p = Str.lit "session_grant"
  /\ p_tenant_id p = tenant_id e /\ p_device_id p = device_id e
  /\ not_before (p_constraints p) <= Int.swrap 64 (now + CLOCK_SKEW_SECS)
  /\ Int.swrap 64 (now - CLOCK_SKEW_SECS) <= expires_at (p_constraints p)
  /\ p_nonce p <> [] /\ p_session_id p <> []
  /\ info = mkInfo (p_session_id p) (p_user_id p) (p_username p) (p_nonce p)
       (permissions (p_constraints p)) (max_duration_s (p_constraints p))
       (mkRequirements true
          (password local || wants p (Str.lit "password"))
          (confirm local || wants p (Str.lit "confirm") || wants p (Str.lit "consent"))).
Proof.
  unfold check_payload. case_bool_decide; cbn [negb]; [|done].
  destruct (_ || _) eqn:E1; [done|]. apply orb_false_iff in E1 as [E1 E2].
  apply negb_false_iff, bool_decide_eq_true in E1, E2.
  destruct (_ || _) eqn:E3; [done|]. apply orb_false_iff in E3 as [E3%Z.ltb_ge E4%Z.ltb_ge].
  destruct (_ || _) eqn:E5; [done|].
  apply orb_false_iff in E5 as [E5%bool_decide_eq_false E6%bool_decide_eq_false].
  intros [= <-]. auto 10.
Qed.

Section Proofs.
Context `{Crypto} `{GrantDecoders}.

(** ** What a grant went through *)

Lemma evaluate_Grant e mode blocked c grant h info h' :
  evaluate e mode blocked c grant h = (Grant info, h') ->
  exists en signed pl p,
    e = Some en /\ blocked = false /\ signed_from_str grant = Some signed
    /\ (verify (Some en) (t_first c).1 (t_first c).2 signed None (h_keys h)).1 = Ok pl
    /\ payload_from_slice pl = Some p
    /\ let w1 := (verify (Some en) (t_first c).1 (t_first c).2 signed None (h_keys h)).2 in
       let w2 := (kid_ok en c signed p w1).2 in
       (kid_ok en c signed p w1).1 = true
       /\ check_payload p en (requirements mode) (t_now c) = Ok info
       /\ (is_revoked (Some en) (t_revoked c) (i_nonce info) (i_session_id info) (i_user_id info) w2).1
          = false
       /\ mark_seen (i_nonce info) (expires_at (p_constraints p)) (t_now c) (h_seen h)
          = (true, h_seen h').
Proof.
  unfold evaluate. destruct e as [en|]; [|done]. destruct blocked; [done|].
  case_bool_decide; [by destruct (account _)|]. destruct (signed_from_str grant) as [signed|]; [|done].
  destruct (verify _ _ _ _ _ _) as [[pl|] w1] eqn:Ev; [|done].
  destruct (payload_from_slice pl) as [p|] eqn:Ep; [|done].
  destruct (kid_ok en c signed p w1) as [[] w2] eqn:Ek; cbn [negb]; [|done].
  destruct (check_payload _ _ _ _) as [i|code] eqn:Ec; [|by case_bool_decide].
  destruct (is_revoked _ _ _ _ _ _) as [[] w3] eqn:Er; [done|].
  destruct (mark_seen _ _ _ _) as [[] seen] eqn:Es; [|done]. intros [= -> <-].
  exists en, signed, pl, p. rewrite Ev. cbn [fst snd]. rewrite Ek. cbn [fst snd]. rewrite Er. auto 10.
Qed.

Lemma verify_payload e t0 t1 signed kid w pl :
  (verify e t0 t1 signed kid w).1 = Ok pl -> result_ok (decode64 (payload signed)) = Some pl.
Proof.
  intros (? & ? & ? & _ & _ & _ & _ & _ & Hv)%verify_spec. by eapply verify_with_payload.
Qed.

Lemma grant_payload_eq grant signed pl :
  signed_from_str grant = Some signed -> result_ok (decode64 (payload signed)) = Some pl ->
  grant_payload grant = payload_from_slice pl.
Proof. unfold grant_payload. intros -> E. cbn. by rewrite E. Qed.

Lemma verified_by e t0 t1 signed kid w pl :
  (verify (Some e) t0 t1 signed kid w).1 = Ok pl ->
  exists s, in_force e w = Some s
    /\ exists k, k ∈ s_keys s /\ trusted_at k t0 t1 /\ of_kid kid k /\ signs k signed.
Proof.
  intros (? & s & k & [= <-] & Es & Hk & Ht & Hkid & Hv)%verify_spec.
  exists s. split; [done|]. exists k. unfold signs. eauto 6.
Qed.

(** The store after the first [verify], and the keys that pass the second. *)
Lemma kid_ok_spec e c signed p w s t0 :
  in_force e w = Some s ->
  (kid_ok e c signed p (mkKeys (Some (prune s t0)) (disk w))).1 = true ->
  forall kid, p_kid p = Some kid ->
  exists k, k ∈ s_keys s /\ trusted_at k (t_kid c).1 (t_kid c).2 /\ k_kid k = kid /\ signs k signed.
Proof.
  intros Es Hok kid Ek. unfold kid_ok in Hok. rewrite Ek in Hok.
  destruct (verify _ _ _ _ _ _) as [[pl|] w'] eqn:Ev; [|done].
  destruct (verified_by e (t_kid c).1 (t_kid c).2 signed (Some kid)
    (mkKeys (Some (prune s t0)) (disk w)) pl) as (s' & Es' & k & Hk & Ht & Hkid & Hs);
    [by rewrite Ev|].
  rewrite in_force_mem in Es' by (by apply in_force_tenant in Es). injection Es' as <-.
  apply list_elem_of_fmap in Hk as (k0 & -> & Hk0). exists k0.
  destruct (expire_key k0 t0) as [E1 E2]. unfold signs in *. rewrite E2 in Hs.
  cbn in Hkid. rewrite E1 in Hkid. eauto using expire_trusted.
Qed.

Lemma kid_ok_state e c signed p w s :
  in_force e w = Some s ->
  exists s', in_force e (kid_ok e c signed p w).2 = Some s'
    /\ forall r, r ∈ s_revocations s ->
         (p_kid p <> None -> (t_kid c).1 < r_until r) -> r ∈ s_revocations s'.
Proof.
  intros Es. unfold kid_ok. destruct (p_kid p) as [kid|].
  - pose proof (verify_state e (t_kid c).1 (t_kid c).2 signed (Some kid) w) as Hw.
    destruct (verify _ _ _ _ _ _) as [r w']. cbn [snd] in *. subst w'.
    rewrite in_force_pruned, Es. eexists. split; [done|]. intros x Hx Ht.
    apply elem_of_filter_b. split; [done|]. apply Z.ltb_lt. by apply Ht.
  - exists s. auto.
Qed.

(** C7 A login goes ahead on a grant only if the PC is enrolled and not blocked and
    the grant is signed by a trusted key of its tenant, by the key it names if it
    names one; is for this tenant and this PC; is within its validity, give or take
    two minutes; has a nonce not used in that time; is not revoked; and what the
    login then needs is at least what the local policy and the grant each ask. *)
Theorem a_granted_login_was_checked e mode blocked c grant h info h'
    (Hg : evaluate e mode blocked c grant h = (Grant info, h')) (Hc : sane_clock (t_now c)) :
  blocked = false
  /\ exists en signed s p, e = Some en /\ signed_from_str grant = Some signed
     /\ grant_payload grant = Some p /\ in_force en (h_keys h) = Some s
     /\ (exists k, k ∈ s_keys s /\ trusted_at k (t_first c).1 (t_first c).2 /\ signs k signed)
     /\ (forall kid, p_kid p = Some kid ->
           exists k, k ∈ s_keys s /\ trusted_at k (t_kid c).1 (t_kid c).2 /\ k_kid k = kid
                     /\ signs k signed)
     /\ p_tenant_id p = tenant_id en /\ p_device_id p = device_id en
     /\ not_before (p_constraints p) - CLOCK_SKEW_SECS <= t_now c
        <= expires_at (p_constraints p) + CLOCK_SKEW_SECS
     /\ (forall t, (p_nonce p, t) ∈ h_seen h -> t <= t_now c)
     /\ (forall r, r ∈ s_revocations s ->
           (t_first c).1 < r_until r -> (t_kid c).1 < r_until r -> t_revoked c < r_until r ->
           revokes (p_nonce p) (p_session_id p) (p_user_id p) r = false)
     /\ implies (requirements mode) (i_needs info) /\ account (i_needs info) = true
     /\ (wants p (Str.lit "password") = true -> password (i_needs info) = true)
     /\ (wants p (Str.lit "confirm") || wants p (Str.lit "consent") = true ->
         confirm (i_needs info) = true).
Proof.
  apply evaluate_Grant in Hg as (en & signed & pl & p & -> & -> & Esg & Ev & Epl & Hk & Hp & Hr & Hm).
  split; [done|]. pose proof (verify_payload _ _ _ _ _ _ _ Ev) as Hd.
  destruct (verified_by _ _ _ _ _ _ _ Ev) as (s & Es & k & Hkin & Ht & _ & Hs).
  rewrite verify_state, Es in Hk, Hr. cbn [fmap option_fmap option_map] in Hk, Hr.
  apply check_payload_Ok in Hp as (_ & Htn & Hdv & Hnb & Hex & _ & _ & ->).
  destruct Hc as [Hc1 Hc2]. rewrite Int.swrap_small in Hnb, Hex by done.
  exists en, signed, s, p. do 2 (split; [done|]).
  split; [by rewrite (grant_payload_eq _ _ _ Esg Hd)|]. split; [done|].
  split; [eauto|]. split; [by eapply kid_ok_spec|]. do 2 (split; [done|]). split; [lia|].
  split; [by apply mark_seen_true in Hm as [Hm _]|]. split; [|split].
  - intros r Hrin H1 H2 H3.
    pose proof (in_force_mem en (prune s (t_first c).1) (disk (h_keys h)) (in_force_tenant _ _ _ Es)) as Ew.
    destruct (kid_ok_state _ c signed p _ _ Ew) as (s' & Es' & Hs').
    apply (proj1 (is_revoked_spec _ _ _ _ _ _ _ Es') Hr); [|done]. apply Hs'; [|done].
    apply elem_of_filter_b. split; [done|]. by apply Z.ltb_lt.
  - repeat split; cbn; [intros ->; done|]. by intros ->.
  - repeat split; cbn; [intros ->; by rewrite orb_true_r|].
    intros Hw. by rewrite <- orb_assoc, Hw, orb_true_r.
Qed.

Lemma evaluate_keeps_seen e mode blocked c grant h n t :
  (n, t) ∈ h_seen h -> t_now c < t -> (n, t) ∈ h_seen (evaluate e mode blocked c grant h).2.
Proof.
  intros Hin Ht. unfold evaluate. destruct e as [en|]; [|done]. destruct blocked; [done|].
  case_bool_decide; [done|]. destruct (signed_from_str grant) as [signed|]; [|done].
  destruct (verify _ _ _ _ _ _) as [[pl|] w1]; [|done].
  destruct (payload_from_slice pl) as [p|]; [|done].
  destruct (kid_ok en c signed p w1) as [[] w2]; cbn [negb]; [|done].
  destruct (check_payload _ _ _ _) as [i|code]; [|done].
  destruct (is_revoked _ _ _ _ _ _) as [[] w3]; [done|].
  pose proof (mark_seen_keeps (i_nonce i) (expires_at (p_constraints p)) (t_now c) _ _ _ Hin Ht) as Hk.
  by destruct (mark_seen _ _ _ _).
Qed.

Lemma after_keeps_seen l h n t now :
  Forall (fun a => t_now (a_clock a) <= now) l -> now < t ->
  (n, t) ∈ h_seen h -> (n, t) ∈ h_seen (after h l).
Proof.
  intros Hl Hnow. revert h. induction Hl as [|a l Ha _ IH]; intros h Hin; [done|].
  simpl. apply IH. apply evaluate_keeps_seen; [done|]. lia.
Qed.

(** A grant that let a login go ahead does it no more. *)
Lemma grant_once e mode blocked c grant h info h' p between mode' blocked' c'
    (Hg : evaluate (Some e) mode blocked c grant h = (Grant info, h'))
    (Hp : grant_payload grant = Some p)
    (Hexp : Int.is_s 64 (expires_at (p_constraints p) + CLOCK_SKEW_SECS))
    (Hc : sane_clock (t_now c'))
    (Hclock : Forall (fun a => t_now (a_clock a) <= t_now c') between)
    (Htie : t_now c' <> expires_at (p_constraints p) + CLOCK_SKEW_SECS) info' :
  (evaluate (Some e) mode' blocked' c' grant (after h' between)).1 <> Grant info'.
Proof.
  apply evaluate_Grant in Hg as (en & signed & pl & p1 & _ & _ & Esg & Ev & Epl & _ & Hck & _ & Hm).
  apply verify_payload in Ev. rewrite (grant_payload_eq _ _ _ Esg Ev), Epl in Hp. injection Hp as ->.
  apply mark_seen_true in Hm as [_ Hm]. rewrite Int.swrap_small in Hm by done.
  apply check_payload_Ok in Hck as (_ & _ & _ & _ & _ & _ & _ & ->). cbn [i_nonce] in Hm.
  destruct (evaluate _ mode' _ _ _ _) as [[] h2] eqn:E2; try done. intros [= ->].
  apply evaluate_Grant in E2 as (en2 & signed2 & pl2 & p2 & _ & _ & Esg2 & Ev2 & Epl2 & _ & Hck2 & _ & Hm2).
  assert (signed2 = signed) as -> by congruence. apply verify_payload in Ev2.
  assert (pl2 = pl) as -> by congruence. assert (p2 = p) as -> by congruence.
  apply check_payload_Ok in Hck2 as (_ & _ & _ & _ & Hex & _ & _ & ->).
  destruct Hc as [Hc _]. rewrite Int.swrap_small in Hex by done.
  apply mark_seen_true in Hm2 as [Hm2 _]. cbn [i_nonce] in Hm2.
  assert (t_now c' < expires_at (p_constraints p) + CLOCK_SKEW_SECS) as Hlt by lia.
  pose proof (after_keeps_seen _ _ _ _ _ Hclock Hlt Hm) as Hin. apply Hm2 in Hin. lia.
Qed.

Lemma evaluate_Unmanaged e mode blocked c grant h :
  (evaluate (Some e) mode blocked c grant h).1 = Unmanaged -> Str.trim grant = [].
Proof.
  unfold evaluate. destruct blocked; [done|]. case_bool_decide; [done|].
  destruct (signed_from_str grant) as [signed|]; [|done].
  destruct (verify _ _ _ _ _ _) as [[pl|] w1]; [|done].
  destruct (payload_from_slice pl) as [p|]; [|done].
  destruct (kid_ok e c signed p w1) as [[] w2]; cbn [negb]; [|done].
  destruct (check_payload _ _ _ _) as [i|code]; [|by case_bool_decide].
  destruct (is_revoked _ _ _ _ _ _) as [[] w3]; [done|]. by destruct (mark_seen _ _ _ _) as [[] ?].
Qed.

Lemma evaluate_blank e mode blocked c grant h info :
  Str.trim grant = [] -> (evaluate e mode blocked c grant h).1 <> Grant info.
Proof.
  intros Hb. unfold evaluate. destruct e; [|done]. destruct blocked; [done|].
  rewrite bool_decide_eq_true_2 by done. by destruct (account _).
Qed.

(** A grant is used once: after a login on it, no later login on the same text
    goes ahead, whatever was tried in between, with a clock that does not run back;
    the one instant left out is the last second of its tolerance. *)
Theorem a_grant_is_used_once e mode blocked c grant h info h' p between mode' blocked' c'
    (Hg : evaluate (Some e) mode blocked c grant h = (Grant info, h'))
    (Hp : grant_payload grant = Some p)
    (Hexp : Int.is_s 64 (expires_at (p_constraints p) + CLOCK_SKEW_SECS))
    (Hc : sane_clock (t_now c'))
    (Hclock : Forall (fun a => t_now (a_clock a) <= t_now c') between)
    (Htie : t_now c' <> expires_at (p_constraints p) + CLOCK_SKEW_SECS) info' :
  (evaluate (Some e) mode' blocked' c' grant (after h' between)).1 <> Grant info'.
Proof. by apply (grant_once e mode blocked c grant h info h' p between). Qed.
End Proofs.

(** The last second of a grant's tolerance lets it through again: at
    [expires_at + 120] the payload still passes, and the nonce, kept only while its
    time is greater than the clock, has just been forgotten. *)
Theorem the_last_second_replays p e local now info seen seen'
    (Hok : check_payload p e local now = Ok info)
    (Hmark : mark_seen (p_nonce p) (expires_at (p_constraints p)) now seen = (true, seen'))
    (Hc : sane_clock now) (Hlast : sane_clock (expires_at (p_constraints p) + CLOCK_SKEW_SECS)) :
  let last := expires_at (p_constraints p) + CLOCK_SKEW_SECS in
  check_payload p e local last = Ok info
  /\ (mark_seen (p_nonce p) (expires_at (p_constraints p)) last seen').1 = true.
Proof.
  intros last. pose proof (check_payload_Ok _ _ _ _ _ Hok) as (_ & _ & _ & Hnb & Hex & _).
  destruct Hc as [Hc1 Hc2], Hlast as [Hl1 Hl2]. fold last in Hl1, Hl2.
  rewrite Int.swrap_small in Hnb, Hex by done. split.
  - rewrite <- Hok. unfold check_payload. rewrite !Int.swrap_small by done.
    do 2 (case_match; [done|]).
    replace (last + CLOCK_SKEW_SECS <? not_before (p_constraints p)) with false
      by (symmetry; apply Z.ltb_ge; lia).
    replace (now + CLOCK_SKEW_SECS <? not_before (p_constraints p)) with false
      by (symmetry; apply Z.ltb_ge; lia).
    replace (expires_at (p_constraints p) <? last - CLOCK_SKEW_SECS) with false
      by (symmetry; apply Z.ltb_ge; lia).
    by replace (expires_at (p_constraints p) <? now - CLOCK_SKEW_SECS) with false
      by (symmetry; apply Z.ltb_ge; lia).
  - unfold mark_seen in Hmark. destruct (existsb _ _) eqn:E; [done|]. injection Hmark as <-.
    unfold mark_seen. match goal with |- (if ?b then _ else _).1 = true => assert (b = false) as -> end;
      [|done].
    apply not_true_iff_false. intros (x & [Hx Hlt]%filter_In & Hn)%existsb_exists.
    apply bool_decide_eq_true in Hn. apply Z.ltb_lt in Hlt.
    apply in_app_or in Hx as [Hx|[<-|[]]].
    + apply not_true_iff_false in E. apply E. apply existsb_exists. exists x.
      split; [done|by apply bool_decide_eq_true].
    + cbn [snd] in Hlt. destruct Hl1, Hl2.
      rewrite Int.swrap_small in Hlt by (done || (unfold Int.is_s in *; unfold CLOCK_SKEW_SECS in *; lia)).
      lia.
Qed.

(** ** The login *)

(** With a grant the login is authorised at once exactly when the grant needs
    neither password nor confirmation, or when it needs the password and that was
    right (and not refused for earlier failures) or the session is a recent one; a
    grant that needs only the confirmation always goes to the person at the PC. *)
Theorem login_follows_the_grant i n (Hn : Login.needs i = Some n) :
  (Login.primary_auth i = Login.Logon
   <-> if password n
       then Login.recent_session i = true
            \/ Login.password_empty i = false /\ Login.check_failure i = true
               /\ Login.validate_password i = true
       else confirm n = false)
  /\ (Login.primary_auth i = Login.AskUser <->
      if password n
      then Login.recent_session i = false /\ Login.password_empty i = true
           /\ Login.terminal_login i = None
      else confirm n = true).
Proof.
  unfold Login.primary_auth, Login.by_password. rewrite Hn.
  destruct (password n), (confirm n); cbn [negb andb]; try (split; split; (done || congruence));
    destruct (Login.recent_session i), (Login.password_empty i), (Login.check_failure i),
      (Login.validate_password i), (Login.terminal_login i); cbn [negb]; intuition discriminate.
Qed.

(** When the policy asks for the account and the password and the grant for the
    consent of the person at the PC, the login needs both, but a right password
    authorises it without asking anybody. *)
Theorem password_skips_the_confirmation p e now info i
    (Hok : check_payload p e (requirements (Str.lit "account_password")) now = Ok info)
    (Hw : wants p (Str.lit "consent") = true)
    (Hn : Login.needs i = Some (i_needs info))
    (Hfail : Login.check_failure i = true) (Hpw : Login.validate_password i = true)
    (Hempty : Login.password_empty i = false) :
  i_needs info = mkRequirements true true true /\ Login.primary_auth i = Login.Logon.
Proof.
  apply check_payload_Ok in Hok as (_ & _ & _ & _ & _ & _ & _ & ->). cbn [i_needs] in *.
  rewrite Hw, orb_true_r in *. split; [done|].
  unfold Login.primary_auth, Login.by_password. rewrite Hn, Hempty, Hfail, Hpw. cbn.
  by destruct (Login.recent_session i).
Qed.

(** ** Sessions *)

Lemma close_session_spec id m conn :
  conn ∈ (Sessions.close_session id m).1
  <-> exists a, m !! conn = Some a /\ Sessions.session_id a = id.
Proof.
  unfold Sessions.close_session. cbn [fst]. rewrite list_elem_of_fmap. split.
  - intros ([c a] & -> & [Hin He]%elem_of_filter_b). apply elem_of_map_to_list in Hin.
    apply bool_decide_eq_true in He. eauto.
  - intros (a & Hm & He). exists (conn, a). split; [done|]. apply elem_of_filter_b.
    split; [by apply elem_of_map_to_list|by apply bool_decide_eq_true].
Qed.

(** A timer closes its connection when the session it was set for has lasted its
    limit, and does nothing once that is closed or another took its place. *)
Lemma timer_fires_spec conn info t0 m t tm m' :
  Sessions.register conn info t0 m = (m', Some tm) -> t0 <= t ->
  (Sessions.timer_fires tm t m' = [conn] <-> Sessions.secs (i_max_duration_s info) <= t - t0)
  /\ Sessions.timer_fires tm t (Sessions.unregister conn m') = []
  /\ forall info2 t2, t2 <= t -> t - t2 < Sessions.secs (i_max_duration_s info) ->
       Sessions.timer_fires tm t (Sessions.register conn info2 t2 m').1 = [].
Proof.
  unfold Sessions.register. destruct (i_max_duration_s info =? 0); [done|]. intros [= <- <-] Ht.
  unfold Sessions.timer_fires, Sessions.unregister. cbn [Sessions.tm_conn Sessions.tm_session Sessions.tm_limit fst].
  rewrite lookup_delete_eq, lookup_insert_eq. cbn [Sessions.session_id Sessions.started].
  rewrite bool_decide_eq_true_2 by done. cbn [andb]. split; [|split; [done|]].
  - destruct (Z.leb_spec (Sessions.secs (i_max_duration_s info)) (Z.max 0 (t - t0))) as [Hle|Hle].
    + split; [intros _; lia|done].
    + split; [done|intros ?; lia].
  - intros info2 t2 H2 Hlt. rewrite lookup_insert_eq. cbn [Sessions.session_id Sessions.started].
    replace (_ <=? Z.max 0 (t - t2)) with false; [by rewrite andb_false_r|].
    symmetry. apply Z.leb_gt. lia.
Qed.

(** ** The toy instances at work *)

Section Samples.
#[local] Existing Instances toy_crypto toy_decoders.

Example evaluates :
  (fun q => (evaluate_at q.1 q.2 fresh_host).1) <$> [(1000, text); (2000, text); (1000, [11; 3; 900; 1100; 77; 0]); (1000, [])]
  = [Grant (sample_info (mkRequirements true false false));
     Refuse (Str.lit "expired") MSG_GRANT_INVALID [77] [77];
     Refuse (Str.lit "signature_invalid") MSG_GRANT_INVALID [] [];
     Refuse (Str.lit "grant_required") MSG_GRANT_REQUIRED [] []].
Proof. vm_compute. reflexivity. Qed.

Example replays :
  (fun now => (evaluate_at now text (evaluate_at 1000 text fresh_host).2).1) <$> [1000; 1219; 1220; 1221]
  = [Refuse (Str.lit "replayed") MSG_GRANT_INVALID [77] [77];
     Refuse (Str.lit "replayed") MSG_GRANT_INVALID [77] [77];
     Grant (sample_info (mkRequirements true false false));
     Refuse (Str.lit "expired") MSG_GRANT_INVALID [77] [77]].
Proof. vm_compute. reflexivity. Qed.

Lemma a_granted_login_was_checked_witness :
  (evaluate_at 1000 text fresh_host).1 = Grant (sample_info (mkRequirements true false false))
  /\ false = false.
Proof.
  split; [vm_compute; reflexivity|].
  refine (proj1 (a_granted_login_was_checked (Some sample_enrollment) (Str.lit "account_2fa") false
    (clock_at 1000) text fresh_host (sample_info (mkRequirements true false false))
    (evaluate_at 1000 text fresh_host).2 _ _)).
  - vm_compute. reflexivity.
  - vm_compute. repeat split; discriminate.
Defined.

Lemma a_grant_is_used_once_witness :
  (evaluate_at 1219 text (evaluate_at 1000 text fresh_host).2).1
  <> Grant (sample_info (mkRequirements true false false)).
Proof.
  apply (a_grant_is_used_once sample_enrollment (Str.lit "account_2fa") false (clock_at 1000) text
    fresh_host (sample_info (mkRequirements true false false)) (evaluate_at 1000 text fresh_host).2
    (sample_payload false) []).
  - vm_compute. reflexivity.
  - vm_compute. reflexivity.
  - vm_compute. split; discriminate.
  - vm_compute. repeat split; discriminate.
  - constructor.
  - vm_compute. discriminate.
Defined.
End Samples.

Lemma the_last_second_replays_witness :
  check_payload (sample_payload false) sample_enrollment (requirements []) 1220
  = Ok (sample_info (mkRequirements true true false)).
Proof.
  apply (the_last_second_replays (sample_payload false) sample_enrollment (requirements []) 1000
    (sample_info (mkRequirements true true false)) [] [([77], 1220)]).
  - vm_compute. reflexivity.
  - vm_compute. reflexivity.
  - vm_compute. repeat split; discriminate.
  - vm_compute. repeat split; discriminate.
Defined.

Lemma login_follows_the_grant_witness :
  Login.primary_auth (sample_login (mkRequirements true false true)) = Login.AskUser.
Proof.
  apply (proj2 (login_follows_the_grant (sample_login (mkRequirements true false true))
    (mkRequirements true false true) eq_refl)). reflexivity.
Defined.

Lemma password_skips_the_confirmation_witness :
  Login.primary_auth (sample_login (mkRequirements true true true)) = Login.Logon.
Proof.
  refine (proj2 (password_skips_the_confirmation (sample_payload true) sample_enrollment 1000
    (sample_info (mkRequirements true true true)) (sample_login (mkRequirements true true true))
    _ _ _ _ _ _)); vm_compute; reflexivity.
Defined.
