(* ===== verification/TrustedControllers.v ===== *)
(** * Trusted controllers: [src/clanto/trusted_controllers.rs]

    The list of the controllers that are spared the second factor: its parser and
    printer, the commands that add and remove an entry, the check of the signature
    that a controller sends at its login, and the rules of the command line.  The
    base64 of the keys and Ed25519 are third-party code (the class [KeyCodec]); the
    key store of the controller's own key is left out. *)

From S2P Require Import Prelude.

Abbreviation bytes := (list Z).

Class KeyCodec := {
  encode_key : bytes -> rstr;
  decode_base64 : rstr -> option bytes;
  public_key_from_slice : bytes -> option bytes;
  signature_from_bytes : bytes -> option bytes;
  verify_detached : bytes -> bytes -> bytes -> bool }.

Definition base64url_char (c : Z) : bool := Str.is_ascii_alphanumeric c || (c =? 45) || (c =? 95).

Definition PUBLICKEYBYTES : nat := 32.
Definition MAX_ENTRIES : nat := 500.
Definition SIGNATURE_DOMAIN : rstr := Str.lit "clanto-controller-v1".

Record Entry := mkEntry { id : rstr; key : bytes }.

#[export] Instance Entry_eq_dec : EqDecision Entry.
Proof. solve_decision. Defined.

#[export] Instance Entry_countable : Countable Entry.
Proof.
  refine (inj_countable' (fun e => (id e, key e)) (fun p => mkEntry p.1 p.2) _). by intros [].
Defined.

Definition valid_id (i : rstr) : bool :=
  negb (bool_decide (i = [])) && (Str.len i <=? 64) && forallb base64url_char i.

(** What separates two items of the list. *)
Definition is_separator (c : Z) : bool := (c =? 44) || (c =? 59) || Str.is_whitespace c.

Section TrustedControllers.
Context `{KeyCodec}.

Definition to_option (e : Entry) : rstr := id e ++ [61] ++ encode_key (key e).

Definition decode_key (s : rstr) : option bytes :=
  key ← decode_base64 (Str.trim s);
  if (length key =? PUBLICKEYBYTES)%nat then Some key else None.

Definition parse_item (item : rstr) : option Entry :=
  '(i, k) ← Str.split_once (Str.ch 61) item;
  let i := Str.trim i in
  if valid_id i then key ← decode_key k; Some (mkEntry i key) else None.

Definition parse_step (st : list Entry * list rstr) (item : rstr) : list Entry * list rstr :=
  let '(entries, invalid) := st in
  match parse_item item with
  | Some entry =>
      if (length entries <? MAX_ENTRIES)%nat then
        (if bool_decide (entry ∈ entries) then entries else entries ++ [entry], invalid)
      else (entries, invalid ++ [item])
  | None => (entries, invalid ++ [item])
  end.

Definition items (lst : rstr) : list rstr :=
  List.filter (fun s => negb (bool_decide (s = []))) (Str.split is_separator lst).

Definition parse (lst : rstr) : list Entry * list rstr := foldl parse_step ([], []) (items lst).

Fixpoint join (parts : list rstr) : rstr :=
  match parts with [] => [] | [p] => p | p :: ps => p ++ [44] ++ join ps end.

Definition format (entries : list Entry) : rstr := join (to_option <$> entries).

Definition add (lst i k : rstr) : result rstr rstr :=
  let i := Str.trim i in
  if negb (valid_id i) then Err (Str.lit "Invalid controller ID: " ++ i)
  else
    match decode_key k with
    | None => Err (Str.lit "Invalid device key")
    | Some key =>
        let '(entries, _) := parse lst in
        let entry := mkEntry i key in
        if bool_decide (entry ∈ entries) then Ok (format entries)
        else if (MAX_ENTRIES <=? length entries)%nat then
          Err (Str.lit "At most 500 trusted controllers")
        else Ok (format (entries ++ [entry]))
    end.

Definition keeps (i : rstr) (key' : option bytes) (e : Entry) : bool :=
  negb (bool_decide (id e = Str.trim i))
  || match key' with Some k => negb (bool_decide (key e = k)) | None => false end.

Definition remove (lst i : rstr) (k : option rstr) : rstr :=
  let key' := k' ← k; decode_key k' in
  format (List.filter (keeps i key') (parse lst).1).

Definition canonical_message (host_id challenge controller_id : rstr) (key : bytes) : rstr :=
  SIGNATURE_DOMAIN ++ [10] ++ host_id ++ [10] ++ challenge ++ [10] ++ controller_id ++ [10]
  ++ encode_key key ++ [10].

Definition verify_with_list (lst host_id challenge controller_id : rstr) (key' signature : bytes) : bool :=
  if bool_decide (host_id = []) || bool_decide (challenge = []) || bool_decide (controller_id = [])
  then false
  else
    let '(entries, _) := parse lst in
    if negb (existsb (fun e => bool_decide (id e = controller_id) && bool_decide (key e = key')) entries)
    then false
    else
      match public_key_from_slice key', signature_from_bytes signature with
      | Some pk, Some signature =>
          verify_detached signature (canonical_message host_id challenge controller_id key') pk
      | _, _ => false
      end.

(** [option] is [clanto-trusted-controllers], [own_id] the id of this PC. *)
Definition verify_login (option own_id challenge controller_id : rstr) (key' signature : bytes) : bool :=
  if bool_decide (Str.trim option = []) || bool_decide (key' = []) || bool_decide (signature = [])
  then false
  else verify_with_list option own_id challenge controller_id key' signature.

(** ** The command line *)

Inductive CliOutcome :=
| DeviceKey (key : option rstr)
| Usage | Managed | SettingsDisabled | NotAdmin
| Refused (err : rstr)
| SetOption (value : rstr).

(** [writable]: the option is neither locked nor managed. *)
Definition run_cli (args : list rstr) (writable settings_disabled admin : bool) (current : rstr)
    (device_public_key : option rstr) : CliOutcome :=
  match args with
  | [] => Usage
  | command :: rest =>
      if bool_decide (command = Str.lit "--device-key") then DeviceKey device_public_key
      else
        let trust := bool_decide (command = Str.lit "--trust-controller") in
        let arity_ok :=
          if trust then (length args =? 3)%nat
          else (length args =? 2)%nat || (length args =? 3)%nat in
        if negb arity_ok then Usage
        else if negb writable then Managed
        else if settings_disabled then SettingsDisabled
        else if negb admin then NotAdmin
        else
          match rest with
          | i :: ks =>
              if trust then
                match add current i (default [] (head ks)) with
                | Ok lst => SetOption lst
                | Err err => Refused err
                end
              else SetOption (remove current i (head ks))
          | [] => Usage
          end
  end.
End TrustedControllers.

(** * Specification *)

Section Spec.
Context `{KeyCodec}.

(** The base64 of a key: it decodes to the key and has no other character than the
    alphabet's. *)
Class KeyLaws : Prop := {
  decode_encode k : length k = PUBLICKEYBYTES -> decode_base64 (encode_key k) = Some k;
  encode_chars k : forallb base64url_char (encode_key k) = true }.

Definition entry_ok (e : Entry) : Prop := valid_id (id e) = true /\ length (key e) = PUBLICKEYBYTES.

(** A list that the parser gives. *)
Definition entries_ok (es : list Entry) : Prop :=
  Forall entry_ok es /\ NoDup es /\ (length es <= MAX_ENTRIES)%nat.

(** The set of the pairs of id and key that a text stands for. *)
Definition trusted (lst : rstr) : gset Entry := list_to_set (parse lst).1.

Definition no_newline (s : rstr) : Prop := Forall (fun c => c <> 10) s.
End Spec.

(** * Theorems *)

Section Theorems.
Context `{KeyCodec}.

Lemma parse_item_ok item e : parse_item item = Some e -> entry_ok e.
Proof.
  unfold parse_item. destruct (Str.split_once _ item) as [[i k]|]; [|done]. cbn.
  destruct (valid_id (Str.trim i)) eqn:Ev; [|done]. unfold decode_key.
  destruct (decode_base64 _) as [k'|]; [|done]. cbn.
  destruct (Nat.eqb_spec (length k') PUBLICKEYBYTES); [|done]. by intros [= <-].
Qed.

Lemma parse_step_ok st item : entries_ok st.1 -> entries_ok (parse_step st item).1.
Proof.
  destruct st as [es inv]. intros (Hf & Hn & Hl). cbn [fst] in *. unfold parse_step.
  destruct (parse_item item) as [e|] eqn:Ep; [|done].
  destruct (Nat.ltb_spec (length es) MAX_ENTRIES) as [Hlt|]; [|done]. cbn.
  case_bool_decide as Ee; [done|]. split; [|split].
  - apply Forall_app. split; [done|]. apply Forall_singleton. by eapply parse_item_ok.
  - apply NoDup_app. split; [done|]. split; [|apply NoDup_singleton].
    by intros x Hx ->%list_elem_of_singleton.
  - rewrite length_app. simpl. lia.
Qed.

Lemma parse_ok lst : entries_ok (parse lst).1.
Proof.
  unfold parse. assert (forall its st, entries_ok st.1 -> entries_ok (foldl parse_step st its).1) as Hf.
  { induction its as [|it its IH]; intros st Hst; [done|]. apply IH. by apply parse_step_ok. }
  apply Hf. repeat split; [constructor|constructor|cbn; lia].
Qed.

Context `{!KeyLaws}.

Lemma base64url_char_plain c : base64url_char c = true -> c <> 61 /\ is_separator c = false /\ Str.is_whitespace c = false.
Proof.
  unfold base64url_char, Str.is_ascii_alphanumeric, Str.is_ascii_digit, Str.is_ascii_upper,
    Str.is_ascii_lower. intros Hc.
  assert (45 <= c <= 122 /\ c <> 61 /\ c <> 59) as (Hr & H1 & H2).
  { rewrite !orb_true_iff, !andb_true_iff, !Z.leb_le, !Z.eqb_eq in Hc. lia. }
  assert (Str.is_whitespace c = false) as Hw.
  { apply not_true_is_false. unfold Str.is_whitespace.
    rewrite !orb_true_iff, !andb_true_iff, !Z.leb_le, !Z.eqb_eq. lia. }
  split; [done|]. split; [|done]. unfold is_separator. rewrite Hw.
  destruct (Z.eqb_spec c 44), (Z.eqb_spec c 59); cbn; lia || done.
Qed.

Lemma chars_plain s :
  forallb base64url_char s = true ->
  Forall (fun c => c <> 61) s /\ Forall (fun c => is_separator c = false) s
  /\ Forall (fun c => Str.is_whitespace c = false) s.
Proof.
  rewrite forallb_forall. intros Hs.
  split; [|split]; apply List.Forall_forall; intros c Hc; apply base64url_char_plain; auto.
Qed.

Lemma trim_plain s : Forall (fun c => Str.is_whitespace c = false) s -> Str.trim s = s.
Proof.
  assert (forall s, Forall (fun c => Str.is_whitespace c = false) s -> Str.trim_start s = s) as Hst.
  { intros [|c t]; [done|]. intros Hc. apply Forall_cons in Hc as [Hc _]. cbn. by rewrite Hc. }
  intros Hs. unfold Str.trim, Str.trim_end. rewrite (Hst s Hs), Hst by (by apply Forall_rev).
  apply rev_involutive.
Qed.

Lemma split_once_at (p : Z -> bool) a c r :
  Forall (fun x => p x = false) a -> p c = true -> Str.split_once p (a ++ c :: r) = Some (a, r).
Proof.
  induction 1 as [|x a Hx _ IH]; intros Hc; cbn; [by rewrite Hc|]. by rewrite Hx, IH.
Qed.

Lemma valid_id_chars i : valid_id i = true -> i <> [] /\ forallb base64url_char i = true.
Proof.
  unfold valid_id. rewrite !andb_true_iff, negb_true_iff. intros [[Hi _] Hc].
  by apply bool_decide_eq_false in Hi.
Qed.

Lemma parse_to_option e : entry_ok e -> parse_item (to_option e) = Some e.
Proof.
  intros [Hi Hk]. destruct (valid_id_chars _ Hi) as [_ Hc]. destruct (chars_plain _ Hc) as (H1 & _ & H3).
  destruct (chars_plain _ (encode_chars (key e))) as (_ & _ & Hkw).
  unfold parse_item, to_option. cbn [app].
  rewrite (split_once_at _ (id e) 61) 
    by (first [done|eapply Forall_impl; [exact H1|]; intros c Hc'; apply Z.eqb_neq; congruence]).
  cbn [mbind option_bind]. rewrite (trim_plain (id e)), Hi by done. unfold decode_key.
  rewrite (trim_plain (encode_key _)), decode_encode by done. cbn [mbind option_bind].
  rewrite Hk, Nat.eqb_refl. by destruct e.
Qed.

Lemma to_option_item e :
  entry_ok e -> to_option e <> [] /\ Forall (fun c => is_separator c = false) (to_option e).
Proof.
  intros [Hi Hk]. destruct (valid_id_chars _ Hi) as [Hne Hc]. destruct (chars_plain _ Hc) as (_ & H2 & _).
  destruct (chars_plain _ (encode_chars (key e))) as (_ & Hks & _).
  split; [unfold to_option; by destruct (id e)|]. unfold to_option. rewrite !Forall_app.
  split; [done|]. split; [by repeat constructor|done].
Qed.

Lemma split_plain (p : Z -> bool) a : Forall (fun c => p c = false) a -> Str.split p a = [a].
Proof. induction 1 as [|x a Hx _ IH]; [done|]. cbn [Str.split]. by rewrite Hx, IH. Qed.

Lemma split_sep (p : Z -> bool) a c b :
  Forall (fun c => p c = false) a -> p c = true -> Str.split p (a ++ c :: b) = a :: Str.split p b.
Proof.
  induction 1 as [|x a Hx _ IH]; intros Hc; cbn [Str.split app]; [by rewrite Hc|]. by rewrite Hx, IH.
Qed.

Lemma items_format es : Forall entry_ok es -> items (format es) = to_option <$> es.
Proof.
  unfold items, format. induction 1 as [|e es He Hes IH]; [done|].
  destruct (to_option_item e He) as [Hne Hs]. rewrite fmap_cons. destruct es as [|e' es].
  - cbn [fmap list_fmap join]. rewrite split_plain by done. cbn [List.filter].
    by rewrite bool_decide_eq_false_2.
  - rewrite fmap_cons. cbn [join app]. rewrite split_sep by done. cbn [List.filter].
    rewrite bool_decide_eq_false_2 by done. cbn [negb]. f_equal. exact IH.
Qed.

Lemma parse_step_new es e inv :
  entry_ok e -> e ∉ es -> (length es < MAX_ENTRIES)%nat ->
  parse_step (es, inv) (to_option e) = (es ++ [e], inv).
Proof.
  intros He Hn Hl. unfold parse_step. rewrite parse_to_option by done.
  destruct (Nat.ltb_spec (length es) MAX_ENTRIES); [|lia]. by rewrite bool_decide_eq_false_2.
Qed.

Lemma parse_format_list es : entries_ok es -> parse (format es) = (es, []).
Proof.
  intros (Hf & Hn & Hl). unfold parse. rewrite items_format by done.
  assert (forall es' es0, Forall entry_ok es' -> NoDup (es0 ++ es') -> (length (es0 ++ es') <= MAX_ENTRIES)%nat ->
    foldl parse_step (es0, []) (to_option <$> es') = (es0 ++ es', [])) as Hg.
  { clear es Hf Hn Hl. induction es' as [|e es' IH]; intros es0 Hf Hn Hl; [by rewrite app_nil_r|].
    apply Forall_cons in Hf as [He Hf]. rewrite fmap_cons. cbn [foldl].
    rewrite length_app in Hl. cbn in Hl.
    rewrite parse_step_new; [|done| |lia].
    - rewrite IH; rewrite <- ?app_assoc; try done. rewrite length_app. cbn. lia.
    - apply NoDup_app in Hn as (_ & Hn & _). intros Hin. apply (Hn e Hin). by constructor. }
  by apply (Hg es []).
Qed.

Lemma filter_ok (t : Entry -> bool) es : entries_ok es -> entries_ok (List.filter t es).
Proof.
  intros (Hf & Hn & Hl). split; [|split].
  - rewrite List.Forall_forall in *. intros e [He _]%filter_In. auto.
  - apply NoDup_ListNoDup, List.NoDup_filter. by apply NoDup_ListNoDup.
  - etransitivity; [apply List.filter_length_le|done].
Qed.

(** Printing a list of valid, different entries and parsing it gives it back with
    nothing invalid; every text parses to such a list, so printing what was parsed
    is a normal form of the option. *)
Theorem parse_format (es : list Entry) (lst : rstr) :
  entries_ok es ->
  parse (format es) = (es, []) /\ parse (format (parse lst).1) = ((parse lst).1, []).
Proof. intros Hes. split; apply parse_format_list; [done|apply parse_ok]. Qed.

Lemma trusted_parse es inv lst : parse lst = (es, inv) -> trusted lst = list_to_set es.
Proof. unfold trusted. by intros ->. Qed.

Lemma trusted_remove lst i k e :
  e ∈ (trusted (remove lst i k))
  <-> e ∈ trusted lst /\ keeps i (k ≫= decode_key) e = true.
Proof.
  unfold remove. rewrite (trusted_parse _ [] _ (parse_format_list _ (filter_ok _ _ (parse_ok lst)))).
  unfold trusted. rewrite !elem_of_list_to_set, !list_elem_of_In, filter_In. done.
Qed.

(** C11 The option stands for a finite set of pairs of an id and a key: adding puts one
    pair in and refuses exactly an id or a key that is not valid and a new pair over
    the limit; removing takes out the pair, or all the pairs of the id. *)
Theorem list_is_a_set (lst i k : rstr) :
  match add lst i k with
  | Ok lst' => exists key', decode_key k = Some key' /\ valid_id (Str.trim i) = true
      /\ trusted lst' = ({[ mkEntry (Str.trim i) key' ]} ∪ trusted lst) /\ (parse lst').2 = []
  | Err _ => valid_id (Str.trim i) = false \/ decode_key k = None
      \/ exists key', decode_key k = Some key' /\ (mkEntry (Str.trim i) key' ∉ trusted lst)
         /\ size (trusted lst) = MAX_ENTRIES
  end
  /\ trusted (remove lst i None) = filter (fun e => id e <> Str.trim i) (trusted lst)
  /\ forall key', decode_key k = Some key' ->
       trusted (remove lst i (Some k)) = trusted lst ∖ {[ mkEntry (Str.trim i) key' ]}.
Proof.
  split; [|split].
  - unfold add. destruct (valid_id (Str.trim i)) eqn:Ev; cbn [negb]; [|by left].
    destruct (decode_key k) as [key'|] eqn:Ek; [|by right; left].
    pose proof (parse_ok lst) as (Hf & Hn & Hl). destruct (parse lst) as [es inv] eqn:Ep. cbn [fst] in *.
    pose proof (trusted_parse _ _ _ Ep) as Et.
    assert (length key' = PUBLICKEYBYTES) as Hk'.
    { unfold decode_key in Ek. destruct (decode_base64 _) as [x|]; [|done]. cbn in Ek.
      destruct (Nat.eqb_spec (length x) PUBLICKEYBYTES); [|done]. congruence. }
    case_bool_decide as Ein.
    + exists key'. rewrite Et, (trusted_parse es [] _ (parse_format_list es (conj Hf (conj Hn Hl)))).
      rewrite parse_format_list by done. split; [done|]. split; [done|]. split; [|done].
      apply set_eq. intros e. rewrite elem_of_union, elem_of_singleton, !elem_of_list_to_set.
      split; [auto|]. by intros [->|].
    + destruct (Nat.leb_spec MAX_ENTRIES (length es)) as [Hm|Hm].
      * right. right. exists key'. rewrite Et, elem_of_list_to_set. split; [done|]. split; [done|].
        rewrite size_list_to_set by done. lia.
      * assert (entries_ok (es ++ [mkEntry (Str.trim i) key'])) as Hok.
        { split; [|split].
          - apply Forall_app. split; [done|]. by apply Forall_singleton.
          - apply NoDup_app. split; [done|]. split; [|apply NoDup_singleton].
            by intros x Hx ->%list_elem_of_singleton.
          - rewrite length_app. cbn. lia. }
        exists key'. rewrite Et, (trusted_parse _ [] _ (parse_format_list _ Hok)).
        rewrite (parse_format_list _ Hok). split; [done|]. split; [done|]. split; [|done].
        apply set_eq. intros e. rewrite elem_of_union, elem_of_singleton, !elem_of_list_to_set.
        rewrite elem_of_app, list_elem_of_singleton. tauto.
  - apply set_eq. intros e. rewrite trusted_remove, elem_of_filter. unfold keeps. cbn.
    rewrite orb_false_r, negb_true_iff, bool_decide_eq_false. tauto.
  - intros key' Ek. apply set_eq. intros e.
    rewrite trusted_remove, elem_of_difference, elem_of_singleton. cbn. rewrite Ek. unfold keeps.
    rewrite orb_true_iff, !negb_true_iff, !bool_decide_eq_false. destruct e as [ie ke]. cbn.
    split; intros [He Hd]; (split; [done|]).
    + intros [= -> ->]. by destruct Hd.
    + destruct (decide (ie = Str.trim i)) as [->|]; [right; congruence|by left].
Qed.

(** Asked to take out one key of an id, [remove] takes out all of them when the key
    does not decode. *)
Theorem mistyped_key_removes_all (lst i k : rstr) :
  decode_key k = None -> remove lst i (Some k) = remove lst i None.
Proof. intros E. unfold remove. cbn. by rewrite E. Qed.

Lemma newline_split (a b r s : rstr) :
  no_newline a -> no_newline b -> a ++ 10 :: r = b ++ 10 :: s -> a = b /\ r = s.
Proof.
  intros Ha. revert b. induction Ha as [|x a Hx _ IH]; intros [|y b] Hb E; cbn in E.
  - by injection E as ->.
  - injection E as <- _. apply Forall_cons in Hb as [? _]. done.
  - injection E as -> _. done.
  - injection E as -> E. apply Forall_cons in Hb as [_ Hb]. destruct (IH b Hb E) as [-> ->]. done.
Qed.

Lemma plain_no_newline s : forallb base64url_char s = true -> no_newline s.
Proof.
  rewrite forallb_forall. intros Hs. apply List.Forall_forall. intros c Hc ->. apply Hs in Hc. done.
Qed.

(** A controller is trusted only if the pair of its id and key is in the list and
    the signature verifies with that key over this PC's id, this connection's
    challenge, the id and the key; and no other login has the same message. *)
Theorem verify_login_is_bound (option own_id challenge controller_id : rstr) (key' signature : bytes) :
  verify_login option own_id challenge controller_id key' signature = true ->
  mkEntry controller_id key' ∈ trusted option
  /\ (exists pk s, public_key_from_slice key' = Some pk /\ signature_from_bytes signature = Some s
        /\ verify_detached s (canonical_message own_id challenge controller_id key') pk = true)
  /\ forall own_id2 challenge2 controller_id2 key2,
       no_newline own_id -> no_newline challenge -> no_newline own_id2 -> no_newline challenge2 ->
       valid_id controller_id2 = true -> length key2 = PUBLICKEYBYTES ->
       canonical_message own_id challenge controller_id key'
         = canonical_message own_id2 challenge2 controller_id2 key2 ->
       own_id2 = own_id /\ challenge2 = challenge /\ controller_id2 = controller_id /\ key2 = key'.
Proof.
  unfold verify_login. destruct (_ || _); [done|]. unfold verify_with_list. destruct (_ || _); [done|].
  pose proof (parse_ok option) as (Hf & _). destruct (parse option) as [es inv] eqn:Ep. cbn [fst] in Hf.
  destruct (existsb _ es) eqn:Ee; cbn [negb]; [|done].
  destruct (public_key_from_slice key') as [pk|] eqn:Epk; [|done].
  destruct (signature_from_bytes signature) as [s|] eqn:Es; [|done]. intros Hv.
  apply existsb_exists in Ee as ([ie ke] & Hin & [E1 E2]%andb_true_iff).
  apply bool_decide_eq_true in E1, E2. cbn in E1, E2. subst ie ke. apply list_elem_of_In in Hin.
  rewrite (trusted_parse _ _ _ Ep), elem_of_list_to_set. split; [done|]. split; [by exists pk, s|].
  rewrite Forall_forall in Hf. destruct (Hf _ Hin) as [Hi Hk]. cbn in Hi, Hk.
  intros h2 c2 i2 k2 N1 N2 N3 N4 Hi2 Hk2 E.
  destruct (valid_id_chars _ Hi) as [_ Hc1], (valid_id_chars _ Hi2) as [_ Hc2].
  unfold canonical_message in E. apply app_inv_head in E. cbn [app] in E. injection E as E.
  apply newline_split in E as [<- E]; [|done..]. apply newline_split in E as [<- E]; [|done..].
  apply newline_split in E as [<- E]; [|by apply plain_no_newline..].
  apply app_inj_tail in E as [E _]. apply (f_equal decode_base64) in E.
  rewrite !decode_encode in E by done. injection E as <-. done.
Qed.
End Theorems.

(** * Witnesses *)

(** Keys written in binary, signatures that show the message. *)
Module Toy.
Fixpoint bits_of (p : positive) : rstr :=
  match p with xH => [] | xO p => 48 :: bits_of p | xI p => 49 :: bits_of p end.
Fixpoint of_bits (s : rstr) : positive :=
  match s with [] => xH | c :: s => if c =? 48 then xO (of_bits s) else xI (of_bits s) end.

#[export] Instance toy_codec : KeyCodec := {|
  encode_key := fun k => bits_of (encode k);
  decode_base64 := fun s => decode (of_bits s);
  public_key_from_slice := Some;
  signature_from_bytes := Some;
  verify_detached := fun sig msg pk => bool_decide (sig = pk ++ msg) |}.

Lemma of_bits_of p : of_bits (bits_of p) = p.
Proof. by induction p as [p IH|p IH|]; simpl; rewrite ?IH. Qed.

#[export] Instance toy_laws : KeyLaws.
Proof.
  split.
  - intros k _. cbn. by rewrite of_bits_of, countable.decode_encode.
  - intros k. cbn. generalize (encode k : positive). intros p. by induction p.
Qed.

Definition key_of (c : Z) : bytes := replicate 32 c.
Definition entry_a : Entry := mkEntry (Str.lit "111-a") (key_of 7).
Definition entry_b : Entry := mkEntry (Str.lit "222") (key_of 8).
Definition list_ab : rstr := format [entry_a; entry_b].
Definition HOST : rstr := Str.lit "900".
Definition CHALLENGE : rstr := Str.lit "xyz".
Definition signature_a : bytes := key_of 7 ++ canonical_message HOST CHALLENGE (Str.lit "111-a") (key_of 7).
End Toy.
Import Toy.

Example parsed_samples :
  (parse (list_ab ++ Str.lit "; bad, 222=short" ++ [10])) = ([entry_a; entry_b], [Str.lit "bad"; Str.lit "222=short"]).
Proof. vm_compute. reflexivity. Qed.

Example commands :
  run_cli [Str.lit "--untrust-controller"; Str.lit "222"] true false true list_ab None
    = SetOption (format [entry_a])
  /\ run_cli [Str.lit "--untrust-controller"; Str.lit "222"] true false false list_ab None = NotAdmin
  /\ run_cli [Str.lit "--trust-controller"; Str.lit "222"] true false true list_ab None = Usage.
Proof. vm_compute. repeat split. Qed.

Lemma entries_ab_ok : entries_ok [entry_a; entry_b].
Proof. split; [|split]; [decide_now|decide_now|vm_compute; lia]. Qed.

Lemma parse_format_witness :
  parse list_ab = ([entry_a; entry_b], []) /\ parse (format (parse list_ab).1) = ((parse list_ab).1, []).
Proof. exact (parse_format [entry_a; entry_b] list_ab entries_ab_ok). Defined.

Lemma list_is_a_set_witness :
  match add list_ab (Str.lit " 333 ") (encode_key (key_of 9)) with
  | Ok lst' => trusted lst' = ({[ mkEntry (Str.lit "333") (key_of 9) ]} ∪ trusted list_ab)
  | Err _ => False
  end
  /\ trusted (remove list_ab (Str.lit "222") (Some (encode_key (key_of 8)))) = trusted list_ab ∖ {[ entry_b ]}.
Proof.
  destruct (list_is_a_set list_ab (Str.lit " 333 ") (encode_key (key_of 9))) as [H _].
  destruct (list_is_a_set list_ab (Str.lit "222") (encode_key (key_of 8))) as (_ & _ & H2).
  split.
  - destruct (add list_ab _ _) as [lst'|e] eqn:E; [|vm_compute in E; discriminate E].
    destruct H as (key' & Ek & _ & Ht & _). vm_compute in Ek. injection Ek as <-. exact Ht.
  - apply H2. vm_compute. reflexivity.
Defined.

Lemma mistyped_key_removes_all_witness :
  decode_key (Str.lit "0110") = None
  /\ trusted (remove (format [entry_a; mkEntry (Str.lit "111-a") (key_of 9)]) (Str.lit "111-a") (Some (Str.lit "0110"))) = ∅.
Proof.
  split; [vm_compute; reflexivity|].
  rewrite (mistyped_key_removes_all _ _ (Str.lit "0110")) by (vm_compute; reflexivity).
  vm_compute. reflexivity.
Defined.

Lemma verify_login_is_bound_witness :
  entry_a ∈ trusted list_ab
  /\ verify_login list_ab HOST CHALLENGE (Str.lit "222") (key_of 7) signature_a = false.
Proof.
  split; [|vm_compute; reflexivity].
  apply (verify_login_is_bound list_ab HOST CHALLENGE (Str.lit "111-a") (key_of 7) signature_a).
  vm_compute. reflexivity.
Defined.
