(* ===== verification/ConnLogin.v ===== *)
(** * The login of a connection: [src/server/connection.rs]

    The part of a connection that lives before it is authorised: its scope, the
    checks on a login request, the password, the second factor, the switch of sides
    and what the person at the PC answers, up to the authorisation
    ([send_logon_response_and_keep_alive]).  The checks are those of the components:
    [LoginFailure] (failures and the ID whitelist), [SessionGrant], [AccessHours],
    [IdPermissions], [TrustedControllers]; their results and the messages sent are
    kept in order in [out].  What a handler reads outside, options, clock, platform,
    is an [Env] of that moment.  The code is the desktop's, with the [flutter]
    feature. *)

From coqutil Require Import Datatypes.RecordSetters.
From S2P Require Import Prelude AccessHours IdPermissions LoginFailure TenantKeys TrustedControllers SessionGrant.
Import TriangleBracketNotations.

Abbreviation Perms := Connection.Connection.
Abbreviation Failures := Buckets.table.

(** SHA-256 and the storage formats of the permanent password, of [hbb_common]; the
    UTF-8 of a text. *)
Class Passwords := {
  sha256_digest : bytes -> bytes;
  as_bytes : rstr -> bytes;
  decode_permanent_password_h1_from_storage : rstr -> option bytes;
  local_permanent_password_storage_is_usable_for_auth : rstr -> rstr -> bool;
  decode_preset_password_h1_from_storage : rstr -> option bytes;
  preset_permanent_password_storage_is_usable_for_auth : rstr -> rstr -> bool }.

(** ** Messages *)

Inductive LoginUnion :=
| FileTransfer (dir : rstr) (show_hidden : bool)
| ViewCamera
| Terminal (service_id : rstr)
| PortForward (host : rstr) (port : Z) (multiplex : bool)
| Unknown.

(** [options]: the options of the request, if any, and whether they ask for a
    terminal that persists. *)
Record LoginRequest := mkRequest {
  username : rstr; lr_password : bytes; my_id : rstr; my_name : rstr; my_platform : rstr;
  lr_session_id : Z; os_username : rstr; os_password : rstr; hwid : bytes;
  union : option LoginUnion; options : option bool; new_version : bool;
  clanto_device_key : bytes; clanto_device_sig : bytes; lr_grant : rstr }.

Definition no_request : LoginRequest :=
  mkRequest [] [] [] [] [] 0 [] [] [] None None false [] [] [].

Inductive ConnAuditPrimaryAuth :=
| NoAuth | TemporaryPassword | PermanentPassword | Click | SwitchSides | ClantoGrant.
Inductive ConnAuditTwoFactor := NoTwoFactor | Totp | TrustedDevice.

(** What a connection tells, in order: the peer, the audit, the connection manager
    ([try_start_cm], [try_start_cm_ipc]), the tenant's server. *)
Inductive Effect :=
| Tell (e : Buckets.effect)
| ShowLogin (authorized : bool)
| StartCmIpc
| Ack (body : option (rstr * rstr * option rstr * rstr))
| Consent (info : GrantInfo) (result : rstr)
| RegisterGrant (info : GrantInfo)
| AddTrustedDevice (device : bytes).

(** ** State *)

(** [TerminalUserToken]: the process's user or the one logged on. *)
Inductive Token := SelfUser | CurrentLogonUser.

(** The peer's id, its name and its session. *)
Abbreviation SessionKey := (rstr * rstr * Z)%type.

Record Session := mkSession { last_recv_time : Z; random_password : rstr; tfa : bool }.

(** What all connections share: the failures of [LOGIN_FAILURES] (password, second
    factor, ID whitelist) and of the system's credentials, the grants, the sessions,
    the temporary password and its failures, the codes to switch sides. *)
Record World := mkWorld {
  failures0 : Failures; failures1 : Failures; failures2 : Failures;
  os_failures : Backoff.OsCredentialFailureState;
  host : Host;
  sessions : gmap SessionKey Session;
  temporary_password : rstr; counted_password : rstr; counted_failures : Z;
  switch_sides_uuid : gmap rstr (Z * bytes) }.

(** The scope of a login. *)
Record Scope := mkScope {
  file_transfer : option (rstr * bool); view_camera : bool; terminal : bool;
  port_forward_address : rstr; terminal_persistent : bool }.

Definition no_scope : Scope := mkScope None false false [] false.

(** [port_forward]: a tunnel is open, multiplexed or not. *)
Record Conn := mkConn {
  salt : rstr; challenge : rstr; ip : rstr;
  authorized : bool; require_2fa : bool; awaiting_2fa : bool; from_switch : bool;
  clanto_grant : option GrantInfo; lr : LoginRequest; login_scope : option bytes;
  scope : Scope; terminal_service_id : rstr; options_in_login : option bool; perms : Perms;
  terminal_user_token : option Token; start_cm_ipc_para : bool; port_forward : option bool;
  session_code : option rstr; closed : bool;
  conn_audit_primary_auth : ConnAuditPrimaryAuth; conn_audit_two_factor : ConnAuditTwoFactor }.

Record St := mkSt { conn : Conn; world : World; out : list Effect }.

(** [admin_check] logs the user on ([None] when that fails); [session_user] is the
    token of the user logged on, [None] without a session; [service_user] tells whose
    a terminal service is; [os_login_gate] is open for one login at a time; [connect]
    is the connection of a tunnel. *)
Inductive ApproveMode := Both | ByPassword | ByClick.

(** The trusted devices of the configuration. *)
Record Device := mkDevice {
  d_hwid : bytes; d_id : rstr; d_name : rstr; d_platform : rstr; d_outdated : bool }.

(** What a handler reads outside the connection. *)
Record Env := mkEnv {
  now_ms : Z;
  to_lowercase : rstr -> rstr; translate : rstr -> rstr;
  from_json : rstr -> option (list (rstr * Profiles.ProfileConfig));
  permission : rstr -> bool; opt_id_whitelist : rstr; opt_id_permissions : rstr;
  require_watermark : bool;
  opt_trusted_controllers : rstr; enable_trusted_devices : bool; trusted_devices : list Device;
  enrolled : option Enrollment; access_mode : rstr; sessions_blocked : bool; clock : Clock;
  opt_access_hours : rstr; weekday : nat; hour : Z; minute : Z;
  opt_2fa_set : bool; totp_readable : bool; opt_require_2fa : rstr;
  totp_check : rstr -> option bool;
  posture : option rstr;
  in_privacy_mode : bool; id : rstr; is_direct_ip_access : rstr -> bool;
  windows : bool; is_installed : bool; is_prelogin : bool; is_logon : bool;
  opt_logon_screen_password : rstr;
  approve_mode : ApproveMode; has_valid_password : bool;
  temporary_enabled : bool; permanent_enabled : bool; new_password : rstr;
  local_storage : rstr * rstr; preset_storage : rstr * rstr;
  admin_check : rstr -> rstr -> option bool; session_user : option bool;
  os_login_gate : bool; service_user : rstr -> option bool;
  connect : rstr -> bool; new_session_code : option rstr }.

(** ** Handlers: state and answer *)

Definition M (A : Type) : Type := St -> A * St.
#[export] Instance M_ret : MRet M := fun A x s => (x, s).
#[export] Instance M_bind : MBind M := fun A B f m s => let '(x, s) := m s in f x s.

Definition get : M Conn := fun s => (conn s, s).
Definition get_world : M World := fun s => (world s, s).
Definition modify (f : Conn -> Conn) : M unit := fun s => (tt, s <| conn ::= f |>).
Definition modify_world (f : World -> World) : M unit := fun s => (tt, s <| world ::= f |>).
Definition emit (e : Effect) : M unit := fun s => (tt, s <| out := out s ++ [e] |>).
Definition emit_all (es : list Effect) : M unit := fun s => (tt, s <| out := out s ++ es |>).
Definition when (b : bool) (m : M unit) : M unit := if b then m else mret tt.

Definition tell (es : list Buckets.effect) : M unit := emit_all (Tell <$> es).
Definition send_login_error (text : rstr) : M unit := tell [Buckets.LoginError text].
Definition alarm (a : AlarmAuditType) : M unit := tell [Buckets.Alarm a].

Definition REQUIRE_2FA : rstr := Str.lit "2FA Required".
Definition LOGIN_MSG_PASSWORD_WRONG : rstr := Str.lit "Wrong Password".
Definition LOGIN_MSG_2FA_WRONG : rstr := Str.lit "Wrong 2FA Code".
Definition LOGIN_MSG_NO_PASSWORD_ACCESS : rstr := Str.lit "No Password Access".
Definition LOGIN_MSG_OFFLINE : rstr := Str.lit "Offline".
Definition NOT_ALLOWED : rstr := Str.lit "Connection not allowed".
Definition TERMINAL_OS_LOGIN_FAILED_MSG : rstr := Str.lit "Incorrect username or password.".
Definition SESSION_TIMEOUT : Z := 30000.
Definition SWITCH_SIDES_UUID_TTL : Z := 10000.
Definition MAX_CONSECUTIVE_FAILURES : Z := 10.

Definition constant_time_eq (a b : bytes) : bool :=
  if (length a =? length b)%nat
  then foldl (fun x ab => Z.lor x (Z.lxor ab.1 ab.2)) 0 (combine a b) =? 0
  else false.

Definition should_use_terminal_os_login_scope (e : Env) (is_terminal : bool) (os_login_username : rstr)
  : bool :=
  windows e && is_terminal && negb (bool_decide (Str.trim os_login_username = [])).

(** ** The second factor of the host: [two_factor_store], [two_factor_policy] *)

Inductive TwoFactorState := Missing | Valid | Unreadable.

Definition state_of (is_set readable : bool) : TwoFactorState :=
  if negb is_set then Missing else if readable then Valid else Unreadable.

Definition two_factor_login_block (e : Env) : option rstr :=
  match state_of (opt_2fa_set e) (totp_readable e) with
  | Unreadable => Some (translate e (Str.lit "clanto_2fa_unreadable_error"))
  | _ =>
      if bool_decide (opt_require_2fa e = Str.lit "Y") && negb (totp_readable e)
      then Some (translate e (Str.lit "clanto_2fa_policy_error")) else None
  end.

(** [clanto::login_block]. *)
Definition login_block (e : Env) : option rstr :=
  match AccessHours.login_block (translate e) (opt_access_hours e) (weekday e) (hour e) (minute e) with
  | Some reason => Some reason
  | None => two_factor_login_block e
  end.

(** ** The scope of a login *)

(** [to_le_bytes] of an integer of [n] bytes. *)
Fixpoint le_bytes (n : nat) (z : Z) : bytes :=
  match n with O => [] | S n => Z.land z 255 :: le_bytes n (Z.shiftr z 8) end.

Section Login.
Context `{Crypto} `{GrantDecoders} `{KeyCodec} `{Passwords}.

Definition push (b : bytes) : bytes := le_bytes 8 (Z.of_nat (length b)) ++ b.
Definition flag (b : bool) : bytes := [if b then 1 else 0].

(** What the digest is taken of. *)
Definition login_scope_text (lr : LoginRequest) : bytes :=
  push (as_bytes (my_id lr)) ++
  match union lr with
  | Some (FileTransfer dir show_hidden) =>
      push (Str.lit "file_transfer") ++ push (as_bytes dir) ++ push (flag show_hidden)
  | Some ViewCamera => push (Str.lit "view_camera")
  | Some (Terminal service_id) => push (Str.lit "terminal") ++ push (as_bytes service_id)
  | Some (PortForward host port multiplex) =>
      push (Str.lit "port_forward") ++ push (as_bytes host) ++ push (le_bytes 4 port)
      ++ push (flag multiplex)
  | None | Some Unknown => push (Str.lit "remote")
  end.

Definition login_scope_digest (lr : LoginRequest) : bytes := sha256_digest (login_scope_text lr).

Definition check_login_scope (lr : LoginRequest) : M bool :=
  c ← get;
  let requested := login_scope_digest lr in
  match login_scope c with
  | Some initial =>
      if bool_decide (initial <> requested)
      then _ ← send_login_error NOT_ALLOWED; mret false
      else mret true
  | None => _ ← modify (fun c => c <| login_scope := Some requested |>); mret true
  end.

Definition reset_session_scope_for_login : M unit := modify (fun c => c <| scope := no_scope |>).

(** ** Passwords *)

Definition verify_h1 (h1 : bytes) (c : Conn) : bool :=
  constant_time_eq (sha256_digest (h1 ++ as_bytes (challenge c))) (lr_password (lr c)).

Definition validate_password_plain (password : rstr) (c : Conn) : bool :=
  if bool_decide (password = []) then false
  else verify_h1 (sha256_digest (as_bytes password ++ as_bytes (salt c))) c.

Definition validate_password_storage (storage : rstr) (c : Conn) : bool :=
  if bool_decide (storage = []) then false
  else match decode_permanent_password_h1_from_storage storage with
       | Some h1 => verify_h1 h1 c
       | None => validate_password_plain storage c
       end.

Definition validate_preset_password_storage (storage salt : rstr) (c : Conn) : bool :=
  if bool_decide (salt = []) then validate_password_plain storage c
  else match decode_preset_password_h1_from_storage storage with
       | None => false
       | Some h1 => verify_h1 h1 c
       end.

(** The temporary password is renewed after ten wrong attempts in a row. *)
Definition check_update_temporary_password (e : Env) (success : bool) (w : World) : World :=
  if negb (temporary_enabled e) then w
  else if bool_decide (temporary_password w = []) then w
  else
    let failures :=
      if bool_decide (counted_password w = temporary_password w) then counted_failures w else 0 in
    let w := w <| counted_password := temporary_password w |> in
    if success then w <| counted_failures := 0 |>
    else
      let failures := failures + 1 in
      if failures <? MAX_CONSECUTIVE_FAILURES then w <| counted_failures := failures |>
      else w <| temporary_password := new_password e |> <| counted_password := new_password e |>
             <| counted_failures := 0 |>.

Definition set_conn_audit_primary_auth (a : ConnAuditPrimaryAuth) : M unit :=
  modify (fun c => c <| conn_audit_primary_auth := a |>).
Definition set_conn_audit_two_factor (a : ConnAuditTwoFactor) : M unit :=
  modify (fun c => c <| conn_audit_two_factor := a |>).

Definition session_key (c : Conn) : SessionKey :=
  (my_id (lr c), my_name (lr c), lr_session_id (lr c)).

Definition update_or_insert_session (now : Z) (key : SessionKey) (password : rstr) (second : bool)
    (w : World) : World :=
  let s := match sessions w !! key with
           | Some s => s <| random_password := password |> <| tfa := second |>
           | None => mkSession now password second
           end in
  w <| sessions ::= insert key s |>.

Definition set_session_2fa (now : Z) (key : SessionKey) (w : World) : World :=
  let s := match sessions w !! key with
           | Some s => s <| tfa := true |>
           | None => mkSession now [] true
           end in
  w <| sessions ::= insert key s |>.

(** The connection's own salt and challenge check the password; [local_storage] and
    [preset_storage] are pairs of a storage and its salt. *)
Definition permanent_password_ok (e : Env) (c : Conn) : bool :=
  let '(local, local_salt) := local_storage e in
  if negb (bool_decide (local = [])) then
    local_permanent_password_storage_is_usable_for_auth local local_salt
    && validate_password_storage local c
  else
    let '(hard, hard_salt) := preset_storage e in
    preset_permanent_password_storage_is_usable_for_auth hard hard_salt
    && validate_preset_password_storage hard hard_salt c.

Definition validate_password (e : Env) (allow_permanent_password : bool) : M bool :=
  c ← get;
  w ← get_world;
  if temporary_enabled e && validate_password_plain (temporary_password w) c then
    _ ← set_conn_audit_primary_auth TemporaryPassword;
    _ ← modify_world (update_or_insert_session (now_ms e) (session_key c) (temporary_password w) false);
    _ ← modify_world (check_update_temporary_password e true);
    mret true
  else if (permanent_enabled e || allow_permanent_password) && permanent_password_ok e c then
    _ ← set_conn_audit_primary_auth PermanentPassword;
    mret true
  else mret false.

Definition is_recent_session (e : Env) (second : bool) : M bool :=
  _ ← modify_world (fun w =>
        w <| sessions ::= filter (fun ks => now_ms e - last_recv_time ks.2 < SESSION_TIMEOUT) |>);
  c ← get;
  w ← get_world;
  match sessions w !! session_key c with
  | Some session =>
      if negb (bool_decide (lr_password (lr c) = []))
         && (if second then tfa session else validate_password_plain (random_password session) c)
      then _ ← (if second then set_conn_audit_two_factor Totp
                else set_conn_audit_primary_auth TemporaryPassword);
           mret true
      else mret false
  | None => mret false
  end.

(** ** The checks on a login request *)

Definition trusted_device (e : Env) (lr : LoginRequest) : bool :=
  match List.find (fun d => bool_decide (d_hwid d = hwid lr)) (trusted_devices e) with
  | Some d =>
      negb (d_outdated d) && bool_decide (d_id d = my_id lr) && bool_decide (d_name d = my_name lr)
      && bool_decide (d_platform d = my_platform lr)
  | None => false
  end.

Definition trusted_controller (e : Env) (c : Conn) (lr : LoginRequest) : bool :=
  TrustedControllers.verify_login (opt_trusted_controllers e) (id e) (challenge c) (my_id lr)
    (clanto_device_key lr) (clanto_device_sig lr).

(** The second factor is not asked of whom [f] recognises. *)
Definition bypass_2fa (f : Conn -> bool) : M unit :=
  c ← get;
  when (require_2fa c && f c)
    (_ ← set_conn_audit_two_factor TrustedDevice; modify (fun c => c <| require_2fa := false |>)).

Definition handle_login_request_without_validation (e : Env) (request : LoginRequest) : M unit :=
  _ ← modify (fun c => c <| lr := request |>);
  _ ← when (bool_decide (is_Some (options request)))
        (modify (fun c => c <| options_in_login := options request |>));
  _ ← bypass_2fa (fun _ => negb (bool_decide (hwid request = [])) && enable_trusted_devices e
                           && trusted_device e request);
  bypass_2fa (fun c => trusted_controller e c request).

Definition check_id_whitelist (e : Env) : M bool :=
  c ← get;
  w ← get_world;
  let '(m, ok, es) :=
    Buckets.check_id_whitelist (to_lowercase e) (failures2 w) (opt_id_whitelist e) (ip c)
      (my_id (lr c)) (now_ms e) in
  _ ← modify_world (fun w => w <| failures2 := m |>);
  _ ← tell es;
  mret ok.

Definition clanto_check_grant (e : Env) (request : LoginRequest) : M bool :=
  _ ← modify (fun c => c <| clanto_grant := None |>);
  w ← get_world;
  let '(d, h) := evaluate (enrolled e) (access_mode e) (sessions_blocked e) (clock e)
                   (lr_grant request) (host w) in
  _ ← modify_world (fun w => w <| host := h |>);
  match d with
  | Unmanaged => mret true
  | Grant info => _ ← modify (fun c => c <| clanto_grant := Some info |>); mret true
  | Refuse code message session_id nonce =>
      _ ← emit (Ack (ack session_id false code nonce));
      _ ← send_login_error (translate e message);
      mret false
  end.

Definition apply_id_permissions (e : Env) : M unit :=
  modify (fun c => c <| perms ::=
    Connection.apply_id_permissions (to_lowercase e) (from_json e) (permission e)
      (opt_id_whitelist e) (opt_id_permissions e) (require_watermark e)
      (allows <$> clanto_grant c) (my_id (lr c)) |>).

Definition profiled_permission (e : Env) (option : string) (profiled : bool) (c : Conn) : bool :=
  permission e (Str.lit option)
  && (bool_decide (Connection.id_profile (perms c) = []) || profiled).

Definition normalize_port_forward_target (host : rstr) (port : Z) : rstr :=
  let '(host, port) :=
    if bool_decide (host = Str.lit "RDP") && (port =? 0) then (Str.lit "localhost", 3389)
    else (host, port) in
  let host := if bool_decide (host = []) then Str.lit "localhost" else host in
  host ++ Str.lit ":" ++ Str.show_int port.

Definition refuse_login (text : rstr) : M bool := _ ← send_login_error text; mret false.

(** The match on the kind of session. *)
Definition set_session_scope (e : Env) (request : LoginRequest) : M bool :=
  c ← get;
  match union request with
  | Some (FileTransfer dir show_hidden) =>
      if negb (profiled_permission e "enable-file-transfer" (Connection.k_file (perms c)) c)
      then refuse_login (Str.lit "No permission of file transfer")
      else _ ← modify (fun c => c <| scope -> file_transfer := Some (dir, show_hidden) |>); mret true
  | Some ViewCamera =>
      if negb (profiled_permission e "enable-camera" (Connection.k_camera (perms c)) c)
      then refuse_login (Str.lit "No permission of viewing camera")
      else _ ← modify (fun c => c <| scope -> view_camera := true |>); mret true
  | Some (Terminal service_id) =>
      if negb (profiled_permission e "enable-terminal" (Connection.k_terminal (perms c)) c)
      then refuse_login (Str.lit "No permission of terminal")
      else if windows e && negb (bool_decide (os_username request = [])) && negb (is_installed e)
      then refuse_login (Str.lit "Supported only in the installed version.")
      else
        _ ← modify (fun c => c <| scope -> terminal := true |>
              <| scope -> terminal_persistent ::= fun p => default p (options_in_login c) |>
              <| terminal_service_id := service_id |>);
        mret true
  | Some (PortForward host port multiplex) =>
      if negb (profiled_permission e "enable-tunnel" (Connection.k_tunnel (perms c)) c)
      then refuse_login (Str.lit "No permission of IP tunneling")
      else
        _ ← modify (fun c =>
              c <| scope -> port_forward_address := normalize_port_forward_target host port |>);
        mret true
  | None | Some Unknown =>
      if in_privacy_mode e then refuse_login (Str.lit "Someone turns on privacy mode, exit")
      else mret true
  end.

(** ** A terminal's system user *)

Definition handle_administrator_check (e : Env) (username password : rstr) : result Token rstr :=
  match admin_check e username password with
  | Some true => Ok SelfUser
  | _ => Err TERMINAL_OS_LOGIN_FAILED_MSG
  end.

Definition handle_installed_user (e : Env) : result Token rstr :=
  match session_user e with
  | None => Err (Str.lit "Failed to get current session id.")
  | Some false => Err (Str.lit "Failed to get user token.")
  | Some true => Ok CurrentLogonUser
  end.

Definition fill_terminal_user_token (e : Env) (username password : rstr) : result Token rstr :=
  if negb (windows e) then Ok SelfUser
  else if negb (bool_decide (username = [])) then handle_administrator_check e username password
  else if is_prelogin e
  then Err (Str.lit "No active console user logged on, please connect and logon first.")
  else if is_installed e then handle_installed_user e
  else Ok SelfUser.

Definition has_service_token (t : Token) : bool :=
  match t with CurrentLogonUser => true | SelfUser => false end.

Definition try_start_cm_ipc : M unit :=
  c ← get;
  when (start_cm_ipc_para c)
    (_ ← emit StartCmIpc; modify (fun c => c <| start_cm_ipc_para := false |>)).

Definition try_start_cm (authorized : bool) : M unit := emit (ShowLogin authorized).

Definition update_failure_with_scope (e : Env) (failure : Buckets.entry) (time : Z) (remove : bool)
    (s : FailureScope) : M unit :=
  c ← get;
  modify_world (fun w =>
    let '(os, m) := Buckets.update_failure_with_scope (os_failures w) (failures0 w) (ip c) failure
                      time remove s (now_ms e) in
    w <| os_failures := os |> <| failures0 := m |>).

Definition check_failure_with_scope (e : Env) (s : FailureScope) : M (Buckets.entry * Z * bool) :=
  c ← get;
  w ← get_world;
  let '(os, (failure, time, res, es)) :=
    Buckets.check_failure_with_scope (os_failures w) (failures0 w) (ip c) s (now_ms e) in
  _ ← modify_world (fun w => w <| os_failures := os |>);
  _ ← tell es;
  mret (failure, time, res).

(** The second half, once the failure policy lets the attempt through. *)
Definition fill_and_check (e : Env) (os : bool) (failure : Buckets.entry) (time : Z) (user : rstr)
  : M (option bool) :=
  c ← get;
  if os && negb (os_login_gate e) then
    _ ← send_login_error (Str.lit "Please try 1 minute later");
    _ ← alarm TerminalOsLoginConcurrency;
    mret (Some false)
  else
    match fill_terminal_user_token e user (os_password (lr c)) with
    | Err msg =>
        _ ← when os (update_failure_with_scope e failure time false TerminalOsLogin);
        _ ← send_login_error msg;
        mret (Some false)
    | Ok token =>
        _ ← modify (fun c => c <| terminal_user_token := Some token |>);
        _ ← when os (update_failure_with_scope e failure time true TerminalOsLogin);
        match service_user e (terminal_service_id c) with
        | Some is_user =>
            if negb (Bool.eqb is_user (has_service_token token)) then
              _ ← send_login_error (Str.lit "Terminal service user mismatch detected.");
              mret (Some false)
            else _ ← when os try_start_cm_ipc; mret None
        | None => _ ← when os try_start_cm_ipc; mret None
        end
    end.

(** [Some keep_alive] ends the login there. *)
Definition prepare_terminal_login_for_authorization (e : Env) : M (option bool) :=
  c ← get;
  if negb (terminal (scope c)) || bool_decide (is_Some (terminal_user_token c)) then mret None
  else
    let user := Str.trim (os_username (lr c)) in
    if should_use_terminal_os_login_scope e (terminal (scope c)) user then
      r ← check_failure_with_scope e TerminalOsLogin;
      let '(failure, time, res) := r in
      if negb res then mret (Some false) else fill_and_check e true failure time user
    else fill_and_check e false Buckets.zero 0 user.

(** ** The authorisation *)

Definition connect_port_forward_if_needed (e : Env) : M bool :=
  c ← get;
  if bool_decide (is_Some (port_forward c)) then mret true
  else
    match union (lr c) with
    | Some (PortForward host port multiplex) =>
        if multiplex
        then _ ← modify (fun c => c <| port_forward := Some true |>); mret true
        else
          let addr := normalize_port_forward_target host port in
          _ ← modify (fun c => c <| scope -> port_forward_address := addr |>);
          if connect e addr
          then _ ← modify (fun c => c <| port_forward := Some false |>); mret true
          else
            let addr := if bool_decide (host = Str.lit "RDP") && (port =? 0)
                        then Str.lit "RDP" else addr in
            refuse_login (Str.lit "Failed to access remote " ++ addr
                          ++ Str.lit ". Please make sure it is reachable/open.")
    | _ => mret true
    end.

Definition normalize_conn_audit_auth_fields : M unit :=
  modify (fun c =>
    match conn_audit_primary_auth c with
    | Click | SwitchSides => c <| conn_audit_two_factor := NoTwoFactor |>
    | _ => c
    end).

(** The address's ID whitelist failures go, and the temporary password is renewed. *)
Definition authorize (e : Env) (code : rstr) : M unit :=
  _ ← modify (fun c => c <| session_code := Some code |> <| authorized := true |>);
  c ← get;
  _ ← (match clanto_grant c with
       | Some grant =>
           _ ← emit (Ack (ack (i_session_id grant) true [] (i_nonce grant)));
           emit (RegisterGrant grant)
       | None => mret tt
       end);
  _ ← modify_world (fun w =>
        w <| temporary_password := new_password e |>
          <| failures2 ::= fun m => Buckets.clear_failures m (Buckets.failure_keys (ip c)) |>);
  normalize_conn_audit_auth_fields.

(** Whether the connection is kept. *)
Definition send_logon_response_and_keep_alive (e : Env) : M bool :=
  c ← get;
  if authorized c then mret true
  else
    recent ← (if require_2fa c then is_recent_session e true else mret true);
    c ← get;
    if require_2fa c && negb recent && negb (from_switch c) then
      _ ← modify (fun c => c <| awaiting_2fa := true |>);
      _ ← send_login_error REQUIRE_2FA;
      mret true
    else
      _ ← modify (fun c => c <| awaiting_2fa := false |>);
      r ← prepare_terminal_login_for_authorization e;
      match r with
      | Some keep_alive => mret keep_alive
      | None =>
          connected ← connect_port_forward_if_needed e;
          if negb connected then mret false
          else
            match new_session_code e with
            | None => refuse_login (Str.lit "Session code generation failed")
            | Some code => _ ← authorize e code; mret true
            end
      end.

(** [send_logon_response_and_keep_alive], then the connection manager. *)
Definition logon (e : Env) : M bool :=
  keep ← send_logon_response_and_keep_alive e;
  if negb keep then mret false
  else
    c ← get;
    _ ← try_start_cm (authorized c);
    mret true.

(** ** The messages *)

Definition approves_by_click (e : Env) (allow_logon_screen_password : bool) : bool :=
  match approve_mode e with
  | ByClick => negb allow_logon_screen_password
  | Both => negb (has_valid_password e)
  | ByPassword => false
  end.

(** Asks the person at the PC; a terminal logs in with the system's user first. *)
Definition ask_user (e : Env) (request : LoginRequest) (tell_controller : bool) : M bool :=
  c ← get;
  r ← (if should_use_terminal_os_login_scope e (terminal (scope c)) (os_username request)
       then prepare_terminal_login_for_authorization e else mret None);
  match r with
  | Some keep_alive => mret keep_alive
  | None =>
      _ ← try_start_cm false;
      _ ← when (tell_controller && new_version request) (send_login_error LOGIN_MSG_NO_PASSWORD_ACCESS);
      mret true
  end.

Definition check_password (e : Env) (request : LoginRequest) (allow_logon_screen_password : bool)
  : M bool :=
  r ← check_failure_with_scope e Default;
  let '(failure, time, res) := r in
  if negb res then mret true
  else
    ok ← validate_password e allow_logon_screen_password;
    if negb ok then
      _ ← update_failure_with_scope e failure time false Default;
      _ ← modify_world (check_update_temporary_password e false);
      _ ← alarm PasswordWrong;
      _ ← send_login_error LOGIN_MSG_PASSWORD_WRONG;
      _ ← try_start_cm false;
      mret true
    else
      _ ← update_failure_with_scope e failure time true Default;
      logon e.

(** After the checks: the grant, the password or the person at the PC. *)
Definition primary_authorization (e : Env) (request : LoginRequest) : M bool :=
  let allow_logon_screen_password :=
    bool_decide (opt_logon_screen_password e = Str.lit "Y") && is_logon e in
  c ← get;
  let needs := i_needs <$> clanto_grant c in
  let needs_password := match needs with Some n => password n | None => false end in
  match needs with
  | Some (mkRequirements _ false true) => _ ← try_start_cm false; mret true
  | Some (mkRequirements _ false false) => _ ← set_conn_audit_primary_auth ClantoGrant; logon e
  | _ =>
      if negb needs_password && approves_by_click e allow_logon_screen_password
      then ask_user e request true
      else
        recent ← is_recent_session e false;
        if recent : bool then logon e
        else if bool_decide (lr_password request = []) then ask_user e request false
        else check_password e request allow_logon_screen_password
  end.

(** The checks in the order of the code; each sends its own refusal. *)
Definition check_login (e : Env) (request : LoginRequest) : M bool :=
  ok ← check_id_whitelist e;
  if negb ok then mret false
  else
    ok ← clanto_check_grant e request;
    if negb ok then mret false
    else
      _ ← apply_id_permissions e;
      match login_block e with
      | Some reason => refuse_login reason
      | None =>
          match posture e with
          | Some reason => _ ← alarm PostureRejected; refuse_login reason
          | None =>
              ok ← set_session_scope e request;
              if negb ok then mret false
              else if negb (is_direct_ip_access e (username request))
                      && negb (bool_decide (username request = id e))
              then refuse_login LOGIN_MSG_OFFLINE
              else
                c ← get;
                if windows e && terminal (scope c)
                   && bool_decide (Str.trim (os_username request) = []) && is_prelogin e
                then refuse_login
                       (Str.lit "No active console user logged on, please connect and logon first.")
                else mret true
          end
      end.

(** The scope and the checks. *)
Definition admit_login (e : Env) (request : LoginRequest) : M bool :=
  ok ← check_login_scope request;
  if negb ok then mret false
  else
    _ ← modify (fun c => c <| awaiting_2fa := false |>);
    _ ← handle_login_request_without_validation e request;
    _ ← reset_session_scope_for_login;
    check_login e request.

Definition on_login_request (e : Env) (request : LoginRequest) : M bool :=
  c ← get;
  if authorized c then mret true
  else
    ok ← admit_login e request;
    if negb ok then mret false
    else
      c ← get;
      _ ← when (negb (should_use_terminal_os_login_scope e (terminal (scope c)) (os_username request)))
            try_start_cm_ipc;
      primary_authorization e request.

Definition on_auth_2fa (e : Env) (code : rstr) (device : bytes) : M bool :=
  c ← get;
  if negb (awaiting_2fa c) then mret true
  else
    w ← get_world;
    let time := Buckets.minute_of (now_ms e) in
    let '(failure, res, es) := Buckets.check_failure (failures1 w) (ip c) time in
    _ ← tell es;
    if negb res then mret true
    else if negb (require_2fa c) then mret true
    else
      match totp_check e code with
      | None => mret true
      | Some true =>
          _ ← modify_world (fun w =>
                w <| failures1 ::= fun m => Buckets.update_failure m (ip c) failure time true |>);
          _ ← modify (fun c => c <| require_2fa := false |>);
          _ ← set_conn_audit_two_factor Totp;
          _ ← modify_world (set_session_2fa (now_ms e) (session_key c));
          keep ← logon e;
          if negb keep then mret false
          else
            _ ← when (negb (bool_decide (device = [])) && enable_trusted_devices e)
                  (emit (AddTrustedDevice device));
            mret true
      | Some false =>
          _ ← modify_world (fun w =>
                w <| failures1 ::= fun m => Buckets.update_failure m (ip c) failure time false |>);
          _ ← alarm TwoFactorWrong;
          _ ← send_login_error LOGIN_MSG_2FA_WRONG;
          mret true
      end.

(** [uuid] is the code that the peer sends, [None] when it is not one. *)
Definition on_switch_sides (e : Env) (uuid : option bytes) (request : option LoginRequest) : M bool :=
  match request with
  | None => mret true
  | Some request =>
      _ ← modify_world (fun w =>
            w <| switch_sides_uuid ::= filter (fun ku => now_ms e - ku.2.1 < SWITCH_SIDES_UUID_TTL) |>);
      w ← get_world;
      let uuid_old := switch_sides_uuid w !! my_id request in
      _ ← modify_world (fun w => w <| switch_sides_uuid ::= delete (my_id request) |>);
      match uuid, uuid_old with
      | Some uuid, Some (_, uuid_old) =>
          if negb (bool_decide (uuid = uuid_old)) then mret true
          else if bool_decide (is_Some (union request)) then refuse_login NOT_ALLOWED
          else
            _ ← reset_session_scope_for_login;
            _ ← handle_login_request_without_validation e request;
            ok ← check_id_whitelist e;
            if negb ok then mret false
            else
              _ ← apply_id_permissions e;
              _ ← modify (fun c => c <| from_switch := true |>);
              _ ← set_conn_audit_primary_auth SwitchSides;
              keep ← logon e;
              if negb keep then mret false else _ ← try_start_cm_ipc; mret true
      | _, _ => mret true
      end
  end.

(** ** The loop: messages of the peer, of the connection manager and of the clock *)

Inductive Event :=
| LoginRequested (request : LoginRequest)
| Auth2fa (code : rstr) (device : bytes)
| SwitchSidesResponse (uuid : option bytes) (request : option LoginRequest)
| PeerClose
| CmAuthorize
| CmClose
| Timeout.

Definition on_authorize (e : Env) : M bool :=
  c ← get;
  _ ← (match clanto_grant c with
       | Some grant => emit (Consent grant (Str.lit "granted"))
       | None => mret tt
       end);
  _ ← set_conn_audit_primary_auth Click;
  _ ← modify (fun c => c <| require_2fa := false |>);
  send_logon_response_and_keep_alive e.

Definition clanto_grant_user_denied : M unit :=
  c ← get;
  if authorized c then mret tt
  else
    match clanto_grant c with
    | Some grant =>
        _ ← emit (Consent grant (Str.lit "denied"));
        emit (Ack (ack (i_session_id grant) false (Str.lit "user_denied") (i_nonce grant)))
    | None => mret tt
    end.

(** Told to go, or past the deadline: neither happens once it is authorised. *)
Definition on_timeout : M bool :=
  c ← get;
  if authorized c then mret true
  else
    _ ← (match clanto_grant c with
         | Some grant =>
             when (confirm (i_needs grant))
               (_ ← emit (Consent grant (Str.lit "timeout"));
                emit (Ack (ack (i_session_id grant) false (Str.lit "consent_denied")
                             (i_nonce grant))))
         | None => mret tt
         end);
    mret false.

Definition handle (e : Env) (ev : Event) : M bool :=
  match ev with
  | LoginRequested request => on_login_request e request
  | Auth2fa code device => on_auth_2fa e code device
  | SwitchSidesResponse uuid request => on_switch_sides e uuid request
  | PeerClose => mret false
  | CmAuthorize => on_authorize e
  | CmClose => _ ← clanto_grant_user_denied; mret false
  | Timeout => on_timeout
  end.

(** Nothing comes from the connection manager before [try_start_cm_ipc] connects it. *)
Definition from_cm (ev : Event) : bool :=
  match ev with CmAuthorize | CmClose => true | _ => false end.

Definition live (ev : Event) (c : Conn) : bool :=
  negb (closed c) && negb (authorized c) && negb (from_cm ev && start_cm_ipc_para c).

(** One turn of the loop of an open connection that is not authorised yet; what
    follows the authorisation is not modelled here. *)
Definition turn (e : Env) (ev : Event) (s : St) : St :=
  if live ev (conn s) then
    let '(keep, s) := handle e ev s in
    if keep : bool then s else s <| conn -> closed := true |>
  else s.
End Login.
