(* ===== verification/LoginSafety.v ===== *)
(** * What the login of a connection guarantees

    Over the handlers of [ConnLogin]: the runs of one connection among others, what a
    login went through and what authorised it, and the theorems: a session is
    authorised only by a vetted login with the second factor, requests of one
    connection ask for the same session, a grant cannot be retried, the temporary
    password is renewed.  [LoginToy] has the samples. *)

From coqutil Require Import Datatypes.RecordSetters.
From S2P Require Import Prelude AccessHours IdPermissions LoginFailure TenantKeys TrustedControllers SessionGrant ConnLogin.
Import TriangleBracketNotations.

(** * Specification *)

Section Spec.
Context `{Crypto} `{GrantDecoders} `{KeyCodec} `{Passwords}.

(** A turn of this connection, or whatever the others do to the shared state. *)
Inductive Move :=
| Turn (e : Env) (ev : Event)
| Others (w : World).

Definition move (m : Move) (s : St) : St :=
  match m with Turn e ev => turn e ev s | Others w => s <| world := w |> end.

Definition run (moves : list Move) (s : St) : St := foldl (fun s m => move m s) s moves.

(** The turns that the loop made, with the state that each found. *)
Fixpoint trace (moves : list Move) (s : St) : list (Env * Event * St) :=
  match moves with
  | [] => []
  | m :: moves =>
      match m with
      | Turn e ev => if live ev (conn s) then [(e, ev, s)] else []
      | Others _ => []
      end ++ trace moves (move m s)
  end.

Definition fresh (s : St) : Prop :=
  authorized (conn s) = false /\ awaiting_2fa (conn s) = false /\ from_switch (conn s) = false
  /\ start_cm_ipc_para (conn s) = true /\ closed (conn s) = false /\ login_scope (conn s) = None.

(** ** What a login went through *)

Definition whitelisted (e : Env) (s : St) (request : LoginRequest) : Prop :=
  (Buckets.check_id_whitelist (to_lowercase e) (failures2 (world s)) (opt_id_whitelist e)
     (ip (conn s)) (my_id request) (now_ms e)).1.2 = true.

Definition decision (e : Env) (s : St) (request : LoginRequest) : Decision :=
  (evaluate (enrolled e) (access_mode e) (sessions_blocked e) (clock e) (lr_grant request)
     (host (world s))).1.

Definition not_refused (d : Decision) : Prop :=
  match d with Refuse _ _ _ _ => False | _ => True end.

Definition granted (d : Decision) : option GrantInfo :=
  match d with Grant info => Some info | _ => None end.

(** The permissions that the options, the profile and the grant leave the request. *)
Definition login_perms (e : Env) (s : St) (request : LoginRequest) : Perms :=
  Connection.apply_id_permissions (to_lowercase e) (from_json e) (permission e)
    (opt_id_whitelist e) (opt_id_permissions e) (require_watermark e)
    (allows <$> granted (decision e s request)) (my_id request) (perms (conn s)).

(** What the kind of session asks for: the option of the kind, the permission of the
    controller's profile when it has one, and for a terminal on Windows an installed
    program to log a user in and somebody logged on to run it for; the desktop is
    refused while the privacy mode is on. *)
Definition kind_admitted (e : Env) (p : Perms) (request : LoginRequest) : Prop :=
  let may option profiled :=
    permission e (Str.lit option) = true /\ (Connection.id_profile p = [] \/ profiled = true) in
  match union request with
  | Some (FileTransfer _ _) => may "enable-file-transfer"%string (Connection.k_file p)
  | Some ViewCamera => may "enable-camera"%string (Connection.k_camera p)
  | Some (Terminal _) =>
      may "enable-terminal"%string (Connection.k_terminal p)
      /\ (windows e = true -> os_username request <> [] -> is_installed e = true)
      /\ (windows e = true -> Str.trim (os_username request) = [] -> is_prelogin e = false)
  | Some (PortForward _ _ _) => may "enable-tunnel"%string (Connection.k_tunnel p)
  | None | Some Unknown => in_privacy_mode e = false
  end.

(** The checks of [check_login], all of them. *)
Definition passes_checks (e : Env) (s : St) (request : LoginRequest) : Prop :=
  whitelisted e s request
  /\ not_refused (decision e s request)
  /\ login_block e = None /\ posture e = None
  /\ kind_admitted e (login_perms e s request) request
  /\ (is_direct_ip_access e (username request) = true \/ username request = id e).

(** The session that the connection asked for first, if it had asked for one. *)
Definition asks_the_same (s : St) (request : LoginRequest) : Prop :=
  login_scope (conn s) = None \/ login_scope (conn s) = Some (login_scope_digest request).

Definition vetted (e : Env) (s : St) (request : LoginRequest) : Prop :=
  asks_the_same s request /\ passes_checks e s request.

(** ** What authorised it *)

Definition asked (s : St) (request : LoginRequest) : Conn := (conn s) <| lr := request |>.

Definition recent (e : Env) (s : St) (c : Conn) (session : Session) : Prop :=
  sessions (world s) !! session_key c = Some session
  /\ now_ms e - last_recv_time session < SESSION_TIMEOUT /\ lr_password (lr c) <> [].

(** The grant alone, the password of a recent session, the temporary or the permanent
    one. *)
Inductive authority (e : Env) (s : St) (request : LoginRequest) : Prop :=
| by_grant info :
    decision e s request = Grant info ->
    password (i_needs info) = false -> confirm (i_needs info) = false -> authority e s request
| by_recent_session session :
    recent e s (asked s request) session ->
    validate_password_plain (random_password session) (asked s request) = true ->
    authority e s request
| by_password allow :
    (Buckets.check_failure (failures0 (world s)) (ip (conn s)) (Buckets.minute_of (now_ms e))).1.2 = true ->
    temporary_enabled e = true
    /\ validate_password_plain (temporary_password (world s)) (asked s request) = true
    \/ (permanent_enabled e = true \/ allow = true
         /\ opt_logon_screen_password e = Str.lit "Y" /\ is_logon e = true)
       /\ permanent_password_ok e (asked s request) = true ->
    authority e s request.

Definition is_login (t : Env * Event * St) : Prop :=
  exists request, t.1.2 = LoginRequested request.

Definition is_vetted (t : Env * Event * St) : Prop :=
  forall request, t.1.2 = LoginRequested request -> vetted t.1.1 t.2 request.

Definition has_authority (t : Env * Event * St) : Prop :=
  exists request, t.1.2 = LoginRequested request /\ authority t.1.1 t.2 request.

(** A right code, a trusted device or controller, or a recent session that had it. *)
Definition second_factor (t : Env * Event * St) : Prop :=
  (exists code device, t.1.2 = Auth2fa code device /\ totp_check t.1.1 code = Some true)
  \/ exists request, t.1.2 = LoginRequested request
     /\ ((enable_trusted_devices t.1.1 = true /\ trusted_device t.1.1 request = true)
         \/ trusted_controller t.1.1 (conn t.2) request = true
         \/ exists session, recent t.1.1 t.2 (asked t.2 request) session /\ tfa session = true).

Definition clicked (t : Env * Event * St) : Prop := t.1.2 = CmAuthorize.

(** The peer shows the code that this PC gave it to switch sides. *)
Definition switched (t : Env * Event * St) : Prop :=
  exists uuid request t0,
    t.1.2 = SwitchSidesResponse (Some uuid) (Some request) /\ union request = None
    /\ switch_sides_uuid (world t.2) !! my_id request = Some (t0, uuid)
    /\ now_ms t.1.1 - t0 < SWITCH_SIDES_UUID_TTL /\ whitelisted t.1.1 t.2 request.
End Spec.

(** * Theorems *)

(** ** Handlers, piece by piece *)

(** A handler leaves what [f] reads as it is. *)
Definition keeps {A B} (f : St -> B) (m : M A) : Prop := forall s, f (m s).2 = f s.

Lemma keeps_ret {A B} (f : St -> B) (x : A) : keeps f (mret x).
Proof. by intros s. Qed.

Lemma keeps_bind {A C B} (f : St -> B) (m : M A) (k : A -> M C) :
  keeps f m -> (forall x, keeps f (k x)) -> keeps f (m ≫= k).
Proof.
  intros Hm Hk s. unfold mbind, M_bind. specialize (Hm s). destruct (m s) as [x s1]. cbn in Hm.
  by rewrite (Hk x s1).
Qed.

Lemma keeps_when {B} (f : St -> B) b m : keeps f m -> keeps f (when b m).
Proof. destruct b; [done|]. intros _. apply keeps_ret. Qed.

Lemma keeps_if {A B} (f : St -> B) (b : bool) (m m' : M A) :
  keeps f m -> keeps f m' -> keeps f (if b then m else m').
Proof. by destruct b. Qed.

Lemma keeps_modify {B} (f : St -> B) g :
  (forall s, f (s <| conn ::= g |>) = f s) -> keeps f (modify g).
Proof. intros Hf s. apply Hf. Qed.

Lemma keeps_modify_world {B} (f : St -> B) g :
  (forall s, f (s <| world ::= g |>) = f s) -> keeps f (modify_world g).
Proof. intros Hf s. apply Hf. Qed.

Lemma keeps_emit {B} (f : St -> B) es :
  (forall s es, f (s <| out := es |>) = f s) -> keeps f (emit_all es).
Proof. intros Hf s. apply Hf. Qed.

Lemma keeps_get {B} (f : St -> B) : keeps f get.
Proof. by intros s. Qed.
Lemma keeps_get_world {B} (f : St -> B) : keeps f get_world.
Proof. by intros s. Qed.

(** Decomposes a handler whose parts keep the fields. *)
Ltac keeps_step :=
  first
    [ apply keeps_ret | apply keeps_get | apply keeps_get_world
    | apply keeps_bind; [|intros ?]
    | apply keeps_when
    | apply keeps_modify; reflexivity
    | apply keeps_modify_world; reflexivity
    | apply keeps_emit; reflexivity
    | match goal with
      | |- keeps _ (if ?b then _ else _) => apply keeps_if
      | |- keeps _ (match ?x with _ => _ end) => destruct x
      | |- keeps _ (emit _) => intros ?; reflexivity
      end ].
Ltac keeps_tac := repeat keeps_step.

Section Proofs.
Context `{Crypto} `{GrantDecoders} `{KeyCodec} `{Passwords}.

(** What the checks on a request leave as it is. *)
Definition untouched (s : St) :=
  (authorized (conn s), require_2fa (conn s), awaiting_2fa (conn s), from_switch (conn s),
   closed (conn s), start_cm_ipc_para (conn s), login_scope (conn s), lr (conn s),
   (ip (conn s), challenge (conn s), salt (conn s)),
   (sessions (world s), temporary_password (world s), failures0 (world s), os_failures (world s))).

Lemma check_id_whitelist_keeps e : keeps untouched (check_id_whitelist e).
Proof. unfold check_id_whitelist, tell. keeps_tac. Qed.

Lemma clanto_check_grant_keeps e request : keeps untouched (clanto_check_grant e request).
Proof. unfold clanto_check_grant, send_login_error, tell. keeps_tac. Qed.

Lemma set_session_scope_keeps e request : keeps untouched (set_session_scope e request).
Proof. unfold set_session_scope, refuse_login, send_login_error, tell. keeps_tac. Qed.

Lemma check_login_keeps e request : keeps untouched (check_login e request).
Proof.
  unfold check_login, apply_id_permissions, refuse_login, alarm, send_login_error, tell.
  repeat first [ apply check_id_whitelist_keeps | apply clanto_check_grant_keeps
               | apply set_session_scope_keeps | keeps_step ].
Qed.

Lemma check_id_whitelist_true e s :
  (check_id_whitelist e s).1 = true -> whitelisted e s (lr (conn s)).
Proof.
  unfold check_id_whitelist, whitelisted, mbind, M_bind, get, get_world. cbn.
  destruct (Buckets.check_id_whitelist _ _ _ _ _ _) as [[m ok] es]. done.
Qed.

Lemma bind_eq {A B} (m : M A) (k : A -> M B) s : (m ≫= k) s = k (m s).1 (m s).2.
Proof. unfold mbind, M_bind. by destruct (m s). Qed.

Lemma check_id_whitelist_host e s : host (world (check_id_whitelist e s).2) = host (world s).
Proof.
  unfold check_id_whitelist, mbind, M_bind, get, get_world. cbn.
  by destruct (Buckets.check_id_whitelist _ _ _ _ _ _) as [[m ok] es].
Qed.

Lemma clanto_check_grant_decision e request s :
  ((clanto_check_grant e request s).1 = true <-> not_refused (decision e s request))
  /\ clanto_grant (conn (clanto_check_grant e request s).2) = granted (decision e s request).
Proof.
  unfold clanto_check_grant, decision, mbind, M_bind, get_world, modify. cbn.
  destruct (evaluate _ _ _ _ _ _) as [[|code message sid nonce|info] h]; cbn; by split.
Qed.

Lemma profiled_permission_true e option profiled c :
  profiled_permission e option profiled c = true ->
  permission e (Str.lit option) = true
  /\ (Connection.id_profile (perms c) = [] \/ profiled = true).
Proof.
  unfold profiled_permission. intros [? Hp]%andb_true_iff. split; [done|].
  apply orb_true_iff in Hp as [Hp|Hp]; [left; by apply bool_decide_eq_true in Hp|by right].
Qed.

(** The kind is admitted, but for who is logged on, which is looked at later. *)
Lemma set_session_scope_true e request s s' :
  set_session_scope e request s = (true, s') ->
  (windows e && terminal (scope (conn s')) && bool_decide (Str.trim (os_username request) = [])
   && is_prelogin e = false) ->
  kind_admitted e (perms (conn s)) request.
Proof.
  unfold set_session_scope, kind_admitted, refuse_login, mbind, M_bind, get, modify, mret, M_ret.
  cbv zeta. destruct (union request) as [[dir hidden| |service|h p mx|]|]; cbn [fst snd];
    try (destruct (in_privacy_mode e); by intros [= <-]);
    (destruct (profiled_permission e _ _ _) eqn:Ep; cbn [negb]; [|done]);
    apply profiled_permission_true in Ep; try done.
  destruct (windows e); cbn [andb]; [|intros _ _; split; [exact Ep|by split]].
  intros Hs Hpre. split; [done|]. split; intros _ Hu.
  - rewrite bool_decide_eq_false_2 in Hs by done. by destruct (is_installed e).
  - destruct (negb _ && negb _); [done|]. injection Hs as <-. cbn in Hpre.
    rewrite bool_decide_eq_true_2 in Hpre by done. exact Hpre.
Qed.

Lemma set_session_scope_grant e request s :
  clanto_grant (conn (set_session_scope e request s).2) = clanto_grant (conn s).
Proof.
  assert (keeps (fun s => clanto_grant (conn s)) (set_session_scope e request)) as Hk;
    [|apply Hk].
  unfold set_session_scope, refuse_login, send_login_error, tell. keeps_tac.
Qed.

(** The permissions of a login owe nothing to those of before. *)
Lemma perms_anew low from_json may wl json wm grant id p p' :
  Connection.apply_id_permissions low from_json may wl json wm grant id p
  = Connection.apply_id_permissions low from_json may wl json wm grant id p'.
Proof. reflexivity. Qed.

Lemma apply_id_permissions_perms e s :
  perms (conn (apply_id_permissions e s).2)
  = Connection.apply_id_permissions (to_lowercase e) (from_json e) (permission e)
      (opt_id_whitelist e) (opt_id_permissions e) (require_watermark e)
      (allows <$> clanto_grant (conn s)) (my_id (lr (conn s))) (perms (conn s)).
Proof. reflexivity. Qed.

(** The steps of [check_login], each as long as the one before lets the login go on. *)
Lemma check_login_spec e request s s' :
  lr (conn s) = request -> check_login e request s = (true, s') ->
  passes_checks e s request /\ clanto_grant (conn s') = granted (decision e s request).
Proof.
  intros Hlr. unfold check_login. rewrite bind_eq.
  pose proof (check_id_whitelist_true e s) as Hw. pose proof (check_id_whitelist_host e s) as Hh.
  destruct (check_id_whitelist e s) as [[|] s1] eqn:Ew; cbn [fst snd negb] in *; [|done].
  rewrite bind_eq. pose proof (check_id_whitelist_keeps e s) as Hu1. rewrite Ew in Hu1.
  pose proof (clanto_check_grant_keeps e request s1) as Hu2.
  pose proof (clanto_check_grant_decision e request s1) as [Hd Hg].
  assert (decision e s1 request = decision e s request) as Ed by (unfold decision; by rewrite Hh).
  rewrite Ed in Hd, Hg.
  destruct (clanto_check_grant e request s1) as [[|] s2]; cbn [fst snd negb] in *; [|done].
  assert (lr (conn s2) = request) as Hl2 by (unfold untouched in Hu1, Hu2; cbn in Hu1; congruence).
  rewrite bind_eq. pose proof (apply_id_permissions_perms e s2) as Hp.
  set (s3 := (apply_id_permissions e s2).2) in *.
  destruct (login_block e) eqn:El; [done|]. destruct (posture e) eqn:Ep; [done|].
  rewrite bind_eq. pose proof (fun s' => set_session_scope_true e request s3 s') as Hs.
  pose proof (set_session_scope_grant e request s3) as Hsg.
  destruct (set_session_scope e request s3) as [[|] s4]; cbn [fst snd negb] in *; [|done].
  match goal with |- context [if ?b then refuse_login LOGIN_MSG_OFFLINE else _] => destruct b eqn:Eid end;
    [done|].
  rewrite bind_eq. match goal with |- context [if ?b then _ else _] => destruct b eqn:Epre end; [done|].
  intros [= <-]. rewrite Hlr in Hw. split.
  - refine (conj (Hw eq_refl) (conj (proj1 Hd eq_refl) (conj El (conj Ep (conj _ _))))).
    + unfold login_perms. rewrite <- Hg, <- Hl2, (perms_anew _ _ _ _ _ _ _ _ _ (perms (conn s2))), <- Hp, Hl2.
      by apply (Hs s4).
    + apply andb_false_iff in Eid as [Eid|Eid]; apply negb_false_iff in Eid; [by left|right].
      by apply bool_decide_eq_true in Eid.
  - transitivity (clanto_grant (conn s4)); [done|]. by rewrite Hsg, <- Hg.
Qed.

(** ** The authorisation *)

Lemma is_recent_session_true e second s s' :
  is_recent_session e second s = (true, s') ->
  exists session, recent e s (conn s) session
    /\ if second then tfa session = true
       else validate_password_plain (random_password session) (conn s) = true.
Proof.
  unfold is_recent_session. rewrite !bind_eq. cbn.
  match goal with |- context [match ?m with Some _ => _ | None => _ end] => destruct m as [session|] eqn:E end;
    [|done].
  apply map_lookup_filter_Some in E as [Hs Ht]. cbn in Hs, Ht.
  destruct (negb _ && _) eqn:Eb; [|done]. intros _. apply andb_true_iff in Eb as [Hp Eb].
  apply negb_true_iff, bool_decide_eq_false in Hp.
  exists session. split; [done|]. by destruct second.
Qed.

(** Who is in, and what a login and its second factor left. *)
Definition gate (s : St) :=
  (authorized (conn s), awaiting_2fa (conn s), closed (conn s), require_2fa (conn s),
   from_switch (conn s), lr (conn s)).

Lemma gate_parts s s' :
  gate s = gate s' ->
  authorized (conn s) = authorized (conn s') /\ awaiting_2fa (conn s) = awaiting_2fa (conn s')
  /\ closed (conn s) = closed (conn s') /\ require_2fa (conn s) = require_2fa (conn s')
  /\ from_switch (conn s) = from_switch (conn s') /\ lr (conn s) = lr (conn s').
Proof. unfold gate. intros Hg. by injection Hg as ? ? ? ? ? ?. Qed.

Lemma prepare_terminal_keeps e : keeps gate (prepare_terminal_login_for_authorization e).
Proof.
  unfold prepare_terminal_login_for_authorization, check_failure_with_scope, fill_and_check,
    update_failure_with_scope, try_start_cm_ipc, alarm, send_login_error, tell.
  keeps_tac.
Qed.

Lemma is_recent_session_keeps e second : keeps gate (is_recent_session e second).
Proof. unfold is_recent_session, set_conn_audit_two_factor, set_conn_audit_primary_auth. keeps_tac. Qed.

Lemma ask_user_keeps e request b : keeps gate (ask_user e request b).
Proof.
  unfold ask_user, try_start_cm, send_login_error, tell.
  repeat first [apply prepare_terminal_keeps | keeps_step].
Qed.

Lemma connect_keeps e : keeps gate (connect_port_forward_if_needed e).
Proof. unfold connect_port_forward_if_needed, refuse_login, send_login_error, tell. keeps_tac. Qed.

(** The fields but the two that the authorisation writes. *)
Definition factors (s : St) := (closed (conn s), require_2fa (conn s), from_switch (conn s), lr (conn s)).

Lemma factors_parts s s' :
  factors s = factors s' ->
  closed (conn s) = closed (conn s') /\ require_2fa (conn s) = require_2fa (conn s')
  /\ from_switch (conn s) = from_switch (conn s') /\ lr (conn s) = lr (conn s').
Proof. unfold factors. intros Hf. by injection Hf as ? ? ? ?. Qed.

Lemma gate_factors {A} (m : M A) : keeps gate m -> keeps factors m.
Proof. intros Hm s. specialize (Hm s). unfold gate, factors in *. congruence. Qed.

Lemma authorize_keeps e code : keeps factors (authorize e code).
Proof.
  unfold authorize, normalize_conn_audit_auth_fields. keeps_tac. apply keeps_modify.
  intros [[] w o]. unfold factors. cbn. by case_match.
Qed.

Lemma send_logon_keeps e : keeps factors (send_logon_response_and_keep_alive e).
Proof.
  unfold send_logon_response_and_keep_alive, refuse_login, send_login_error, tell.
  repeat first [ apply authorize_keeps | apply gate_factors, is_recent_session_keeps
               | apply gate_factors, prepare_terminal_keeps | apply gate_factors, connect_keeps
               | keeps_step ].
Qed.

Lemma logon_keeps e : keeps factors (logon e).
Proof.
  unfold logon, try_start_cm. repeat first [apply send_logon_keeps | keeps_step].
Qed.

(** The second factor of this host is not asked for. *)
Definition past_second_factor (e : Env) (s : St) : Prop :=
  require_2fa (conn s) = false \/ from_switch (conn s) = true
  \/ exists session, recent e s (conn s) session /\ tfa session = true.

Lemma send_logon_spec e s keep s' :
  authorized (conn s) = false -> send_logon_response_and_keep_alive e s = (keep, s') ->
  authorized (conn s') = true ->
  keep = true /\ past_second_factor e s.
Proof.
  intros Ha. unfold send_logon_response_and_keep_alive. rewrite bind_eq. cbn [get fst snd].
  rewrite Ha, bind_eq. unfold past_second_factor.
  pose proof (is_recent_session_keeps e true s) as Hk.
  pose proof (is_recent_session_true e true s) as Ht.
  set (m := if require_2fa (conn s) then is_recent_session e true else mret true).
  assert (gate (m s).2 = gate s /\ (require_2fa (conn s) = true -> (m s).1 = true ->
            exists session, recent e s (conn s) session /\ tfa session = true)) as [Hg Hrec].
  { unfold m. destruct (require_2fa (conn s)); [|done]. split; [done|]. intros _ Hr.
    destruct (is_recent_session e true s) as [r sr]. cbn in Hr. subst r. by apply (Ht sr). }
  destruct (m s) as [r s1]. cbn [fst snd] in *. rewrite bind_eq. cbn [get fst snd].
  apply gate_parts in Hg as (Ha1 & Hw1 & Hc1 & Hr1 & Hf1 & Hl1). rewrite Hr1, Hf1.
  destruct (require_2fa (conn s) && negb r && negb (from_switch (conn s))) eqn:Eb.
  { intros [= _ <-] Hx. change (authorized (conn s1) = true) in Hx. congruence. }
  assert (require_2fa (conn s) = false \/ from_switch (conn s) = true
          \/ exists session, recent e s (conn s) session /\ tfa session = true) as Hpast.
  { destruct (require_2fa (conn s)); [|by left]. right. destruct r; [right; by apply Hrec|left].
    by destruct (from_switch (conn s)). }
  rewrite bind_eq. set (s2 := (modify _ s1).2). rewrite bind_eq.
  assert (authorized (conn s2) = false) as Hs2
    by (transitivity (authorized (conn s1)); [done|congruence]).
  pose proof (prepare_terminal_keeps e s2) as Hp.
  destruct (prepare_terminal_login_for_authorization e s2) as [[keep2|] s3]; cbn [fst snd] in *.
  { intros [= _ <-]. apply gate_parts in Hp as [Hp _]. congruence. }
  rewrite bind_eq. pose proof (connect_keeps e s3) as Hc.
  destruct (connect_port_forward_if_needed e s3) as [[|] s4]; cbn [fst snd negb] in *.
  - destruct (new_session_code e) as [code|].
    + rewrite bind_eq. cbn [mret M_ret]. intros [= <- _] _. by split.
    + intros [= _ <-] Hx. apply gate_parts in Hp as [Hp _]. apply gate_parts in Hc as [Hc _].
      change (authorized (conn s4) = true) in Hx. congruence.
  - intros [= _ <-]. apply gate_parts in Hp as [Hp _]. apply gate_parts in Hc as [Hc _]. congruence.
Qed.

Lemma logon_spec e s keep s' :
  authorized (conn s) = false -> logon e s = (keep, s') -> authorized (conn s') = true ->
  keep = true /\ past_second_factor e s.
Proof.
  intros Ha. unfold logon. rewrite bind_eq. pose proof (send_logon_spec e s) as Hs.
  destruct (send_logon_response_and_keep_alive e s) as [k s1]. cbn [fst snd].
  destruct k; cbn [negb].
  - rewrite !bind_eq. cbn. intros [= <- <-] Ht. by apply (Hs true s1).
  - intros [= <- <-] Ht. by apply (Hs false s1).
Qed.

(** ** A login request *)

Lemma check_failure_default e s :
  check_failure_with_scope e Default s
  = (let '(f, r, es) := Buckets.check_failure (failures0 (world s)) (ip (conn s)) (Buckets.minute_of (now_ms e)) in
     let s := s <| world ::= fun w => w <| os_failures := os_failures w |> |>
                <| out ::= fun o => o ++ (Tell <$> es) |> in
     (f, Buckets.minute_of (now_ms e), r, s)).
Proof.
  unfold check_failure_with_scope. rewrite !bind_eq. cbn [get get_world fst snd].
  unfold Buckets.check_failure_with_scope.
  destruct (Buckets.check_failure _ _ _) as [[f r] es]. by destruct s as [c [] o].
Qed.

Lemma validate_password_true e allow s s' :
  validate_password e allow s = (true, s') ->
  (temporary_enabled e = true /\ validate_password_plain (temporary_password (world s)) (conn s) = true)
  \/ ((permanent_enabled e = true \/ allow = true) /\ permanent_password_ok e (conn s) = true).
Proof.
  unfold validate_password. rewrite !bind_eq. cbn [get get_world fst snd].
  destruct (temporary_enabled e && _) eqn:Et.
  { intros _. left. by apply andb_true_iff in Et. }
  destruct ((permanent_enabled e || allow) && _) eqn:Ep; [|done].
  intros _. right. apply andb_true_iff in Ep as [Ep ?]. by apply orb_true_iff in Ep.
Qed.

Lemma validate_password_keeps e allow : keeps gate (validate_password e allow).
Proof. unfold validate_password, set_conn_audit_primary_auth. keeps_tac. Qed.

Lemma update_failure_keeps e f t b sc : keeps gate (update_failure_with_scope e f t b sc).
Proof. unfold update_failure_with_scope. keeps_tac. Qed.

(** Someone is in, or was asked for the second factor. *)
Definition passed (s : St) : Prop := authorized (conn s) = true \/ awaiting_2fa (conn s) = true.

(** What leads to the authorisation leaves it to [logon], once there is an authority. *)
Definition leads (P : Prop) (e : Env) (s : St) (r : bool * St) : Prop :=
  factors r.2 = factors s
  /\ (passed r.2 -> P)
  /\ (authorized (conn r.2) = true -> r.1 = true /\ past_second_factor e s).

Lemma leads_keeps (P : Prop) e (m : M bool) s :
  ~ passed s -> keeps gate m -> leads P e s (m s).
Proof.
  intros Hn Hk. specialize (Hk s). pose proof Hk as Hg. apply gate_parts in Hg as (Ha & Hw & _).
  unfold leads, passed in *. split; [|split].
  - unfold gate, factors in *. congruence.
  - rewrite Ha, Hw. tauto.
  - rewrite Ha. tauto.
Qed.

Lemma leads_logon (P : Prop) e s : ~ passed s -> P -> leads P e s (logon e s).
Proof.
  intros Hn HP. split; [apply logon_keeps|]. split; [done|].
  pose proof (logon_spec e s) as Hl. destruct (logon e s) as [k s']. intros Ha. apply (Hl k s'); [|done|done].
  destruct (authorized (conn s)) eqn:E; [|done]. destruct Hn. by left.
Qed.

(** The state may change on the way in what the second factor does not read. *)
Lemma leads_from (P : Prop) e s s1 r :
  gate s1 = gate s -> (past_second_factor e s1 -> past_second_factor e s) ->
  leads P e s1 r -> leads P e s r.
Proof.
  intros Hg Hp (Hf & Hpass & Hlog). split; [unfold gate, factors in *; congruence|]. split; [done|].
  intros Ha. destruct (Hlog Ha). auto.
Qed.

Lemma past_same e s s1 :
  gate s1 = gate s ->
  (forall k session, sessions (world s1) !! k = Some session -> tfa session = true ->
     sessions (world s) !! k = Some session) ->
  past_second_factor e s1 -> past_second_factor e s.
Proof.
  intros (_ & _ & _ & Er & Ef & El)%gate_parts Hs. unfold past_second_factor, recent, session_key.
  rewrite Er, Ef, El. intros [?|[?|(session & (? & ? & ?) & ?)]]; auto. right. right.
  exists session. auto.
Qed.

Lemma passed_gate s s1 : gate s1 = gate s -> ~ passed s -> ~ passed s1.
Proof. intros (Ea & Ew & _)%gate_parts. unfold passed. by rewrite Ea, Ew. Qed.

Lemma is_recent_session_shrinks e second s k session :
  sessions (world (is_recent_session e second s).2) !! k = Some session ->
  sessions (world s) !! k = Some session.
Proof.
  destruct s as [c [f0 f1 f2 os h ss tp cp cf sw] o]. unfold is_recent_session. rewrite !bind_eq. cbn.
  match goal with |- context [match ?m with Some _ => _ | None => _ end] =>
    destruct m as [x|]; [destruct (_ && _); [destruct second|]|] end; cbn;
    intros Hf; by apply map_lookup_filter_Some in Hf as [? _].
Qed.

Lemma is_recent_session_others e second :
  keeps (fun s => (temporary_password (world s), failures0 (world s), ip (conn s), challenge (conn s), salt (conn s)))
    (is_recent_session e second).
Proof. unfold is_recent_session, set_conn_audit_two_factor, set_conn_audit_primary_auth. keeps_tac. Qed.

(** A password is checked against the parts of the connection that stay. *)
Lemma password_same c c' p :
  lr c = lr c' -> challenge c = challenge c' -> salt c = salt c' ->
  validate_password_plain p c = validate_password_plain p c'.
Proof. intros El Ec Es. unfold validate_password_plain, verify_h1. by rewrite El, Ec, Es. Qed.

Lemma permanent_same e c c' :
  lr c = lr c' -> challenge c = challenge c' -> salt c = salt c' ->
  permanent_password_ok e c = permanent_password_ok e c'.
Proof.
  intros El Ec Es. unfold permanent_password_ok, validate_preset_password_storage,
    validate_password_storage, validate_password_plain, verify_h1. by rewrite El, Ec, Es.
Qed.

Lemma leads_still (P : Prop) e s r : ~ passed s -> gate r.2 = gate s -> leads P e s r.
Proof.
  intros Hn Hg. pose proof Hg as (Ha & Hw & _)%gate_parts. unfold leads, passed in *.
  rewrite Ha, Hw. split; [unfold gate, factors in *; congruence|tauto].
Qed.

Lemma validate_password_sessions e allow s k session :
  sessions (world (validate_password e allow s).2) !! k = Some session -> tfa session = true ->
  sessions (world s) !! k = Some session.
Proof.
  destruct s as [c [f0 f1 f2 os h ss tp cp cf sw] o]. unfold validate_password. rewrite !bind_eq.
  cbn [get get_world fst snd world]. destruct (temporary_enabled e && _); cycle 1.
  { destruct (_ && _); done. }
  rewrite !bind_eq. unfold check_update_temporary_password, modify_world. cbn.
  intros Hs Ht. assert (<[session_key c := match ss !! session_key c with
      | Some s => mkSession (last_recv_time s) tp false | None => mkSession (now_ms e) tp false end]> ss
      !! k = Some session) as Hs'.
  { revert Hs. cbn. repeat case_match; cbn; intros Hs; exact Hs. }
  destruct (decide (session_key c = k)) as [<-|Hne].
  - rewrite lookup_insert_eq in Hs'. injection Hs' as <-. by destruct (ss !! _).
  - by rewrite lookup_insert_ne in Hs' by done.
Qed.

Lemma check_password_leads e request allow s :
  ~ passed s ->
  leads ((Buckets.check_failure (failures0 (world s)) (ip (conn s)) (Buckets.minute_of (now_ms e))).1.2 = true
         /\ (temporary_enabled e = true
             /\ validate_password_plain (temporary_password (world s)) (conn s) = true
             \/ (permanent_enabled e = true \/ allow = true) /\ permanent_password_ok e (conn s) = true))
    e s (check_password e request allow s).
Proof.
  intros Hn. unfold check_password. rewrite bind_eq, check_failure_default.
  destruct (Buckets.check_failure _ _ _) as [[f r] es]. cbn [fst snd].
  set (s1 := s <| world ::= _ |> <| out ::= _ |>). assert (gate s1 = gate s) as Hg1 by done.
  destruct r; cbn [negb]; [|by apply leads_still].
  rewrite bind_eq. pose proof (validate_password_true e allow s1) as Ht.
  pose proof (validate_password_keeps e allow s1) as Hk.
  pose proof (validate_password_sessions e allow s1) as Hs.
  destruct (validate_password e allow s1) as [[|] s2]; cbn [fst snd negb] in *; cycle 1.
  { apply leads_still; [done|]. rewrite <- Hg1, <- Hk.
    match goal with |- gate (?m s2).2 = _ => assert (keeps gate m) as Hm; [|apply Hm] end.
    unfold try_start_cm, alarm, send_login_error, tell.
    repeat first [apply update_failure_keeps | keeps_step]. }
  rewrite bind_eq. pose proof (update_failure_keeps e f (Buckets.minute_of (now_ms e)) true Default s2) as Hu.
  assert (sessions (world (update_failure_with_scope e f (Buckets.minute_of (now_ms e)) true Default s2).2)
          = sessions (world s2)) as Hu2 by done.
  destruct (update_failure_with_scope _ _ _ _ _ s2) as [[] s3]. cbn [fst snd] in *.
  assert (gate s3 = gate s) as Hg3 by congruence.
  apply (leads_from _ e s s3); [done| |].
  - apply past_same; [done|]. intros k session Hk3 Htfa. rewrite Hu2 in Hk3. by apply (Hs k session).
  - apply leads_logon; [by apply (passed_gate s)|]. split; [done|]. by apply (Ht s2).
Qed.

(** What the password of a login is checked against. *)
Definition basis (s : St) :=
  (sessions (world s), temporary_password (world s), failures0 (world s),
   (ip (conn s), challenge (conn s), salt (conn s))).

Lemma basis_parts s s' :
  basis s = basis s' ->
  sessions (world s) = sessions (world s') /\ temporary_password (world s) = temporary_password (world s')
  /\ failures0 (world s) = failures0 (world s') /\ ip (conn s) = ip (conn s')
  /\ challenge (conn s) = challenge (conn s') /\ salt (conn s) = salt (conn s').
Proof. unfold basis. intros Hb. by injection Hb as ? ? ? ? ? ?. Qed.

Lemma asked_same e s request c p :
  lr c = request -> challenge c = challenge (conn s) -> salt c = salt (conn s) ->
  validate_password_plain p c = validate_password_plain p (asked s request)
  /\ permanent_password_ok e c = permanent_password_ok e (asked s request).
Proof. intros Hl Hc Hs. split; [apply password_same|apply permanent_same]; done. Qed.

(** The password of the request, of this session or a new one. *)
Lemma by_password_leads e s0 request s b :
  ~ passed s -> lr (conn s) = request -> basis s = basis s0 ->
  let allow := bool_decide (opt_logon_screen_password e = Str.lit "Y") && is_logon e in
  leads (authority e s0 request) e s
    ((recent ← is_recent_session e false;
      if recent : bool then logon e
      else if bool_decide (lr_password request = []) then ask_user e request b
      else check_password e request allow) s).
Proof.
  intros Hn Hlr (Hss & Htp & Hf0 & Hip & Hch & Hsa)%basis_parts allow. rewrite bind_eq.
  pose proof (is_recent_session_true e false s) as Ht.
  pose proof (is_recent_session_keeps e false s) as Hk.
  pose proof (is_recent_session_shrinks e false s) as Hsh.
  pose proof (is_recent_session_others e false s) as Ho.
  destruct (is_recent_session e false s) as [recent s1]. cbn [fst snd] in *.
  apply (leads_from _ e s s1); [done| |].
  { apply past_same; [done|]. intros k session Hs1 _. by apply Hsh. }
  pose proof (passed_gate s s1 Hk Hn) as Hn1. injection Ho as Htp1 Hf1 Hip1 Hch1 Hsa1.
  apply gate_parts in Hk as (_ & _ & _ & _ & _ & Hl1).
  destruct recent; [|destruct (bool_decide (lr_password request = []))].
  - apply leads_logon; [done|]. destruct (Ht s1 eq_refl) as (session & Hr & Hv).
    apply (by_recent_session _ _ _ session).
    + unfold recent, session_key in *. rewrite <- Hss. by rewrite Hlr in Hr.
    + by rewrite <- (proj1 (asked_same e s0 request (conn s) _ Hlr Hch Hsa)).
  - apply leads_keeps; [done|]. apply ask_user_keeps.
  - destruct (check_password_leads e request allow s1 Hn1) as (Hfac & Hpass & Hlog).
    split; [done|]. split; [|done]. intros Hp. destruct (Hpass Hp) as [Hfail Hcase].
    destruct (asked_same e s0 request (conn s1) (temporary_password (world s1))) as [Hpp1 Hpp2];
      [congruence..|].
    apply (by_password _ _ _ allow); [by rewrite <- Hf0, <- Hip, <- Hf1, <- Hip1|].
    rewrite <- Htp, <- Htp1, <- Hpp1, <- Hpp2. unfold allow in Hcase |- *.
    destruct Hcase as [?|[[?|Hallow] ?]]; [by left|right; split; [by left|done]|].
    right. split; [right|done]. split; [done|].
    apply andb_true_iff in Hallow as [Hy ?]. split; [by apply bool_decide_eq_true in Hy|done].
Qed.

Lemma primary_leads e s0 request s :
  ~ passed s -> lr (conn s) = request -> basis s = basis s0 ->
  clanto_grant (conn s) = granted (decision e s0 request) ->
  leads (authority e s0 request) e s (primary_authorization e request s).
Proof.
  intros Hn Hlr Hb Hg. unfold primary_authorization. rewrite bind_eq. cbn [get fst snd]. rewrite Hg.
  destruct (granted (decision e s0 request)) as [info|] eqn:Eg; cbn [fmap option_fmap option_map].
  - destruct (i_needs info) as [b1 b2 b3] eqn:En.
    destruct b2; cbn [password negb andb]; [by apply by_password_leads|].
    destruct b3; [by apply leads_still|]. rewrite bind_eq.
    eapply leads_from; [..|apply leads_logon]; [done|by apply past_same|by apply (passed_gate s)|].
    apply (by_grant _ _ _ info); [|by rewrite En..]. by destruct (decision e s0 request); inversion Eg.
  - cbn [negb andb]. destruct (approves_by_click _ _); [|by apply by_password_leads].
    apply leads_keeps; [done|]. apply ask_user_keeps.
Qed.

Lemma checks_same e s s' request :
  world s' = world s -> ip (conn s') = ip (conn s) ->
  passes_checks e s' request -> passes_checks e s request.
Proof.
  intros Hw Hi. unfold passes_checks, login_perms, whitelisted, decision. rewrite Hw, Hi.
  by rewrite (perms_anew _ _ _ _ _ _ _ _ _ (perms (conn s))).
Qed.

Lemma check_login_scope_same request s s' :
  check_login_scope request s = (true, s') -> asks_the_same s request.
Proof.
  unfold check_login_scope, asks_the_same. rewrite bind_eq. cbn [get fst snd].
  destruct (login_scope (conn s)) as [initial|]; [|by left].
  case_bool_decide as E; [done|]. intros _. right. f_equal. destruct (decide (initial = login_scope_digest request)); [done|by destruct E].
Qed.

(** What a request leaves as it is when it is noted. *)
Definition noted (s : St) :=
  (authorized (conn s), awaiting_2fa (conn s), from_switch (conn s), closed (conn s),
   start_cm_ipc_para (conn s), (ip (conn s), challenge (conn s), salt (conn s)), world s).

Lemma bypass_noted f : keeps noted (bypass_2fa f).
Proof. unfold bypass_2fa, set_conn_audit_two_factor. keeps_tac. Qed.

Lemma bypass_lr f : keeps (fun s => lr (conn s)) (bypass_2fa f).
Proof. unfold bypass_2fa, set_conn_audit_two_factor. keeps_tac. Qed.

Lemma noted_parts s s' :
  noted s = noted s' ->
  authorized (conn s) = authorized (conn s') /\ awaiting_2fa (conn s) = awaiting_2fa (conn s')
  /\ from_switch (conn s) = from_switch (conn s') /\ closed (conn s) = closed (conn s')
  /\ start_cm_ipc_para (conn s) = start_cm_ipc_para (conn s') /\ ip (conn s) = ip (conn s')
  /\ challenge (conn s) = challenge (conn s') /\ salt (conn s) = salt (conn s') /\ world s = world s'.
Proof. unfold noted. intros Hn. injection Hn as ? ? ? ? ? ? ? ? ?. auto 10. Qed.

Lemma bypass_spec f s :
  require_2fa (conn (bypass_2fa f s).2) = false ->
  require_2fa (conn s) = false \/ f (conn s) = true.
Proof.
  unfold bypass_2fa. rewrite bind_eq. cbn [get fst snd].
  destruct (require_2fa (conn s)) eqn:Er; [|by left]. cbn [andb].
  destruct (f (conn s)); [by right|]. cbn. congruence.
Qed.

(** The request is noted; the second factor goes only for a trusted device or
    controller. *)
Lemma handle_login_spec e request s :
  let s' := (handle_login_request_without_validation e request s).2 in
  noted s' = noted s /\ lr (conn s') = request
  /\ (require_2fa (conn s') = false ->
      require_2fa (conn s) = false
      \/ (enable_trusted_devices e = true /\ trusted_device e request = true)
      \/ trusted_controller e (conn s) request = true).
Proof.
  unfold handle_login_request_without_validation. rewrite bind_eq.
  set (s1 := (modify _ s).2). rewrite bind_eq.
  match goal with |- context [when ?b ?m s1] => set (s2 := (when b m s1).2) end.
  assert (noted s2 = noted s /\ lr (conn s2) = request /\ require_2fa (conn s2) = require_2fa (conn s)) as (Hn2 & Hl2 & Hr2)
    by (unfold s2; by destruct (bool_decide _)).
  rewrite bind_eq. match goal with |- context [bypass_2fa ?f s2] => set (f1 := f); set (s3 := (bypass_2fa f1 s2).2) end.
  pose proof (bypass_noted f1 s2) as Hk1. pose proof (bypass_lr f1 s2) as Hl3.
  pose proof (bypass_spec f1 s2) as Hb1. fold s3 in Hk1, Hb1, Hl3.
  match goal with |- context [bypass_2fa ?f s3] => set (f2 := f) end.
  pose proof (bypass_noted f2 s3) as Hk2. pose proof (bypass_lr f2 s3) as Hl4.
  pose proof (bypass_spec f2 s3) as Hb2. cbv zeta. split; [congruence|]. split; [cbn in Hl3, Hl4; congruence|].
  assert (challenge (conn s3) = challenge (conn s)) as Hch
    by (apply noted_parts in Hk1, Hn2; destruct_and!; congruence).
  intros Hr. destruct (Hb2 Hr) as [Hr3|Hc].
  - destruct (Hb1 Hr3) as [Hr2'|Ht]; [left; congruence|right; left].
    unfold f1 in Ht. apply andb_true_iff in Ht as [Ht ?]. by apply andb_true_iff in Ht as [_ ?].
  - right. right. unfold f2, trusted_controller in *. by rewrite <- Hch.
Qed.

Lemma untouched_parts s s' :
  untouched s = untouched s' -> basis s = basis s' /\ gate s = gate s' /\ start_cm_ipc_para (conn s) = start_cm_ipc_para (conn s').
Proof. unfold untouched, basis, gate. intros Hu. split; [congruence|]. split; congruence. Qed.

Lemma check_login_scope_keeps request :
  keeps (fun s => (noted s, require_2fa (conn s))) (check_login_scope request).
Proof. unfold check_login_scope, send_login_error, tell. keeps_tac. Qed.

Lemma try_start_cm_ipc_keeps :
  keeps (fun s => (gate s, basis s, clanto_grant (conn s))) try_start_cm_ipc.
Proof. unfold try_start_cm_ipc. keeps_tac. Qed.

(** Up to the checks: they find the request on the state of before. *)
Definition prepared (e : Env) (request : LoginRequest) (s : St) : St :=
  (reset_session_scope_for_login
     (handle_login_request_without_validation e request
        (modify (fun c => c <| awaiting_2fa := false |>) s).2).2).2.

Lemma prepared_spec e request s :
  let s4 := prepared e request s in
  world s4 = world s /\ lr (conn s4) = request /\ authorized (conn s4) = authorized (conn s)
  /\ awaiting_2fa (conn s4) = false /\ from_switch (conn s4) = from_switch (conn s)
  /\ closed (conn s4) = closed (conn s)
  /\ (ip (conn s4), challenge (conn s4), salt (conn s4)) = (ip (conn s), challenge (conn s), salt (conn s))
  /\ (require_2fa (conn s4) = false ->
      require_2fa (conn s) = false
      \/ (enable_trusted_devices e = true /\ trusted_device e request = true)
      \/ trusted_controller e (conn s) request = true).
Proof.
  unfold prepared. set (s2 := (modify _ s).2).
  pose proof (handle_login_spec e request s2) as (Hn & Hl & Hr).
  set (s3 := (handle_login_request_without_validation e request s2).2) in *.
  apply noted_parts in Hn as (? & ? & ? & ? & ? & Hi & Hc & Hs & ?). cbv zeta.
  repeat (split; [done|]). split; [|done].
  change ((ip (conn s3), challenge (conn s3), salt (conn s3)) = (ip (conn s), challenge (conn s), salt (conn s))).
  by rewrite Hi, Hc, Hs.
Qed.

Definition second_factor_left (e : Env) (request : LoginRequest) (s : St) : Prop :=
  require_2fa (conn s) = false
  \/ (enable_trusted_devices e = true /\ trusted_device e request = true)
  \/ trusted_controller e (conn s) request = true.

Lemma admit_login_spec e request s ok s' :
  authorized (conn s) = false -> admit_login e request s = (ok, s') ->
  authorized (conn s') = false /\ from_switch (conn s') = from_switch (conn s)
  /\ closed (conn s') = closed (conn s)
  /\ (ok = true ->
      vetted e s request /\ lr (conn s') = request /\ ~ passed s' /\ basis s' = basis s
      /\ clanto_grant (conn s') = granted (decision e s request)
      /\ (require_2fa (conn s') = false -> second_factor_left e request s)).
Proof.
  intros Ha. unfold admit_login. rewrite bind_eq.
  pose proof (check_login_scope_keeps request s) as Hk.
  pose proof (check_login_scope_same request s) as Hsame.
  destruct (check_login_scope request s) as [ok1 s1]. cbn [fst snd] in *.
  assert (noted s1 = noted s /\ require_2fa (conn s1) = require_2fa (conn s)) as [Hn1 Hr1]
    by (split; congruence). clear Hk.
  apply noted_parts in Hn1 as (Ha1 & _ & Hf1 & Hc1 & _ & Hi1 & Hch1 & Hs1 & Hw1).
  destruct ok1; cbn [negb]; [|intros [= <- <-]; do 3 (split; [congruence|]); done].
  rewrite !bind_eq. change ((reset_session_scope_for_login _).2) with (prepared e request s1).
  pose proof (prepared_spec e request s1) as (Hw4 & Hl4 & Ha4 & Haw4 & Hf4 & Hc4 & Hi4 & Hr4).
  set (s4 := prepared e request s1) in *. clearbody s4.
  pose proof (check_login_spec e request s4) as Hchk. pose proof (check_login_keeps e request s4) as Hu.
  destruct (check_login e request s4) as [ok5 s5]. cbn [fst snd] in *.
  apply untouched_parts in Hu as (Hb5 & Hg5 & _).
  apply gate_parts in Hg5 as (Ha5 & Haw5 & Hc5 & Hr5 & Hf5 & Hl5).
  intros [= <- <-]. do 3 (split; [congruence|]). intros ->.
  destruct (Hchk s5 Hl4 eq_refl) as [Hv Hgr].
  split; [split; [by apply (Hsame s1)|apply (checks_same e s s4); [congruence|congruence|done]]|].
  split; [congruence|].
  split; [unfold passed; rewrite Ha5, Haw5, Haw4; intros [?|?]; congruence|].
  split; [rewrite Hb5; unfold basis; congruence|].
  split; [rewrite Hgr; unfold decision; congruence|].
  intros Hr. rewrite Hr5 in Hr. unfold second_factor_left, trusted_controller.
  rewrite <- Hr1, <- Hch1. by apply Hr4.
Qed.

(** A login request, on a connection that is not authorised. *)
Lemma login_request_spec e request s keep s' :
  authorized (conn s) = false -> on_login_request e request s = (keep, s') ->
  (keep = true -> vetted e s request /\ (passed s' -> authority e s request)
     /\ (require_2fa (conn s') = false -> second_factor_left e request s))
  /\ (authorized (conn s') = true -> keep = true
      /\ (require_2fa (conn s') = false \/ from_switch (conn s') = true
          \/ exists session, recent e s (asked s request) session /\ tfa session = true))
  /\ from_switch (conn s') = from_switch (conn s) /\ closed (conn s') = closed (conn s).
Proof.
  intros Ha. unfold on_login_request. rewrite bind_eq. cbn [get fst snd]. rewrite Ha, bind_eq.
  pose proof (admit_login_spec e request s) as Hadm.
  destruct (admit_login e request s) as [ok s5]. destruct (Hadm ok s5 Ha eq_refl) as (Ha5 & Hf5 & Hc5 & Hok).
  cbn [fst snd]. destruct ok; cbn [negb].
  2: { intros [= <- <-]. split; [done|]. split; [congruence|done]. }
  destruct (Hok eq_refl) as (Hv & Hl5 & Hp5 & Hb5 & Hg5 & Hr5). rewrite !bind_eq.
  match goal with |- context [when ?b try_start_cm_ipc ?s0] => set (s6 := (when b try_start_cm_ipc s0).2) end.
  assert ((gate s6, basis s6, clanto_grant (conn s6)) = (gate s5, basis s5, clanto_grant (conn s5))) as Hk6
    by apply (keeps_when _ _ _ try_start_cm_ipc_keeps).
  assert (gate s6 = gate s5 /\ basis s6 = basis s5 /\ clanto_grant (conn s6) = clanto_grant (conn s5))
    as (Hg6 & Hb6 & Hgr6) by (split; [congruence|split; congruence]).
  pose proof (passed_gate _ _ Hg6 Hp5) as Hp6.
  apply gate_parts in Hg6 as (_ & _ & Hc6 & Hr6 & Hf6 & Hl6).
  destruct (primary_leads e s request s6) as (Hfac & Hpass & Hlog); [done|congruence..|].
  intros Hp. rewrite Hp in Hfac, Hpass, Hlog. cbn [fst snd] in *.
  apply factors_parts in Hfac as (Hcf & Hrf & Hff & Hlf).
  split; [intros _; split; [done|]; split; [done|]; intros Hr; apply Hr5; congruence|].
  split; [|split; congruence]. intros Hauth. destruct (Hlog Hauth) as [-> Hpast]. split; [done|].
  destruct Hpast as [?|[?|(session & (Hs & ? & ?) & ?)]]; [left; congruence|right; left; congruence|].
  right. right. exists session. split; [|done].
  assert (sessions (world s6) = sessions (world s)) as Hss by (apply basis_parts; congruence).
  assert (lr (conn s6) = request) as Hlr by congruence.
  unfold recent, session_key in *. rewrite Hlr, Hss in *. done.
Qed.

(** ** The other events *)

Lemma auth_2fa_spec e code device s keep s' :
  authorized (conn s) = false -> on_auth_2fa e code device s = (keep, s') ->
  (awaiting_2fa (conn s) = false -> s' = s /\ keep = true)
  /\ (authorized (conn s') = true -> keep = true /\ totp_check e code = Some true)
  /\ (require_2fa (conn s') = false -> require_2fa (conn s) = false \/ totp_check e code = Some true)
  /\ from_switch (conn s') = from_switch (conn s) /\ closed (conn s') = closed (conn s).
Proof.
  intros Ha. unfold on_auth_2fa. rewrite bind_eq. cbn [get fst snd].
  destruct (awaiting_2fa (conn s)); cbn [negb]; [|intros [= <- <-]; split; [done|]; split; [congruence|]; auto].
  rewrite bind_eq. cbn [get_world fst snd].
  destruct (Buckets.check_failure _ _ _) as [[f r] es]. rewrite bind_eq.
  set (s1 := (tell es s).2). assert (gate s1 = gate s) as Hg1 by done.
  apply gate_parts in Hg1 as (Ha1 & _ & Hc1 & Hr1 & Hf1 & _). fold s1.
  assert (forall b sx keep s', (b, sx) = (keep, s') -> authorized (conn sx) = false ->
    require_2fa (conn sx) = require_2fa (conn s) -> from_switch (conn sx) = from_switch (conn s) ->
    closed (conn sx) = closed (conn s) ->
    (true = false -> s' = s /\ keep = true)
    /\ (authorized (conn s') = true -> keep = true /\ totp_check e code = Some true)
    /\ (require_2fa (conn s') = false -> require_2fa (conn s) = false \/ totp_check e code = Some true)
    /\ from_switch (conn s') = from_switch (conn s) /\ closed (conn s') = closed (conn s)) as Hsame.
  { intros b sx k sy [= <- <-] Hax Hrx Hfx Hcx. split; [done|]. split; [congruence|].
    split; [left; congruence|done]. }
  destruct r; cbn [negb]; [|intros Hp; apply (Hsame _ _ _ _ Hp); congruence].
  destruct (require_2fa (conn s)) eqn:Er; cbn [negb]; [|intros Hp; apply (Hsame _ _ _ _ Hp); congruence].
  destruct (totp_check e code) as [[|]|] eqn:Et.
  - rewrite !bind_eq. match goal with |- context [logon e ?s0] => set (s2 := s0) end.
    assert (authorized (conn s2) = false) as Ha2 by (transitivity (authorized (conn s1)); [done|congruence]).
    pose proof (logon_spec e s2) as Hl. pose proof (logon_keeps e s2) as Hf.
    destruct (logon e s2) as [k s3]. cbn [fst snd] in *. apply factors_parts in Hf as (Hcl & Hrl & Hfl & _).
    assert (closed (conn s3) = closed (conn s) /\ from_switch (conn s3) = from_switch (conn s)) as [Hc3 Hf3].
    { split; [rewrite Hcl; transitivity (closed (conn s1))|rewrite Hfl; transitivity (from_switch (conn s1))]; done. }
    destruct k; cbn [negb].
    + rewrite bind_eq. intros [= <- <-]. split; [done|].
      match goal with |- context [when ?b ?m] => destruct b end; split; auto.
    + intros [= <- <-]. split; [done|]. split; [|auto].
      intros Hx. by destruct (Hl false s3 Ha2 eq_refl Hx).
  - rewrite !bind_eq. intros Hp. apply (Hsame _ _ _ _ Hp);
      [transitivity (authorized (conn s1))|transitivity (require_2fa (conn s1))
      |transitivity (from_switch (conn s1))|transitivity (closed (conn s1))]; first [done|congruence].
  - intros Hp; apply (Hsame _ _ _ _ Hp); congruence.
Qed.

Lemma authorize_spec e s keep s' :
  authorized (conn s) = false -> on_authorize e s = (keep, s') ->
  (authorized (conn s') = true -> keep = true)
  /\ from_switch (conn s') = from_switch (conn s) /\ closed (conn s') = closed (conn s).
Proof.
  intros Ha. unfold on_authorize. rewrite !bind_eq.
  match goal with |- context [send_logon_response_and_keep_alive e ?s0] => set (s1 := s0) end.
  assert (gate s1 = gate (s <| conn ::= fun c => c <| require_2fa := false |> |>)) as Hg
    by (unfold s1; by destruct (clanto_grant _)).
  apply gate_parts in Hg as (Ha1 & _ & Hc1 & _ & Hf1 & _).
  change (authorized (conn s1) = authorized (conn s)) in Ha1.
  change (closed (conn s1) = closed (conn s)) in Hc1.
  change (from_switch (conn s1) = from_switch (conn s)) in Hf1.
  pose proof (send_logon_spec e s1) as Hl. pose proof (send_logon_keeps e s1) as Hf.
  intros Hp. rewrite Hp in Hl, Hf. apply factors_parts in Hf as (Hcl & _ & Hfl & _). clearbody s1. cbn [snd] in *.
  split; [|split; congruence].
  intros Hx. destruct (Hl keep s') as [? _]; [congruence|done..].
Qed.

Lemma check_id_whitelist_gate e : keeps gate (check_id_whitelist e).
Proof. unfold check_id_whitelist, tell. keeps_tac. Qed.

(** The end of a switch of sides. *)
Lemma logon_then_ipc e s keep s' :
  authorized (conn s) = false ->
  (k ← logon e; if negb k then mret false else _ ← try_start_cm_ipc; mret true) s = (keep, s') ->
  (authorized (conn s') = true -> keep = true) /\ closed (conn s') = closed (conn s).
Proof.
  intros Ha. rewrite bind_eq. pose proof (logon_spec e s) as Hlog. pose proof (logon_keeps e s) as Hf.
  destruct (logon e s) as [k s1]. cbn [fst snd] in *. apply factors_parts in Hf as [Hc _].
  destruct k; cbn [negb].
  - rewrite bind_eq. intros [= <- <-]. split; [done|].
    unfold try_start_cm_ipc. rewrite bind_eq. cbn [get fst snd].
    transitivity (closed (conn s1)); [by destruct (start_cm_ipc_para (conn s1))|congruence].
  - intros [= <- <-]. split; [|congruence]. intros Hx. by destruct (Hlog false s1 Ha eq_refl Hx).
Qed.

Lemma switch_spec e uuid request s keep s' :
  authorized (conn s) = false -> on_switch_sides e uuid request s = (keep, s') ->
  (keep = true -> gate s' = gate s /\ start_cm_ipc_para (conn s') = start_cm_ipc_para (conn s)
                  \/ switched (e, SwitchSidesResponse uuid request, s))
  /\ (authorized (conn s') = true -> keep = true) /\ closed (conn s') = closed (conn s).
Proof.
  intros Ha. unfold on_switch_sides.
  destruct request as [request|]; [|intros [= <- <-]; split; [auto|split; [congruence|done]]].
  rewrite !bind_eq. cbn [get_world fst snd]. set (s1 := (modify_world _ s).2).
  set (s2 := (modify_world _ s1).2).
  assert (gate s2 = gate s /\ start_cm_ipc_para (conn s2) = start_cm_ipc_para (conn s)) as [Hg2 Hi2] by done.
  assert (failures2 (world s2) = failures2 (world s) /\ ip (conn s2) = ip (conn s)) as [Hf2 Hip2] by done.
  pose proof Hg2 as (Ha2 & _ & Hc2 & _ & _)%gate_parts.
  assert (forall b, (b, s2) = (keep, s') ->
    (keep = true -> gate s' = gate s /\ start_cm_ipc_para (conn s') = start_cm_ipc_para (conn s)
                    \/ switched (e, SwitchSidesResponse uuid (Some request), s))
    /\ (authorized (conn s') = true -> keep = true) /\ closed (conn s') = closed (conn s)) as Hsame.
  { intros b [= _ <-]. split; [by left|]. split; [congruence|done]. }
  destruct uuid as [uuid|]; [|apply Hsame].
  destruct (switch_sides_uuid (world s1) !! my_id request) as [[t0 old]|] eqn:Eold; [|apply Hsame].
  assert (switch_sides_uuid (world s) !! my_id request = Some (t0, old)
          /\ now_ms e - t0 < SWITCH_SIDES_UUID_TTL) as [Hold Htime]
    by by apply map_lookup_filter_Some in Eold.
  case_bool_decide as Eu; cbn [negb]; [|apply Hsame]. subst old.
  case_bool_decide as Eun.
  { unfold refuse_login. rewrite bind_eq. intros [= <- <-]. split; [done|]. split; [|done].
    intros Hx. change (authorized (conn s2) = true) in Hx. congruence. }
  rewrite !bind_eq. set (s3 := (reset_session_scope_for_login s2).2).
  pose proof (handle_login_spec e request s3) as (Hn4 & Hl4 & _).
  set (s4 := (handle_login_request_without_validation e request s3).2) in *. clearbody s4.
  apply noted_parts in Hn4 as (Ha4 & _ & _ & Hc4 & _ & Hi4 & _ & _ & Hw4).
  pose proof (check_id_whitelist_true e s4) as Hw. pose proof (check_id_whitelist_gate e s4) as Hg5.
  destruct (check_id_whitelist e s4) as [[|] s5]; cbn [fst snd negb] in *.
  2: { intros [= <- <-]. apply gate_parts in Hg5 as (Ha5 & _ & Hc5 & _).
       split; [done|]. split; [|by rewrite Hc5, Hc4]. rewrite Ha5, Ha4. intros Hx. 
       change (authorized (conn s2) = true) in Hx. congruence. }
  assert (switched (e, SwitchSidesResponse (Some uuid) (Some request), s)) as Hsw.
  { exists uuid, request, t0. split; [done|]. split; [by destruct (union request); [destruct Eun|]|].
    split; [done|]. split; [done|]. specialize (Hw eq_refl). rewrite Hl4 in Hw. unfold whitelisted in *.
    rewrite Hw4, Hi4 in Hw. exact Hw. }
  rewrite !bind_eq. match goal with |- context [logon e ?s0] => set (s6 := s0) end.
  assert (authorized (conn s6) = false /\ closed (conn s6) = closed (conn s)) as [Ha6 Hc6].
  { apply gate_parts in Hg5 as (Ha5 & _ & Hc5 & _).
    split; [transitivity (authorized (conn s5))|transitivity (closed (conn s5))]; [done| |done|].
    - rewrite Ha5, Ha4. done.
    - rewrite Hc5, Hc4. done. }
  intros Hk. destruct (logon_then_ipc e s6 keep s' Ha6) as [Hin Hc]; [by rewrite bind_eq|]. split; [by right|]. split; [done|congruence].
Qed.

(** ** The whole life of a connection *)

(** What an open connection owes to its past; [need] tells that the host had a second
    factor when the connection began. *)
Definition legitimate (need : bool) (past : list (Env * Event * St)) : Prop :=
  Exists switched past
  \/ Exists is_login past
     /\ (Exists clicked past
         \/ Exists has_authority past /\ (need = false \/ Exists second_factor past)).

Record owes (need : bool) (past : list (Env * Event * St)) (s : St) : Prop := {
  ow_vetted : Forall is_vetted past;
  ow_switch : from_switch (conn s) = true -> Exists switched past;
  ow_click : Exists clicked past -> Exists is_login past \/ Exists switched past;
  ow_cm : start_cm_ipc_para (conn s) = false -> Exists is_login past \/ Exists switched past;
  ow_waiting : awaiting_2fa (conn s) = true ->
    Exists has_authority past \/ Exists clicked past \/ Exists switched past;
  ow_second : require_2fa (conn s) = false ->
    need = false \/ Exists second_factor past \/ Exists clicked past \/ Exists switched past;
  ow_in : authorized (conn s) = true -> legitimate need past }.

Definition invariant (need : bool) (past : list (Env * Event * St)) (s : St) : Prop :=
  if closed (conn s) then authorized (conn s) = false else owes need past s.

Lemma Exists_more {A} (P : A -> Prop) l x : Exists P l -> Exists P (l ++ [x]).
Proof. intros. apply Exists_app. by left. Qed.
Lemma Exists_last {A} (P : A -> Prop) l x : P x -> Exists P (l ++ [x]).
Proof. intros. apply Exists_app. right. by constructor. Qed.

Lemma login_is_authority past : Exists has_authority past -> Exists is_login past.
Proof. intros Hx. apply (Exists_impl _ _ _ Hx). intros t (request & ? & _). by exists request. Qed.

(** A way in that holds already, or that the last turn opened. *)
Lemma legitimate_more need past t : legitimate need past -> legitimate need (past ++ [t]).
Proof.
  unfold legitimate. intros [?|(? & Hc)]; [left; by apply Exists_more|].
  right. split; [by apply Exists_more|].
  destruct Hc as [?|(? & [?|?])]; [left; by apply Exists_more|..]; right;
    (split; [by apply Exists_more|]); [by left|right; by apply Exists_more].
Qed.

Lemma legitimate_by need past :
  Exists has_authority past \/ Exists clicked past \/ Exists switched past ->
  (Exists clicked past -> Exists is_login past \/ Exists switched past) ->
  need = false \/ Exists second_factor past \/ Exists clicked past \/ Exists switched past ->
  legitimate need past.
Proof.
  intros Hw Hc Hs. unfold legitimate. destruct Hw as [Ha|[Hk|?]]; [|destruct (Hc Hk); tauto|tauto].
  pose proof (login_is_authority past Ha). tauto.
Qed.

(** A turn that changes nothing the invariant reads keeps it. *)
Lemma owes_same need past s s' t :
  gate s' = gate s -> start_cm_ipc_para (conn s') = start_cm_ipc_para (conn s) ->
  is_vetted t -> (clicked t -> Exists is_login past \/ Exists switched past) ->
  owes need past s -> owes need (past ++ [t]) s'.
Proof.
  intros (Ea & Ew & _ & Er & Ef & _)%gate_parts Ei Hv Hc [H1' H2' H3' H4' H5' H6' H7'].
  pose proof (fun P => Exists_more P past t) as Hm.
  assert (Exists is_login past \/ Exists switched past ->
          Exists is_login (past ++ [t]) \/ Exists switched (past ++ [t])) as Hls
    by (intros [?|?]; [left|right]; by apply Hm).
  split; rewrite ?Ea, ?Ew, ?Er, ?Ef, ?Ei; auto.
  - apply Forall_app. split; [done|by constructor].
  - intros Hx. apply Exists_app in Hx as [Hx|Hx]; [by apply Hls, H3'|].
    apply Exists_cons in Hx as [Hx|Hx%Exists_nil]; [by apply Hls, Hc|done].
  - intros Hx. destruct (H5' Hx) as [?|[?|?]]; auto 6.
  - intros Hx. destruct (H6' Hx) as [?|[?|[?|?]]]; auto 7.
  - intros Hx. by apply legitimate_more, H7'.
Qed.

(** A turn that lets someone in, or asks for the second factor. *)
Lemma owes_after need past t s s' :
  let P := past ++ [t] in
  owes need past s -> is_vetted t ->
  (from_switch (conn s') = true -> Exists switched P) ->
  Exists is_login P \/ Exists switched P ->
  (passed s' -> Exists has_authority P \/ Exists clicked P \/ Exists switched P) ->
  (require_2fa (conn s') = false ->
   need = false \/ Exists second_factor P \/ Exists clicked P \/ Exists switched P) ->
  (authorized (conn s') = true ->
   need = false \/ Exists second_factor P \/ Exists clicked P \/ Exists switched P) ->
  owes need P s'.
Proof.
  intros P Ho Hv Hf Hentry Hp Hr Ha. unfold passed in Hp. split; auto.
  - apply Forall_app. split; [apply Ho|by constructor].
  - intros Hx. apply legitimate_by; auto.
Qed.

Lemma owes_login need past e request s s' :
  let t := (e, LoginRequested request, s) in
  owes need past s -> authorized (conn s) = false -> on_login_request e request s = (true, s') ->
  owes need (past ++ [t]) s'.
Proof.
  intros t Ho Hau Eh. pose proof (fun P => Exists_more P past t) as Hm.
  pose proof (fun P => Exists_last P past t) as Hl.
  destruct (login_request_spec e request s true s' Hau Eh) as (Hok & Hin & Hf & _).
  destruct (Hok eq_refl) as (Hv & Hp & Hr).
  assert (require_2fa (conn s') = false ->
    need = false \/ Exists second_factor (past ++ [t]) \/ Exists clicked (past ++ [t])
    \/ Exists switched (past ++ [t])) as Hs.
  { intros Hx. destruct (Hr Hx) as [Hx'|Hx'].
    - destruct (ow_second _ _ _ Ho Hx') as [?|[?|[?|?]]]; auto 6.
    - right. left. apply Hl. right. exists request. split; [done|]. destruct Hx'; auto. }
  apply (owes_after need past t s).
  - done.
  - by intros ? [= <-].
  - rewrite Hf. intros Hx. by apply Hm, Ho.
  - left. apply Hl. by exists request.
  - intros Hx. left. apply Hl. exists request. split; [done|]. by apply Hp.
  - done.
  - intros Hx. destruct (Hin Hx) as [_ [Hy|[Hy|Hy]]].
    + by apply Hs.
    + rewrite Hf in Hy. right. right. right. by apply Hm, Ho.
    + right. left. apply Hl. right. exists request. auto.
Qed.

Lemma owes_auth_2fa need past e code device s s' :
  let t := (e, Auth2fa code device, s) in
  owes need past s -> authorized (conn s) = false -> on_auth_2fa e code device s = (true, s') ->
  owes need (past ++ [t]) s'.
Proof.
  intros t Ho Hau Eh. pose proof (fun P => Exists_more P past t) as Hm.
  pose proof (fun P => Exists_last P past t) as Hl.
  destruct (auth_2fa_spec e code device s true s' Hau Eh) as (Hidle & Hin & Hr & Hf & _).
  destruct (awaiting_2fa (conn s)) eqn:Ew; cycle 1.
  { destruct (Hidle eq_refl) as [-> _]. by apply (owes_same _ _ s); [..|by intros ?|]. }
  pose proof (ow_waiting _ _ _ Ho Ew) as Hwait.
  assert (totp_check e code = Some true -> Exists second_factor (past ++ [t])) as Hcode.
  { intros Hx. apply Hl. left. by exists code, device. }
  apply (owes_after need past t s).
  - done.
  - by intros ? [=].
  - rewrite Hf. intros Hx. by apply Hm, Ho.
  - destruct Hwait as [Hx|[Hx|Hx]]; [left; by apply Hm, login_is_authority| |right; by apply Hm].
    destruct (ow_click _ _ _ Ho Hx); [left|right]; by apply Hm.
  - intros _. destruct Hwait as [?|[?|?]]; auto.
  - intros Hx. destruct (Hr Hx) as [Hy|Hy]; [|auto]. destruct (ow_second _ _ _ Ho Hy) as [?|[?|[?|?]]]; auto 6.
  - intros Hx. destruct (Hin Hx). auto.
Qed.

Lemma owes_authorize need past e s s' :
  let t := (e, CmAuthorize, s) in
  owes need past s -> authorized (conn s) = false -> start_cm_ipc_para (conn s) = false ->
  on_authorize e s = (true, s') -> owes need (past ++ [t]) s'.
Proof.
  intros t Ho Hau Hcm Eh. pose proof (fun P => Exists_more P past t) as Hm.
  destruct (authorize_spec e s true s' Hau Eh) as (_ & Hf & _).
  assert (Exists clicked (past ++ [t])) as Hc by by apply Exists_last.
  apply (owes_after need past t s); auto.
  - by intros ? [=].
  - rewrite Hf. intros Hx. by apply Hm, Ho.
  - destruct (ow_cm _ _ _ Ho Hcm); [left|right]; by apply Hm.
Qed.

Lemma owes_switch need past e uuid request s s' :
  let t := (e, SwitchSidesResponse uuid request, s) in
  owes need past s -> authorized (conn s) = false -> on_switch_sides e uuid request s = (true, s') ->
  owes need (past ++ [t]) s'.
Proof.
  intros t Ho Hau Eh. destruct (switch_spec e uuid request s true s' Hau Eh) as (Hs & _).
  destruct (Hs eq_refl) as [[Hg Hi]|Hsw].
  - apply (owes_same _ _ s); [done|done|by intros ? [=]|by intros [=]|done].
  - assert (Exists switched (past ++ [t])) as Hx by by apply Exists_last.
    apply (owes_after need past t s); auto. by intros ? [=].
Qed.

(** What is left: the closes and the deadline. *)
Lemma ending_spec e ev s keep s' :
  authorized (conn s) = false -> ev = PeerClose \/ ev = CmClose \/ ev = Timeout ->
  handle e ev s = (keep, s') -> keep = false /\ gate s' = gate s.
Proof.
  intros Ha [->|[->| ->]]; cbn [handle].
  - by intros [= <- <-].
  - unfold clanto_grant_user_denied. rewrite !bind_eq. cbn [get fst snd]. rewrite Ha.
    destruct (clanto_grant (conn s)); by intros [= <- <-].
  - unfold on_timeout. rewrite !bind_eq. cbn [get fst snd]. rewrite Ha, bind_eq.
    destruct (clanto_grant (conn s)) as [info|]; [destruct (confirm (i_needs info))|];
      by intros [= <- <-].
Qed.

Lemma handle_owes need past e ev s keep s' :
  live ev (conn s) = true -> owes need past s -> handle e ev s = (keep, s') ->
  closed (conn s') = closed (conn s) /\ (authorized (conn s') = true -> keep = true)
  /\ (keep = true -> owes need (past ++ [(e, ev, s)]) s').
Proof.
  intros [[_ Hau%negb_true_iff]%andb_true_iff Hcm]%andb_true_iff Ho Eh.
  assert (ev = PeerClose \/ ev = CmClose \/ ev = Timeout ->
    closed (conn s') = closed (conn s) /\ (authorized (conn s') = true -> keep = true)
    /\ (keep = true -> owes need (past ++ [(e, ev, s)]) s')) as Hend.
  { intros He. destruct (ending_spec e ev s keep s' Hau He Eh) as [-> (Ha & _ & Hc & _)%gate_parts].
    split; [done|]. split; [congruence|done]. }
  destruct ev as [request|code device|uuid request| | | |]; [..|apply Hend; auto];
    cbn [handle] in Eh; try (apply Hend; by auto).
  - destruct (login_request_spec e request s keep s' Hau Eh) as (_ & Hin & _ & Hc).
    split; [done|]. split; [by intros ?; apply Hin|]. intros ->. by apply owes_login.
  - destruct (auth_2fa_spec e code device s keep s' Hau Eh) as (_ & Hin & _ & _ & Hc).
    split; [done|]. split; [by intros ?; apply Hin|]. intros ->. by apply owes_auth_2fa.
  - destruct (switch_spec e uuid request s keep s' Hau Eh) as (_ & Hin & Hc).
    split; [done|]. split; [done|]. intros ->. by apply owes_switch.
  - destruct (authorize_spec e s keep s' Hau Eh) as (Hin & _ & Hc).
    split; [done|]. split; [done|]. intros ->. apply owes_authorize; [done..| |done].
    by apply negb_true_iff in Hcm.
Qed.

Lemma turn_invariant need past e ev s :
  live ev (conn s) = true -> invariant need past s ->
  invariant need (past ++ [(e, ev, s)]) (turn e ev s).
Proof.
  intros Hlive Hinv. unfold turn. rewrite Hlive.
  pose proof Hlive as [[Hcl%negb_true_iff _]%andb_true_iff _]%andb_true_iff.
  unfold invariant in Hinv. rewrite Hcl in Hinv.
  destruct (handle e ev s) as [keep s'] eqn:Eh.
  destruct (handle_owes need past e ev s keep s' Hlive Hinv Eh) as (Hc & Hin & Ho).
  unfold invariant. destruct keep; [by rewrite Hc, Hcl; apply Ho|].
  change (authorized (conn s') = false). destruct (authorized (conn s')); [by discriminate (Hin eq_refl)|done].
Qed.

Lemma run_invariant need past moves s :
  invariant need past s -> invariant need (past ++ trace moves s) (run moves s).
Proof.
  revert past s. induction moves as [|m moves IH]; intros past s Hs; cbn [trace run foldl].
  { by rewrite app_nil_r. }
  rewrite app_assoc. apply IH. destruct m as [e ev|w]; cbn [move].
  - destruct (live ev (conn s)) eqn:Hlive; [by apply turn_invariant|].
    rewrite app_nil_r. unfold turn. by rewrite Hlive.
  - rewrite app_nil_r. unfold invariant in *. change (closed (conn (s <| world := w |>))) with (closed (conn s)).
    destruct (closed (conn s)); [done|]. by destruct Hs; split.
Qed.

Lemma fresh_invariant s : fresh s -> invariant (require_2fa (conn s)) [] s.
Proof.
  intros (Ha & Hw & Hf & Hi & Hc & _). unfold invariant. rewrite Hc.
  split; rewrite ?Ha, ?Hw, ?Hf, ?Hi; [constructor|done|by intros ?%Exists_nil|done|done|by left|done].
Qed.

(** C2 However the messages, the answers of the connection manager and the other
    connections interleave, a connection is authorised in one of two ways.  By a
    login request: then the person at the PC accepted it, or a request had a valid
    grant or the right password, and the second factor, if the host has one, was
    given or not needed.  Or by the answer to a switch of sides: then the peer showed
    the code that this PC gave it less than ten seconds before and is on the ID
    whitelist, which is all that the code checks of it: not the access hours, the
    posture, the block of the sessions or the grant that the tenant requires
    ([switch_sides_ignores_the_policy]).  In both cases every login request that the
    connection made went through all the checks of a login: the same session as the
    first asked for, the ID whitelist, the session grant, the access hours and the
    other blocks, the posture, the option, the permission and the conditions of its
    kind of session, and the ID it asks for. *)
Theorem authorised_logins_were_vetted (moves : list Move) (s : St) :
  fresh s -> authorized (conn (run moves s)) = true ->
  let past := trace moves s in
  Forall is_vetted past
  /\ (Exists switched past
      \/ Exists is_login past
         /\ (Exists clicked past
             \/ Exists has_authority past
                /\ (require_2fa (conn s) = false \/ Exists second_factor past))).
Proof.
  intros Hs Ha past. pose proof (run_invariant _ [] moves s (fresh_invariant s Hs)) as Hi.
  unfold invariant in Hi. rewrite Ha in Hi. destruct (closed _); [done|].
  split; [apply Hi|by apply Hi].
Qed.

(** ** The same grant again *)

Definition host_of (s : St) : Host := host (world s).

Lemma check_update_host e b w : host (check_update_temporary_password e b w) = host w.
Proof.
  unfold check_update_temporary_password. destruct w; cbn. repeat case_match; done.
Qed.

Ltac unfold_handlers :=
  unfold primary_authorization, ask_user, check_password, logon, send_logon_response_and_keep_alive,
    prepare_terminal_login_for_authorization, check_failure_with_scope, fill_and_check,
    connect_port_forward_if_needed, authorize, normalize_conn_audit_auth_fields, is_recent_session,
    validate_password, update_failure_with_scope, try_start_cm_ipc, try_start_cm, refuse_login, alarm,
    set_conn_audit_primary_auth, set_conn_audit_two_factor, send_login_error, tell.

Lemma primary_host e request : keeps host_of (primary_authorization e request).
Proof.
  unfold_handlers.
  keeps_tac.
  all: apply keeps_modify_world; intros s; apply check_update_host.
Qed.

Lemma set_session_scope_host e request : keeps host_of (set_session_scope e request).
Proof. unfold set_session_scope. unfold_handlers. keeps_tac. Qed.

Definition host_after (e : Env) (request : LoginRequest) (h : Host) : Host :=
  (evaluate (enrolled e) (access_mode e) (sessions_blocked e) (clock e) (lr_grant request) h).2.

Lemma check_login_host e request s s' :
  check_login e request s = (true, s') -> host_of s' = host_after e request (host_of s).
Proof.
  unfold check_login. rewrite bind_eq. pose proof (check_id_whitelist_host e s) as Hh.
  destruct (check_id_whitelist e s) as [[|] s1]; cbn [fst snd negb] in *; [|done].
  rewrite bind_eq.
  assert (host_of (clanto_check_grant e request s1).2 = host_after e request (host_of s)) as Hg.
  { unfold host_of, host_after. rewrite <- Hh. unfold clanto_check_grant. rewrite !bind_eq.
    cbn [get_world modify fst snd]. change (world (s1 <| conn ::= _ |>)) with (world s1).
    by destruct (evaluate _ _ _ _ _ _) as [[] h]. }
  destruct (clanto_check_grant e request s1) as [[|] s2]; cbn [fst snd negb] in *; [|done].
  rewrite bind_eq. destruct (login_block e); [done|]. destruct (posture e); [done|]. rewrite bind_eq.
  match goal with |- context [set_session_scope e request ?s0] =>
    pose proof (set_session_scope_host e request s0) as Hs;
    destruct (set_session_scope e request s0) as [[|] s4] end; cbn [fst snd negb] in *; [|done].
  destruct (_ && _); [done|]. rewrite bind_eq. destruct (_ && _); [done|].
  intros [= <-]. by transitivity (host_of s4); [|rewrite Hs].
Qed.

Lemma admit_login_host e request s s' :
  admit_login e request s = (true, s') -> host_of s' = host_after e request (host_of s).
Proof.
  unfold admit_login. rewrite bind_eq. pose proof (check_login_scope_keeps request s) as Hk.
  destruct (check_login_scope request s) as [[|] s1]; cbn [fst snd negb] in *; [|done].
  assert (noted s1 = noted s) as Hn by congruence. apply noted_parts in Hn as (_ & _ & _ & _ & _ & _ & _ & _ & Hw).
  rewrite !bind_eq. change ((reset_session_scope_for_login _).2) with (prepared e request s1).
  intros ->%check_login_host. pose proof (prepared_spec e request s1) as [Hp _].
  unfold host_of. by rewrite Hp, Hw.
Qed.

(** A login request that leaves the connection open went through the grant. *)
Lemma login_request_host e request s s' :
  authorized (conn s) = false -> on_login_request e request s = (true, s') ->
  host_of s' = host_after e request (host_of s).
Proof.
  intros Ha. unfold on_login_request. rewrite bind_eq. cbn [get fst snd]. rewrite Ha, bind_eq.
  pose proof (admit_login_host e request s) as Hh.
  destruct (admit_login e request s) as [[|] s1]; cbn [fst snd negb]; [|done].
  rewrite !bind_eq. intros Hp.
  match type of Hp with primary_authorization e request ?s2 = _ =>
    pose proof (primary_host e request s2) as Hk; assert (host_of s2 = host_of s1) as Hw end.
  { apply (keeps_when host_of). unfold_handlers. keeps_tac. }
  rewrite Hp in Hk. cbn [snd] in Hk. rewrite Hk, Hw. by apply Hh.
Qed.

(** A login with a grant cannot be repeated on its connection: the first request,
    without the password that the grant asks for or with a wrong one, has used up the
    grant, and the next, which carries the same grant while the controller remembers
    it, is refused as a replay and closes the connection, whatever the password. *)
Theorem retry_with_the_grant_is_refused (e e' : Env) (request request' : LoginRequest) (s : St)
    (en : Enrollment) (info : GrantInfo) (p : GrantPayload) :
  live (LoginRequested request) (conn s) = true ->
  enrolled e = Some en -> enrolled e' = Some en ->
  decision e s request = Grant info ->
  grant_payload (lr_grant request) = Some p ->
  Int.is_s 64 (expires_at (p_constraints p) + CLOCK_SKEW_SECS) ->
  sane_clock (t_now (clock e')) ->
  t_now (clock e') <> expires_at (p_constraints p) + CLOCK_SKEW_SECS ->
  lr_grant request' = lr_grant request ->
  let s1 := turn e (LoginRequested request) s in
  closed (conn s1) = false -> authorized (conn s1) = false ->
  let s2 := turn e' (LoginRequested request') s1 in
  closed (conn s2) = true /\ authorized (conn s2) = false.
Proof.
  intros Hlive He He' Hd Hp Hexp Hsane Htie Hgr s1 Hc1 Ha1 s2.
  assert (host_of s1 = host_after e request (host_of s)) as Hh.
  { unfold s1, turn in *. rewrite Hlive in *. cbn [handle] in *.
    pose proof Hlive as [[_ Ha%negb_true_iff]%andb_true_iff _]%andb_true_iff.
    pose proof (login_request_host e request s) as Hh.
    destruct (on_login_request e request s) as [[|] s']; [by apply Hh|done]. }
  assert (~ vetted e' s1 request') as Hv.
  { intros (_ & _ & Hn & _). unfold decision in Hn, Hd. rewrite He in Hd.
    change (host (world s1)) with (host_of s1) in Hn. rewrite Hh, He', Hgr in Hn.
    unfold host_after in Hn. rewrite He in Hn.
    destruct (evaluate (Some en) (access_mode e) (sessions_blocked e) (clock e) (lr_grant request)
                (host (world s))) as [d h] eqn:Eh. cbn [fst] in Hd. subst d. change (host_of s) with (host (world s)) in Hn.
    rewrite Eh in Hn. cbn [snd] in Hn.
    destruct (evaluate (Some en) (access_mode e') (sessions_blocked e') (clock e') (lr_grant request) h).1 as [| |info'] eqn:E2;
      [|done|].
    - apply evaluate_Unmanaged in E2.
      pose proof (evaluate_blank (Some en) (access_mode e) (sessions_blocked e) (clock e) _ (host (world s)) info E2) as Hne.
      by rewrite Eh in Hne.
    - by apply (grant_once en _ _ _ _ _ _ _ _ [] (access_mode e') (sessions_blocked e') (clock e') Eh Hp Hexp Hsane
        (List.Forall_nil _) Htie info'). }
  unfold s2, turn. unfold live. cbn [from_cm]. rewrite Hc1, Ha1. cbn [negb andb handle].
  destruct (on_login_request e' request' s1) as [keep s'] eqn:Er.
  destruct (login_request_spec e' request' s1 keep s' Ha1 Er) as (Hok & Hin & _).
  destruct keep; [by destruct (Hok eq_refl)|]. split; [done|].
  change (authorized (conn s') = false). destruct (authorized (conn s')); [by destruct (Hin eq_refl)|done].
Qed.

(** ** The scope *)

(** Encodings in front of a text are read back. *)
Lemma le_bytes_length n z : length (le_bytes n z) = n.
Proof. revert z. induction n as [|n IH]; intros z; [done|]. cbn. by rewrite IH. Qed.

Lemma le_bytes_inj n a b :
  0 <= a < 2 ^ (8 * Z.of_nat n) -> 0 <= b < 2 ^ (8 * Z.of_nat n) -> le_bytes n a = le_bytes n b -> a = b.
Proof.
  revert a b. induction n as [|n IH]; intros a b Ha Hb He.
  { change (2 ^ (8 * Z.of_nat 0)) with 1 in *. lia. }
  cbn [le_bytes] in He. injection He as Hlow Hhigh.
  change 255 with (Z.ones 8) in Hlow. rewrite !Z.land_ones in Hlow by lia.
  assert (2 ^ (8 * Z.of_nat (S n)) = 2 ^ (8 * Z.of_nat n) * 2 ^ 8) as Ep
    by (rewrite <- Z.pow_add_r by lia; f_equal; lia).
  rewrite !Z.shiftr_div_pow2 in Hhigh by lia.
  apply IH in Hhigh; [|split; [apply Z.div_pos; lia|apply Z.div_lt_upper_bound; lia]..].
  pose proof (Z.div_mod a (2 ^ 8)). pose proof (Z.div_mod b (2 ^ 8)). lia.
Qed.

Definition short (b : bytes) : Prop := Z.of_nat (length b) < 2 ^ 64.

Lemma push_inj a b x y : short a -> short b -> push a ++ x = push b ++ y -> a = b /\ x = y.
Proof.
  unfold push, short. intros Ha Hb. rewrite <- !app_assoc. intros He.
  apply app_inj_1 in He as [Hl He]; [|by rewrite !le_bytes_length].
  apply le_bytes_inj in Hl; [|change (8 * Z.of_nat 8) with 64; lia..].
  apply app_inj_1 in He; [done|lia].
Qed.

(** The kind of session that a request asks for, as it is run. *)
Definition kind (lr : LoginRequest) : LoginUnion := default Unknown (union lr).

(** The lengths fit, the port is an [i32]. *)
Definition sized (lr : LoginRequest) : Prop :=
  short (as_bytes (my_id lr))
  /\ match kind lr with
     | FileTransfer dir _ => short (as_bytes dir)
     | Terminal service_id => short (as_bytes service_id)
     | PortForward host port _ => short (as_bytes host) /\ Int.is_s 32 port
     | _ => True
     end.

Lemma le_bytes_wrap n a : le_bytes n a = le_bytes n (a mod 2 ^ (8 * Z.of_nat n)).
Proof.
  revert a. induction n as [|n IH]; intros a; [done|]. cbn [le_bytes].
  assert (2 ^ (8 * Z.of_nat (S n)) = 2 ^ 8 * 2 ^ (8 * Z.of_nat n)) as Ep
    by (rewrite <- Z.pow_add_r by lia; f_equal; lia).
  f_equal.
  - change 255 with (Z.ones 8). rewrite !Z.land_ones by lia. rewrite Ep.
    rewrite Z.rem_mul_r by lia. rewrite (Z.mul_comm (2 ^ 8)), Z.mod_add by lia.
    by rewrite Z.mod_mod by lia.
  - rewrite IH, (IH (Z.shiftr (a mod _) 8)). f_equal. rewrite !Z.shiftr_div_pow2 by lia. rewrite Ep.
    rewrite Z.rem_mul_r by lia. rewrite (Z.mul_comm (2 ^ 8)), Z.div_add by lia.
    rewrite (Z.div_small (a mod 2 ^ 8)) by (apply Z.mod_pos_bound; lia). rewrite Z.add_0_l.
    by rewrite Z.mod_mod by lia.
Qed.

Lemma port_inj a b : Int.is_s 32 a -> Int.is_s 32 b -> le_bytes 4 a = le_bytes 4 b -> a = b.
Proof.
  intros [Ha1 Ha2] [Hb1 Hb2]. rewrite (le_bytes_wrap 4 a), (le_bytes_wrap 4 b).
  change (8 * Z.of_nat 4) with 32. unfold Int.smin, Int.smax in *. cbn in Ha1, Ha2, Hb1, Hb2.
  intros He%le_bytes_inj; [|apply Z.mod_pos_bound; lia..]. change (2 ^ 32) with 4294967296 in He.
  pose proof (Z.div_mod a 4294967296). pose proof (Z.div_mod b 4294967296). lia.
Qed.

Lemma flag_inj a b : flag a = flag b -> a = b.
Proof. by destruct a, b. Qed.

Definition tag (u : LoginUnion) : string :=
  match u with
  | FileTransfer _ _ => "file_transfer" | ViewCamera => "view_camera" | Terminal _ => "terminal"
  | PortForward _ _ _ => "port_forward" | Unknown => "remote"
  end.

Definition args (u : LoginUnion) : bytes :=
  match u with
  | FileTransfer dir show_hidden => push (as_bytes dir) ++ push (flag show_hidden)
  | Terminal service_id => push (as_bytes service_id)
  | PortForward host port multiplex =>
      push (as_bytes host) ++ push (le_bytes 4 port) ++ push (flag multiplex)
  | _ => []
  end.

Lemma login_scope_text_eq lr :
  login_scope_text lr
  = push (as_bytes (my_id lr)) ++ push (Str.lit (tag (kind lr))) ++ args (kind lr).
Proof.
  unfold login_scope_text, kind. f_equal.
  destruct (union lr) as [[]|]; cbn [default tag args]; by rewrite ?app_nil_r.
Qed.

Lemma tag_short u : short (Str.lit (tag u)).
Proof. by destruct u. Qed.

Lemma push_end a b : short a -> short b -> push a = push b -> a = b.
Proof. intros Ha Hb He. apply (push_inj a b [] []); [done|done|]. by rewrite !app_nil_r. Qed.

Lemma flag_short b : short (flag b).
Proof. by destruct b. Qed.

Lemma port_short a : short (le_bytes 4 a).
Proof. unfold short. by rewrite le_bytes_length. Qed.

(** The kinds by their number: texts of different kinds differ. *)
Definition code (u : LoginUnion) : nat :=
  match u with
  | FileTransfer _ _ => 0 | ViewCamera => 1 | Terminal _ => 2 | PortForward _ _ _ => 3 | Unknown => 4
  end%nat.

Lemma tag_inj u u' : Str.lit (tag u) = Str.lit (tag u') -> code u = code u'.
Proof. destruct u, u'; intros He; first [reflexivity | vm_compute in He; discriminate He]. Qed.

(** Equal texts are of requests of the same controller for the same session. *)
Lemma login_scope_text_inj lr lr' :
  Inj (=) (=) as_bytes -> sized lr -> sized lr' ->
  login_scope_text lr = login_scope_text lr' -> my_id lr = my_id lr' /\ kind lr = kind lr'.
Proof.
  intros Hinj [Hid Hk] [Hid' Hk']. rewrite !login_scope_text_eq. intros He.
  apply push_inj in He as [Heid He]; [|done|done]. apply Hinj in Heid. split; [done|].
  apply push_inj in He as [Htag Hargs]; [|apply tag_short..]. apply tag_inj in Htag.
  destruct (kind lr) as [dir hidden| |service|host port mx|],
    (kind lr') as [dir' hidden'| |service'|host' port' mx'|]; try discriminate Htag; cbn [args] in Hargs.
  - apply push_inj in Hargs as [Hd%Hinj Hb]; [|done|done].
    apply push_end, flag_inj in Hb; [|apply flag_short..]. congruence.
  - done.
  - apply push_end, Hinj in Hargs; [|done|done]. congruence.
  - destruct Hk as [Hk Hp], Hk' as [Hk' Hp']. apply push_inj in Hargs as [Hh%Hinj Hb]; [|done|done].
    apply push_inj in Hb as [Hq Hb]; [|apply port_short..].
    apply push_end, flag_inj in Hb; [|apply flag_short..]. apply port_inj in Hq; [|done|done]. congruence.
  - done.
Qed.

Definition scope_of (s : St) : option bytes := login_scope (conn s).

Lemma authorize_scope e code : keeps scope_of (authorize e code).
Proof.
  unfold_handlers. keeps_tac. apply keeps_modify. intros [[] w o]. unfold scope_of. cbn. by case_match.
Qed.

Lemma logon_scope e : keeps scope_of (logon e).
Proof.
  unfold logon, send_logon_response_and_keep_alive, prepare_terminal_login_for_authorization,
    check_failure_with_scope, fill_and_check, connect_port_forward_if_needed, is_recent_session,
    update_failure_with_scope, try_start_cm_ipc, try_start_cm, refuse_login, alarm,
    set_conn_audit_primary_auth, set_conn_audit_two_factor, send_login_error, tell.
  repeat first [apply authorize_scope | keeps_step].
Qed.

Lemma primary_scope e request : keeps scope_of (primary_authorization e request).
Proof.
  unfold primary_authorization, ask_user, check_password, is_recent_session, validate_password,
    prepare_terminal_login_for_authorization, check_failure_with_scope, fill_and_check,
    update_failure_with_scope, try_start_cm_ipc, try_start_cm, refuse_login, alarm,
    set_conn_audit_primary_auth, set_conn_audit_two_factor, send_login_error, tell.
  repeat first [apply logon_scope | keeps_step].
Qed.

Lemma handle_login_scope e request : keeps scope_of (handle_login_request_without_validation e request).
Proof. unfold handle_login_request_without_validation, bypass_2fa. unfold_handlers. keeps_tac. Qed.

Lemma check_login_scope_of e request : keeps scope_of (check_login e request).
Proof. intros s. pose proof (check_login_keeps e request s) as Hu. unfold untouched, scope_of in *. congruence. Qed.

Lemma check_id_whitelist_scope e : keeps scope_of (check_id_whitelist e).
Proof. intros s. pose proof (check_id_whitelist_keeps e s) as Hu. unfold untouched, scope_of in *. congruence. Qed.

(** A scope once noted stays, and a request with another one closes the connection. *)
Lemma admit_login_scope e request s ok s' :
  admit_login e request s = (ok, s') ->
  (forall d, scope_of s = Some d -> scope_of s' = Some d)
  /\ (ok = true -> scope_of s' = Some (login_scope_digest request)).
Proof.
  unfold admit_login, check_login_scope. rewrite !bind_eq. cbn [get fst snd].
  assert (forall s1, scope_of (check_login e request (prepared e request s1)).2 = scope_of s1) as Hk.
  { intros s1. rewrite check_login_scope_of.
    change (scope_of (handle_login_request_without_validation e request
      (modify (fun c => c <| awaiting_2fa := false |>) s1).2).2 = scope_of s1).
    by rewrite (handle_login_scope e request _). }
  destruct (login_scope (conn s)) as [d|] eqn:Ed.
  - case_bool_decide as Hne.
    + intros [= <- <-]. split; [done|]. done.
    + cbn [negb mret M_ret fst snd]. rewrite !bind_eq.
      change ((reset_session_scope_for_login _).2) with (prepared e request s).
      intros Hc. specialize (Hk s). rewrite Hc in Hk. cbn [snd] in Hk. rewrite Hk. unfold scope_of. rewrite Ed.
      split; [done|]. intros _. f_equal. destruct (decide (d = login_scope_digest request)); [done|by destruct Hne].
  - rewrite !bind_eq. cbn [negb mret M_ret fst snd]. rewrite !bind_eq.
    match goal with |- check_login e request (reset_session_scope_for_login ?x).2 = _ -> _ => idtac end.
    intros Hc. match type of Hc with check_login e request (reset_session_scope_for_login
      (handle_login_request_without_validation e request (modify _ ?s1).2).2).2 = _ =>
      specialize (Hk s1); change (check_login e request (prepared e request s1) = (ok, s')) in Hc end.
    rewrite Hc in Hk. cbn [snd] in Hk. rewrite Hk. split; [unfold scope_of; by rewrite Ed|done].
Qed.

Lemma login_request_scope e request s keep s' :
  authorized (conn s) = false -> on_login_request e request s = (keep, s') ->
  (forall d, scope_of s = Some d -> scope_of s' = Some d)
  /\ (keep = true -> scope_of s' = Some (login_scope_digest request)).
Proof.
  intros Ha. unfold on_login_request. rewrite bind_eq. cbn [get fst snd]. rewrite Ha, bind_eq.
  pose proof (admit_login_scope e request s) as Hadm.
  destruct (admit_login e request s) as [ok s1]. destruct (Hadm ok s1 eq_refl) as [Hsome Hok].
  cbn [fst snd]. destruct ok; cbn [negb]; [|intros [= <- <-]; by split].
  rewrite !bind_eq. cbn [get fst snd]. intros Hp.
  match type of Hp with primary_authorization e request ?s2 = _ =>
    pose proof (primary_scope e request s2) as Hk; assert (scope_of s2 = scope_of s1) as Hw end.
  { apply (keeps_when scope_of). unfold_handlers. keeps_tac. }
  rewrite Hp in Hk. cbn [snd] in Hk. rewrite Hk, Hw. split; [done|]. intros _. by apply Hok.
Qed.

Lemma others_scope e ev s :
  (forall request, ev <> LoginRequested request) -> scope_of (handle e ev s).2 = scope_of s.
Proof.
  intros Hev. destruct ev as [request|c d|uuid request| | | |]; cbn [handle]; [by destruct (Hev request)|..].
  all: match goal with |- scope_of (?m ?s0).2 = _ => assert (keeps scope_of m) as Hk; [|apply Hk] end.
  - unfold on_auth_2fa, alarm, set_conn_audit_two_factor, send_login_error, tell.
    repeat first [apply logon_scope | keeps_step].
  - unfold on_switch_sides, reset_session_scope_for_login, apply_id_permissions, refuse_login,
      try_start_cm_ipc, set_conn_audit_primary_auth, send_login_error, tell.
    repeat first [apply logon_scope | apply handle_login_scope | apply check_id_whitelist_scope | keeps_step].
  - keeps_tac.
  - unfold on_authorize, set_conn_audit_primary_auth, send_logon_response_and_keep_alive,
      prepare_terminal_login_for_authorization, check_failure_with_scope, fill_and_check,
      connect_port_forward_if_needed, is_recent_session, update_failure_with_scope, try_start_cm_ipc,
      refuse_login, alarm, set_conn_audit_two_factor, set_conn_audit_primary_auth, send_login_error, tell.
    repeat first [apply authorize_scope | keeps_step].
  - unfold clanto_grant_user_denied. keeps_tac.
  - unfold on_timeout. keeps_tac.
Qed.

(** On an open connection the scope is that of every login request so far. *)
Definition scoped (past : list (Env * Event * St)) (s : St) : Prop :=
  closed (conn s) = false ->
  Forall (fun t => forall request, t.1.2 = LoginRequested request ->
            scope_of s = Some (login_scope_digest request)) past.

Lemma turn_scoped past e ev s :
  live ev (conn s) = true -> scoped past s -> scoped (past ++ [(e, ev, s)]) (turn e ev s).
Proof.
  intros Hlive Hs. unfold turn. rewrite Hlive.
  pose proof Hlive as [[Hcl%negb_true_iff Ha%negb_true_iff]%andb_true_iff _]%andb_true_iff.
  specialize (Hs Hcl).
  assert ((forall request, ev <> LoginRequested request) \/ exists request, ev = LoginRequested request) as [Hev|[request ->]]
    by (destruct ev; eauto).
  - pose proof (others_scope e ev s Hev) as Hk. destruct (handle e ev s) as [keep s']. cbn [snd] in Hk.
    destruct keep; [|by intros Hx; discriminate Hx].
    intros _. apply Forall_app. split; [by rewrite Hk|]. constructor; [|done].
    cbn. intros request ->. by destruct (Hev request).
  - cbn [handle]. destruct (on_login_request e request s) as [keep s'] eqn:Er.
    destruct (login_request_scope e request s keep s' Ha Er) as [Hsome Hok].
    destruct keep; [|by intros Hx; discriminate Hx].
    intros _. apply Forall_app. split.
    + apply (Forall_impl _ _ _ Hs). intros t Ht request' Hr. by apply Hsome, Ht.
    + constructor; [|done]. cbn. intros request' [= <-]. by apply Hok.
Qed.

Lemma run_scoped past moves s : scoped past s -> scoped (past ++ trace moves s) (run moves s).
Proof.
  revert past s. induction moves as [|m moves IH]; intros past s Hs; cbn [trace run foldl].
  { by rewrite app_nil_r. }
  rewrite app_assoc. apply IH. destruct m as [e ev|w]; cbn [move].
  - destruct (live ev (conn s)) eqn:Hlive; [by apply turn_scoped|].
    rewrite app_nil_r. unfold turn. by rewrite Hlive.
  - by rewrite app_nil_r.
Qed.

(** C18 What is retried on a connection is the same login: all the requests of an open
    connection name the same controller and ask for the same session, with the same
    folder, terminal service or destination, unless SHA-256 collides on them. *)
Theorem login_scope_is_bound (moves : list Move) (s s1 s2 : St) (e1 e2 : Env) (r1 r2 : LoginRequest) :
  fresh s -> closed (conn (run moves s)) = false ->
  (e1, LoginRequested r1, s1) ∈ trace moves s -> (e2, LoginRequested r2, s2) ∈ trace moves s ->
  Inj (=) (=) as_bytes -> sized r1 -> sized r2 ->
  (sha256_digest (login_scope_text r1) = sha256_digest (login_scope_text r2) ->
   login_scope_text r1 = login_scope_text r2) ->
  my_id r1 = my_id r2 /\ kind r1 = kind r2.
Proof.
  intros _ Hopen Ht1 Ht2 Hinj Hs1 Hs2 Hsha.
  assert (scoped [] s) as Hs by (intros _; constructor).
  pose proof (run_scoped [] moves s Hs Hopen) as Hall.
  pose proof (proj1 (List.Forall_forall _ _) Hall) as Hx. cbn [app] in Hx.
  apply list_elem_of_In in Ht1, Ht2.
  pose proof (Hx _ Ht1 r1 eq_refl) as E1. pose proof (Hx _ Ht2 r2 eq_refl) as E2.
  apply login_scope_text_inj; [done..|]. apply Hsha. unfold login_scope_digest in *. congruence.
Qed.

(** ** The temporary password *)

(** Wrong attempts, each with what a new password would be. *)
Definition wrong_attempts (es : list Env) (w : World) : World :=
  foldl (fun w e => check_update_temporary_password e false w) w es.

Lemma wrong_attempt e w :
  temporary_enabled e = true -> temporary_password w <> [] ->
  0 <= counted_failures w ->
  let n := if bool_decide (counted_password w = temporary_password w) then counted_failures w else 0 in
  let w' := check_update_temporary_password e false w in
  if n + 1 <? MAX_CONSECUTIVE_FAILURES
  then temporary_password w' = temporary_password w /\ counted_password w' = temporary_password w
       /\ counted_failures w' = n + 1
  else temporary_password w' = new_password e.
Proof.
  intros Hen Hne Hn n w'. unfold w', check_update_temporary_password. rewrite Hen. cbn [negb].
  rewrite bool_decide_eq_false_2 by done. fold n. by destruct (n + 1 <? MAX_CONSECUTIVE_FAILURES).
Qed.

Lemma wrong_attempts_count es w :
  Forall (fun e => temporary_enabled e = true) es -> temporary_password w <> [] ->
  counted_password w = temporary_password w -> 0 <= counted_failures w ->
  counted_failures w + Z.of_nat (length es) < MAX_CONSECUTIVE_FAILURES ->
  let w' := wrong_attempts es w in
  temporary_password w' = temporary_password w /\ counted_password w' = temporary_password w
  /\ counted_failures w' = counted_failures w + Z.of_nat (length es).
Proof.
  revert w. induction es as [|e es IH]; intros w Hen Hne Hcp Hcf Hlen; cbn [wrong_attempts foldl length] in *.
  { split; [done|]. split; [done|]. lia. }
  apply Forall_cons in Hen as [Hen Hens].
  pose proof (wrong_attempt e w Hen Hne Hcf) as Hw. rewrite bool_decide_eq_true_2 in Hw by done.
  cbv zeta in Hw. rewrite (proj2 (Z.ltb_lt _ _)) in Hw by lia. destruct Hw as (Hw1 & Hw2 & Hw3).
  destruct (IH (check_update_temporary_password e false w)) as (H1' & H2' & H3');
    [done|by rewrite Hw1|by rewrite Hw1, Hw2|lia|lia|].
  unfold wrong_attempts in *. rewrite H1', H2', H3'. rewrite Hw1, Hw3. split; [done|]. split; [done|]. lia.
Qed.

(** A temporary password stands at most ten wrong attempts in a row: fewer leave it
    as it is, and the one that makes ten replaces it; what was counted for another
    password does not count. *)
Theorem temporary_password_is_renewed (es : list Env) (w : World) (e : Env) :
  Forall (fun e => temporary_enabled e = true) (es ++ [e]) ->
  temporary_password w <> [] -> 0 <= counted_failures w < MAX_CONSECUTIVE_FAILURES ->
  let n := if bool_decide (counted_password w = temporary_password w) then counted_failures w else 0 in
  (n + Z.of_nat (length es) < MAX_CONSECUTIVE_FAILURES ->
   temporary_password (wrong_attempts es w) = temporary_password w)
  /\ (n + Z.of_nat (length es) = MAX_CONSECUTIVE_FAILURES - 1 ->
      temporary_password (wrong_attempts (es ++ [e]) w) = new_password e).
Proof.
  intros Hen Hne Hcf n. apply Forall_app in Hen as [Hens Hen].
  set (w0 := w <| counted_password := temporary_password w |> <| counted_failures := n |>).
  assert (0 <= n < MAX_CONSECUTIVE_FAILURES) as Hn.
  { unfold n. destruct (bool_decide _); [done|]. unfold MAX_CONSECUTIVE_FAILURES. lia. }
  assert (forall e, check_update_temporary_password e false w = check_update_temporary_password e false w0
                    \/ temporary_enabled e = false) as Hsame.
  { intros e'. destruct (temporary_enabled e') eqn:E; [left|by right].
    unfold check_update_temporary_password. rewrite E. cbn [negb].
    change (temporary_password w0) with (temporary_password w).
    rewrite bool_decide_eq_false_2 by done. fold n.
    rewrite (bool_decide_eq_true_2 (counted_password w0 = temporary_password w)) by done. done. }
  assert (forall l, Forall (fun e => temporary_enabled e = true) l -> l <> [] ->
            wrong_attempts l w = wrong_attempts l w0) as Hall.
  { intros [|a l] Hl Hnil; [done|]. apply Forall_cons in Hl as [Ha _].
    unfold wrong_attempts. cbn [foldl]. destruct (Hsame a) as [->|?]; [done|congruence]. }
  pose proof (wrong_attempts_count es w0 Hens Hne eq_refl ltac:(apply Hn)) as Hcount. cbv zeta in Hcount.
  change (counted_failures w0) with n in Hcount. change (temporary_password w0) with (temporary_password w) in Hcount.
  split.
  - intros Hlen. destruct es as [|a es]; [done|]. rewrite Hall by done. by apply Hcount.
  - intros Hlen. rewrite Hall; [|by apply Forall_app|by destruct es].
    unfold wrong_attempts. rewrite foldl_app. cbn [foldl].
    destruct Hcount as (Hc1 & Hc2 & Hc3); [lia|]. fold (wrong_attempts es w0).
    apply Forall_cons in Hen as [Hen _].
    pose proof (wrong_attempt e (wrong_attempts es w0) Hen) as Hw. rewrite Hc1, Hc2, Hc3 in Hw.
    rewrite bool_decide_eq_true_2 in Hw by done. cbv zeta in Hw.
    rewrite (proj2 (Z.ltb_ge _ _)) in Hw by (unfold MAX_CONSECUTIVE_FAILURES in *; lia).
    apply Hw; [done|lia].
Qed.

End Proofs.

(** ** Samples *)

Module LoginToy.
Import TrustedControllers.Toy.
#[local] Existing Instances toy_crypto.

(** A grant's text is its signature; a payload is [3; nonce; 1 if it asks for the
    password] and allows only to view. *)
#[local] Instance decoders : GrantDecoders := {|
  signed_from_str := fun s => match s with _ :: p => Some (mkSigned p s) | [] => None end;
  payload_from_slice := fun b =>
    match b with
    | [3; nonce; pw] =>
        Some (mkPayload (Str.lit "session_grant") None (Str.lit "t1") (Str.lit "d1") [nonce] [] []
          (if pw =? 1 then [Str.lit "password"] else [])
          (mkConstraints 3600 [Str.lit "view"] 900 1100) [nonce])
    | _ => None
    end |}.

(** Hashes do nothing. *)
#[local] Instance passwords : Passwords := {|
  sha256_digest := fun b => b; as_bytes := fun t => t;
  decode_permanent_password_h1_from_storage := fun _ => None;
  local_permanent_password_storage_is_usable_for_auth := fun _ _ => true;
  decode_preset_password_h1_from_storage := fun _ => None;
  preset_permanent_password_storage_is_usable_for_auth := fun _ _ => false |}.

Definition env : Env :=
  mkEnv 600000 (fun x => x) (fun x => x) (fun _ => None) (fun _ => true) [] [] false [] false []
    None [] false (clock_at 1000) [] 0 0 0 true true [] (fun c => Some (bool_decide (c = [6; 6; 6])))
    None false (Str.lit "900") (fun _ => false) false true false false []
    Both true true true [1; 1] ([], []) ([], [])
    (fun _ _ => None) None true (fun _ => None) (fun _ => true) (Some [5]).

Definition request : LoginRequest :=
  mkRequest (Str.lit "900") [] (Str.lit "111") (Str.lit "pc") [] 0 [] [] [] None None true [] [] [].

Definition no_perms : Perms :=
  Connection.mk [] false false false false false false false false false false false false false false.

Definition conn0 (second : bool) : Conn :=
  mkConn [] [9] (Str.lit "192.0.2.1") false second false false None no_request None no_scope []
    None no_perms None true None None false NoAuth NoTwoFactor.

Definition world0 : World :=
  mkWorld ∅ ∅ ∅ Backoff.default_state fresh_host ∅ [4; 2] [] 0
    {[Str.lit "111" := (595000, [8; 8])]}.

Definition start (second : bool) : St := mkSt (conn0 second) world0 [].

(** The right answer to the challenge for the temporary password. *)
Definition right_password : bytes := [4; 2; 9].

Definition login (password : bytes) : Event := LoginRequested (request <| lr_password := password |>).

Example logins :
  let final moves := let c := conn (run moves (start true)) in (authorized c, awaiting_2fa c, closed c) in
  [final [Turn env (login right_password)];
   final [Turn env (login right_password); Turn env (Auth2fa [1] [])];
   final [Turn env (login right_password); Turn env (Auth2fa [6; 6; 6] [])];
   final [Turn env (Auth2fa [6; 6; 6] [])];
   final [Turn env CmAuthorize];
   final [Turn env (login []); Turn env CmAuthorize];
   final [Turn env (login [1]); Turn env Timeout];
   final [Turn env (SwitchSidesResponse (Some [8; 8]) (Some request))]]
  = [(false, true, false); (false, true, false); (true, false, false); (false, false, false);
     (false, false, false); (true, false, false); (false, false, true); (true, false, false)].
Proof. vm_compute. reflexivity. Qed.

Lemma authorised_logins_were_vetted_witness :
  let moves := [Turn env (login right_password); Turn env (Auth2fa [6; 6; 6] [])] in
  authorized (conn (run moves (start true))) = true
  /\ Forall is_vetted (trace moves (start true)).
Proof.
  split; [vm_compute; reflexivity|].
  apply (authorised_logins_were_vetted
    [Turn env (login right_password); Turn env (Auth2fa [6; 6; 6] [])] (start true)).
  - repeat split.
  - vm_compute. reflexivity.
Defined.

(** The tenant asks for the account; the grant allows to view. *)
Definition enrolled_env (mode : string) : Env :=
  env <| enrolled := Some sample_enrollment |> <| access_mode := Str.lit mode |>.

Definition grant (pw : Z) : rstr := [10; 3; 77; pw].

(** A grant that allows only to view opens a terminal all the same: the permission to
    open one asks the grant only when the controller has a profile. *)
Example view_only_grant_opens_a_terminal :
  let s := run [Turn (enrolled_env "account_2fa")
                  (LoginRequested (request <| union := Some (Terminal [1]) |> <| lr_grant := grant 0 |>))]
             (start false) in
  (allows <$> clanto_grant (conn s)) ≫= (fun f => Some (f (Str.lit "control"))) = Some false
  /\ Connection.k_terminal (perms (conn s)) = false
  /\ authorized (conn s) = true /\ terminal (scope (conn s)) = true.
Proof. vm_compute. repeat split. Qed.

(** The switch of sides passes by the access hours, the block of the sessions and the
    grant that the tenant requires. *)
Example switch_sides_ignores_the_policy :
  let e := (enrolled_env "account_2fa") <| sessions_blocked := true |> <| opt_access_hours := Str.lit "never" |> in
  let final ev := let c := conn (turn e ev (start true)) in (authorized c, closed c) in
  login_block e <> None
  /\ final (login right_password) = (false, true)
  /\ final (SwitchSidesResponse (Some [8; 8]) (Some request)) = (true, false).
Proof. split; [by vm_compute|]. vm_compute. repeat split. Qed.

Lemma retry_with_the_grant_is_refused_witness :
  let e := enrolled_env "account_password" in
  let ask pw := LoginRequested (request <| lr_password := pw |> <| lr_grant := grant 1 |>) in
  let s1 := turn e (ask []) (start false) in
  authorized (conn (turn e (ask right_password) (start false))) = true
  /\ closed (conn s1) = false
  /\ closed (conn (turn e (ask right_password) s1)) = true.
Proof.
  intros e ask s1. split; [vm_compute; reflexivity|]. split; [vm_compute; reflexivity|].
  refine (proj1 (retry_with_the_grant_is_refused e e
    (request <| lr_password := [] |> <| lr_grant := grant 1 |>)
    (request <| lr_password := right_password |> <| lr_grant := grant 1 |>) (start false)
    sample_enrollment (mkInfo [77] [] [] [77] [Str.lit "view"] 3600 (mkRequirements true true false))
    (mkPayload (Str.lit "session_grant") None (Str.lit "t1") (Str.lit "d1") [77] [] []
       [Str.lit "password"] (mkConstraints 3600 [Str.lit "view"] 900 1100) [77])
    _ _ _ _ _ _ _ _ _ _ _)); try (vm_compute; reflexivity).
  - vm_compute. split; discriminate.
  - vm_compute. repeat split; discriminate.
  - vm_compute. discriminate.
Defined.

Lemma login_scope_is_bound_witness :
  let moves := [Turn env (login [1]); Turn env (login [2])] in
  let t n := nth n (trace moves (start false)) (env, Timeout, start false) in
  my_id (request <| lr_password := [1] |>) = my_id (request <| lr_password := [2] |>)
  /\ kind (request <| lr_password := [1] |>) = kind (request <| lr_password := [2] |>).
Proof.
  intros moves t.
  apply (login_scope_is_bound moves (start false) (start false) (turn env (login [1]) (start false)) env env).
  - repeat split.
  - vm_compute. reflexivity.
  - left.
  - right. left.
  - intros x y E. exact E.
  - vm_compute. by split.
  - vm_compute. by split.
  - intros E. exact E.
Defined.

Lemma temporary_password_is_renewed_witness :
  temporary_password (wrong_attempts (replicate 9 env) world0) = [4; 2]
  /\ temporary_password (wrong_attempts (replicate 9 env ++ [env]) world0) = [1; 1].
Proof.
  destruct (temporary_password_is_renewed (replicate 9 env) world0 env) as [Hfew Hten].
  - repeat constructor.
  - discriminate.
  - vm_compute. split; [discriminate|reflexivity].
  - split; [apply Hfew; vm_compute; reflexivity|apply Hten; vm_compute; reflexivity].
Defined.
End LoginToy.
