(* ===== verification/Admission.v ===== *)
(** * Admission of connections: [src/server/connection.rs] and [src/server.rs]

    The table of the connections between their acceptance and their authorisation:
    who gets a place, who is told to go when there is none, and how a place is given
    back.  The guard of a place ([UnauthorizedID]) shares its flag with the entry of
    the table and lives as long as it, so the flag is a field of the entry; waking the
    task that waits on it is the [told] of an arrival. *)

From S2P Require Import Prelude NetAddr.

Definition MAX_UNAUTHORIZED_CONNS : nat := 64.
Definition MAX_UNAUTHORIZED_CONNS_PER_ADDR : nat := 16.

(** An entry of [UNAUTHORIZED_CONNS] with its [UnauthorizedShared]. *)
Record Place := mkPlace { p_id : Z; p_ip : IpAddr; evicted : bool }.

Abbreviation Places := (list Place).

Definition held_by (ip : IpAddr) (conns : Places) : nat :=
  length (List.filter (fun p => bool_decide (p_ip p = ip)) conns).

(** Whether the connection is admitted, the connection told to go, the table. *)
Definition admit_unauthorized (id : Z) (ip : IpAddr) (conns : Places)
  : bool * option Place * Places :=
  if (MAX_UNAUTHORIZED_CONNS_PER_ADDR <=? held_by ip conns)%nat then (false, None, conns)
  else if (MAX_UNAUTHORIZED_CONNS <=? length conns)%nat then
    match conns with
    | oldest :: rest =>
        (false, if evicted oldest then None else Some oldest,
         mkPlace (p_id oldest) (p_ip oldest) true :: rest)
    | [] => (false, None, conns)
    end
  else (true, None, conns ++ [mkPlace id ip false]).

(** [is_evicted], of the guard with this id. *)
Definition is_evicted (id : Z) (conns : Places) : bool :=
  existsb (fun p => (p_id p =? id) && evicted p) conns.

(** [drop] of the guard: the connection is authorised or over. *)
Definition drop_place (id : Z) (conns : Places) : Places :=
  List.filter (fun p => negb (p_id p =? id)) conns.

(** The server's counter of ids, and the table. *)
Record Server := mkServer { id_count : Z; conns : Places }.

Definition get_new_id (s : Server) : Z := Int.swrap 32 (id_count s + 1).

(** An address arrives, or the connection of an id gives its place back. *)
Inductive Event := Arrive (ip : IpAddr) | Leave (id : Z).

(** [create_tcp_connection] up to the handshake; an IPv4 address that is written as an
    IPv6 one counts as itself ([try_into_v4], done before). *)
Definition step (ev : Event) (s : Server) : option Place * Server :=
  match ev with
  | Arrive ip =>
      let id := get_new_id s in
      let '(_, told, conns) := admit_unauthorized id ip (conns s) in
      (told, mkServer id conns)
  | Leave id => (None, mkServer (id_count s) (drop_place id (conns s)))
  end.

Definition told_list (told : option Place) : Places :=
  match told with Some p => [p] | None => [] end.

(** The connections told to go, and the server in the end. *)
Fixpoint run (evs : list Event) (s : Server) : list Place * Server :=
  match evs with
  | [] => ([], s)
  | ev :: evs =>
      let '(told, s) := step ev s in
      let '(ps, s) := run evs s in
      (told_list told ++ ps, s)
  end.

(** * Theorems *)

(** ** The table *)

(** Within the limits; only the oldest may be on its way out. *)
Definition tidy (conns : Places) : Prop :=
  (length conns <= MAX_UNAUTHORIZED_CONNS)%nat
  /\ (forall ip, held_by ip conns <= MAX_UNAUTHORIZED_CONNS_PER_ADDR)%nat
  /\ Forall (fun p => evicted p = false) (tl conns).

Lemma held_app ip l l' : held_by ip (l ++ l') = (held_by ip l + held_by ip l')%nat.
Proof. unfold held_by. by rewrite List.filter_app, length_app. Qed.

Lemma filter_sub_length {A} (f g : A -> bool) (l : list A) :
  (length (List.filter f (List.filter g l)) <= length (List.filter f l))%nat.
Proof.
  induction l as [|x l IH]; [done|]. cbn. destruct (g x); cbn; destruct (f x); cbn; lia.
Qed.

Lemma filter_le {A} (f : A -> bool) (l : list A) : (length (List.filter f l) <= length l)%nat.
Proof. induction l as [|x l IH]; [done|]. cbn. destruct (f x); cbn; lia. Qed.

Lemma tl_filter {A} (P : A -> Prop) (f : A -> bool) (l : list A) :
  Forall P (tl l) -> Forall P (tl (List.filter f l)).
Proof.
  assert (forall l, Forall P l -> Forall P (List.filter f l)) as Hf.
  { intros l' Hl'. induction Hl' as [|x l' Hx Hl' IH]; [constructor|]. cbn. destruct (f x); [by constructor|done]. }
  destruct l as [|x l]; [done|]. cbn. intros Hl. apply Hf in Hl.
  destruct (f x); [done|]. by destruct (List.filter f l) as [|y l']; [constructor|inversion Hl].
Qed.

(** The oldest told to go counts as before. *)
Lemma held_mark ip p rest b : held_by ip (mkPlace (p_id p) (p_ip p) b :: rest) = held_by ip (p :: rest).
Proof. unfold held_by. cbn. by destruct (bool_decide _). Qed.

Lemma admit_tidy id ip conns : tidy conns -> tidy (admit_unauthorized id ip conns).2.
Proof.
  intros (Hlen & Hheld & Htl). unfold admit_unauthorized.
  destruct (Nat.leb_spec MAX_UNAUTHORIZED_CONNS_PER_ADDR (held_by ip conns)) as [Hshare|Hshare]; [done|].
  destruct (Nat.leb_spec MAX_UNAUTHORIZED_CONNS (length conns)) as [Hfull|Hfull].
  - destruct conns as [|p rest]; [done|]. split; [done|]. split; [|done]. intros ip'.
    cbn [snd]. rewrite held_mark. apply Hheld.
  - cbn [snd]. split; [rewrite length_app; cbn; lia|]. split.
    + intros ip'. rewrite held_app. specialize (Hheld ip').
      destruct (decide (ip = ip')) as [<-|Hne]; unfold held_by at 2; cbn [List.filter p_ip].
      * rewrite bool_decide_eq_true_2 by done. cbn. lia.
      * rewrite bool_decide_eq_false_2 by done. cbn. lia.
    + destruct conns as [|p rest]; [by constructor|]. apply Forall_app. split; [done|]. by repeat constructor.
Qed.

Lemma drop_tidy id conns : tidy conns -> tidy (drop_place id conns).
Proof.
  intros (Hlen & Hheld & Htl). unfold drop_place. split; [|split; [intros ip|by apply tl_filter]].
  - etransitivity; [apply filter_le|done].
  - etransitivity; [apply filter_sub_length|apply Hheld].
Qed.

Lemma step_tidy ev s : tidy (conns s) -> tidy (conns (step ev s).2).
Proof.
  intros Hs. destruct ev as [ip|id]; cbn [step]; [|by apply drop_tidy].
  pose proof (admit_tidy (get_new_id s) ip (conns s) Hs) as Ht.
  by destruct (admit_unauthorized _ _ _) as [[? told] c].
Qed.

(** However connections arrive and leave, at most 64 wait for their authorisation, at
    most 16 of one address, and at most one, the oldest, is on its way out. *)
Theorem admission_stays_within_the_limits (evs : list Event) (s : Server) :
  tidy (conns s) -> tidy (conns (run evs s).2).
Proof.
  revert s. induction evs as [|ev evs IH]; intros s Hs; [done|]. cbn [run].
  pose proof (step_tidy ev s Hs) as Ht. destruct (step ev s) as [told s1]. cbn [snd] in Ht.
  specialize (IH s1 Ht). by destruct (run evs s1).
Qed.

(** An arrival is admitted exactly when its address has less than its share and there
    is room; over its share it changes nothing, and without room it tells the oldest to
    go, if nobody was told. *)
Theorem admission_cases (id : Z) (ip : IpAddr) (conns : Places) :
  let '(ok, told, conns') := admit_unauthorized id ip conns in
  (ok = true <-> (held_by ip conns < MAX_UNAUTHORIZED_CONNS_PER_ADDR
                  /\ length conns < MAX_UNAUTHORIZED_CONNS)%nat)
  /\ (ok = true -> told = None /\ conns' = conns ++ [mkPlace id ip false])
  /\ (ok = false -> p_id <$> conns' = p_id <$> conns)
  /\ ((MAX_UNAUTHORIZED_CONNS_PER_ADDR <= held_by ip conns)%nat -> told = None /\ conns' = conns)
  /\ (forall p, told = Some p ->
      head conns = Some p /\ evicted p = false /\ length conns >= MAX_UNAUTHORIZED_CONNS)%nat.
Proof.
  unfold admit_unauthorized.
  destruct (Nat.leb_spec MAX_UNAUTHORIZED_CONNS_PER_ADDR (held_by ip conns)) as [Hshare|Hshare].
  { split_and!; try done; intros; lia. }
  destruct (Nat.leb_spec MAX_UNAUTHORIZED_CONNS (length conns)) as [Hfull|Hfull].
  - destruct conns as [|p rest]; [cbn in Hfull; unfold MAX_UNAUTHORIZED_CONNS in *; lia|].
    split_and!; try done; [lia|lia|].
    intros q Hq. destruct (evicted p) eqn:Ep; [done|]. injection Hq as <-. by split_and!.
  - split_and!; try done. lia.
Qed.

(** ** A flood from one address *)

(** Places of other addresses. *)
Definition others (ip : IpAddr) (conns : Places) : nat :=
  length (List.filter (fun p => negb (bool_decide (p_ip p = ip))) conns).

Lemma others_held ip conns : (others ip conns + held_by ip conns = length conns)%nat.
Proof.
  unfold others, held_by. induction conns as [|p conns IH]; [done|]. cbn.
  destruct (bool_decide (p_ip p = ip)); cbn; lia.
Qed.

(** Only the address arrives, and only who was told to go leaves. *)
Fixpoint flood (ip : IpAddr) (evs : list Event) (s : Server) : Prop :=
  match evs with
  | [] => True
  | ev :: evs =>
      match ev with Arrive ip' => ip' = ip | Leave id => is_evicted id (conns s) = true end
      /\ flood ip evs (step ev s).2
  end.

(** The oldest of the table is told to go and is of another address. *)
Definition other_going (ip : IpAddr) (conns : Places) : nat :=
  match conns with
  | p :: _ => if evicted p && negb (bool_decide (p_ip p = ip)) then 1 else 0
  | [] => 0
  end.

(** Every id was given once, and before. *)
Definition numbered (s : Server) : Prop :=
  NoDup (p_id <$> conns s) /\ Forall (fun p => p_id p <= id_count s) (conns s).

Definition id_room (evs : list Event) (s : Server) : Prop :=
  0 <= id_count s /\ id_count s + Z.of_nat (length evs) <= Int.smax 32.

Lemma new_id s : 0 <= id_count s -> id_count s + 1 <= Int.smax 32 -> get_new_id s = id_count s + 1.
Proof.
  intros H1 H2. apply Int.swrap_small; [lia|]. unfold Int.is_s.
  change (Int.smin 32) with (-2147483648). lia.
Qed.

Lemma drop_ids_sub id l : p_id <$> drop_place id l = List.filter (fun i => negb (i =? id)) (p_id <$> l).
Proof. unfold drop_place. induction l as [|p l IH]; [done|]. cbn. destruct (negb _); cbn; by rewrite <- IH. Qed.

Lemma step_numbered ev s :
  0 <= id_count s -> id_count s + 1 <= Int.smax 32 -> numbered s ->
  numbered (step ev s).2 /\ id_count s <= id_count (step ev s).2 <= id_count s + 1.
Proof.
  intros H0 H1 [Hnd Hle]. destruct ev as [ip|id]; cbn [step].
  - rewrite (new_id s H0 H1). unfold admit_unauthorized.
    assert (Forall (fun p => p_id p <= id_count s + 1) (conns s)) as Hle'
      by (apply (Forall_impl _ _ _ Hle); lia).
    destruct (_ <=? held_by _ _)%nat; [split; [by split|cbn; lia]|].
    destruct (_ <=? length _)%nat.
    { destruct (conns s) as [|p rest]; split; try (cbn; lia); [by split|]. split; [done|].
      cbn. apply Forall_cons in Hle' as [? ?]. by constructor. }
    split; [|cbn; lia]. split; cbn.
    + rewrite fmap_app. apply NoDup_app. split; [done|]. split; [|apply NoDup_singleton].
      intros i Hi [= ->]%list_elem_of_singleton. apply list_elem_of_fmap in Hi as (p & Hp & Hin).
      apply list_elem_of_In in Hin. pose proof (proj1 (List.Forall_forall _ _) Hle p Hin) as Hlt. cbn in *. lia.
    + apply Forall_app. split; [done|]. repeat constructor. cbn. lia.
  - split; [|cbn; lia]. split; cbn.
    + rewrite drop_ids_sub. apply NoDup_ListNoDup, List.NoDup_filter, NoDup_ListNoDup, Hnd.
    + apply List.Forall_forall. intros p [Hp _]%List.filter_In. by apply (proj1 (List.Forall_forall _ _) Hle).
Qed.

Lemma others_app ip l l' : others ip (l ++ l') = (others ip l + others ip l')%nat.
Proof. unfold others. by rewrite List.filter_app, length_app. Qed.

Lemma others_mark ip p rest b : others ip (mkPlace (p_id p) (p_ip p) b :: rest) = others ip (p :: rest).
Proof. unfold others. cbn. by destruct (negb _). Qed.

(** Who was told to go is the oldest. *)
Lemma leaving_is_oldest id l :
  tidy l -> NoDup (p_id <$> l) -> is_evicted id l = true ->
  exists p rest, l = p :: rest /\ evicted p = true /\ drop_place id l = rest.
Proof.
  intros (_ & _ & Htl) Hnd Hev. apply existsb_exists in Hev as (p & Hin & [Hid%Z.eqb_eq Hp]%andb_true_iff).
  destruct l as [|q rest]; [done|]. cbn [tl] in Htl. destruct Hin as [->|Hin].
  - exists p, rest. split; [done|]. split; [done|]. unfold drop_place. cbn [List.filter].
    rewrite Hid, Z.eqb_refl. cbn [negb]. apply NoDup_cons in Hnd as [Hnin _]. rewrite Hid in Hnin.
    clear Hp Htl Hid. induction rest as [|r rest IH]; [done|]. cbn. cbn in Hnin.
    apply not_elem_of_cons in Hnin as [Hne Hnin]. rewrite (proj2 (Z.eqb_neq _ _)) by congruence. cbn. by rewrite IH.
  - pose proof (proj1 (List.Forall_forall _ _) Htl p Hin) as Hf. congruence.
Qed.

(** One move of the flood uses up the room of the others above their 48 places. *)
Lemma flood_step ip ev s :
  tidy (conns s) -> numbered s ->
  match ev with Arrive ip' => ip' = ip | Leave id => is_evicted id (conns s) = true end ->
  let '(told, s1) := step ev s in
  (others ip (told_list told) + (others ip (conns s1) - other_going ip (conns s1) - 48)
   <= others ip (conns s) - other_going ip (conns s) - 48)%nat.
Proof.
  intros Ht [Hnd _] Hev. pose proof Ht as (Hlen & _ & Htl). destruct ev as [ip'|id]; cbn [step].
  - subst ip'. pose proof (others_held ip (conns s)) as Hoh. unfold admit_unauthorized.
    destruct (Nat.leb_spec MAX_UNAUTHORIZED_CONNS_PER_ADDR (held_by ip (conns s))) as [Hs|Hs]; [cbn [told_list conns]; change (others ip []) with 0%nat; lia|].
    destruct (Nat.leb_spec MAX_UNAUTHORIZED_CONNS (length (conns s))) as [Hf|Hf].
    + unfold MAX_UNAUTHORIZED_CONNS, MAX_UNAUTHORIZED_CONNS_PER_ADDR in *.
      destruct (conns s) as [|p rest]; [cbn in Hf; lia|]. cbn [conns].
      rewrite others_mark.
      unfold other_going. cbn [evicted p_ip]. destruct (evicted p); cbn [told_list andb].
      * cbn. lia.
      * unfold others at 1. cbn [List.filter]. destruct (negb _); cbn [length]; lia.
    + cbn [conns told_list]. rewrite others_app. unfold others at 1 3. cbn [List.filter p_ip length].
      rewrite bool_decide_eq_true_2 by done. cbn [negb length]. destruct (conns s) as [|p rest]; cbn; lia.
  - destruct (leaving_is_oldest id (conns s) Ht Hnd Hev) as (p & rest & El & Ep & Ed). rewrite El in *.
    cbn [conns]. rewrite Ed. cbn [tl] in Htl.
    assert (other_going ip rest = 0%nat) as Hg.
    { destruct rest as [|q rest']; [done|]. cbn. apply Forall_cons in Htl as [-> _]. done. }
    rewrite Hg. unfold other_going. rewrite Ep. unfold others. cbn [told_list List.filter andb].
    destruct (negb _); cbn [length]; lia.
Qed.

Lemma flood_run ip evs s :
  tidy (conns s) -> numbered s -> id_room evs s -> flood ip evs s ->
  (others ip (run evs s).1 <= others ip (conns s) - other_going ip (conns s) - 48)%nat.
Proof.
  revert s. induction evs as [|ev evs IH]; intros s Ht Hn [H0 Hroom] Hf; [cbn [run fst]; change (others ip []) with 0%nat; lia|].
  cbn [length] in Hroom. destruct Hf as [Hev Hf]. cbn [run].
  pose proof (flood_step ip ev s Ht Hn Hev) as Hstep. pose proof (step_tidy ev s Ht) as Ht1.
  destruct (step_numbered ev s) as [Hn1 Hid]; [lia|lia|done|].
  destruct (step ev s) as [told s1]. cbn [snd] in *.
  specialize (IH s1 Ht1 Hn1 ltac:(split; lia) Hf). destruct (run evs s1) as [ps s2]. cbn [fst] in *.
  rewrite others_app. lia.
Qed.

(** A single address turns out at most its share: while only it arrives and only who
    was told to go leaves, at most 16 connections of other addresses are told to go, for
    as long as it goes on. *)
Theorem one_address_turns_out_its_share (ip : IpAddr) (evs : list Event) (s : Server) :
  tidy (conns s) -> numbered s -> id_room evs s -> flood ip evs s ->
  (others ip (run evs s).1 <= MAX_UNAUTHORIZED_CONNS_PER_ADDR)%nat.
Proof.
  intros Ht Hn Hroom Hf. pose proof (flood_run ip evs s Ht Hn Hroom Hf) as Hk.
  pose proof (others_held ip (conns s)) as Ho. destruct Ht as [Hlen _].
  unfold MAX_UNAUTHORIZED_CONNS, MAX_UNAUTHORIZED_CONNS_PER_ADDR in *. lia.
Qed.

(** ** Samples *)

Definition net (n : Z) : IpAddr := V4 (198 * 2 ^ 24 + n).

(** The table full of different addresses. *)
Definition full : Server :=
  mkServer 1063 ((fun i => mkPlace (1000 + Z.of_nat i) (net (Z.of_nat i)) false) <$> seq 0 64).

(** A flooder arrives twice for each connection that leaves. *)
Definition attack (n : nat) : list Event :=
  concat ((fun i => [Arrive (net 200); Leave (1000 + Z.of_nat i); Arrive (net 200)]) <$> seq 0 n).

Example attack_ends_at_the_share :
  length (run (attack 16) full).1 = 16%nat /\ (run (attack 16 ++ [Arrive (net 200)]) full).1 = (run (attack 16) full).1
  /\ held_by (net 200) (conns (run (attack 16) full).2) = 16%nat.
Proof. vm_compute. repeat split. Qed.

Lemma full_tidy : tidy (conns full).
Proof.
  split; [vm_compute; lia|]. split.
  - intros ip. unfold MAX_UNAUTHORIZED_CONNS_PER_ADDR. transitivity 1%nat; [|lia].
    unfold full, held_by. cbn [conns].
    assert (forall n k, length (List.filter (fun p => bool_decide (p_ip p = ip))
       ((fun i => mkPlace (1000 + Z.of_nat i) (net (Z.of_nat i)) false) <$> seq k n)) <= 1
       /\ ((exists i, i < k /\ ip = net (Z.of_nat i))%nat -> length (List.filter (fun p => bool_decide (p_ip p = ip))
       ((fun i => mkPlace (1000 + Z.of_nat i) (net (Z.of_nat i)) false) <$> seq k n)) = 0))%nat as Hall.
    { intros n. induction n as [|n IH]; intros k; [cbn; split; [lia|done]|]. cbn.
      destruct (IH (S k)) as [H1 H2]. case_bool_decide as E; cbn.
      - subst ip. rewrite H2; [|exists k; split; [lia|done]]. split; [lia|].
        intros (i & Hi & [= E]). lia.
      - split; [done|]. intros (i & Hi & ->). apply H2. exists i. split; [lia|done]. }
    apply (Hall 64%nat 0%nat).
  - vm_compute. repeat constructor.
Qed.

Lemma admission_stays_within_the_limits_witness : tidy (conns (run (attack 3) full).2).
Proof. apply (admission_stays_within_the_limits (attack 3) full). exact full_tidy. Defined.

Lemma one_address_turns_out_its_share_witness :
  (others (net 200) (run (attack 3) full).1 <= MAX_UNAUTHORIZED_CONNS_PER_ADDR)%nat.
Proof.
  apply (one_address_turns_out_its_share (net 200) (attack 3) full).
  - exact full_tidy.
  - split; [|vm_compute; repeat constructor; discriminate].
    assert (bool_decide (NoDup (p_id <$> conns full)) = true) as E by (vm_compute; reflexivity).
    exact (proj1 (bool_decide_eq_true _) E).
  - vm_compute. split; discriminate.
  - vm_compute. repeat split.
Defined.
