(* ===== verification/AuditQueue.v ===== *)
(** * The audit queue: [src/clanto/audit_queue.rs]

    The numbers that the audit events carry, and the events that were not delivered:
    the queue in memory, its files, the delivery to the server.  JSON, the sealing with
    the machine key and the parser of URLs are third-party code (the classes
    [AuditJson] and [Sealing]).  A request to the server is two steps, as the lock is
    free meanwhile: [flush_take] sends the oldest event, [flush_reply] gets the answer.
    New UUIDs, the outcomes of the writes and the answers are arguments. *)

From S2P Require Import Prelude.

Class AuditJson := {
  Value : Type;
  (** [v\[key\]], [Null] where it is missing; [v\[key\] = x]. *)
  index : rstr -> Value -> Value;
  set_index : rstr -> Value -> Value -> Value;
  as_u64 : Value -> option Z;
  as_str : Value -> option rstr;
  json_u64 : Z -> Value;
  json_i64 : Z -> Value;
  json_str : rstr -> Value;
  json_object : list (rstr * Value) -> Value;
  from_str : rstr -> option Value;
  to_string : Value -> rstr }.

Class Sealing := {
  encrypt_str_or_original_scoped : rstr -> Z -> rstr;
  decrypt_str_or_original_scoped : rstr -> rstr * bool }.

Definition MAX_QUEUED : Z := 10000.
Definition MAX_RECORD_CHARS : Z := 256 * 1024.
Definition KINDS : list rstr := [Str.lit "conn"; Str.lit "file"; Str.lit "alarm"].

(** [str::lines]. *)
Definition lines (text : rstr) : list rstr :=
  let pieces := Str.split (Str.ch 10) text in
  let pieces := if bool_decide (last pieces = Some []) then removelast pieces else pieces in
  (fun l => match last l with Some 13 => removelast l | _ => l end) <$> pieces.

Definition ends_with (suffix s : rstr) : bool := Str.starts_with (rev suffix) (rev s).

Section AuditQueue.
Context {AJ : AuditJson} {SE : Sealing}.

Abbreviation Item := (rstr * Value)%type.

Record Queue := mkQueue {
  loaded : bool; epoch : rstr; next_seq : Z; dropped : Z; items : list Item }.

Definition empty_queue : Queue := mkQueue false [] 0 0 [].

(** The text of the state's file and that of the queue's, if they are there. *)
Record Disk := mkDisk { state_file : option rstr; queue_file : option rstr }.

(** The service: [flight] is the event of the request that waits for its answer. *)
Record Service := mkService { queue : Queue; disk : Disk; flight : option Item }.

(** What a write leaves of a file: its new text, or something else. *)
Inductive Write := Written | Failed (remains : option rstr).

(** What an operation meets outside: the UUID and the write of a first load, the writes
    of the operation. *)
Record Io := mkIo { uuid : rstr; load_write : Write; state_write : Write; queue_written : bool }.

Definition state_json (e : rstr) (seq n : Z) : Value :=
  json_object [(Str.lit "seq_epoch", json_str e); (Str.lit "next_seq", json_u64 seq);
               (Str.lit "dropped", json_u64 n)].

Definition save_state (w : Write) (q : Queue) (d : Disk) : Disk :=
  mkDisk
    (match w with
     | Written => Some (to_string (state_json (epoch q) (next_seq q) (dropped q)))
     | Failed remains => remains
     end) (queue_file d).

(** The line of an event; none without the machine key. *)
Definition seal (x : Item) : option rstr :=
  let plain := to_string (json_object [(Str.lit "kind", json_str x.1); (Str.lit "body", x.2)]) in
  let sealed := encrypt_str_or_original_scoped plain MAX_RECORD_CHARS in
  if bool_decide (sealed = []) || bool_decide (sealed = plain) then None else Some sealed.

(** Written aside and renamed: a failure leaves the file as it was. *)
Definition save_queue (ok : bool) (q : Queue) (d : Disk) : Disk :=
  if ok then
    mkDisk (state_file d)
      (if bool_decide (length (items q) = 0%nat) then None
       else Some (concat ((fun l => l ++ [10]) <$> omap seal (items q))))
  else d.

Definition unseal (line : rstr) : option Value :=
  let '(plain, ok) := decrypt_str_or_original_scoped line in
  if ok then from_str plain else None.

(** One line of the file: an event of a known kind, or one more that was lost. *)
Definition load_line (acc : Z * list Item) (line : rstr) : Z * list Item :=
  let '(n, xs) := acc in
  match unseal line with
  | Some v =>
      let kind := default [] (as_str (index (Str.lit "kind") v)) in
      if bool_decide (kind ∈ KINDS) then (n, xs ++ [(kind, index (Str.lit "body") v)]) else (n, xs)
  | None => (Int.wrap 64 (n + 1), xs)
  end.

Definition load_state (text : option rstr) : rstr * Z * Z :=
  match text ≫= from_str with
  | Some v =>
      (default [] (as_str (index (Str.lit "seq_epoch") v)),
       default 0 (as_u64 (index (Str.lit "next_seq") v)),
       default 0 (as_u64 (index (Str.lit "dropped") v)))
  | None => ([], 0, 0)
  end.

(** A new counter, or one that was lost, takes a new epoch. *)
Definition load (io : Io) (q : Queue) (d : Disk) : Queue * Disk :=
  if loaded q then (q, d)
  else
    let '(e, seq, n) := load_state (state_file d) in
    let '(q, d) :=
      if bool_decide (e = []) then
        let q := mkQueue true (uuid io) 0 n (items q) in (q, save_state (load_write io) q d)
      else (mkQueue true e seq n (items q), d) in
    let '(n, xs) :=
      match queue_file d with
      | Some text => foldl load_line (dropped q, items q)
                       (List.filter (fun l => negb (bool_decide (l = []))) (lines text))
      | None => (dropped q, items q)
      end in
    (mkQueue true (epoch q) (next_seq q) n xs, d).

(** [stamp]: the event with its number, and the pair that it carries. *)
Definition stamp (io : Io) (now : Z) (v : Value) (s : Service) : Value * (rstr * Z) * Service :=
  let '(q, d) := load io (queue s) (disk s) in
  let v := set_index (Str.lit "seq") (json_u64 (next_seq q)) v in
  let v := set_index (Str.lit "seq_epoch") (json_str (epoch q)) v in
  let q' := mkQueue (loaded q) (epoch q) (Int.wrap 64 (next_seq q + 1)) (dropped q) (items q) in
  (set_index (Str.lit "ts") (json_i64 now) v, (epoch q, next_seq q),
   mkService q' (save_state (state_write io) q' d) (flight s)).

(** [path] is the path of the URL, if it is one. *)
Definition kind_of (path : option rstr) : option rstr :=
  path ← path;
  List.find (fun k => ends_with (Str.lit "/api/audit/" ++ k) path) KINDS.

(** [while q.items.len() >= MAX_QUEUED]. *)
Definition overflow (xs : list Item) : list Item := 
  take (Z.to_nat (Z.of_nat (length xs) + 1 - MAX_QUEUED)) xs.

Definition push (io : Io) (path : option rstr) (v : Value) (enrolled : bool) (s : Service) : Service :=
  match kind_of path with
  | None => s
  | Some kind =>
      if negb enrolled then s
      else
        let '(q, d) := load io (queue s) (disk s) in
        let gone := overflow (items q) in
        let q := mkQueue (loaded q) (epoch q) (next_seq q)
                   (Int.wrap 64 (dropped q + Z.of_nat (length gone)))
                   (drop (length gone) (items q) ++ [(kind, v)]) in
        mkService q (save_state (state_write io) q (save_queue (queue_written io) q d)) (flight s)
  end.

(** [dropped], the count for the heartbeat. *)
Definition get_dropped (io : Io) (s : Service) : Z * Service :=
  let '(q, d) := load io (queue s) (disk s) in (dropped q, mkService q d (flight s)).

Definition dropped_reported (io : Io) (count : Z) (s : Service) : Service :=
  let q := queue s in
  let q := mkQueue (loaded q) (epoch q) (next_seq q) (Int.sat_subu (dropped q) count) (items q) in
  mkService q (save_state (state_write io) q (disk s)) (flight s).

Definition clear (io : Io) (new_epoch : rstr) (s : Service) : Service :=
  let '(q, d) := load io (queue s) (disk s) in
  let q := mkQueue (loaded q) new_epoch 0 0 [] in
  mkService q (save_state (state_write io) q (save_queue (queue_written io) q d)) (flight s).

(** [flush_once], up to the request: its URL and its text. *)
Definition flush_take (io : Io) (device_api : option rstr) (s : Service) : option (rstr * rstr) * Service :=
  match device_api, flight s with
  | Some api, None =>
      let '(q, d) := load io (queue s) (disk s) in
      match head (items q) with
      | None => (None, mkService q d None)
      | Some (kind, body) =>
          (Some (api ++ Str.lit "/api/audit/" ++ kind, to_string body),
           mkService q d (Some (kind, body)))
      end
  | _, _ => (None, s)
  end.

(** Delivered, or refused for good. *)
Definition settles (status : Z) (rsp : rstr) : bool :=
  ((200 <=? status) && (status <? 300) && bool_decide (Str.trim rsp = []))
  || ((400 <=? status) && (status <? 500) && negb (status =? 401) && negb (status =? 408)
      && negb (status =? 429)).

(** [flush_once], from the answer on. *)
Definition flush_reply (io : Io) (answer : option (Z * rstr)) (s : Service) : Service :=
  match flight s, answer with
  | Some _, Some (status, rsp) =>
      if settles status rsp then
        let q := queue s in
        let q := mkQueue (loaded q) (epoch q) (next_seq q) (dropped q) (tail (items q)) in
        mkService q (save_queue (queue_written io) q (disk s)) None
      else mkService (queue s) (disk s) None
  | _, _ => mkService (queue s) (disk s) None
  end.

(** ** The service *)

Inductive Event :=
| Stamp (io : Io) (now : Z) (v : Value)
| Push (io : Io) (path : option rstr) (v : Value) (enrolled : bool)
| Dropped (io : Io)
| Reported (io : Io) (count : Z)
| Clear (io : Io) (new_epoch : rstr)
| Take (io : Io) (device_api : option rstr)
| Reply (io : Io) (answer : option (Z * rstr))
| Restart.

Definition step (ev : Event) (s : Service) : Service :=
  match ev with
  | Stamp io now v => (stamp io now v s).2
  | Push io path v enrolled => push io path v enrolled s
  | Dropped io => (get_dropped io s).2
  | Reported io count => dropped_reported io count s
  | Clear io new_epoch => clear io new_epoch s
  | Take io api => (flush_take io api s).2
  | Reply io answer => flush_reply io answer s
  | Restart => mkService empty_queue (disk s) None
  end.

Definition run (evs : list Event) (s : Service) : Service := foldl (fun s ev => step ev s) s evs.

(** * Specification *)

(** ** The numbers *)

Definition stamped (ev : Event) (s : Service) : list (rstr * Z) :=
  match ev with Stamp io now v => [(stamp io now v s).1.2] | _ => [] end.

(** The numbers given in a run. *)
Fixpoint stamps (evs : list Event) (s : Service) : list (rstr * Z) :=
  match evs with [] => [] | ev :: evs => stamped ev s ++ stamps evs (step ev s) end.

(** The UUIDs that an event may take. *)
Definition uuids_of (ev : Event) : list rstr :=
  match ev with
  | Stamp io _ _ | Push io _ _ _ | Dropped io | Take io _ => [uuid io]
  | Clear io new_epoch => [uuid io; new_epoch]
  | Reported _ _ | Reply _ _ | Restart => []
  end.

(** A write that fails does not leave an older counter behind. *)
Definition safe_write (w : Write) : Prop :=
  match w with Written => True | Failed remains => (load_state remains).1.1 = [] end.

Definition safe_io (io : Io) : Prop := safe_write (load_write io) /\ safe_write (state_write io).

Definition safe_writes (ev : Event) : Prop :=
  match ev with
  | Stamp io _ _ | Push io _ _ _ | Dropped io | Reported io _ | Clear io _ | Take io _ | Reply io _ =>
      safe_io io
  | Restart => True
  end.

(** ** The queue *)

Definition enqueued_by (ev : Event) (s : Service) : list Item :=
  match ev with
  | Push io path v true => match kind_of path with Some kind => [(kind, v)] | None => [] end
  | _ => []
  end.

(** What leaves the front of the queue: [true] after the answer to a request, [false]
    to make room. *)
Definition gone_by (ev : Event) (s : Service) : list (bool * Item) :=
  match ev with
  | Push io path v true =>
      match kind_of path with
      | Some _ => pair false <$> overflow (items (load io (queue s) (disk s)).1)
      | None => []
      end
  | Reply io (Some (status, rsp)) =>
      match flight s with
      | Some _ => if settles status rsp then pair true <$> take 1 (items (queue s)) else []
      | None => []
      end
  | _ => []
  end.

(** The events whose request the server answered for good. *)
Definition settled_by (ev : Event) (s : Service) : list Item :=
  match ev with
  | Reply io (Some (status, rsp)) =>
      match flight s with Some x => if settles status rsp then [x] else [] | None => [] end
  | _ => []
  end.

Fixpoint collect {A} (f : Event -> Service -> list A) (evs : list Event) (s : Service) : list A :=
  match evs with [] => [] | ev :: evs => f ev s ++ collect f evs (step ev s) end.

(** No restart or clearing, and no event dropped during a request. *)
Fixpoint calm (evs : list Event) (s : Service) : Prop :=
  match evs with
  | [] => True
  | ev :: evs =>
      match ev with
      | Clear _ _ | Restart => False
      | Push _ _ _ _ => flight s = None \/ Z.of_nat (length (items (queue s))) < MAX_QUEUED
      | _ => True
      end /\ calm evs (step ev s)
  end.

Definition no_report (ev : Event) : Prop := match ev with Reported _ _ => False | _ => True end.

(** What is relied on of JSON and of the sealing. *)
Class AuditLaws : Prop := {
  from_to_string v : from_str (to_string v) = Some v;
  index_object k x l : index k (json_object ((k, x) :: l)) = x;
  index_object_ne k k' x l : k <> k' -> index k (json_object ((k', x) :: l)) = index k (json_object l);
  as_str_json s : as_str (json_str s) = Some s;
  as_u64_json n : Int.is_u 64 n -> as_u64 (json_u64 n) = Some n;
  decrypt_encrypt plain n :
    let sealed := encrypt_str_or_original_scoped plain n in
    sealed <> [] -> sealed <> plain ->
    decrypt_str_or_original_scoped sealed = (plain, true)
    /\ Forall (fun c => c <> 10 /\ c <> 13) sealed }.

(** * Theorems *)

Context {AL : AuditLaws}.

(** ** The numbers never repeat *)

Lemma load_state_saved e n k :
  Int.is_u 64 n -> (load_state (Some (to_string (state_json e n k)))).1 = (e, n).
Proof.
  intros Hn. unfold load_state. cbn [mbind option_bind]. rewrite from_to_string. cbn [fst].
  unfold state_json. rewrite index_object, index_object_ne, index_object by done.
  by rewrite as_str_json, as_u64_json.
Qed.

(** Every number of the epoch is below the counter, which has room for more. *)
Definition covers (past : list (rstr * Z)) (room : Z) (e : rstr) (n : Z) : Prop :=
  0 <= n /\ n + room < 2 ^ 64 /\ Forall (fun p => p.1 = e -> p.2 < n) past.

Definition memory (q : Queue) : option (rstr * Z) :=
  if loaded q then Some (epoch q, next_seq q) else None.
Definition on_disk (d : Disk) : rstr * Z := (load_state (state_file d)).1.

Record inv (future : list rstr) (past : list (rstr * Z)) (room : Z) (q : Queue) (d : Disk) : Prop := {
  inv_memory e n : memory q = Some (e, n) -> covers past room e n;
  inv_disk : (on_disk d).1 <> [] -> covers past room (on_disk d).1 (on_disk d).2;
  inv_new : NoDup future;
  inv_fresh u : u ∈ future ->
    u <> [] /\ (u ∉ past.*1) /\ u <> (on_disk d).1 /\ forall n, memory q <> Some (u, n);
  inv_unloaded : loaded q = false -> epoch q = [] }.

Lemma covers_u past room e n : 0 <= room -> covers past room e n -> Int.is_u 64 n.
Proof. intros Hr (H0 & H1 & _). unfold Int.is_u, Int.umax. lia. Qed.

Lemma covers_new past room u : 0 <= room < 2 ^ 64 -> (u ∉ past.*1) -> covers past room u 0.
Proof.
  intros Hr Hu. split; [lia|]. split; [lia|]. apply List.Forall_forall. intros p Hp <-. destruct Hu.
  apply list_elem_of_fmap. exists p. by rewrite list_elem_of_In.
Qed.

Lemma covers_weak past room room' e n : room' <= room -> covers past room e n -> covers past room' e n.
Proof. intros Hr (H0 & H1 & Hp). split; [done|]. split; [lia|done]. Qed.

Lemma on_disk_saved w q d :
  safe_write w -> Int.is_u 64 (next_seq q) ->
  on_disk (save_state w q d) = (epoch q, next_seq q) \/ (on_disk (save_state w q d)).1 = [].
Proof.
  intros Hw Hn. unfold on_disk, save_state. cbn [state_file].
  destruct w as [|remains]; [left; by apply load_state_saved|by right].
Qed.

(** What [inv] reads of a queue. *)
Lemma inv_same future past room q q' d d' :
  memory q' = memory q -> epoch q' = epoch q -> state_file d' = state_file d ->
  inv future past room q d -> inv future past room q' d'.
Proof.
  intros Hm He Hd [H1 H2 H3 H4 H5].
  assert (on_disk d' = on_disk d) as Hod by (unfold on_disk; by rewrite Hd).
  constructor; rewrite ?Hm, ?Hod; auto. intros Hl. rewrite He. apply H5.
  unfold memory in Hm. rewrite Hl in Hm. by destruct (loaded q).
Qed.

Lemma inv_weak future future' past room room' q d :
  room' <= room -> sublist future' future -> inv future past room q d -> inv future' past room' q d.
Proof.
  intros Hr Hs [H1 H2 H3 H4 H5]. constructor; [| | | |done].
  - intros e n Hm. by apply (covers_weak _ room), H1.
  - intros Hd. by apply (covers_weak _ room), H2.
  - by apply (sublist_NoDup _ _ H3).
  - intros u Hu. apply H4. by apply (elem_of_sublist _ _ _ Hu).
Qed.

(** The counter in memory is written down. *)
Lemma inv_save future past room w q d :
  0 <= room -> safe_write w -> inv future past room q d ->
  inv future past room q (save_state w q d).
Proof.
  intros Hr Hw Hi. pose proof Hi as [H1 H2 H3 H4 H5]. destruct (loaded q) eqn:El.
  - assert (memory q = Some (epoch q, next_seq q)) as Hm by (unfold memory; by rewrite El).
    pose proof (H1 _ _ Hm) as Hc.
    destruct (on_disk_saved w q d Hw (covers_u _ _ _ _ Hr Hc)) as [E|E];
      (constructor; [done| |done| |congruence]); rewrite ?E.
    + by intros _.
    + intros u Hu. destruct (H4 u Hu) as (Hne & Hp & _ & Hmu). split; [done|]. split; [done|].
      split; [|done]. cbn. intros ->. by apply (Hmu (next_seq q)).
    + by intros [].
    + intros u Hu. destruct (H4 u Hu) as (Hne & Hp & _ & Hmu). by split_and!.
  - assert ((on_disk (save_state w q d)).1 = []) as E.
    { destruct w as [|remains]; [|done]. unfold on_disk, save_state. cbn [state_file].
      unfold load_state. cbn [mbind option_bind]. rewrite from_to_string. cbn [fst].
      unfold state_json. by rewrite index_object, as_str_json, (H5 eq_refl). }
    constructor; [done| |done| |by intros _; apply H5]; rewrite ?E; [by intros []|].
    intros u Hu. destruct (H4 u Hu) as (Hne & Hp & _ & Hmu). by split_and!.
Qed.

(** A new epoch in memory, taken from the UUIDs. *)
Lemma inv_new_epoch future past room q q' u d :
  0 <= room < 2 ^ 64 -> memory q' = Some (u, 0) -> loaded q' = true ->
  inv (u :: future) past room q d -> inv future past room q' d.
Proof.
  intros Hr Hm Hl [H1 H2 H3 H4 H5]. apply NoDup_cons in H3 as [Hnin Hnd].
  destruct (H4 u) as (Hne & Hp & _ & _); [left|].
  constructor; [|done|done| |congruence].
  - rewrite Hm. intros e n [= <- <-]. by apply covers_new.
  - intros u' Hu'. destruct (H4 u') as (Hne' & Hp' & Hd' & _); [by right|]. split_and!; [done..|].
    rewrite Hm. intros n [= <-]. done.
Qed.

Lemma load_inv io future past room q d :
  0 <= room < 2 ^ 64 -> safe_io io -> inv (uuid io :: future) past room q d ->
  let '(q', d') := load io q d in loaded q' = true /\ inv future past room q' d'.
Proof.
  intros Hr [Hw _] Hi. unfold load. destruct (loaded q) eqn:El.
  { split; [done|]. apply (inv_weak (uuid io :: future) _ _ room); [lia|by constructor|done]. }
  destruct (load_state (state_file d)) as [[e seq] n] eqn:Ed.
  assert (on_disk d = (e, seq)) as Hod by (unfold on_disk; by rewrite Ed).
  case_bool_decide as Ee.
  - set (q1 := mkQueue true (uuid io) 0 n (items q)).
    assert (inv future past room q1 (save_state (load_write io) q1 d)) as Hi1.
    { apply inv_save; [lia|done|]. by apply (inv_new_epoch _ _ _ q _ (uuid io)). }
    destruct (match queue_file _ with Some _ => _ | None => _ end) as [n' xs].
    split; [done|]. by apply (inv_same _ _ _ q1 _ (save_state (load_write io) q1 d)).
  - destruct (match queue_file _ with Some _ => _ | None => _ end) as [n' xs].
    split; [done|]. destruct Hi as [H1 H2 H3 H4 H5]. rewrite Hod in *. apply NoDup_cons in H3 as [_ H3].
    constructor; [|by rewrite Hod|done| |done]; unfold memory; cbn [loaded epoch next_seq].
    + intros e' n0 [= <- <-]. by apply H2.
    + intros u Hu. destruct (H4 u) as (Hne & Hp & Hd & _); [by right|]. rewrite Hod. split_and!; [done..|].
      intros n0 [= <-]. done.
Qed.

Lemma inv_stamp future past room w q d :
  0 <= room -> loaded q = true -> safe_write w -> inv future past (room + 1) q d ->
  let q' := mkQueue (loaded q) (epoch q) (Int.wrap 64 (next_seq q + 1)) (dropped q) (items q) in
  inv future (past ++ [(epoch q, next_seq q)]) room q' (save_state w q' d)
  /\ (epoch q, next_seq q) ∉ past.
Proof.
  intros Hr Hl Hw [H1 H2 H3 H4 H5] q'.
  assert (memory q = Some (epoch q, next_seq q)) as Hm by (unfold memory; by rewrite Hl).
  pose proof (H1 _ _ Hm) as (Hn0 & Hn & Hpast).
  assert (Int.wrap 64 (next_seq q + 1) = next_seq q + 1) as Hwrap.
  { apply Int.wrap_small. unfold Int.is_u, Int.umax. lia. }
  assert (memory q' = Some (epoch q, next_seq q + 1)) as Hm'.
  { unfold memory, q'. cbn. by rewrite Hl, Hwrap. }
  assert (covers (past ++ [(epoch q, next_seq q)]) room (epoch q) (next_seq q + 1)) as Hc.
  { split; [lia|]. split; [lia|]. apply Forall_app. split; [|constructor; [cbn; lia|constructor]].
    apply (Forall_impl _ _ _ Hpast). intros p Hp He. specialize (Hp He). lia. }
  split.
  - assert (forall u, u ∈ future -> u <> [] /\ (u ∉ (past ++ [(epoch q, next_seq q)]).*1) /\ u <> epoch q) as Hu.
    { intros u Hu. destruct (H4 u Hu) as (Hne & Hp & _ & Hmu). split; [done|].
      assert (u <> epoch q) as Hue by (intros ->; by apply (Hmu (next_seq q))). split; [|done].
      rewrite fmap_app. intros [Hx|Hx]%elem_of_app; [done|]. by apply list_elem_of_singleton in Hx. }
    assert (forall u, u ∈ future -> forall n, memory q' <> Some (u, n)) as Hmu'.
    { intros u Hin n. rewrite Hm'. intros [= <- _]. by destruct (Hu _ Hin) as (_ & _ & []). }
    destruct (on_disk_saved w q' d Hw) as [E|E].
    { unfold q'. cbn. rewrite Hwrap. unfold Int.is_u, Int.umax. lia. }
    + constructor; [rewrite Hm'; by intros e n [= <- <-]|rewrite E; cbn; rewrite Hwrap; done|done| |].
      * intros u Hin. destruct (Hu u Hin) as (Hne & Hp & Hue). rewrite E. split_and!; auto.
      * unfold q'. cbn. congruence.
    + constructor; [rewrite Hm'; by intros e n [= <- <-]|by rewrite E|done| |].
      * intros u Hin. destruct (Hu u Hin) as (Hne & Hp & Hue). rewrite E. split_and!; auto.
      * unfold q'. cbn. congruence.
  - intros Hin. pose proof (proj1 (List.Forall_forall _ _) Hpast _ (proj1 (list_elem_of_In _ _) Hin)) as Hlt.
    specialize (Hlt eq_refl). cbn in Hlt. lia.
Qed.

Lemma inv_restart future past room q d :
  inv future past room q d -> inv future past room empty_queue d.
Proof.
  intros [H1 H2 H3 H4 H5]. constructor; [done|done|done| |done].
  intros u Hu. destruct (H4 u Hu) as (Hne & Hp & Hd & _). by split_and!.
Qed.

(** An operation that loads, changes neither the epoch nor the counter, and may save. *)
Lemma inv_plain io future past room q d q1 d1 :
  0 <= room < 2 ^ 64 -> safe_io io -> inv (uuid io :: future) past (room + 1) q d ->
  load io q d = (q1, d1) -> inv future past room q1 d1.
Proof.
  intros Hr Hio Hi El. eapply (inv_weak _ _ _ _ room) in Hi; [|lia|reflexivity].
  pose proof (load_inv io future past room q d Hr Hio Hi) as Hl. rewrite El in Hl. apply Hl.
Qed.

Lemma push_inv io path v enrolled s future past room :
  0 <= room < 2 ^ 64 -> safe_io io -> inv (uuid io :: future) past (room + 1) (queue s) (disk s) ->
  inv future past room (queue (push io path v enrolled s)) (disk (push io path v enrolled s)).
Proof.
  intros Hr Hio Hi.
  assert (inv future past room (queue s) (disk s)) as Hs by (apply (inv_weak (uuid io :: future) _ _ (room + 1)); [lia|by constructor|done]).
  unfold push. destruct (kind_of path) as [kind|]; [|done]. destruct enrolled; [|done]. cbn [negb].
  destruct (load io (queue s) (disk s)) as [q1 d1] eqn:El.
  pose proof (inv_plain io future past room _ _ q1 d1 Hr Hio Hi El) as Hi1.
  apply inv_save; [lia|apply Hio|].
  apply (inv_same _ _ _ q1 _ d1); [done|done| |done]. by destruct (queue_written io).
Qed.

Lemma clear_inv io new_epoch s future past room :
  0 <= room < 2 ^ 64 -> safe_io io -> inv (uuid io :: new_epoch :: future) past (room + 1) (queue s) (disk s) ->
  inv future past room (queue (clear io new_epoch s)) (disk (clear io new_epoch s)).
Proof.
  intros Hr Hio Hi. unfold clear. destruct (load io (queue s) (disk s)) as [q1 d1] eqn:El.
  eapply (inv_weak _ _ _ _ room) in Hi; [|lia|reflexivity].
  pose proof (load_inv io _ past room _ _ Hr Hio Hi) as Hl. rewrite El in Hl. destruct Hl as [Hl Hi1].
  apply inv_save; [lia|apply Hio|].
  apply (inv_same _ _ _ (mkQueue (loaded q1) new_epoch 0 0 []) _ d1); [done|done|by destruct (queue_written io)|].
  apply (inv_new_epoch _ _ _ q1 _ new_epoch); [done| |done|done]. unfold memory. cbn. by rewrite Hl.
Qed.

Lemma reply_inv io answer s future past room :
  inv future past room (queue s) (disk s) ->
  inv future past room (queue (flush_reply io answer s)) (disk (flush_reply io answer s)).
Proof.
  intros Hi. unfold flush_reply. destruct (flight s), answer as [[status rsp]|]; try done.
  destruct (settles status rsp); [|done]. apply (inv_same _ _ _ (queue s) _ (disk s)); [done|done| |done].
  by destruct (queue_written io).
Qed.

Lemma take_inv io api s future past room :
  0 <= room < 2 ^ 64 -> safe_io io -> inv (uuid io :: future) past (room + 1) (queue s) (disk s) ->
  inv future past room (queue (flush_take io api s).2) (disk (flush_take io api s).2).
Proof.
  intros Hr Hio Hi.
  assert (inv future past room (queue s) (disk s)) as Hs by (apply (inv_weak (uuid io :: future) _ _ (room + 1)); [lia|by constructor|done]).
  unfold flush_take. destruct api as [api|]; [|done]. destruct (flight s); [done|].
  destruct (load io (queue s) (disk s)) as [q1 d1] eqn:El.
  pose proof (inv_plain io future past room _ _ q1 d1 Hr Hio Hi El) as Hi1.
  by destruct (head (items q1)) as [[kind body]|].
Qed.

Lemma step_inv ev s future past room :
  0 <= room -> room + 1 < 2 ^ 64 -> safe_writes ev ->
  inv (uuids_of ev ++ future) past (room + 1) (queue s) (disk s) ->
  inv future (past ++ stamped ev s) room (queue (step ev s)) (disk (step ev s))
  /\ NoDup (stamped ev s) /\ Forall (fun p => p ∉ past) (stamped ev s).
Proof.
  intros Hr Hr' Hw Hi. assert (0 <= room < 2 ^ 64) as Hroom by lia.
  destruct ev as [io now v|io path v enrolled|io|io count|io new_epoch|io api|io answer|];
    cbn [uuids_of stamped step app safe_writes] in *; rewrite ?app_nil_r.
  - unfold stamp. destruct (load io (queue s) (disk s)) as [q1 d1] eqn:El.
    pose proof (load_inv io future past (room + 1) _ _ ltac:(lia) Hw Hi) as Hl. rewrite El in Hl.
    destruct Hl as [Hl Hi1]. destruct (inv_stamp future past room (state_write io) q1 d1) as [Hi2 Hn];
      [done|done|apply Hw|done|]. split; [exact Hi2|]. cbn. split; [apply NoDup_singleton|by repeat constructor].
  - split; [by apply push_inv|by repeat constructor].
  - split; [|by repeat constructor]. unfold get_dropped.
    destruct (load io (queue s) (disk s)) as [q1 d1] eqn:El. by apply (inv_plain io _ _ _ _ _ q1 d1 Hroom Hw Hi).
  - split; [|by repeat constructor]. unfold dropped_reported. apply inv_save; [lia|apply Hw|].
    apply (inv_same _ _ _ (queue s) _ (disk s)); [done..|]. by apply (inv_weak future _ _ (room + 1)); [lia|reflexivity|].
  - split; [by apply clear_inv|by repeat constructor].
  - split; [by apply take_inv|by repeat constructor].
  - split; [|by repeat constructor]. apply reply_inv. by apply (inv_weak future _ _ (room + 1)); [lia|reflexivity|].
  - split; [|by repeat constructor]. apply (inv_restart _ _ _ (queue s)).
    by apply (inv_weak future _ _ (room + 1)); [lia|reflexivity|].
Qed.

Lemma stamps_inv evs s past :
  Z.of_nat (length evs) < 2 ^ 64 -> Forall safe_writes evs -> NoDup past ->
  inv (concat (uuids_of <$> evs)) past (Z.of_nat (length evs)) (queue s) (disk s) ->
  NoDup (past ++ stamps evs s).
Proof.
  revert s past. induction evs as [|ev evs IH]; intros s past Hlen Hw Hnd Hi.
  { cbn. by rewrite app_nil_r. }
  apply Forall_cons in Hw as [Hw Hws]. cbn [length concat fmap list_fmap] in *.
  rewrite Nat2Z.inj_succ in *. unfold Z.succ in *.
  destruct (step_inv ev s (concat (uuids_of <$> evs)) past (Z.of_nat (length evs))) as (Hi1 & Hnew & Hnin); [lia|lia|done|done|].
  cbn [stamps]. rewrite app_assoc. apply IH; [lia|done| |done].
  apply NoDup_app. split; [done|]. split; [|done]. intros p Hp Hin.
  by apply (proj1 (List.Forall_forall _ _) Hnin p (proj1 (list_elem_of_In _ _) Hin)).
Qed.

(** C19 No number is given twice: through restarts, clearings, lost and garbled state files,
    two events never carry the same pair of epoch and sequence number, as long as a
    write that fails leaves no older counter behind and the UUIDs are new. *)
Theorem audit_numbers_never_repeat (evs : list Event) (d : Disk) :
  let uuids := concat (uuids_of <$> evs) in
  Forall safe_writes evs -> NoDup uuids -> Forall (fun u => u <> [] /\ u <> (on_disk d).1) uuids ->
  0 <= (on_disk d).2 -> (on_disk d).2 + Z.of_nat (length evs) < 2 ^ 64 ->
  NoDup (stamps evs (mkService empty_queue d None)).
Proof.
  intros uuids Hw Hnd Hnew Hn0 Hn. apply (stamps_inv evs _ []); [lia|done|constructor|].
  constructor; [done| |done| |done].
  - intros _. split; [done|]. split; [done|constructor].
  - intros u Hu. cbn [queue disk] in *.
    destruct (proj1 (List.Forall_forall _ _) Hnew u (proj1 (list_elem_of_In _ _) Hu)) as [Hne Hd].
    split; [done|]. split; [by intros ?%elem_of_nil|]. by split.
Qed.

(** ** The queue is first in, first out *)

(** The event of the request under way is the oldest. *)
Definition flight_ok (s : Service) : Prop := forall x, flight s = Some x -> head (items (queue s)) = Some x.

Definition settled_of (g : list (bool * Item)) : list Item := (List.filter fst g).*2.
Definition lost_of (g : list (bool * Item)) : nat := length (List.filter (fun x => negb x.1) g).

(** What one event does to a loaded queue. *)
Record moved (ev : Event) (s : Service) : Prop := {
  mv_items : (gone_by ev s).*2 ++ items (queue (step ev s)) = items (queue s) ++ enqueued_by ev s;
  mv_settled : settled_by ev s = settled_of (gone_by ev s);
  mv_flight : flight_ok (step ev s);
  mv_loaded : loaded (queue (step ev s)) = true;
  mv_bound : Z.of_nat (length (items (queue s))) <= MAX_QUEUED ->
    Z.of_nat (length (items (queue (step ev s)))) <= MAX_QUEUED;
  mv_dropped : no_report ev ->
    Int.wrap 64 (dropped (queue (step ev s))) = Int.wrap 64 (dropped (queue s) + Z.of_nat (lost_of (gone_by ev s))) }.

Lemma load_loaded io q d : loaded q = true -> load io q d = (q, d).
Proof. intros Hl. unfold load. by rewrite Hl. Qed.

Lemma wrap_wrap a : Int.wrap 64 (Int.wrap 64 a) = Int.wrap 64 a.
Proof. unfold Int.wrap. by rewrite Z.mod_mod by done. Qed.

(** An event that leaves the items as they are. *)
Lemma moved_same ev s :
  gone_by ev s = [] -> enqueued_by ev s = [] -> settled_by ev s = [] ->
  items (queue (step ev s)) = items (queue s) -> loaded (queue (step ev s)) = true ->
  flight_ok (step ev s) ->
  (no_report ev -> dropped (queue (step ev s)) = dropped (queue s)) -> moved ev s.
Proof.
  intros Hg He Hs Hi Hl Hf Hd. constructor; rewrite ?Hg, ?He, ?Hs, ?Hi, ?app_nil_r; try done.
  intros Hr. rewrite Hd by done. f_equal. cbn. lia.
Qed.

Lemma overflow_room xs : Z.of_nat (length xs) < MAX_QUEUED -> overflow xs = [].
Proof. intros Hl. unfold overflow. by replace (Z.to_nat _) with 0%nat by lia. Qed.

Lemma overflow_length xs :
  Z.of_nat (length xs) <= MAX_QUEUED -> Z.of_nat (length (drop (length (overflow xs)) xs)) < MAX_QUEUED.
Proof. intros Hl. unfold overflow, MAX_QUEUED in *. rewrite length_drop, length_take. lia. Qed.

Lemma overflow_drop xs : overflow xs ++ drop (length (overflow xs)) xs = xs.
Proof.
  unfold overflow. rewrite length_take. set (n := Z.to_nat _).
  destruct (Nat.le_gt_cases n (length xs)).
  - rewrite Nat.min_l by lia. apply take_drop.
  - rewrite Nat.min_r, take_ge, drop_all by lia. apply app_nil_r.
Qed.

Lemma pair_items (b : bool) (xs : list Item) : (pair b <$> xs).*2 = xs.
Proof. rewrite <- list_fmap_compose. apply list_fmap_id. Qed.

Lemma pair_false (xs : list Item) :
  settled_of (pair false <$> xs) = [] /\ lost_of (pair false <$> xs) = length xs.
Proof.
  unfold settled_of, lost_of. induction xs as [|x xs [IH1 IH2]]; [done|].
  cbn [fmap list_fmap List.filter fst negb]. split; [exact IH1|]. cbn [length]. by rewrite <- IH2.
Qed.

Lemma push_moved io path v enrolled s :
  loaded (queue s) = true -> flight_ok s ->
  flight s = None \/ Z.of_nat (length (items (queue s))) < MAX_QUEUED ->
  moved (Push io path v enrolled) s.
Proof.
  intros Hl Hf Hc. destruct enrolled;
    [|apply moved_same; try done; cbn; unfold push; by destruct (kind_of path)].
  destruct (kind_of path) as [kind|] eqn:Ek.
  2: { apply moved_same; try done; cbn; unfold push; by rewrite Ek. }
  assert (step (Push io path v true) s = push io path v true s) as Hst by done.
  set (xs := items (queue s)) in *.
  assert (items (queue (push io path v true s)) = drop (length (overflow xs)) xs ++ [(kind, v)]
          /\ loaded (queue (push io path v true s)) = true /\ flight (push io path v true s) = flight s
          /\ dropped (queue (push io path v true s))
             = Int.wrap 64 (dropped (queue s) + Z.of_nat (length (overflow xs)))) as (Hi & Hl' & Hfl & Hd).
  { unfold push. rewrite Ek. cbn [negb]. by rewrite load_loaded. }
  assert (gone_by (Push io path v true) s = pair false <$> overflow xs) as Hg.
  { cbn [gone_by]. by rewrite Ek, load_loaded. }
  destruct (pair_false (overflow xs)) as [Hset Hlost].
  constructor; rewrite ?Hst, ?Hg, ?Hi, ?Hd; cbn [enqueued_by settled_by]; rewrite ?Ek.
  - by rewrite pair_items, app_assoc, overflow_drop.
  - done.
  - intros x Hx. rewrite Hfl in Hx. rewrite Hi. destruct Hc as [Hc|Hc]; [congruence|].
    rewrite overflow_room by done. cbn. specialize (Hf x Hx). fold xs in Hf. by destruct xs.
  - done.
  - intros Hb. rewrite length_app. pose proof (overflow_length xs Hb). cbn. lia.
  - intros _. by rewrite wrap_wrap, Hlost.
Qed.

Lemma reply_moved io answer s : loaded (queue s) = true -> flight_ok s -> moved (Reply io answer) s.
Proof.
  intros Hl Hf. destruct answer as [[status rsp]|].
  2: { apply moved_same; try done; cbn; unfold flush_reply; by destruct (flight s). }
  destruct (flight s) as [x|] eqn:Ex.
  2: { apply moved_same; cbn; unfold flush_reply; rewrite ?Ex; try done. }
  destruct (settles status rsp) eqn:Es.
  2: { apply moved_same; cbn; unfold flush_reply; rewrite ?Ex, ?Es; try done. }
  specialize (Hf x Ex).
  assert (gone_by (Reply io (Some (status, rsp))) s = pair true <$> take 1 (items (queue s))) as Hg.
  { cbn [gone_by]. by rewrite Ex, Es. }
  assert (items (queue (flush_reply io (Some (status, rsp)) s)) = tail (items (queue s))) as Hi.
  { unfold flush_reply. by rewrite Ex, Es. }
  destruct (items (queue s)) as [|y rest] eqn:Eit; [done|]. injection Hf as ->.
  constructor; rewrite ?Hg; cbn [step]; rewrite ?Hi, ?Eit.
  - cbn. by rewrite app_nil_r.
  - cbn [settled_by]. by rewrite Ex, Es.
  - unfold flush_reply. rewrite Ex, Es. by intros ? [=].
  - unfold flush_reply. by rewrite Ex, Es.
  - cbn [length tail]. lia.
  - intros _. unfold flush_reply. rewrite Ex, Es. cbn. by rewrite Z.add_0_r.
Qed.

Lemma step_moved ev s :
  loaded (queue s) = true -> flight_ok s ->
  match ev with
  | Clear _ _ | Restart => False
  | Push _ _ _ _ => flight s = None \/ Z.of_nat (length (items (queue s))) < MAX_QUEUED
  | _ => True
  end -> moved ev s.
Proof.
  intros Hl Hf Hc. destruct ev as [io now v|io path v enrolled|io|io count|io new_epoch|io api|io answer|];
    [|by apply push_moved| | |done| |by apply reply_moved|done].
  - apply moved_same; try done; cbn [step]; unfold stamp; by rewrite load_loaded.
  - apply moved_same; try done; cbn [step]; unfold get_dropped; by rewrite load_loaded.
  - by apply moved_same.
  - cbn [step] in *. unfold flush_take.
    assert (items (queue (step (Take io api) s)) = items (queue s)
            /\ loaded (queue (step (Take io api) s)) = true
            /\ dropped (queue (step (Take io api) s)) = dropped (queue s)
            /\ flight_ok (step (Take io api) s)) as (Hi & Hl' & Hd & Hf').
    { cbn [step]. unfold flush_take. destruct api as [api|]; [|done]. destruct (flight s); [done|].
      rewrite load_loaded by done. destruct (head (items (queue s))) as [[kind body]|] eqn:Eh.
      - split_and!; try done. intros x [= <-]. done.
      - by split_and!. }
    by apply moved_same.
Qed.

Lemma settled_app g g' : settled_of (g ++ g') = settled_of g ++ settled_of g'.
Proof. unfold settled_of. by rewrite List.filter_app, fmap_app. Qed.
Lemma lost_app g g' : lost_of (g ++ g') = (lost_of g + lost_of g')%nat.
Proof. unfold lost_of. by rewrite List.filter_app, length_app. Qed.

(** The queue delivers in order: when nothing overflows during a request, what has left
    its front and what it holds are exactly what it held and what was pushed, in order;
    what left with an answer is what the server was asked about, the rest is counted as
    dropped, and never more than 10,000 events wait. *)
Theorem audit_queue_is_fifo (evs : list Event) (s : Service) :
  loaded (queue s) = true -> flight_ok s -> calm evs s ->
  let g := collect gone_by evs s in
  let q' := queue (run evs s) in
  g.*2 ++ items q' = items (queue s) ++ collect enqueued_by evs s
  /\ settled_of g = collect settled_by evs s
  /\ (Forall no_report evs ->
      Int.wrap 64 (dropped q') = Int.wrap 64 (dropped (queue s) + Z.of_nat (lost_of g)))
  /\ (Z.of_nat (length (items (queue s))) <= MAX_QUEUED -> Z.of_nat (length (items q')) <= MAX_QUEUED).
Proof.
  revert s. induction evs as [|ev evs IH]; intros s Hl Hf Hc; cbn [collect run foldl].
  { rewrite app_nil_r. split_and!; try done. intros _. f_equal. cbn. lia. }
  destruct Hc as [Hc Hcs]. destruct (step_moved ev s Hl Hf Hc) as [Mi Ms Mf Ml Mb Md].
  destruct (IH (step ev s) Ml Mf Hcs) as (IHi & IHs & IHd & IHb). fold (run evs (step ev s)).
  split_and!.
  - by rewrite fmap_app, <- app_assoc, IHi, app_assoc, Mi, <- app_assoc.
  - by rewrite settled_app, IHs, Ms.
  - intros [Hr Hrs]%Forall_cons. rewrite IHd, lost_app by done. specialize (Md Hr). unfold Int.wrap in *.
    rewrite Z.add_mod, Md, <- Z.add_mod by done. f_equal. lia.
  - intros Hb. by apply IHb, Mb.
Qed.

(** An event pushed into a full queue during a request makes the service lose another:
    the event being delivered is dropped and counted, and the answer then takes away the
    next one, which was never sent and is not counted. *)
Theorem full_queue_loses_an_event (io1 io2 io3 : Io) (api rsp kind : rstr) (path : option rstr)
    (v : Value) (status : Z) (x y : Item) (rest : list Item) (s : Service) :
  loaded (queue s) = true -> flight s = None -> items (queue s) = x :: y :: rest ->
  Z.of_nat (length (items (queue s))) = MAX_QUEUED ->
  kind_of path = Some kind -> settles status rsp = true ->
  let evs := [Take io1 (Some api); Push io2 path v true; Reply io3 (Some (status, rsp))] in
  (flush_take io1 (Some api) s).1 = Some (api ++ Str.lit "/api/audit/" ++ x.1, to_string x.2)
  /\ items (queue (run evs s)) = rest ++ [(kind, v)]
  /\ dropped (queue (run evs s)) = Int.wrap 64 (dropped (queue s) + 1)
  /\ collect settled_by evs s = [x].
Proof.
  intros Hl Hf Hi Hlen Hk Hset evs.
  assert (overflow (items (queue s)) = [x]) as Ho.
  { unfold overflow. rewrite Hlen, Hi. by replace (Z.to_nat (MAX_QUEUED + 1 - MAX_QUEUED)) with 1%nat by done. }
  assert (flush_take io1 (Some api) s
          = (Some (api ++ Str.lit "/api/audit/" ++ x.1, to_string x.2), mkService (queue s) (disk s) (Some x))) as Et.
  { unfold flush_take. rewrite Hf, load_loaded, Hi by done. by destruct x. }
  unfold evs. cbn [run foldl collect step settled_by app]. rewrite !Et. cbn [snd fst].
  set (s1 := mkService (queue s) (disk s) (Some x)).
  assert (items (queue (push io2 path v true s1)) = y :: rest ++ [(kind, v)]
          /\ dropped (queue (push io2 path v true s1)) = Int.wrap 64 (dropped (queue s) + 1)
          /\ flight (push io2 path v true s1) = Some x) as (Pi & Pd & Pf).
  { unfold push. rewrite Hk. cbn [negb]. unfold s1. cbn [queue disk flight].
    rewrite load_loaded, Ho, Hi by done. done. }
  unfold flush_reply. rewrite Pf, Hset. cbn [queue items dropped]. rewrite Pi, Pd. by split_and!.
Qed.

(** ** A restart *)

Definition line_text (l : rstr) : Prop := Forall (fun c => c <> 10 /\ c <> 13) l.

Lemma split_line l t :
  line_text l -> Str.split (Str.ch 10) (l ++ 10 :: t) = l :: Str.split (Str.ch 10) t.
Proof.
  induction l as [|c l IH]; intros Hl; [done|]. apply Forall_cons in Hl as [[Hc _] Hl].
  cbn [app Str.split]. unfold Str.ch at 1. rewrite (proj2 (Z.eqb_neq 10 c)) by congruence. by rewrite IH.
Qed.

Lemma split_lines ls :
  Forall line_text ls -> Str.split (Str.ch 10) (concat ((fun l => l ++ [10]) <$> ls)) = ls ++ [[]].
Proof.
  induction ls as [|l ls IH]; intros Hls; [done|]. apply Forall_cons in Hls as [Hl Hls].
  cbn [fmap list_fmap concat]. rewrite <- app_assoc. cbn [app]. by rewrite split_line, IH.
Qed.

Lemma lines_text ls : Forall line_text ls -> lines (concat ((fun l => l ++ [10]) <$> ls)) = ls.
Proof.
  intros Hls. unfold lines. rewrite split_lines by done. rewrite last_snoc.
  rewrite bool_decide_eq_true_2 by done. rewrite removelast_last.
  induction Hls as [|l ls Hl Hls IH]; [done|]. cbn [fmap list_fmap]. f_equal; [|exact IH].
  destruct (last l) as [c|] eqn:El; [|done]. apply last_Some in El as [l' ->].
  apply Forall_app in Hl as [_ [[_ Hc] _]%Forall_cons]. clear IH Hls.
  destruct (Z.eq_dec c 13) as [->|Hne]; [done|]. repeat (case_match; try done).
Qed.

(** An event that the machine key seals and whose kind is known. *)
Definition kept (x : Item) : Prop := (x.1 ∈ KINDS) /\ is_Some (seal x).

Lemma seal_unseal x l :
  seal x = Some l ->
  unseal l = Some (json_object [(Str.lit "kind", json_str x.1); (Str.lit "body", x.2)])
  /\ line_text l /\ l <> [].
Proof.
  unfold seal, unseal. set (plain := to_string _). set (sealed := encrypt_str_or_original_scoped _ _).
  case_bool_decide as E1; [done|]. case_bool_decide as E2; [done|]. cbn [orb]. intros [= <-].
  destruct (decrypt_encrypt plain MAX_RECORD_CHARS) as [Hd Ht]; [done|done|]. fold sealed in Hd, Ht.
  rewrite Hd. unfold plain. by rewrite from_to_string.
Qed.

Lemma load_kept n xs x l :
  kept x -> seal x = Some l -> load_line (n, xs) l = (n, xs ++ [x]).
Proof.
  intros [Hk _] Hs. destruct (seal_unseal x l Hs) as [Hu _]. unfold load_line. rewrite Hu.
  rewrite index_object, index_object_ne, index_object, as_str_json by done. cbn [default from_option].
  rewrite bool_decide_eq_true_2 by done. by destruct x.
Qed.

Lemma load_lines n ys xs :
  Forall kept xs -> foldl load_line (n, ys) (omap seal xs) = (n, ys ++ xs).
Proof.
  revert ys. induction xs as [|x xs IH]; intros ys Hx; [by rewrite app_nil_r|].
  apply Forall_cons in Hx as [Hx Hxs]. pose proof Hx as [_ [l Hl]].
  cbn [omap list_omap]. rewrite Hl. cbn [foldl]. rewrite (load_kept n ys x l Hx Hl), IH by done.
  by rewrite <- app_assoc.
Qed.

Lemma sealed_lines xs :
  Forall line_text (omap seal xs)
  /\ List.filter (fun l => negb (bool_decide (l = []))) (omap seal xs) = omap seal xs.
Proof.
  induction xs as [|x xs [IH1 IH2]]; [done|]. cbn [omap list_omap]. destruct (seal x) as [l|] eqn:El; [|done].
  destruct (seal_unseal x l El) as (_ & Ht & Hne). split; [by constructor|].
  cbn [List.filter]. rewrite bool_decide_eq_false_2 by done. cbn [negb]. by rewrite IH2.
Qed.

(** A restart gives back the queue: loading the files that the service saved gives the
    same epoch, counter, number of dropped events and events, in order, when the machine
    key seals them. *)
Theorem restart_keeps_the_queue (io : Io) (q : Queue) (d : Disk) :
  loaded q = true -> epoch q <> [] -> Int.is_u 64 (next_seq q) -> Int.is_u 64 (dropped q) ->
  Forall kept (items q) ->
  let d' := save_state Written q (save_queue true q d) in
  load io empty_queue d' = (q, d').
Proof.
  intros Hl He Hn Hd Hk d'. unfold load. cbn [empty_queue loaded].
  assert (load_state (state_file d') = (epoch q, next_seq q, dropped q)) as ->.
  { unfold d', save_state. cbn [state_file]. unfold load_state. cbn [mbind option_bind].
    rewrite from_to_string. unfold state_json.
    rewrite index_object, (index_object_ne (Str.lit "next_seq")), index_object by done.
    rewrite 2!(index_object_ne (Str.lit "dropped")), index_object by done.
    by rewrite as_str_json, !as_u64_json. }
  rewrite bool_decide_eq_false_2 by done. cbn [dropped items].
  unfold d' at 1, save_state, save_queue. cbn [queue_file].
  destruct q as [l e seq n xs]. cbn [loaded epoch next_seq dropped items] in *. subst l.
  case_bool_decide as Ex; [by destruct xs|].
  destruct (sealed_lines xs) as [Ht Hf]. rewrite lines_text, Hf, load_lines by done. done.
Qed.
End AuditQueue.

(** ** Samples *)

Module Toy.

(** JSON values as trees of numbers, printed as the number of the tree. *)
#[local] Instance toy_json : AuditJson := {|
  Value := gen_tree Z;
  index := fun k v =>
    match v with
    | GenNode 3 l =>
        (fix go l :=
           match l with
           | k' :: x :: l => if bool_decide (k' = GenNode 1 (GenLeaf <$> k)) then x else go l
           | _ => GenNode 0 []
           end) l
    | _ => GenNode 0 []
    end;
  set_index := fun k x v =>
    match v with GenNode 3 l => GenNode 3 (GenNode 1 (GenLeaf <$> k) :: x :: l) | _ => v end;
  as_u64 := fun v => match v with GenNode 2 [GenLeaf n] => Some n | _ => None end;
  as_str := fun v =>
    match v with
    | GenNode 1 l => Some ((fun x => match x with GenLeaf c => c | _ => 0 end) <$> l)
    | _ => None
    end;
  json_u64 := fun n => GenNode 2 [GenLeaf n];
  json_i64 := fun n => GenNode 2 [GenLeaf n];
  json_str := fun s => GenNode 1 (GenLeaf <$> s);
  json_object := fun l => GenNode 3 (concat ((fun kx => [GenNode 1 (GenLeaf <$> kx.1); kx.2]) <$> l));
  from_str := fun t => match t with [Zpos p] => decode p | _ => None end;
  to_string := fun v => [Zpos (encode v)] |}.

(** The seal moves every number away from the ends of a line. *)
#[local] Instance toy_seal : Sealing := {|
  encrypt_str_or_original_scoped := fun plain _ => 0 :: ((fun c => if c <? 0 then c else c + 100) <$> plain);
  decrypt_str_or_original_scoped := fun line =>
    match line with
    | 0 :: l => ((fun c => if c <? 0 then c else c - 100) <$> l, true)
    | _ => (line, false)
    end |}.

Lemma leaf_inj (k k' : rstr) : @GenLeaf Z <$> k = GenLeaf <$> k' -> k = k'.
Proof. revert k'. induction k as [|c k IH]; intros [|c' k'] E; try done. injection E as -> E. f_equal. by apply IH. Qed.

#[local] Instance toy_laws : AuditLaws.
Proof.
  split.
  - intros v. cbn. apply decode_encode.
  - intros k x l. cbn. by rewrite bool_decide_eq_true_2.
  - intros k k' x l Hne. cbn. rewrite bool_decide_eq_false_2; [done|].
    intros [= E]. destruct Hne. symmetry. by apply leaf_inj.
  - intros s. cbn. f_equal. rewrite <- list_fmap_compose. apply list_fmap_id.
  - done.
  - intros plain n. cbv zeta. intros _ _. cbn [encrypt_str_or_original_scoped decrypt_str_or_original_scoped toy_seal].
    split.
    + f_equal. rewrite <- list_fmap_compose. rewrite <- (list_fmap_id plain) at 2. apply list_fmap_ext.
      intros i c _. cbn. destruct (Z.ltb_spec c 0) as [Hc|Hc];
        [by rewrite (proj2 (Z.ltb_lt _ _))|rewrite (proj2 (Z.ltb_ge _ _)) by lia; lia].
    + constructor; [done|]. apply List.Forall_forall. intros x (c & <- & _)%List.in_map_iff.
      destruct (Z.ltb_spec c 0); lia.
Qed.

Definition io (u : Z) : Io := mkIo [u] Written Written true.
Definition path_of (kind : string) : option rstr := Some (Str.lit "/api/audit/" ++ Str.lit kind).
Definition event (n : Z) : Value := json_object [(Str.lit "id", json_u64 n)].
Definition fresh_disk : Disk := mkDisk None None.

Definition start : Service := mkService empty_queue fresh_disk None.
Definition ready : Service := mkService (mkQueue true [1] 0 0 []) fresh_disk None.

(** Two numbers, a restart, a clearing, a state file that is lost. *)
Definition sample_run : list Event :=
  [Stamp (io 1) 0 (event 1); Stamp (io 2) 0 (event 2); Restart; Stamp (io 3) 0 (event 3);
   Clear (io 4) [5]; Stamp (io 6) 0 (event 4);
   Push (mkIo [7] Written (Failed None) true) (path_of "conn") (event 4) true; Restart;
   Stamp (io 8) 0 (event 5)].

Example sample_stamps :
  stamps sample_run start = [([1], 0); ([1], 1); ([1], 2); ([5], 0); ([8], 0)].
Proof. vm_compute. reflexivity. Qed.

(** A write that fails and leaves the older counter gives a number twice. *)
Example unsaved_counter_repeats :
  let older := state_file (disk (run [Stamp (io 1) 0 (event 1)] start)) in
  stamps [Stamp (io 1) 0 (event 1); Stamp (mkIo [2] Written (Failed older) true) 0 (event 2); Restart;
          Stamp (io 3) 0 (event 3)] start
  = [([1], 0); ([1], 1); ([1], 1)].
Proof. vm_compute. reflexivity. Qed.

Lemma audit_numbers_never_repeat_witness : NoDup (stamps sample_run start).
Proof.
  apply (audit_numbers_never_repeat sample_run fresh_disk).
  - repeat constructor.
  - assert (bool_decide (NoDup (concat (uuids_of <$> sample_run))) = true) as E by (vm_compute; reflexivity).
    exact (proj1 (bool_decide_eq_true _) E).
  - vm_compute. repeat (constructor; [split; discriminate|]). constructor.
  - vm_compute. discriminate.
  - vm_compute. reflexivity.
Defined.

Definition deliveries : list Event :=
  [Push (io 2) (path_of "conn") (event 1) true; Push (io 2) (path_of "file") (event 2) true;
   Push (io 2) (path_of "other") (event 9) true;
   Take (io 2) (Some []); Push (io 2) (path_of "alarm") (event 3) true; Reply (io 2) (Some (200, []));
   Take (io 2) (Some []); Reply (io 2) (Some (503, []));
   Take (io 2) (Some []); Reply (io 2) (Some (410, []))].

(** A clearing during a request, then a push: the answer takes the new event away. *)
Example clear_during_a_request :
  let evs := [Push (io 2) (path_of "conn") (event 1) true; Take (io 2) (Some []); Clear (io 2) [3];
              Push (io 2) (path_of "file") (event 2) true; Reply (io 2) (Some (200, []))] in
  items (queue (run evs ready)) = [] /\ collect settled_by evs ready = [(Str.lit "conn", event 1)].
Proof. vm_compute. split; reflexivity. Qed.

Lemma audit_queue_is_fifo_witness :
  collect settled_by deliveries ready = [(Str.lit "conn", event 1); (Str.lit "file", event 2)]
  /\ (settled_of (collect gone_by deliveries ready) = collect settled_by deliveries ready).
Proof.
  split; [vm_compute; reflexivity|].
  apply (audit_queue_is_fifo deliveries ready).
  - reflexivity.
  - discriminate.
  - cbn. repeat split; auto; try (right; vm_compute; reflexivity); left; reflexivity.
Defined.

Lemma restart_keeps_the_queue_witness :
  let q := mkQueue true [1] 7 2 [(Str.lit "conn", event 1); (Str.lit "alarm", event 2)] in
  let d := save_state Written q (save_queue true q fresh_disk) in
  load (io 9) empty_queue d = (q, d).
Proof.
  intros q d. apply (restart_keeps_the_queue (io 9) q fresh_disk).
  - reflexivity.
  - discriminate.
  - vm_compute. split; discriminate.
  - vm_compute. split; discriminate.
  - repeat constructor; try (eexists; vm_compute; reflexivity);
      match goal with |- _ ∈ _ => exact (proj1 (bool_decide_eq_true _) (eq_refl : bool_decide _ = true)) end.
Defined.

Lemma full_queue_loses_an_event_witness :
  let x n := (Str.lit "conn", event n) in
  let s := mkService (mkQueue true [1] 0 0 (x 0 :: x 1 :: replicate (Z.to_nat 9998) (x 2))) fresh_disk None in
  let evs := [Take (io 2) (Some []); Push (io 2) (path_of "file") (event 3) true; Reply (io 2) (Some (200, []))] in
  dropped (queue (run evs s)) = 1 /\ collect settled_by evs s = [x 0].
Proof.
  intros x s evs.
  destruct (full_queue_loses_an_event (io 2) (io 2) (io 2) [] [] (Str.lit "file") (path_of "file") (event 3)
    200 (x 0) (x 1) (replicate (Z.to_nat 9998) (x 2)) s) as (_ & _ & Hd & Hs).
  - reflexivity.
  - reflexivity.
  - reflexivity.
  - vm_compute. reflexivity.
  - vm_compute. reflexivity.
  - vm_compute. reflexivity.
  - split; [exact Hd|exact Hs].
Defined.
End Toy.
