(* ===== verification/Json.v ===== *)
(** * JSON values and sorted maps, as the audit uses them

    [BTree]: the standard library's [BTreeMap<String, _>] as the list of its entries in
    the order of the keys; a directory whose names are sorted is one too.  [Value]:
    [serde_json::Value], whose [Map] is a [BTreeMap] (the crate is built without
    [preserve_order]).  The text of a value is third-party code: the class [JsonText],
    its documented laws [JsonLaws], and an instance of both ([ToyJson]). *)

From stdpp Require Import sorting.
From S2P Require Import Prelude.

(** ** Sorted maps *)

Module BTree.

(** [Ord] of [str]: the UTF-8 bytes compare as the scalar values do. *)
Fixpoint cmp (a b : rstr) : comparison :=
  match a, b with
  | [], [] => Eq
  | [], _ :: _ => Lt
  | _ :: _, [] => Gt
  | x :: a, y :: b => match x ?= y with Eq => cmp a b | c => c end
  end.

Definition lt (a b : rstr) : Prop := cmp a b = Lt.

Section Map.
Context {A : Type}.
Implicit Types m : list (rstr * A).

Fixpoint get (k : rstr) m : option A :=
  match m with
  | [] => None
  | (k', x) :: m => match cmp k k' with Lt => None | Eq => Some x | Gt => get k m end
  end.

Fixpoint insert (k : rstr) (x : A) m : list (rstr * A) :=
  match m with
  | [] => [(k, x)]
  | (k', x') :: m' =>
      match cmp k k' with
      | Lt => (k, x) :: m
      | Eq => (k, x) :: m'
      | Gt => (k', x') :: insert k x m'
      end
  end.

Fixpoint remove (k : rstr) m : list (rstr * A) :=
  match m with
  | [] => []
  | (k', x') :: m' =>
      match cmp k k' with Lt => m | Eq => m' | Gt => (k', x') :: remove k m' end
  end.

(** [collect] of an iterator of pairs: the last of those of one key stays. *)
Definition of_list (l : list (rstr * A)) : list (rstr * A) :=
  foldl (fun m kx => insert kx.1 kx.2 m) [] l.

Definition sorted m : Prop := StronglySorted lt m.*1.
End Map.

#[global] Instance lt_dec a b : Decision (lt a b).
Proof. unfold lt. apply _. Defined.

Fixpoint below (k : rstr) (l : list rstr) : bool :=
  match l with [] => true | k' :: l => bool_decide (lt k k') && below k' l end.

(** [sorted] by evaluation, for the samples. *)
Definition sortedb {A} (m : list (rstr * A)) : bool :=
  match m.*1 with [] => true | k :: l => below k l end.

Lemma cmp_eq a b : cmp a b = Eq <-> a = b.
Proof.
  revert b. induction a as [|x a IH]; intros [|y b]; cbn; try done.
  destruct (Z.compare_spec x y) as [->|H|H]; [rewrite IH; split; congruence| |];
    (split; [done|intros [= -> ->]; lia]).
Qed.

Lemma cmp_refl a : cmp a a = Eq.
Proof. by apply cmp_eq. Qed.

Lemma cmp_opp a b : cmp b a = CompOpp (cmp a b).
Proof.
  revert b. induction a as [|x a IH]; intros [|y b]; cbn; try done.
  rewrite (Z.compare_antisym x y). destruct (x ?= y); cbn; auto.
Qed.

Lemma lt_trans a b c : lt a b -> lt b c -> lt a c.
Proof.
  unfold lt. revert b c. induction a as [|x a IH]; intros [|y b] [|z c]; cbn; try done.
  destruct (Z.compare_spec x y), (Z.compare_spec y z), (Z.compare_spec x z); subst; try done; try lia; eauto.
Qed.

Lemma lt_irrefl a : ~ lt a a.
Proof. unfold lt. by rewrite cmp_refl. Qed.

(** Case analysis on the order of two keys. *)
Lemma cmp_cases a b :
  (cmp a b = Lt /\ lt a b) \/ (cmp a b = Eq /\ a = b) \/ (cmp a b = Gt /\ lt b a).
Proof.
  unfold lt. rewrite (cmp_opp a b). destruct (cmp a b) eqn:E; cbn.
  - right; left. by apply cmp_eq in E.
  - by left.
  - by right; right.
Qed.

Lemma lt_ne a b : lt a b -> a <> b.
Proof. intros H ->. by apply (lt_irrefl b). Qed.

Section MapLemmas.
Context {A : Type}.
Implicit Types m : list (rstr * A).

Lemma sorted_cons k (x : A) m :
  sorted ((k, x) :: m) <-> sorted m /\ Forall (lt k) m.*1.
Proof.
  unfold sorted. cbn [fmap list_fmap fst]. split.
  - intros H. by apply StronglySorted_inv in H.
  - intros [H1 H2]. by constructor.
Qed.

Lemma sortedb_ok m : sortedb m = true -> sorted m.
Proof.
  unfold sortedb, sorted. destruct (m.*1) as [|k l]; [constructor|].
  revert k. induction l as [|k' l IH]; intros k H; [repeat constructor|].
  cbn in H. apply andb_true_iff in H as [H1%bool_decide_eq_true H2]. specialize (IH _ H2).
  constructor; [done|]. apply StronglySorted_inv in IH as [_ Hf].
  constructor; [done|]. apply (Forall_impl _ _ _ Hf). intros y Hy. by apply (lt_trans _ k').
Qed.

Lemma get_below k m : Forall (lt k) m.*1 -> get k m = None.
Proof.
  destruct m as [|[k' x] m]; [done|]. cbn [fmap list_fmap fst get]. intros [H _]%Forall_cons. by rewrite H.
Qed.

Lemma get_above k k' x m : sorted ((k', x) :: m) -> lt k' k -> get k ((k', x) :: m) = get k m.
Proof. intros _ H. cbn. unfold lt in H. rewrite (cmp_opp k' k), H. done. Qed.

Lemma insert_keys k x m y : y ∈ (insert k x m).*1 -> y = k \/ y ∈ m.*1.
Proof.
  induction m as [|[k' x'] m IH]; cbn [insert]; [by intros ->%list_elem_of_singleton; left|].
  destruct (cmp k k') eqn:E; cbn [fmap list_fmap fst]; rewrite !elem_of_cons; [|tauto|].
  - apply cmp_eq in E as ->. tauto.
  - intros [->|H]; [by right; left|]. apply IH in H as [->|H]; tauto.
Qed.

Lemma remove_keys k m y : y ∈ (remove k m).*1 -> y ∈ m.*1.
Proof.
  induction m as [|[k' x'] m IH]; cbn [remove]; [done|].
  destruct (cmp k k'); cbn [fmap list_fmap fst]; rewrite ?elem_of_cons; tauto.
Qed.

Lemma sorted_insert k x m : sorted m -> sorted (insert k x m).
Proof.
  induction m as [|[k' x'] m IH]; intros Hs; [repeat constructor|].
  apply sorted_cons in Hs as Hs'. destruct Hs' as [Hm Hf]. cbn [insert].
  destruct (cmp_cases k k') as [[-> H]|[[-> ->]|[-> H]]].
  - apply sorted_cons. split; [done|]. cbn [fmap list_fmap fst]. constructor; [done|].
    apply (Forall_impl _ _ _ Hf). intros y. by apply lt_trans.
  - by apply sorted_cons.
  - apply sorted_cons. split; [by apply IH|]. apply Forall_forall. intros y Hy.
    apply insert_keys in Hy as [->|Hy]; [done|]. rewrite Forall_forall in Hf. auto.
Qed.

Lemma sorted_remove k m : sorted m -> sorted (remove k m).
Proof.
  induction m as [|[k' x'] m IH]; intros Hs; [constructor|].
  apply sorted_cons in Hs as Hs'. destruct Hs' as [Hm Hf]. cbn [remove].
  destruct (cmp k k'); [done..|]. apply sorted_cons. split; [by apply IH|].
  apply Forall_forall. intros y Hy. apply remove_keys in Hy. rewrite Forall_forall in Hf. auto.
Qed.

Lemma get_insert k x m : get k (insert k x m) = Some x.
Proof.
  induction m as [|[k' x'] m IH]; cbn; [by rewrite cmp_refl|].
  destruct (cmp_cases k k') as [[E H]|[[E ->]|[E H]]]; rewrite E; cbn; rewrite ?cmp_refl; [done|done|].
  by rewrite E.
Qed.

Lemma get_insert_ne k k' x m : k <> k' -> get k (insert k' x m) = get k m.
Proof.
  intros Hne. induction m as [|[k2 x2] m IH].
  { cbn. destruct (cmp_cases k k') as [[-> _]|[[_ ->]|[-> _]]]; done. }
  cbn [insert]. destruct (cmp_cases k' k2) as [[-> H]|[[-> ->]|[-> H]]]; cbn [get].
  - destruct (cmp_cases k k') as [[-> H1]|[[_ ->]|[-> H1]]]; [|done|done].
    by rewrite (lt_trans _ _ _ H1 H).
  - destruct (cmp_cases k k2) as [[-> _]|[[_ ->]|[-> _]]]; done.
  - by rewrite IH.
Qed.

Lemma get_remove k m : sorted m -> get k (remove k m) = None.
Proof.
  induction m as [|[k' x'] m IH]; intros Hs; [done|].
  apply sorted_cons in Hs as [Hm Hf]. cbn [remove].
  destruct (cmp_cases k k') as [[E H]|[[E ->]|[E H]]]; rewrite E.
  - apply get_below. cbn. constructor; [done|]. apply (Forall_impl _ _ _ Hf). intros y. by apply lt_trans.
  - by apply get_below.
  - cbn. rewrite E. by apply IH.
Qed.

Lemma get_remove_ne k k' m : sorted m -> k <> k' -> get k (remove k' m) = get k m.
Proof.
  intros Hs Hne. induction m as [|[k2 x2] m IH]; [done|].
  apply sorted_cons in Hs as [Hm Hf]. cbn [remove].
  destruct (cmp_cases k' k2) as [[-> H]|[[-> ->]|[-> H]]]; [done| |cbn; by rewrite IH].
  cbn. destruct (cmp_cases k k2) as [[-> H]|[[_ ->]|[-> _]]]; [|done|done].
  apply get_below. apply (Forall_impl _ _ _ Hf). intros y. by apply lt_trans.
Qed.

Lemma get_in k x m : sorted m -> get k m = Some x <-> (k, x) ∈ m.
Proof.
  induction m as [|[k' x'] m IH]; intros Hs; [cbn; split; [done|set_solver]|].
  apply sorted_cons in Hs as [Hm Hf]. rewrite Forall_forall in Hf.
  assert (Hk : forall y, (k, y) ∈ m -> lt k' k).
  { intros y Hy. apply Hf. by apply (list_elem_of_fmap_2 fst _ (k, y)). }
  rewrite elem_of_cons, <- IH by done. cbn.
  destruct (cmp_cases k k') as [[-> H]|[[-> ->]|[-> H]]].
  - split; [done|]. intros [[= -> ->]|Hg]; [by apply lt_irrefl in H|].
    apply IH, Hk in Hg; [|done]. by destruct (lt_irrefl k (lt_trans _ _ _ H Hg)).
  - split; [intros [= ->]; by left|]. intros [[= ->]|Hg]; [done|].
    apply IH, Hk in Hg; [|done]. by apply lt_irrefl in Hg.
  - split; [by right|]. intros [[= -> ->]|Hg]; [by apply lt_irrefl in H|done].
Qed.

Lemma sorted_nodup m : sorted m -> NoDup m.*1.
Proof.
  unfold sorted. induction 1 as [|k l Hl IH Hf]; [constructor|]. constructor; [|done].
  intros Hk. rewrite Forall_forall in Hf. by apply (lt_irrefl k), Hf.
Qed.

(** Sorted maps with the same entries are equal. *)
Lemma sorted_ext m1 m2 :
  sorted m1 -> sorted m2 -> (forall k, get k m1 = get k m2) -> m1 = m2.
Proof.
  revert m2. induction m1 as [|[k1 x1] m1 IH]; intros [|[k2 x2] m2] H1 H2 Hg; [done|..].
  - specialize (Hg k2). cbn in Hg. by rewrite cmp_refl in Hg.
  - specialize (Hg k1). cbn in Hg. by rewrite cmp_refl in Hg.
  - apply sorted_cons in H1 as H1'. destruct H1' as [Hs1 Hf1]. apply sorted_cons in H2 as H2'. destruct H2' as [Hs2 Hf2].
    assert (k1 = k2 /\ x1 = x2) as [<- <-].
    { pose proof (Hg k1) as G1. pose proof (Hg k2) as G2. cbn in G1, G2. rewrite cmp_refl in G1, G2.
      destruct (cmp_cases k1 k2) as [[E H]|[[E ->]|[E H]]]; rewrite E in G1; [done| |].
      - by injection G1.
      - unfold lt in H. by rewrite H in G2. }
    f_equal. apply IH; [done..|]. intros k. specialize (Hg k). cbn in Hg.
    destruct (cmp_cases k k1) as [[E H]|[[E ->]|[E H]]]; rewrite E in Hg; [| |done].
    + rewrite !get_below; [done|..]; eapply Forall_impl; try eassumption; intros y; by apply lt_trans.
    + by rewrite !get_below.
Qed.

Lemma remove_insert k x m : sorted m -> get k m = None -> remove k (insert k x m) = m.
Proof.
  intros Hs Hg. apply sorted_ext; [by apply sorted_remove, sorted_insert|done|]. intros k'.
  destruct (decide (k' = k)) as [->|Hne]; [rewrite get_remove; [done|by apply sorted_insert]|].
  rewrite get_remove_ne, get_insert_ne; [done..|by apply sorted_insert|done].
Qed.

Lemma remove_insert_same k x m : sorted m -> remove k (insert k x m) = remove k m.
Proof.
  intros Hs. apply sorted_ext; [by apply sorted_remove, sorted_insert|by apply sorted_remove|]. intros j.
  destruct (decide (j = k)) as [->|Hj]; [rewrite !get_remove; [done..|by apply sorted_insert]|].
  rewrite !get_remove_ne, get_insert_ne; [done..|by apply sorted_insert|done].
Qed.

Lemma remove_insert_ne k k' x m :
  sorted m -> k <> k' -> remove k (insert k' x m) = insert k' x (remove k m).
Proof.
  intros Hs Hne. apply sorted_ext; [by apply sorted_remove, sorted_insert|by apply sorted_insert, sorted_remove|].
  intros j. destruct (decide (j = k)) as [->|Hj].
  { rewrite get_remove, get_insert_ne, get_remove; [done..|by apply sorted_insert]. }
  rewrite get_remove_ne by (done || by apply sorted_insert).
  destruct (decide (j = k')) as [->|Hj']; [by rewrite !get_insert|].
  by rewrite !get_insert_ne, get_remove_ne.
Qed.

Lemma insert_remove k x m : sorted m -> insert k x (remove k m) = insert k x m.
Proof.
  intros Hs. apply sorted_ext; [by apply sorted_insert, sorted_remove|by apply sorted_insert|].
  intros j. destruct (decide (j = k)) as [->|Hj]; [by rewrite !get_insert|].
  by rewrite !get_insert_ne, get_remove_ne.
Qed.

Lemma remove_id k m : sorted m -> get k m = None -> remove k m = m.
Proof.
  intros Hs Hg. apply sorted_ext; [by apply sorted_remove|done|]. intros j.
  destruct (decide (j = k)) as [->|Hj]; [by rewrite get_remove|by rewrite get_remove_ne].
Qed.

Lemma of_list_sorted l : sorted (@of_list A l).
Proof.
  unfold of_list. assert (H : sorted (@nil (rstr * A))) by constructor. revert H. generalize (@nil (rstr * A)).
  induction l as [|[k x] l IH]; intros m Hm; [done|]. cbn. by apply IH, sorted_insert.
Qed.

Lemma get_of_list_None k l : k ∉ l.*1 -> get k (@of_list A l) = None.
Proof.
  unfold of_list. assert (H : get k (@nil (rstr * A)) = None) by done. revert H. generalize (@nil (rstr * A)).
  induction l as [|[k' x] l IH]; intros m Hm; [done|]. cbn. intros [Hne Hl]%not_elem_of_cons.
  apply IH; [|done]. by rewrite get_insert_ne.
Qed.

(** A key above all is added at the end. *)
Lemma insert_last k x m :
  Forall (fun k' => lt k' k) m.*1 -> insert k x m = m ++ [(k, x)].
Proof.
  induction m as [|[k' x'] m IH]; intros Hf; [done|]. cbn [fmap list_fmap fst] in Hf.
  apply Forall_cons in Hf as [H Hf]. cbn [insert]. unfold lt in H. rewrite (cmp_opp k' k), H. cbn. by rewrite IH.
Qed.

Lemma insert_same_last k x y m :
  Forall (fun k' => lt k' k) m.*1 -> insert k x (m ++ [(k, y)]) = m ++ [(k, x)].
Proof.
  induction m as [|[k' x'] m IH]; intros Hf; [cbn; by rewrite cmp_refl|]. cbn [fmap list_fmap fst] in Hf.
  apply Forall_cons in Hf as [H Hf]. cbn [insert app]. unfold lt in H. rewrite (cmp_opp k' k), H. cbn. by rewrite IH.
Qed.
End MapLemmas.
End BTree.

(** ** Values *)

Module Json.

#[local] Unset Elimination Schemes.

(** A [Number] is an integer of [i64] or [u64], or the bits of an [f64]. *)
Inductive Value :=
| VNull
| VBool (b : bool)
| VInt (n : Z)
| VFloat (bits : Z)
| VStr (s : rstr)
| VArr (l : list Value)
| VObj (m : list (rstr * Value)).

#[local] Set Elimination Schemes.

Lemma Value_ind (P : Value -> Prop) :
  P VNull -> (forall b, P (VBool b)) -> (forall n, P (VInt n)) -> (forall n, P (VFloat n)) ->
  (forall s, P (VStr s)) -> (forall l, Forall P l -> P (VArr l)) ->
  (forall m, Forall P m.*2 -> P (VObj m)) -> forall v, P v.
Proof.
  intros H1 H2 H3 H4 H5 H6 H7. fix IH 1. intros [|b|n|n|s|l|m]; [done|auto|auto|auto|auto|apply H6|apply H7].
  - induction l as [|x l IHl]; constructor; [apply IH|exact IHl].
  - induction m as [|[k x] m IHm]; constructor; [apply IH|exact IHm].
Qed.

Definition as_str (v : Value) : option rstr := match v with VStr s => Some s | _ => None end.
Definition as_bool (v : Value) : option bool := match v with VBool b => Some b | _ => None end.
Definition as_array (v : Value) : option (list Value) := match v with VArr l => Some l | _ => None end.
Definition as_object (v : Value) : option (list (rstr * Value)) := match v with VObj m => Some m | _ => None end.
Definition as_i64 (v : Value) : option Z :=
  match v with VInt n => if bool_decide (Int.is_s 64 n) then Some n else None | _ => None end.
Definition as_u64 (v : Value) : option Z :=
  match v with VInt n => if bool_decide (Int.is_u 64 n) then Some n else None | _ => None end.

(** [Value::get] with a key. *)
Definition get (k : rstr) (v : Value) : option Value := m ← as_object v; BTree.get k m.

(** [value\[key\] = x] on an object or [null] ([None]: the code panics). *)
Definition set_index (k : rstr) (x v : Value) : option Value :=
  match v with
  | VNull => Some (VObj [(k, x)])
  | VObj m => Some (VObj (BTree.insert k x m))
  | _ => None
  end.

(** [as_object_mut().remove(key)]. *)
Definition remove (k : rstr) (v : Value) : Value :=
  match v with VObj m => VObj (BTree.remove k m) | _ => v end.

(** What a [serde_json::Value] can be: sorted maps, numbers of 64 bits. *)
Fixpoint valid (v : Value) : Prop :=
  match v with
  | VInt n => - 2 ^ 63 <= n < 2 ^ 64
  | VArr l => foldr (fun x P => valid x /\ P) True l
  | VObj m => BTree.sorted m /\ foldr (fun kx P => valid kx.2 /\ P) True m
  | _ => True
  end.

(** Values that are read back from their text: those without floats, whose parser is
    not exact. *)
Fixpoint exact (v : Value) : Prop :=
  match v with
  | VFloat _ => False
  | VArr l => foldr (fun x P => exact x /\ P) True l
  | VObj m => foldr (fun kx P => exact kx.2 /\ P) True m
  | _ => True
  end.

Class JsonText := {
  to_string : Value -> rstr;
  from_str : rstr -> option Value }.

Class JsonLaws {J : JsonText} : Prop := {
  to_string_inj v v' : valid v -> valid v' -> to_string v = to_string v' -> v = v';
  from_to_string v : valid v -> exact v -> from_str (to_string v) = Some v;
  from_str_valid t v : from_str t = Some v -> valid v;
  (** The compact text of a value is one line; that of an object opens with a brace. *)
  to_string_line v : Forall (fun c => c <> 10 /\ c <> 13) (to_string v);
  to_string_object m : exists t, to_string (VObj m) = 123 :: t }.

(** ** Lemmas *)

Lemma valid_arr l : valid (VArr l) <-> Forall valid l.
Proof. cbn. induction l as [|x l IH]; cbn; [done|]. by rewrite IH, Forall_cons. Qed.

Lemma valid_obj m : valid (VObj m) <-> BTree.sorted m /\ Forall valid m.*2.
Proof.
  cbn. apply and_iff_compat_l. induction m as [|[k x] m IH]; cbn; [done|]. by rewrite IH, Forall_cons.
Qed.

Lemma exact_arr l : exact (VArr l) <-> Forall exact l.
Proof. cbn. induction l as [|x l IH]; cbn; [done|]. by rewrite IH, Forall_cons. Qed.

Lemma exact_obj m : exact (VObj m) <-> Forall exact m.*2.
Proof. cbn. induction m as [|[k x] m IH]; cbn; [done|]. by rewrite IH, Forall_cons. Qed.

(** Properties of the values of a map are kept by its operations. *)
Lemma insert_forall (P : Value -> Prop) k x m :
  P x -> Forall P m.*2 -> Forall P (BTree.insert k x m).*2.
Proof.
  intros Hx. induction m as [|[k' x'] m IH]; cbn [fmap list_fmap snd BTree.insert]; [by repeat constructor|].
  intros [H1 H2]%Forall_cons. destruct (BTree.cmp k k'); cbn; constructor; auto.
Qed.

Lemma remove_forall (P : Value -> Prop) k m :
  Forall P m.*2 -> Forall P (BTree.remove k m).*2.
Proof.
  induction m as [|[k' x'] m IH]; cbn [fmap list_fmap snd BTree.remove]; [done|].
  intros [H1 H2]%Forall_cons. destruct (BTree.cmp k k'); cbn; auto.
Qed.

Lemma of_list_forall (P : Value -> Prop) l : Forall P l.*2 -> Forall P (BTree.of_list l).*2.
Proof.
  unfold BTree.of_list. assert (H : Forall P (@nil (rstr * Value)).*2) by constructor. revert H.
  generalize (@nil (rstr * Value)). induction l as [|[k x] l IH]; intros m Hm; [done|].
  cbn. intros [Hx Hl]%Forall_cons. apply IH; [|done]. by apply insert_forall.
Qed.

Lemma valid_insert k x m : valid x -> valid (VObj m) -> valid (VObj (BTree.insert k x m)).
Proof.
  rewrite !valid_obj. intros Hx [Hs Hf]. split; [by apply BTree.sorted_insert|by apply insert_forall].
Qed.

Lemma exact_insert k x m : exact x -> exact (VObj m) -> exact (VObj (BTree.insert k x m)).
Proof. rewrite !exact_obj. apply insert_forall. Qed.

Lemma valid_remove k v : valid v -> valid (remove k v).
Proof.
  destruct v; try done. unfold remove. rewrite !valid_obj. intros [Hs Hf].
  split; [by apply BTree.sorted_remove|by apply remove_forall].
Qed.

Lemma exact_remove k v : exact v -> exact (remove k v).
Proof. destruct v; try done. unfold remove. rewrite !exact_obj. apply remove_forall. Qed.

Lemma valid_of_list l : Forall valid l.*2 -> valid (VObj (BTree.of_list l)).
Proof. intros H. apply valid_obj. split; [apply BTree.of_list_sorted|by apply of_list_forall]. Qed.

Lemma exact_of_list l : Forall exact l.*2 -> exact (VObj (BTree.of_list l)).
Proof. intros H. apply exact_obj. by apply of_list_forall. Qed.

Lemma get_valid k v x : valid v -> get k v = Some x -> valid x.
Proof.
  destruct v; try done. rewrite valid_obj. cbn. intros [Hs Hf] Hg. apply BTree.get_in in Hg; [|done].
  rewrite Forall_forall in Hf. apply Hf. by apply (list_elem_of_fmap_2 snd _ (k, x)).
Qed.

(** ** Values as trees *)

Fixpoint to_tree (v : Value) : gen_tree Z :=
  match v with
  | VNull => GenNode 0 []
  | VBool b => GenNode (if b then 2 else 1) []
  | VInt n => GenNode 3 [GenLeaf n]
  | VFloat n => GenNode 4 [GenLeaf n]
  | VStr s => GenNode 5 (GenLeaf <$> s)
  | VArr l => GenNode 6 (to_tree <$> l)
  | VObj m => GenNode 7 ((fun kx => GenNode 8 (to_tree kx.2 :: (GenLeaf <$> kx.1))) <$> m)
  end.

Definition leaf (t : gen_tree Z) : Z := match t with GenLeaf n => n | _ => 0 end.

Fixpoint of_tree (t : gen_tree Z) : Value :=
  match t with
  | GenNode 1 _ => VBool false
  | GenNode 2 _ => VBool true
  | GenNode 3 l => VInt (default 0 (leaf <$> head l))
  | GenNode 4 l => VFloat (default 0 (leaf <$> head l))
  | GenNode 5 l => VStr (leaf <$> l)
  | GenNode 6 l => VArr (of_tree <$> l)
  | GenNode 7 l =>
      VObj ((fun t => match t with GenNode _ (x :: k) => (leaf <$> k, of_tree x) | _ => ([], VNull) end) <$> l)
  | _ => VNull
  end.

Lemma leaves (s : rstr) : leaf <$> (GenLeaf <$> s) = s.
Proof. rewrite <- list_fmap_compose. apply list_fmap_id. Qed.

Lemma of_to_tree v : of_tree (to_tree v) = v.
Proof.
  induction v as [|[]| | |s|l IH|m IH] using Value_ind; try done.
  - cbn. by rewrite leaves.
  - cbn. f_equal. induction IH as [|x l Hx _ IHl]; [done|]. cbn. by rewrite Hx, IHl.
  - cbn. f_equal. induction m as [|[k x] m IHm]; [done|]. cbn in IH. apply Forall_cons in IH as [Hx IH].
    cbn. rewrite Hx, leaves. f_equal. by apply IHm.
Qed.

#[export] Instance Value_eq_dec : EqDecision Value.
Proof.
  refine (fun v v' => cast_if (decide (to_tree v = to_tree v'))); [|congruence].
  rewrite <- (of_to_tree v), <- (of_to_tree v'). congruence.
Defined.
End Json.

(** ** An instance of the text of values *)

Module ToyJson.
Import Json.

Definition code (v : Value) : Z := Zpos (encode (to_tree v)) + 200.

Definition text (v : Value) : rstr := match v with VObj _ => [123; code v] | _ => [code v] end.

Fixpoint validb (v : Value) : bool :=
  match v with
  | VInt n => (- 2 ^ 63 <=? n) && (n <? 2 ^ 64)
  | VArr l => forallb validb l
  | VObj m => BTree.sortedb m && forallb (fun kx => validb kx.2) m
  | _ => true
  end.

Definition read (n : Z) : option Value :=
  match n - 200 with
  | Zpos p => t ← decode p; let v := of_tree t in if validb v then Some v else None
  | _ => None
  end.

Definition parse (t : rstr) : option Value :=
  match t with [n] => read n | [_; n] => read n | _ => None end.

#[export] Instance toy_text : JsonText := {| to_string := text; from_str := parse |}.

Lemma sortedb_iff {A} (m : list (rstr * A)) : BTree.sortedb m = true <-> BTree.sorted m.
Proof.
  split; [apply BTree.sortedb_ok|]. unfold BTree.sorted, BTree.sortedb.
  destruct (m.*1) as [|k l]; [done|]. revert k. induction l as [|k' l IH]; intros k H; [done|].
  apply StronglySorted_inv in H as [H1 [H2 _]%Forall_cons]. cbn. rewrite bool_decide_eq_true_2 by done. by apply IH.
Qed.

Lemma validb_iff v : validb v = true <-> valid v.
Proof.
  induction v as [| |n| | |l IH|m IH] using Value_ind; try done.
  - cbn [validb valid]. rewrite andb_true_iff, Z.leb_le, Z.ltb_lt. lia.
  - rewrite valid_arr. cbn. induction IH as [|x l Hx _ IHl]; [done|].
    cbn. by rewrite andb_true_iff, Hx, IHl, Forall_cons.
  - rewrite valid_obj. cbn. rewrite andb_true_iff, sortedb_iff. apply and_iff_compat_l.
    induction m as [|[k x] m IHm]; [done|]. cbn in IH |- *. apply Forall_cons in IH as [Hx IH].
    by rewrite andb_true_iff, Hx, IHm, Forall_cons.
Qed.

Lemma code_inj v v' : code v = code v' -> v = v'.
Proof.
  unfold code. intros H. rewrite <- (of_to_tree v), <- (of_to_tree v'). f_equal.
  apply (inj encode). lia.
Qed.

Lemma last_text v : last (text v) = Some (code v).
Proof. by destruct v. Qed.

Lemma parse_text v : parse (text v) = read (code v).
Proof. by destruct v. Qed.

Lemma read_code v : read (code v) = if validb v then Some v else None.
Proof.
  unfold read, code. replace (Zpos _ + 200 - 200) with (Zpos (encode (to_tree v))) by lia.
  rewrite decode_encode. cbn [mbind option_bind]. by rewrite of_to_tree.
Qed.

#[export] Instance toy_json_laws : JsonLaws.
Proof.
  split.
  - intros v v' _ _ H. apply code_inj. cbn in H. apply (f_equal last) in H. rewrite !last_text in H. congruence.
  - intros v Hv _. cbn. rewrite parse_text, read_code. by apply validb_iff in Hv as ->.
  - assert (Hr : forall n v, read n = Some v -> valid v).
    { intros n v. unfold read. destruct (n - 200); [done| |done]. intros (u & _ & H)%bind_Some. cbn zeta in H.
      destruct (validb (of_tree u)) eqn:E; [|done]. injection H as <-. by apply validb_iff. }
    intros [|a [|b [|c t]]] v; try done; apply Hr.
  - intros v. cbn. unfold text, code. destruct v; repeat constructor; lia.
  - intros m. by eexists.
Qed.
End ToyJson.
