(* ===== verification/SessionLog.v ===== *)
(** * The log of the sessions: [src/clanto/session_log.rs]

    What the host remembers of the incoming sessions ([Registry]), the records it writes
    to the monthly files of its folder, each sealed with the machine key and chained to
    the one before by its digest, the check of the chain and the report.  The writer is a
    thread of its own: messages to it wait in [queue], and a [WriterStep] takes one.  The
    clock, the option of the retention, the outcome of each write and of each removal are
    arguments; JSON texts, the seal, SHA-256 and the parser of dates are third-party. *)

From coqutil Require Import Datatypes.RecordSetters.
From stdpp Require Import sorting.
From S2P Require Import Prelude AuditQueue Json.
Import Json TriangleBracketNotations.

#[local] Arguments constant {E} newValue _ /.

Class LogHash := {
  (** [hex::encode] of the SHA-256 of a text. *)
  sha256_hex : rstr -> rstr;
  (** The milliseconds of [DateTime::parse_from_rfc3339]. *)
  rfc3339_millis : rstr -> option Z }.

Definition MAX_FILES : nat := 50.
Definition MAX_RECORD_CHARS : Z := 256 * 1024.
Definition CLEANUP_INTERVAL : Z := 24 * 60 * 60.

(** ** What is remembered *)

Record FileRecord := mkFileRecord { direction : rstr; name : rstr; size : Z; scan : rstr }.

Record SessionRecord := mkSessionRecord {
  record_type : rstr; session_key : rstr; session_code : rstr; ticket : rstr; conn_id : Z;
  started_at : rstr; ended_at : rstr; duration_secs : option Z; peer_id : rstr; peer_name : rstr;
  account_user : rstr; os_user : rstr; pc_name : rstr; ip : rstr; connection_type : rstr;
  id_profile : rstr; primary_auth : option Z; two_factor : option Z; posture_result : rstr;
  posture_bypasses : list rstr; permissions_used : gset rstr; files : list FileRecord;
  close_reason : rstr; closed : bool }.

Record Registry := mkRegistry {
  sessions : gmap rstr SessionRecord;
  active_by_conn : gmap Z rstr }.

Definition empty_registry : Registry := mkRegistry ∅ ∅.

Inductive WriterMessage := Append (value : Value) | Clear.

Section SessionLog.
Context {JT : JsonText} {SE : Sealing} {LH : LogHash}.

Definition retention_days (option : rstr) : Z :=
  match Str.parse_uint 64 option with Some days => Z.min days 3650 | None => 180 end.
Definition logging_enabled_for (days : Z) : bool := negb (days =? 0).
Definition enabled (option : rstr) : bool := logging_enabled_for (retention_days option).

Definition key (conn_id : Z) (started_at : rstr) : rstr :=
  Str.show_int conn_id ++ Str.lit ":" ++ started_at.

Definition value_str (value : Value) (key : rstr) : rstr := default [] (get key value ≫= as_str).
Definition value_i64 (value : Value) (key : rstr) : option Z := get key value ≫= as_i64.
(** [value.get("conn_id").and_then(Value::as_i64).map(|id| id as i32)]. *)
Definition value_conn_id (value : Value) : option Z :=
  Int.swrap 32 <$> value_i64 value (Str.lit "conn_id").
Definition action_is (value : Value) (action : string) : bool :=
  bool_decide (get (Str.lit "action") value ≫= as_str = Some (Str.lit action)).

(** The function of this name; the record's field is [connection_type]. *)
Definition connection_type_of (value : Value) : rstr :=
  match value_i64 value (Str.lit "type") with
  | Some 1 => Str.lit "file"
  | Some 2 => Str.lit "tunnel"
  | Some 3 => Str.lit "camera"
  | Some 4 => Str.lit "terminal"
  | _ => Str.lit "control"
  end.

Definition session_for (conn_id : Z) (r : Registry) : option SessionRecord :=
  key ← active_by_conn r !! conn_id; sessions r !! key.

(** The session of a connection changed in place. *)
Definition with_session (conn_id : Z) (f : SessionRecord -> SessionRecord) (r : Registry) : Registry :=
  match active_by_conn r !! conn_id with
  | Some key => r <| sessions ::= alter f key |>
  | None => r
  end.

Definition default_record : SessionRecord :=
  mkSessionRecord [] [] [] [] 0 [] [] None [] [] [] [] [] [] [] [] None None [] [] ∅ [] [] false.

Definition start (now : rstr) (value : Value) : option SessionRecord :=
  conn ← value_conn_id value;
  Some (default_record
    <| record_type := Str.lit "session" |>
    <| session_key := key conn now |>
    <| conn_id := conn |>
    <| started_at := now |>
    <| ip := value_str value (Str.lit "ip") |>
    <| posture_result := Str.lit "not_checked" |>).

(** ** The events of the connections *)

(** A text of the event replaces the field it names, unless it is empty or the same. *)
Definition set_text (value : Value) (key : string) (target : SessionRecord -> rstr)
    (set : rstr -> SessionRecord -> SessionRecord) (acc : SessionRecord * bool) : SessionRecord * bool :=
  let v := value_str value (Str.lit key) in
  if bool_decide (v <> []) && bool_decide (target acc.1 <> v) then (set v acc.1, true) else acc.

Definition set_metadata (value : Value) (record : SessionRecord) : SessionRecord * bool :=
  set_text value "pc_name" pc_name (fun v r => r <| pc_name := v |>)
  (set_text value "os_user" os_user (fun v r => r <| os_user := v |>)
  (set_text value "account_user" account_user (fun v r => r <| account_user := v |>)
  (set_text value "id_profile" id_profile (fun v r => r <| id_profile := v |>)
  (set_text value "ticket" ticket (fun v r => r <| ticket := v |>)
  (set_text value "session_code" session_code (fun v r => r <| session_code := v |>)
  (record, false)))))).

Definition close_record (now : rstr) (value : Value) (record : SessionRecord) : SessionRecord :=
  let reason := value_str value (Str.lit "reason") in
  record
    <| ended_at := now |>
    <| duration_secs := get (Str.lit "duration_secs") value ≫= as_u64 |>
    <| closed := true |>
    <| close_reason := if bool_decide (reason = []) then Str.lit "end" else reason |>.

Definition nth_str (n : nat) (l : list Value) : rstr := default [] (l !! n ≫= as_str).

Definition set_peer (value : Value) (peer : list Value) (record : SessionRecord) : SessionRecord :=
  let record := record
    <| peer_id := nth_str 0 peer |>
    <| peer_name := nth_str 1 peer |>
    <| connection_type := connection_type_of value |>
    <| primary_auth := value_i64 value (Str.lit "primary_auth") |>
    <| two_factor := value_i64 value (Str.lit "two_factor") |> in
  match get (Str.lit "posture_result") value ≫= as_str with
  | Some result => record <| posture_result := result |>
  | None => record
  end.

Definition set_bypasses (value : Value) (record : SessionRecord) : SessionRecord :=
  match get (Str.lit "posture_bypasses") value ≫= as_array with
  | Some bypasses =>
      record <| posture_result := Str.lit "bypassed" |> <| posture_bypasses := omap as_str bypasses |>
  | None => record
  end.

(** The session after an event of its connection, and what is written. *)
Definition update_record (now : rstr) (value : Value) (record : SessionRecord)
    : SessionRecord * option SessionRecord :=
  let '(record, metadata_changed) := set_metadata value record in
  let '(record, to_write) :=
    if action_is value "close"
    then let record := close_record now value record in (record, Some record)
    else match get (Str.lit "peer") value ≫= as_array with
         | Some peer => (set_peer value peer record, None)
         | None => (record, None)
         end in
  let record := set_bypasses value record in
  (record,
   match to_write with
   | Some _ => to_write
   | None => if (metadata_changed : bool) then Some record else None
   end).

Definition apply_connection (now : rstr) (value : Value) (r : Registry)
    : Registry * option SessionRecord :=
  if action_is value "new"
  then match start now value with
       | None => (r, None)
       | Some record =>
           (r <| active_by_conn ::= <[conn_id record := session_key record]> |>
              <| sessions ::= <[session_key record := record]> |>, Some record)
       end
  else match value_conn_id value with
       | None => (r, None)
       | Some conn_id =>
           match session_for conn_id r with
           | None => (r, None)
           | Some record =>
               let '(record', to_write) := update_record now value record in
               let r := with_session conn_id (fun _ => record') r in
               (match to_write with
                | Some w => if closed w then r <| active_by_conn ::= delete conn_id |> else r
                | None => r
                end, to_write)
           end
       end.

(** ** The files of a session *)

Definition is_separator (c : Z) : bool := (c =? 47) || (c =? 92).
Definition basename (path : rstr) : rstr := default [] (last (Str.split is_separator path)).

(** The loop over the files of an event. *)
Fixpoint push_files (direction path_name : rstr) (l : list Value) (fs : list FileRecord) : list FileRecord :=
  match l with
  | [] => fs
  | file :: l =>
      if Nat.eqb (length fs) MAX_FILES then fs
      else push_files direction path_name l
             match as_array file with
             | Some values =>
                 let name := nth_str 0 values in
                 fs ++ [mkFileRecord direction (if bool_decide (name = []) then path_name else name)
                          (default 0 (values !! 1%nat ≫= as_i64)) []]
             | None => fs
             end
  end.

(** The files of an event of a transfer, and what is recorded of them. *)
Definition file_record (value : Value) (record : SessionRecord) : SessionRecord :=
  let direction := match value_i64 value (Str.lit "type") with
                   | Some 0 => Str.lit "to_peer"
                   | _ => Str.lit "from_peer"
                   end in
  let info := (get (Str.lit "info") value ≫= as_str) ≫= from_str in
  let path_name := basename (value_str value (Str.lit "path")) in
  let record := record <| permissions_used ::= union {[Str.lit "file_transfer"]} |> in
  match (info ≫= get (Str.lit "files")) ≫= as_array with
  | Some l => record <| files ::= push_files direction path_name l |>
  | None => record
  end.

Definition on_file (value : Value) (r : Registry) : Registry :=
  match value_conn_id value with
  | Some conn_id => with_session conn_id (file_record value) r
  | None => r
  end.

Definition scan_label (kind : rstr) : rstr :=
  if bool_decide (kind = Str.lit "clanto_file_clean") then Str.lit "clean"
  else if bool_decide (kind = Str.lit "clanto_file_malware") then Str.lit "malware"
  else if bool_decide (kind = Str.lit "clanto_file_unscannable") then Str.lit "unscannable"
  else if bool_decide (kind = Str.lit "clanto_file_direction_blocked") then Str.lit "blocked_direction"
  else if bool_decide (kind = Str.lit "clanto_file_extension_blocked") then Str.lit "blocked_extension"
  else [].

(** The first received file of this name that has no outcome yet takes it. *)
Definition awaits_scan (n : rstr) (f : FileRecord) : bool :=
  bool_decide (direction f = Str.lit "from_peer") && bool_decide (scan f = [])
  && bool_decide (basename (name f) = n).

Definition apply_file_scan (n : rstr) (sz : option Z) (label : rstr) (fs : list FileRecord) : list FileRecord :=
  match list_find (fun f => awaits_scan n f) fs with
  | Some (i, f) => <[i := f <| scan := label |>]> fs
  | None =>
      if Nat.ltb (length fs) MAX_FILES
      then fs ++ [mkFileRecord (Str.lit "from_peer") n (default 0 sz) label]
      else fs
  end.

Definition on_file_scan (kind : rstr) (value : Value) (r : Registry) : Registry :=
  match value_conn_id value with
  | Some conn_id =>
      let name := basename (value_str value (Str.lit "name")) in
      with_session conn_id
        (fun record => record <| files ::= apply_file_scan name (value_i64 value (Str.lit "size")) (scan_label kind) |>) r
  | None => r
  end.

Definition is_file_security_kind (kind : rstr) : bool :=
  bool_decide (kind ∈ [Str.lit "clanto_file_malware"; Str.lit "clanto_file_unscannable";
                       Str.lit "clanto_file_direction_blocked"; Str.lit "clanto_file_extension_blocked"]).

Definition mark_permission_in (conn_id : Z) (permission : rstr) (r : Registry) : Registry :=
  with_session conn_id (fun record => record <| permissions_used ::= union {[permission]} |>) r.

(** ** The records that are written *)

Definition or_null (v : option Value) : Value := default VNull v.
Definition int_or_null (n : option Z) : Value := match n with Some n => VInt n | None => VNull end.

(** [#[derive(Serialize)]]. *)
Definition file_value (f : FileRecord) : Value :=
  VObj (BTree.of_list
    ([(Str.lit "direction", VStr (direction f)); (Str.lit "name", VStr (name f)); (Str.lit "size", VInt (size f))]
     ++ if bool_decide (scan f = []) then [] else [(Str.lit "scan", VStr (scan f))])).

Definition record_value (r : SessionRecord) : Value :=
  VObj (BTree.of_list
    ([(Str.lit "record_type", VStr (record_type r)); (Str.lit "session_key", VStr (session_key r));
      (Str.lit "session_code", VStr (session_code r))]
     ++ (if bool_decide (ticket r = []) then [] else [(Str.lit "ticket", VStr (ticket r))])
     ++ [(Str.lit "conn_id", VInt (conn_id r)); (Str.lit "started_at", VStr (started_at r));
         (Str.lit "ended_at", VStr (ended_at r)); (Str.lit "duration_secs", int_or_null (duration_secs r));
         (Str.lit "peer_id", VStr (peer_id r)); (Str.lit "peer_name", VStr (peer_name r));
         (Str.lit "account_user", VStr (account_user r)); (Str.lit "os_user", VStr (os_user r));
         (Str.lit "pc_name", VStr (pc_name r)); (Str.lit "ip", VStr (ip r));
         (Str.lit "connection_type", VStr (connection_type r)); (Str.lit "id_profile", VStr (id_profile r));
         (Str.lit "primary_auth", int_or_null (primary_auth r)); (Str.lit "two_factor", int_or_null (two_factor r));
         (Str.lit "posture_result", VStr (posture_result r));
         (Str.lit "posture_bypasses", VArr (VStr <$> posture_bypasses r));
         (Str.lit "permissions_used", VArr (VStr <$> elements (permissions_used r)));
         (Str.lit "files", VArr (file_value <$> files r)); (Str.lit "close_reason", VStr (close_reason r));
         (Str.lit "closed", VBool (closed r))])).

Definition alarm_record (now : rstr) (value : Value) : Value :=
  let record := BTree.of_list
    [(Str.lit "record_type", VStr (Str.lit "rejected_attempt")); (Str.lit "occurred_at", VStr now);
     (Str.lit "conn_id", or_null (get (Str.lit "conn_id") value));
     (Str.lit "alarm_type", or_null (get (Str.lit "typ") value));
     (Str.lit "details", or_null (get (Str.lit "info") value))] in
  VObj match (get (Str.lit "info") value ≫= as_str) ≫= from_str with
       | None => record
       | Some info =>
           let set_if k from m := match get (Str.lit from) info with Some v => BTree.insert (Str.lit k) v m | None => m end in
           set_if "failed_rules" "failed_rules" (set_if "reason_detail" "reason" (set_if "reason_class" "reason_class"
             (BTree.insert (Str.lit "peer_name") (or_null (get (Str.lit "name") info))
             (BTree.insert (Str.lit "peer_id") (or_null (get (Str.lit "id") info))
             (BTree.insert (Str.lit "ip") (or_null (get (Str.lit "ip") info)) record)))))%string
       end.

Definition file_security_record (now kind : rstr) (value : Value) : Value :=
  VObj (BTree.of_list
    [(Str.lit "record_type", VStr (Str.lit "file_security")); (Str.lit "occurred_at", VStr now);
     (Str.lit "conn_id", int_or_null (value_i64 value (Str.lit "conn_id"))); (Str.lit "event", VStr kind);
     (Str.lit "name", VStr (basename (value_str value (Str.lit "name"))));
     (Str.lit "size", int_or_null (get (Str.lit "size") value ≫= as_u64));
     (Str.lit "sha256", VStr (value_str value (Str.lit "sha256")));
     (Str.lit "engine", VStr (value_str value (Str.lit "engine")));
     (Str.lit "result", VStr (value_str value (Str.lit "result")))]).

(** The closed session of a connection, taken out of the registry; of several, the
    [HashMap] gives any. *)
Definition completed_session (conn : Z) (r : Registry) : option Value * Registry :=
  match list_find (fun kr => conn_id kr.2 = conn /\ closed kr.2 = true) (map_to_list (sessions r)) with
  | Some (_, (key, record)) => (Some (record_value record), r <| sessions ::= delete key |>)
  | None => (None, r)
  end.

(** ** The chain *)

(** A line of the file: the record sealed with the machine key, or nothing. *)
Definition seal_line (value : Value) : option rstr :=
  let plain := to_string value in
  let sealed := encrypt_str_or_original_scoped plain MAX_RECORD_CHARS in
  if bool_decide (sealed = []) || bool_decide (sealed = plain) then None else Some sealed.

Record ChainLink := mkChainLink { seq : Z; hash : rstr }.

#[export] Instance ChainLink_eq_dec : EqDecision ChainLink.
Proof. solve_decision. Defined.

Definition CHAIN_GENESIS : rstr := replicate 64 48.

Definition chain_hash (prev : rstr) (value : Value) : rstr :=
  sha256_hex (prev ++ [10] ++ to_string (remove (Str.lit "_hash") value)).

(** The record with its link ([None]: the code panics, on what is not an object). *)
Definition chain_value (value : Value) (last : option ChainLink) : option (Value * ChainLink) :=
  let seq := match last with Some l => Int.wrap 64 (seq l + 1) | None => 1 end in
  let prev := match last with Some l => hash l | None => CHAIN_GENESIS end in
  value ← set_index (Str.lit "_seq") (VInt seq) value;
  value ← set_index (Str.lit "_prev") (VStr prev) value;
  let h := chain_hash prev value in
  value ← set_index (Str.lit "_hash") (VStr h) value;
  Some (value, mkChainLink seq h).

Definition link_of (value : Value) : option (ChainLink * rstr) :=
  seq ← get (Str.lit "_seq") value ≫= as_u64;
  hash ← get (Str.lit "_hash") value ≫= as_str;
  prev ← get (Str.lit "_prev") value ≫= as_str;
  Some (mkChainLink seq hash, prev).

Record ChainVerifier := mkChainVerifier { last_seen : option ChainLink; gap : bool }.

Definition new_verifier : ChainVerifier := mkChainVerifier None false.

Definition check (value : option Value) (self : ChainVerifier) : option bool * ChainVerifier :=
  match value with
  | None => (None, self <| gap := true |>)
  | Some value =>
      match link_of value with
      | None => (None, self)
      | Some (link, prev) =>
          let linked := match last_seen self with
                        | Some last =>
                            negb (gap self) && (seq link =? Int.wrap 64 (seq last + 1)) && bool_decide (prev = hash last)
                        | None => true
                        end in
          (Some (linked && bool_decide (chain_hash prev value = hash link)), mkChainVerifier (Some link) false)
      end
  end.

(** ** The files *)

(** A file of the folder: its text, if it is one, and when it was written. *)
Record File := mkFile { text : option rstr; modified : Z }.

(** The entries of the folder in the order of their names. *)
Definition Dir := list (rstr * File).

Definition is_session_file (name : rstr) : bool := Str.starts_with (Str.lit "sessions-") name.
Definition session_files (dir : Dir) : Dir := List.filter (fun e => is_session_file e.1) dir.

Definition open_line (line : rstr) : option Value :=
  match line with
  | 123 :: _ => from_str line
  | _ =>
      let '(plain, success) := decrypt_str_or_original_scoped line in
      if success then from_str plain else None
  end.

(** The lines of the files that can be read, opened, in order. *)
Definition opened_lines (dir : Dir) : list (option Value) :=
  concat ((fun e => match text e.2 with Some data => open_line <$> lines data | None => [] end) <$> session_files dir).

Definition last_link (dir : Dir) : option ChainLink :=
  foldl (fun last value => match link_of value with Some (link, _) => Some link | None => last end)
    None (omap Datatypes.id (opened_lines dir)).

(** What becomes of a write: the file is not there to write to, the line is cut after
    [n] characters, or it is written with its end. *)
Inductive Outcome := NotOpened | Cut (n : nat) | Written_all.

Record WriteIo := mkWriteIo { month : rstr; at_time : Z; outcome : Outcome }.

Definition file_name (month : rstr) : rstr := Str.lit "sessions-" ++ month ++ Str.lit ".jsonl".

(** [OpenOptions::create.append] and the write of a text. *)
Definition append_text (name : rstr) (at_time : Z) (t : rstr) (dir : Dir) : Dir :=
  let old := match BTree.get name dir with Some f => text f | None => Some [] end in
  BTree.insert name (mkFile ((fun old => old ++ t) <$> old) at_time) dir.

Definition append_record (io : WriteIo) (value : Value) (dir : Dir) : Dir * bool :=
  match seal_line value with
  | None => (dir, false)
  | Some line =>
      match outcome io with
      | NotOpened => (dir, false)
      | Cut n => (append_text (file_name (month io)) (at_time io) (take n line) dir, false)
      | Written_all => (append_text (file_name (month io)) (at_time io) (line ++ [10]) dir, true)
      end
  end.

(** [stuck]: the files that cannot be removed. *)
Definition clear_files (stuck : rstr -> bool) (dir : Dir) : Dir :=
  List.filter (fun e => negb (is_session_file e.1) || stuck e.1) dir.

Definition is_expired (modified cutoff : Z) : bool := modified <? cutoff.

Definition cleanup_old_files (stuck : rstr -> bool) (now days : Z) (dir : Dir) : Dir :=
  let cutoff := now - days * 86400 in
  List.filter (fun e => negb (is_session_file e.1 && is_expired (modified e.2) cutoff) || stuck e.1) dir.

(** ** The process *)

(** [chain] is the writer's last link, [None] until it has read the files; [cleanups]
    are the threads that will remove old files, each with its retention. *)
Record Log := mkLog {
  registry : Registry; disabled_cleared : bool; last_cleanup : option Z; cleanups : list Z;
  queue : list WriterMessage; chain : option (option ChainLink); dir : Dir }.

Definition new_log (dir : Dir) : Log := mkLog empty_registry false None [] [] None dir.

Definition send (m : WriterMessage) (l : Log) : Log := l <| queue ::= fun q => q ++ [m] |>.
Definition write_async (r : option SessionRecord) (l : Log) : Log :=
  match r with Some r => send (Append (record_value r)) l | None => l end.

Definition clear_if_disabled (l : Log) : Log :=
  if disabled_cleared l then l
  else send Clear (l <| disabled_cleared := true |> <| registry := empty_registry |>).

Definition cleanup_if_due (now days : Z) (l : Log) : Log :=
  match last_cleanup l with
  | Some at_time =>
      if (at_time <=? now) && (now - at_time <? CLEANUP_INTERVAL) then l
      else l <| last_cleanup := Some now |> <| cleanups ::= fun c => c ++ [days] |>
  | None => l <| last_cleanup := Some now |> <| cleanups ::= fun c => c ++ [days] |>
  end.

(** The clock, in seconds and as RFC 3339. *)
Record Now := mkNow { secs : Z; stamp_text : rstr }.

Definition on_connection (now : Now) (value : Value) (l : Log) : Log :=
  let '(r, to_write) := apply_connection (stamp_text now) value (registry l) in
  write_async to_write (l <| registry := r |>).

Definition on_file_security (now : Now) (kind : rstr) (value : Value) (l : Log) : Log :=
  send (Append (file_security_record (stamp_text now) kind value)) l.

Definition on_audit (opt : rstr) (now : Now) (kind : rstr) (value : Value) (l : Log) : Log :=
  if negb (enabled opt) then clear_if_disabled l
  else
    let l := cleanup_if_due (secs now) (retention_days opt) (l <| disabled_cleared := false |>) in
    if bool_decide (kind = Str.lit "conn") then on_connection now value l
    else if bool_decide (kind = Str.lit "file") then l <| registry ::= on_file value |>
    else if bool_decide (kind = Str.lit "alarm") then send (Append (alarm_record (stamp_text now) value)) l
    else if bool_decide (kind = Str.lit "clanto_file_clean") then l <| registry ::= on_file_scan kind value |>
    else if is_file_security_kind kind
    then on_file_security now kind value (l <| registry ::= on_file_scan kind value |>)
    else l.

Definition initialize (opt : rstr) (now : Z) (l : Log) : Log :=
  if enabled opt then cleanup_if_due now (retention_days opt) l else clear_if_disabled l.

(** A round of the maintenance thread. *)
Definition maintenance (opt : rstr) (l : Log) : Log :=
  if enabled opt
  then l <| disabled_cleared := false |> <| cleanups ::= fun c => c ++ [retention_days opt] |>
  else clear_if_disabled l.

Definition retention_changed (opt : rstr) (now : Z) (l : Log) : Log :=
  let l := l <| disabled_cleared := false |> in
  if enabled opt then cleanup_if_due now (retention_days opt) l else clear_if_disabled l.

(** [free]: the registry's lock is not taken. *)
Definition mark_permission (opt : rstr) (free : bool) (conn : Z) (permission : rstr) (l : Log) : Log :=
  if negb (enabled opt) then l
  else if free then l <| registry ::= mark_permission_in conn permission |> else l.

(** A message handled by the writer, and the record if it was written. *)
Definition write_message (opt : rstr) (io : WriteIo) (stuck : rstr -> bool) (m : WriterMessage) (l : Log)
    : Log * option Value :=
  match m with
  | Append value =>
      if negb (enabled opt) then (l, None)
      else
        let last := match chain l with Some last => last | None => last_link (dir l) end in
        let l := l <| chain := Some last |> in
        match chain_value value last with
        | None => (l, None)
        | Some (value, link) =>
            let '(d, ok) := append_record io value (dir l) in
            if ok then (l <| dir := d |> <| chain := Some (Some link) |>, Some value)
            else (l <| dir := d |>, None)
        end
  | Clear => (l <| dir := clear_files stuck (dir l) |> <| chain := Some None |>, None)
  end.

Definition writer_step (opt : rstr) (io : WriteIo) (stuck : rstr -> bool) (l : Log) : Log * option Value :=
  match queue l with
  | [] => (l, None)
  | m :: q => write_message opt io stuck m (l <| queue := q |>)
  end.

Definition cleanup_step (now : Z) (stuck : rstr -> bool) (l : Log) : Log :=
  match cleanups l with
  | [] => l
  | days :: c => l <| cleanups := c |> <| dir := cleanup_old_files stuck now days (dir l) |>
  end.

(** What can happen, with what the code reads then. *)
Inductive Event :=
| Audit (opt : rstr) (now : Now) (kind : rstr) (value : Value)
| Initialize (opt : rstr) (now : Z)
| RetentionChanged (opt : rstr) (now : Z)
| Maintenance (opt : rstr)
| MarkPermission (opt : rstr) (free : bool) (conn : Z) (permission : rstr)
| Completed (conn : Z)
| WriterStep (opt : rstr) (io : WriteIo) (stuck : rstr -> bool)
| CleanupStep (now : Z) (stuck : rstr -> bool)
| Restart.

Definition step (ev : Event) (l : Log) : Log :=
  match ev with
  | Audit opt now kind value => on_audit opt now kind value l
  | Initialize opt now => initialize opt now l
  | RetentionChanged opt now => retention_changed opt now l
  | Maintenance opt => maintenance opt l
  | MarkPermission opt free conn permission => mark_permission opt free conn permission l
  | Completed conn => l <| registry := (completed_session conn (registry l)).2 |>
  | WriterStep opt io stuck => (writer_step opt io stuck l).1
  | CleanupStep now stuck => cleanup_step now stuck l
  | Restart => new_log (dir l)
  end.

Definition run (evs : list Event) (l : Log) : Log := foldl (fun l ev => step ev l) l evs.

(** ** The report *)

Definition CHAIN_FIELDS : list rstr := [Str.lit "_seq"; Str.lit "_prev"; Str.lit "_hash"].
Definition strip (value : Value) : Value := foldl (fun v k => remove k v) value CHAIN_FIELDS.

(** [record\["integrity"\] = ...] ([None]: not an object). *)
Definition set_integrity (s : string) (v : Value) : Value :=
  default v (set_index (Str.lit "integrity") (VStr (Str.lit s)) v).

Definition time_text (record : Value) : option rstr :=
  match get (Str.lit "started_at") record with
  | Some v => as_str v
  | None => get (Str.lit "occurred_at") record ≫= as_str
  end.
Definition record_key (record : Value) : option rstr := get (Str.lit "session_key") record ≫= as_str.
Definition is_closed (record : Value) : bool := bool_decide (get (Str.lit "closed") record ≫= as_bool = Some true).

(** The sessions and the other records of the report, and the sessions with a broken record. *)
Record Report := mkReport {
  r_sessions : gmap rstr Value; r_broken : gset rstr; r_records : list Value; r_verifier : ChainVerifier }.

Definition in_range (from_ms to_ms at_ms : Z) : bool :=
  ((from_ms <=? 0) || (from_ms <=? at_ms)) && ((to_ms <=? 0) || (at_ms <=? to_ms)).

Definition report_line (from_ms to_ms : Z) (p : Report) (opened : option Value) : Report :=
  let '(verdict, v) := check opened (r_verifier p) in
  let p := p <| r_verifier := v |> in
  match opened with
  | None => p
  | Some record =>
      let record := strip record in
      let record := match verdict with
                    | Some ok => set_integrity (if ok then "ok" else "broken")%string record
                    | None => record
                    end in
      let p := match verdict, record_key record with
               | Some false, Some key => p <| r_broken ::= union {[key]} |>
               | _, _ => p
               end in
      match time_text record ≫= rfc3339_millis with
      | Some at_ms =>
          if in_range from_ms to_ms at_ms
          then match record_key record with
               | Some key =>
                   let old_closed := match r_sessions p !! key with Some old => is_closed old | None => false end in
                   if negb old_closed || is_closed record
                   then p <| r_sessions ::= <[key := record]> |> else p
               | None => p <| r_records ::= fun l => l ++ [record] |>
               end
          else p
      | None => p
      end
  end.

(** [right.cmp(left)] of the texts of the time: the later one first. *)
Definition later_or_same (a b : Value) : bool :=
  match time_text a, time_text b with
  | _, None => true
  | None, Some _ => false
  | Some x, Some y => negb (bool_decide (BTree.lt x y))
  end.

Fixpoint insert_sorted (v : Value) (l : list Value) : list Value :=
  match l with
  | [] => [v]
  | w :: l' => if later_or_same v w then v :: l else w :: insert_sorted v l'
  end.

(** [sort_by], which is stable. *)
Definition sort_records (l : list Value) : list Value := foldr insert_sorted [] l.

(** The values of [report_json]; the sessions come in the map's order. *)
Definition report (from_ms to_ms : Z) (dir : Dir) : list Value :=
  let p := foldl (report_line from_ms to_ms) (mkReport ∅ ∅ [] new_verifier) (opened_lines dir) in
  let marked := (fun kr => if bool_decide (kr.1 ∈ r_broken p) then set_integrity "broken" kr.2 else kr.2)
                  <$> map_to_list (r_sessions p) in
  sort_records (r_records p ++ marked).

(** What is relied on of the machine key: a sealed record opens to its text, is one line,
    and does not look like a JSON object. *)
Class SealLaws : Prop := {
  decrypt_encrypt plain n :
    let sealed := encrypt_str_or_original_scoped plain n in
    sealed <> [] -> sealed <> plain ->
    decrypt_str_or_original_scoped sealed = (plain, true) /\ line_text sealed /\ head sealed <> Some 123 }.

Context {JL : JsonLaws} {SL : SealLaws}.

(** * Theorems *)

(** ** The chain *)

(** A stored record [v] of link [l] that follows [last], or opens the log. *)
Definition linked_to (last : option ChainLink) (v : Value) (l : ChainLink) : Prop :=
  exists prev, link_of v = Some (l, prev) /\ chain_hash prev v = hash l
  /\ match last with Some last => seq l = Int.wrap 64 (seq last + 1) /\ prev = hash last | None => True end.

Fixpoint chained (last : option ChainLink) (vs : list Value) (final : option ChainLink) : Prop :=
  match vs with
  | [] => final = last
  | v :: vs => exists l, linked_to last v l /\ chained (Some l) vs final
  end.

Fixpoint verdicts (vs : list (option Value)) (self : ChainVerifier) : list (option bool) :=
  match vs with
  | [] => []
  | v :: vs => let '(r, self) := check v self in r :: verdicts vs self
  end.

Lemma check_linked last v l :
  linked_to last v l -> check (Some v) (mkChainVerifier last false) = (Some true, mkChainVerifier (Some l) false).
Proof.
  intros (prev & Hl & Hh & Hp). unfold check. rewrite Hl, Hh. cbn [last_seen gap].
  rewrite bool_decide_eq_true_2, andb_true_r by done. do 2 f_equal.
  destruct last as [last|]; [|done]. destruct Hp as [-> ->]. by rewrite Z.eqb_refl, bool_decide_eq_true_2.
Qed.

Lemma chained_verdicts last vs final :
  chained last vs final ->
  verdicts (Some <$> vs) (mkChainVerifier last false) = replicate (length vs) (Some true).
Proof.
  revert last. induction vs as [|v vs IH]; intros last; [done|]. intros (l & Hl & Hc).
  cbn [fmap list_fmap verdicts length replicate]. rewrite (check_linked _ _ _ Hl). f_equal. by apply IH.
Qed.

Lemma chained_app last vs ws final :
  chained last (vs ++ ws) final <-> exists mid, chained last vs mid /\ chained mid ws final.
Proof.
  revert last. induction vs as [|v vs IH]; intros last; cbn.
  - split; [by exists last|]. by intros (mid & -> & H).
  - split.
    + intros (l & Hl & (mid & H1 & H2)%IH). exists mid. split; [by exists l|done].
    + intros (mid & (l & Hl & H1) & H2). exists l. split; [done|]. apply IH. by exists mid.
Qed.

(** What remains of a log opens with an anchor. *)
Lemma chained_anchor last vs final :
  chained last vs final -> vs <> [] -> chained None vs final.
Proof.
  destruct vs as [|v vs]; [done|]. intros (l & (prev & H1 & H2 & _) & Hc) _.
  exists l. split; [|done]. by exists prev.
Qed.

Lemma chained_last vs last final :
  chained last vs final ->
  foldl (fun last v => match link_of v with Some (link, _) => Some link | None => last end) last vs = final.
Proof.
  revert last. induction vs as [|v vs IH]; intros last; [by intros ->|].
  intros (l & (prev & Hl & _) & Hc). cbn [foldl]. rewrite Hl. by apply IH.
Qed.

(** *** The record that is written *)

(** A record without its link, as the host makes it. *)
Definition payload (v : Value) : Prop :=
  match v with
  | VObj m => valid v /\ exact v /\ Forall (fun k => BTree.get k m = None) CHAIN_FIELDS
  | _ => False
  end.

Lemma get_obj k m : get k (VObj m) = BTree.get k m.
Proof. done. Qed.

Lemma chain_value_linked v last :
  payload v ->
  exists w l, chain_value v last = Some (w, l) /\ linked_to last w l /\ valid w /\ exact w /\ strip w = v.
Proof.
  destruct v as [| | | | | |m]; try done. intros (Hv & He & Hf).
  unfold chain_value. cbn [set_index mbind option_bind]. 
  set (n := match last with Some l => Int.wrap 64 (seq l + 1) | None => 1 end).
  set (prev := match last with Some l => hash l | None => CHAIN_GENESIS end).
  set (m2 := BTree.insert _ (VStr prev) _). set (h := chain_hash prev (VObj m2)).
  assert (Hn : Int.is_u 64 n) by (destruct last; [by apply Int.wrap_range|done]).
  assert (Hs : BTree.sorted m2) by (apply BTree.sorted_insert, BTree.sorted_insert; by apply valid_obj in Hv as [? _]).
  eexists _, _. split; [done|]. split_and!.
  - exists prev. unfold link_of. rewrite !get_obj, BTree.get_insert.
    rewrite !BTree.get_insert_ne by done. unfold m2. rewrite BTree.get_insert, BTree.get_insert_ne, BTree.get_insert by done.
    cbn [mbind option_bind as_u64 as_str]. rewrite bool_decide_eq_true_2 by done. cbn [hash seq]. split; [done|]. split.
    + unfold h, chain_hash. do 4 f_equal. fold m2. cbn [remove]. f_equal.
      rewrite BTree.remove_insert_same by done. done.
    + by destruct last.
  - apply valid_insert; [done|]. apply valid_insert; [done|]. apply valid_insert; [|done]. cbn.
    unfold Int.is_u, Int.umax in Hn. lia.
  - apply exact_insert; [done|]. apply exact_insert; [done|]. by apply exact_insert.
  - unfold strip. cbn [foldl CHAIN_FIELDS remove]. f_equal. apply valid_obj in Hv as [Hm _].
    repeat (apply Forall_cons in Hf as [? Hf]).
    set (kh := Str.lit "_hash"). set (kp := Str.lit "_prev"). set (ks := Str.lit "_seq").
    rewrite (BTree.remove_insert_ne ks kh) by done. unfold m2. fold kp ks.
    rewrite (BTree.remove_insert_ne ks kp), (BTree.remove_insert ks) by (done || by apply BTree.sorted_insert).
    rewrite (BTree.remove_insert_ne kp kh), (BTree.remove_insert kp) by (done || by apply BTree.sorted_insert).
    by rewrite (BTree.remove_insert kh).
Qed.

(** ** The files *)

(** A record that has been written. *)
Definition sealable (v : Value) : Prop := is_Some (seal_line v) /\ valid v /\ exact v.

Definition log_text (vs : list Value) : rstr :=
  concat ((fun l => l ++ [10]) <$> omap seal_line vs).

Lemma seal_open v l :
  valid v -> exact v -> seal_line v = Some l -> open_line l = Some v /\ line_text l.
Proof.
  unfold seal_line. intros Hv He. set (plain := to_string v). set (sealed := encrypt_str_or_original_scoped _ _).
  case_bool_decide as E1; [done|]. case_bool_decide as E2; [done|]. cbn [orb]. intros [= <-].
  destruct (decrypt_encrypt plain MAX_RECORD_CHARS) as (Hd & Ht & Hh); [done|done|]. fold sealed in Hd, Ht, Hh.
  split; [|done].
  assert (open_line sealed = from_str plain) as ->; [|by apply from_to_string].
  unfold open_line. rewrite Hd. destruct sealed as [|c s]; [done|]. cbn in Hh.
  destruct (decide (c = 123)) as [->|Hc]; [done|]. by repeat (case_match; try done).
Qed.

Lemma sealed_omap vs :
  Forall sealable vs ->
  Forall line_text (omap seal_line vs) /\ open_line <$> omap seal_line vs = Some <$> vs.
Proof.
  induction 1 as [|v vs ([l Hl] & Hv & He) _ [IH1 IH2]]; [done|].
  destruct (seal_open v l Hv He Hl) as [Ho Ht]. cbn. rewrite Hl. cbn.
  split; [by constructor|]. by rewrite Ho, IH2.
Qed.

Lemma log_text_snoc vs v l : seal_line v = Some l -> log_text (vs ++ [v]) = log_text vs ++ l ++ [10].
Proof. intros Hl. unfold log_text. rewrite omap_app, fmap_app, concat_app. cbn. rewrite Hl. cbn. by rewrite app_nil_r. Qed.

#[local] Arguments is_session_file : simpl never.

Definition holds_entry (e : rstr * File) (vs : list Value) : Prop :=
  is_session_file e.1 = true /\ text e.2 = Some (log_text vs) /\ Forall sealable vs.

(** Each file holds its records. *)
Definition holds (d : Dir) (vss : list (list Value)) : Prop := Forall2 holds_entry d vss.

Lemma session_files_all d vss : holds d vss -> session_files d = d.
Proof.
  unfold session_files. induction 1 as [|e vs d vss (He & _) _ IH]; [done|]. cbn [List.filter]. by rewrite He, IH.
Qed.

Lemma opened_holds d vss : holds d vss -> opened_lines d = Some <$> concat vss.
Proof.
  intros Hh. unfold opened_lines. rewrite (session_files_all _ _ Hh).
  induction Hh as [|e vs d vss (_ & Ht & Hf) _ IH]; [done|].
  destruct (sealed_omap _ Hf) as [H1 H2]. cbn [fmap list_fmap concat]. rewrite Ht, IH.
  unfold log_text. by rewrite lines_text, H2, fmap_app.
Qed.

Lemma omap_some {A} (l : list A) : omap Datatypes.id (Some <$> l) = l.
Proof. induction l as [|x l IH]; [done|]. cbn. by f_equal. Qed.

(** The folder of a log: records [vs] in files named up to [nm] and written up to [t]. *)
Record stored (d : Dir) (nm : rstr) (t : Z) (vs : list Value) : Prop := {
  st_sorted : BTree.sorted d;
  st_holds : exists vss, holds d vss /\ concat vss = vs;
  st_names : Forall (fun k => k = nm \/ BTree.lt k nm) d.*1;
  st_times : StronglySorted Z.le (modified <$> d.*2);
  st_until : Forall (fun m => m <= t) (modified <$> d.*2) }.

Lemma stored_later d nm t vs nm' t' :
  stored d nm t vs -> nm = nm' \/ BTree.lt nm nm' -> t <= t' -> stored d nm' t' vs.
Proof.
  intros [H1 H2 H3 H4 H5] Hn Ht. split; [done|done| |done|].
  - apply (Forall_impl _ _ _ H3). intros k [->|Hk]; [done|]. right. destruct Hn as [->|Hn]; [done|].
    by apply (BTree.lt_trans _ nm).
  - apply (Forall_impl _ _ _ H5). intros m Hm. lia.
Qed.

(** A sorted folder whose names go up to [nm] ends with [nm], or has only earlier ones. *)
Lemma last_or_new (d : Dir) nm :
  BTree.sorted d -> Forall (fun k => k = nm \/ BTree.lt k nm) d.*1 ->
  exists d0, Forall (fun k => BTree.lt k nm) d0.*1 /\ (d = d0 \/ exists f, d = d0 ++ [(nm, f)]).
Proof.
  induction d as [|[k f] d IH]; intros Hs Hn; [exists []; by split; [constructor|left]|].
  apply BTree.sorted_cons in Hs as [Hs Hf]. cbn [fmap list_fmap fst] in Hn. apply Forall_cons in Hn as [Hk Hn].
  destruct (IH Hs Hn) as (d0 & H0 & Hd). destruct Hk as [->|Hk].
  - assert (d = []) as ->; [|exists []; split; [constructor|by right; exists f]].
    destruct d as [|[k' f'] d]; [done|]. cbn in Hf, Hn. apply Forall_cons in Hf as [Hf _]. apply Forall_cons in Hn as [[->|Hn] _].
    + by apply BTree.lt_irrefl in Hf.
    + by destruct (BTree.lt_irrefl nm (BTree.lt_trans _ _ _ Hf Hn)).
  - exists ((k, f) :: d0). split; [by constructor|]. destruct Hd as [->|[f' ->]]; [by left|]. right. by exists f'.
Qed.

Lemma get_last_entry (d0 : Dir) nm f :
  BTree.sorted (d0 ++ [(nm, f)]) -> BTree.get nm (d0 ++ [(nm, f)]) = Some f.
Proof. intros Hs. apply BTree.get_in; [done|]. apply elem_of_app. right. by left. Qed.

Lemma get_new_entry (d0 : Dir) nm :
  BTree.sorted d0 -> Forall (fun k => BTree.lt k nm) d0.*1 -> BTree.get nm d0 = None.
Proof.
  intros Hs Hf. destruct (BTree.get nm d0) as [f|] eqn:E; [|done]. apply BTree.get_in in E; [|done].
  rewrite Forall_forall in Hf. destruct (BTree.lt_irrefl nm). apply Hf.
  by apply (list_elem_of_fmap_2 fst _ (nm, f)).
Qed.

Lemma times_snoc (l : list Z) t : StronglySorted Z.le l -> Forall (fun m => m <= t) l -> StronglySorted Z.le (l ++ [t]).
Proof.
  induction 1 as [|x l Hl IH Hx]; intros Hf; [repeat constructor|]. apply Forall_cons in Hf as [H1 Hf].
  cbn. constructor; [by apply IH|]. apply Forall_app. split; [done|by constructor].
Qed.

Lemma times_app_inv (l l' : list Z) : StronglySorted Z.le (l ++ l') -> StronglySorted Z.le l.
Proof.
  induction l as [|x l IH]; [constructor|]. cbn. intros [H1 H2]%StronglySorted_inv.
  apply Forall_app in H2 as [H2 _]. constructor; auto.
Qed.

(** A record is appended to the file of the month. *)
Lemma append_stored d m t vs v l :
  stored d (file_name m) t vs -> sealable v -> seal_line v = Some l ->
  stored (append_text (file_name m) t (l ++ [10]) d) (file_name m) t (vs ++ [v]).
Proof.
  set (nm := file_name m). intros [Hs (vss & Hh & <-) Hn Ht Hu] Hv Hl. unfold append_text.
  assert (Hnm : is_session_file nm = true) by done.
  destruct (last_or_new d nm Hs Hn) as (d0 & H0 & Hd). split.
  - by apply BTree.sorted_insert.
  - destruct Hd as [->|[f ->]].
    + rewrite get_new_entry, BTree.insert_last by done. exists (vss ++ [[v]]). split.
      * apply Forall2_app; [done|]. constructor; [|constructor]. split_and!; [done| |by constructor].
        cbn [text fst snd]. cbn [fmap option_fmap option_map app]. f_equal. symmetry. apply (log_text_snoc [] v l Hl).
      * by rewrite concat_app.
    + rewrite get_last_entry, BTree.insert_same_last by done.
      apply Forall2_app_inv_l in Hh as (vs0 & vs1 & Hh0 & Hh1 & ->).
      apply Forall2_cons_inv_l in Hh1 as (vs & vs' & (Hf1 & Hf2 & Hf3) & Hnil & ->).
      apply Forall2_nil_inv_l in Hnil as ->. cbn in Hf2.
      exists (vs0 ++ [vs ++ [v]]). split.
      * apply Forall2_app; [done|]. constructor; [|constructor]. split_and!; [done| |by apply Forall_app; split; [|constructor]].
        cbn [text fst snd]. rewrite Hf2. cbn [fmap option_fmap option_map]. by rewrite (log_text_snoc vs v l Hl).
      * rewrite !concat_app. cbn. by rewrite !app_nil_r, app_assoc.
  - apply Forall_forall. intros k [->|Hk]%BTree.insert_keys; [by left|]. rewrite Forall_forall in Hn. by apply Hn.
  - destruct Hd as [->|[f ->]].
    + rewrite BTree.insert_last, !fmap_app by done. by apply times_snoc.
    + rewrite BTree.insert_same_last, !fmap_app by done. rewrite !fmap_app in Ht, Hu.
      apply times_app_inv in Ht. apply Forall_app in Hu as [Hu _]. by apply times_snoc.
  - destruct Hd as [->|[f ->]].
    + rewrite BTree.insert_last, !fmap_app by done. apply Forall_app. split; [done|]. constructor; [cbn; lia|done].
    + rewrite BTree.insert_same_last, !fmap_app by done. rewrite !fmap_app in Hu. apply Forall_app in Hu as [Hu _].
      apply Forall_app. split; [done|]. constructor; [cbn; lia|done].
Qed.

Definition none_stuck : rstr -> bool := fun _ => false.

Lemma filter_all {A} (f : A -> bool) l : Forall (fun x => f x = true) l -> List.filter f l = l.
Proof. induction 1 as [|x l Hx _ IH]; [done|]. cbn. by rewrite Hx, IH. Qed.

Lemma filter_none {A} (f : A -> bool) l : Forall (fun x => f x = false) l -> List.filter f l = [].
Proof. induction 1 as [|x l Hx _ IH]; [done|]. cbn. by rewrite Hx. Qed.

Lemma stored_tail e d nm t vs :
  stored (e :: d) nm t vs -> exists k, stored d nm t (drop k vs).
Proof.
  intros [H1 (vss & Hh & <-) H3 H4 H5]. apply Forall2_cons_inv_l in Hh as (ws & vss' & _ & Hh & ->).
  exists (length ws). cbn [fmap list_fmap] in *. apply Forall_cons in H3 as [_ H3], H5 as [_ H5].
  apply StronglySorted_inv in H4 as [H4 _]. destruct e as [n f]. apply BTree.sorted_cons in H1 as [H1 _].
  cbn [concat]. rewrite drop_app_length. split; [done|by exists vss'|done..].
Qed.

(** What cleaning takes away are the first files: the records that stay are the last. *)
Lemma cleanup_stored now days d nm t vs :
  stored d nm t vs -> exists k, stored (cleanup_old_files none_stuck now days d) nm t (drop k vs).
Proof.
  unfold cleanup_old_files. set (cutoff := now - days * 86400). revert vs.
  induction d as [|[n f] d IH]; intros vs Hst; [by exists 0%nat; rewrite drop_0|].
  cbn [List.filter fst snd]. destruct (is_session_file n && is_expired (modified f) cutoff) eqn:E; cbn [negb orb none_stuck].
  - destruct (stored_tail _ _ _ _ _ Hst) as [k Hk]. destruct (IH _ Hk) as [k' Hk'].
    exists (k + k')%nat. by rewrite <- drop_drop.
  - exists 0%nat. rewrite drop_0. rewrite filter_all; [done|].
    pose proof (st_holds _ _ _ _ Hst) as (vss & Hh & _). apply Forall2_cons_inv_l in Hh as (ws & vss' & (Hs & _) & Hh & _).
    cbn [fst] in Hs. rewrite Hs in E. cbn [andb] in E. unfold is_expired in E. apply Z.ltb_ge in E.
    pose proof (st_times _ _ _ _ Hst) as Ht. cbn [fmap list_fmap] in Ht. apply StronglySorted_inv in Ht as [_ Ht].
    cbn [snd] in Ht. clear - Ht E. induction d as [|[n' f'] d IH]; [constructor|]. cbn in Ht. apply Forall_cons in Ht as [H1 Ht].
    constructor; [|by apply IH]. cbn [fst snd]. unfold is_expired. rewrite (proj2 (Z.ltb_ge _ _)) by lia. by rewrite andb_false_r.
Qed.

Lemma clear_stored d nm t vs : stored d nm t vs -> clear_files none_stuck d = [].
Proof.
  intros [_ (vss & Hh & _) _ _ _]. unfold clear_files. apply filter_none.
  induction Hh as [|e ws d vss (He & _) _ IH]; constructor; [|done]. cbn beta. by rewrite He.
Qed.

Lemma stored_nil nm t : stored [] nm t [].
Proof. split; try constructor. exists []. split; [constructor|done]. Qed.

(** ** The registry *)

Definition in_width (p : Z -> Prop) (n : option Z) : Prop := match n with Some n => p n | None => True end.

(** A session's numbers have their widths, its files their bound. *)
Record session_ok (k : rstr) (r : SessionRecord) : Prop := {
  so_key : session_key r = k;
  so_key_of : k = key (conn_id r) (started_at r);
  so_conn : Int.is_s 32 (conn_id r);
  so_duration : in_width (Int.is_u 64) (duration_secs r);
  so_primary : in_width (Int.is_s 64) (primary_auth r);
  so_second : in_width (Int.is_s 64) (two_factor r);
  so_sizes : Forall (fun f => Int.is_s 64 (size f)) (files r);
  so_files : (length (files r) <= MAX_FILES)%nat }.

(** A connection that is active has a session of its own that is not closed. *)
Record registry_ok (r : Registry) : Prop := {
  ro_sessions : map_Forall session_ok (sessions r);
  ro_active : forall conn k, active_by_conn r !! conn = Some k ->
    exists s, sessions r !! k = Some s /\ conn_id s = conn /\ closed s = false }.

Lemma split_char {A} (p : A -> bool) c s t :
  p c = true -> Forall (fun x => p x = false) s -> forall s' t', Forall (fun x => p x = false) s' ->
  s ++ c :: t = s' ++ c :: t' -> s = s' /\ t = t'.
Proof.
  intros Hp Hs. induction Hs as [|x s Hx Hs IH]; intros [|x' s'] t' Hs' E; cbn in E.
  - by injection E.
  - injection E as <- E. apply Forall_cons in Hs' as [? _]. congruence.
  - injection E as -> E. congruence.
  - injection E as <- E. apply Forall_cons in Hs' as [_ Hs']. destruct (IH s' t' Hs' E) as [-> ->]. done.
Qed.

(** Sessions of different connections have different keys. *)
Lemma key_inj c t c' t' : key c t = key c' t' -> c = c' /\ t = t'.
Proof.
  unfold key. change (Str.lit ":") with [58]. cbn [app].
  assert (H : forall z, Forall (fun x => (x =? 58) = false) (Str.show_int z)).
  { intros z. apply (Forall_impl _ _ _ (Str.show_int_chars z)). intros x [Hx| ->]; [|done].
    unfold Str.is_ascii_digit in Hx. apply andb_true_iff in Hx as [_ ?%Z.leb_le]. apply Z.eqb_neq. lia. }
  intros E. destruct (split_char (fun x => x =? 58) 58 _ _ eq_refl (H c) _ _ (H c') E) as [H1%Str.show_int_inj H2]. done.
Qed.

Lemma value_i64_width v k : in_width (Int.is_s 64) (value_i64 v k).
Proof.
  unfold value_i64. destruct (get k v) as [[]|]; try done. cbn. by case_bool_decide.
Qed.

Lemma as_u64_width v : in_width (Int.is_u 64) (v ≫= as_u64).
Proof. destruct v as [[]|]; try done. cbn. by case_bool_decide. Qed.

Lemma value_conn_width v conn : value_conn_id v = Some conn -> Int.is_s 32 conn.
Proof.
  unfold value_conn_id. intros (n & _ & ->)%fmap_Some. by apply Int.swrap_range.
Qed.

(** *** What an event changes in the record of its session *)

(** The identity of a session, which no event changes. *)
Definition identity (r : SessionRecord) : rstr * Z * rstr := (session_key r, conn_id r, started_at r).

Lemma set_metadata_same v r :
  let r' := (set_metadata v r).1 in
  identity r' = identity r /\ closed r' = closed r /\ files r' = files r /\ duration_secs r' = duration_secs r
  /\ primary_auth r' = primary_auth r /\ two_factor r' = two_factor r.
Proof.
  unfold set_metadata.
  assert (H : forall v k target set acc,
    (forall x r, identity (set x r) = identity r /\ closed (set x r) = closed r /\ files (set x r) = files r
      /\ duration_secs (set x r) = duration_secs r /\ primary_auth (set x r) = primary_auth r
      /\ two_factor (set x r) = two_factor r) ->
    (identity acc.1 = identity r /\ closed acc.1 = closed r /\ files acc.1 = files r /\ duration_secs acc.1 = duration_secs r
      /\ primary_auth acc.1 = primary_auth r /\ two_factor acc.1 = two_factor r) ->
    let r' := (set_text v k target set acc).1 in
    identity r' = identity r /\ closed r' = closed r /\ files r' = files r /\ duration_secs r' = duration_secs r
      /\ primary_auth r' = primary_auth r /\ two_factor r' = two_factor r).
  { intros v' k target set [r0 b] Hset (H1 & H2 & H3 & H4 & H5 & H6). unfold set_text. case_match; [|done].
    cbn [fst] in *. destruct (Hset (value_str v' (Str.lit k)) r0) as (-> & -> & -> & -> & -> & ->). by split_and!. }
  repeat (apply H; [intros x [] ; by split_and!|]). done.
Qed.

Lemma update_record_ok now v k r r' w :
  update_record now v r = (r', w) -> session_ok k r -> closed r = false ->
  session_ok k r' /\ identity r' = identity r
  /\ match w with Some w => session_ok k w /\ closed w = closed r' | None => closed r' = false end.
Proof.
  unfold update_record. pose proof (set_metadata_same v r) as Hm. destruct (set_metadata v r) as [r1 changed].
  cbn [fst] in Hm. cbv zeta in Hm. destruct Hm as (Hid & Hc & Hf & Hd & Hp & Ht). intros E Hok Hcl.
  assert (Hok1 : session_ok k r1).
  { destruct Hok. unfold identity in Hid. injection Hid as E1 E2 E3.
    by split; rewrite ?E1, ?E2, ?E3, ?Hf, ?Hd, ?Hp, ?Ht. }
  assert (Hb : forall r, session_ok k r -> session_ok k (set_bypasses v r)
               /\ identity (set_bypasses v r) = identity r /\ closed (set_bypasses v r) = closed r).
  { intros r0 []. unfold set_bypasses. by destruct (get (Str.lit "posture_bypasses") v ≫= as_array). }
  destruct (action_is v "close").
  - assert (Hok2 : session_ok k (close_record now v r1)).
    { destruct Hok1. unfold close_record. split; try done. apply as_u64_width. }
    destruct (Hb _ Hok2) as (B1 & B2 & B3). injection E as <- <-. split_and!; [done| |done|].
    + rewrite B2. unfold close_record. by rewrite <- Hid.
    + by rewrite B3.
  - assert (Hp' : forall p, session_ok k (set_peer v p r1) /\ identity (set_peer v p r1) = identity r1
                /\ closed (set_peer v p r1) = closed r1).
    { intros p. unfold set_peer. pose proof (value_i64_width v (Str.lit "primary_auth")).
      pose proof (value_i64_width v (Str.lit "two_factor")). destruct Hok1.
      by destruct (get (Str.lit "posture_result") v ≫= as_str). }
    assert (exists r2, (r' = set_bypasses v r2) /\ session_ok k r2 /\ identity r2 = identity r1 /\ closed r2 = closed r1
              /\ w = if changed : bool then Some r' else None) as (r2 & -> & Hok2 & Hi2 & Hc2 & ->).
    { destruct (get (Str.lit "peer") v ≫= as_array) as [p|]; injection E as <- <-; [|by exists r1; destruct changed].
      exists (set_peer v p r1). destruct (Hp' p) as (? & ? & ?). by destruct changed. }
    destruct (Hb _ Hok2) as (B1 & B2 & B3). split_and!; [done|congruence|].
    destruct changed; [by split|]. congruence.
Qed.

Lemma push_files_ok dir path l fs :
  Forall (fun f => Int.is_s 64 (size f)) fs -> (length fs <= MAX_FILES)%nat ->
  Forall (fun f => Int.is_s 64 (size f)) (push_files dir path l fs)
  /\ (length (push_files dir path l fs) <= MAX_FILES)%nat.
Proof.
  revert fs. induction l as [|x l IH]; intros fs Hs Hl; [done|]. cbn [push_files].
  destruct (Nat.eqb_spec (length fs) MAX_FILES) as [|Hne]; [done|].
  destruct (as_array x) as [values|]; [|by apply IH]. apply IH.
  - apply Forall_app. split; [done|]. constructor; [|done]. cbn [size].
    destruct (values !! 1%nat) as [[]|]; try done. cbn. by case_bool_decide.
  - rewrite length_app. cbn [length]. lia.
Qed.

Lemma apply_file_scan_ok n sz label fs :
  in_width (Int.is_s 64) sz ->
  Forall (fun f => Int.is_s 64 (size f)) fs -> (length fs <= MAX_FILES)%nat ->
  Forall (fun f => Int.is_s 64 (size f)) (apply_file_scan n sz label fs)
  /\ (length (apply_file_scan n sz label fs) <= MAX_FILES)%nat.
Proof.
  intros Hz Hs Hl. unfold apply_file_scan. destruct (list_find _ fs) as [[i f]|] eqn:E.
  - apply list_find_Some in E as (Hi & _ & _). rewrite length_insert. split; [|done].
    apply Forall_insert; [done|]. cbn. by apply (Forall_lookup_1 _ _ _ _ Hs Hi).
  - destruct (Nat.ltb_spec (length fs) MAX_FILES); [|done]. split.
    + apply Forall_app. split; [done|]. constructor; [|done]. by destruct sz.
    + rewrite length_app. cbn [length]. lia.
Qed.

(** A change of a session's record that keeps who it is and leaves it open. *)
Lemma with_session_ok conn f r :
  registry_ok r ->
  (forall k s, session_ok k s -> session_ok k (f s) /\ conn_id (f s) = conn_id s /\ closed (f s) = closed s) ->
  registry_ok (with_session conn f r).
Proof.
  destruct r as [ss aa]. intros [Hs Ha] Hf. unfold with_session. cbn in *. destruct (aa !! conn) as [k|] eqn:Ek; [|done]. split.
  - intros k' s. cbn. rewrite lookup_alter_Some. intros [(-> & s0 & H0 & ->)|[_ H0]]; [|by apply Hs]. apply Hf. by apply Hs.
  - intros c k'. cbn. intros Hk'. destruct (Ha _ _ Hk') as (s & H1 & H2 & H3). destruct (decide (k' = k)) as [->|Hne].
    + exists (f s). rewrite lookup_alter_eq, H1. destruct (Hf k s (Hs _ _ H1)) as (_ & -> & ->). done.
    + exists s. by rewrite lookup_alter_ne.
Qed.

(** Without the other connections' sessions, which have other keys. *)
Lemma active_key_ne r conn c k k' :
  registry_ok r -> active_by_conn r !! conn = Some k -> active_by_conn r !! c = Some k' -> c <> conn -> k' <> k.
Proof.
  intros [_ Ha] H1 H2 Hne ->. destruct (Ha _ _ H1) as (s & Hs & <- & _), (Ha _ _ H2) as (s' & Hs' & <- & _). congruence.
Qed.

Lemma start_ok now v s :
  start now v = Some s -> session_ok (session_key s) s /\ closed s = false /\ value_conn_id v = Some (conn_id s).
Proof.
  unfold start. destruct (value_conn_id v) as [c|] eqn:Ec; [|done]. cbn [mbind option_bind]. intros [= <-].
  split_and!; [|done..]. split; try done; cbn; [by apply value_conn_width in Ec|unfold MAX_FILES; lia].
Qed.

Lemma apply_connection_ok now v r r' w :
  registry_ok r -> apply_connection now v r = (r', w) ->
  registry_ok r' /\ match w with Some w => exists k, session_ok k w | None => True end.
Proof.
  intros Hr. unfold apply_connection. destruct (action_is v "new").
  - destruct (start now v) as [s|] eqn:Es; [|by intros [= <- <-]].
    destruct (start_ok _ _ _ Es) as (Hs & Hc & Hv). intros [= <- <-]. split; [|by exists (session_key s)].
    destruct r as [ss aa]. destruct Hr as [Hss Ha]. cbn in *. split; cbn.
    + by apply map_Forall_insert_2.
    + intros c k. destruct (decide (c = conn_id s)) as [->|Hne].
      * rewrite lookup_insert_eq. intros [= <-]. exists s. by rewrite lookup_insert_eq.
      * rewrite lookup_insert_ne by done. intros Hk. destruct (Ha _ _ Hk) as (s0 & H0 & <- & Hcl). exists s0.
        rewrite lookup_insert_ne; [done|]. intros <-. apply Hne.
        pose proof (so_key_of _ _ (Hss _ _ H0)) as E. rewrite (so_key_of _ _ Hs) in E. by apply key_inj in E as [? _].
  - destruct (value_conn_id v) as [conn|] eqn:Ev; [|by intros [= <- <-]].
    destruct (session_for conn r) as [s|] eqn:Es; [|by intros [= <- <-]].
    destruct (update_record now v s) as [s' w0] eqn:Eu. intros [= <- <-].
    unfold session_for in Es. destruct (active_by_conn r !! conn) as [k|] eqn:Ek; [|done]. cbn in Es.
    pose proof Hr as [Hss Ha]. destruct (Ha _ _ Ek) as (s1 & E1 & Hc1 & Hcl). rewrite Es in E1. injection E1 as <-.
    destruct (update_record_ok _ _ _ _ _ _ Eu (Hss _ _ Es) Hcl) as (Hok & Hid & Hw).
    assert (Hother : forall c k', active_by_conn r !! c = Some k' -> c <> conn -> k <> k').
    { intros c k' H1 H2 ->. by apply (active_key_ne r conn c k' k'). }
    split; [|destruct w0 as [w0|]; [exists k; apply Hw|done]].
    unfold with_session. rewrite Ek. destruct r as [ss aa]. cbn in *.
    assert (Hss' : map_Forall session_ok (alter (fun _ => s') k ss)).
    { intros k' x. rewrite lookup_alter_Some. intros [(-> & y & _ & ->)|[_ Hx]]; [done|by apply Hss]. }
    assert (Hsame : forall c k', aa !! c = Some k' -> c <> conn ->
      exists x, alter (fun _ => s') k ss !! k' = Some x /\ conn_id x = c /\ closed x = false).
    { intros c k' H1 H2. destruct (Ha _ _ H1) as (x & Hx & Hcx). exists x. rewrite lookup_alter_ne; [done|]. by eapply Hother. }
    assert (Hconn : conn_id s' = conn) by (unfold identity in Hid; congruence).
    assert (Hdel : registry_ok (mkRegistry (alter (fun _ => s') k ss) (delete conn aa))).
    { split; [done|]. cbn. intros c k'. rewrite lookup_delete_Some. intros [Hne Hk]. by apply Hsame. }
    assert (Hopen : closed s' = false -> registry_ok (mkRegistry (alter (fun _ => s') k ss) aa)).
    { intros Hcs. split; [done|]. cbn. intros c k' Hk. destruct (decide (c = conn)) as [->|Hne]; [|by apply Hsame].
      rewrite Ek in Hk. injection Hk as <-. exists s'. by rewrite lookup_alter_eq, Es. }
    destruct w0 as [w0|]; [|by apply Hopen]. destruct Hw as [_ Hw]. destruct (closed w0); [done|]. by apply Hopen.
Qed.

Lemma on_file_ok v r : registry_ok r -> registry_ok (on_file v r).
Proof.
  intros Hr. unfold on_file. destruct (value_conn_id v) as [c|]; [|done]. apply with_session_ok; [done|].
  intros k s []. unfold file_record. destruct (_ ≫= as_array) as [l|]; [|done].
  cbn. split_and!; [|done..]. destruct (push_files_ok (match value_i64 v (Str.lit "type") with
    | Some 0 => Str.lit "to_peer" | _ => Str.lit "from_peer" end) (basename (value_str v (Str.lit "path"))) l (files s))
    as [H1 H2]; [done..|]. by split.
Qed.

Lemma on_file_scan_ok kind v r : registry_ok r -> registry_ok (on_file_scan kind v r).
Proof.
  intros Hr. unfold on_file_scan. destruct (value_conn_id v) as [c|]; [|done]. apply with_session_ok; [done|].
  intros k s []. split_and!; [|done..].
  destruct (apply_file_scan_ok (basename (value_str v (Str.lit "name"))) (value_i64 v (Str.lit "size")) (scan_label kind) (files s))
    as [H1 H2]; [apply value_i64_width|done..|]. by split.
Qed.

Lemma mark_permission_ok c p r : registry_ok r -> registry_ok (mark_permission_in c p r).
Proof. intros Hr. apply with_session_ok; [done|]. intros k s []. by split_and!. Qed.

Lemma completed_session_ok c r : registry_ok r -> registry_ok (completed_session c r).2.
Proof.
  intros [Hs Ha]. unfold completed_session. destruct (list_find _ _) as [[i [k s]]|] eqn:E; [|done].
  apply list_find_Some in E as (Hi & [_ Hc] & _). apply list_elem_of_lookup_2, elem_of_map_to_list in Hi. cbn in Hc.
  destruct r as [ss aa]. cbn in *. split; cbn.
  - by apply map_Forall_delete.
  - intros c' k' Hk. destruct (Ha _ _ Hk) as (x & Hx & ? & ?). exists x. rewrite lookup_delete_ne; [done|]. congruence.
Qed.

Lemma empty_registry_ok : registry_ok empty_registry.
Proof. split; [done|]. intros c k. cbn. by rewrite lookup_empty. Qed.

(** ** What the writer is given *)

Lemma payload_of_list l :
  Forall valid l.*2 -> Forall exact l.*2 -> Forall (fun k => k ∉ l.*1) CHAIN_FIELDS -> payload (VObj (BTree.of_list l)).
Proof.
  intros Hv He Hf. split_and!; [by apply valid_of_list|by apply exact_of_list|].
  apply (Forall_impl _ _ _ Hf). intros k. apply BTree.get_of_list_None.
Qed.

Lemma payload_insert k x m :
  k ∉ CHAIN_FIELDS -> valid x -> exact x -> payload (VObj m) -> payload (VObj (BTree.insert k x m)).
Proof.
  intros Hk Hv He (H1 & H2 & H3). split_and!; [by apply valid_insert|by apply exact_insert|].
  apply Forall_forall. intros k' Hk'. rewrite Forall_forall in H3. rewrite BTree.get_insert_ne; [by apply H3|congruence].
Qed.

Lemma int_or_null_ok w n :
  in_width (Int.is_s w) n \/ in_width (Int.is_u w) n -> (1 <= w <= 64)%Z -> valid (int_or_null n) /\ exact (int_or_null n).
Proof.
  destruct n as [n|]; [|done]. cbn. intros H Hw. split; [|done].
  assert (2 ^ (w - 1) <= 2 ^ 63) by (apply Z.pow_le_mono_r; lia).
  assert (2 ^ w <= 2 ^ 64) by (apply Z.pow_le_mono_r; lia).
  assert (2 ^ 63 < 2 ^ 64) by done. pose proof (Z.pow_pos_nonneg 2 63 ltac:(lia) ltac:(lia)).
  destruct H as [H|H]; [unfold Int.is_s, Int.smin, Int.smax in H|unfold Int.is_u, Int.umax in H]; lia.
Qed.

Lemma file_value_ok f : Int.is_s 64 (size f) -> valid (file_value f) /\ exact (file_value f).
Proof.
  intros Hf. destruct (int_or_null_ok 64 (Some (size f))) as [Hv He]; [by left|lia|]. unfold file_value.
  split; [apply valid_of_list|apply exact_of_list]; case_bool_decide; cbn [app fmap list_fmap snd];
    by repeat (apply Forall_cons_2 || apply Forall_nil_2).
Qed.

Lemma record_payload k r : session_ok k r -> payload (record_value r).
Proof.
  intros [_ _ H1 H2 H3 H4 H5 _].
  destruct (int_or_null_ok 32 (Some (conn_id r))) as [V1 E1]; [by left|lia|].
  destruct (int_or_null_ok 64 (duration_secs r)) as [V2 E2]; [by right|lia|].
  destruct (int_or_null_ok 64 (primary_auth r)) as [V3 E3]; [by left|lia|].
  destruct (int_or_null_ok 64 (two_factor r)) as [V4 E4]; [by left|lia|].
  assert (Hs : forall l, Forall valid (VStr <$> l) /\ Forall exact (VStr <$> l)).
  { induction l as [|x l [IH1 IH2]]; [done|]. split; by constructor. }
  assert (Hf : Forall valid (file_value <$> files r) /\ Forall exact (file_value <$> files r)).
  { clear - H5. induction H5 as [|f l Hf _ [IH1 IH2]]; [done|]. destruct (file_value_ok f Hf). split; by constructor. }
  unfold record_value. destruct (Hs (posture_bypasses r)) as [V5 E5], (Hs (elements (permissions_used r))) as [V6 E6], Hf as [V7 E7].
  apply payload_of_list.
  - rewrite !fmap_app. apply Forall_app. split; [by repeat apply Forall_cons_2|]. apply Forall_app. split; [by case_bool_decide; repeat apply Forall_cons_2|].
    cbn [fmap list_fmap snd]. repeat apply Forall_cons_2; try done; by apply valid_arr.
  - rewrite !fmap_app. apply Forall_app. split; [by repeat apply Forall_cons_2|]. apply Forall_app. split; [by case_bool_decide; repeat apply Forall_cons_2|].
    cbn [fmap list_fmap snd]. repeat apply Forall_cons_2; try done; by apply exact_arr.
  - case_bool_decide; cbn [app fmap list_fmap fst]; decide_now.
Qed.

Lemma or_null_ok k v : valid v -> exact v -> valid (or_null (get k v)) /\ exact (or_null (get k v)).
Proof.
  intros Hv He. destruct (get k v) as [x|] eqn:E; [|done]. cbn. split; [by apply (get_valid k v)|].
  destruct v as [| | | | | |m]; try done. cbn in E. apply exact_obj in He. apply valid_obj in Hv as [Hs _].
  apply BTree.get_in in E; [|done]. rewrite Forall_forall in He. apply He. by apply (list_elem_of_fmap_2 snd _ (k, x)).
Qed.

Lemma alarm_payload now v :
  valid v -> exact v ->
  (forall t info, get (Str.lit "info") v ≫= as_str = Some t -> from_str t = Some info -> exact info) ->
  payload (alarm_record now v).
Proof.
  intros Hv He Hinfo. unfold alarm_record. cbv zeta.
  set (base := BTree.of_list _).
  assert (Hb : payload (VObj base)).
  { apply payload_of_list; [| |cbn [fmap list_fmap fst]; decide_now]; cbn [fmap list_fmap snd];
      repeat (apply Forall_cons_2 || apply Forall_nil_2); try done; by apply or_null_ok. }
  destruct ((get (Str.lit "info") v ≫= as_str) ≫= from_str) as [info|] eqn:E; [|done].
  apply bind_Some in E as (t & Et & Ei). pose proof (from_str_valid _ _ Ei) as Vi. specialize (Hinfo _ _ Et Ei).
  assert (Hset : forall k from m, Str.lit k ∉ CHAIN_FIELDS -> payload (VObj m) ->
    payload (VObj match get (Str.lit from) info with Some v => BTree.insert (Str.lit k) v m | None => m end)).
  { intros k from m Hk Hm. pose proof (or_null_ok (Str.lit from) info Vi Hinfo) as [H1 H2].
    destruct (get (Str.lit from) info) as [x|]; [|done]. by apply payload_insert. }
  repeat (apply Hset; [decide_now|]).
  do 3 (apply payload_insert; [decide_now|apply or_null_ok; done..|]). exact Hb.
Qed.

Lemma file_security_payload now kind v : payload (file_security_record now kind v).
Proof.
  destruct (int_or_null_ok 64 (value_i64 v (Str.lit "conn_id"))) as [V1 E1]; [left; apply value_i64_width|lia|].
  destruct (int_or_null_ok 64 (get (Str.lit "size") v ≫= as_u64)) as [V2 E2]; [right; apply as_u64_width|lia|].
  apply payload_of_list; [| |cbn [fmap list_fmap fst]; decide_now]; cbn [fmap list_fmap snd];
    by repeat (apply Forall_cons_2 || apply Forall_nil_2).
Qed.

Definition message_ok (m : WriterMessage) : Prop := match m with Append v => payload v | Clear => True end.

(** An event whose values are JSON without floats. *)
Definition event_ok (ev : Event) : Prop :=
  match ev with
  | Audit _ _ _ v =>
      valid v /\ exact v
      /\ forall t info, get (Str.lit "info") v ≫= as_str = Some t -> from_str t = Some info -> exact info
  | _ => True
  end.

(** The part of the process that the writer does not change. *)
Record front_ok (l : Log) : Prop := {
  fo_registry : registry_ok (registry l);
  fo_queue : Forall message_ok (queue l) }.

Lemma send_ok m l : message_ok m -> front_ok l -> front_ok (send m l).
Proof. intros Hm [H1 H2]. split; [done|]. cbn. apply Forall_app. split; [done|by constructor]. Qed.

Lemma clear_if_disabled_ok l : front_ok l -> front_ok (clear_if_disabled l).
Proof.
  intros Hl. unfold clear_if_disabled. destruct (disabled_cleared l); [done|]. apply send_ok; [done|].
  split; [apply empty_registry_ok|apply Hl].
Qed.

Lemma cleanup_if_due_ok now days l : front_ok l -> front_ok (cleanup_if_due now days l).
Proof. intros []. unfold cleanup_if_due. by repeat case_match. Qed.

(** A change of what the invariant does not look at. *)
Lemma front_same l l' : registry l' = registry l -> queue l' = queue l -> front_ok l -> front_ok l'.
Proof. intros E1 E2 [H1 H2]. split; by rewrite ?E1, ?E2. Qed.

Lemma on_audit_ok opt now kind v l :
  event_ok (Audit opt now kind v) -> front_ok l -> front_ok (on_audit opt now kind v l).
Proof.
  intros (Hv & He & Hi) Hl. unfold on_audit. destruct (enabled opt); cbn [negb]; [|by apply clear_if_disabled_ok].
  set (l1 := cleanup_if_due _ _ _).
  assert (H1 : front_ok l1) by (apply cleanup_if_due_ok; by apply (front_same l)). clearbody l1. clear Hl l.
  assert (Hr : forall f, registry_ok (f (registry l1)) -> front_ok (l1 <| registry ::= f |>)).
  { intros f Hf. split; [done|apply H1]. }
  destruct (bool_decide (kind = Str.lit "conn")).
  { unfold on_connection. destruct (apply_connection _ _ _) as [r w] eqn:Ea.
    destruct (apply_connection_ok _ _ _ _ _ (fo_registry _ H1) Ea) as [Hr' Hw].
    assert (H2 : front_ok (l1 <| registry := r |>)) by (split; [done|apply H1]).
    destruct w as [w|]; [|done]. apply send_ok; [|done]. destruct Hw as [k Hw]. by apply (record_payload k). }
  destruct (bool_decide (kind = Str.lit "file")); [by apply Hr, on_file_ok, H1|].
  destruct (bool_decide (kind = Str.lit "alarm")); [apply send_ok; [by apply alarm_payload|done]|].
  destruct (bool_decide (kind = Str.lit "clanto_file_clean")); [by apply Hr, on_file_scan_ok, H1|].
  destruct (is_file_security_kind kind); [|done].
  apply send_ok; [apply file_security_payload|]. by apply Hr, on_file_scan_ok, H1.
Qed.

(** What the writer leaves of the queue, whatever it does with the message. *)
Lemma writer_front opt io stuck l :
  registry (writer_step opt io stuck l).1 = registry l /\ queue (writer_step opt io stuck l).1 = tail (queue l).
Proof.
  unfold writer_step. destruct (queue l) as [|[v|] q] eqn:Eq; [cbn; by rewrite Eq| |done].
  cbn [write_message]. destruct (enabled opt); cbn [negb]; [|done].
  destruct (chain_value v _) as [[w link]|]; [|done]. by destruct (append_record io w _) as [d []].
Qed.

Lemma step_front ev l : event_ok ev -> front_ok l -> front_ok (step ev l).
Proof.
  intros He Hl. destruct ev as [opt now kind v|opt now|opt now|opt|opt free c p|c|opt io stuck|now stuck|]; cbn [step].
  - by apply on_audit_ok.
  - unfold initialize. destruct (enabled opt); [by apply cleanup_if_due_ok|by apply clear_if_disabled_ok].
  - unfold retention_changed. destruct (enabled opt); [apply cleanup_if_due_ok|apply clear_if_disabled_ok]; by apply (front_same l).
  - unfold maintenance. destruct (enabled opt); [by apply (front_same l)|by apply clear_if_disabled_ok].
  - unfold mark_permission. destruct (enabled opt), free; try done. split; [apply mark_permission_ok|]; apply Hl.
  - split; [apply completed_session_ok|]; apply Hl.
  - destruct (writer_front opt io stuck l) as [E1 E2]. destruct Hl as [H1 H2]. split; [by rewrite E1|rewrite E2].
    destruct H2; [constructor|done].
  - unfold cleanup_step. destruct (cleanups l); [done|]. by apply (front_same l).
  - split; [apply empty_registry_ok|constructor].
Qed.

(** ** A run *)

(** Writes go to the file of a month that is not before, at a time that is not before, and
    are not cut short; files that are to be removed are removed. *)
Fixpoint steady (nm : rstr) (t : Z) (evs : list Event) : Prop :=
  match evs with
  | [] => True
  | ev :: evs =>
      match ev with
      | WriterStep _ io stuck =>
          (nm = file_name (month io) \/ BTree.lt nm (file_name (month io))) /\ t <= at_time io
          /\ match outcome io with Cut _ => False | _ => True end /\ (forall f, stuck f = false)
          /\ steady (file_name (month io)) (at_time io) evs
      | CleanupStep _ stuck => (forall f, stuck f = false) /\ steady nm t evs
      | _ => steady nm t evs
      end
  end.

(** The records that the writer has been given and has written, since the log was last
    cleared. *)
Definition journal_of (ev : Event) (l : Log) (j : list Value) : list Value :=
  match ev with
  | WriterStep opt io stuck =>
      match queue l with
      | Append v :: _ => match (writer_step opt io stuck l).2 with Some _ => j ++ [v] | None => j end
      | Clear :: _ => []
      | [] => j
      end
  | _ => j
  end.

Fixpoint journal (evs : list Event) (l : Log) (j : list Value) : list Value :=
  match evs with [] => j | ev :: evs => journal evs (step ev l) (journal_of ev l j) end.

(** The files hold the last records of the journal, chained. *)
Record kept_log (nm : rstr) (t : Z) (l : Log) (j : list Value) : Prop := {
  kl_front : front_ok l;
  kl_chain : exists vs k final, stored (dir l) nm t vs /\ strip <$> vs = drop k j /\ chained None vs final
    /\ match chain l with Some last => vs = [] \/ last = final | None => True end }.

Lemma kept_intro nm t l j d ch :
  front_ok l -> dir l = d -> chain l = ch ->
  (exists vs k final, stored d nm t vs /\ strip <$> vs = drop k j /\ chained None vs final
    /\ match ch with Some last => vs = [] \/ last = final | None => True end) -> kept_log nm t l j.
Proof. by intros Hf <- <- H. Qed.

Lemma kept_same nm t l l' j :
  dir l' = dir l -> chain l' = chain l \/ chain l' = None -> front_ok l' -> kept_log nm t l j -> kept_log nm t l' j.
Proof.
  intros Ed Ec Hf [_ (vs & k & final & Hs & Hp & Hc & Hl)]. split; [done|]. exists vs, k, final.
  rewrite Ed. split_and!; [done..|]. by destruct Ec as [-> | ->].
Qed.

Lemma last_link_stored d nm t vs final : stored d nm t vs -> chained None vs final -> last_link d = final.
Proof.
  intros [_ (vss & Hh & <-) _ _ _] Hc. unfold last_link. rewrite (opened_holds _ _ Hh), omap_some. by apply chained_last.
Qed.

Lemma chained_snoc vs final last w l :
  chained None vs final -> vs = [] \/ last = final -> linked_to last w l -> chained None (vs ++ [w]) (Some l).
Proof.
  intros Hc Hl Hw. apply chained_app. exists final. split; [done|]. exists l. split; [|done].
  destruct Hl as [-> | ->]; [|done]. cbn in Hc. subst final. destruct Hw as (prev & ? & ? & _). by exists prev.
Qed.

(** What is left of a chained log when the first files go is a chained log. *)
Lemma kept_drop vs k final (last : option ChainLink) :
  chained None vs final -> vs = [] \/ last = final ->
  exists final', chained None (drop k vs) final' /\ (drop k vs = [] \/ last = final').
Proof.
  intros Hc Hl. destruct (drop k vs) as [|w ws] eqn:E; [by exists None; split; [|left]|].
  rewrite <- (take_drop k vs), E in Hc. apply chained_app in Hc as (mid & _ & Hc).
  exists final. split; [by apply (chained_anchor mid)|]. right. destruct Hl as [->|Hl]; [by destruct k|done].
Qed.

Lemma cleanup_ext s now days d : (forall f, s f = false) -> cleanup_old_files s now days d = cleanup_old_files none_stuck now days d.
Proof. intros Hs. unfold cleanup_old_files. apply List.filter_ext. intros e. by rewrite Hs. Qed.

Lemma clear_ext s d : (forall f, s f = false) -> clear_files s d = clear_files none_stuck d.
Proof. intros Hs. unfold clear_files. apply List.filter_ext. intros e. by rewrite Hs. Qed.

Lemma cleanup_kept now s nm t l j :
  (forall f, s f = false) -> kept_log nm t l j -> kept_log nm t (cleanup_step now s l) j.
Proof.
  intros Hs Hk. pose proof (step_front (CleanupStep now s) l I (kl_front _ _ _ _ Hk)) as Hf. cbn [step] in Hf.
  unfold cleanup_step in *. destruct (cleanups l) as [|days c]; [done|].
  destruct Hk as [_ (vs & k & final & Hst & Hp & Hc & Hl)].
  apply (kept_intro _ _ _ _ (cleanup_old_files s now days (dir l)) (chain l)); [done..|].
  rewrite cleanup_ext by done. destruct (cleanup_stored now days _ _ _ _ Hst) as [n Hn].
  destruct (chain l) as [last|].
  - destruct (kept_drop vs n final last Hc Hl) as (final' & H1 & H2).
    exists (drop n vs), (k + n)%nat, final'. split_and!; [done| |done..]. by rewrite fmap_drop, Hp, drop_drop.
  - destruct (kept_drop vs n final final Hc ltac:(by right)) as (final' & H1 & H2).
    exists (drop n vs), (k + n)%nat, final'. split_and!; [done| |done..]. by rewrite fmap_drop, Hp, drop_drop.
Qed.

Lemma drop_snoc {A} k (j : list A) x vs : drop k j = vs -> exists k', drop k' (j ++ [x]) = vs ++ [x].
Proof.
  intros <-. destruct (Nat.le_gt_cases k (length j)) as [Hk|Hk].
  - exists k. by rewrite drop_app_le.
  - exists (length j). rewrite drop_app_length, drop_ge; [done|lia].
Qed.

Lemma append_kept opt io s v nm t l j :
  nm = file_name (month io) \/ BTree.lt nm (file_name (month io)) -> t <= at_time io ->
  match outcome io with Cut _ => False | _ => True end ->
  payload v -> kept_log nm t l j ->
  let r := write_message opt io s (Append v) l in
  kept_log (file_name (month io)) (at_time io) r.1 (match r.2 with Some _ => j ++ [v] | None => j end).
Proof.
  intros Hnm Ht Hout Hv [Hf (vs & k & final & Hst & Hp & Hc & Hl)]. cbn [write_message].
  pose proof (stored_later _ _ _ _ _ _ Hst Hnm Ht) as Hst'.
  destruct (enabled opt); cbn [negb]; [|split; [done|]; by exists vs, k, final].
  set (last := match chain l with Some last => last | None => last_link (dir l) end).
  assert (Hlast : vs = [] \/ last = final).
  { unfold last. destruct (chain l); [done|]. right. by apply (last_link_stored _ _ _ _ _ Hst). }
  destruct (chain_value_linked v last Hv) as (w & link & -> & Hw & Vw & Ew & Sw).
  cbn zeta beta iota. unfold append_record.
  assert (Hsame : kept_log (file_name (month io)) (at_time io) (l <| chain := Some last |>) j).
  { split; [by apply (front_same l)|]. by exists vs, k, final. }
  destruct (seal_line w) as [line|] eqn:El; [|exact Hsame].
  destruct (outcome io) eqn:Eo; [exact Hsame|done|]. cbn [fst snd].
  apply (kept_intro _ _ _ _ (append_text (file_name (month io)) (at_time io) (line ++ [10]) (dir l)) (Some (Some link)));
    [by apply (front_same l)|done..|].
  destruct (drop_snoc k j v _ eq_refl) as [k' Hk'].
  exists (vs ++ [w]), k', (Some link). split_and!.
  - apply append_stored; [done|by split_and!|done].
  - rewrite fmap_app, Hp, Hk'. cbn [fmap list_fmap]. by rewrite Sw.
  - by apply (chained_snoc vs final last).
  - by right.
Qed.

Lemma writer_kept opt io s nm t l j :
  nm = file_name (month io) \/ BTree.lt nm (file_name (month io)) -> t <= at_time io ->
  match outcome io with Cut _ => False | _ => True end -> (forall f, s f = false) ->
  kept_log nm t l j ->
  kept_log (file_name (month io)) (at_time io) (writer_step opt io s l).1 (journal_of (WriterStep opt io s) l j).
Proof.
  intros Hnm Ht Hout Hs Hk. pose proof (kl_front _ _ _ _ Hk) as [Hr Hq]. unfold journal_of, writer_step.
  destruct (queue l) as [|m q] eqn:Eq.
  { destruct Hk as [Hf (vs & k & final & Hst & H)]. split; [done|]. exists vs, k, final.
    split; [|done]. by apply (stored_later _ nm t). }
  apply Forall_cons in Hq as [Hm Hq].
  assert (Hk' : kept_log nm t (l <| queue := q |>) j).
  { apply (kept_same nm t l); [done|by left| |done]. by split. }
  destruct m as [v|].
  - by apply (append_kept opt io s v nm t).
  - cbn [write_message fst snd]. destruct Hk' as [Hf (vs & k & final & Hst & Hp & Hc & Hl)].
    apply (kept_intro _ _ _ _ (clear_files s (dir l)) (Some None)); [by apply (front_same (l <| queue := q |>))|done..|].
    rewrite clear_ext by done. change (dir (l <| queue := q |>)) with (dir l) in Hst.
    rewrite (clear_stored _ _ _ _ Hst).
    exists [], 0%nat, None. split_and!; [apply stored_nil|done|done|by left].
Qed.

(** What only the writer and the cleaning change. *)
Definition files_of (l : Log) : Dir * option (option ChainLink) := (dir l, chain l).

Lemma cleanup_if_due_files now days l : files_of (cleanup_if_due now days l) = files_of l.
Proof. unfold cleanup_if_due. by repeat case_match. Qed.

Lemma clear_if_disabled_files l : files_of (clear_if_disabled l) = files_of l.
Proof. unfold clear_if_disabled. by case_match. Qed.

Lemma on_audit_files opt now kind v l : files_of (on_audit opt now kind v l) = files_of l.
Proof.
  unfold on_audit. destruct (enabled opt); cbn [negb]; [|apply clear_if_disabled_files].
  set (l1 := cleanup_if_due _ _ _). assert (E : files_of l1 = files_of l).
  { unfold l1. by rewrite cleanup_if_due_files. }
  clearbody l1. rewrite <- E. unfold on_connection, on_file_security.
  destruct (apply_connection _ _ _) as [r [w|]]; by repeat (case_match; try done).
Qed.

Lemma step_files ev l :
  match ev with WriterStep _ _ _ | CleanupStep _ _ | Restart => True | _ => files_of (step ev l) = files_of l end.
Proof.
  destruct ev as [opt now kind v|opt now|opt now|opt|opt free c p|c|opt io stuck|now stuck|]; cbn [step]; try done.
  - apply on_audit_files.
  - unfold initialize. destruct (enabled opt); [apply cleanup_if_due_files|apply clear_if_disabled_files].
  - unfold retention_changed. destruct (enabled opt); rewrite ?cleanup_if_due_files, ?clear_if_disabled_files; done.
  - unfold maintenance. destruct (enabled opt); [done|apply clear_if_disabled_files].
  - unfold mark_permission. by destruct (enabled opt), free.
Qed.

Lemma steady_kept evs nm t l j :
  Forall event_ok evs -> steady nm t evs -> kept_log nm t l j ->
  exists nm' t', kept_log nm' t' (run evs l) (journal evs l j).
Proof.
  intros He. revert nm t l j. induction He as [|ev evs Hev He IH]; intros nm t l j Hs Hk; [by exists nm, t|].
  cbn [run foldl journal]. pose proof (step_front ev l Hev (kl_front _ _ _ _ Hk)) as Hf. pose proof (step_files ev l) as Hsame.
  assert (Hgen : files_of (step ev l) = files_of l -> kept_log nm t (step ev l) j).
  { intros [= E1 E2]. apply (kept_same nm t l); [done|by left|done..]. }
  destruct ev; cbn [steady journal_of] in Hs |- *; try (apply (IH nm t); [exact Hs|by apply Hgen]).
  - destruct Hs as (H1 & H2 & H3 & H4 & H5). apply (IH _ _ _ _ H5). by apply (writer_kept opt io stuck nm t).
  - destruct Hs as (H1 & H2). apply (IH nm t); [done|by apply cleanup_kept].
  - apply (IH nm t); [done|]. apply (kept_same nm t l); [done|by right|done..].
Qed.

Lemma new_log_kept nm t : kept_log nm t (new_log []) [].
Proof.
  split; [split; [apply empty_registry_ok|constructor]|]. exists [], 0%nat, None.
  split_and!; [apply stored_nil|done|done|done].
Qed.

(** ** The log verifies *)

(** C21 What the host has written verifies.  Whatever the events, restarts and clearings,
    as long as writes are not cut short, months and the clock go on and files to be removed
    are removed, every line of the files opens, each verdict on its chain is [ok], and the
    records, without their links, are the last of those that the writer was given and wrote
    since the log was last cleared: cleaning takes the oldest away and nothing else. *)
Theorem written_log_verifies evs nm t :
  Forall event_ok evs -> steady nm t evs ->
  let d := dir (run evs (new_log [])) in
  exists vs k, opened_lines d = Some <$> vs /\ strip <$> vs = drop k (journal evs (new_log []) [])
  /\ verdicts (opened_lines d) new_verifier = replicate (length vs) (Some true).
Proof.
  intros He Hs d. destruct (steady_kept _ _ _ _ _ He Hs (new_log_kept nm t)) as (nm' & t' & [_ (vs & k & final & Hst & Hp & Hc & _)]).
  fold d in Hst. exists vs, k. destruct Hst as [_ (vss & Hh & <-) _ _ _].
  rewrite (opened_holds _ _ Hh). split_and!; [done|done|]. by apply (chained_verdicts _ _ final).
Qed.

(** ** Tampering *)

(** The records of a log that carry a link. *)
Definition linked_lines (ls : list (option Value)) : list Value :=
  omap (fun o => v ← o; _ ← link_of v; Some v) ls.

Lemma no_false_chained ls last g :
  Some false ∉ verdicts ls (mkChainVerifier last g) ->
  linked_lines ls = [] \/ ((g = false \/ last = None) /\ exists final, chained last (linked_lines ls) final).
Proof.
  revert last g. induction ls as [|[v|] ls IH]; intros last g; [by left| |].
  - cbn [verdicts check]. destruct (link_of v) as [[l prev]|] eqn:El.
    + intros Hn. apply not_elem_of_cons in Hn as [Hok Hn]. right.
      set (linked := match last_seen _ with Some _ => _ | None => true end) in Hok.
      assert (linked = true /\ chain_hash prev v = hash l) as [Hl Hh].
      { destruct linked; [|done]. case_bool_decide as Hb; [done|]. by destruct Hok. }
      assert (Hlink : (g = false \/ last = None) /\ linked_to last v l).
      { unfold linked in Hl. cbn [last_seen gap] in Hl. destruct last as [last|].
        - apply andb_true_iff in Hl as [[Hg Hq%Z.eqb_eq]%andb_true_iff Hp%bool_decide_eq_true].
          split; [left; by destruct g|]. by exists prev.
        - split; [by right|]. by exists prev. }
      destruct Hlink as [Hg Hlink]. split; [done|]. unfold linked_lines. cbn [omap list_omap mbind option_bind]. rewrite El.
      cbn [mbind option_bind]. destruct (IH _ _ Hn) as [E|[_ [final Hc]]].
      * exists (Some l). exists l. split; [done|]. unfold linked_lines in E. by rewrite E.
      * exists final, l. by split.
    + intros Hn. apply not_elem_of_cons in Hn as [_ Hn]. unfold linked_lines. cbn [omap list_omap mbind option_bind]. rewrite El.
      by apply IH.
  - cbn [verdicts check]. intros Hn. apply not_elem_of_cons in Hn as [_ Hn].
    destruct (IH last true Hn) as [E|[[?| ->] Hf]]; [by left|done|]. right. split; [by right|done].
Qed.

(** What is hashed for a record. *)
Definition hashed_text (v : Value) : rstr :=
  value_str v (Str.lit "_prev") ++ [10] ++ to_string (remove (Str.lit "_hash") v).

Definition record_hash (v : Value) : option rstr := get (Str.lit "_hash") v ≫= as_str.

Lemma link_of_Some v l prev :
  link_of v = Some (l, prev) ->
  exists m, v = VObj m /\ BTree.get (Str.lit "_hash") m = Some (VStr (hash l)) /\ record_hash v = Some (hash l)
  /\ value_str v (Str.lit "_prev") = prev /\ get (Str.lit "_seq") v ≫= as_u64 = Some (seq l) /\ Int.is_u 64 (seq l).
Proof.
  unfold link_of, record_hash, value_str. intros (s & Hs & (h & Hh & (p & Hp & [= <- <-])%bind_Some)%bind_Some)%bind_Some.
  rewrite Hs, Hh, Hp. destruct v as [| | | | | |m]; try done. exists m. split_and!; try done.
  - destruct (get _ _) as [x|] eqn:E in Hh; [|done]. rewrite get_obj in E. rewrite E. destruct x; try done.
    cbn in Hh. by injection Hh as ->.
  - destruct (get _ _) as [x|] in Hs; [|done]. destruct x; try done. cbn in Hs. case_bool_decide; [|done]. by injection Hs as <-.
Qed.

Lemma same_line (a b s t : rstr) :
  Forall (fun c => c <> 10) s -> Forall (fun c => c <> 10) t -> a ++ [10] ++ s = b ++ [10] ++ t -> a = b /\ s = t.
Proof.
  intros Hs Ht E. apply (f_equal (@reverse Z)) in E. rewrite !reverse_app in E.
  rewrite !reverse_singleton, <- !app_assoc in E. cbn [app] in E.
  assert (Hr : forall l, Forall (fun c => c <> 10) l -> Forall (fun c => (c =? 10) = false) (reverse l)).
  { intros l Hl. apply Forall_reverse. apply (Forall_impl _ _ _ Hl). intros c. by apply Z.eqb_neq. }
  destruct (split_char (fun c => c =? 10) 10 _ (reverse a) eq_refl (Hr _ Hs) _ (reverse b) (Hr _ Ht) E) as [E1 E2].
  split; by apply (inj reverse).
Qed.

(** Records of one hashed text and one hash are the same. *)
Lemma same_record v w l l' prev prev' :
  valid v -> valid w -> link_of v = Some (l, prev) -> link_of w = Some (l', prev') -> hash l = hash l' ->
  hashed_text v = hashed_text w -> v = w.
Proof.
  intros Vv Vw Lv Lw Eh Et. destruct (link_of_Some _ _ _ Lv) as (m & -> & Hm & _), (link_of_Some _ _ _ Lw) as (m' & -> & Hm' & _).
  unfold hashed_text in Et. apply same_line in Et as [_ Et];
    [|apply (Forall_impl _ _ _ (to_string_line _)); tauto|apply (Forall_impl _ _ _ (to_string_line _)); tauto].
  apply to_string_inj in Et; [|by apply valid_remove|by apply valid_remove]. cbn [remove] in Et. injection Et as Et.
  apply valid_obj in Vv as [Sm _], Vw as [Sm' _]. f_equal.
  apply BTree.sorted_ext; [done..|]. intros k. destruct (decide (k = Str.lit "_hash")) as [->|Hne].
  - rewrite Hm, Hm'. by rewrite Eh.
  - rewrite <- (BTree.get_remove_ne k (Str.lit "_hash") m), <- (BTree.get_remove_ne k (Str.lit "_hash") m') by done. by rewrite Et.
Qed.

(** No two of the texts hashed for the records of two logs collide. *)
Definition collision_free (vs ws : list Value) : Prop :=
  forall v w, v ∈ vs -> w ∈ ws -> sha256_hex (hashed_text v) = sha256_hex (hashed_text w) -> hashed_text v = hashed_text w.

Lemma linked_same a b v w l l' :
  valid v -> valid w -> linked_to a v l -> linked_to b w l' -> hash l = hash l' ->
  (sha256_hex (hashed_text v) = sha256_hex (hashed_text w) -> hashed_text v = hashed_text w) ->
  v = w /\ match a, b with Some a, Some b => hash a = hash b | _, _ => True end.
Proof.
  intros Vv Vw (p & Lv & Hv & Av) (p' & Lw & Hw & Aw) Eh Hcol.
  pose proof (link_of_Some _ _ _ Lv) as (_ & _ & _ & _ & Pv & _). pose proof (link_of_Some _ _ _ Lw) as (_ & _ & _ & _ & Pw & _).
  assert (Et : hashed_text v = hashed_text w).
  { apply Hcol. unfold hashed_text. rewrite Pv, Pw. unfold chain_hash in Hv, Hw. congruence. }
  pose proof (same_record _ _ _ _ _ _ Vv Vw Lv Lw Eh Et) as ->. split; [done|].
  destruct a as [a|], b as [b|]; try done. destruct Av as [_ <-], Aw as [_ <-]. congruence.
Qed.

Lemma chained_snoc_inv vs v final :
  chained None (vs ++ [v]) final ->
  exists mid l, chained None vs mid /\ linked_to mid v l /\ final = Some l.
Proof. intros (mid & H1 & (l & H2 & ->))%chained_app. by exists mid, l. Qed.

Lemma chained_suffix vs ws l l' :
  Forall valid vs -> Forall valid ws -> collision_free vs ws ->
  chained None vs (Some l) -> chained None ws (Some l') -> hash l = hash l' ->
  vs `suffix_of` ws \/ ws `suffix_of` vs.
Proof.
  revert ws l l'. induction vs as [|v vs IH] using rev_ind; intros ws l l' Vv Vw Hcol Hc Hc' Eh.
  { left. by exists ws; rewrite app_nil_r. }
  destruct ws as [|w ws _] using rev_ind; [right; by exists (vs ++ [v]); rewrite app_nil_r|].
  apply chained_snoc_inv in Hc as (mid & l1 & Hc & Hl & [= <-]), Hc' as (mid' & l2 & Hc' & Hl' & [= <-]).
  apply Forall_app in Vv as [Vv [Vv1 _]%Forall_cons], Vw as [Vw [Vw1 _]%Forall_cons].
  destruct (linked_same _ _ _ _ _ _ Vv1 Vw1 Hl Hl' Eh) as [-> Hm].
  { apply Hcol; apply elem_of_app; right; by left. }
  assert (vs `suffix_of` ws \/ ws `suffix_of` vs) as [[x ->]|[x ->]];
    [|left; exists x; by rewrite app_assoc|right; exists x; by rewrite app_assoc].
  destruct mid as [a|]; [destruct mid' as [b|]|].
  - apply (IH _ a b); [done..| |done|done|done]. intros x y Hx Hy. apply Hcol; apply elem_of_app; by left.
  - right. destruct ws as [|w' ws]; [by exists vs; rewrite app_nil_r|]. exfalso. clear - Hc'.
    cbn in Hc'. destruct Hc' as (x & _ & Hx). clear w'. revert x Hx. induction ws as [|w' ws IH]; intros x; [done|]. intros (y & _ & Hy). by apply (IH y).
  - left. destruct vs as [|v' vs]; [by exists ws; rewrite app_nil_r|]. exfalso. clear - Hc.
    cbn in Hc. destruct Hc as (x & _ & Hx). clear v'. revert x Hx. induction vs as [|v' vs IH]; intros x; [done|]. intros (y & _ & Hy). by apply (IH y).
Qed.

Lemma open_line_valid line v : open_line line = Some v -> valid v.
Proof.
  unfold open_line. destruct (decrypt_str_or_original_scoped line) as [plain success].
  assert (Hp : (if success then from_str plain else None) = Some v -> valid v).
  { destruct success; [apply from_str_valid|done]. }
  destruct line as [|c line]; [done|]. destruct (decide (c = 123)) as [->|Hc]; [apply from_str_valid|].
  intros H. apply Hp. by repeat (case_match; try done).
Qed.

Lemma opened_valid d : Forall valid (linked_lines (opened_lines d)).
Proof.
  apply Forall_forall. intros v Hv. unfold linked_lines in Hv. apply list_elem_of_omap in Hv as (o & Ho & Hv).
  destruct o as [x|]; [|done]. cbn in Hv. apply bind_Some in Hv as (_ & _ & [= ->]).
  unfold opened_lines in Ho. apply list_elem_of_In, List.in_concat in Ho as (ls & Hls & Ho). apply list_elem_of_In, list_elem_of_fmap in Hls as (e & -> & _).
  destruct (text e.2) as [data|]; [|done]. apply list_elem_of_In, list_elem_of_fmap in Ho as (line & Hl & _).
  by apply (open_line_valid line).
Qed.

Lemma chained_linked last vs final : chained last vs final -> linked_lines (Some <$> vs) = vs.
Proof.
  revert last. induction vs as [|v vs IH]; intros last; [done|]. intros (l & (p & Hl & _) & Hc).
  unfold linked_lines. cbn [fmap list_fmap omap list_omap mbind option_bind]. rewrite Hl. cbn [mbind option_bind]. f_equal. by apply (IH (Some l)).
Qed.

Lemma chained_cut vs v ws final :
  chained None (vs ++ v :: ws) final -> exists l, chained None (vs ++ [v]) (Some l) /\ record_hash v = Some (hash l).
Proof.
  intros (mid & H1 & (l & Hl & H2))%chained_app. exists l. split; [apply chained_app; exists mid; split; [done|by exists l]|].
  destruct Hl as (p & Hl & _). by apply link_of_Some in Hl as (_ & _ & _ & -> & _).
Qed.

(** The verdict of a line of a log with nothing broken: a line with the fields of the chain
    is good, any other has none. *)
Definition verdict_if_good (line : option Value) : option bool := v ← line; _ ← link_of v; Some true.

Lemma good_verdicts ls last : Some false ∉ verdicts ls last -> verdicts ls last = verdict_if_good <$> ls.
Proof.
  revert last. induction ls as [|line ls IH]; intros last; [done|]. cbn [verdicts fmap list_fmap].
  destruct (check line last) as [verdict next] eqn:E. intros [Hv Hn]%not_elem_of_cons. f_equal; [|by apply IH].
  unfold check in E. unfold verdict_if_good. destruct line as [v|]; [|by injection E as <- _]. cbn [mbind option_bind].
  destruct (link_of v) as [[l prev]|]; injection E as <- _; [|done]. cbn [mbind option_bind].
  by match goal with |- Some ?b = _ => destruct b end.
Qed.

(** C20 Tampering with the records of the chain shows.  Take the files of the host and any
    other content of the folder whose verification finds nothing broken.  If a record of
    the chain of the latter has the digest of one of the former, then all the records of
    the chain that precede it are the same, one by one, up to where the shorter of the two
    begins: none of them was changed, removed, inserted or moved, unless two of the hashed
    texts collide.  This is of the lines that have the fields of the chain, which are those
    with a verdict; a line without them, wherever it is inserted, has no verdict and breaks
    nothing ([unlinked_line_shows_ok]), and the records after the last common one are not
    bound by it ([last_lines_can_go]). *)
Theorem tampering_shows evs nm t d vs v vs' ws w ws' :
  Forall event_ok evs -> steady nm t evs ->
  let host := dir (run evs (new_log [])) in
  Some false ∉ verdicts (opened_lines d) new_verifier ->
  linked_lines (opened_lines d) = vs ++ v :: vs' -> linked_lines (opened_lines host) = ws ++ w :: ws' ->
  record_hash v = record_hash w -> collision_free (linked_lines (opened_lines d)) (linked_lines (opened_lines host)) ->
  ((vs ++ [v]) `suffix_of` (ws ++ [w]) \/ (ws ++ [w]) `suffix_of` (vs ++ [v]))
  /\ verdicts (opened_lines d) new_verifier = verdict_if_good <$> opened_lines d.
Proof.
  intros He Hs host Hn Ed Eh Hrec Hcol. split; [|by apply good_verdicts].
  destruct (steady_kept _ _ _ _ _ He Hs (new_log_kept nm t)) as (nm' & t' & [_ (us & k & final & Hst & _ & Hc & _)]).
  fold host in Hst. destruct Hst as [_ (vss & Hh & <-) _ _ _].
  assert (Eus : linked_lines (opened_lines host) = concat vss).
  { rewrite (opened_holds _ _ Hh). by apply (chained_linked None _ final). }
  destruct (no_false_chained _ _ _ Hn) as [E|[_ [final' Hc']]]; [rewrite E in Ed; by destruct vs|].
  pose proof (opened_valid d) as Vd. pose proof (opened_valid host) as Vh.
  rewrite Eh in Eus. rewrite <- Eus in Hc. rewrite Ed in Hc', Vd, Hcol. rewrite Eh in Vh, Hcol.
  apply chained_cut in Hc as (l & Hc & Hl), Hc' as (l' & Hc' & Hl'). rewrite (cons_middle v), app_assoc in Vd, Hcol. rewrite (cons_middle w), app_assoc in Vh, Hcol.
  apply Forall_app in Vd as [Vd _], Vh as [Vh _].
  apply (chained_suffix _ _ l' l); [done..| |done|done|congruence].
  intros x y Hx Hy. apply Hcol; apply elem_of_app; by left.
Qed.

(** ** Each session has a record of its own *)

(** What changes the registry, and what it gives out. *)
Inductive RegOp :=
| RConnection (now : rstr) (value : Value)
| RFile (value : Value)
| RScan (kind : rstr) (value : Value)
| RMark (conn : Z) (permission : rstr)
| RCompleted (conn : Z).

Definition apply_op (op : RegOp) (r : Registry) : Registry * option Value :=
  match op with
  | RConnection now v => let '(r, w) := apply_connection now v r in (r, record_value <$> w)
  | RFile v => (on_file v r, None)
  | RScan kind v => (on_file_scan kind v r, None)
  | RMark c p => (mark_permission_in c p r, None)
  | RCompleted c => let '(v, r) := completed_session c r in (r, v)
  end.

Definition concerns (c : Z) (op : RegOp) : bool :=
  match op with
  | RConnection _ v | RFile v | RScan _ v => bool_decide (value_conn_id v = Some c)
  | RMark c' _ | RCompleted c' => c' =? c
  end.

(** What the registry gives out for the operations of one connection. *)
Fixpoint given_to (c : Z) (ops : list RegOp) (r : Registry) : list (option Value) :=
  match ops with
  | [] => []
  | op :: ops =>
      let '(r', out) := apply_op op r in
      if concerns c op then out :: given_to c ops r' else given_to c ops r'
  end.

(** The life of one session, by itself. *)
Inductive Life := Fresh | Open (s : SessionRecord) | Closed (s : SessionRecord) | Over.

Definition on_open (f : SessionRecord -> SessionRecord) (life : Life) : Life :=
  match life with Open s => Open (f s) | _ => life end.

Definition live (op : RegOp) (life : Life) : Life * option Value :=
  match op with
  | RConnection now v =>
      if action_is v "new"
      then match start now v with Some s => (Open s, Some (record_value s)) | None => (life, None) end
      else match life with
           | Open s =>
               let '(s', w) := update_record now v s in
               (if closed s' then Closed s' else Open s', record_value <$> w)
           | _ => (life, None)
           end
  | RFile v => (on_open (file_record v) life, None)
  | RScan kind v =>
      (on_open (fun s => s <| files ::= apply_file_scan (basename (value_str v (Str.lit "name")))
                                          (value_i64 v (Str.lit "size")) (scan_label kind) |>) life, None)
  | RMark _ p => (on_open (fun s => s <| permissions_used ::= union {[p]} |>) life, None)
  | RCompleted _ => match life with Closed s => (Over, Some (record_value s)) | _ => (life, None) end
  end.

Fixpoint live_all (ops : list RegOp) (life : Life) : list (option Value) :=
  match ops with [] => [] | op :: ops => let '(life, out) := live op life in out :: live_all ops life end.

(** The connections that open, in order. *)
Definition opened_by (op : RegOp) : option Z :=
  match op with RConnection _ v => if action_is v "new" then value_conn_id v else None | _ => None end.

(** The registry's part for a connection is the life of its session. *)
Definition lives (c : Z) (r : Registry) (life : Life) : Prop :=
  match life with
  | Fresh | Over => active_by_conn r !! c = None /\ forall k s, sessions r !! k = Some s -> conn_id s <> c
  | Open s => exists k, active_by_conn r !! c = Some k /\ sessions r !! k = Some s
      /\ forall k' s', sessions r !! k' = Some s' -> conn_id s' = c -> k' = k
  | Closed s => active_by_conn r !! c = None /\ exists k, sessions r !! k = Some s /\ closed s = true /\ conn_id s = c
      /\ forall k' s', sessions r !! k' = Some s' -> conn_id s' = c -> k' = k
  end.

Lemma apply_op_ok op r : registry_ok r -> registry_ok (apply_op op r).1.
Proof.
  intros Hr. destruct op as [now v|v|kind v|c p|c]; cbn [apply_op].
  - destruct (apply_connection now v r) as [r' w] eqn:E. by apply apply_connection_ok in E as [H _].
  - by apply on_file_ok.
  - by apply on_file_scan_ok.
  - by apply mark_permission_ok.
  - pose proof (completed_session_ok c r Hr) as H. by destruct (completed_session c r) as [v r'].
Qed.

(** A change of the open session of another connection. *)
Lemma with_other c c' f r life :
  registry_ok r -> c' <> c -> (forall s, session_for c' r = Some s -> conn_id (f s) = conn_id s) ->
  lives c r life -> lives c (with_session c' f r) life.
Proof.
  intros Hr Hne Hf. unfold with_session. unfold session_for in Hf. destruct (active_by_conn r !! c') as [k'|] eqn:Ek; [|done].
  destruct (ro_active _ Hr _ _ Ek) as (s' & Hs' & Hc' & _). destruct r as [ss aa]. cbn in *.
  assert (Hback' : forall k s, alter f k' ss !! k = Some s -> exists x, ss !! k = Some x /\ conn_id x = conn_id s).
  { intros k s. rewrite lookup_alter_Some. intros [(-> & x & Hx & ->)|[_ H]]; [|by exists s]. exists x. by rewrite Hf by done. }
  assert (Hkeep : forall k s, ss !! k = Some s -> conn_id s = c -> alter f k' ss !! k = Some s).
  { intros k s H1 H2. rewrite lookup_alter_ne; [done|]. intros ->. congruence. }
  destruct life as [|s|s|]; cbn.
  - intros [H1 H2]. split; [done|]. intros k s (x & Hx & <-)%Hback'. by apply (H2 k).
  - intros (k & H1 & H2 & H3). exists k. split_and!; [done| |intros ? ? (x & Hx & <-)%Hback'; by apply H3].
    destruct (ro_active _ Hr _ _ H1) as (x & Hx & Hcx & _). cbn in Hx. apply Hkeep; [done|]. congruence.
  - intros [H1 (k & H2 & H3 & H4 & H5)]. split; [done|]. exists k.
    split_and!; [by apply Hkeep|done|done|intros ? ? (x & Hx & <-)%Hback'; by apply H5].
  - intros [H1 H2]. split; [done|]. intros k s (x & Hx & <-)%Hback'. by apply (H2 k).
Qed.

(** A change of the connection's own open session. *)
Lemma with_own c f r life :
  registry_ok r -> (forall s, conn_id (f s) = conn_id s) -> lives c r life -> lives c (with_session c f r) (on_open f life).
Proof.
  intros Hr Hf. unfold with_session. destruct life as [|s|s|]; cbn [on_open].
  - intros H. pose proof H as [-> _]. done.
  - intros (k & H1 & H2 & H3). rewrite H1. destruct r as [ss aa]. cbn in *. exists k. split_and!; [done|by rewrite lookup_alter_eq, H2|].
    intros k' s'. rewrite lookup_alter_Some. intros [(-> & x & Hx & ->)|[_ H]]; [done|by apply H3].
  - intros H. pose proof H as [-> _]. done.
  - intros H. pose proof H as [-> _]. done.
Qed.

Lemma file_record_conn v s : conn_id (file_record v s) = conn_id s.
Proof. unfold file_record. by case_match. Qed.

(** An operation of another connection leaves the life alone. *)
Lemma lives_other c op r life :
  registry_ok r -> concerns c op = false -> lives c r life -> lives c (apply_op op r).1 life.
Proof.
  intros Hr Hc. destruct op as [now v|v|kind v|c' p|c']; cbn [apply_op concerns] in *.
  - apply bool_decide_eq_false in Hc. unfold apply_connection. destruct (action_is v "new").
    + destruct (start now v) as [s|] eqn:Es; [|done]. destruct (start_ok _ _ _ Es) as (Hs & _ & Hv). cbn [fst].
      assert (Hne : conn_id s <> c) by congruence. pose proof (ro_sessions _ Hr) as Hss. destruct r as [ss aa]. cbn in *.
      assert (Hkey : forall k x, ss !! k = Some x -> conn_id x = c -> k <> session_key s).
      { intros k x Hx Hcx ->. pose proof (so_key_of _ _ (Hss _ _ Hx)) as E. rewrite (so_key_of _ _ Hs) in E.
        apply key_inj in E as [? _]. congruence. }
      assert (Hback : forall k x, <[session_key s := s]> ss !! k = Some x -> conn_id x = c -> ss !! k = Some x).
      { intros k x. rewrite lookup_insert_Some. intros [[_ <-]|[_ H]]; done. }
      destruct life as [|s0|s0|]; cbn; rewrite ?lookup_insert_ne by done.
      * intros [H1 H2]. split; [done|]. intros k x Hx Hcx. by apply (H2 k x); [apply Hback|].
      * intros (k & H1 & H2 & H3). destruct (ro_active _ Hr _ _ H1) as (x & Hx & Hcx & _). cbn in Hx. exists k. split_and!; [done| |].
        { rewrite lookup_insert_ne; [done|]. intros E. by destruct (Hkey k x Hx Hcx). }
        intros k' s' H Hcs. by apply (H3 k' s'); [apply Hback|].
      * intros [H1 (k & H2 & H3 & H4 & H5)]. split; [done|]. exists k. split_and!; [|done|done|].
        { rewrite lookup_insert_ne; [done|]. intros E. by destruct (Hkey k s0 H2 H4). }
        intros k' s' H Hcs. by apply (H5 k' s'); [apply Hback|].
      * intros [H1 H2]. split; [done|]. intros k x Hx Hcx. by apply (H2 k x); [apply Hback|].
    + destruct (value_conn_id v) as [c'|] eqn:Ev; [|done]. assert (Hne : c' <> c) by congruence.
      destruct (session_for c' r) as [s|] eqn:Es; [|done]. destruct (update_record now v s) as [s' w] eqn:Eu. cbn [fst].
      intros Hl. unfold session_for in Es. destruct (active_by_conn r !! c') as [k|] eqn:Ek; [|done]. cbn in Es.
      destruct (ro_active _ Hr _ _ Ek) as (s1 & E1 & Hc1 & Hcl). rewrite Es in E1. injection E1 as <-.
      destruct (update_record_ok _ _ _ _ _ _ Eu (ro_sessions _ Hr _ _ Es) Hcl) as (_ & Hid & _).
      assert (Hl' : lives c (with_session c' (fun _ => s') r) life).
      { apply with_other; [done|done| |done]. intros x. unfold session_for. rewrite Ek. cbn. intros Hx.
        unfold identity in Hid. congruence. }
      destruct w as [w|]; [|done]. destruct (closed w); [|done]. destruct (with_session c' _ r) as [ss aa]. cbn in *.
      destruct life as [|s0|s0|]; cbn in *; rewrite ?lookup_delete_ne; done.
  - apply bool_decide_eq_false in Hc. unfold on_file. destruct (value_conn_id v) as [c'|]; [|done]. intros Hl.
    apply with_other; [done|congruence|intros; apply file_record_conn|done].
  - apply bool_decide_eq_false in Hc. unfold on_file_scan. destruct (value_conn_id v) as [c'|]; [|done]. intros Hl.
    apply with_other; [done|congruence|done|done].
  - apply Z.eqb_neq in Hc. intros Hl. by apply with_other.
  - apply Z.eqb_neq in Hc. intros Hl. unfold completed_session. destruct (list_find _ _) as [[i [k s]]|] eqn:E; [|done].
    apply list_find_Some in E as (Hi & [Hcs _] & _). apply list_elem_of_lookup_2, elem_of_map_to_list in Hi. cbn in Hcs, Hi.
    destruct r as [ss aa]. cbn in *.
    assert (Hkeep : forall k' x, ss !! k' = Some x -> conn_id x = c -> delete k ss !! k' = Some x).
    { intros k' x Hx Hcx. rewrite lookup_delete_ne; [done|]. congruence. }
    assert (Hback : forall k' x, delete k ss !! k' = Some x -> ss !! k' = Some x) by (intros k' x; by rewrite lookup_delete_Some; intros [_ ?]).
    destruct life as [|s0|s0|]; cbn in *.
    + destruct Hl as [H1 H2]. split; [done|]. intros k' x Hx%Hback. by apply (H2 k').
    + destruct Hl as (k' & H1 & H2 & H3). destruct (ro_active _ Hr _ _ H1) as (x & Hx & Hcx & _). cbn in Hx. exists k'. split_and!; [done| |].
      { apply Hkeep; [done|]. congruence. } intros ? ? Hx'%Hback. by apply H3.
    + destruct Hl as [H1 (k' & H2 & H3 & H4 & H5)]. split; [done|]. exists k'. split_and!; [by apply Hkeep|done|done|].
      intros ? ? Hx'%Hback. by apply H5.
    + destruct Hl as [H1 H2]. split; [done|]. intros k' x Hx%Hback. by apply (H2 k').
Qed.

Lemma lives_session c r life :
  lives c r life -> session_for c r = match life with Open s => Some s | _ => None end.
Proof.
  unfold session_for. destruct life as [|s|s|]; cbn.
  - by intros [-> _].
  - by intros (k & -> & H & _).
  - by intros [-> _].
  - by intros [-> _].
Qed.

Lemma update_own now v c r s :
  registry_ok r -> lives c r (Open s) ->
  forall s' w, update_record now v s = (s', w) ->
  let r' := with_session c (fun _ => s') r in
  lives c (match w with Some w => if closed w then r' <| active_by_conn ::= delete c |> else r' | None => r' end)
    (if closed s' then Closed s' else Open s').
Proof.
  intros Hr (k & H1 & H2 & H3) s' w Eu r'. destruct (ro_active _ Hr _ _ H1) as (x & Hx & Hcx & Hcl).
  rewrite H2 in Hx. injection Hx as <-.
  destruct (update_record_ok _ _ _ _ _ _ Eu (ro_sessions _ Hr _ _ H2) Hcl) as (_ & Hid & Hw).
  assert (Hcs : conn_id s' = c) by (unfold identity in Hid; congruence).
  unfold r', with_session. rewrite H1. destruct r as [ss aa]. cbn in *.
  assert (Hown : alter (fun _ => s') k ss !! k = Some s') by (by rewrite lookup_alter_eq, H2).
  assert (Honly : forall k' x, alter (fun _ => s') k ss !! k' = Some x -> conn_id x = c -> k' = k).
  { intros k' x. rewrite lookup_alter_Some. intros [(-> & _)|[_ H]]; [done|by apply H3]. }
  assert (Hopen : lives c (mkRegistry (alter (fun _ => s') k ss) aa) (Open s')) by (by exists k).
  assert (Hclosed : closed s' = true -> lives c (mkRegistry (alter (fun _ => s') k ss) (delete c aa)) (Closed s')).
  { intros E. split; [apply lookup_delete_eq|]. by exists k. }
  destruct w as [w|]; [destruct Hw as [_ Hw]; rewrite Hw|rewrite Hw; exact Hopen].
  destruct (closed s') eqn:E; [by apply Hclosed|exact Hopen].
Qed.

Lemma completed_own c r life :
  registry_ok r -> lives c r life ->
  lives c (completed_session c r).2 (live (RCompleted c) life).1 /\ (completed_session c r).1 = (live (RCompleted c) life).2.
Proof.
  intros Hr Hl. unfold completed_session. destruct (list_find _ _) as [[i [k x]]|] eqn:E.
  - apply list_find_Some in E as (Hi & [Hcx Hclx] & _). apply list_elem_of_lookup_2, elem_of_map_to_list in Hi. cbn in Hcx, Hclx, Hi.
    destruct life as [|s|s|]; cbn [live lives fst snd] in *.
    + destruct Hl as [_ H]. by destruct (H _ _ Hi).
    + destruct Hl as (k' & H1 & H2 & H3). destruct (ro_active _ Hr _ _ H1) as (y & Hy & _ & Hcl).
      rewrite (H3 _ _ Hi Hcx) in Hi. congruence.
    + destruct Hl as [H1 (k' & H2 & H3 & H4 & H5)]. pose proof (H5 _ _ Hi Hcx) as ->.
      assert (x = s) as -> by congruence. split; [|done]. destruct r as [ss aa]. cbn in *. split; [done|].
      intros k'' y. rewrite lookup_delete_Some. intros [Hne Hy] Hcy. by destruct (Hne (eq_sym (H5 _ _ Hy Hcy))).
    + destruct Hl as [_ H]. by destruct (H _ _ Hi).
  - destruct life as [|s|s|]; cbn [live lives fst snd] in *; try done.
    destruct Hl as [_ (k & H2 & H3 & H4 & _)]. apply list_find_None in E. rewrite Forall_forall in E.
    destruct (E (k, s)); [by apply elem_of_map_to_list|done].
Qed.

(** An operation of the connection itself: the life goes on, and gives the same. *)
Lemma lives_own c op r life :
  registry_ok r -> concerns c op = true -> (opened_by op = Some c -> life = Fresh) -> lives c r life ->
  lives c (apply_op op r).1 (live op life).1 /\ (apply_op op r).2 = (live op life).2.
Proof.
  intros Hr Hc Hnew Hl. destruct op as [now v|v|kind v|c' p|c']; cbn [apply_op live concerns opened_by] in *.
  - apply bool_decide_eq_true in Hc. unfold apply_connection. destruct (action_is v "new").
    + rewrite (Hnew Hc) in *. destruct (start now v) as [s|] eqn:Es.
      2:{ unfold start in Es. by rewrite Hc in Es. }
      destruct (start_ok _ _ _ Es) as (_ & _ & Hv). assert (conn_id s = c) as Hcs by congruence.
      split; [|done]. cbn [fst]. destruct Hl as [H1 H2]. destruct r as [ss aa]. cbn in *. rewrite Hcs. exists (session_key s).
      rewrite !lookup_insert_eq. split_and!; [done..|]. intros k' x. rewrite lookup_insert_Some.
      intros [[<- _]|[_ Hx]] Hcx; [done|]. by destruct (H2 _ _ Hx).
    + rewrite Hc, (lives_session _ _ _ Hl). destruct life as [|s|s|]; try done.
      destruct (update_record now v s) as [s' w] eqn:Eu. cbn [fst snd]. split; [|done]. by apply (update_own now v c r s).
  - apply bool_decide_eq_true in Hc. unfold on_file. rewrite Hc. split; [|done]. cbn [fst].
    apply with_own; [done|apply file_record_conn|done].
  - apply bool_decide_eq_true in Hc. unfold on_file_scan. rewrite Hc. split; [|done]. cbn [fst]. by apply with_own.
  - apply Z.eqb_eq in Hc as ->. split; [|done]. cbn [fst]. by apply with_own.
  - apply Z.eqb_eq in Hc as ->. pose proof (completed_own c r life Hr Hl) as H. by destruct (completed_session c r) as [v r'].
Qed.

Lemma stays_fresh c op : concerns c op = true -> opened_by op <> Some c -> (live op Fresh).1 = Fresh.
Proof.
  destruct op as [now v|v|kind v|c' p|c']; try done. cbn. intros ->%bool_decide_eq_true. by destruct (action_is v "new").
Qed.

Lemma given_lives c ops r life :
  registry_ok r -> NoDup (omap opened_by ops) -> (life <> Fresh -> c ∉ omap opened_by ops) -> lives c r life ->
  given_to c ops r = live_all (List.filter (concerns c) ops) life.
Proof.
  revert r life. induction ops as [|op ops IH]; intros r life Hr Hnd Hf Hl; [done|].
  assert (Hnd' : NoDup (omap opened_by ops) /\ (opened_by op = Some c -> c ∉ omap opened_by ops)).
  { cbn [omap list_omap] in Hnd. destruct (opened_by op) as [c'|]; [|done]. apply NoDup_cons in Hnd as [Hn Hnd].
    split; [done|]. by intros [= ->]. }
  destruct Hnd' as [Hnd' Hnew].
  assert (Hf' : life <> Fresh -> (c ∉ omap opened_by ops) /\ opened_by op <> Some c).
  { intros H. specialize (Hf H). cbn [omap list_omap] in Hf. destruct (opened_by op) as [c'|]; [|done].
    apply not_elem_of_cons in Hf as [H1 H2]. split; [done|congruence]. }
  pose proof (apply_op_ok op r Hr) as Hr'. cbn [given_to List.filter]. destruct (concerns c op) eqn:Ec.
  - assert (Hop : opened_by op = Some c -> life = Fresh).
    { intros E. destruct life; [done|..]; by destruct Hf' as [_ []]. }
    destruct (lives_own c op r life Hr Ec Hop Hl) as [Hl' Hout].
    assert (Hstay : opened_by op <> Some c -> life = Fresh -> (live op life).1 = Fresh).
    { intros H1 ->. by apply (stays_fresh c). }
    cbn [live_all]. destruct (apply_op op r) as [r' out], (live op life) as [life' out']. cbn in *. subst out'. f_equal.
    apply IH; [done..| |done]. intros Hn. destruct (decide (opened_by op = Some c)) as [E|E]; [by apply Hnew|].
    destruct life as [|s|s|]; [by destruct Hn; apply Hstay|by apply Hf'..].
  - destruct (apply_op op r) as [r' out] eqn:Eo. apply IH; [done..| |].
    + intros H. by apply Hf'.
    + pose proof (lives_other c op r life Hr Ec Hl) as H. by rewrite Eo in H.
Qed.

(** C22 Each session has a record of its own.  Connections open once each; then all that the
    registry gives out for a connection, the records to write and the summary of the closed
    session, is what the session's own life gives: it depends on the events of that
    connection alone, whatever the others do and however they interleave. *)
Theorem sessions_do_not_mix ops c :
  NoDup (omap opened_by ops) ->
  given_to c ops empty_registry = live_all (List.filter (concerns c) ops) Fresh.
Proof.
  intros Hn. apply given_lives; [apply empty_registry_ok|done|done|]. split; [apply lookup_empty|].
  intros k s. cbn. by rewrite lookup_empty.
Qed.

(** ** The report of a written log *)

(** A record that the report shows as verified. *)
Definition shown_ok (q : Value) : Value := set_integrity "ok" q.

(** The record is of the range of the report. *)
Definition in_report (from_ms to_ms : Z) (q : Value) : bool :=
  match time_text q ≫= rfc3339_millis with Some at_ms => in_range from_ms to_ms at_ms | None => false end.

(** The record that stands for a session: the last closed one, or else the last. *)
Definition final_record (from_ms to_ms : Z) (k : rstr) (qs : list Value) : option Value :=
  let mine := List.filter (fun q => in_report from_ms to_ms q && bool_decide (record_key q = Some k)) qs in
  match last (List.filter is_closed mine) with Some q => Some q | None => last mine end.

(** The records of no session. *)
Definition other_records (from_ms to_ms : Z) (qs : list Value) : list Value :=
  List.filter (fun q => in_report from_ms to_ms q && bool_decide (record_key q = None)) qs.

Lemma get_shown k m : k <> Str.lit "integrity" -> get k (shown_ok (VObj m)) = get k (VObj m).
Proof.
  intros Hk. change (get k (shown_ok (VObj m))) with (BTree.get k (BTree.insert (Str.lit "integrity") (VStr (Str.lit "ok")) m)).
  by rewrite BTree.get_insert_ne.
Qed.

Lemma shown_same m :
  record_key (shown_ok (VObj m)) = record_key (VObj m) /\ time_text (shown_ok (VObj m)) = time_text (VObj m)
  /\ is_closed (shown_ok (VObj m)) = is_closed (VObj m).
Proof. unfold record_key, time_text, is_closed. by rewrite !get_shown. Qed.

Lemma last_filter_snoc {A} (f : A -> bool) l x :
  last (List.filter f (l ++ [x])) = if f x then Some x else last (List.filter f l).
Proof. rewrite List.filter_app. cbn. destruct (f x); [apply last_snoc|by rewrite app_nil_r]. Qed.

Lemma final_snoc a b k qs q :
  final_record a b k (qs ++ [q]) =
  if in_report a b q && bool_decide (record_key q = Some k)
  then if negb (match final_record a b k qs with Some old => is_closed old | None => false end) || is_closed q
       then Some q else final_record a b k qs
  else final_record a b k qs.
Proof.
  unfold final_record. rewrite List.filter_app. cbn [List.filter].
  destruct (in_report a b q && bool_decide (record_key q = Some k)); [|by rewrite app_nil_r].
  set (mine := List.filter _ qs). rewrite last_filter_snoc, last_snoc.
  destruct (is_closed q) eqn:Eq; [by rewrite orb_true_r|]. rewrite orb_false_r.
  destruct (last (List.filter is_closed mine)) as [x|] eqn:E.
  - apply last_Some_elem_of, list_elem_of_In, List.filter_In in E as [_ ->]. done.
  - destruct (last mine) as [x|] eqn:Em; [|done]. destruct (is_closed x) eqn:Ex; [|done].
    apply last_Some in Em as [l' Em]. rewrite Em, List.filter_app in E. cbn in E. rewrite Ex, last_snoc in E. done.
Qed.

(** The report after the verified records [qs], without their links. *)
Record reported (a b : Z) (qs : list Value) (last : option ChainLink) (p : Report) : Prop := {
  rp_verifier : r_verifier p = mkChainVerifier last false;
  rp_broken : r_broken p = ∅;
  rp_records : r_records p = shown_ok <$> other_records a b qs;
  rp_sessions : forall k, r_sessions p !! k = shown_ok <$> final_record a b k qs }.

Lemma final_object a b k qs q : Forall (fun q => exists m, q = VObj m) qs -> final_record a b k qs = Some q -> exists m, q = VObj m.
Proof.
  intros Hq. unfold final_record. set (mine := List.filter _ qs).
  assert (Hm : forall x, x ∈ mine -> exists m, x = VObj m).
  { intros x Hx%list_elem_of_In. apply List.filter_In in Hx as [Hx%list_elem_of_In _]. rewrite Forall_forall in Hq. by apply Hq. }
  destruct (last (List.filter is_closed mine)) as [x|] eqn:E.
  - intros [= <-]. apply last_Some_elem_of, list_elem_of_In, List.filter_In in E as [E%list_elem_of_In _]. by apply Hm.
  - intros E'%last_Some_elem_of. by apply Hm.
Qed.

#[local] Arguments strip : simpl never.
#[local] Arguments set_integrity : simpl never.
#[local] Arguments shown_ok : simpl never.
#[local] Arguments time_text : simpl never.
#[local] Arguments record_key : simpl never.
#[local] Arguments is_closed : simpl never.
#[local] Arguments in_range : simpl never.
#[local] Arguments in_report : simpl never.
#[local] Arguments other_records : simpl never.
#[local] Arguments final_record : simpl never.

Lemma report_line_ok a b qs last p v l :
  Forall (fun q => exists m, q = VObj m) qs -> (exists m, strip v = VObj m) ->
  reported a b qs last p -> linked_to last v l -> reported a b (qs ++ [strip v]) (Some l) (report_line a b p (Some v)).
Proof.
  intros Hq [m Em] [Hv Hb Hr Hs] Hl. destruct p as [ps pb pr pv]. cbn in Hv, Hb, Hr, Hs. subst pv pb.
  unfold report_line. cbn [r_verifier]. rewrite (check_linked _ _ _ Hl). rewrite Em.
  fold (shown_ok (VObj m)). destruct (shown_same m) as (Ek & Et & Ec). rewrite Ek, Et, Ec. cbn.
  set (q := VObj m) in *.
  assert (Hin : in_report a b q = match time_text q ≫= rfc3339_millis with Some t => in_range a b t | None => false end) by done.
  assert (Hother : other_records a b (qs ++ [q]) = other_records a b qs ++
            (if in_report a b q && bool_decide (record_key q = None) then [q] else [])).
  { unfold other_records. rewrite List.filter_app. cbn [List.filter]. done. }
  assert (Hskip : in_report a b q = false -> reported a b (qs ++ [q]) (Some l) (mkReport ps ∅ pr (mkChainVerifier (Some l) false))).
  { intros E. split; cbn; [done|done| |].
    - by rewrite Hother, E, app_nil_r.
    - intros k. by rewrite final_snoc, E. }
  destruct (time_text q ≫= rfc3339_millis) as [t|]; [|by apply Hskip].
  destruct (in_range a b t) eqn:Er; [|by apply Hskip]. clear Hskip.
  destruct (record_key q) as [k|] eqn:Ekey.
  - assert (Hold : match ps !! k with Some old => is_closed old | None => false end
                   = match final_record a b k qs with Some old => is_closed old | None => false end).
    { rewrite Hs. destruct (final_record a b k qs) as [x|] eqn:Ef; [|done]. cbn.
      destruct (final_object _ _ _ _ _ Hq Ef) as [mx ->]. apply shown_same. }
    rewrite Hold. split.
    + by destruct (negb _ || _).
    + by destruct (negb _ || _).
    + rewrite Hother, Hin, app_nil_r. by destruct (negb _ || _).
    + intros k'. rewrite final_snoc, Hin, Ekey. cbn [andb]. destruct (decide (k' = k)) as [->|Hne].
      * rewrite bool_decide_eq_true_2 by done. destruct (negb _ || _); cbn; [by rewrite lookup_insert_eq|apply Hs].
      * rewrite bool_decide_eq_false_2 by congruence. destruct (negb _ || _); cbn; [by rewrite lookup_insert_ne|apply Hs].
  - split; cbn; [done|done| |].
    + rewrite Hother, Hin, fmap_app, Hr. done.
    + intros k. rewrite final_snoc, Ekey, bool_decide_eq_false_2, andb_false_r by done. apply Hs.
Qed.

Lemma strip_object v l prev : link_of v = Some (l, prev) -> exists m, strip v = VObj m.
Proof. intros (m & -> & _)%link_of_Some. by eexists. Qed.

Lemma report_lines_ok a b vs qs last p final :
  Forall (fun q => exists m, q = VObj m) qs -> chained last vs final -> reported a b qs last p ->
  reported a b (qs ++ (strip <$> vs)) final (foldl (report_line a b) p (Some <$> vs)).
Proof.
  revert qs last p. induction vs as [|v vs IH]; intros qs last p Hq.
  - cbn. intros -> H. by rewrite app_nil_r.
  - intros (l & Hl & Hc) Hp. cbn [fmap list_fmap foldl]. rewrite (cons_middle (strip v)), app_assoc.
    assert (Hm : exists m, strip v = VObj m) by (destruct Hl as (prev & Hl & _); by apply (strip_object v l prev)).
    apply (IH _ (Some l)); [by apply Forall_app; split; [|constructor]|done|]. by apply (report_line_ok _ _ _ last).
Qed.

Lemma insert_sorted_perm v l : insert_sorted v l ≡ₚ v :: l.
Proof.
  induction l as [|w l IH]; [done|]. cbn. destruct (later_or_same v w); [done|]. rewrite IH. apply perm_swap.
Qed.

Lemma sort_records_perm l : sort_records l ≡ₚ l.
Proof. induction l as [|v l IH]; [done|]. cbn. by rewrite insert_sorted_perm, IH. Qed.

(** The report of a log that verifies: its records of no session, and for each session the
    last closed record or else the last, all of them [ok]. *)
Theorem report_of_a_written_log evs nm t a b :
  Forall event_ok evs -> steady nm t evs ->
  let d := dir (run evs (new_log [])) in
  exists k, let qs := drop k (journal evs (new_log []) []) in
  forall x, x ∈ report a b d <->
    (exists q, q ∈ other_records a b qs /\ x = shown_ok q) \/ (exists key q, final_record a b key qs = Some q /\ x = shown_ok q).
Proof.
  intros He Hs d. destruct (steady_kept _ _ _ _ _ He Hs (new_log_kept nm t)) as (nm' & t' & [_ (vs & k & final & Hst & Hp & Hc & _)]).
  fold d in Hst. destruct Hst as [_ (vss & Hh & Evs) _ _ _]. exists k. intros qs x. unfold qs. rewrite <- Hp.
  unfold report. rewrite (opened_holds _ _ Hh), Evs.
  assert (H0 : reported a b [] None (mkReport ∅ ∅ [] new_verifier)) by (split; [done..|intros k'; apply lookup_empty]).
  destruct (report_lines_ok a b vs [] None _ final ltac:(constructor) Hc H0) as [_ Hb Hr Hss].
  cbn [app] in Hr, Hss. set (p := foldl _ _ _) in *. rewrite sort_records_perm, elem_of_app, Hr, list_elem_of_fmap.
  assert (Hm : forall y, y ∈ ((fun kr => if bool_decide (kr.1 ∈ r_broken p) then set_integrity "broken" kr.2 else kr.2)
                 <$> map_to_list (r_sessions p)) <-> exists k, r_sessions p !! k = Some y).
  { intros y. rewrite list_elem_of_fmap. split.
    - intros ([k' r] & -> & Hin). cbn. rewrite Hb, bool_decide_eq_false_2 by set_solver. exists k'. by apply elem_of_map_to_list.
    - intros [k' Hk']. exists (k', y). cbn. rewrite Hb, bool_decide_eq_false_2 by set_solver. split; [done|].
      by apply elem_of_map_to_list. }
  rewrite Hm. split.
  - intros [(q & -> & Hq)|[k' Hk']]; [left; by exists q|right].
    rewrite Hss in Hk'. apply fmap_Some in Hk' as (q & Hq & ->). by exists k', q.
  - intros [(q & Hq & ->)|(k' & q & Hq & ->)]; [left; by exists q|right]. exists k'. by rewrite Hss, Hq.
Qed.
End SessionLog.

(** ** Samples *)

Module LogToy.
Import ToyJson.

(** The seal gives the length of its text first, and opens only a whole one. *)
#[local] Instance toy_seal : Sealing := {|
  encrypt_str_or_original_scoped := fun plain _ =>
    0 :: Z.of_nat (length plain) + 200 :: ((fun c => if c <? 0 then c else c + 200) <$> plain);
  decrypt_str_or_original_scoped := fun line =>
    match line with
    | 0 :: n :: l =>
        if n =? Z.of_nat (length l) + 200 then ((fun c => if c <? 0 then c else c - 200) <$> l, true) else (line, false)
    | _ => (line, false)
    end |}.

#[local] Instance toy_seal_laws : SealLaws.
Proof.
  split. intros plain n. cbv zeta. intros _ _. cbn [encrypt_str_or_original_scoped decrypt_str_or_original_scoped toy_seal].
  rewrite length_fmap, Z.eqb_refl. split_and!; [|repeat constructor; try lia|done].
  - f_equal. rewrite <- list_fmap_compose. rewrite <- (list_fmap_id plain) at 2. apply list_fmap_ext.
    intros i c _. cbn. destruct (Z.ltb_spec c 0) as [Hc|Hc];
      [by rewrite (proj2 (Z.ltb_lt _ _))|rewrite (proj2 (Z.ltb_ge _ _)) by lia; lia].
  - apply List.Forall_forall. intros x (c & <- & _)%List.in_map_iff. destruct (Z.ltb_spec c 0); lia.
Qed.

(** The digest is a sum; times are numbers. *)
#[local] Instance toy_hash : LogHash := {|
  sha256_hex := fun t => [foldl (fun a c => (a * 1000003 + c) mod (2 ^ 61 - 1)) 7 t];
  rfc3339_millis := fun t => head t |}.

Definition obj (l : list (string * Value)) : Value := VObj (BTree.of_list ((fun kv => (Str.lit kv.1, kv.2)) <$> l)).
Definition now_at (n : Z) : Now := mkNow n [n].
Definition io_at (m n : Z) (o : Outcome) : WriteIo := mkWriteIo [50 + m] n o.
Definition days : rstr := Str.lit "30".

Definition opens (c : Z) : Value := obj [("action", VStr (Str.lit "new")); ("conn_id", VInt c); ("ip", VStr [9])].
Definition closes (c : Z) : Value :=
  obj [("action", VStr (Str.lit "close")); ("conn_id", VInt c); ("duration_secs", VInt 42)].
Definition rejected (c : Z) : Value := obj [("conn_id", VInt c); ("typ", VInt 12)].
Definition write (m n : Z) : Event := WriterStep days (io_at m n Written_all) none_stuck.

(** A session that opens and closes across a restart and a month, and a rejected login. *)
Definition sample_run : list Event :=
  [Audit days (now_at 5) (Str.lit "conn") (opens 7); write 1 6;
   Audit days (now_at 8) (Str.lit "conn") (closes 7); write 1 9; Restart;
   Audit days (now_at 20) (Str.lit "alarm") (rejected 8); write 2 21].

Lemma sample_ok : Forall event_ok sample_run /\ steady [] 0 sample_run.
Proof.
  split; [|cbn [steady sample_run write]; split_and!; try done; (by left) || (right; by vm_compute)].
  assert (H : forall opt now kind v, validb v = true -> exact v -> get (Str.lit "info") v = None ->
    event_ok (Audit opt now kind v)).
  { intros opt now kind v H1 H2 H3. split_and!; [by apply validb_iff|done|]. by rewrite H3. }
  repeat (apply Forall_cons_2 || apply Forall_nil_2); try exact I; (apply H; by vm_compute).
Qed.

Abbreviation sample_host := (dir (run sample_run (new_log []))).

(** Three records are written and all verify. *)
Lemma written_log_verifies_witness :
  length (opened_lines sample_host) = 3%nat /\ length (journal sample_run (new_log []) []) = 3%nat
  /\ exists vs k, opened_lines sample_host = Some <$> vs /\ strip <$> vs = drop k (journal sample_run (new_log []) [])
     /\ verdicts (opened_lines sample_host) new_verifier = replicate (length vs) (Some true).
Proof.
  split; [by vm_compute|]. split; [by vm_compute|].
  apply (written_log_verifies sample_run [] 0 (proj1 sample_ok) (proj2 sample_ok)).
Defined.

(** The folder after the first month's file was taken away by hand. *)
Definition without_first : Dir := tail sample_host.
Definition last_of (d : Dir) : Value := default VNull (last (linked_lines (opened_lines d))).

Lemma snoc_last {A} (d : A) l : length l <> 0%nat -> l = removelast l ++ [default d (last l)].
Proof.
  intros Hl. destruct l as [|x l _] using rev_ind; [done|]. by rewrite last_snoc, removelast_last.
Qed.

Lemma without_first_some : length (linked_lines (opened_lines without_first)) <> 0%nat.
Proof. vm_compute. discriminate. Qed.

Lemma sample_host_some : length (linked_lines (opened_lines sample_host)) <> 0%nat.
Proof. vm_compute. discriminate. Qed.

Lemma no_collision : collision_free (linked_lines (opened_lines without_first)) (linked_lines (opened_lines sample_host)).
Proof.
  intros v w Hv Hw.
  assert (H : forallb (fun v => forallb (fun w =>
    negb (bool_decide (sha256_hex (hashed_text v) = sha256_hex (hashed_text w))) || bool_decide (hashed_text v = hashed_text w))
    (linked_lines (opened_lines sample_host))) (linked_lines (opened_lines without_first)) = true) by (vm_compute; reflexivity).
  rewrite List.forallb_forall in H. apply list_elem_of_In in Hv, Hw. specialize (H v Hv).
  rewrite List.forallb_forall in H. specialize (H w Hw). intros E. rewrite bool_decide_eq_true_2 in H by done.
  by apply bool_decide_eq_true in H.
Qed.

Lemma tampering_shows_witness :
  let vs := removelast (linked_lines (opened_lines without_first)) in
  let ws := removelast (linked_lines (opened_lines sample_host)) in
  (length ws = 2%nat /\ length vs = 0%nat)
  /\ ((vs ++ [last_of without_first]) `suffix_of` (ws ++ [last_of sample_host])
      \/ (ws ++ [last_of sample_host]) `suffix_of` (vs ++ [last_of without_first])).
Proof.
  cbv zeta. split; [split; by vm_compute|].
  apply (tampering_shows sample_run [] 0 without_first _ _ [] _ _ [] (proj1 sample_ok) (proj2 sample_ok)).
  - assert (verdicts (opened_lines without_first) new_verifier = [Some true]) as -> by (vm_compute; reflexivity).
    by intros [?|[]%elem_of_nil]%elem_of_cons.
  - unfold last_of. apply (snoc_last VNull (linked_lines (opened_lines without_first))). exact without_first_some.
  - unfold last_of. apply (snoc_last VNull (linked_lines (opened_lines sample_host))). exact sample_host_some.
  - vm_compute. reflexivity.
  - exact no_collision.
Defined.

(** Two connections interleaved. *)
Definition sample_ops : list RegOp :=
  [RConnection [1] (opens 7); RConnection [2] (opens 8); RMark 7 (Str.lit "clipboard"); RMark 8 (Str.lit "audio");
   RScan (Str.lit "clanto_file_clean") (obj [("conn_id", VInt 7); ("name", VStr (Str.lit "in/a.txt")); ("size", VInt 3)]);
   RConnection [3] (closes 8); RCompleted 8; RConnection [4] (closes 7); RCompleted 7].

Lemma sessions_do_not_mix_witness :
  length (List.filter (concerns 7) sample_ops) = 5%nat
  /\ given_to 7 sample_ops empty_registry = live_all (List.filter (concerns 7) sample_ops) Fresh.
Proof. split; [by vm_compute|]. apply (sessions_do_not_mix sample_ops 7). decide_now. Defined.

(** ** What the chain does not show *)

(** The comment of the chain says that a removed line breaks it; the last lines can go. *)
Example last_lines_can_go :
  let cut := removelast sample_host in
  length (opened_lines cut) = 2%nat /\ verdicts (opened_lines cut) new_verifier = [Some true; Some true].
Proof. split; by vm_compute. Qed.

(** A line of plain text is believed like a sealed one: a log that was made up without the
    machine key verifies. *)
Definition made_up : Value := obj [("record_type", VStr (Str.lit "session")); ("session_key", VStr (Str.lit "1:x"))].
Definition forged : Dir :=
  match chain_value made_up None with
  | Some (v, _) => [(file_name [51], mkFile (Some (to_string v ++ [10])) 0)]
  | None => []
  end.

Example forged_without_the_key :
  strip <$> omap Datatypes.id (opened_lines forged) = [made_up]
  /\ verdicts (opened_lines forged) new_verifier = [Some true].
Proof. split; by vm_compute. Qed.

(** A line that carries no link breaks nothing wherever it is, and the report leaves it the
    [integrity] it came with. *)
Definition inserted : Dir :=
  BTree.insert (file_name [57])
    (mkFile (Some (to_string (set_integrity "ok" (obj [("occurred_at", VStr [5]); ("peer_id", VStr (Str.lit "x"))])) ++ [10])) 0)
    sample_host.

Example unlinked_line_shows_ok :
  verdicts (opened_lines inserted) new_verifier = [Some true; Some true; Some true; None]
  /\ (get (Str.lit "integrity") <$> report 0 0 inserted) = replicate 3 (Some (VStr (Str.lit "ok")))
  /\ (get (Str.lit "peer_id") <$> report 0 0 inserted) !! 1%nat = Some (Some (VStr (Str.lit "x"))).
Proof. split_and!; by vm_compute. Qed.

(** A write that is cut short loses the next record too, and breaks the one after. *)
Definition cut_run : list Event :=
  let say n := Audit days (now_at n) (Str.lit "alarm") (rejected n) in
  [say 1; write 1 1; say 2; WriterStep days (io_at 1 2 (Cut 2)) none_stuck; say 3; write 1 3; say 4; write 1 4].

Example cut_write_breaks :
  verdicts (opened_lines (dir (run cut_run (new_log [])))) new_verifier = [Some true; None; Some false].
Proof. by vm_compute. Qed.
End LogToy.
