(* ===== verification/AuditSink.v ===== *)
(** * The audit sinks: [src/clanto/audit_sink.rs]

    Each audit event of the host goes to the session log, to the event log of the system
    and, through a bounded queue and one worker, to a syslog collector, as RFC 5424 or CEF,
    over UDP, TCP or TLS.  The worker sends with the queue unlocked, so an attempt is two
    steps, [Take] and [Attempt], with the pushes of other tasks in between.  Options, the
    clock, the names of the machine and what becomes of each connection and write are
    arguments; JSON texts and the TLS library are third-party. *)

From coqutil Require Import Datatypes.RecordSetters.
From S2P Require Import Prelude NetAddr Json SessionLog.
Import Json TriangleBracketNotations.

#[local] Arguments constant {E} newValue _ /.

Definition DEFAULT_PORT : Z := 514.
Definition DEFAULT_TLS_PORT : Z := 6514.
Definition DEFAULT_FACILITY : Z := 16.
Definition QUEUE_CAPACITY : Z := 1000.
Definition MAX_BACKOFF : Z := 60.
Definition EVENT_SOURCE : rstr := Str.lit "ClantoDesk".

(** ** The events *)

Inductive EventKey :=
| ConnectionOpened | SessionOpened | ConnectionClosed | SessionCompleted
| ControllerIdentityReceived | FileRemoteSend | FileRemoteReceive | AlarmIpWhitelist
| AlarmExceedThirtyAttempts | AlarmSixAttemptsWithinOneMinute | AlarmExceedIpv6PrefixAttempts
| AlarmTerminalOsLoginBackoff | AlarmTerminalOsLoginConcurrency | AlarmSessionScopeViolation
| AlarmIdWhitelist | AlarmPostureRejected | AlarmPasswordWrong | AlarmTwoFactorWrong
| PosturePassed | PostureBypass | TemporaryPasswordRotated | FileMalwareDetected | FileUnscannable
| FileDirectionBlocked | FileExtensionBlocked | FileScannedClean | BinarySignatureInvalid
| ForwardOpened | ForwardDenied | ForwardListenOpened | ForwardListenDenied | ForwardCameraOpened
| ForwardCameraDenied | ForwardCameraClosed | Unknown.

#[export] Instance EventKey_eq_dec : EqDecision EventKey.
Proof. solve_decision. Defined.

Record EventDefinition := mkEvent {
  event_key : EventKey; event_id : Z; event_name : rstr; syslog_severity : Z; cef_severity : Z }.

#[export] Instance EventDefinition_eq_dec : EqDecision EventDefinition.
Proof. solve_decision. Defined.

Definition EVENTS : list EventDefinition :=
  [mkEvent ConnectionOpened 61100 (Str.lit "Connection opened") 6 3;
   mkEvent SessionOpened 61101 (Str.lit "Session opened") 6 3;
   mkEvent ConnectionClosed 61102 (Str.lit "Connection closed") 6 3;
   mkEvent SessionCompleted 61103 (Str.lit "Session completed") 6 3;
   mkEvent ControllerIdentityReceived 61104 (Str.lit "Controller identity received") 6 3;
   mkEvent FileRemoteSend 61110 (Str.lit "File sent to peer") 5 5;
   mkEvent FileRemoteReceive 61111 (Str.lit "File received from peer") 5 5;
   mkEvent AlarmIpWhitelist 61120 (Str.lit "IP whitelist rejected") 4 7;
   mkEvent AlarmExceedThirtyAttempts 61121 (Str.lit "Login attempt limit exceeded") 4 7;
   mkEvent AlarmSixAttemptsWithinOneMinute 61122 (Str.lit "Login rate limit exceeded") 4 7;
   mkEvent AlarmExceedIpv6PrefixAttempts 61123 (Str.lit "IPv6 prefix attempt limit exceeded") 4 7;
   mkEvent AlarmTerminalOsLoginBackoff 61124 (Str.lit "Terminal OS login backoff") 4 7;
   mkEvent AlarmTerminalOsLoginConcurrency 61125 (Str.lit "Terminal OS login concurrency rejected") 4 7;
   mkEvent AlarmSessionScopeViolation 61126 (Str.lit "Session scope violation") 4 7;
   mkEvent AlarmIdWhitelist 61127 (Str.lit "ID whitelist rejected") 4 7;
   mkEvent AlarmPostureRejected 61128 (Str.lit "Device posture rejected") 4 7;
   mkEvent AlarmPasswordWrong 61129 (Str.lit "Password authentication failed") 4 7;
   mkEvent AlarmTwoFactorWrong 61130 (Str.lit "Two-factor authentication failed") 4 7;
   mkEvent PosturePassed 61140 (Str.lit "Device posture passed") 6 3;
   mkEvent PostureBypass 61141 (Str.lit "Device posture bypassed") 5 5;
   mkEvent TemporaryPasswordRotated 61150 (Str.lit "Temporary password rotated") 5 5;
   mkEvent FileMalwareDetected 61160 (Str.lit "File malware detected") 4 7;
   mkEvent FileUnscannable 61161 (Str.lit "File could not be scanned") 4 7;
   mkEvent FileDirectionBlocked 61162 (Str.lit "File transfer direction blocked") 4 7;
   mkEvent FileExtensionBlocked 61163 (Str.lit "File extension blocked") 4 7;
   mkEvent FileScannedClean 61164 (Str.lit "File scanned clean") 6 3;
   mkEvent BinarySignatureInvalid 61180 (Str.lit "ClantoDesk binary tampered (not signed by Clanto)") 2 8;
   mkEvent ForwardOpened 61170 (Str.lit "Forwarding channel opened") 5 5;
   mkEvent ForwardDenied 61171 (Str.lit "Forwarding channel denied") 4 7;
   mkEvent ForwardListenOpened 61172 (Str.lit "Forwarding listener opened") 5 5;
   mkEvent ForwardListenDenied 61173 (Str.lit "Forwarding listener denied") 4 7;
   mkEvent ForwardCameraOpened 61174 (Str.lit "Controller camera opened") 5 5;
   mkEvent ForwardCameraDenied 61175 (Str.lit "Controller camera denied") 4 7;
   mkEvent ForwardCameraClosed 61176 (Str.lit "Controller camera closed") 6 3;
   mkEvent Unknown 61999 (Str.lit "Unknown audit event") 5 5].

Definition field_is (value : Value) (field text : string) : bool :=
  bool_decide (get (Str.lit field) value ≫= as_str = Some (Str.lit text)).
Definition kind_is (kind : rstr) (s : string) : bool := bool_decide (kind = Str.lit s).

Definition conn_key (value : Value) : EventKey :=
  if field_is value "action" "new" then ConnectionOpened
  else if field_is value "action" "close" then ConnectionClosed
  else if field_is value "action" "controller_identity" then ControllerIdentityReceived
  else if field_is value "type" "clanto_posture" then PosturePassed
  else if field_is value "type" "clanto_posture_bypass" then PostureBypass
  else if bool_decide (is_Some (get (Str.lit "peer") value)) then SessionOpened
  else Unknown.

Definition alarm_key (value : Value) : EventKey :=
  match get (Str.lit "typ") value ≫= as_i64 with
  | Some 0 => AlarmIpWhitelist | Some 1 => AlarmExceedThirtyAttempts | Some 2 => AlarmSixAttemptsWithinOneMinute
  | Some 6 => AlarmExceedIpv6PrefixAttempts | Some 7 => AlarmTerminalOsLoginBackoff
  | Some 8 => AlarmTerminalOsLoginConcurrency | Some 9 => AlarmSessionScopeViolation
  | Some 10 => AlarmIdWhitelist | Some 11 => AlarmPostureRejected | Some 12 => AlarmPasswordWrong
  | Some 13 => AlarmTwoFactorWrong | _ => Unknown
  end.

(** The kinds that have one event each. *)
Definition KIND_KEYS : list (string * EventKey) :=
  [("session", SessionCompleted); ("temp_password_rotation", TemporaryPasswordRotated);
   ("clanto_file_malware", FileMalwareDetected); ("clanto_file_unscannable", FileUnscannable);
   ("clanto_file_direction_blocked", FileDirectionBlocked); ("clanto_file_extension_blocked", FileExtensionBlocked);
   ("clanto_file_clean", FileScannedClean); ("clanto_binary_signature", BinarySignatureInvalid);
   ("clanto_forward_opened", ForwardOpened); ("clanto_forward_denied", ForwardDenied);
   ("clanto_forward_listen", ForwardListenOpened); ("clanto_forward_listen_denied", ForwardListenDenied);
   ("clanto_forward_camera_opened", ForwardCameraOpened); ("clanto_forward_camera_denied", ForwardCameraDenied);
   ("clanto_forward_camera_closed", ForwardCameraClosed)]%string.

Definition key_of_event (kind : rstr) (value : Value) : EventKey :=
  if kind_is kind "conn" then conn_key value
  else if kind_is kind "file"
  then match get (Str.lit "type") value ≫= as_i64 with
       | Some 0 => FileRemoteSend | Some 1 => FileRemoteReceive | _ => Unknown
       end
  else if kind_is kind "alarm" then alarm_key value
  else match List.find (fun sk => kind_is kind sk.1) KIND_KEYS with Some (_, key) => key | None => Unknown end.

Definition unknown_event : EventDefinition := mkEvent Unknown 61999 (Str.lit "Unknown audit event") 5 5.

Definition event_definition (kind : rstr) (value : Value) : EventDefinition :=
  let key := key_of_event kind value in
  match List.find (fun d => bool_decide (event_key d = key)) EVENTS with
  | Some d => d
  | None => default unknown_event (last EVENTS)
  end.

(** ** The configuration *)

Inductive Protocol := Udp | Tcp | Tls.
Inductive OutputFormat := Rfc5424 | Cef.

#[export] Instance Protocol_eq_dec : EqDecision Protocol.
Proof. solve_decision. Defined.

Record DeliveryConfig := mkConfig {
  host : rstr; port : Z; protocol : Protocol; format : OutputFormat; facility : Z; tls_ca : rstr }.

(** [Config::get_option]. *)
Definition Options := string -> rstr.

Definition is_on (opts : Options) (key : string) : bool := bool_decide (opts key = Str.lit "Y").

Definition delivery_config (opts : Options) : DeliveryConfig :=
  let p := Str.to_ascii_lowercase (opts "clanto-syslog-protocol") in
  let protocol := if bool_decide (p = Str.lit "udp") then Udp
                  else if bool_decide (p = Str.lit "tcp") then Tcp else Tls in
  let default_port := if bool_decide (protocol = Tls) then DEFAULT_TLS_PORT else DEFAULT_PORT in
  mkConfig (opts "clanto-syslog-host")
    (default default_port (Str.parse_uint 16 (opts "clanto-syslog-port")))
    protocol
    (if Str.eq_ignore_ascii_case (opts "clanto-syslog-format") (Str.lit "cef") then Cef else Rfc5424)
    (match Str.parse_uint 8 (opts "clanto-syslog-facility") with
     | Some f => if f <=? 23 then f else DEFAULT_FACILITY
     | None => DEFAULT_FACILITY
     end)
    (opts "clanto-syslog-tls-ca").

Definition active_delivery_config (enabled : bool) (config : DeliveryConfig) : option DeliveryConfig :=
  if enabled && bool_decide (host config <> []) then Some config else None.

Definition current_config (opts : Options) : option DeliveryConfig :=
  active_delivery_config (is_on opts "clanto-syslog-enabled") (delivery_config opts).

(** ** The queue *)

Record PendingRecord := mkPending { sequence : Z; event : EventDefinition; value : Value }.

Record AuditQueue := mkQueue {
  records : list PendingRecord; capacity : Z; next_sequence : Z; lost : Z }.

Definition new_queue (capacity : Z) : AuditQueue := mkQueue [] (Z.max capacity 1) 0 0.

Definition push (event : EventDefinition) (value : Value) (q : AuditQueue) : AuditQueue :=
  let q := if Z.of_nat (length (records q)) =? capacity q
           then q <| records ::= fun r => tail r |> <| lost := Int.sat_addu 64 (lost q) 1 |> else q in
  q <| records := records q ++ [mkPending (next_sequence q) event value] |>
    <| next_sequence := Int.wrap 64 (next_sequence q + 1) |>.

Definition front (q : AuditQueue) : option (PendingRecord * Z) := (fun r => (r, lost q)) <$> head (records q).

Definition is_front (sequence_ : Z) (q : AuditQueue) : bool :=
  bool_decide (sequence <$> head (records q) = Some sequence_).

Definition finish (sequence_ reported_lost : Z) (delivered : bool) (q : AuditQueue) : AuditQueue :=
  let still_front := is_front sequence_ q in
  let q := if still_front then q <| records ::= fun r => tail r |> else q in
  if delivered
  then q <| lost ::= fun l => Int.sat_subu l (Int.sat_addu 64 reported_lost (if still_front then 0 else 1)) |>
  else q.

(** ** The messages *)

(** [str::replace] of a character. *)
Definition replace (c : Z) (by_ : rstr) (s : rstr) : rstr :=
  concat ((fun x => if x =? c then by_ else [x]) <$> s).

Definition escape_structured_data (s : rstr) : rstr :=
  replace 93 [92; 93] (replace 34 [92; 34] (replace 92 [92; 92] s)).

Definition escape_cef_header (s : rstr) : rstr := replace 124 [92; 124] (replace 92 [92; 92] s).

Definition escape_cef_extension (s : rstr) : rstr :=
  replace 10 [92; 110] (replace 13 [92; 114] (replace 61 [92; 61] (replace 92 [92; 92] s))).

Definition cef_extension_key (key : rstr) : rstr :=
  (fun c => if Str.is_ascii_alphanumeric c || (c =? 95) then c else 95) <$> key.

(** What the code reads of the machine for a message. *)
Record Machine := mkMachine { timestamp : rstr; hostname : rstr; pid : Z; pkg_version : rstr }.

Section AuditSink.
Context {JT : JsonText}.

Definition json_value_text (v : Value) : rstr := match as_str v with Some s => s | None => to_string v end.

(** [entry(key).or_insert_with(...)]. *)
Definition or_insert (key : string) (v : option Value) (m : list (rstr * rstr)) : list (rstr * rstr) :=
  match v with
  | Some v => match BTree.get (Str.lit key) m with
              | Some _ => m
              | None => BTree.insert (Str.lit key) (json_value_text v) m
              end
  | None => m
  end.

Definition cef_extensions (v : Value) : list (rstr * rstr) :=
  match as_object v with
  | None => []
  | Some object =>
      let m := foldl (fun m kv =>
                 let key := if bool_decide (kv.1 = Str.lit "ip") then Str.lit "src" else kv.1 in
                 BTree.insert (cef_extension_key key) (json_value_text kv.2) m) [] object in
      let m := or_insert "peer" (BTree.get (Str.lit "peer_id") object) m in
      match (BTree.get (Str.lit "info") object ≫= as_str) ≫= from_str with
      | Some (VObj info) =>
          or_insert "reason" (BTree.get (Str.lit "reason") info)
            (or_insert "peer" (BTree.get (Str.lit "id") info)
              (or_insert "src" (BTree.get (Str.lit "ip") info) m))
      | _ => m
      end
  end.

(** [join] of a list of texts. *)
Fixpoint join (sep : rstr) (l : list rstr) : rstr :=
  match l with
  | [] => []
  | [x] => x
  | x :: l => x ++ sep ++ join sep l
  end.

Definition format_cef (mc : Machine) (ev : EventDefinition) (v : Value) : rstr :=
  let extensions := join [32] ((fun kv => kv.1 ++ [61] ++ escape_cef_extension kv.2) <$> cef_extensions v) in
  Str.lit "CEF:0|" ++ escape_cef_header (Str.lit "Clanto Services") ++ [124] ++ escape_cef_header EVENT_SOURCE ++ [124]
  ++ escape_cef_header (pkg_version mc) ++ [124] ++ Str.show_nat (event_id ev) ++ [124]
  ++ escape_cef_header (event_name ev) ++ [124] ++ Str.show_nat (cef_severity ev) ++ [124] ++ extensions.

Definition format_rfc5424 (mc : Machine) (ev : EventDefinition) (v : Value) (facility lost : Z) : rstr :=
  let pri := Int.wrap 16 (facility * 8 + syslog_severity ev) in
  let hostname := if bool_decide (hostname mc = []) then Str.lit "-" else hostname mc in
  let quoted s := [34] ++ s ++ [34] in
  let structured_data :=
    Str.lit "[clanto@32473 eventId=" ++ quoted (Str.show_nat (event_id ev))
    ++ Str.lit " eventName=" ++ quoted (escape_structured_data (event_name ev))
    ++ Str.lit " severity=" ++ quoted (Str.show_nat (syslog_severity ev))
    ++ Str.lit " lostRecords=" ++ quoted (Str.show_nat lost) ++ Str.lit "]" in
  Str.lit "<" ++ Str.show_nat pri ++ Str.lit ">1 " ++ timestamp mc ++ [32] ++ hostname ++ [32] ++ EVENT_SOURCE ++ [32]
  ++ Str.show_nat (pid mc) ++ [32] ++ Str.show_nat (event_id ev) ++ [32] ++ structured_data ++ [32] ++ to_string v.

Definition value_with_lost (v : Value) (lost : Z) : Value :=
  if 0 <? lost
  then match v with VObj m => VObj (BTree.insert (Str.lit "lost_records") (VInt lost) m) | _ => v end
  else v.

Definition format_record (mc : Machine) (ev : EventDefinition) (v : Value) (config : DeliveryConfig) (lost : Z) : rstr :=
  let v := value_with_lost v lost in
  match format config with
  | Rfc5424 => format_rfc5424 mc ev v (facility config) lost
  | Cef => format_cef mc ev v
  end.
End AuditSink.

(** ** The wire *)

Definition octet_counting_frame (message : rstr) : list Z :=
  let bytes := Str.as_bytes message in
  Str.as_bytes (Str.show_nat (Z.of_nat (length bytes)) ++ [32]) ++ bytes.

Definition has_colon (s : rstr) : bool := existsb (Str.ch 58) s.

Definition target (config : DeliveryConfig) : rstr :=
  let port := Str.show_nat (port config) in
  if has_colon (host config) && negb (Str.starts_with (Str.lit "[") (host config))
  then Str.lit "[" ++ host config ++ Str.lit "]:" ++ port
  else host config ++ Str.lit ":" ++ port.

Definition tls_server_name (host : rstr) : rstr :=
  match host with
  | 91 :: rest =>
      match last rest with
      | Some 93 =>
          let unbracketed := removelast rest in
          match IpAddr_from_str unbracketed with Some _ => unbracketed | None => host end
      | _ => host
      end
  | _ => host
  end.

(** ** The worker *)

Class TlsStack := {
  (** At least one of the certificates of a PEM file can be parsed. *)
  pem_has_certificates : list Z -> bool;
  server_name_is_valid : rstr -> bool }.

Record TransportKey := mkKey { t_host : rstr; t_port : Z; t_protocol : Protocol; t_tls_ca : rstr }.

#[export] Instance TransportKey_eq_dec : EqDecision TransportKey.
Proof. solve_decision. Defined.

(** [TransportKey::from]. *)
Definition transport_key (c : DeliveryConfig) : TransportKey :=
  mkKey (host c) (port c) (protocol c) (tls_ca c).

(** A connection, with the number of its stream. *)
Record ActiveConnection := mkConnection { conn_key_of : TransportKey; stream : Z }.

Inductive DeliveryError := Permanent | Retryable.

(** What goes out: a datagram from an address, bytes on a stream. *)
Inductive Out :=
| Datagram (bind target_ : rstr) (message : list Z)
| Wrote (stream : Z) (key : TransportKey) (bytes_ : list Z).

(** The queue, the record being sent with the losses it reports, the connection, the
    seconds of the next wait, and how many streams there were. *)
Record Sink := mkSink {
  queue : AuditQueue; worker_started : bool; flight : option (PendingRecord * Z);
  connection : option ActiveConnection; backoff : Z; streams : Z }.

Definition new_sink : Sink := mkSink (new_queue QUEUE_CAPACITY) false None None 1 0.

(** What becomes of an attempt: the socket, the CA file, the connection, the bytes after
    which the write fails, and whether five seconds were not enough. *)
Record Io := mkIo {
  udp_ok : bool; ca_file : option (list Z); connected : bool; cut : option nat; timed_out : bool }.

Section Worker.
Context {JT : JsonText} {TS : TlsStack}.

Definition connect_tls (config : DeliveryConfig) (io : Io) : result unit DeliveryError :=
  if bool_decide (tls_ca config = []) then Err Permanent
  else match ca_file io with
       | None => Err Permanent
       | Some pem =>
           if negb (pem_has_certificates pem) then Err Permanent
           else if negb (server_name_is_valid (tls_server_name (host config))) then Err Permanent
           else if connected io then Ok tt else Err Retryable
       end.

Definition connect_stream (config : DeliveryConfig) (io : Io) : result unit DeliveryError :=
  if bool_decide (protocol config = Tls) then connect_tls config io
  else if connected io then Ok tt else Err Retryable.

Definition send_udp (config : DeliveryConfig) (message : rstr) (io : Io) : bool * list Out :=
  let bind := if has_colon (host config) then Str.lit "[::]:0" else Str.lit "0.0.0.0:0" in
  if udp_ok io then (true, [Datagram bind (target config) (Str.as_bytes message)]) else (false, []).

(** The outcome, the connection and the number of streams after it, and what was written. *)
Definition send_stream (config : DeliveryConfig) (message : rstr) (connection : option ActiveConnection)
    (streams : Z) (io : Io) : result unit DeliveryError * option ActiveConnection * Z * list Out :=
  let key := transport_key config in
  let connection := match connection with
                    | Some active => if bool_decide (conn_key_of active = key) then Some active else None
                    | None => None
                    end in
  let made := match connection with
              | Some active => Ok (active, streams)
              | None => match connect_stream config io with
                        | Ok _ => Ok (mkConnection key streams, streams + 1)
                        | Err e => Err e
                        end
              end in
  match made with
  | Err e => (Err e, None, streams, [])
  | Ok (active, streams) =>
      let frame := octet_counting_frame message in
      match cut io with
      | None => (Ok tt, Some active, streams, [Wrote (stream active) key frame])
      | Some n => (Err Retryable, Some active, streams, [Wrote (stream active) key (take n frame)])
      end
  end.

(** What an attempt comes to. *)
Inductive Verdict := Idle | Delivered (r : PendingRecord) (reported_lost : Z) | GivenUp (r : PendingRecord) | Retry.

Definition finished (r : PendingRecord) (lost : Z) (delivered : bool) (s : Sink) : Sink :=
  s <| queue ::= finish (sequence r) lost delivered |> <| backoff := 1 |>.

(** The connection is dropped; the record waits, unless it has left the queue. *)
Definition retry (r : PendingRecord) (s : Sink) : Sink :=
  s <| connection := None |>
    <| backoff := if is_front (sequence r) (queue s) then Z.min (backoff s * 2) MAX_BACKOFF else 1 |>.

(** A round of [worker], from the record taken. *)
Definition attempt (opts : Options) (mc : Machine) (io : Io) (s : Sink) : Sink * Verdict * list Out :=
  match flight s with
  | None => (s, Idle, [])
  | Some (r, lost) =>
      let s := s <| flight := None |> in
      match current_config opts with
      | None => (finished r lost false s <| connection := None |>, GivenUp r, [])
      | Some config =>
          let message := format_record mc (event r) (value r) config lost in
          if bool_decide (protocol config = Udp)
          then
            let '(ok, out) := send_udp config message io in
            let sent := ok && negb (timed_out io) in
            (finished r lost sent s <| connection := None |>, if sent then Delivered r lost else GivenUp r, out)
          else
            let '(result, conn, n, out) := send_stream config message (connection s) (streams s) io in
            let s := s <| connection := conn |> <| streams := n |> in
            if timed_out io then (retry r s, Retry, out)
            else match result with
                 | Ok _ => (finished r lost true s, Delivered r lost, out)
                 | Err Permanent => (finished r lost false s <| connection := None |>, GivenUp r, out)
                 | Err Retryable => (retry r s, Retry, out)
                 end
      end
  end.

(** [next_record]. *)
Definition take_record (s : Sink) : Sink :=
  if worker_started s
  then match flight s with None => s <| flight := front (queue s) |> | Some _ => s end
  else s.

(** [runtime]: the caller runs within a Tokio runtime. *)
Definition start_worker (runtime : bool) (s : Sink) : Sink :=
  if worker_started s then s else if runtime then s <| worker_started := true |> else s.

Definition enqueue (opts : Options) (runtime : bool) (kind : rstr) (v : Value) (s : Sink) : Sink :=
  match current_config opts with
  | None => s
  | Some _ => start_worker runtime (s <| queue ::= push (event_definition kind v) v |>)
  end.

(** [emit]; the event log of the system is that of Windows. *)
Definition emit (opts : Options) (now : Now) (runtime : bool) (kind : rstr) (v : Value) (ls : Log * Sink) : Log * Sink :=
  (on_audit (opts "clanto-session-log-days") now kind v ls.1, enqueue opts runtime kind v ls.2).

(** The record of a connection, and at its end the summary of its session
    ([post_conn_audit] of [connection.rs]). *)
Definition emit_conn (opts : Options) (now : Now) (runtime : bool) (conn : Z) (v : Value) (ls : Log * Sink) : Log * Sink :=
  let ls := emit opts now runtime (Str.lit "conn") v ls in
  if field_is v "action" "close"
  then
    let '(session, r) := completed_session conn (registry ls.1) in
    let ls := (ls.1 <| registry := r |>, ls.2) in
    match session with
    | Some session => emit opts now runtime (Str.lit "session") session ls
    | None => ls
    end
  else ls.

(** ** Runs of the queue and its worker *)

Inductive Event :=
| Enqueue (opts : Options) (runtime : bool) (kind : rstr) (v : Value)
| Take
| Attempt (opts : Options) (mc : Machine) (io : Io).

Definition step (ev : Event) (s : Sink) : Sink * Verdict * list Out :=
  match ev with
  | Enqueue opts runtime kind v => (enqueue opts runtime kind v s, Idle, [])
  | Take => (take_record s, Idle, [])
  | Attempt opts mc io => attempt opts mc io s
  end.

Definition run (evs : list Event) (s : Sink) : Sink := foldl (fun s ev => (step ev s).1.1) s evs.

(** * Theorems *)

(** ** Every record is accounted for *)

(** The record that an event puts into the queue. *)
Definition pushed_by (ev : Event) (s : Sink) : list PendingRecord :=
  match ev with
  | Enqueue opts _ kind v =>
      match current_config opts with
      | Some _ => [mkPending (next_sequence (queue s)) (event_definition kind v) v]
      | None => []
      end
  | _ => []
  end.

(** What an attempt delivers, with the losses it reports. *)
Definition delivered_by (ev : Event) (s : Sink) : list (PendingRecord * Z) :=
  match (step ev s).1.2 with Delivered r n => [(r, n)] | _ => [] end.

(** A record that is given up while it is in the queue. *)
Definition given_up_by (ev : Event) (s : Sink) : list PendingRecord :=
  match (step ev s).1.2 with
  | GivenUp r => if is_front (sequence r) (queue s) then [r] else []
  | _ => []
  end.

Fixpoint collect {A} (f : Event -> Sink -> list A) (evs : list Event) (s : Sink) : list A :=
  match evs with [] => [] | ev :: evs => f ev s ++ collect f evs (step ev s).1.1 end.

Definition reported (d : list (PendingRecord * Z)) : Z := foldr (fun d n => d.2 + n) 0 d.

(** Where the record being sent is: the first of the queue, or dropped since. *)
Definition placed (p : list PendingRecord) (d : list PendingRecord) (s : Sink) : Prop :=
  match flight s with
  | None => exists a, p = a ++ records (queue s) /\ d `sublist_of` a
  | Some (r, l) => exists a b, p = a ++ r :: b /\ d `sublist_of` a /\ 0 <= l <= lost (queue s)
      /\ (records (queue s) = r :: b \/ (exists b0, b = b0 ++ records (queue s)) /\ l + 1 <= lost (queue s))
  end.

Record accounted (p : list PendingRecord) (d : list (PendingRecord * Z)) (g : list PendingRecord) (s : Sink) : Prop := {
  ac_bound : Z.of_nat (length p) < 2 ^ 64;
  ac_seq : sequence <$> p = seqZ 0 (Z.of_nat (length p));
  ac_next : next_sequence (queue s) = Z.of_nat (length p);
  ac_capacity : capacity (queue s) = QUEUE_CAPACITY;
  ac_room : Z.of_nat (length (records (queue s))) <= QUEUE_CAPACITY;
  ac_lost : 0 <= lost (queue s);
  ac_reported : 0 <= reported d;
  ac_count : Z.of_nat (length p) = Z.of_nat (length (records (queue s))) + Z.of_nat (length d) + Z.of_nat (length g)
                                   + lost (queue s) + reported d;
  ac_placed : placed p d.*1 s }.

Lemma reported_snoc d r l : reported (d ++ [(r, l)]) = reported d + l.
Proof. unfold reported. induction d as [|x d IH]; cbn in *; lia. Qed.

Lemma seqs_snoc (p : list PendingRecord) x :
  sequence <$> p = seqZ 0 (Z.of_nat (length p)) -> sequence x = Z.of_nat (length p) ->
  sequence <$> (p ++ [x]) = seqZ 0 (Z.of_nat (length (p ++ [x]))).
Proof.
  intros Hp Hx. rewrite fmap_app, length_app, Hp. cbn. rewrite Hx, Nat2Z.inj_add, seqZ_app by lia. cbn. by rewrite Z.add_0_l.
Qed.

(** The numbers tell the records apart. *)
Lemma seqs_ne a r b x c :
  sequence <$> (a ++ r :: b) = seqZ 0 (Z.of_nat (length (a ++ r :: b))) -> b = c ++ x -> is_front (sequence r) (mkQueue x 0 0 0) = false.
Proof.
  intros Hs ->. unfold is_front. cbn. destruct x as [|y x]; [done|]. cbn. apply bool_decide_eq_false. intros [= E].
  assert (Hn : NoDup (sequence <$> (a ++ r :: c ++ y :: x))) by (rewrite Hs; apply NoDup_seqZ).
  rewrite fmap_app in Hn. apply NoDup_app in Hn as (_ & _ & Hn). cbn in Hn. apply NoDup_cons in Hn as [Hn _].
  apply Hn. rewrite fmap_app. apply elem_of_app. right. cbn. rewrite E. by left.
Qed.

Lemma push_accounted p d g s e v :
  Z.of_nat (length p) + 1 < 2 ^ 64 -> accounted p d g s ->
  accounted (p ++ [mkPending (next_sequence (queue s)) e v]) d g (s <| queue ::= push e v |>).
Proof.
  destruct s as [[rs cap nxt lst] ws fl cn bo st].
  intros Hb [H0 H1 H2 H3 H4 H5 H6 H7 H8]. cbn in *. subst nxt cap. unfold placed in H8. cbn in H8.
  set (x := mkPending _ e v).
  assert (Hwrap : Int.wrap 64 (Z.of_nat (length p) + 1) = Z.of_nat (length (p ++ [x]))).
  { rewrite length_app. cbn. unfold Int.wrap. rewrite Z.mod_small by lia. lia. }
  assert (Hs : sequence <$> (p ++ [x]) = seqZ 0 (Z.of_nat (length (p ++ [x])))) by (by apply seqs_snoc).
  unfold push. cbn. destruct (Z.eqb_spec (Z.of_nat (length rs)) QUEUE_CAPACITY) as [Hfull|Hfull]; cbn.
  - assert (Hsat : Int.sat_addu 64 lst 1 = lst + 1) by (unfold Int.sat_addu, Int.umax; lia).
    destruct rs as [|y rs]; [done|]. cbn in *.
    split; cbn; fold x; [rewrite length_app; cbn; lia|exact Hs|exact Hwrap|done| | |done| |]; rewrite ?Hsat, ?length_app; cbn; [lia..|].
    + unfold placed. cbn. destruct fl as [[r l]|].
      * destruct H8 as (a & b & -> & Hd & Hl & Hc). exists a, (b ++ [x]). rewrite <- app_assoc. split_and!; [done|done|lia..|].
        right. split; [|destruct Hc as [_|[_ ?]]; lia]. destruct Hc as [[= <- <-]|[[b0 ->] _]]; [by exists []|].
        exists (b0 ++ [y]). by rewrite <- !app_assoc.
      * destruct H8 as (a & -> & Hd). exists (a ++ [y]). rewrite <- !app_assoc. split; [done|]. by apply sublist_inserts_r.
  - split; cbn; fold x; [rewrite length_app; cbn; lia|exact Hs|exact Hwrap|done| | |done| |]; rewrite ?length_app; cbn; [lia..|].
    + unfold placed. cbn. destruct fl as [[r l]|].
      * destruct H8 as (a & b & -> & Hd & Hl & Hc). exists a, (b ++ [x]). rewrite <- app_assoc. split_and!; [done|done|lia..|].
        destruct Hc as [->|[[b0 ->] Hc]]; [by left|]. right. split; [|done]. exists b0. by rewrite app_assoc.
      * destruct H8 as (a & -> & Hd). exists a. by rewrite <- app_assoc.
Qed.

Lemma take_accounted p d g s : accounted p d g s -> accounted p d g (take_record s).
Proof.
  destruct s as [[rs cap nxt lst] ws fl cn bo st]. intros [H0 H1 H2 H3 H4 H5 H6 H7 H8]. unfold take_record. cbn in *.
  destruct ws; [|by split]. destruct fl; [by split|]. split; try done. unfold placed in *. cbn in *.
  destruct rs as [|r rs]; [done|]. cbn. destruct H8 as (a & -> & Hd). exists a, rs. split_and!; [done|done|lia..|by left].
Qed.

(** The end of the record being sent, delivered or not. *)
Lemma finish_accounted p d g s r l (delivered : bool) :
  flight s = Some (r, l) -> accounted p d g s ->
  accounted p (if delivered then d ++ [(r, l)] else d)
    (if delivered then g else if is_front (sequence r) (queue s) then g ++ [r] else g)
    (finished r l delivered (s <| flight := None |>)).
Proof.
  destruct s as [[rs cap nxt lst] ws fl cn bo st]. cbn. intros -> [H0 H1 H2 H3 H4 H5 H6 H7 H8]. cbn in *.
  unfold placed in H8. cbn in H8. destruct H8 as (a & b & -> & Hd & Hl & Hc).
  assert (Hsat : forall k, 0 <= k <= 1 -> l + k <= lst -> Int.sat_addu 64 l k = l + k).
  { intros k Hk Hk'. unfold Int.sat_addu, Int.umax. lia. }
  assert (Hfront : is_front (sequence r) (mkQueue rs cap nxt lst) = is_front (sequence r) (mkQueue rs 0 0 0)) by done.
  unfold finished, finish. cbn. rewrite Hfront. destruct Hc as [-> | [[b0 ->] Hc]].
  - assert (is_front (sequence r) (mkQueue (r :: b) 0 0 0) = true) as ->.
    { unfold is_front. cbn. by apply bool_decide_eq_true. }
    cbn in *. destruct delivered; split; cbn; try done; rewrite ?reported_snoc, ?length_app in *; cbn in *;
      rewrite ?Hsat by lia; unfold Int.sat_subu; try lia.
    + unfold placed. cbn. exists (a ++ [r]). rewrite <- app_assoc, fmap_app. split; [done|]. by apply sublist_app.
    + unfold placed. cbn. exists (a ++ [r]). rewrite <- app_assoc. split; [done|]. by apply sublist_inserts_r.
  - rewrite (seqs_ne a r (b0 ++ rs) rs b0) by done.
    cbn in *. destruct delivered; split; cbn; try done; rewrite ?reported_snoc, ?length_app in *; cbn in *;
      rewrite ?Hsat by lia; unfold Int.sat_subu; try lia.
    + unfold placed. cbn. exists (a ++ r :: b0). rewrite <- app_assoc, fmap_app. split; [done|]. apply sublist_app; [done|].
      cbn. apply sublist_skip, sublist_nil_l.
    + unfold placed. cbn. exists (a ++ r :: b0). rewrite <- app_assoc. split; [done|]. by apply sublist_inserts_r.
Qed.

(** The queue and the record being sent are all that counts. *)
Lemma accounted_same p d g s s' : queue s' = queue s -> flight s' = flight s -> accounted p d g s -> accounted p d g s'.
Proof. intros E1 E2 []. split; rewrite ?E1; try done. unfold placed. by rewrite E1, E2. Qed.

(** A record that is not finished goes back to where it was. *)
Lemma retry_accounted p d g s : accounted p d g s -> accounted p d g (s <| flight := None |>).
Proof.
  destruct s as [q ws fl cn bo st]. intros [H0 H1 H2 H3 H4 H5 H6 H7 H8]. split; try done. unfold placed in *. cbn in *.
  destruct fl as [[r l]|]; [|done]. destruct H8 as (a & b & -> & Hd & Hl & [->|[[b0 ->] _]]); [by exists a|].
  exists (a ++ r :: b0). rewrite <- app_assoc. split; [done|]. by apply sublist_inserts_r.
Qed.

Lemma attempt_accounted p d g s opts mc io :
  accounted p d g s ->
  accounted p (d ++ delivered_by (Attempt opts mc io) s) (g ++ given_up_by (Attempt opts mc io) s) (attempt opts mc io s).1.1.
Proof.
  intros Ha. unfold delivered_by, given_up_by. cbn [step]. unfold attempt.
  destruct (flight s) as [[r l]|] eqn:Ef; [|cbn; by rewrite !app_nil_r].
  pose proof (fun del => finish_accounted p d g s r l del Ef Ha) as Hfin.
  pose proof (retry_accounted p d g s Ha) as Hretry.
  assert (Hd : accounted p (d ++ [(r, l)]) (g ++ []) (finished r l true (s <| flight := None |>))).
  { rewrite app_nil_r. apply (Hfin true). }
  assert (Hg : accounted p (d ++ []) (g ++ (if is_front (sequence r) (queue s) then [r] else [])) (finished r l false (s <| flight := None |>))).
  { rewrite app_nil_r. pose proof (Hfin false) as H. cbn iota in H. destruct (is_front (sequence r) (queue s)); [done|]. by rewrite app_nil_r. }
  assert (Hr : accounted p (d ++ []) (g ++ []) (s <| flight := None |>)) by (by rewrite !app_nil_r).
  clear Hfin Hretry Ha. set (s0 := s <| flight := None |>) in *.
  destruct (current_config opts) as [config|]; [|by eapply accounted_same; [| |exact Hg]].
  case_bool_decide as Eu.
  - destruct (send_udp config _ io) as [ok out]. cbn. destruct (ok && negb (timed_out io)); cbn;
      by eapply accounted_same; [| |first [exact Hd|exact Hg]].
  - destruct (send_stream config _ _ _ io) as [[[res conn] n] out]. cbn. destruct (timed_out io); cbn.
    { by eapply accounted_same; [| |exact Hr]. }
    destruct res as [[]|[|]]; cbn; by eapply accounted_same; [| |first [exact Hd|exact Hg|exact Hr]].
Qed.

Lemma run_accounted evs p d g s :
  Z.of_nat (length p) + Z.of_nat (length evs) < 2 ^ 64 -> accounted p d g s ->
  accounted (p ++ collect pushed_by evs s) (d ++ collect delivered_by evs s) (g ++ collect given_up_by evs s) (run evs s).
Proof.
  revert p d g s. induction evs as [|ev evs IH]; intros p d g s Hb Ha; [cbn; by rewrite !app_nil_r|].
  cbn [collect run foldl length] in *. rewrite !app_assoc.
  assert (Hstep : accounted (p ++ pushed_by ev s) (d ++ delivered_by ev s) (g ++ given_up_by ev s) (step ev s).1.1
                  /\ (length (pushed_by ev s) <= 1)%nat).
  { destruct ev as [opts runtime kind v| |opts mc io].
    - unfold delivered_by, given_up_by. cbn [step fst snd pushed_by]. rewrite !app_nil_r. unfold enqueue.
      destruct (current_config opts); [|cbn; rewrite app_nil_r; split; [done|lia]]. split; [|cbn; lia].
      assert (H : accounted (p ++ [mkPending (next_sequence (queue s)) (event_definition kind v) v]) d g
                    (s <| queue ::= push (event_definition kind v) v |>)) by (apply push_accounted; [lia|done]).
      unfold start_worker. destruct (worker_started _); [done|]. destruct runtime; [|done]. by eapply accounted_same; [| |exact H].
    - unfold delivered_by, given_up_by. cbn. rewrite !app_nil_r. split; [by apply take_accounted|lia].
    - cbn [pushed_by]. rewrite app_nil_r. split; [by apply attempt_accounted|cbn; lia]. }
  destruct Hstep as [Hs Hl]. apply IH; [|done]. rewrite length_app. lia.
Qed.

(** C23 Every record is accounted for.  However the tasks that emit events interleave with
    the worker, and whatever becomes of its attempts, the records put into the queue are
    those that wait, those delivered, those given up by the worker, and those that were
    lost to a full queue: as many as the counter says with all that was reported in the
    records delivered, each counted once, never one that arrived.  What is delivered are
    records that were put in, each once and in their order. *)
Theorem records_are_accounted_for evs :
  Z.of_nat (length evs) < 2 ^ 64 ->
  let s := run evs new_sink in
  let pushed := collect pushed_by evs new_sink in
  let delivered := collect delivered_by evs new_sink in
  Z.of_nat (length pushed) =
    Z.of_nat (length (records (queue s))) + Z.of_nat (length delivered)
    + Z.of_nat (length (collect given_up_by evs new_sink)) + (lost (queue s) + reported delivered)
  /\ delivered.*1 `sublist_of` pushed /\ 0 <= lost (queue s)
  /\ Z.of_nat (length (records (queue s))) <= QUEUE_CAPACITY.
Proof.
  intros Hb s pushed delivered.
  assert (Hnew : accounted [] [] [] new_sink) by (split; try done; by exists []).
  destruct (run_accounted evs [] [] [] new_sink Hb Hnew) as [_ _ _ _ H4 H5 _ H7 H8].
  cbn [app] in *. fold s in H4, H5, H7, H8. fold pushed delivered in H7, H8. split_and!; [lia| |done|done].
  unfold placed in H8. destruct (flight s) as [[r l]|].
  - destruct H8 as (a & b & -> & Hd & _). by apply sublist_inserts_r.
  - destruct H8 as (a & -> & Hd). by apply sublist_inserts_r.
Qed.

(** ** What the collector reads *)

(** A reader of octet counting, as RFC 6587 has it: digits, a space, that many bytes. *)
Fixpoint read_len (acc : Z) (s : list Z) : option (Z * list Z) :=
  match s with
  | [] => None
  | c :: s =>
      if c =? 32 then Some (acc, s)
      else if Str.is_ascii_digit c then read_len (acc * 10 + (c - 48)) s else None
  end.

Fixpoint unframe_fuel (fuel : nat) (s : list Z) : list (list Z) :=
  match fuel with
  | O => []
  | S fuel =>
      match read_len 0 s with
      | Some (n, s) =>
          if n <=? Z.of_nat (length s) then take (Z.to_nat n) s :: unframe_fuel fuel (drop (Z.to_nat n) s) else []
      | None => []
      end
  end.

Definition unframe (s : list Z) : list (list Z) := unframe_fuel (length s) s.

Definition body_len (m : rstr) : Z := Z.of_nat (length (Str.as_bytes m)).

Lemma frame_eq m : octet_counting_frame m = Str.show_nat (body_len m) ++ [32] ++ Str.as_bytes m.
Proof.
  unfold octet_counting_frame. fold (body_len m). rewrite Str.as_bytes_app, Str.digits_as_bytes; [by rewrite <- app_assoc|].
  apply Str.show_nat_spec. unfold body_len. lia.
Qed.

Lemma read_len_digits acc ds t :
  Forall (fun c => Str.is_ascii_digit c = true) ds ->
  read_len acc (ds ++ t) = read_len (foldl (fun a c => a * 10 + (c - 48)) acc ds) t.
Proof.
  intros Hd. revert acc. induction Hd as [|c ds Hc _ IH]; intros acc; [done|]. cbn. rewrite IH, Hc.
  destruct (Z.eqb_spec c 32) as [->|]; done.
Qed.

Lemma read_frame m t : read_len 0 (octet_counting_frame m ++ t) = Some (body_len m, Str.as_bytes m ++ t).
Proof.
  rewrite frame_eq, <- !app_assoc. destruct (Str.show_nat_spec (body_len m)) as [Hd Hv]; [unfold body_len; lia|].
  rewrite read_len_digits by done. unfold Str.value in Hv. by rewrite Hv.
Qed.

(** The beginning of a frame is at most that frame. *)
Lemma unframe_cut f n m : (length (unframe_fuel f (take n (octet_counting_frame m))) <= 1)%nat.
Proof.
  destruct f as [|f]; [cbn; lia|]. cbn [unframe_fuel]. rewrite frame_eq.
  destruct (Str.show_nat_spec (body_len m)) as [Hd Hv]; [unfold body_len; lia|]. set (ds := Str.show_nat (body_len m)) in *.
  destruct (Nat.le_gt_cases n (length ds)) as [Hn|Hn].
  - rewrite take_app_le by done. rewrite <- (app_nil_r (take n ds)), read_len_digits; [cbn; lia|]. by apply Forall_take.
  - rewrite take_app_ge by lia. rewrite read_len_digits by done. unfold Str.value in Hv. rewrite Hv.
    destruct (n - length ds)%nat as [|k] eqn:Ek; [lia|]. cbn [app take read_len]. rewrite Z.eqb_refl.
    destruct (Z.leb_spec (body_len m) (Z.of_nat (length (take k (Str.as_bytes m))))) as [Hl|Hl]; [|cbn; lia].
    cbn [length]. rewrite drop_ge; [|rewrite length_take; unfold body_len in *; lia].
    destruct f; cbn; lia.
Qed.

Lemma frame_length m : (2 <= length (octet_counting_frame m))%nat.
Proof.
  rewrite frame_eq, !length_app. destruct (Str.show_nat_cons (body_len m)) as (c & s & ->). cbn. lia.
Qed.

Lemma unframe_frames f ms n m :
  (length ms <= f)%nat ->
  exists rest, unframe_fuel f (concat (octet_counting_frame <$> ms) ++ take n (octet_counting_frame m))
               = (Str.as_bytes <$> ms) ++ rest /\ (length rest <= 1)%nat.
Proof.
  revert f. induction ms as [|m' ms IH]; intros f Hf.
  - exists (unframe_fuel f (take n (octet_counting_frame m))). split; [done|apply unframe_cut].
  - destruct f as [|f]; [cbn in Hf; lia|]. cbn [fmap list_fmap concat length unframe_fuel] in *.
    rewrite <- app_assoc, read_frame. unfold body_len. rewrite (proj2 (Z.leb_le _ _)) by (rewrite length_app; lia).
    rewrite Nat2Z.id, take_app_length, drop_app_length. destruct (IH f) as (rest & -> & Hr); [lia|]. by exists rest.
Qed.

Lemma frames_length ms : (length ms <= length (concat (octet_counting_frame <$> ms)))%nat.
Proof.
  induction ms as [|m ms IH]; [done|]. cbn [fmap list_fmap concat length]. rewrite length_app.
  pose proof (frame_length m). lia.
Qed.

(** *** The streams of the worker *)

Definition out_of (ev : Event) (s : Sink) : list Out := (step ev s).2.

Definition on_stream (k : Z) (o : Out) : list Z :=
  match o with Wrote k' _ b => if k' =? k then b else [] | _ => [] end.

(** All that was written on a stream. *)
Definition stream_bytes (k : Z) (outs : list Out) : list Z := concat (on_stream k <$> outs).

(** The message of an attempt that delivers on a stream. *)
Definition delivered_on (k : Z) (ev : Event) (s : Sink) : list rstr :=
  match ev, (step ev s).1.2, (step ev s).2 with
  | Attempt opts mc _, Delivered r l, [Wrote k' _ _] =>
      match current_config opts with
      | Some config => if k' =? k then [format_record mc (event r) (value r) config l] else []
      | None => []
      end
  | _, _, _ => []
  end.

Lemma stream_bytes_app k a b : stream_bytes k (a ++ b) = stream_bytes k a ++ stream_bytes k b.
Proof. unfold stream_bytes. by rewrite fmap_app, concat_app. Qed.

(** Streams hold whole frames, then at most the beginning of one; the stream of the
    connection holds whole frames, and it was made for its key. *)
Record streaming (o : list Out) (m : Z -> list rstr) (s : Sink) : Prop := {
  sm_new : forall k, streams s <= k -> stream_bytes k o = [] /\ m k = [];
  sm_all : forall k, exists x n, stream_bytes k o = concat (octet_counting_frame <$> m k) ++ take n (octet_counting_frame x);
  sm_conn : forall a, connection s = Some a ->
    stream a < streams s /\ stream_bytes (stream a) o = concat (octet_counting_frame <$> m (stream a))
    /\ exists config io, transport_key config = conn_key_of a /\ connect_stream config io = Ok tt }.

Lemma streaming_same o m s s' :
  streams s' = streams s -> connection s' = connection s \/ connection s' = None -> streaming o m s -> streaming o m s'.
Proof.
  intros E1 E2 [H1 H2 H3]. split; rewrite ?E1; [done|done|]. intros a Ha. destruct E2 as [E2|E2]; rewrite E2 in Ha; [|done]. by apply H3.
Qed.

Lemma streaming_ext o m m' s : (forall k, m' k = m k) -> streaming o m s -> streaming o m' s.
Proof. intros E [H1 H2 H3]. split; intros; rewrite ?E; auto. Qed.

(** A connection that is there to write on, when [n] streams have been opened. *)
Record writable (o : list Out) (m : Z -> list rstr) (config : DeliveryConfig) (a : ActiveConnection) (n : Z) : Prop := {
  wr_key : conn_key_of a = transport_key config;
  wr_stream : stream a < n;
  wr_whole : stream_bytes (stream a) o = concat (octet_counting_frame <$> m (stream a));
  wr_new : forall k, n <= k -> stream_bytes k o = [] /\ m k = [];
  wr_all : forall k, exists x j, stream_bytes k o = concat (octet_counting_frame <$> m k) ++ take j (octet_counting_frame x);
  wr_made : exists config io, transport_key config = conn_key_of a /\ connect_stream config io = Ok tt }.

Lemma send_stream_cases o m s config msg io res conn n out :
  streaming o m s -> send_stream config msg (connection s) (streams s) io = (res, conn, n, out) ->
  (out = [] /\ conn = None /\ n = streams s /\ exists e, res = Err e)
  \/ exists a, conn = Some a /\ writable o m config a n
     /\ ((out = [Wrote (stream a) (transport_key config) (octet_counting_frame msg)] /\ res = Ok tt)
        \/ exists j, out = [Wrote (stream a) (transport_key config) (take j (octet_counting_frame msg))] /\ res = Err Retryable).
Proof.
  intros [H1 H2 H3] E. unfold send_stream in E.
  assert (Hw : forall a n', writable o m config a n' ->
    match cut io with
    | None => (Ok tt, Some a, n', [Wrote (stream a) (transport_key config) (octet_counting_frame msg)])
    | Some j => (Err Retryable, Some a, n', [Wrote (stream a) (transport_key config) (take j (octet_counting_frame msg))])
    end = (res, conn, n, out) ->
    exists a, conn = Some a /\ writable o m config a n
     /\ ((out = [Wrote (stream a) (transport_key config) (octet_counting_frame msg)] /\ res = Ok tt)
        \/ exists j, out = [Wrote (stream a) (transport_key config) (take j (octet_counting_frame msg))] /\ res = Err Retryable)).
  { intros a n' Ha E'. exists a. destruct (cut io) as [j|]; injection E' as <- <- <- <-; (split; [done|split; [done|]]);
      [right; by exists j|by left]. }
  assert (Hnew : match connect_stream config io with
          | Ok _ => match cut io with
              | None => (Ok tt, Some (mkConnection (transport_key config) (streams s)), streams s + 1, [Wrote (streams s) (transport_key config) (octet_counting_frame msg)])
              | Some j => (Err Retryable, Some (mkConnection (transport_key config) (streams s)), streams s + 1, [Wrote (streams s) (transport_key config) (take j (octet_counting_frame msg))])
              end
          | Err e => (Err e, None, streams s, [])
          end = (res, conn, n, out) ->
    (out = [] /\ conn = None /\ n = streams s /\ exists e, res = Err e) \/ exists a, conn = Some a /\ writable o m config a n
     /\ ((out = [Wrote (stream a) (transport_key config) (octet_counting_frame msg)] /\ res = Ok tt)
        \/ exists j, out = [Wrote (stream a) (transport_key config) (take j (octet_counting_frame msg))] /\ res = Err Retryable)).
  { destruct (connect_stream config io) as [[]|e] eqn:Ec; [|intros [= <- <- <- <-]; left; by split_and!; [..|exists e]].
    intros E'. right. apply (Hw (mkConnection (transport_key config) (streams s)) (streams s + 1)); [|done].
    destruct (H1 (streams s) ltac:(lia)) as [B0 M0].
    split; cbn; [done|lia|by rewrite B0, M0|intros k Hk; apply H1; lia|done|by exists config, io]. }
  destruct (connection s) as [a|] eqn:Ea; cbn iota beta zeta in E; [case_bool_decide as Ek|]; cbn iota beta zeta in E.
  - right. destruct (H3 a eq_refl) as (S1 & S2 & S3). by apply (Hw a (streams s)).
  - apply Hnew. destruct (connect_stream config io); exact E.
  - apply Hnew. destruct (connect_stream config io); exact E.
Qed.

Lemma stream_bytes_snoc k o k' key b : stream_bytes k (o ++ [Wrote k' key b]) = stream_bytes k o ++ (if k' =? k then b else []).
Proof. rewrite stream_bytes_app. unfold stream_bytes at 2. cbn. by rewrite app_nil_r. Qed.

(** A whole frame was written. *)
Lemma writable_delivered o m config a n msg s :
  writable o m config a n -> streams s = n -> connection s = Some a ->
  streaming (o ++ [Wrote (stream a) (transport_key config) (octet_counting_frame msg)])
    (fun k => m k ++ if stream a =? k then [msg] else []) s.
Proof.
  intros [H1 H2 H3 H4 H5 H6] En Ec.
  assert (Hb : stream_bytes (stream a) (o ++ [Wrote (stream a) (transport_key config) (octet_counting_frame msg)])
               = concat (octet_counting_frame <$> (m (stream a) ++ [msg]))).
  { rewrite stream_bytes_snoc, Z.eqb_refl, H3, fmap_app, concat_app. cbn. by rewrite app_nil_r. }
  split.
  - intros k Hk. rewrite stream_bytes_snoc. destruct (Z.eqb_spec (stream a) k) as [E|_]; [lia|].
    rewrite !app_nil_r. apply H4. lia.
  - intros k. destruct (Z.eqb_spec (stream a) k) as [<-|Hne].
    + exists [], 0%nat. rewrite Hb. cbn [take]. by rewrite app_nil_r.
    + rewrite stream_bytes_snoc, (proj2 (Z.eqb_neq _ _)), !app_nil_r by done. apply H5.
  - intros a' Ha'. assert (a' = a) as -> by congruence. rewrite Z.eqb_refl. split_and!; [lia|exact Hb|exact H6].
Qed.

(** Something was written and the connection is given up. *)
Lemma writable_broken o m config a n msg j s :
  writable o m config a n -> streams s = n -> connection s = None ->
  streaming (o ++ [Wrote (stream a) (transport_key config) (take j (octet_counting_frame msg))]) m s.
Proof.
  intros [H1 H2 H3 H4 H5 H6] En Ec. split.
  - intros k Hk. rewrite stream_bytes_snoc. destruct (Z.eqb_spec (stream a) k) as [E|_]; [lia|]. rewrite app_nil_r. apply H4. lia.
  - intros k. rewrite stream_bytes_snoc. destruct (Z.eqb_spec (stream a) k) as [<-|_].
    + exists msg, j. by rewrite H3.
    + rewrite app_nil_r. apply H5.
  - intros a' Ha'. congruence.
Qed.

Lemma datagram_bytes k o b t m : stream_bytes k (o ++ [Datagram b t m]) = stream_bytes k o.
Proof. rewrite stream_bytes_app. unfold stream_bytes at 2. cbn. by rewrite app_nil_r. Qed.

Lemma streaming_nothing o m s : streaming o m s -> streaming (o ++ []) (fun k => m k ++ []) s.
Proof. rewrite app_nil_r. apply streaming_ext. intros k. by rewrite app_nil_r. Qed.

Lemma attempt_streaming o m s opts mc io :
  streaming o m s ->
  streaming (o ++ out_of (Attempt opts mc io) s) (fun k => m k ++ delivered_on k (Attempt opts mc io) s) (attempt opts mc io s).1.1.
Proof.
  intros Hs. unfold out_of, delivered_on. cbn [step]. unfold attempt.
  destruct (flight s) as [[r l]|]; [|cbn [fst snd]; by apply streaming_nothing].
  destruct (current_config opts) as [config|]; [|cbn [fst snd]; apply streaming_nothing; by apply (streaming_same o m s); [|right|]].
  set (msg := format_record _ _ _ _ _). case_bool_decide as Eu.
  - unfold send_udp. destruct (udp_ok io); cbn [andb fst snd].
    + apply (streaming_ext _ m); [intros k; destruct (negb (timed_out io)); by rewrite app_nil_r|].
      destruct Hs as [H1 H2 H3]. split; cbn; [intros; rewrite datagram_bytes; auto|intros; rewrite datagram_bytes; auto|done].
    + apply streaming_nothing. by apply (streaming_same o m s); [|right|].
  - destruct (send_stream config msg (connection (s <| flight := None |>)) (streams (s <| flight := None |>)) io) as [[[res conn] n] out] eqn:E.
    destruct (send_stream_cases o m s _ _ _ _ _ _ _ Hs E) as [(-> & -> & -> & e & ->)|(a & -> & Hw & [[-> ->]|[j [-> ->]]])].
    + assert (H : forall s', streams s' = streams s -> connection s' = None -> streaming (o ++ []) (fun k => m k ++ []) s').
      { intros s' E1 E2. apply streaming_nothing. by apply (streaming_same o m s); [|right|]. }
      destruct (timed_out io); [by apply H|]. by destruct e; apply H.
    + destruct (timed_out io); cbn [fst snd].
      * apply (streaming_ext _ m); [intros k; by rewrite app_nil_r|].
        rewrite <- (firstn_all (octet_counting_frame msg)). by apply (writable_broken _ _ _ _ n).
      * apply (streaming_ext _ (fun k => m k ++ if stream a =? k then [msg] else [])); [done|]. by apply (writable_delivered _ _ _ _ n).
    + assert (H : forall s', streams s' = n -> connection s' = None ->
        streaming (o ++ [Wrote (stream a) (transport_key config) (take j (octet_counting_frame msg))]) (fun k => m k ++ []) s').
      { intros s' E1 E2. apply (streaming_ext _ m); [intros k; by rewrite app_nil_r|]. by apply (writable_broken _ _ _ _ n). }
      destruct (timed_out io); by apply H.
Qed.

Lemma run_streaming evs o m s :
  streaming o m s ->
  streaming (o ++ collect out_of evs s) (fun k => m k ++ collect (delivered_on k) evs s) (run evs s).
Proof.
  revert o m s. induction evs as [|ev evs IH]; intros o m s Hs; [cbn; by apply streaming_nothing|].
  assert (Hstep : streaming (o ++ out_of ev s) (fun k => m k ++ delivered_on k ev s) (step ev s).1.1).
  { destruct ev as [opts runtime kind v| |opts mc io]; cbn [step fst snd].
    - apply (streaming_ext _ (fun k => m k ++ [])); [done|]. apply streaming_nothing.
      apply (streaming_same o m s); [|left|done]; unfold enqueue, start_worker; by repeat case_match.
    - apply (streaming_ext _ (fun k => m k ++ [])); [done|]. apply streaming_nothing.
      apply (streaming_same o m s); [|left|done]; unfold take_record; by repeat case_match.
    - by apply attempt_streaming. }
  cbn [collect run foldl]. rewrite app_assoc.
  apply (streaming_ext _ (fun k => (m k ++ delivered_on k ev s) ++ collect (delivered_on k) evs (step ev s).1.1)); [intros k; by rewrite app_assoc|].
  by apply IH.
Qed.

Lemma new_sink_streaming : streaming [] (fun _ => []) new_sink.
Proof. split; [done|by exists [], 0%nat|done]. Qed.

(** C26 The collector reads the records.  Whatever the connections do, a reader of octet
    counting at the other end of a stream reads the messages that the worker counted as
    delivered on it, byte for byte and in order, and after them at most one more: that of
    the write at which the connection was given up. *)
Theorem collector_reads_the_records evs k :
  let bytes_ := stream_bytes k (collect out_of evs new_sink) in
  exists rest, unframe bytes_ = (Str.as_bytes <$> collect (delivered_on k) evs new_sink) ++ rest /\ (length rest <= 1)%nat.
Proof.
  destruct (run_streaming evs [] (fun _ => []) new_sink new_sink_streaming) as [_ Ha _].
  destruct (Ha k) as (x & n & E). cbn [app] in E. cbn zeta. rewrite E. unfold unframe.
  apply unframe_frames. rewrite length_app. pose proof (frames_length (collect (delivered_on k) evs new_sink)). lia.
Qed.

(** ** Where the records go *)

(** What goes out follows the configuration. *)
Definition goes_as_configured (ev : Event) (o : Out) : Prop :=
  match ev with
  | Attempt opts mc _ =>
      exists config, current_config opts = Some config
      /\ match o with
         | Datagram _ to_ _ => protocol config = Udp /\ to_ = target config
         | Wrote _ key _ => protocol config <> Udp /\ key = transport_key config
             /\ (protocol config = Tls -> tls_ca config <> [] /\ server_name_is_valid (tls_server_name (host config)) = true
                 /\ exists pem, pem_has_certificates pem = true)
         end
  | _ => False
  end.

Fixpoint all_go_as_configured (evs : list Event) (s : Sink) : Prop :=
  match evs with
  | [] => True
  | ev :: evs => Forall (goes_as_configured ev) (out_of ev s) /\ all_go_as_configured evs (step ev s).1.1
  end.

(** A TLS connection was made with the CA and the name that its key says. *)
Lemma made_with_tls config config' io :
  transport_key config' = transport_key config -> connect_stream config' io = Ok tt -> protocol config = Tls ->
  tls_ca config <> [] /\ server_name_is_valid (tls_server_name (host config)) = true /\ exists pem, pem_has_certificates pem = true.
Proof.
  unfold transport_key, connect_stream. intros [= Eh _ Ep Et] Hc Ht. rewrite Ep, bool_decide_eq_true_2 in Hc by done.
  unfold connect_tls in Hc. rewrite Et, Eh in Hc. case_bool_decide; [done|]. destruct (ca_file io) as [pem|]; [|done].
  destruct (pem_has_certificates pem) eqn:E1; [|done]. destruct (server_name_is_valid _); [|done]. split_and!; [done|done|by exists pem].
Qed.

Lemma attempt_goes o m s opts mc io :
  streaming o m s -> Forall (goes_as_configured (Attempt opts mc io)) (attempt opts mc io s).2.
Proof.
  intros Hs. unfold attempt. destruct (flight s) as [[r l]|]; [|constructor].
  destruct (current_config opts) as [config|] eqn:Ec; [|constructor]. set (msg := format_record _ _ _ _ _).
  case_bool_decide as Eu.
  - unfold send_udp. destruct (udp_ok io); [|constructor]. cbn [fst snd]. constructor; [|constructor]. by exists config.
  - destruct (send_stream config msg (connection (s <| flight := None |>)) (streams (s <| flight := None |>)) io) as [[[res conn] n] out] eqn:E.
    assert (Hout : Forall (goes_as_configured (Attempt opts mc io)) out).
    { destruct (send_stream_cases o m s _ _ _ _ _ _ _ Hs E) as [(-> & _)|(a & _ & Hw & Hout)]; [constructor|].
      pose proof (wr_key _ _ _ _ _ Hw) as Hk. pose proof (wr_made _ _ _ _ _ Hw) as Hm. rewrite Hk in Hm.
      assert (Ht : protocol config = Tls -> tls_ca config <> [] /\ server_name_is_valid (tls_server_name (host config)) = true
                 /\ exists pem, pem_has_certificates pem = true).
      { destruct Hm as (config' & io' & Ek & Em). intros Ht. by apply (made_with_tls config config' io'). }
      destruct Hout as [[-> _]|[j [-> _]]]; (constructor; [|constructor]); by exists config. }
    destruct (timed_out io); [done|]. by destruct res as [|[]].
Qed.

(** Records go where the configuration says.  A datagram is sent only with UDP chosen,
    to the collector of that moment; bytes are written only on a connection made with the
    host, port, protocol and CA of that moment.  With TLS, the protocol unless another is
    set, that connection was made with certificates of the CA file and a valid name of the
    collector; nothing goes out otherwise. *)
Theorem records_go_where_configured evs : all_go_as_configured evs new_sink.
Proof.
  assert (H : forall o m s, streaming o m s -> all_go_as_configured evs s); [|by apply (H _ _ _ new_sink_streaming)].
  induction evs as [|ev evs IH]; intros o m s Hs; [done|]. cbn [all_go_as_configured]. split.
  - destruct ev as [opts runtime kind v| |opts mc io]; [constructor..|]. by apply (attempt_goes o m).
  - pose proof (run_streaming [ev] o m s Hs) as H. by apply (IH _ _ _ H).
Qed.
End Worker.

(** ** CEF *)

Section CefReader.
Context {JT : JsonText}.

(** A reader of CEF.  A field of the header runs to the next bar that no backslash guards. *)
Fixpoint read_field (acc s : rstr) : option (rstr * rstr) :=
  match s with
  | [] => None
  | c :: s' =>
      if c =? 92 then match s' with x :: s'' => read_field (acc ++ [x]) s'' | [] => None end
      else if c =? 124 then Some (acc, s')
      else read_field (acc ++ [c]) s'
  end.

Fixpoint read_fields (n : nat) (s : rstr) : option (list rstr * rstr) :=
  match n with
  | O => Some ([], s)
  | S n => '(f, s) ← read_field [] s; '(fs, s) ← read_fields n s; Some (f :: fs, s)
  end.

(** The extension is cut at the equal signs that no backslash guards; a key is what
    follows the last space before its sign. *)
Fixpoint segments (acc s : rstr) : list rstr :=
  match s with
  | [] => [acc]
  | c :: s' =>
      if c =? 92 then match s' with x :: s'' => segments (acc ++ [c; x]) s'' | [] => [acc ++ [c]] end
      else if c =? 61 then acc :: segments [] s'
      else segments (acc ++ [c]) s'
  end.

Fixpoint unescape (s : rstr) : rstr :=
  match s with
  | [] => []
  | c :: s' =>
      if c =? 92
      then match s' with
           | x :: s'' => (if x =? 110 then 10 else if x =? 114 then 13 else x) :: unescape s''
           | [] => [c]
           end
      else c :: unescape s'
  end.

(** The text before the last space, and the text after it. *)
Definition last_space (s : rstr) : rstr * rstr :=
  match Str.rsplit_once (Str.ch 32) s with Some (a, b) => (a, b) | None => ([], s) end.

Fixpoint pairs (key : rstr) (l : list rstr) : list (rstr * rstr) :=
  match l with
  | [] => []
  | [v] => [(key, unescape v)]
  | v :: l => let '(v, next) := last_space v in (key, unescape v) :: pairs next l
  end.

Definition read_extension (s : rstr) : list (rstr * rstr) :=
  match segments [] s with k :: l => pairs k l | [] => [] end.

Definition read_cef (s : rstr) : option (list rstr * list (rstr * rstr)) :=
  '(fields, s) ← read_fields 7 s; Some (fields, read_extension s).

(** *** Escaping character by character *)

Definition esc (c : Z) : rstr :=
  if c =? 92 then [92; 92] else if c =? 61 then [92; 61] else if c =? 13 then [92; 114]
  else if c =? 10 then [92; 110] else [c].

Definition esc_header (c : Z) : rstr := if c =? 92 then [92; 92] else if c =? 124 then [92; 124] else [c].

Lemma replace_app c b s t : replace c b (s ++ t) = replace c b s ++ replace c b t.
Proof. unfold replace. by rewrite fmap_app, concat_app. Qed.

Lemma replace_concat c b (f : Z -> rstr) (s : rstr) : replace c b (concat (f <$> s)) = concat ((fun x => replace c b (f x)) <$> s).
Proof. induction s as [|x s IH]; [done|]. cbn [fmap list_fmap concat]. by rewrite replace_app, IH. Qed.

Lemma replace_one c b x : replace c b [x] = if x =? c then b else [x].
Proof. unfold replace. cbn. by rewrite app_nil_r. Qed.

Lemma replace_chars c b s : replace c b s = concat ((fun x => if x =? c then b else [x]) <$> s).
Proof. done. Qed.

Lemma escape_chars s : escape_cef_extension s = concat (esc <$> s).
Proof.
  unfold escape_cef_extension. rewrite (replace_chars 92), !replace_concat. f_equal. apply list_fmap_ext.
  intros i c _. unfold esc. destruct (Z.eqb_spec c 92) as [->|H1]; [done|]. rewrite replace_one.
  destruct (Z.eqb_spec c 61) as [->|H2]; [done|]. rewrite replace_one.
  destruct (Z.eqb_spec c 13) as [->|H3]; [done|]. by rewrite replace_one.
Qed.

Lemma escape_header_chars s : escape_cef_header s = concat (esc_header <$> s).
Proof.
  unfold escape_cef_header. rewrite (replace_chars 92), replace_concat. f_equal. apply list_fmap_ext.
  intros i c _. unfold esc_header. destruct (Z.eqb_spec c 92) as [->|H1]; [done|]. by rewrite replace_one.
Qed.

Lemma read_field_escaped acc s t : read_field acc (escape_cef_header s ++ 124 :: t) = Some (acc ++ s, t).
Proof.
  rewrite escape_header_chars. revert acc. induction s as [|c s IH]; intros acc; cbn; [by rewrite app_nil_r|].
  rewrite <- app_assoc. unfold esc_header at 1. destruct (Z.eqb_spec c 92) as [->|H1]; cbn.
  - by rewrite IH, <- app_assoc.
  - destruct (Z.eqb_spec c 124) as [->|H2]; cbn; [by rewrite IH, <- app_assoc|].
    rewrite (proj2 (Z.eqb_neq c 92)), (proj2 (Z.eqb_neq c 124)) by done. by rewrite IH, <- app_assoc.
Qed.

Lemma read_field_digits z t : 0 <= z -> read_field [] (Str.show_nat z ++ 124 :: t) = Some (Str.show_nat z, t).
Proof.
  intros Hz. assert (E : Str.show_nat z = escape_cef_header (Str.show_nat z)).
  { rewrite escape_header_chars. destruct (Str.show_nat_spec z Hz) as [Hd _]. induction Hd as [|c s Hc _ IH]; [done|].
    cbn. rewrite <- IH. unfold esc_header. unfold Str.is_ascii_digit in Hc. apply andb_true_iff in Hc as [_ ?%Z.leb_le].
    by rewrite (proj2 (Z.eqb_neq c 92)), (proj2 (Z.eqb_neq c 124)) by lia. }
  rewrite E at 1. by rewrite read_field_escaped.
Qed.

Lemma segments_escaped acc s t : segments acc (escape_cef_extension s ++ t) = segments (acc ++ escape_cef_extension s) t.
Proof.
  rewrite !escape_chars. revert acc. induction s as [|c s IH]; intros acc; cbn; [by rewrite app_nil_r|].
  rewrite <- app_assoc, (app_assoc acc). unfold esc at 1 3.
  destruct (Z.eqb_spec c 92) as [->|H1]; [cbn; apply IH|]. destruct (Z.eqb_spec c 61) as [->|H2]; [cbn; apply IH|].
  destruct (Z.eqb_spec c 13) as [->|H3]; [cbn; apply IH|]. destruct (Z.eqb_spec c 10) as [->|H4]; [cbn; apply IH|].
  cbn. rewrite (proj2 (Z.eqb_neq c 92)), (proj2 (Z.eqb_neq c 61)) by done. apply IH.
Qed.

Lemma unescape_escaped s : unescape (escape_cef_extension s) = s.
Proof.
  rewrite escape_chars. induction s as [|c s IH]; [done|]. cbn. unfold esc at 1.
  destruct (Z.eqb_spec c 92) as [->|H1]; [cbn; by rewrite IH|]. destruct (Z.eqb_spec c 61) as [->|H2]; [cbn; by rewrite IH|].
  destruct (Z.eqb_spec c 13) as [->|H3]; [cbn; by rewrite IH|]. destruct (Z.eqb_spec c 10) as [->|H4]; [cbn; by rewrite IH|].
  cbn. by rewrite (proj2 (Z.eqb_neq c 92)), IH by done.
Qed.

(** *** Keys *)

Definition plain (c : Z) : Prop := c <> 92 /\ c <> 61 /\ c <> 32 /\ c <> 10 /\ c <> 13.

Lemma key_plain k : Forall plain (cef_extension_key k).
Proof.
  unfold cef_extension_key. apply Forall_fmap, Forall_forall. intros c _. cbn. unfold plain.
  destruct (Str.is_ascii_alphanumeric c || (c =? 95)) eqn:E; [|lia].
  unfold Str.is_ascii_alphanumeric, Str.is_ascii_upper, Str.is_ascii_lower, Str.is_ascii_digit in E.
  repeat (apply orb_true_iff in E as [E|E]); try (apply andb_true_iff in E as [?%Z.leb_le ?%Z.leb_le]; lia).
  apply Z.eqb_eq in E. lia.
Qed.

Lemma segments_plain acc k t : Forall plain k -> segments acc (k ++ t) = segments (acc ++ k) t.
Proof.
  intros Hk. revert acc. induction Hk as [|c k (H1 & H2 & _) _ IH]; intros acc; [by rewrite app_nil_r|].
  cbn. rewrite (proj2 (Z.eqb_neq c 92)), (proj2 (Z.eqb_neq c 61)) by done. by rewrite IH, <- app_assoc.
Qed.

Lemma split_once_none (p : Z -> bool) s : Forall (fun c => p c = false) s -> Str.split_once p s = None.
Proof. induction 1 as [|c s Hc _ IH]; [done|]. cbn. by rewrite Hc, IH. Qed.

Lemma split_once_first (p : Z -> bool) a c t : Forall (fun x => p x = false) a -> p c = true -> Str.split_once p (a ++ c :: t) = Some (a, t).
Proof. induction 1 as [|x a Hx _ IH]; intros Hc; cbn; [by rewrite Hc|]. by rewrite Hx, IH. Qed.

Lemma last_space_key v k : Forall plain k -> last_space (v ++ [32] ++ k) = (v, k).
Proof.
  intros Hk. unfold last_space, Str.rsplit_once. rewrite !rev_app_distr. cbn [rev app]. rewrite <- app_assoc. cbn [app].
  rewrite split_once_first; [by rewrite !rev_involutive| |done].
  apply List.Forall_forall. intros c Hc%List.in_rev. rewrite List.Forall_forall in Hk. destruct (Hk c Hc) as (_ & _ & H & _).
  unfold Str.ch. apply Z.eqb_neq. congruence.
Qed.

(** *** A list of fields *)

Definition show_pair (kv : rstr * rstr) : rstr := kv.1 ++ [61] ++ escape_cef_extension kv.2.

Lemma segments_sign acc t : segments acc (61 :: t) = acc :: segments [] t.
Proof. done. Qed.

Lemma segments_space acc t : segments acc (32 :: t) = segments (acc ++ [32]) t.
Proof. done. Qed.

(** The segments from the value of a key on. *)
Lemma segments_values v l :
  Forall (fun kv => Forall plain kv.1) l ->
  exists s ss, segments [] (escape_cef_extension v ++ (match l with [] => [] | _ => [32] ++ join [32] (show_pair <$> l) end)) = s :: ss
  /\ forall k, pairs k (s :: ss) = (k, v) :: l.
Proof.
  revert v. induction l as [|[k' v'] l IH]; intros v Hl.
  - rewrite app_nil_r, <- (app_nil_r (escape_cef_extension v)), segments_escaped. cbn. eexists _, _. split; [done|].
    intros k. cbn. by rewrite unescape_escaped.
  - apply Forall_cons in Hl as [Hk Hl]. cbn [fst] in Hk. rewrite segments_escaped. cbn [app]. rewrite segments_space.
    assert (E : join [32] (show_pair <$> (k', v') :: l)
                = k' ++ 61 :: escape_cef_extension v' ++ match l with [] => [] | _ => [32] ++ join [32] (show_pair <$> l) end).
    { destruct l as [|kv l]; cbn [fmap list_fmap join]; unfold show_pair at 1; cbn [fst snd app].
      - by rewrite app_nil_r.
      - by rewrite <- app_assoc. }
    rewrite E, segments_plain, segments_sign by done. destruct (IH v' Hl) as (s & ss & -> & Hp).
    eexists _, _. split; [done|]. intros k. cbn [pairs]. rewrite <- !app_assoc. rewrite last_space_key by done.
    rewrite unescape_escaped. f_equal. apply Hp.
Qed.

Lemma read_extension_shown l :
  Forall (fun kv => Forall plain kv.1) l -> read_extension (join [32] (show_pair <$> l)) = l.
Proof.
  destruct l as [|[k v] l]; [done|]. intros [Hk Hl]%Forall_cons. cbn [fst] in Hk. unfold read_extension.
  assert (E : join [32] (show_pair <$> (k, v) :: l)
              = k ++ 61 :: escape_cef_extension v ++ match l with [] => [] | _ => [32] ++ join [32] (show_pair <$> l) end).
  { destruct l as [|kv l]; cbn [fmap list_fmap join]; unfold show_pair at 1; cbn [fst snd app].
    - by rewrite app_nil_r.
    - by rewrite <- app_assoc. }
  rewrite E, segments_plain, segments_sign by done. destruct (segments_values v l Hl) as (s & ss & -> & Hp). apply Hp.
Qed.

(** *** The fields of a record *)

Lemma insert_keys_plain k x (m : list (rstr * rstr)) :
  Forall plain k -> Forall (fun kv => Forall plain kv.1) m -> Forall (fun kv => Forall plain kv.1) (BTree.insert k x m).
Proof.
  intros Hk. induction m as [|[k' x'] m IH]; cbn; [by repeat constructor|]. intros [H1 H2]%Forall_cons.
  destruct (BTree.cmp k k'); repeat constructor; auto.
Qed.

Lemma or_insert_plain key v m :
  Forall plain (Str.lit key) -> Forall (fun kv => Forall plain kv.1) m -> Forall (fun kv => Forall plain kv.1) (or_insert key v m).
Proof.
  intros Hk Hm. unfold or_insert. destruct v as [v|]; [|done]. destruct (BTree.get _ m); [done|]. by apply insert_keys_plain.
Qed.

Lemma extensions_plain v : Forall (fun kv => Forall plain kv.1) (cef_extensions v).
Proof.
  unfold cef_extensions. destruct (as_object v) as [object|]; [|constructor].
  set (m := foldl _ [] object).
  assert (Hm : Forall (fun kv => Forall plain kv.1) m).
  { unfold m. assert (H : Forall (fun kv : rstr * rstr => Forall plain kv.1) []) by constructor. revert H.
    generalize (@nil (rstr * rstr)). induction object as [|kv object IH]; intros acc Hacc; [done|]. cbn [foldl].
    apply IH. apply insert_keys_plain; [apply key_plain|done]. }
  assert (Hp : forall key : string, forallb (fun c => negb ((c =? 92) || (c =? 61) || (c =? 32) || (c =? 10) || (c =? 13))) (Str.lit key) = true -> Forall plain (Str.lit key)).
  { intros key H. rewrite List.forallb_forall in H. apply List.Forall_forall. intros c Hc. specialize (H c Hc).
    rewrite negb_true_iff, !orb_false_iff, !Z.eqb_neq in H. unfold plain. tauto. }
  destruct ((BTree.get (Str.lit "info") object ≫= as_str) ≫= from_str) as [[]|];
    repeat (apply or_insert_plain; [by apply Hp|]); done.
Qed.

(** The names of the table are one line each; its numbers are not negative. *)
Lemma events_ok ev :
  ev ∈ EVENTS -> 0 <= event_id ev /\ 0 <= cef_severity ev /\ Forall (fun c => c <> 10 /\ c <> 13) (event_name ev).
Proof.
  intros Hev. assert (H : Forall (fun ev => 0 <= event_id ev /\ 0 <= cef_severity ev /\ Forall (fun c => c <> 10 /\ c <> 13) (event_name ev)) EVENTS)
    by decide_now.
  rewrite Forall_forall in H. by apply H.
Qed.

Lemma header_line s : Forall (fun c => c <> 10 /\ c <> 13) s -> Forall (fun c => c <> 10 /\ c <> 13) (escape_cef_header s).
Proof.
  rewrite escape_header_chars. induction 1 as [|c s Hc _ IH]; [constructor|]. cbn. apply Forall_app. split; [|done].
  unfold esc_header. repeat case_match; by repeat (apply Forall_cons_2 || apply Forall_nil_2).
Qed.

Lemma value_line s : Forall (fun c => c <> 10 /\ c <> 13) (escape_cef_extension s).
Proof.
  rewrite escape_chars. induction s as [|c s IH]; [constructor|]. cbn. apply Forall_app. split; [|done].
  unfold esc. destruct (Z.eqb_spec c 92), (Z.eqb_spec c 61), (Z.eqb_spec c 13), (Z.eqb_spec c 10);
    repeat (apply Forall_cons_2 || apply Forall_nil_2); lia.
Qed.

Lemma extension_line v : Forall (fun c => c <> 10 /\ c <> 13) (join [32] (show_pair <$> cef_extensions v)).
Proof.
  pose proof (extensions_plain v) as H. induction H as [|[k x] l Hk Hl IH]; [constructor|].
  assert (Hp : Forall (fun c => c <> 10 /\ c <> 13) (show_pair (k, x))).
  { unfold show_pair. apply Forall_app. split; [|constructor; [done|apply value_line]].
    apply (Forall_impl _ _ _ Hk). unfold plain. tauto. }
  destruct l as [|kv l]; [done|]. cbn [fmap list_fmap join] in *. apply Forall_app. split; [done|]. constructor; [done|]. exact IH.
Qed.

(** C24 CEF records say what the event says.  Whatever texts an event carries, of the
    controller or of its files, a reader of CEF gets from the record of the event the fields
    of the header and exactly the extension fields of the event with their values: no text
    can end a field, begin another or pass for the header, and the record is one line. *)
Theorem cef_records_are_read_back mc ev v :
  ev ∈ EVENTS -> Forall (fun c => c <> 10 /\ c <> 13) (pkg_version mc) ->
  read_cef (format_cef mc ev v) =
    Some ([Str.lit "CEF:0"; Str.lit "Clanto Services"; EVENT_SOURCE; pkg_version mc; Str.show_nat (event_id ev);
           event_name ev; Str.show_nat (cef_severity ev)], cef_extensions v)
  /\ Forall (fun c => c <> 10 /\ c <> 13) (format_cef mc ev v).
Proof.
  intros Hev Hver. destruct (events_ok ev Hev) as (Hid & Hsev & Hname).
  set (e := join [32] (show_pair <$> cef_extensions v)).
  assert (Hf : format_cef mc ev v = escape_cef_header (Str.lit "CEF:0") ++ 124 :: escape_cef_header (Str.lit "Clanto Services")
    ++ 124 :: escape_cef_header EVENT_SOURCE ++ 124 :: escape_cef_header (pkg_version mc) ++ 124 :: Str.show_nat (event_id ev)
    ++ 124 :: escape_cef_header (event_name ev) ++ 124 :: Str.show_nat (cef_severity ev) ++ 124 :: e) by done.
  rewrite Hf. split.
  - unfold read_cef. cbn [read_fields]. rewrite !read_field_escaped. cbn [mbind option_bind].
    rewrite !read_field_escaped. cbn [mbind option_bind]. rewrite !read_field_escaped. cbn [mbind option_bind].
    rewrite !read_field_escaped. cbn [mbind option_bind]. rewrite read_field_digits by done. cbn [mbind option_bind].
    rewrite read_field_escaped. cbn [mbind option_bind]. rewrite read_field_digits by done. cbn [mbind option_bind].
    unfold e. by rewrite read_extension_shown by apply extensions_plain.
  - assert (Hd : forall z, 0 <= z -> Forall (fun c => c <> 10 /\ c <> 13) (Str.show_nat z)).
    { intros z Hz. destruct (Str.show_nat_spec z Hz) as [H _]. apply (Forall_impl _ _ _ H). intros c.
      unfold Str.is_ascii_digit. rewrite andb_true_iff, !Z.leb_le. lia. }
    assert (Hbar : forall s t, Forall (fun c => c <> 10 /\ c <> 13) s -> Forall (fun c => c <> 10 /\ c <> 13) t ->
      Forall (fun c => c <> 10 /\ c <> 13) (s ++ 124 :: t)) by (intros s t Hs Ht; apply Forall_app; split; [done|by apply Forall_cons_2]).
    repeat (apply Hbar; [first [by apply Hd|by apply header_line|apply header_line; decide_now]|]).
    apply extension_line.
Qed.
End CefReader.

(** ** The end of a session *)

Section Closing.
Context {JT : JsonText}.

Lemma closing_event v : field_is v "action" "close" = true -> event_key (event_definition (Str.lit "conn") v) = ConnectionClosed.
Proof.
  intros H. assert (E : key_of_event (Str.lit "conn") v = ConnectionClosed).
  { unfold key_of_event. change (kind_is (Str.lit "conn") "conn") with true. unfold conn_key.
    assert (field_is v "action" "new" = false) as ->.
    { unfold field_is in *. apply bool_decide_eq_true in H. apply bool_decide_eq_false. by rewrite H. }
    by rewrite H. }
  unfold event_definition. by rewrite E.
Qed.

Lemma closing_closes now v s s' w :
  action_is v "close" = true -> update_record now v s = (s', w) -> closed s' = true /\ exists r, w = Some r /\ closed r = true.
Proof.
  intros Hc. unfold update_record. destruct (set_metadata v s) as [r m]. rewrite Hc. intros [= <- <-].
  assert (closed (close_record now v r) = true) as H by done. split; [|by eexists].
  unfold set_bypasses. by repeat case_match.
Qed.

(** What [on_audit] does with an event of a connection, with the log on. *)
Lemma on_audit_conn opt now v l :
  enabled opt = true ->
  registry (on_audit opt now (Str.lit "conn") v l) = (apply_connection (stamp_text now) v (registry l)).1
  /\ SessionLog.queue (on_audit opt now (Str.lit "conn") v l) =
     SessionLog.queue l ++ match (apply_connection (stamp_text now) v (registry l)).2 with
                           | Some r => [Append (record_value r)] | None => [] end.
Proof.
  intros He. unfold on_audit. rewrite He. cbn [negb].
  set (l1 := cleanup_if_due _ _ _).
  assert (registry l1 = registry l /\ SessionLog.queue l1 = SessionLog.queue l) as [E1 E2].
  { unfold l1, cleanup_if_due. by repeat case_match. }
  clearbody l1. rewrite <- E1, <- E2. clear E1 E2 He l. rewrite bool_decide_eq_true_2 by done. unfold on_connection.
  destruct l1 as [r1 dc lc cl q ch d]. cbn. destruct (apply_connection _ _ _) as [r [w|]]; [done|]. cbn. by rewrite app_nil_r.
Qed.

Lemma on_audit_session opt now v l :
  enabled opt = true ->
  registry (on_audit opt now (Str.lit "session") v l) = registry l
  /\ SessionLog.queue (on_audit opt now (Str.lit "session") v l) = SessionLog.queue l.
Proof.
  intros He. unfold on_audit. rewrite He. cbn [negb].
  set (l1 := cleanup_if_due _ _ _).
  assert (registry l1 = registry l /\ SessionLog.queue l1 = SessionLog.queue l) as [E1 E2].
  { unfold l1, cleanup_if_due. by repeat case_match. }
  by rewrite <- E1, <- E2.
Qed.

Lemma enqueue_queue opts rt kind v s :
  is_Some (current_config opts) -> queue (enqueue opts rt kind v s) = push (event_definition kind v) v (queue s).
Proof.
  intros [config Ec]. unfold enqueue. rewrite Ec. unfold start_worker. by repeat case_match.
Qed.

(** C25 A session that ends is told in full.  When the record of a closing connection is
    emitted, with the session log and the collector configured, the session log gets the
    closed record of the session, the collector gets the closing of the connection and right
    after it the summary of the whole session, and the registry forgets the session: nothing
    of it is left for a connection that gets the same number. *)
Theorem closing_tells_the_session opts now rt conn v l sink s :
  registry_ok (registry l) -> lives conn (registry l) (Open s) ->
  field_is v "action" "close" = true -> value_conn_id v = Some conn ->
  enabled (opts "clanto-session-log-days") = true -> is_Some (current_config opts) ->
  let '(l', sink') := emit_conn opts now rt conn v (l, sink) in
  exists s' r, update_record (stamp_text now) v s = (s', Some r) /\ closed s' = true /\ closed r = true
  /\ lives conn (registry l') Over
  /\ SessionLog.queue l' = SessionLog.queue l ++ [Append (record_value r)]
  /\ exists e1 e2, event_key e1 = ConnectionClosed /\ event_key e2 = SessionCompleted
     /\ queue sink' = push e2 (record_value s') (push e1 v (queue sink)).
Proof.
  intros Hr Hl Hclose Hconn Hen Hcfg.
  assert (Hnew : action_is v "new" = false).
  { unfold field_is in Hclose. apply bool_decide_eq_true in Hclose. unfold action_is. by rewrite Hclose. }
  destruct (update_record (stamp_text now) v s) as [s' w] eqn:Eu.
  destruct (closing_closes _ _ _ _ _ Hclose Eu) as (Hcs & r & -> & Hcr).
  set (op := RConnection (stamp_text now) v).
  assert (Hcon : concerns conn op = true) by (by apply bool_decide_eq_true).
  destruct (lives_own conn op (registry l) (Open s) Hr Hcon) as [Hl1 _]; [cbn; by rewrite Hnew|done|].
  pose proof (apply_op_ok op _ Hr) as Hr1. cbn [op live] in Hl1. rewrite Hnew, Eu, Hcs in Hl1. cbn [fst] in Hl1.
  destruct (on_audit_conn (opts "clanto-session-log-days") now v l Hen) as [Er Eq].
  assert (Ew : (apply_connection (stamp_text now) v (registry l)).2 = Some r).
  { unfold apply_connection. rewrite Hnew, Hconn, (lives_session _ _ _ Hl), Eu. done. }
  rewrite Ew in Eq.
  assert (Er1 : (apply_op op (registry l)).1 = registry (on_audit (opts "clanto-session-log-days") now (Str.lit "conn") v l)).
  { rewrite Er. cbn [op apply_op]. by destruct (apply_connection _ _ _). }
  rewrite Er1 in Hl1, Hr1. destruct (completed_own conn _ _ Hr1 Hl1) as [Hl2 E2]. cbn [live fst snd] in Hl2, E2.
  unfold emit_conn. rewrite Hclose. unfold emit. cbn [fst snd].
  set (l1 := on_audit _ now (Str.lit "conn") v l) in *.
  destruct (completed_session conn (registry l1)) as [c r2]. cbn [fst snd] in *. subst c.
  destruct (on_audit_session (opts "clanto-session-log-days") now (record_value s') (l1 <| registry := r2 |>) Hen) as [E3 E4].
  exists s', r. split_and!; try done.
  - by rewrite E3.
  - by rewrite E4.
  - exists (event_definition (Str.lit "conn") v), (event_definition (Str.lit "session") (record_value s')).
    split_and!; [by apply closing_event|done|]. by rewrite !enqueue_queue.
Qed.
End Closing.

(** ** A collector that works *)

Section Working.
Context {JT : JsonText} {TS : TlsStack}.

(** The network, the collector and the files of TLS do their part. *)
Definition works (config : DeliveryConfig) (io : Io) : Prop :=
  timed_out io = false
  /\ if bool_decide (protocol config = Udp) then udp_ok io = true else cut io = None /\ connect_stream config io = Ok tt.

Lemma send_stream_works config msg conn n io :
  cut io = None -> connect_stream config io = Ok tt ->
  exists conn' n' out, send_stream config msg conn n io = (Ok tt, conn', n', out).
Proof.
  intros Hc Hk. unfold send_stream. rewrite Hc, Hk. destruct conn as [a|]; [case_bool_decide|]; eauto.
Qed.

(** A round of the worker delivers the first record. *)
Lemma round_works opts mc io config s r b :
  current_config opts = Some config -> works config io -> worker_started s = true -> flight s = None ->
  records (queue s) = r :: b -> 0 <= lost (queue s) < 2 ^ 64 ->
  exists s', run [Take; Attempt opts mc io] s = s'
  /\ collect delivered_by [Take; Attempt opts mc io] s = [(r, lost (queue s))]
  /\ worker_started s' = true /\ flight s' = None /\ records (queue s') = b /\ lost (queue s') = 0.
Proof.
  intros Hcfg [Hto Hio] Hw Hf Hr Hl. destruct s as [[rs cap nxt lst] ws fl cn bo st]. cbn in Hw, Hf, Hr, Hl. subst ws fl rs.
  assert (Hfin : Int.sat_subu lst (Int.sat_addu 64 lst 0) = 0) by (unfold Int.sat_subu, Int.sat_addu, Int.umax; lia).
  assert (Hfront : forall c n l, is_front (sequence r) (mkQueue (r :: b) c n l) = true) by (intros; unfold is_front; cbn; by apply bool_decide_eq_true).
  unfold run, collect, delivered_by. cbn [foldl step fst snd app]. unfold take_record. cbn [worker_started flight queue].
  cbn [front records head fmap option_fmap option_map lost]. unfold attempt. cbn [flight]. rewrite Hcfg.
  case_bool_decide as Eu.
  - unfold send_udp. rewrite Hio, Hto. cbn. unfold finish. rewrite Hfront. cbn. rewrite Hfin. by eexists.
  - destruct Hio as [Hc Hk]. destruct (send_stream_works config (format_record mc (event r) (value r) config lst) cn st io Hc Hk) as (conn' & n' & out & E).
    cbn -[send_stream]. rewrite E. cbn. rewrite Hto. cbn. unfold finish. rewrite Hfront. cbn. rewrite Hfin. by eexists.
Qed.

Lemma collect_app {A} (f : Event -> Sink -> list A) a b s : collect f (a ++ b) s = collect f a s ++ collect f b (run a s).
Proof. revert s. induction a as [|ev a IH]; intros s; [done|]. cbn. by rewrite IH, app_assoc. Qed.

Lemma sink_run_app a b s : run (a ++ b) s = run b (run a s).
Proof. unfold run. by rewrite foldl_app. Qed.

(** A collector that works gets everything.  When the worker runs and the network does
    its part, each round delivers the first record that waits: after as many rounds as
    there are records the queue is empty, every one was delivered in its order, and the
    records lost before were reported, so that the counter is back at zero. *)
Theorem working_collector_gets_everything opts mc io config s :
  current_config opts = Some config -> works config io -> worker_started s = true -> flight s = None ->
  0 <= lost (queue s) < 2 ^ 64 ->
  let evs := concat (replicate (length (records (queue s))) [Take; Attempt opts mc io]) in
  records (queue (run evs s)) = [] /\ (collect delivered_by evs s).*1 = records (queue s)
  /\ (records (queue s) <> [] -> lost (queue (run evs s)) = 0 /\ reported (collect delivered_by evs s) = lost (queue s)).
Proof.
  intros Hcfg Hio. set (d := records (queue s)). assert (Hd : records (queue s) = d) by done. clearbody d. revert s Hd.
  induction d as [|r b IH]; intros s Hd Hw Hf Hl; [done|]. cbn [length replicate concat].
  destruct (round_works opts mc io config s r b Hcfg Hio Hw Hf Hd Hl) as (s' & E & Ec & Hw' & Hf' & Hr' & Hl').
  rewrite sink_run_app, collect_app, E, Ec. destruct (IH s' Hr' Hw' Hf') as (H1 & H2 & H3); [lia|].
  split; [done|]. split; [rewrite fmap_app, H2; done|]. intros _.
  unfold reported in *. rewrite foldr_app. destruct b as [|r' b]; [cbn; split; [done|lia]|].
  destruct H3 as [H3 H4]; [done|]. split; [done|]. rewrite H4, Hl'. cbn. lia.
Qed.
End Working.

(** ** Samples *)

Module SinkToy.
Import ToyJson.

(** A PEM file of anything, and any name that is not empty. *)
#[local] Instance toy_tls : TlsStack := {|
  pem_has_certificates := fun pem => bool_decide (pem <> []);
  server_name_is_valid := fun name => bool_decide (name <> []) |}.

Definition obj (l : list (string * Value)) : Value := VObj (BTree.of_list ((fun kv => (Str.lit kv.1, kv.2)) <$> l)).
Definition machine : Machine := mkMachine (Str.lit "2024-05-01T10:00:00.000+02:00") (Str.lit "pc") 77 (Str.lit "1.4.2").

Definition options (l : list (string * string)) : Options := fun key =>
  match List.find (fun kv => bool_decide (kv.1 = key)) l with Some (_, v) => Str.lit v | None => [] end.

Definition tcp : Options :=
  options [("clanto-syslog-enabled", "Y"); ("clanto-syslog-host", "siem"); ("clanto-syslog-protocol", "tcp");
           ("clanto-session-log-days", "30")]%string.
(** TLS, the protocol unless another is set, without a CA. *)
Definition no_ca : Options := options [("clanto-syslog-enabled", "Y"); ("clanto-syslog-host", "siem")]%string.
(** TLS to an IPv6 address, in CEF. *)
Definition tls : Options :=
  options [("clanto-syslog-enabled", "Y"); ("clanto-syslog-host", "[::1]"); ("clanto-syslog-tls-ca", "/ca.pem");
           ("clanto-syslog-format", "CEF")]%string.

Definition good : Io := mkIo true (Some [1]) true None false.
Definition cut_at (n : nat) : Io := mkIo true (Some [1]) true (Some n) false.

Definition wrong_password (n : Z) : Value := obj [("conn_id", VInt n); ("typ", VInt 12)].
Definition say (n : Z) : Event := Enqueue tcp true (Str.lit "alarm") (wrong_password n).

(** Two more records than there is room for, the first being sent meanwhile: it arrives. *)
Definition overrun : list Event :=
  [say 0; Take] ++ ((fun n => say n) <$> seqZ 1 1001) ++ [Attempt tcp machine good; Take; Attempt tcp machine (cut_at 3)].

Lemma records_are_accounted_for_witness :
  Z.of_nat (length overrun) < 2 ^ 64
  /\ lost (queue (run overrun new_sink)) = 1
  /\ length (collect delivered_by overrun new_sink) = 1%nat
  /\ Z.of_nat (length (collect pushed_by overrun new_sink)) =
       Z.of_nat (length (records (queue (run overrun new_sink)))) + Z.of_nat (length (collect delivered_by overrun new_sink))
       + Z.of_nat (length (collect given_up_by overrun new_sink))
       + (lost (queue (run overrun new_sink)) + reported (collect delivered_by overrun new_sink)).
Proof.
  split; [by vm_compute|]. split; [by vm_compute|]. split; [by vm_compute|].
  apply (records_are_accounted_for overrun). by vm_compute.
Defined.

(** A name with an equal sign, a line and a bar of its own. *)
Definition sly : Value := obj [("name", VStr (Str.lit "a src=1|b" ++ [10; 92])); ("ip", VStr (Str.lit "10.0.0.9"))].
Definition file_event : EventDefinition := event_definition (Str.lit "clanto_file_malware") sly.

Lemma cef_records_are_read_back_witness :
  cef_extensions sly = [(Str.lit "name", Str.lit "a src=1|b" ++ [10; 92]); (Str.lit "src", Str.lit "10.0.0.9")]
  /\ read_cef (format_cef machine file_event sly) =
    Some ([Str.lit "CEF:0"; Str.lit "Clanto Services"; EVENT_SOURCE; Str.lit "1.4.2"; Str.show_nat 61160;
           Str.lit "File malware detected"; Str.show_nat 7], cef_extensions sly).
Proof.
  split; [by vm_compute|]. apply (cef_records_are_read_back machine file_event sly); decide_now.
Defined.

Definition opens (c : Z) : Value := obj [("action", VStr (Str.lit "new")); ("conn_id", VInt c); ("ip", VStr [9])].
Definition closes (c : Z) : Value :=
  obj [("action", VStr (Str.lit "close")); ("conn_id", VInt c); ("duration_secs", VInt 42)].
Definition open_session : SessionRecord := default default_record (start [5] (opens 7)).
Abbreviation one_open := (on_audit (Str.lit "30") (mkNow 5 [5]) (Str.lit "conn") (opens 7) (new_log [])).

Lemma one_open_lives : registry_ok (registry one_open) /\ lives 7 (registry one_open) (Open open_session).
Proof.
  destruct (on_audit_conn (Str.lit "30") (mkNow 5 [5]) (opens 7) (new_log []) eq_refl) as [E _].
  pose proof (apply_op_ok (RConnection [5] (opens 7)) empty_registry empty_registry_ok) as H1.
  destruct (lives_own 7 (RConnection [5] (opens 7)) empty_registry Fresh empty_registry_ok) as [H2 _];
    [by vm_compute|done|split; [apply lookup_empty|intros k s; cbn; by rewrite lookup_empty]|].
  assert (E1 : (apply_op (RConnection [5] (opens 7)) empty_registry).1 = registry one_open).
  { rewrite E. cbn [apply_op]. by destruct (apply_connection _ _ _). }
  assert (E2 : (live (RConnection [5] (opens 7)) Fresh).1 = Open open_session) by (by vm_compute).
  rewrite <- E1, <- E2. by split.
Qed.

Lemma closing_tells_the_session_witness :
  enabled (tcp "clanto-session-log-days") = true /\
  (let '(l', sink') := emit_conn tcp (mkNow 50 [50]) true 7 (closes 7) (one_open, new_sink) in
   exists s' r, update_record [50] (closes 7) open_session = (s', Some r) /\ closed s' = true /\ closed r = true
   /\ lives 7 (registry l') Over
   /\ SessionLog.queue l' = SessionLog.queue one_open ++ [Append (record_value r)]
   /\ exists e1 e2, event_key e1 = ConnectionClosed /\ event_key e2 = SessionCompleted
      /\ queue sink' = push e2 (record_value s') (push e1 (closes 7) (queue new_sink))).
Proof.
  split; [by vm_compute|].
  apply (closing_tells_the_session tcp (mkNow 50 [50]) true 7 (closes 7) one_open new_sink open_session);
    [apply one_open_lives|apply one_open_lives|by vm_compute|by vm_compute|by vm_compute|by eexists].
Defined.

(** Three records behind a TLS connection that is not there yet. *)
Definition waiting : Sink :=
  run [Enqueue tls true (Str.lit "alarm") (wrong_password 1); Enqueue tls true (Str.lit "alarm") (wrong_password 2);
       Enqueue tls true (Str.lit "conn") (opens 3)] new_sink.

Lemma working_collector_gets_everything_witness :
  length (records (queue waiting)) = 3%nat /\
  (let evs := concat (replicate (length (records (queue waiting))) [Take; Attempt tls machine good]) in
   records (queue (run evs waiting)) = [] /\ (collect delivered_by evs waiting).*1 = records (queue waiting)
   /\ (records (queue waiting) <> [] -> lost (queue (run evs waiting)) = 0
       /\ reported (collect delivered_by evs waiting) = lost (queue waiting))).
Proof.
  split; [by vm_compute|].
  apply (working_collector_gets_everything tls machine good (delivery_config tls) waiting);
    [by vm_compute|by vm_compute|by vm_compute|by vm_compute|by vm_compute].
Defined.

(** Without a CA each record is given up, and no counter tells: the next record that is
    delivered reports no loss. *)
Definition given_up_run : list Event :=
  [Enqueue no_ca true (Str.lit "alarm") (wrong_password 1); Take; Attempt no_ca machine good;
   say 2; Take; Attempt tcp machine good].

Example given_up_is_not_told :
  (sequence <$> collect given_up_by given_up_run new_sink) = [0]
  /\ (fun d => (sequence d.1, d.2)) <$> collect delivered_by given_up_run new_sink = [(1, 0)].
Proof. split; by vm_compute. Qed.

(** Two keys that differ by punctuation are one field of a CEF record: the later stays. *)
Example keys_can_collide :
  cef_extensions (obj [("a-b", VStr [1]); ("a_b", VStr [2])]) = [(Str.lit "a_b", [2])].
Proof. by vm_compute. Qed.
End SinkToy.
