(* ===== verification/PosixFs.v ===== *)
(** * A file system, as [std::fs] and [tokio::fs] show it on Unix

    Paths are texts; the kernel walks their components from the root or from the
    current directory, through symbolic links.  A key is the list of components of
    a place with no link on the way; an entry is a file (its inode), a directory or
    a link.  The operations are those the components use of the standard library;
    permissions are a predicate on keys.  Moving a directory and the times of
    directories are left out. *)

From S2P Require Import Prelude.

Definition SEP : Z := 47.
Definition DOTDOT : rstr := [46; 46].
Definition DOT : rstr := [46].

(** ** Paths: [std::path::Path] *)

Inductive Component := RootDir | CurDir | ParentDir | Normal (s : rstr).

#[export] Instance Component_eq_dec : EqDecision Component.
Proof. solve_decision. Defined.

Definition is_absolute (p : rstr) : bool := match p with c :: _ => c =? SEP | [] => false end.

(** The pieces that the kernel walks: neither empty nor [.]. *)
Definition kept (c : rstr) : bool := negb (bool_decide (c = [])) && negb (bool_decide (c = DOT)).
Definition pieces (p : rstr) : list rstr := List.filter kept (Str.split (Str.ch SEP) p).

Definition component_of (c : rstr) : Component :=
  if bool_decide (c = DOTDOT) then ParentDir else Normal c.

(** [Path::components]. *)
Definition components (p : rstr) : list Component :=
  let body := component_of <$> pieces p in
  if is_absolute p then RootDir :: body
  else match Str.split (Str.ch SEP) p with
       | first :: _ => if bool_decide (first = DOT) then CurDir :: body else body
       | [] => body
       end.

Definition ends_with_sep (p : rstr) : bool :=
  match last p with Some c => c =? SEP | None => false end.

(** [Path::join] and [PathBuf::push]. *)
Definition join (p name : rstr) : rstr :=
  if is_absolute name then name
  else if bool_decide (p = []) then name
  else if ends_with_sep p then p ++ name
  else p ++ [SEP] ++ name.

(** ** The file system *)

Abbreviation key := (list rstr).
Abbreviation bytes := (list Z).

Inductive Ent := EFile (ino : Z) | EDir | ELink (absolute : bool) (target : list rstr).

#[export] Instance Ent_eq_dec : EqDecision Ent.
Proof. solve_decision. Defined.

(** A file's bytes and its modification time in nanoseconds. *)
Record Inode := mkInode { content : bytes; mtime : Z }.

Record Fs := mkFs { ents : gmap key Ent; inodes : gmap Z Inode; next_ino : Z }.

(** What a walk ends at; a [Broken] one is [ENOENT] when it says so. *)
Inductive Walked := Found (k : key) (e : Ent) | Missing (k : key) | Broken (not_found : bool).

Definition MAX_LINKS : nat := 40.

Fixpoint walk (links : nat) (es : gmap key Ent) (follow : bool) : key -> list rstr -> Walked :=
  fix go (cur : key) (rest : list rstr) : Walked :=
    match rest with
    | [] => Found cur EDir
    | c :: rest' =>
        if bool_decide (c = DOTDOT) then go (removelast cur) rest'
        else
          let k := cur ++ [c] in
          match es !! k with
          | None => match rest' with [] => Missing k | _ => Broken true end
          | Some EDir => go k rest'
          | Some (EFile i) => match rest' with [] => Found k (EFile i) | _ => Broken false end
          | Some (ELink absolute target) =>
              if bool_decide (rest' = []) && negb follow then Found k (ELink absolute target)
              else match links with
                   | O => Broken false
                   | S links => walk links es follow (if absolute then [] else cur) (target ++ rest')
                   end
          end
    end.

Section Fs.
(** The current directory, and where a file may be created or truncated. *)
Context (cwd : key) (can_create : key -> bool).

Definition start_of (p : rstr) : key := if is_absolute p then [] else cwd.

(** A path that ends in [/] or [.] names a directory. *)
Definition names_dir (p : rstr) : bool :=
  match last (Str.split (Str.ch SEP) p) with Some c => negb (kept c) | None => false end.

Definition resolve (fs : Fs) (follow : bool) (p : rstr) : Walked :=
  match p with
  | [] => Broken true
  | _ =>
      let w := walk MAX_LINKS (ents fs) (follow || names_dir p) (start_of p) (pieces p) in
      if names_dir p then
        match w with
        | Found k EDir => w
        | Missing _ => Broken true
        | Found _ _ => Broken false
        | Broken _ => w
        end
      else w
  end.

Definition exists_ (fs : Fs) (p : rstr) : bool :=
  match resolve fs true p with Found _ _ => true | _ => false end.

Definition is_file (fs : Fs) (p : rstr) : option Inode :=
  match resolve fs true p with Found _ (EFile i) => inodes fs !! i | _ => None end.

Definition set_ents (es : gmap key Ent) (fs : Fs) : Fs := mkFs es (inodes fs) (next_ino fs).
Definition set_inode (i : Z) (n : Inode) (fs : Fs) : Fs :=
  mkFs (ents fs) (<[i := n]> (inodes fs)) (next_ino fs).

(** [create_dir_all], whose result the code ignores: a directory for each leading
    part of the path that is not there. *)
Definition mkdir_step (start : key) (ps : list rstr) (fs : Fs) (n : nat) : Fs :=
  match walk MAX_LINKS (ents fs) false start (take n ps) with
  | Missing k => set_ents (<[k := EDir]> (ents fs)) fs
  | _ => fs
  end.
Definition create_dir_all (fs : Fs) (p : rstr) : Fs :=
  foldl (mkdir_step (start_of p) (pieces p)) fs (seq 1 (length (pieces p))).

(** [Path::parent]: all but the last component. *)
Definition parent_pieces (p : rstr) : option (list rstr) :=
  match pieces p with [] => None | ps => Some (removelast ps) end.
Definition create_parent_dirs (fs : Fs) (p : rstr) : Fs :=
  match parent_pieces p with
  | Some ps => foldl (mkdir_step (start_of p) ps) fs (seq 1 (length ps))
  | None => fs
  end.

(** [File::create]: the inode written to. *)
Definition file_create (now : Z) (fs : Fs) (p : rstr) : option (Fs * Z) :=
  match resolve fs true p with
  | Found k (EFile i) =>
      if can_create k then Some (set_inode i (mkInode [] now) fs, i) else None
  | Missing k =>
      if can_create k then
        let i := next_ino fs in
        Some (mkFs (<[k := EFile i]> (ents fs)) (<[i := mkInode [] now]> (inodes fs)) (i + 1), i)
      else None
  | _ => None
  end.

Definition remove_file (fs : Fs) (p : rstr) : option Fs :=
  match resolve fs false p with
  | Found k (EFile _) | Found k (ELink _ _) => Some (set_ents (delete k (ents fs)) fs)
  | _ => None
  end.

Definition is_dir_ent (e : Ent) : bool := match e with EDir => true | _ => false end.

Definition rename (fs : Fs) (p q : rstr) : option Fs :=
  match resolve fs false p, resolve fs false q with
  | Found k e, Found k' e' =>
      if is_dir_ent e || is_dir_ent e' then None
      else if bool_decide (k = k') then Some fs
      else Some (set_ents (<[k' := e]> (delete k (ents fs))) fs)
  | Found k e, Missing k' =>
      if is_dir_ent e then None else Some (set_ents (<[k' := e]> (delete k (ents fs))) fs)
  | _, _ => None
  end.

Definition set_mtime (fs : Fs) (p : rstr) (t : Z) : Fs :=
  match resolve fs true p with
  | Found _ (EFile i) =>
      match inodes fs !! i with
      | Some n => set_inode i (mkInode (content n) t) fs
      | None => fs
      end
  | _ => fs
  end.

(** [std::fs::write]. *)
Definition write_file (now : Z) (fs : Fs) (p : rstr) (data : bytes) : Fs :=
  match file_create now fs p with
  | Some (fs, i) => set_inode i (mkInode data now) fs
  | None => fs
  end.
End Fs.

(** ** Open files: the inode, the position and whether it was opened to write; a
    directory opens but does not read *)

Inductive Handle := HFile (ino : Z) (pos : nat) (writable : bool) | HDir.

#[export] Instance Handle_eq_dec : EqDecision Handle.
Proof. solve_decision. Defined.

Definition file_open (cwd : key) (fs : Fs) (p : rstr) : option Handle :=
  match resolve cwd fs true p with
  | Found _ (EFile i) => Some (HFile i 0 false)
  | Found _ EDir => Some HDir
  | _ => None
  end.

(** [OpenOptions::new().create(true).write(true)] on a file that is there. *)
Definition file_open_write (cwd : key) (fs : Fs) (p : rstr) : option Handle :=
  match resolve cwd fs true p with
  | Found _ (EFile i) => Some (HFile i 0 true)
  | _ => None
  end.

(** Bytes written at a position, past the end after zeroes. *)
Definition write_at (b : bytes) (pos : nat) (data : bytes) : bytes :=
  take pos b ++ replicate (pos - length b) 0 ++ data ++ drop (pos + length data) b.

Definition handle_write (now : Z) (fs : Fs) (h : Handle) (data : bytes) : option (Fs * Handle) :=
  match h with
  | HFile i pos true =>
      match inodes fs !! i with
      | Some n =>
          Some (set_inode i (mkInode (write_at (content n) pos data) now) fs,
                HFile i (pos + length data) true)
      | None => None
      end
  | _ => None
  end.

(** One [read] call, for at most [max] bytes. *)
Definition handle_read (fs : Fs) (h : Handle) (max : nat) : option (bytes * Handle) :=
  match h with
  | HFile i pos false =>
      match inodes fs !! i with
      | Some n =>
          let got := take max (drop pos (content n)) in
          Some (got, HFile i (pos + length got) false)
      | None => None
      end
  | _ => None
  end.

(** [File::seek] from the start. *)
Definition handle_seek (h : Handle) (offset : nat) : option Handle :=
  match h with HFile i _ w => Some (HFile i offset w) | HDir => Some HDir end.

(** The text of [Path::parent], with single separators. *)
Fixpoint render (ps : list rstr) : rstr :=
  match ps with [] => [] | [p] => p | p :: ps => p ++ [SEP] ++ render ps end.
Definition parent_text (p : rstr) : option rstr :=
  match last (components p) with
  | None | Some RootDir => None
  | Some _ => Some ((if is_absolute p then [SEP] else []) ++ render (removelast (pieces p)))
  end.

(** * Specification *)

(** The walk where there is no link and no [..]. *)
Fixpoint straight (es : gmap key Ent) (cur : key) (rest : list rstr) : Walked :=
  match rest with
  | [] => Found cur EDir
  | c :: rest' =>
      let k := cur ++ [c] in
      match es !! k with
      | None => match rest' with [] => Missing k | _ => Broken true end
      | Some EDir => straight es k rest'
      | Some e => match rest' with [] => Found k e | _ => Broken false end
      end
  end.

Definition is_link (e : option Ent) : bool := match e with Some (ELink _ _) => true | _ => false end.

(** No [..] along [rest] and no link on the way from [cur], at its end only if that
    is not followed. *)
Definition passable (follow : bool) (es : gmap key Ent) (cur : key) (rest : list rstr) : Prop :=
  Forall (fun c => c <> DOTDOT) rest
  /\ forall n, (0 < n <= length rest)%nat -> follow = true \/ (n < length rest)%nat ->
       is_link (es !! (cur ++ take n rest)) = false.

(** Every entry is in a directory, and no inode has two names. *)
Definition fs_wf (fs : Fs) : Prop :=
  (forall k c e, ents fs !! (k ++ [c]) = Some e -> k = [] \/ ents fs !! k = Some EDir)
  /\ (forall k k' i, ents fs !! k = Some (EFile i) -> ents fs !! k' = Some (EFile i) -> k = k')
  /\ (forall k i, ents fs !! k = Some (EFile i) -> i < next_ino fs)
  /\ ents fs !! [] = None.

(** * Theorems *)

Lemma walk_unfold links es follow cur c rest :
  walk links es follow cur (c :: rest)
  = if bool_decide (c = DOTDOT) then walk links es follow (removelast cur) rest
    else
      let k := cur ++ [c] in
      match es !! k with
      | None => match rest with [] => Missing k | _ => Broken true end
      | Some EDir => walk links es follow k rest
      | Some (EFile i) => match rest with [] => Found k (EFile i) | _ => Broken false end
      | Some (ELink absolute target) =>
          if bool_decide (rest = []) && negb follow then Found k (ELink absolute target)
          else match links with
               | O => Broken false
               | S links => walk links es follow (if absolute then [] else cur) (target ++ rest)
               end
      end.
Proof. by destruct links. Qed.

Lemma walk_nil links es follow cur : walk links es follow cur [] = Found cur EDir.
Proof. by destruct links. Qed.

Lemma passable_cons follow es cur c rest :
  passable follow es cur (c :: rest) ->
  c <> DOTDOT /\ (follow = true \/ rest <> [] -> is_link (es !! (cur ++ [c])) = false)
  /\ passable follow es (cur ++ [c]) rest.
Proof.
  intros [Hd Hl]. apply Forall_cons in Hd as [Hc Hd]. split; [done|]. split.
  - intros Hf. apply (Hl 1%nat); [simpl; lia|]. destruct Hf as [?|Hr]; [by left|right].
    destruct rest; [done|]. simpl. lia.
  - split; [done|]. intros n Hn Hf. rewrite <- app_assoc. apply (Hl (S n)); simpl; [lia|].
    destruct Hf; [by left|right; lia].
Qed.

Lemma walk_passable links es follow cur rest :
  passable follow es cur rest -> walk links es follow cur rest = straight es cur rest.
Proof.
  revert cur. induction rest as [|c rest IH]; intros cur Hc; [by rewrite walk_nil|].
  apply passable_cons in Hc as (Hd & Hl & Hc). rewrite walk_unfold, bool_decide_eq_false_2 by done.
  cbn [straight]. destruct (es !! (cur ++ [c])) as [[i| |a t]|] eqn:E; try done; [by apply IH|].
  case_bool_decide as Er; cbn [andb].
  - subst rest. destruct follow; cbn [negb]; [|done]. by discriminate Hl; left.
  - by discriminate Hl; right.
Qed.

(** A walk through a directory goes on from where the directory is. *)
Lemma walk_app links es follow cur a k b :
  walk links es true cur a = Found k EDir -> b <> [] -> passable follow es k b ->
  walk links es follow cur (a ++ b) = straight es k b.
Proof.
  revert cur a. induction links as [|links IHl]; intros cur a;
    revert cur; induction a as [|c a IHa]; intros cur; rewrite ?walk_nil.
  - intros [= <-] Hb Hc. by apply walk_passable.
  - rewrite <- app_comm_cons, !walk_unfold. case_bool_decide; [apply IHa|]. cbv zeta.
    destruct (es !! (cur ++ [c])) as [[i| |ab t]|]; [by destruct a|by apply IHa| |by destruct a].
    rewrite andb_false_r. done.
  - intros [= <-] Hb Hc. by apply walk_passable.
  - rewrite <- app_comm_cons, !walk_unfold. case_bool_decide; [apply IHa|]. cbv zeta.
    destruct (es !! (cur ++ [c])) as [[i| |ab t]|]; [by destruct a|by apply IHa| |by destruct a].
    rewrite andb_false_r. intros Hw Hb Hc.
    rewrite bool_decide_eq_false_2 by (intros [_ ?]%app_eq_nil; done). cbn [andb].
    rewrite app_assoc. by apply IHl.
Qed.

Lemma straight_cases es cur rest :
  match straight es cur rest with
  | Found k e =>
      k = cur ++ rest
      /\ (rest <> [] -> es !! k = Some e) /\ (rest = [] -> e = EDir)
  | Missing k =>
      k = cur ++ rest /\ es !! k = None
      /\ exists p c, rest = p ++ [c] /\ (p = [] \/ es !! (cur ++ p) = Some EDir)
  | Broken _ => True
  end.
Proof.
  revert cur. induction rest as [|c rest IH]; intros cur; cbn [straight];
    [by rewrite app_nil_r; repeat split; intros|].
  assert (forall r : list rstr, cur ++ c :: r = (cur ++ [c]) ++ r) as E by (intros; by rewrite <- app_assoc).
  destruct (es !! (cur ++ [c])) as [[i| |a t]|] eqn:Ee.
  - destruct rest; [|done]. repeat split; [by intros|done].
  - specialize (IH (cur ++ [c])). rewrite (E rest). destruct (straight es (cur ++ [c]) rest) as [k e|k|]; [| |done].
    + destruct IH as (-> & H1 & H2). split; [done|]. split; [|done]. intros _.
      destruct (decide (rest = [])) as [->|Hr]; [|by apply H1].
      rewrite app_nil_r, Ee. f_equal. symmetry. by apply H2.
    + destruct IH as (-> & H1 & p & d & -> & H2). split; [done|]. split; [done|].
      exists (c :: p), d. split; [done|]. right. rewrite (E p). destruct H2 as [->|H2]; [|done].
      by rewrite app_nil_r.
  - destruct rest; [|done]. repeat split; [by intros|done].
  - destruct rest; [|done]. split; [done|]. split; [done|]. exists [], c. split; [done|by left].
Qed.

(** Where there are directories on the whole way. *)
Lemma straight_dirs es cur ds :
  ds <> [] -> (forall n, (0 < n < length ds)%nat -> es !! (cur ++ take n ds) = Some EDir) ->
  straight es cur ds
  = match es !! (cur ++ ds) with Some e => Found (cur ++ ds) e | None => Missing (cur ++ ds) end.
Proof.
  revert cur. induction ds as [|c ds IH]; intros cur Hd Hp; [done|]. cbn [straight].
  assert (cur ++ c :: ds = (cur ++ [c]) ++ ds) as Ea by by rewrite <- app_assoc.
  destruct (decide (ds = [])) as [->|Hne].
  - destruct (es !! (cur ++ [c])) as [[]|]; done.
  - pose proof (Hp 1%nat ltac:(destruct ds; simpl; [done|lia])) as H1.
    change (take 1 (c :: ds)) with [c] in H1. rewrite H1, Ea. apply IH; [done|].
    intros n Hn. rewrite <- app_assoc. apply (Hp (S n)). simpl. lia.
Qed.

(** ** Texts and their pieces *)

Lemma split_sep_app (p : Z -> bool) a b c :
  p c = true -> Str.split p (a ++ c :: b) = Str.split p a ++ Str.split p b.
Proof.
  intros Hc. induction a as [|x a IH]; simpl; [by rewrite Hc|].
  destruct (p x); [by rewrite IH|]. rewrite IH.
  pose proof (Str.split_nonempty p a). by destruct (Str.split p a).
Qed.

Lemma pieces_sep a b : pieces (a ++ SEP :: b) = pieces a ++ pieces b.
Proof. unfold pieces. by rewrite split_sep_app, List.filter_app. Qed.

Lemma ends_with_sep_inv p : ends_with_sep p = true -> exists p', p = p' ++ [SEP].
Proof.
  unfold ends_with_sep. destruct (last p) as [c|] eqn:E; [|done].
  intros ->%Z.eqb_eq. apply last_Some in E as [p' ->]. eauto.
Qed.

Lemma pieces_join p name : is_absolute name = false -> pieces (join p name) = pieces p ++ pieces name.
Proof.
  intros Ha. unfold join. rewrite Ha. case_bool_decide as E; [by subst|].
  destruct (ends_with_sep p) eqn:Es.
  - apply ends_with_sep_inv in Es as [p' ->]. rewrite <- app_assoc. cbn [app].
    rewrite !pieces_sep. cbn. by rewrite app_nil_r.
  - cbn [app]. by rewrite pieces_sep.
Qed.

Lemma is_absolute_join p name : is_absolute name = false -> is_absolute (join p name) = is_absolute p.
Proof.
  intros Ha. unfold join. rewrite Ha. case_bool_decide as E; [by subst|].
  destruct p; [done|]. by destruct (ends_with_sep _).
Qed.

Lemma join_app p name s :
  name <> [] -> join p (name ++ s) = join p name ++ s.
Proof.
  intros Hn. unfold join. destruct name as [|c n]; [done|]. cbn [app is_absolute].
  destruct (c =? SEP); [done|]. case_bool_decide; [done|].
  destruct (ends_with_sep p); by rewrite <- ?app_assoc.
Qed.

(** A suffix with no separator goes to the last piece. *)
Lemma split_suffix (p : Z -> bool) a s :
  Forall (fun c => p c = false) s ->
  exists i l, Str.split p a = i ++ [l] /\ Str.split p (a ++ s) = i ++ [l ++ s].
Proof.
  intros Hs. induction a as [|x a (i & l & IH1 & IH2)]; simpl.
  - exists [], []. split; [done|]. induction Hs as [|c s Hc _ IH]; [done|]. simpl.
    rewrite Hc. by rewrite IH.
  - rewrite IH1, IH2. destruct (p x).
    + by exists ([] :: i), l.
    + destruct i as [|y i]; [by exists [], (x :: l)|by exists ((x :: y) :: i), l].
Qed.

(** The pieces of a name with a suffix: those of the name but the last, which takes
    the suffix (or [.] and the empty text do). *)
Lemma pieces_suffix name s :
  Forall (fun c => Str.ch SEP c = false) s -> (2 <= length s)%nat ->
  exists i l, pieces (name ++ s) = i ++ [l ++ s] /\ (pieces name = i \/ pieces name = i ++ [l]).
Proof.
  intros Hs Hl. destruct (split_suffix _ name _ Hs) as (i & l & E1 & E2).
  exists (List.filter kept i), l. unfold pieces. rewrite E1, E2, !List.filter_app. cbn [List.filter].
  assert (kept (l ++ s) = true) as ->.
  { unfold kept. rewrite andb_true_iff, !negb_true_iff, !bool_decide_eq_false. split.
    - intros E%(f_equal length). rewrite length_app in E. simpl in E. lia.
    - intros E%(f_equal length). rewrite length_app in E. change (length DOT) with 1%nat in E. lia. }
  split; [done|]. destruct (kept l); [by right|left]. by rewrite app_nil_r.
Qed.

Lemma pieces_kept p : Forall (fun c => c <> [] /\ Forall (fun x => Str.ch SEP x = false) c) (pieces p).
Proof.
  unfold pieces. pose proof (Str.split_no_sep (Str.ch SEP) p) as H.
  rewrite !List.Forall_forall in *. intros c [Hc Hk]%filter_In. split; [|by apply H].
  unfold kept in Hk. apply andb_true_iff in Hk as [Hk _].
  by apply negb_true_iff, bool_decide_eq_false in Hk.
Qed.

(** ** What the walk of a name below a directory finds *)

Definition under (b k : key) : Prop := exists c r, k = b ++ c :: r.

Lemma under_app (b r : key) : r <> [] -> under b (b ++ r).
Proof. destruct r as [|c r]; [done|]. intros _. by exists c, r. Qed.

Lemma under_not_self b : ~ under b b.
Proof.
  intros (c & r & E%(f_equal length)). rewrite length_app in E. simpl in E. lia.
Qed.

(** The base directory: [p] leads to the directory at [b] whatever is below it. *)
Definition base_at (cwd : key) (p : rstr) (b : key) (fs : Fs) : Prop :=
  (b = [] \/ ents fs !! b = Some EDir)
  /\ forall es, (forall k, ~ under b k -> es !! k = ents fs !! k) ->
    walk MAX_LINKS es true (start_of cwd p) (pieces p) = Found b EDir.

Lemma resolve_below cwd fs follow base b text ds :
  base_at cwd base b fs -> text <> [] ->
  start_of cwd text = start_of cwd base -> pieces text = pieces base ++ ds ->
  ds <> [] -> passable (follow || names_dir text) (ents fs) b ds ->
  resolve cwd fs follow text
  = let w := straight (ents fs) b ds in
    if names_dir text then
      match w with
      | Found k EDir => w
      | Missing _ => Broken true
      | Found _ _ => Broken false
      | Broken _ => w
      end
    else w.
Proof.
  intros Hb Ht Es Ep Hds Hp. unfold resolve. destruct text as [|c text]; [done|].
  rewrite Es, Ep. rewrite (walk_app _ _ _ _ _ b); [done|by apply (proj2 Hb)|done|done].
Qed.

(** A walk that ends at [b ++ ds], at an entry or in a directory that could take one. *)
Definition lands (fs : Fs) (k : key) (w : Walked) : Prop :=
  match w with
  | Found k' e => k' = k /\ ents fs !! k = Some e
  | Missing k' =>
      k' = k /\ ents fs !! k = None
      /\ forall p c, k = p ++ [c] -> p = [] \/ ents fs !! p = Some EDir
  | Broken _ => True
  end.

Lemma resolve_below_lands cwd fs follow base b text ds :
  base_at cwd base b fs -> text <> [] ->
  start_of cwd text = start_of cwd base -> pieces text = pieces base ++ ds ->
  ds <> [] -> passable (follow || names_dir text) (ents fs) b ds ->
  lands fs (b ++ ds) (resolve cwd fs follow text).
Proof.
  intros Hb Ht Es Ep Hds Hp. rewrite (resolve_below _ _ _ _ b _ ds) by done. cbv zeta.
  pose proof (straight_cases (ents fs) b ds) as Hc.
  destruct (straight _ _ _) as [k e|k|]; destruct (names_dir text); try done.
  - destruct e; try done. destruct Hc as (-> & H & _). split; auto.
  - destruct Hc as (-> & H & _). split; auto.
  - destruct Hc as (-> & Hn & q & d & -> & Hq). split; [done|]. split; [done|].
    intros p c. rewrite app_assoc. intros [<- _]%app_inj_tail.
    destruct Hq as [->|Hq]; [|by right]. rewrite app_nil_r. by destruct Hb.
Qed.

(** ** Changes kept below a directory *)

Definition no_new_links (fs fs' : Fs) : Prop :=
  forall k a t, ents fs' !! k = Some (ELink a t) -> ents fs !! k = Some (ELink a t).

(** An inode that no name outside [b] leads to. *)
Definition inside (b : key) (fs : Fs) (i : Z) : Prop :=
  i < next_ino fs /\ forall k, ents fs !! k = Some (EFile i) -> under b k.

Record confined (b : key) (fs fs' : Fs) : Prop := {
  co_ents : forall k, ~ under b k -> ents fs' !! k = ents fs !! k;
  co_inodes : forall k i, ~ under b k -> ents fs !! k = Some (EFile i) ->
    inodes fs' !! i = inodes fs !! i;
  co_links : no_new_links fs fs';
  co_next : next_ino fs <= next_ino fs';
  co_inside : forall i, inside b fs i -> inside b fs' i;
  co_wf : fs_wf fs -> fs_wf fs' }.

Lemma confined_refl b fs : confined b fs fs.
Proof. split; [done|done|by intros ?|lia|done|done]. Qed.

Lemma confined_trans b fs1 fs2 fs3 :
  confined b fs1 fs2 -> confined b fs2 fs3 -> confined b fs1 fs3.
Proof.
  intros [E1 I1 L1 N1 S1 W1] [E2 I2 L2 N2 S2 W2]. split; [| | | lia | |]; auto.
  - intros k Hk. by rewrite E2, E1.
  - intros k i Hk Hi. rewrite (I2 k i), (I1 k i); auto. by rewrite E1.
  - intros k a t H. by apply L1, L2.
Qed.

Lemma base_at_confined cwd p b fs fs' : confined b fs fs' -> base_at cwd p b fs -> base_at cwd p b fs'.
Proof.
  intros Hc [Hd Hb]. split.
  - rewrite (co_ents _ _ _ Hc); [done|apply under_not_self].
  - intros es Hes. apply Hb. intros k Hk. rewrite Hes by done. by apply (co_ents _ _ _ Hc).
Qed.

Lemma snoc_under (b ds k : key) (c : rstr) :
  b ++ ds = k ++ [c] -> ds <> [] -> exists p, ds = p ++ [c] /\ k = b ++ p.
Proof.
  intros E Hds. destruct ds as [|x ds] using rev_ind; [done|].
  rewrite app_assoc in E. apply app_inj_tail in E as [<- <-]. eauto.
Qed.

(** A directory made where nothing was, in a directory. *)
Lemma confined_mkdir b fs k :
  under b k -> ents fs !! k = None ->
  (forall k' c, k = k' ++ [c] -> k' = [] \/ ents fs !! k' = Some EDir) ->
  confined b fs (set_ents (<[k := EDir]> (ents fs)) fs).
Proof.
  intros Hk Hn Hp. split; cbn.
  - intros k' Hk'. rewrite lookup_insert_ne; [done|]. congruence.
  - done.
  - intros k' a t. cbn. rewrite lookup_insert_Some. intros [[_ ?]|[_ ?]]; [done|done].
  - lia.
  - intros i [Hi Hu]. split; [done|]. intros k'. cbn. rewrite lookup_insert_Some.
    intros [[_ ?]|[_ ?]]; [done|auto].
  - intros (W1 & W2 & W3 & W4). repeat split; cbn.
    + intros k' c e. rewrite !lookup_insert_Some. intros [[E _]|[Hne E]].
      * destruct (Hp _ _ E) as [->|Hd]; [by left|right]. right. split; [|done].
        intros ->. congruence.
      * destruct (W1 _ _ _ E) as [->|Hd]; [by left|right].
        destruct (decide (k = k')) as [->|]; [by left|by right].
    + intros k1 k2 i. rewrite !lookup_insert_Some. intros [[_ ?]|[_ H1]] [[_ ?]|[_ H2]]; try done.
      by apply (W2 k1 k2 i).
    + intros k' i. rewrite lookup_insert_Some. intros [[_ ?]|[_ ?]]; [done|eauto].
    + destruct Hk as (c & r & ->). rewrite lookup_insert_ne; [done|]. by intros [_ ?]%app_eq_nil.
Qed.

Lemma confined_set_inode b fs i n : inside b fs i -> confined b fs (set_inode i n fs).
Proof.
  intros [Hi Hu]. split; cbn; [done| |by intros ?|lia|done|done].
  intros k j Hk Hj. rewrite lookup_insert_ne; [done|]. intros <-. by apply Hk, Hu.
Qed.

Lemma confined_delete b fs k e :
  under b k -> ents fs !! k = Some e -> is_dir_ent e = false -> fs_wf fs ->
  confined b fs (set_ents (delete k (ents fs)) fs).
Proof.
  intros Hk He Hd Hwf. split; cbn.
  - intros k' Hk'. rewrite lookup_delete_ne; [done|]. congruence.
  - done.
  - intros k' a t. cbn. rewrite lookup_delete_Some. by intros [_ ?].
  - lia.
  - intros i [Hi Hu]. split; [done|]. intros k'. cbn. rewrite lookup_delete_Some.
    intros [_ ?]; auto.
  - intros (W1 & W2 & W3 & W4). repeat split; cbn.
    + intros k' c e'. rewrite !lookup_delete_Some. intros [Hne E].
      destruct (W1 _ _ _ E) as [->|Hd']; [by left|right]. split; [|done].
      intros ->. rewrite He in Hd'. by injection Hd' as ->.
    + intros k1 k2 i. rewrite !lookup_delete_Some. intros [_ H1] [_ H2]. by apply (W2 k1 k2 i).
    + intros k' i. rewrite lookup_delete_Some. intros [_ ?]; eauto.
    + rewrite lookup_delete_None. by right.
Qed.

(** A file moved between two places below [b], over a file or nothing. *)
Lemma confined_move b fs k k' e :
  under b k -> under b k' -> k <> k' -> ents fs !! k = Some e ->
  (forall e', ents fs !! k' = Some e' -> is_dir_ent e' = false) ->
  (forall p c, k' = p ++ [c] -> p = [] \/ ents fs !! p = Some EDir) ->
  (exists i, e = EFile i) ->
  confined b fs (set_ents (<[k' := e]> (delete k (ents fs))) fs).
Proof.
  intros Hk Hk' Hne He He' Hp [i ->]. split; cbn.
  - intros x Hx. rewrite lookup_insert_ne, lookup_delete_ne by congruence. done.
  - done.
  - intros x a t. cbn. rewrite lookup_insert_Some, lookup_delete_Some. intros [[_ ?]|(_ & _ & ?)]; done.
  - lia.
  - intros j [Hj Hu]. split; [done|]. intros x. cbn. rewrite lookup_insert_Some, lookup_delete_Some.
    intros [[<- _]|(_ & _ & ?)]; auto.
  - intros (W1 & W2 & W3 & W4). repeat split; cbn.
    + intros p c e'. rewrite !lookup_insert_Some, !lookup_delete_Some.
      assert (forall q, q = [] \/ ents fs !! q = Some EDir -> q = [] \/ k' = q /\ EFile i = EDir \/
        k' <> q /\ k <> q /\ ents fs !! q = Some EDir) as Hq.
      { intros q [->|Hq]; [by left|right; right]. split; [|split; [|done]].
        - intros ->. by apply He' in Hq.
        - intros ->. congruence. }
      intros [[E _]|(_ & _ & E)]; apply Hq; eauto.
    + intros k1 k2 j. rewrite !lookup_insert_Some, !lookup_delete_Some.
      intros [[<- E1]|(N1 & D1 & E1)] [[<- E2]|(N2 & D2 & E2)]; [done| | |by apply (W2 k1 k2 j)].
      * injection E1 as ->. exfalso. apply D2. by apply (W2 k k2 j).
      * injection E2 as ->. exfalso. apply D1. by apply (W2 k k1 j).
    + intros x j. rewrite lookup_insert_Some, lookup_delete_Some.
      intros [[_ [= <-]]|(_ & _ & ?)]; eauto.
    + destruct Hk' as (c & r & ->). rewrite lookup_insert_ne by (by intros [_ ?]%app_eq_nil).
      rewrite lookup_delete_None. by right.
Qed.

Lemma confined_new_file b fs k n :
  under b k -> ents fs !! k = None -> fs_wf fs ->
  (forall p c, k = p ++ [c] -> p = [] \/ ents fs !! p = Some EDir) ->
  let fs' := mkFs (<[k := EFile (next_ino fs)]> (ents fs)) (<[next_ino fs := n]> (inodes fs))
               (next_ino fs + 1) in
  confined b fs fs' /\ inside b fs' (next_ino fs).
Proof.
  intros Hk Hn Hwf Hp fs'. destruct Hwf as (W1 & W2 & W3 & W4). split; [split; cbn|split; cbn].
  - intros x Hx. rewrite lookup_insert_ne; [done|]. congruence.
  - intros x j Hx Hj. rewrite lookup_insert_ne; [done|]. apply W3 in Hj. lia.
  - intros x a t. cbn. rewrite lookup_insert_Some. intros [[_ ?]|[_ ?]]; done.
  - lia.
  - intros j [Hj Hu]. split; cbn; [lia|]. intros x. rewrite lookup_insert_Some.
    intros [[<- _]|[_ ?]]; auto.
  - intros _. repeat split; cbn.
    + intros p c e. rewrite !lookup_insert_Some. intros [[E _]|[_ E]].
      * destruct (Hp _ _ E) as [->|Hd]; [by left|right]. right. split; [|done]. intros ->. congruence.
      * destruct (W1 _ _ _ E) as [->|Hd]; [by left|right]. right. split; [|done]. intros ->. congruence.
    + intros k1 k2 j. rewrite !lookup_insert_Some. intros [[<- E1]|[N1 E1]] [[<- E2]|[N2 E2]]; [done| | |].
      * injection E1 as <-. apply W3 in E2. lia.
      * injection E2 as <-. apply W3 in E1. lia.
      * by apply (W2 k1 k2 j).
    + intros x j. rewrite lookup_insert_Some. intros [[_ [= <-]]|[_ E]]; [lia|]. apply W3 in E. lia.
    + destruct Hk as (c & r & ->). by rewrite lookup_insert_ne by (by intros [_ ?]%app_eq_nil).
  - lia.
  - intros x. rewrite lookup_insert_Some. intros [[<- _]|[_ E]]; [done|]. apply W3 in E. lia.
Qed.

(** ** The operations, at a place below [b] *)

Section Ops.
Context (cwd : key) (can_create : key -> bool) (now : Z) (b : key).

Lemma inside_at fs k i : fs_wf fs -> under b k -> ents fs !! k = Some (EFile i) -> inside b fs i.
Proof.
  intros (W1 & W2 & W3 & W4) Hk E. split; [eauto|]. intros k' E'. by rewrite (W2 _ _ _ E' E).
Qed.

Lemma file_create_confined fs p k fs' i :
  fs_wf fs -> under b k -> lands fs k (resolve cwd fs true p) ->
  file_create cwd can_create now fs p = Some (fs', i) ->
  confined b fs fs' /\ inside b fs' i.
Proof.
  intros Hwf Hk Hl. unfold file_create.
  destruct (resolve cwd fs true p) as [k' [j| |]|k'|]; try done; cbn [lands] in Hl.
  - destruct Hl as [-> E]. destruct (can_create k); [|done]. intros [= <- <-].
    pose proof (inside_at _ _ _ Hwf Hk E) as Hi. pose proof (confined_set_inode b fs j (mkInode [] now) Hi) as Hc.
    split; [done|]. by apply (co_inside _ _ _ Hc).
  - destruct Hl as (-> & E & Hp). destruct (can_create k); [|done]. intros [= <- <-].
    by apply confined_new_file.
Qed.

Lemma remove_file_confined fs p k fs' :
  fs_wf fs -> under b k -> lands fs k (resolve cwd fs false p) ->
  remove_file cwd fs p = Some fs' -> confined b fs fs'.
Proof.
  intros Hwf Hk Hl. unfold remove_file.
  destruct (resolve cwd fs false p) as [k' [j| |]|k'|]; try done; cbn [lands] in Hl;
    destruct Hl as [-> E]; intros [= <-]; by eapply confined_delete.
Qed.

Lemma rename_confined fs p q k k' fs' :
  fs_wf fs -> under b k -> under b k' ->
  lands fs k (resolve cwd fs false p) -> lands fs k' (resolve cwd fs false q) ->
  is_link (ents fs !! k) = false ->
  rename cwd fs p q = Some fs' -> confined b fs fs'.
Proof.
  intros Hwf Hk Hk' Hl Hl' Hnl. unfold rename.
  destruct (resolve cwd fs false p) as [k1 e|k1|]; [|done|done]. cbn [lands] in Hl.
  destruct Hl as [-> E]. rewrite E in Hnl.
  assert (is_dir_ent e = false -> exists i, e = EFile i) as He by (destruct e; [eauto|done|done]).
  destruct (resolve cwd fs false q) as [k2 e'|k2|]; [| |done]; cbn [lands] in Hl'.
  - destruct Hl' as [-> E']. destruct (is_dir_ent e) eqn:Ed; [done|].
    destruct (is_dir_ent e') eqn:Ed'; [done|]. cbn [orb]. case_bool_decide as Ek.
    + intros [= <-]. apply confined_refl.
    + intros [= <-]. apply confined_move; auto; [congruence|].
      destruct Hwf as (W1 & _). intros r c ->. by eapply W1.
  - destruct Hl' as (-> & E' & Hp). destruct (is_dir_ent e) eqn:Ed; [done|]. intros [= <-].
    apply confined_move; auto; congruence.
Qed.

Lemma set_mtime_confined fs p k t :
  fs_wf fs -> under b k -> lands fs k (resolve cwd fs true p) ->
  confined b fs (set_mtime cwd fs p t).
Proof.
  intros Hwf Hk Hl. unfold set_mtime.
  destruct (resolve cwd fs true p) as [k' [j| |]|k'|]; try apply confined_refl. cbn [lands] in Hl.
  destruct Hl as [-> E]. destruct (inodes fs !! j); [|apply confined_refl].
  apply confined_set_inode. by eapply inside_at.
Qed.

Lemma write_file_confined fs p k data :
  fs_wf fs -> under b k -> lands fs k (resolve cwd fs true p) ->
  confined b fs (write_file cwd can_create now fs p data).
Proof.
  intros Hwf Hk Hl. unfold write_file. destruct (file_create _ _ _ _ _) as [[fs' i]|] eqn:E.
  - apply (file_create_confined _ _ k) in E as [Hc Hi]; try done.
    eapply confined_trans; [done|]. by apply confined_set_inode.
  - apply confined_refl.
Qed.

Lemma handle_write_confined fs i pos data fs' h :
  inside b fs i -> handle_write now fs (HFile i pos true) data = Some (fs', h) ->
  confined b fs fs' /\ exists pos', h = HFile i pos' true.
Proof.
  intros Hi. unfold handle_write. destruct (inodes fs !! i); [|done]. intros [= <- <-].
  split; [by apply confined_set_inode|eauto].
Qed.

Lemma file_open_inside fs p k i pos w :
  fs_wf fs -> under b k -> lands fs k (resolve cwd fs true p) ->
  file_open cwd fs p = Some (HFile i pos w) \/ file_open_write cwd fs p = Some (HFile i pos w) ->
  inside b fs i.
Proof.
  intros Hwf Hk Hl. unfold file_open, file_open_write.
  destruct (resolve cwd fs true p) as [k' [j| |]|k'|]; try (by intros [|]). cbn [lands] in Hl.
  destruct Hl as [-> E]. intros [[= <- _ _]|[= <- _ _]]; by eapply inside_at.
Qed.

(** A part of the way to an existing directory leads to something. *)
Lemma walk_prefix links es cur a r k :
  walk links es true cur (a ++ r) = Found k EDir ->
  exists k' e, walk links es false cur a = Found k' e.
Proof.
  revert cur a. induction links as [|links IHl]; intros cur a; revert cur;
    induction a as [|c a IHa]; intros cur; rewrite ?walk_nil; eauto;
    rewrite <- app_comm_cons, !walk_unfold; (case_bool_decide; [apply IHa|]); cbv zeta;
    (destruct (es !! (cur ++ [c])) as [[i| |ab t]|];
      [by destruct (a ++ r)|apply IHa| |by destruct (a ++ r)]);
    rewrite andb_false_r.
  - done.
  - intros Hw. case_bool_decide; cbn [negb andb]; [eauto|]. apply (IHl _ (t ++ a)).
    by rewrite <- app_assoc.
Qed.

Lemma is_link_confined fs fs' k :
  confined b fs fs' -> is_link (ents fs !! k) = false -> is_link (ents fs' !! k) = false.
Proof.
  intros Hc Hl. destruct (ents fs' !! k) as [[| |a t]|] eqn:E; try done.
  apply (co_links _ _ _ Hc) in E. by rewrite E in Hl.
Qed.

Lemma passable_confined fs fs' follow cur ds :
  confined b fs fs' -> passable follow (ents fs) cur ds -> passable follow (ents fs') cur ds.
Proof. intros Hc [Hd Hl]. split; [done|]. intros n Hn Hf. eapply is_link_confined; eauto. Qed.

Lemma passable_take follow es cur ds m :
  (m < length ds)%nat -> passable false es cur ds -> passable follow es cur (take m ds).
Proof.
  intros Hm [Hd Hl]. split; [by apply Forall_take|]. rewrite length_take. intros n Hn _.
  rewrite take_take, Nat.min_l by lia. apply Hl; [lia|]. right. lia.
Qed.

Lemma mkdir_step_confined base ds fs n :
  base_at cwd base b fs -> passable false (ents fs) b ds ->
  confined b fs (mkdir_step (start_of cwd base) (pieces base ++ ds) fs n).
Proof.
  intros [Hbd Hb] Hp. specialize (Hb (ents fs) ltac:(done)). unfold mkdir_step.
  destruct (decide (n <= length (pieces base))%nat) as [Hn|Hn].
  - rewrite take_app_le by done. pose proof Hb as Hb'.
    rewrite <- (take_drop n (pieces base)) in Hb'.
    apply walk_prefix in Hb' as (k' & e & ->). apply confined_refl.
  - rewrite take_app_ge by lia. set (m := (n - length (pieces base))%nat).
    assert (passable false (ents fs) b (take m ds)) as Hpm.
    { destruct (decide (m < length ds)%nat); [by apply passable_take|]. by rewrite take_ge by lia. }
    destruct (decide (take m ds = [])) as [E|Hne].
    + rewrite E, app_nil_r. pose proof Hb as Hb'. rewrite <- (app_nil_r (pieces base)) in Hb'.
      apply walk_prefix in Hb' as (k' & e & ->). apply confined_refl.
    + rewrite (walk_app _ _ _ _ _ b) by done. pose proof (straight_cases (ents fs) b (take m ds)) as Hc.
      destruct (straight _ _ _) as [|k|]; try apply confined_refl.
      destruct Hc as (-> & Hn' & q & d & E & Hq). apply confined_mkdir; [by apply under_app|done|].
      rewrite E. intros p c. rewrite app_assoc. intros [<- _]%app_inj_tail.
      destruct Hq as [->|Hq]; [rewrite app_nil_r; done|by right].
Qed.

(** Directories made on the way to a place below [b] all lie below [b]. *)
Lemma mkdirs_confined base ds fs ns :
  base_at cwd base b fs -> passable false (ents fs) b ds ->
  confined b fs (foldl (mkdir_step (start_of cwd base) (pieces base ++ ds)) fs ns).
Proof.
  intros Hb Hp. revert fs Hb Hp. induction ns as [|n ns IH]; intros fs Hb Hp; [apply confined_refl|].
  simpl. pose proof (mkdir_step_confined _ _ _ n Hb Hp) as Hc.
  eapply confined_trans; [done|]. apply IH; [by eapply base_at_confined|by eapply passable_confined].
Qed.
End Ops.
