(* ===== verification/FileTransfer.v ===== *)
(** * File transfers: [src/libs/base/src/fs.rs] and the receiving side of
      [src/src/client/io_loop.rs]

    A job that reads files and sends their blocks, a job that writes the blocks it
    receives, the checks on the names that come from the peer, the digests that
    decide whether a file is overwritten or resumed, and the list of the jobs.  The
    file system is the one of [PosixFs]; every operation of a job that touches it
    passes it along with the job.  Compression, the JSON of the digests and the
    metadata of directories are third-party code (the class [Codec]).  An [i32] is
    signed at width 32, sizes are [u64] and wrap as in a release build; the sender's
    messages are listed in the order in which they are sent. *)

From S2P Require Import Prelude PosixFs.

Inductive Error := Bail (msg : rstr) | Io.

Definition bail {A} (msg : rstr) : result A Error := Err (Bail msg).

#[export] Instance Error_eq_dec : EqDecision Error.
Proof. solve_decision. Defined.

Record FileDigest := mkDigest { dg_size : Z; dg_modified : Z }.

#[export] Instance FileDigest_eq_dec : EqDecision FileDigest.
Proof. solve_decision. Defined.

Class Codec := {
  compress : bytes -> bytes;
  decompress : bytes -> bytes;
  digest_to_string : FileDigest -> bytes;
  digest_from_str : bytes -> option FileDigest;
  dir_metadata : Z * Z }.

Definition text_is (a b : rstr) : bool := bool_decide (a = b).

(** ** The checks on names *)

Definition get_ext (name : rstr) : rstr :=
  match Str.rsplit_once (Str.ch 46) name with Some (_, ext) => ext | None => [] end.

Definition compressed_exts : list rstr :=
  Str.lit <$> ["xz"; "gz"; "zip"; "7z"; "rar"; "bz2"; "tgz"; "png"; "jpg"]%string.

Definition is_compressed_file (name : rstr) : bool :=
  existsb (text_is (get_ext name)) compressed_exts.

Definition has_nul (name : rstr) : bool := existsb (fun b => b =? 0) name.

Definition has_traversal (name : rstr) : bool :=
  existsb (text_is DOTDOT)
    (List.filter (fun s => negb (text_is s [])) (Str.split (Str.ch SEP) name)).

Definition validate_file_name_no_traversal (name : rstr) : result unit Error :=
  if has_nul name then bail (Str.lit "file name contains null bytes")
  else if has_traversal name then bail (Str.lit "path traversal detected in file name")
  else if is_absolute name then bail (Str.lit "absolute path detected in file name")
  else Ok tt.

Record FileEntry := mkEntry { name : rstr; size : Z; modified_time : Z }.

#[export] Instance FileEntry_eq_dec : EqDecision FileEntry.
Proof. solve_decision. Defined.

Fixpoint validate_names (files : list FileEntry) : result unit Error :=
  match files with
  | [] => Ok tt
  | file :: files =>
      if text_is (name file) [] then bail (Str.lit "empty file name in multi-file transfer")
      else match validate_file_name_no_traversal (name file) with
           | Err e => Err e
           | Ok _ => validate_names files
           end
  end.

Definition validate_transfer_file_names (files : list FileEntry) : result unit Error :=
  match files with
  | [file] => if text_is (name file) [] then Ok tt else validate_names files
  | _ => validate_names files
  end.

Definition validate_fs_path_argument (path arg_name : rstr) : result unit Error :=
  if text_is path [] then bail (arg_name ++ Str.lit " cannot be empty")
  else if has_nul path then bail (arg_name ++ Str.lit " contains null bytes")
  else Ok tt.

Section FileTransfer.
Context (cwd : key) (can_create : key -> bool) `{Codec}.

Definition validate_component (fs : Fs) (current : rstr) : result unit Error :=
  match resolve cwd fs false current with
  | Found _ (ELink _ _) => bail (Str.lit "symlink path component is not allowed")
  | Found _ _ | Missing _ | Broken true => Ok tt
  | Broken false => bail (Str.lit "failed to validate path component")
  end.

Fixpoint validate_components (fs : Fs) (current : rstr) (cs : list Component) : result unit Error :=
  match cs with
  | [] => Ok tt
  | Normal seg :: cs =>
      let current := join current seg in
      match validate_component fs current with
      | Err e => Err e
      | Ok _ => validate_components fs current cs
      end
  | CurDir :: cs => validate_components fs current cs
  | _ => bail (Str.lit "invalid file name component")
  end.

Definition validate_no_symlink_components (fs : Fs) (base nm : rstr) : result unit Error :=
  match nm with [] => Ok tt | _ => validate_components fs base (components nm) end.

(** [TransferJob::join]. *)
Definition job_join (p nm : rstr) : rstr := match nm with [] => p | _ => join p nm end.

Definition join_validated_path (fs : Fs) (base nm : rstr) : result rstr Error :=
  match validate_file_name_no_traversal nm with
  | Err e => Err e
  | Ok _ =>
      match validate_no_symlink_components fs base nm with
      | Err e => Err e
      | Ok _ => Ok (job_join base nm)
      end
  end.

Definition dot_download (p : rstr) : rstr := p ++ Str.lit ".download".
Definition dot_digest (p : rstr) : rstr := p ++ Str.lit ".digest".

(** ** A job *)

Inductive JobType := Generic | Printer.

#[export] Instance JobType_eq_dec : EqDecision JobType.
Proof. solve_decision. Defined.

Definition job_type_of (value : Z) : JobType :=
  if value =? 0 then Generic else if value =? 1 then Printer else Generic.

Definition job_type_i32 (t : JobType) : Z := match t with Generic => 0 | Printer => 1 end.

Inductive DataSource := FilePath (p : rstr) | MemoryCursor (data : bytes) (pos : nat).

Inductive DataStream := FileStream (h : Handle) | BufStream (data : bytes) (pos : nat).

Record TransferJob := mkJob {
  id : Z; type : JobType; remote : rstr; data_source : DataSource; show_hidden : bool;
  is_remote : bool; is_last_job : bool; is_resume : bool; file_num : Z;
  files : list FileEntry; conn_id : Z; data_stream : option DataStream;
  total_size : Z; finished_size : Z; transferred : Z;
  enable_overwrite_detection : bool; file_confirmed : bool; file_skipped : bool;
  file_is_waiting : bool; default_overwrite_strategy : option bool; digest : FileDigest }.

(** The fields that the operations assign. *)
Definition with_source v j :=
  mkJob (id j) (type j) (remote j) v (show_hidden j) (is_remote j) (is_last_job j) (is_resume j)
    (file_num j) (files j) (conn_id j) (data_stream j) (total_size j) (finished_size j)
    (transferred j) (enable_overwrite_detection j) (file_confirmed j) (file_skipped j)
    (file_is_waiting j) (default_overwrite_strategy j) (digest j).
Definition with_files_total fs total j :=
  mkJob (id j) (type j) (remote j) (data_source j) (show_hidden j) (is_remote j) (is_last_job j)
    (is_resume j) (file_num j) fs (conn_id j) (data_stream j) total (finished_size j)
    (transferred j) (enable_overwrite_detection j) (file_confirmed j) (file_skipped j)
    (file_is_waiting j) (default_overwrite_strategy j) (digest j).
Definition with_stream num v j :=
  mkJob (id j) (type j) (remote j) (data_source j) (show_hidden j) (is_remote j) (is_last_job j)
    (is_resume j) num (files j) (conn_id j) v (total_size j) (finished_size j)
    (transferred j) (enable_overwrite_detection j) (file_confirmed j) (file_skipped j)
    (file_is_waiting j) (default_overwrite_strategy j) (digest j).
Definition with_counts finished sent j :=
  mkJob (id j) (type j) (remote j) (data_source j) (show_hidden j) (is_remote j) (is_last_job j)
    (is_resume j) (file_num j) (files j) (conn_id j) (data_stream j) (total_size j) finished
    sent (enable_overwrite_detection j) (file_confirmed j) (file_skipped j)
    (file_is_waiting j) (default_overwrite_strategy j) (digest j).
Definition with_flags confirmed skipped waiting j :=
  mkJob (id j) (type j) (remote j) (data_source j) (show_hidden j) (is_remote j) (is_last_job j)
    (is_resume j) (file_num j) (files j) (conn_id j) (data_stream j) (total_size j)
    (finished_size j) (transferred j) (enable_overwrite_detection j) confirmed skipped
    waiting (default_overwrite_strategy j) (digest j).
Definition with_choice strategy dg j :=
  mkJob (id j) (type j) (remote j) (data_source j) (show_hidden j) (is_remote j) (is_last_job j)
    (is_resume j) (file_num j) (files j) (conn_id j) (data_stream j) (total_size j)
    (finished_size j) (transferred j) (enable_overwrite_detection j) (file_confirmed j)
    (file_skipped j) (file_is_waiting j) strategy dg.

Definition set_data_stream v j := with_stream (file_num j) v j.

(** [as usize] of an [i32]. *)
Definition as_usize (z : Z) : Z := Int.wrap 64 z.

Definition entry_at (j : TransferJob) (num : Z) : option FileEntry :=
  let num := as_usize num in
  if num <? Z.of_nat (length (files j)) then files j !! Z.to_nat num else None.

Definition sum_sizes (fs : list FileEntry) : Z := foldl (fun n f => Int.wrap 64 (n + size f)) 0 fs.

Definition new_write (i : Z) (t : JobType) (rem : rstr) (src : DataSource) (num : Z)
    (hidden remote_ detect : bool) : TransferJob :=
  mkJob i t rem src hidden remote_ false false num [] 0 None 0 0 0 detect false false false None
    (mkDigest 0 0).

(** The files are those that [get_recursive_files] lists for the path. *)
Definition new_read (i : Z) (t : JobType) (rem : rstr) (src : DataSource) (num : Z)
    (hidden remote_ detect : bool) (listed : result (list FileEntry) Error)
  : result TransferJob Error :=
  let job fs total :=
    mkJob i t rem src hidden remote_ false false num fs 0 None total 0 0 detect false false false
      None (mkDigest 0 0) in
  match src with
  | FilePath _ => match listed with Ok fs => Ok (job fs (sum_sizes fs)) | Err e => Err e end
  | MemoryCursor data _ => Ok (job [] (Int.wrap 64 (Z.of_nat (length data))))
  end.

Fixpoint validate_entries (fs : Fs) (base : rstr) (files : list FileEntry) : result unit Error :=
  match files with
  | [] => Ok tt
  | file :: files =>
      match validate_no_symlink_components fs base (name file) with
      | Err e => Err e
      | Ok _ => validate_entries fs base files
      end
  end.

Definition set_files (fs : Fs) (fl : list FileEntry) (j : TransferJob) : TransferJob * result unit Error :=
  match validate_transfer_file_names fl with
  | Err e => (j, Err e)
  | Ok _ =>
      match
        match data_source j with
        | FilePath base => validate_entries fs base fl
        | MemoryCursor _ _ => Ok tt
        end
      with
      | Err e => (j, Err e)
      | Ok _ => (with_files_total fl (sum_sizes fl) j, Ok tt)
      end
  end.

Definition with_files (fs : Fs) (fl : list FileEntry) (j : TransferJob) : result TransferJob Error :=
  match set_files fs fl j with
  | (j, Ok _) => Ok j
  | (_, Err e) => Err e
  end.

Definition set_digest (sz modified : Z) (j : TransferJob) : TransferJob :=
  with_choice (default_overwrite_strategy j) (mkDigest sz modified) j.

Definition set_finished_size_on_resume (j : TransferJob) : TransferJob :=
  if is_resume j && (0 <? file_num j) then
    with_counts (sum_sizes (take (Z.to_nat (as_usize (file_num j))) (files j))) (transferred j) j
  else j.

Definition get_buf_data (j : TransferJob) : option bytes :=
  match data_stream j with Some (BufStream data _) => Some data | _ => None end.

Definition resolve_entry_path (fs : Fs) (base nm : rstr) (j : TransferJob) : option rstr :=
  match type j with
  | Generic => result_ok (join_validated_path fs base nm)
  | Printer => Some (job_join base nm)
  end.

(** [let _ = …ok()]: a failure is ignored. *)
Definition or_same (r : option Fs) (fs : Fs) : Fs := default fs r.

(** The path of the current file, where [modify_time] and [remove_download_file] go on. *)
Definition current_path (fs : Fs) (j : TransferJob) : option (FileEntry * rstr) :=
  match type j, data_source j with
  | Generic, FilePath p =>
      entry ← entry_at j (file_num j);
      path ← resolve_entry_path fs p (name entry) j;
      Some (entry, path)
  | _, _ => None
  end.

Definition NANOS : Z := 1000000000.

Definition modify_time (fs : Fs) (j : TransferJob) : Fs :=
  match current_path fs j with
  | None => fs
  | Some (entry, path) =>
      let fs := or_same (remove_file cwd fs (dot_digest path)) fs in
      let fs := or_same (rename cwd fs (dot_download path) path) fs in
      set_mtime cwd fs path (Int.swrap 64 (modified_time entry) * NANOS)
  end.

Definition remove_download_file (fs : Fs) (j : TransferJob) : Fs :=
  match current_path fs j with
  | None => fs
  | Some (entry, path) =>
      let fs := or_same (remove_file cwd fs (dot_download path)) fs in
      or_same (remove_file cwd fs (dot_digest path)) fs
  end.

Record CompletedDownload := mkCompleted { download_path : rstr; final_path : rstr; cd_name : rstr }.

(** [Path::file_name]. *)
Definition file_name (p : rstr) : option rstr :=
  match last (components p) with Some (Normal s) => Some s | _ => None end.

Definition current_download (fs : Fs) (j : TransferJob) : result (option CompletedDownload) Error :=
  match type j, data_stream j, data_source j with
  | Generic, Some _, FilePath base =>
      match entry_at j (file_num j) with
      | None => Ok None
      | Some entry =>
          match join_validated_path fs base (name entry) with
          | Err e => Err e
          | Ok path =>
              Ok (Some (mkCompleted (dot_download path) path
                (if text_is (name entry) [] then default [] (file_name path) else name entry)))
          end
      end
  | _, _, _ => Ok None
  end.

Fixpoint paths_of (fs : Fs) (base : rstr) (fl : list FileEntry) : result (list rstr) Error :=
  match fl with
  | [] => Ok []
  | entry :: fl =>
      match join_validated_path fs base (name entry) with
      | Err e => Err e
      | Ok path =>
          match paths_of fs base fl with
          | Err e => Err e
          | Ok ps => Ok (path :: dot_download path :: ps)
          end
      end
  end.

Definition download_paths (fs : Fs) (j : TransferJob) : result (list rstr) Error :=
  match data_source j with
  | FilePath base => paths_of fs base (files j)
  | MemoryCursor _ _ => Ok []
  end.

Definition drop_current_download_writer (j : TransferJob) : TransferJob := set_data_stream None j.

(** ** Writing the blocks that come *)

Record Block := mkBlock {
  b_id : Z; b_file_num : Z; b_data : bytes; b_compressed : bool }.

#[export] Instance Block_eq_dec : EqDecision Block.
Proof. solve_decision. Defined.

(** [DataStream::write_all]. *)
Definition write_all (now : Z) (fs : Fs) (s : DataStream) (data : bytes) : option (Fs * DataStream) :=
  match s with
  | FileStream h =>
      match handle_write now fs h data with
      | Some (fs, h) => Some (fs, FileStream h)
      | None => None
      end
  | BufStream b pos => Some (fs, BufStream (write_at b pos data) (pos + length data))
  end.

(** The file that a first block opens: nothing is undone when a step fails. *)
Definition open_target (now : Z) (fs : Fs) (path : rstr) (digest_path : option rstr) (j : TransferJob)
  : Fs * TransferJob * result unit Error :=
  match
    match digest_path with
    | Some dp => if exists_ cwd fs dp then remove_file cwd fs dp else Some fs
    | None => Some fs
    end
  with
  | None => (fs, j, Err Io)
  | Some fs =>
      match file_create cwd can_create now fs path with
      | None => (fs, j, Err Io)
      | Some (fs, i) =>
          let fs :=
            match digest_path with
            | Some dp => write_file cwd can_create now fs dp (digest_to_string (digest j))
            | None => fs
            end in
          (fs, set_data_stream (Some (FileStream (HFile i 0 true))) j, Ok tt)
      end
  end.

Definition switch_file (now : Z) (fs : Fs) (p : rstr) (num : Z) (entry : FileEntry) (j : TransferJob)
  : Fs * TransferJob * result unit Error :=
  let fs := modify_time fs j in
  let j := with_stream num (data_stream j) j in
  match type j with
  | Printer => open_target now fs p None j
  | Generic =>
      match join_validated_path fs p (name entry) with
      | Err e => (fs, j, Err e)
      | Ok path =>
          let fs := create_parent_dirs cwd fs path in
          open_target now fs (dot_download path) (Some (dot_digest path)) j
      end
  end.

Definition prepare_write (now : Z) (fs : Fs) (block : Block) (j : TransferJob)
  : Fs * TransferJob * result unit Error :=
  match data_source j with
  | FilePath p =>
      match entry_at j (b_file_num block) with
      | None => (fs, j, bail (Str.lit "Wrong file number"))
      | Some entry =>
          if negb (as_usize (b_file_num block) =? as_usize (file_num j))
             || match data_stream j with None => true | Some _ => false end
          then switch_file now fs p (b_file_num block) entry j
          else (fs, j, Ok tt)
      end
  | MemoryCursor data pos =>
      (fs,
       match data_stream j with
       | None => set_data_stream (Some (BufStream data pos)) j
       | Some _ => j
       end, Ok tt)
  end.

Definition add_counts (finished sent : nat) (j : TransferJob) : TransferJob :=
  with_counts (Int.wrap 64 (finished_size j + Z.of_nat finished))
    (Int.wrap 64 (transferred j + Z.of_nat sent)) j.

Definition write (now : Z) (fs : Fs) (block : Block) (j : TransferJob)
  : Fs * TransferJob * result unit Error :=
  if negb (b_id block =? id j) then (fs, j, bail (Str.lit "Wrong id"))
  else
    match prepare_write now fs block j with
    | (fs, j, Err e) => (fs, j, Err e)
    | (fs, j, Ok _) =>
        let data := if b_compressed block then decompress (b_data block) else b_data block in
        match data_stream j with
        | None =>
            (fs, j, bail (Str.lit (if b_compressed block then "data stream is None" else "file is None")))
        | Some s =>
            match write_all now fs s data with
            | None => (fs, j, Err Io)
            | Some (fs, s) =>
                (fs, add_counts (length data) (length (b_data block)) (set_data_stream (Some s) j), Ok tt)
            end
        end
    end.

(** ** Reading the files and sending their blocks *)

Record Digest := mkFtDigest {
  d_id : Z; d_file_num : Z; d_last_modified : Z; d_file_size : Z; d_is_upload : bool;
  d_is_identical : bool; d_transferred_size : Z; d_is_resume : bool }.

Inductive Message :=
| MDigest (d : Digest)
| MBlock (b : Block)
| MError (id : Z) (err : Error + rstr) (file_num : Z)
| MDone (id file_num : Z).

Definition next_file (j : TransferJob) : TransferJob :=
  with_flags false (file_skipped j) false (with_stream (Int.swrap 32 (file_num j + 1)) None j).

(** [Ok true]: the job is done. *)
Definition open_data_stream (fs : Fs) (j : TransferJob) : TransferJob * result bool Error :=
  match data_source j with
  | FilePath p =>
      match entry_at j (file_num j) with
      | None => (set_data_stream None j, Ok true)
      | Some entry =>
          match data_stream j with
          | Some _ => (j, Ok false)
          | None =>
              match file_open cwd fs (job_join p (name entry)) with
              | Some h =>
                  (with_flags false (file_skipped j) false (set_data_stream (Some (FileStream h)) j),
                   Ok false)
              | None =>
                  (with_flags false (file_skipped j) false
                     (with_stream (Int.swrap 32 (file_num j + 1)) (data_stream j) j), Err Io)
              end
          end
      end
  | MemoryCursor data pos =>
      match data_stream j with
      | Some _ => (j, Ok false)
      | None => (with_source (MemoryCursor [] 0) (set_data_stream (Some (BufStream data pos)) j), Ok false)
      end
  end.

(** Seconds and nanoseconds since 1970: an earlier time is an error. *)
Definition since_epoch (mtime : Z) : option Z := if mtime <? 0 then None else Some mtime.

Definition get_current_digest (fs : Fs) (j : TransferJob) : result (Z * Z) Error :=
  match data_stream j with
  | None => bail (Str.lit "file is None")
  | Some (BufStream _ _) => bail (Str.lit "No digest for buf stream")
  | Some (FileStream h) =>
      let meta :=
        match h with
        | HDir => Some dir_metadata
        | HFile i _ _ =>
            match inodes fs !! i with
            | Some n => Some (mtime n, Z.of_nat (length (content n)))
            | None => None
            end
        end in
      match meta with
      | Some (t, len) => match since_epoch t with Some t => Ok (t / NANOS, len) | None => Err Io end
      | None => Err Io
      end
  end.

Definition set_file_is_waiting v j := with_flags (file_confirmed j) (file_skipped j) v j.
Definition set_file_confirmed v j := with_flags v false (file_is_waiting j) j.

Definition wants_digest (j : TransferJob) : bool :=
  match type j with Generic => true | Printer => false end
  && enable_overwrite_detection j && negb (file_confirmed j) && negb (file_is_waiting j).

Definition init_data_stream (fs : Fs) (j : TransferJob)
  : TransferJob * list Message * result unit Error :=
  match open_data_stream fs j with
  | (j, Err e) => (j, [], Err e)
  | (j, Ok true) => (j, [], Ok tt)
  | (j, Ok false) =>
      if wants_digest j then
        match get_current_digest fs j with
        | Err e => (j, [], Err e)
        | Ok (last_modified, file_size) =>
            (set_file_is_waiting true j,
             [MDigest (mkFtDigest (id j) (file_num j) last_modified file_size false false 0 (is_resume j))],
             Ok tt)
        end
      else (j, [], Ok tt)
  end.

Definition init_data_stream_for_cm (fs : Fs) (j : TransferJob)
  : TransferJob * result (option (Z * Z)) Error :=
  match open_data_stream fs j with
  | (j, Err e) => (j, Err e)
  | (j, Ok true) => (j, Ok None)
  | (j, Ok false) =>
      if wants_digest j then
        match get_current_digest fs j with
        | Err e => (j, Err e)
        | Ok d => (set_file_is_waiting true j, Ok (Some d))
        end
      else (j, Ok None)
  end.

Definition BUF_SIZE : Z := 128 * 1024.

Section Read.
(** How much one call of the system gives at a position, at most. *)
Context (granted : nat -> nat).

Definition stream_pos (s : DataStream) : nat :=
  match s with FileStream (HFile _ pos _) | BufStream _ pos => pos | FileStream HDir => 0 end.

(** [DataStream::read]. *)
Definition stream_read (fs : Fs) (s : DataStream) (max : nat) : option (bytes * DataStream) :=
  let max := Nat.min max (granted (stream_pos s)) in
  match s with
  | FileStream h =>
      match handle_read fs h max with Some (got, h) => Some (got, FileStream h) | None => None end
  | BufStream b pos =>
      let got := take max (drop pos b) in Some (got, BufStream b (pos + length got))
  end.

(** The loop that fills the buffer: [fuel] calls, each for what is still free. *)
Fixpoint fill (fuel : nat) (fs : Fs) (s : DataStream) (free : nat) (buf : bytes)
  : option (bytes * DataStream) :=
  match fuel with
  | O => Some (buf, s)
  | S fuel =>
      match stream_read fs s free with
      | None => None
      | Some (got, s) =>
          let free := (free - length got)%nat in
          if bool_decide (got = []) || bool_decide (free = 0%nat) then Some (buf ++ got, s)
          else fill fuel fs s free (buf ++ got)
      end
  end.

Definition is_file_source (j : TransferJob) : bool :=
  match data_source j with FilePath _ => true | MemoryCursor _ _ => false end.

Definition read (fs : Fs) (j : TransferJob) : TransferJob * result (option Block) Error :=
  if match type j with Generic => true | Printer => false end
     && enable_overwrite_detection j && negb (file_confirmed j)
  then (j, Ok None)
  else
    let file_num_ := as_usize (file_num j) in
    match
      match data_source j with
      | FilePath p =>
          match entry_at j (file_num j) with
          | None => None
          | Some entry =>
              Some (if bool_decide (length (files j) = 1%nat) && text_is (name entry) []
                    then default [] (file_name p) else name entry)
          end
      | MemoryCursor _ _ => Some []
      end
    with
    | None => (set_data_stream None j, Ok None)
    | Some nm =>
        match data_stream j with
        | None => (j, bail (Str.lit "data stream is None"))
        | Some s =>
            let max := Z.to_nat BUF_SIZE in
            match fill (S max) fs s max [] with
            | None => (next_file j, Err Io)
            | Some ([], s) =>
                if is_file_source j then
                  (next_file j, Ok (Some (mkBlock (id j) (Int.swrap 32 file_num_) [] false)))
                else (set_data_stream None j, Ok None)
            | Some (buf, s) =>
                let tmp := compress buf in
                let small := is_file_source j && negb (is_compressed_file nm)
                             && (length tmp <? length buf)%nat in
                let data := if small then tmp else buf in
                (add_counts (length buf) (length data) (set_data_stream (Some s) j),
                 Ok (Some (mkBlock (id j) (Int.swrap 32 file_num_) data small)))
            end
        end
    end.

(** ** Confirmations *)

Inductive Confirm := Skip (s : bool) | OffsetBlk (offset : Z) | NoUnion.

Record SendConfirm := mkConfirm { c_id : Z; c_file_num : Z; c_union : Confirm }.

Definition job_skipped (j : TransferJob) : bool :=
  file_skipped j && bool_decide (length (files j) = 1%nat).
Definition job_completed (j : TransferJob) : bool :=
  negb (enable_overwrite_detection j) || (negb (file_confirmed j) && negb (file_is_waiting j)).
Definition job_error (j : TransferJob) : option rstr :=
  if job_skipped j then Some (Str.lit "skipped") else None.

Definition set_file_skipped (j : TransferJob) : TransferJob :=
  with_flags false true false (with_stream (Int.swrap 32 (file_num j + 1)) None j).

(** The file that [set_stream_offset] opens, and whether to write to it. *)
Definition offset_handle (fs : Fs) (path : rstr) : option Handle :=
  if exists_ cwd fs (dot_download path) && exists_ cwd fs (dot_digest path)
  then file_open_write cwd fs (dot_download path)
  else if exists_ cwd fs path then file_open cwd fs path
  else None.

Definition set_stream_offset (fs : Fs) (num offset : Z) (j : TransferJob) : TransferJob :=
  match data_source j with
  | MemoryCursor _ _ => j
  | FilePath p =>
      match entry_at j num with
      | None => j
      | Some entry =>
          match resolve_entry_path fs p (name entry) j with
          | None => j
          | Some path =>
              match offset_handle fs path with
              | None => j
              | Some h =>
                  match handle_seek h (Z.to_nat offset) with
                  | None => j
                  | Some h =>
                      with_counts (Int.wrap 64 (finished_size j + offset))
                        (Int.wrap 64 (transferred j + offset))
                        (set_data_stream (Some (FileStream h)) j)
                  end
              end
          end
      end
  end.

Definition confirm (fs : Fs) (r : SendConfirm) (j : TransferJob) : TransferJob :=
  if negb (file_num j =? c_file_num r) then j
  else
    match c_union r with
    | Skip true => set_file_skipped j
    | Skip false => set_file_confirmed true j
    | OffsetBlk offset =>
        let j := set_file_confirmed true j in
        if 0 <? offset then set_stream_offset fs (c_file_num r) offset j else j
    | NoUnion => j
    end.

(** ** The list of the jobs *)

Definition remove_job (i : Z) (jobs : list TransferJob) : option TransferJob * list TransferJob :=
  match list_find (fun j => id j = i) jobs with
  | Some (index, job) => (Some job, delete index jobs)
  | None => (None, jobs)
  end.

Definition get_job (i : Z) (jobs : list TransferJob) : option (nat * TransferJob) :=
  list_find (fun j => id j = i) jobs.

Fixpoint init_jobs (fs : Fs) (jobs : list TransferJob) : list TransferJob * list Message :=
  match jobs with
  | [] => ([], [])
  | job :: jobs =>
      let '(job, sent) :=
        if is_last_job job then (job, [])
        else match init_data_stream fs job with
             | (job, sent, Ok _) => (job, sent)
             | (job, sent, Err e) => (job, sent ++ [MError (id job) (inl e) (file_num job)])
             end in
      let '(jobs, rest) := init_jobs fs jobs in
      (job :: jobs, sent ++ rest)
  end.

(** The log of a finished job: the job, whether it was done and the error. *)
Definition JobLog : Type := TransferJob * bool * rstr.

(** One step of one job: what it sends, the job after it, and whether it is finished. *)
Definition read_one (fs : Fs) (job : TransferJob) : TransferJob * list Message * option JobLog :=
  match read fs job with
  | (job, Err e) => (job, [MError (id job) (inl e) (file_num job)], None)
  | (job, Ok (Some block)) => (job, [MBlock block], None)
  | (job, Ok None) =>
      if job_completed job then
        match job_error job with
        | Some err => (job, [MError (id job) (inr err) (file_num job)], Some (job, false, err))
        | None => (job, [MDone (id job) (file_num job)], Some (job, true, []))
        end
      else (job, [], None)
  end.

(** The first job that is not the last one of a former session. *)
Fixpoint read_first (fs : Fs) (jobs : list TransferJob)
  : list TransferJob * list Message * option JobLog :=
  match jobs with
  | [] => ([], [], None)
  | job :: rest =>
      if is_last_job job then
        let '(rest, sent, log) := read_first fs rest in (job :: rest, sent, log)
      else let '(job, sent, log) := read_one fs job in (job :: rest, sent, log)
  end.

Definition handle_read_jobs (fs : Fs) (jobs : list TransferJob)
  : list TransferJob * list Message * option JobLog :=
  let '(jobs, sent) := init_jobs fs jobs in
  let '(jobs, sent', log) := read_first fs jobs in
  let jobs := match log with Some (job, _, _) => (remove_job (id job) jobs).2 | None => jobs end in
  (jobs, sent ++ sent', log).
End Read.

(** ** Operations on one path *)

Definition rename_file (fs : Fs) (path new_name : rstr) : result Fs Error :=
  match validate_fs_path_argument path (Str.lit "path") with
  | Err e => Err e
  | Ok _ =>
      if text_is new_name [] then bail (Str.lit "new file name cannot be empty")
      else
        match validate_file_name_no_traversal new_name with
        | Err e => Err e
        | Ok _ =>
            if exists_ cwd fs path then
              match parent_text path with
              | None => bail (Str.lit "Parent directoy not exists")
              | Some dir =>
                  match rename cwd fs path (join dir new_name) with
                  | Some fs => Ok fs
                  | None => Err Io
                  end
              end
            else bail (Str.lit "not exists")
        end
  end.

Definition remove_file_at (fs : Fs) (file : rstr) : result Fs Error :=
  match validate_fs_path_argument file (Str.lit "file path") with
  | Err e => Err e
  | Ok _ => match remove_file cwd fs file with Some fs => Ok fs | None => Err Io end
  end.

(** ** Whether a file is there already *)

Inductive DigestCheckResult := IsSame | NeedConfirm (d : Digest) | NoSuchFile.

(** What is left of a former transfer of the same file. *)
Definition resumable (fs : Fs) (file_path : rstr) (d : Digest) : option Digest :=
  if exists_ cwd fs (dot_digest file_path) && exists_ cwd fs (dot_download file_path) then
    dg ← is_file cwd fs (dot_digest file_path);
    local ← digest_from_str (content dg);
    if (dg_modified local =? d_last_modified d) && (dg_size local =? d_file_size d) then
      let len :=
        match is_file cwd fs (dot_download file_path) with
        | Some n => Z.of_nat (length (content n))
        | None => dir_metadata.2
        end in
      if 0 <? len then
        Some (mkFtDigest (d_id d) (d_file_num d) (d_last_modified d) (d_file_size d) false true len false)
      else None
    else None
  else None.

Definition is_write_need_confirmation (fs : Fs) (resume : bool) (file_path : rstr) (d : Digest)
  : result DigestCheckResult Error :=
  match (if resume then resumable fs file_path d else None) with
  | Some d => Ok (NeedConfirm d)
  | None =>
      match is_file cwd fs file_path with
      | None => Ok NoSuchFile
      | Some n =>
          match since_epoch (mtime n) with
          | None => Err Io
          | Some t =>
              let len := Z.of_nat (length (content n)) in
              Ok (NeedConfirm (mkFtDigest (d_id d) (d_file_num d) (t / NANOS) len false
                    ((d_last_modified d * NANOS =? t) && (d_file_size d =? len)) 0 false))
          end
      end
  end.

(** ** The controller's side: the answers to its write jobs *)

Record Client := mkClient { fs_ : Fs; write_jobs : list TransferJob }.

(** What a message makes the session do besides. *)
Inductive Effect :=
| SendConfirmMsg (r : SendConfirm)
| AskOverwrite (i num : Z) (path : rstr) (identical : bool)
| JobStatus (i num : Z) (err : option (Error + rstr))
| PrinterData (i : Z) (data : option bytes).

Definition on_job (i : Z) (c : Client) (f : nat -> TransferJob -> Client * list Effect) : Client * list Effect :=
  match get_job i (write_jobs c) with
  | Some (n, job) => f n job
  | None => (c, [])
  end.

(** [FileResponse::Block]: a failed write is not reported. *)
Definition recv_block (now : Z) (block : Block) (c : Client) : Client * list Effect :=
  on_job (b_id block) c (fun n job =>
    let '(fs, job, _) := write now (fs_ c) block job in
    (mkClient fs (<[n := job]> (write_jobs c)), [])).

(** [FileResponse::Done]. *)
Definition recv_done (i num : Z) (c : Client) : Client * list Effect :=
  match remove_job i (write_jobs c) with
  | (None, _) => (c, [JobStatus i num None])
  | (Some job, jobs) =>
      let fs := modify_time (fs_ c) job in
      let err := job_error job in
      (mkClient fs jobs,
       match type job with
       | Generic => [JobStatus i num (inr <$> err)]
       | Printer => match err with None => [PrinterData i (get_buf_data job)] | Some _ => [] end
       end)
  end.

(** The answer to a digest of the sender, for a file of a write job. *)
Definition answer_of (job : TransferJob) (d : Digest) (path : rstr)
    (r : DigestCheckResult) : Confirm + Effect :=
  match r with
  | IsSame => inl (Skip true)
  | NoSuchFile => inl (OffsetBlk 0)
  | NeedConfirm found =>
      let resume := d_is_identical found && is_resume job && (0 <? d_transferred_size found) in
      let offset := if resume then Int.wrap 32 (d_transferred_size found) else 0 in
      match (if resume then Some true else default_overwrite_strategy job) with
      | Some true => inl (OffsetBlk offset)
      | Some false => inl (Skip true)
      | None => inr (AskOverwrite (d_id found) (d_file_num found) path (d_is_identical found))
      end
  end.

(** [FileResponse::Digest] of a download; [support_resume] is the peer's version. *)
Definition recv_digest (support_resume : bool) (d : Digest) (c : Client) : Client * list Effect :=
  on_job (d_id d) c (fun n job =>
    match entry_at job (d_file_num d), data_source job with
    | Some file, FilePath p =>
        let path := job_join p (name file) in
        let job := set_digest (d_file_size d) (d_last_modified d) job in
        let c := mkClient (fs_ c) (<[n := job]> (write_jobs c)) in
        match is_write_need_confirmation (fs_ c) (support_resume && is_resume job) path d with
        | Err _ => (c, [])
        | Ok r =>
            match answer_of job d path r with
            | inr e => (c, [e])
            | inl u =>
                let req := mkConfirm (d_id d) (d_file_num d) u in
                (mkClient (fs_ c) (<[n := confirm (fs_ c) req job]> (write_jobs c)), [SendConfirmMsg req])
            end
        end
    | _, _ => (c, [])
    end).
End FileTransfer.

(** * Specification *)

(** ** Where a receiving job may write: below its base directory *)

Definition is_side (c : rstr) : Prop :=
  exists l, c = l ++ Str.lit ".download" \/ c = l ++ Str.lit ".digest".

(** The bytes that a block stands for. *)
Definition decoded `{Codec} (bl : Block) : bytes :=
  if b_compressed bl then decompress (b_data bl) else b_data bl.

Section Receiving.
Context (cwd : key) (can_create : key -> bool) `{Codec} (base : rstr) (b : key).

(** Nothing below the base whose name ends like the files of an unfinished transfer
    is a symbolic link. *)
Definition no_side_links (fs : Fs) : Prop :=
  forall k c, under b (k ++ [c]) -> is_side c -> is_link (ents fs !! (k ++ [c])) = false.

(** No inode has two names, the base is a directory, and no link is in the place of
    an unfinished transfer. *)
Definition fs_ok (fs : Fs) : Prop :=
  fs_wf fs /\ base_at cwd base b fs /\ no_side_links fs.

(** A name that is not empty or absolute, climbs nowhere and passes no link. *)
Definition name_ok (fs : Fs) (nm : rstr) : Prop :=
  nm <> [] /\ is_absolute nm = false /\ Forall (fun c => c <> DOTDOT) (pieces nm)
  /\ forall n, (0 < n <= length (pieces nm))%nat -> is_link (ents fs !! (b ++ take n (pieces nm))) = false.

(** The text [p] leads to [k] below the base, and to no link. *)
Definition safe_at (fs : Fs) (k : key) (p : rstr) : Prop :=
  under b k /\ is_link (ents fs !! k) = false /\ forall follow, lands fs k (resolve cwd fs follow p).

(** A file that a job has open to write has no name outside the base. *)
Definition stream_ok (fs : Fs) (j : TransferJob) : Prop :=
  forall i pos, data_stream j = Some (FileStream (HFile i pos true)) -> inside b fs i.

Record receiving (fs : Fs) (j : TransferJob) : Prop := {
  re_fs : fs_ok fs;
  re_source : data_source j = FilePath base;
  re_type : type j = Generic;
  re_names : Forall (fun f => name f <> []) (files j);
  re_stream : stream_ok fs j }.

(** Everything that the peer or the user can make a receiving job do. *)
Inductive Cmd :=
| CFiles (fl : list FileEntry)
| CDigest (size modified : Z)
| CConfirm (r : SendConfirm)
| CBlock (now : Z) (block : Block)
| CDone
| CCancel.

Definition run_cmd (c : Cmd) (w : Fs * TransferJob) : Fs * TransferJob :=
  let '(fs, j) := w in
  match c with
  | CFiles fl => (fs, set_finished_size_on_resume (set_files cwd fs fl j).1)
  | CDigest sz modified => (fs, set_digest sz modified j)
  | CConfirm r => (fs, confirm cwd fs r j)
  | CBlock now block => (write cwd can_create now fs block j).1
  | CDone => (modify_time cwd fs j, j)
  | CCancel => (remove_download_file cwd fs j, j)
  end.

Definition run_cmds (cs : list Cmd) (w : Fs * TransferJob) : Fs * TransferJob :=
  foldl (fun w c => run_cmd c w) w cs.

(** The list of a directory: no name is empty, as for a single file it may be. *)
Definition named_files (c : Cmd) : Prop :=
  match c with CFiles fl => Forall (fun f => name f <> []) fl | _ => True end.

(** * Theorems *)

(** ** The names that pass the checks *)

Lemma validate_name_ok nm :
  validate_file_name_no_traversal nm = Ok tt ->
  is_absolute nm = false /\ Forall (fun c => c <> DOTDOT) (pieces nm).
Proof.
  unfold validate_file_name_no_traversal. destruct (has_nul nm); [done|].
  destruct (has_traversal nm) eqn:Ht; [done|]. destruct (is_absolute nm); [done|].
  intros _. split; [done|]. apply List.Forall_forall. intros c [Hc Hk]%filter_In ->.
  unfold has_traversal in Ht. apply not_true_iff_false in Ht. apply Ht, existsb_exists.
  exists DOTDOT. split; [|by vm_compute]. by apply filter_In.
Qed.

Lemma validate_components_take fs cs cur n :
  validate_components cwd fs cur (Normal <$> cs) = Ok tt -> (0 < n <= length cs)%nat ->
  validate_component cwd fs (foldl join cur (take n cs)) = Ok tt.
Proof.
  revert cur n. induction cs as [|c cs IH]; intros cur n; simpl; [lia|].
  destruct (validate_component cwd fs (join cur c)) as [[]|] eqn:E; [|done].
  intros Hv Hn. destruct n as [|[|n]]; [lia|by destruct cs|]. apply (IH _ (S n)); [done|lia].
Qed.

Lemma is_absolute_piece nm c : c ∈ pieces nm -> is_absolute c = false.
Proof.
  intros Hc. pose proof (pieces_kept nm) as Hk. rewrite Forall_forall in Hk.
  destruct (Hk c Hc) as [Hne Hs]. destruct c as [|x c]; [done|]. cbn.
  apply Forall_cons in Hs as [Hs _]. unfold Str.ch in Hs. by rewrite Z.eqb_sym.
Qed.

Lemma pieces_piece nm c : c ∈ pieces nm -> pieces c = [c].
Proof.
  intros Hc. pose proof (pieces_kept nm) as Hk. rewrite Forall_forall in Hk.
  destruct (Hk c Hc) as [Hne Hs]. unfold pieces in *.
  apply list_elem_of_In, filter_In in Hc as [_ Hc].
  assert (Str.split (Str.ch SEP) c = [c]) as ->; [|cbn [List.filter]; by rewrite Hc].
  clear -Hs. induction Hs as [|x c Hx _ IH]; [done|]. cbn [Str.split]. by rewrite Hx, IH.
Qed.

(** The texts that the check builds piece by piece. *)
Lemma foldl_join nm cur cs :
  (forall c, c ∈ cs -> c ∈ pieces nm) ->
  pieces (foldl join cur cs) = pieces cur ++ cs
  /\ start_of cwd (foldl join cur cs) = start_of cwd cur
  /\ (cs <> [] -> foldl join cur cs <> [] /\ names_dir (foldl join cur cs) = false).
Proof.
  revert cur. induction cs as [|c cs IH] using rev_ind; intros cur Hcs; [by rewrite app_nil_r|].
  rewrite foldl_app. cbn [foldl]. assert (c ∈ pieces nm) as Hc by (apply Hcs, elem_of_app; right; by constructor).
  destruct (IH cur) as (E1 & E2 & _); [intros c' Hc'; apply Hcs, elem_of_app; by left|].
  pose proof (is_absolute_piece _ _ Hc) as Ha. rewrite pieces_join by done.
  rewrite E1, (pieces_piece _ _ Hc), <- app_assoc. split; [done|]. split.
  - unfold start_of in *. by rewrite is_absolute_join.
  - intros _. pose proof (pieces_kept nm) as Hk. rewrite Forall_forall in Hk.
    destruct (Hk c Hc) as [Hne Hs]. split.
    + unfold join. rewrite Ha. case_bool_decide; [done|].
      destruct (ends_with_sep _); intros [_ E]%app_eq_nil; done.
    + assert (forall p, Str.split (Str.ch SEP) (p ++ c) = removelast (Str.split (Str.ch SEP) p)
                ++ [default [] (last (Str.split (Str.ch SEP) p)) ++ c]) as Hsp.
      { intros p. destruct (split_suffix (Str.ch SEP) p c Hs) as (i & l & -> & ->).
        by rewrite removelast_last, last_snoc. }
      assert (kept c = true) as Hkc.
      { unfold pieces in Hc. by apply list_elem_of_In, filter_In in Hc as [_ Hc]. }
      unfold names_dir. generalize (foldl join cur cs) as q. intros q. unfold join. rewrite Ha. case_bool_decide as Eq.
      * specialize (Hsp []). cbn in Hsp. rewrite Hsp. cbn. by rewrite Hkc.
      * destruct (ends_with_sep q) eqn:Es.
        -- apply ends_with_sep_inv in Es as [q' ->]. rewrite Hsp, last_snoc, split_sep_app by done.
           cbn [Str.split]. rewrite last_snoc. cbn. by rewrite Hkc.
        -- rewrite app_assoc, Hsp, last_snoc, split_sep_app by done.
           cbn [Str.split]. rewrite last_snoc. cbn. by rewrite Hkc.
Qed.

Lemma components_normal nm :
  is_absolute nm = false -> Forall (fun c => c <> DOTDOT) (pieces nm) ->
  components nm = Normal <$> pieces nm \/ components nm = CurDir :: (Normal <$> pieces nm).
Proof.
  intros Ha Hd. assert (component_of <$> pieces nm = Normal <$> pieces nm) as E.
  { induction Hd as [|c cs Hc _ IH]; [done|]. rewrite !fmap_cons, IH. f_equal.
    unfold component_of. by rewrite bool_decide_eq_false_2. }
  unfold components. rewrite Ha, E. destruct (Str.split _ nm) as [|c cs]; [by left|].
  case_bool_decide; [by right|by left].
Qed.

(** Along a way whose end has an entry there are directories. *)
Lemma prefix_dirs fs (k r : key) e :
  fs_wf fs -> ents fs !! (k ++ r) = Some e -> r <> [] -> k = [] \/ ents fs !! k = Some EDir.
Proof.
  intros (W1 & _ & _ & _). revert e. induction r as [|c r IH] using rev_ind; intros e E Hr; [done|].
  rewrite app_assoc in E. destruct (W1 _ _ _ E) as [Ek|Ek].
  - left. by apply app_eq_nil in Ek as [-> _].
  - destruct (decide (r = [])) as [->|Hne]; [right; by rewrite app_nil_r in Ek|]. by eapply IH.
Qed.

Lemma straight_entry es cur ds e :
  ds <> [] -> es !! (cur ++ ds) = Some e ->
  (forall n, (0 < n < length ds)%nat -> es !! (cur ++ take n ds) = Some EDir) ->
  straight es cur ds = Found (cur ++ ds) e.
Proof.
  revert cur. induction ds as [|c ds IH]; intros cur Hd E Hp; [done|]. cbn [straight].
  assert (cur ++ c :: ds = (cur ++ [c]) ++ ds) as Ea by by rewrite <- app_assoc.
  destruct (decide (ds = [])) as [->|Hne].
  - rewrite E. by destruct e.
  - pose proof (Hp 1%nat ltac:(destruct ds; simpl; [done|lia])) as H1. change (take 1 (c :: ds)) with [c] in H1. rewrite H1, Ea. apply IH; [done|by rewrite <- Ea|].
    intros n Hn. rewrite <- app_assoc. apply (Hp (S n)). simpl. lia.
Qed.

Lemma validated_name_ok fs nm p :
  fs_wf fs -> base_at cwd base b fs -> nm <> [] ->
  join_validated_path cwd fs base nm = Ok p -> name_ok fs nm /\ p = join base nm.
Proof.
  intros Hwf Hb Hne. unfold join_validated_path.
  destruct (validate_file_name_no_traversal nm) as [[]|] eqn:Ev; [|done].
  apply validate_name_ok in Ev as [Ha Hd].
  destruct (validate_no_symlink_components cwd fs base nm) as [[]|] eqn:Es; [|done].
  unfold job_join. destruct nm as [|c0 nm0] eqn:Enm; [done|]. rewrite <- Enm in *. intros [= <-].
  split; [|done]. split; [done|]. split; [done|]. split; [done|].
  assert (validate_components cwd fs base (Normal <$> pieces nm) = Ok tt) as Hv.
  { unfold validate_no_symlink_components in Es. rewrite Enm in Es. rewrite <- Enm in Es.
    destruct (components_normal nm Ha Hd) as [E|E]; rewrite E in Es; done. }
  intros n. induction (lt_wf n) as [n _ IH]. intros Hn.
  pose proof (validate_components_take fs _ base n Hv Hn) as Hc.
  destruct (ents fs !! (b ++ take n (pieces nm))) as [e|] eqn:Ee; [|done].
  set (ds := take n (pieces nm)) in *.
  assert (length ds = n) as Hl by (unfold ds; rewrite length_take; lia).
  destruct (foldl_join nm base ds) as (E1 & E2 & E3).
  { intros c Hin. unfold ds in Hin. rewrite list_elem_of_In in Hin. apply list_elem_of_In.
    rewrite <- (take_drop n (pieces nm)). apply in_app_iff. by left. }
  assert (ds <> []) as Hds by (intros E; rewrite E in Hl; simpl in Hl; lia).
  destruct (E3 Hds) as [E4 E5].
  unfold validate_component in Hc. rewrite (resolve_below cwd fs false base b _ ds) in Hc; try done.
  - rewrite E5 in Hc. cbv zeta in Hc. rewrite (straight_entry _ _ _ e) in Hc; try done.
    + by destruct e.
    + intros m Hm. rewrite Hl in Hm. rewrite <- (take_drop m ds), app_assoc in Ee.
      destruct (prefix_dirs _ _ _ _ Hwf Ee) as [Ek|Ek]; [|exfalso|done].
      * intros E%(f_equal length). rewrite length_drop in E. simpl in E. lia.
      * apply app_eq_nil in Ek as [_ E%(f_equal length)]. rewrite length_take in E. simpl in E. lia.
  - rewrite E5. cbn [orb]. split; [by apply Forall_take|]. rewrite Hl. intros m Hm [?|Hm']; [done|].
    unfold ds. rewrite take_take, Nat.min_l by lia. apply IH; lia.
Qed.

Lemma start_of_join nm : is_absolute nm = false -> start_of cwd (join base nm) = start_of cwd base.
Proof. intros Ha. unfold start_of. by rewrite is_absolute_join. Qed.

Lemma join_nonempty p nm : nm <> [] -> join p nm <> [].
Proof.
  intros Hn. unfold join. destruct (is_absolute nm); [done|]. case_bool_decide; [done|].
  destruct (ends_with_sep p); intros [_ E]%app_eq_nil; done.
Qed.

(** ** Where a name that passed the checks, and its two companions, lead *)

Lemma name_safe fs nm :
  fs_ok fs -> name_ok fs nm -> pieces nm <> [] -> safe_at fs (b ++ pieces nm) (join base nm).
Proof.
  intros (Hwf & Hb & _) (Hne & Ha & Hd & Hl) Hp. split; [by apply under_app|].
  assert (0 < length (pieces nm))%nat as Hlen by (destruct (pieces nm); [done|simpl; lia]).
  split; [rewrite <- (firstn_all (pieces nm)); apply Hl; lia|].
  intros follow. apply (resolve_below_lands cwd fs follow base); try done.
  - by apply join_nonempty.
  - by apply start_of_join.
  - by apply pieces_join.
  - split; [done|]. intros n Hn _. by apply Hl.
Qed.

Lemma side_safe fs nm s :
  fs_ok fs -> name_ok fs nm -> s = Str.lit ".download" \/ s = Str.lit ".digest" ->
  exists k, safe_at fs k (join base nm ++ s).
Proof.
  intros (Hwf & Hb & Hside) (Hne & Ha & Hd & Hl) Hs.
  assert (Forall (fun c => Str.ch SEP c = false) s /\ (3 <= length s)%nat) as [Hsep Hlen].
  { destruct Hs as [->| ->]; (split; [decide_now|vm_compute; lia]). }
  destruct (pieces_suffix nm s) as (i & l & E & Ei); [done|lia|].
  assert (is_side (l ++ s)) as Hls by (exists l; destruct Hs as [->| ->]; auto).
  assert (forall n, (n <= length i)%nat -> take n i = take n (pieces nm) /\ (n <= length (pieces nm))%nat) as Hi.
  { intros n Hn. destruct Ei as [-> | ->]; [done|]. rewrite take_app_le by done. split; [done|].
    rewrite length_app. lia. }
  assert (is_link (ents fs !! (b ++ i ++ [l ++ s])) = false) as Hlast.
  { rewrite app_assoc. apply Hside; [|done]. rewrite <- app_assoc. apply under_app. by destruct i. }
  exists (b ++ i ++ [l ++ s]). rewrite <- join_app by done.
  assert (is_absolute (nm ++ s) = false) as Ha' by (by destruct nm).
  split; [apply under_app; by destruct i|]. split; [done|].
  intros follow. apply (resolve_below_lands cwd fs follow base); try done.
  - apply join_nonempty. by destruct nm.
  - by apply start_of_join.
  - by rewrite pieces_join, E.
  - by destruct i.
  - split.
    + apply Forall_app. split.
      * by destruct Ei as [E'|E']; rewrite E' in Hd; [|apply Forall_app in Hd as [Hd _]].
      * apply Forall_singleton. intros Ed%(f_equal length). rewrite length_app in Ed.
        change (length DOTDOT) with 2%nat in Ed. lia.
    + rewrite length_app. simpl. intros n Hn _. destruct (decide (n <= length i)%nat) as [Hle|Hgt].
      * rewrite take_app_le by done. destruct (Hi n Hle) as [-> ?]. apply Hl. lia.
      * rewrite take_ge; [done|]. rewrite length_app. simpl. lia.
Qed.

Lemma fs_ok_confined fs fs' : confined b fs fs' -> fs_ok fs -> fs_ok fs'.
Proof.
  intros Hc (Hwf & Hb & Hs). split; [by apply (co_wf _ _ _ Hc)|].
  split; [by eapply base_at_confined|]. intros k c Hk Hsc. eapply is_link_confined; [done|by apply Hs].
Qed.

Lemma name_ok_confined fs fs' nm : confined b fs fs' -> name_ok fs nm -> name_ok fs' nm.
Proof.
  intros Hc (H1 & H2 & H3 & H4). do 3 (split; [done|]). intros n Hn.
  eapply is_link_confined; eauto.
Qed.

(** A name with no piece, such as [.], is the base itself. *)
Lemma names_dir_join nm :
  nm <> [] -> is_absolute nm = false -> pieces nm = [] -> names_dir (join base nm) = true.
Proof.
  intros Hne Ha Hp.
  assert (exists i l, Str.split (Str.ch SEP) nm = i ++ [l] /\ kept l = false) as (i & l & Es & Hk).
  { pose proof (Str.split_nonempty (Str.ch SEP) nm) as Hs.
    destruct (Str.split (Str.ch SEP) nm) as [|l i _] eqn:E using rev_ind; [done|].
    exists i, l. split; [done|]. unfold pieces in Hp. rewrite E, List.filter_app in Hp.
    apply app_eq_nil in Hp as [_ Hp]. cbn in Hp. by destruct (kept l). }
  unfold names_dir, join. rewrite Ha. case_bool_decide as Eb; [by rewrite Es, last_snoc, Hk|].
  destruct (ends_with_sep base) eqn:Ese.
  - apply ends_with_sep_inv in Ese as [q ->]. rewrite <- app_assoc. cbn [app].
    by rewrite split_sep_app, Es, app_assoc, last_snoc, Hk.
  - cbn [app]. by rewrite split_sep_app, Es, app_assoc, last_snoc, Hk.
Qed.

Lemma name_is_base fs nm follow :
  fs_ok fs -> name_ok fs nm -> pieces nm = [] -> resolve cwd fs follow (join base nm) = Found b EDir.
Proof.
  intros (_ & [_ Hb] & _) (Hne & Ha & _) Hp. unfold resolve.
  pose proof (join_nonempty base nm Hne) as Hj. pose proof (names_dir_join nm Hne Ha Hp) as Hn.
  pose proof (pieces_join base nm Ha) as Ep. pose proof (start_of_join nm Ha) as Es.
  destruct (join base nm) as [|c r]; [done|]. rewrite Hn, orb_true_r, Es, Ep, Hp, app_nil_r.
  by rewrite (Hb (ents fs)) by done.
Qed.

(** ** The operations stay below the base *)

Lemma or_same_confined fs r :
  (forall fs', r = Some fs' -> confined b fs fs') -> confined b fs (or_same r fs).
Proof. intros Hr. destruct r as [fs'|]; [by apply Hr|apply confined_refl]. Qed.

Lemma remove_confined fs k p :
  fs_ok fs -> safe_at fs k p -> confined b fs (or_same (remove_file cwd fs p) fs).
Proof.
  intros Hok (Hu & _ & Hl). apply or_same_confined. intros fs'.
  apply (remove_file_confined cwd b fs p k); [apply Hok|done|done].
Qed.

Lemma finish_confined fs k p nm :
  fs_ok fs -> name_ok fs nm -> safe_at fs k p ->
  confined b fs (or_same (rename cwd fs p (join base nm)) fs).
Proof.
  intros Hok Hn (Hu & Hnl & Hl). apply or_same_confined. intros fs'.
  destruct (decide (pieces nm = [])) as [Hp|Hp].
  - unfold rename. rewrite (name_is_base fs nm false) by done.
    destruct (resolve cwd fs false p); rewrite ?orb_true_r; done.
  - destruct (name_safe fs nm Hok Hn Hp) as (Hu' & _ & Hl').
    by apply (rename_confined cwd b fs p _ k (b ++ pieces nm)); [apply Hok|..].
Qed.

Lemma mtime_confined fs nm t :
  fs_ok fs -> name_ok fs nm -> confined b fs (set_mtime cwd fs (join base nm) t).
Proof.
  intros Hok Hn. destruct (decide (pieces nm = [])) as [Hp|Hp].
  - unfold set_mtime. rewrite (name_is_base fs nm true) by done. apply confined_refl.
  - destruct (name_safe fs nm Hok Hn Hp) as (Hu & _ & Hl).
    apply (set_mtime_confined cwd b fs _ (b ++ pieces nm)); [apply Hok|done|done].
Qed.

(** Chains a confined step and keeps what the next one needs. *)
Ltac step_confined lem :=
  let Hc := fresh "Hc" in
  pose proof lem as Hc; eapply confined_trans; [exact Hc|];
  match goal with
  | Hok : fs_ok ?fs, Hn : name_ok ?fs ?nm |- _ =>
      apply (fs_ok_confined _ _ Hc) in Hok; apply (name_ok_confined _ _ _ Hc) in Hn
  end.

Lemma entry_at_In j num e : entry_at j num = Some e -> e ∈ files j.
Proof. unfold entry_at. destruct (_ <? _); [|done]. apply list_elem_of_lookup_2. Qed.

Lemma current_path_ok fs j e p :
  receiving fs j -> current_path cwd fs j = Some (e, p) ->
  p = join base (name e) /\ name_ok fs (name e).
Proof.
  intros [Hok Hsrc Hty Hnames _]. unfold current_path, resolve_entry_path. rewrite Hsrc, Hty.
  destruct (entry_at j (file_num j)) as [e'|] eqn:Ee; [|done]. cbn.
  destruct (join_validated_path _ _ _ _) as [p'|] eqn:Ev; [|done]. cbn. intros [= <- <-].
  apply validated_name_ok in Ev as [? ?]; [done|apply Hok|apply Hok|].
  apply entry_at_In in Ee. rewrite Forall_forall in Hnames. by apply Hnames.
Qed.

Lemma modify_time_confined fs j : receiving fs j -> confined b fs (modify_time cwd fs j).
Proof.
  intros Hr. unfold modify_time.
  destruct (current_path cwd fs j) as [[e p]|] eqn:Ec; [|apply confined_refl].
  destruct (current_path_ok fs j e p Hr Ec) as [-> Hn]. destruct Hr as [Hok _ _ _ _].
  destruct (side_safe fs (name e) (Str.lit ".digest") Hok Hn ltac:(by right)) as [kg Hg].
  step_confined (remove_confined fs kg _ Hok Hg).
  set (fs1 := or_same _ fs) in *.
  destruct (side_safe fs1 (name e) (Str.lit ".download") Hok Hn ltac:(by left)) as [kd Hd].
  step_confined (finish_confined fs1 kd _ (name e) Hok Hn Hd).
  by apply mtime_confined.
Qed.

Lemma remove_download_file_confined fs j :
  receiving fs j -> confined b fs (remove_download_file cwd fs j).
Proof.
  intros Hr. unfold remove_download_file.
  destruct (current_path cwd fs j) as [[e p]|] eqn:Ec; [|apply confined_refl].
  destruct (current_path_ok fs j e p Hr Ec) as [-> Hn]. destruct Hr as [Hok _ _ _ _].
  destruct (side_safe fs (name e) (Str.lit ".download") Hok Hn ltac:(by left)) as [kd Hd].
  step_confined (remove_confined fs kd _ Hok Hd).
  set (fs1 := or_same _ fs) in *.
  destruct (side_safe fs1 (name e) (Str.lit ".digest") Hok Hn ltac:(by right)) as [kg Hg].
  by apply (remove_confined _ kg).
Qed.

Lemma create_parent_dirs_eq fs p :
  create_parent_dirs cwd fs p
  = foldl (mkdir_step (start_of cwd p) (pieces p)) fs (seq 1 (length (pieces p) - 1)).
Proof.
  unfold create_parent_dirs, parent_pieces. destruct (pieces p) as [|z q _] using rev_ind; [done|].
  assert (length (q ++ [z]) - 1 = length q)%nat as -> by (rewrite length_app; simpl; lia).
  assert (forall ps : list rstr, ps <> [] ->
    match ps with [] => None | x :: r => Some (removelast (x :: r)) end = Some (removelast ps)) as Hps
    by (by intros []).
  rewrite Hps by (by destruct q). rewrite removelast_last.
  assert (forall ns fs, Forall (fun n => (n <= length q)%nat) ns ->
    foldl (mkdir_step (start_of cwd p) q) fs ns
    = foldl (mkdir_step (start_of cwd p) (q ++ [z])) fs ns) as Hf.
  { induction ns as [|n ns IH]; intros fs0 Hns; [done|]. apply Forall_cons in Hns as [Hn Hns].
    cbn [foldl]. rewrite IH by done. f_equal. unfold mkdir_step. by rewrite take_app_le. }
  apply Hf, Forall_forall. intros n ?%elem_of_seq. lia.
Qed.

Lemma create_parent_dirs_confined fs nm :
  fs_ok fs -> name_ok fs nm -> confined b fs (create_parent_dirs cwd fs (join base nm)).
Proof.
  intros (Hwf & Hb & _) (Hne & Ha & Hd & Hl).
  rewrite create_parent_dirs_eq, pieces_join, start_of_join by done.
  apply mkdirs_confined; [done|]. split; [done|]. intros n Hn _. by apply Hl.
Qed.

(** ** Each operation keeps [receiving] *)

Lemma receiving_confined fs fs' j : confined b fs fs' -> receiving fs j -> receiving fs' j.
Proof.
  intros Hc [Hok Hs Ht Hn Hst]. split; try done; [by eapply fs_ok_confined|].
  intros i pos E. apply (co_inside _ _ _ Hc). by eapply Hst.
Qed.

(** A job that differs in what [receiving] does not mention, and in its stream. *)
Lemma receiving_job fs j j' :
  receiving fs j -> data_source j' = data_source j -> type j' = type j -> files j' = files j ->
  stream_ok fs j' -> receiving fs j'.
Proof. intros [Hok Hs Ht Hn Hst] E1 E2 E3 H'. split; rewrite ?E1, ?E2, ?E3; done. Qed.

Lemma stream_ok_None fs j : data_stream j = None -> stream_ok fs j.
Proof. intros E i pos. by rewrite E. Qed.

Lemma open_target_confined now fs nm j fs' j' r :
  receiving fs j -> name_ok fs nm ->
  open_target cwd can_create now fs (dot_download (join base nm)) (Some (dot_digest (join base nm))) j
  = (fs', j', r) ->
  confined b fs fs' /\ receiving fs' j'.
Proof.
  intros Hr Hn. unfold open_target.
  assert (forall fs0, (if exists_ cwd fs (dot_digest (join base nm))
            then remove_file cwd fs (dot_digest (join base nm)) else Some fs) = Some fs0 ->
          confined b fs fs0) as Hrm.
  { intros fs0. destruct (exists_ _ _ _); [|intros [= <-]; apply confined_refl]. intros E.
    destruct (side_safe fs nm (Str.lit ".digest") (re_fs _ _ Hr) Hn ltac:(by right)) as (k & Hu & _ & Hl).
    apply (remove_file_confined cwd b fs (dot_digest (join base nm)) k); [apply Hr|done|apply Hl|done]. }
  destruct (if exists_ _ _ _ then _ else _) as [fs0|];
    [|intros [= <- <- <-]; split; [apply confined_refl|done]].
  specialize (Hrm fs0 eq_refl). pose proof (receiving_confined _ _ _ Hrm Hr) as Hr0.
  apply (name_ok_confined _ _ _ Hrm) in Hn.
  destruct (side_safe fs0 nm (Str.lit ".download") (re_fs _ _ Hr0) Hn ltac:(by left)) as (k & Hu & _ & Hl).
  destruct (file_create cwd can_create now fs0 _) as [[fs1 i]|] eqn:Ec;
    [|intros [= <- <- <-]; done].
  apply (file_create_confined cwd can_create now b _ _ k) in Ec as [Hc1 Hi]; [|apply Hr0|done|apply Hl].
  pose proof (receiving_confined _ _ _ Hc1 Hr0) as Hr1. apply (name_ok_confined _ _ _ Hc1) in Hn.
  intros [= <- <- <-].
  destruct (side_safe fs1 nm (Str.lit ".digest") (re_fs _ _ Hr1) Hn ltac:(by right)) as (k' & Hu' & _ & Hl').
  pose proof (write_file_confined cwd can_create now b fs1 (dot_digest (join base nm)) k'
    (digest_to_string (digest j)) (proj1 (re_fs _ _ Hr1)) Hu' (Hl' true)) as Hc2.
  split; [by eapply confined_trans; [|eapply confined_trans]|].
  apply (receiving_job _ j); try done; [by apply (receiving_confined fs1)|].
  intros i' pos [= <- <-]. by apply (co_inside _ _ _ Hc2).
Qed.

Lemma write_confined now fs block j fs' j' r :
  receiving fs j -> write cwd can_create now fs block j = (fs', j', r) ->
  confined b fs fs' /\ receiving fs' j'.
Proof.
  intros Hr. unfold write. destruct (negb _); [intros [= <- <- <-]; split; [apply confined_refl|done]|].
  destruct (prepare_write _ _ _ _ _ _) as [[fs1 j1] r1] eqn:Ep.
  assert (confined b fs fs1 /\ receiving fs1 j1) as [Hc1 Hr1].
  { revert Ep. unfold prepare_write. rewrite (re_source _ _ Hr).
    destruct (entry_at j _) as [e|] eqn:Ee; [|intros [= <- <- <-]; split; [apply confined_refl|done]].
    destruct (_ || _); [|intros [= <- <- <-]; split; [apply confined_refl|done]].
    unfold switch_file. pose proof (modify_time_confined fs j Hr) as Hcm.
    pose proof (receiving_confined _ _ _ Hcm Hr) as Hrm. set (fsm := modify_time cwd fs j) in *.
    change (type (with_stream _ _ j)) with (type j). rewrite (re_type _ _ Hr).
    set (jm := with_stream _ _ j). assert (receiving fsm jm) as Hjm.
    { apply (receiving_job _ j); try done. intros i pos. apply (re_stream _ _ Hrm). }
    destruct (join_validated_path cwd fsm base (name e)) as [p|] eqn:Ev;
      [|intros [= <- <- <-]; done].
    apply validated_name_ok in Ev as [Hn ->]; [|apply Hrm|apply Hrm|].
    2: { apply entry_at_In in Ee. pose proof (re_names _ _ Hr) as Hnames.
         rewrite Forall_forall in Hnames. by apply Hnames. }
    pose proof (create_parent_dirs_confined fsm (name e) (re_fs _ _ Hrm) Hn) as Hcp.
    intros Eo. apply open_target_confined in Eo as [Hco Hro];
      [|by eapply receiving_confined|by eapply name_ok_confined].
    split; [|done]. eapply confined_trans; [exact Hcm|]. by eapply confined_trans. }
  destruct r1; [|intros [= <- <- <-]; done].
  destruct (data_stream j1) as [[h|d p]|] eqn:Es; [| |intros [= <- <- <-]; done].
  - unfold write_all. destruct (handle_write _ _ _ _) as [[fs2 h2]|] eqn:Eh; [|intros [= <- <- <-]; done].
    intros [= <- <- <-]. destruct h as [i pos [|]|]; [|done|done].
    pose proof (re_stream _ _ Hr1 i pos Es) as Hi.
    apply (handle_write_confined now b) in Eh as [Hc2 [pos' ->]]; [|done].
    split; [by eapply confined_trans|].
    apply (receiving_job _ j1); try done; [by eapply receiving_confined|].
    intros i' pos0 [= <- <-]. by apply (co_inside _ _ _ Hc2).
  - intros [= <- <- <-]. split; [done|]. by apply (receiving_job _ j1).
Qed.

Lemma set_stream_offset_ok fs num offset j :
  receiving fs j -> receiving fs (set_stream_offset cwd fs num offset j).
Proof.
  intros Hr. unfold set_stream_offset. rewrite (re_source _ _ Hr).
  destruct (entry_at j num) as [e|] eqn:Ee; [|done].
  destruct (resolve_entry_path cwd fs base (name e) j) as [p|] eqn:Ev; [|done].
  destruct (offset_handle cwd fs p) as [h|] eqn:Eh; [|done].
  destruct (handle_seek h _) as [h'|] eqn:Es; [|done].
  apply (receiving_job _ j); try done. intros i pos [= ->].
  assert (exists pos, h = HFile i pos true) as [pos' ->].
  { destruct h as [i' ? [|]|]; [|done|done]. injection Es as ->. eauto. }
  unfold resolve_entry_path in Ev. rewrite (re_type _ _ Hr) in Ev.
  destruct (join_validated_path _ _ _ _) as [p'|] eqn:Ej; [|done]. cbn in Ev. injection Ev as ->.
  apply validated_name_ok in Ej as [Hn ->]; [|apply Hr|apply Hr|].
  2: { apply entry_at_In in Ee. pose proof (re_names _ _ Hr) as Hnames.
       rewrite Forall_forall in Hnames. by apply Hnames. }
  destruct (side_safe fs (name e) (Str.lit ".download") (re_fs _ _ Hr) Hn ltac:(by left)) as (k & Hu & _ & Hl).
  unfold offset_handle in Eh. destruct (_ && _).
  - apply (file_open_inside cwd b fs (dot_download (join base (name e))) k i pos' true);
      [apply Hr|done|apply Hl|by right].
  - destruct (exists_ _ _ _); [|done]. unfold file_open in Eh.
    by destruct (resolve _ _ _ _) as [? [| |]| |].
Qed.

Lemma confirm_ok fs r j : receiving fs j -> receiving fs (confirm cwd fs r j).
Proof.
  intros Hr. unfold confirm. destruct (negb _); [done|].
  assert (forall v, receiving fs (set_file_confirmed v j)) as Hf
    by (intros v; apply (receiving_job _ j); try done; apply Hr).
  destruct (c_union r) as [[|]|offset|]; [|done| |done].
  - by apply (receiving_job _ j).
  - destruct (0 <? offset); [by apply set_stream_offset_ok|done].
Qed.

Lemma set_files_ok fs fl j :
  receiving fs j -> Forall (fun f => name f <> []) fl -> receiving fs (set_files cwd fs fl j).1.
Proof.
  intros Hr Hfl. unfold set_files. destruct (validate_transfer_file_names fl); [|done].
  destruct (match data_source j with FilePath _ => _ | MemoryCursor _ _ => _ end); [|done].
  destruct Hr as [Hok Hs Ht Hn Hst]. by split.
Qed.

Lemma run_cmd_confined c fs j :
  receiving fs j -> named_files c ->
  confined b fs (run_cmd c (fs, j)).1 /\ receiving (run_cmd c (fs, j)).1 (run_cmd c (fs, j)).2.
Proof.
  intros Hr Hnf. destruct c as [fl|sz m|r|now block| |]; cbn [run_cmd fst snd].
  - split; [apply confined_refl|]. pose proof (set_files_ok fs fl j Hr Hnf) as Hr'.
    unfold set_finished_size_on_resume. destruct (_ && _); [|done].
    apply (receiving_job _ (set_files cwd fs fl j).1); try done. apply Hr'.
  - split; [apply confined_refl|]. apply (receiving_job _ j); try done. apply Hr.
  - split; [apply confined_refl|by apply confirm_ok].
  - destruct (write _ _ _ _ _ _) as [[fs' j'] res] eqn:E. by eapply write_confined.
  - pose proof (modify_time_confined fs j Hr). split; [done|]. by eapply receiving_confined.
  - pose proof (remove_download_file_confined fs j Hr). split; [done|]. by eapply receiving_confined.
Qed.

Lemma run_cmds_confined cs fs j :
  receiving fs j -> Forall named_files cs -> confined b fs (run_cmds cs (fs, j)).1.
Proof.
  intros Hr Hcs. revert fs j Hr. induction Hcs as [|c cs Hc _ IH]; intros fs j Hr; [apply confined_refl|].
  change (run_cmds (c :: cs) (fs, j)) with (run_cmds cs (run_cmd c (fs, j))).
  destruct (run_cmd_confined c fs j Hr Hc) as [Hc1 Hr1].
  destruct (run_cmd c (fs, j)) as [fs' j']. eapply confined_trans; [done|]. by apply IH.
Qed.
End Receiving.

(** C1 Whatever file lists, digests, confirmations and blocks the peer sends to a
    job that receives a directory, every entry outside the base directory stays as
    it was, and so do the bytes and times of every file with a name outside it;
    links below the base, on the way of a received name, are refused.  This is
    under conditions on what is already there, which the code does not check: no
    symbolic link below the base has a name that ends in [.download] or [.digest]
    ([no_side_links]), since the file of an unfinished transfer is opened through
    one ([fs.rs] 860, [download_link_is_followed]), and no file has two names
    ([fs_wf], hard links); the names of the list are not empty ([named_files]: an
    empty one is the single file that the base itself then names), and nobody else
    changes the files meanwhile. *)
Theorem received_files_stay_inside (cwd : key) (can_create : key -> bool) `{Codec}
    (base : rstr) (b : key) (fs : Fs) (i num : Z) (rem : rstr) (hidden is_rem detect : bool)
    (cs : list Cmd) :
  fs_wf fs -> base_at cwd base b fs -> no_side_links b fs -> Forall named_files cs ->
  let fs' := (run_cmds cwd can_create cs
                (fs, new_write i Generic rem (FilePath base) num hidden is_rem detect)).1 in
  forall k, ~ under b k ->
    ents fs' !! k = ents fs !! k
    /\ forall ino, ents fs !! k = Some (EFile ino) -> inodes fs' !! ino = inodes fs !! ino.
Proof.
  intros Hwf Hb Hl Hcs fs' k Hk.
  assert (confined b fs fs') as Hc.
  { apply (run_cmds_confined cwd can_create base); [|done]. by split. }
  split; [by apply (co_ents _ _ _ Hc)|]. intros ino Hi. by apply (co_inodes _ _ _ Hc k).
Qed.

(** When the file of a block cannot be opened while another one is, the job
    already counts it as the current file: the next blocks of the same number go,
    without an error, to the end of the file before. *)
Theorem failed_open_feeds_the_old_file
    (cwd : key) (can_create : key -> bool) `{Codec} (now1 now2 : Z) (fs fs1 : Fs)
    (p : rstr) (b1 b2 : Block) (e : Error) (j j1 : TransferJob) (ino : Z) (pos : nat) (n : Inode) :
  data_source j = FilePath p -> data_stream j = Some (FileStream (HFile ino pos true)) ->
  is_Some (entry_at j (b_file_num b1)) ->
  as_usize (b_file_num b1) <> as_usize (file_num j) ->
  b_id b1 = id j -> b_id b2 = id j -> b_file_num b2 = b_file_num b1 ->
  write cwd can_create now1 fs b1 j = (fs1, j1, Err e) ->
  data_stream j1 = data_stream j -> inodes fs1 !! ino = Some n ->
  exists j2,
    write cwd can_create now2 fs1 b2 j1
    = (set_inode ino (mkInode (write_at (content n) pos (decoded b2)) now2) fs1, j2, Ok tt).
Proof.
  intros Hsrc Hst [en Hen] Hnum Hid1 Hid2 Hsame Hw Hst1 Hino.
  assert (file_num j1 = b_file_num b1 /\ id j1 = id j /\ data_source j1 = data_source j
          /\ files j1 = files j) as (Hf1 & Hi1 & Hs1 & Hfl1).
  { revert Hw. unfold write. rewrite Hid1, Z.eqb_refl. cbn [negb]. unfold prepare_write.
    rewrite Hsrc, Hen. destruct (Z.eqb_spec (as_usize (b_file_num b1)) (as_usize (file_num j))); [done|].
    cbn [negb orb]. unfold switch_file, open_target.
    repeat match goal with
    | |- context [match ?x with _ => _ end] =>
        lazymatch x with context [match _ with _ => _ end] => fail | _ => destruct x end
    end; intros [= <- <- <-]; done. }
  assert (entry_at j1 (b_file_num b2) = Some en) as Hen2 by (unfold entry_at; by rewrite Hsame, Hfl1).
  eexists. unfold write. rewrite Hid2, Hi1, Z.eqb_refl. cbn [negb]. unfold prepare_write.
  rewrite Hs1, Hsrc, Hen2, Hsame, Hf1, Z.eqb_refl, Hst1, Hst. cbn [negb orb].
  rewrite Hst1, Hst. unfold write_all, handle_write. rewrite Hino.
  unfold decoded. reflexivity.
Qed.

(** ** Blocks and confirmations *)

Section Serve.
Context (cwd : key) `{Codec}.

(** What happens to the list of the jobs that read: a job for a peer that answers to
    digests, a round of the loop, an answer. *)
Inductive ServeEvent :=
| EAdd (i : Z) (rem : rstr) (src : DataSource) (num : Z) (hidden is_rem : bool)
    (listed : result (list FileEntry) Error)
| ERound (fs : Fs) (granted : nat -> nat)
| EConfirm (fs : Fs) (r : SendConfirm).

Definition serve (e : ServeEvent) (jobs : list TransferJob) : list TransferJob * list Message :=
  match e with
  | EAdd i rem src num hidden is_rem listed =>
      match new_read i Generic rem src num hidden is_rem true listed with
      | Ok j => (jobs ++ [j], [])
      | Err _ => (jobs, [])
      end
  | ERound fs granted => let '(jobs, sent, _) := handle_read_jobs cwd granted fs jobs in (jobs, sent)
  | EConfirm fs r =>
      match get_job (c_id r) jobs with
      | Some (n, j) => (<[n := confirm cwd fs r j]> jobs, [])
      | None => (jobs, [])
      end
  end.

Fixpoint serve_all (es : list ServeEvent) (jobs : list TransferJob) : list TransferJob :=
  match es with [] => jobs | e :: es => serve_all es (serve e jobs).1 end.

(** An answer that asks for the file. *)
Definition asks_for (r : SendConfirm) : bool :=
  match c_union r with Skip s => negb s | OffsetBlk _ => true | NoUnion => false end.

(** Among the events an answer asks for file [num] of job [i]. *)
Definition asked (es : list ServeEvent) (i num : Z) : Prop :=
  exists fs r, EConfirm fs r ∈ es /\ c_id r = i /\ c_file_num r = num /\ asks_for r = true.

Record waits (es : list ServeEvent) (j : TransferJob) : Prop := {
  wa_type : type j = Generic;
  wa_detect : enable_overwrite_detection j = true;
  wa_num : Int.is_s 32 (file_num j);
  wa_confirmed : file_confirmed j = true -> asked es (id j) (file_num j) }.

Lemma asked_more es es' i num : asked es i num -> asked (es ++ es') i num.
Proof. intros (fs & r & Hin & Hr). exists fs, r. split; [apply elem_of_app; by left|done]. Qed.

Lemma waits_more es es' j : waits es j -> waits (es ++ es') j.
Proof. intros [Ht Hd Hn Hc]. split; try done. intros Hf. by apply asked_more, Hc. Qed.

(** A job whose confirmation is gone, or that is at the same file as before. *)
Lemma waits_reset es j j' :
  waits es j -> type j' = type j -> enable_overwrite_detection j' = enable_overwrite_detection j ->
  id j' = id j -> (file_num j' = file_num j \/ Int.is_s 32 (file_num j') /\ file_confirmed j' = false) ->
  (file_confirmed j' = false \/ file_confirmed j' = file_confirmed j) -> waits es j'.
Proof.
  intros [Ht Hd Hn Hc] E1 E2 E3 Hnum Hcf. split; rewrite ?E1, ?E2, ?E3; try done.
  - destruct Hnum as [->|[? _]]; done.
  - intros Hf. destruct Hnum as [E|[_ E]]; [|congruence]. rewrite E. apply Hc.
    destruct Hcf as [|E']; congruence.
Qed.

Hint Extern 1 (Int.is_s 32 (file_num _)) => apply Int.swrap_range : core.

Lemma open_waits es fs j : waits es j -> waits es (open_data_stream cwd fs j).1.
Proof.
  intros Hw. unfold open_data_stream. destruct (data_source j).
  - destruct (entry_at j _); [|by apply (waits_reset es j); auto].
    destruct (data_stream j); [done|]. destruct (file_open _ _ _); [by apply (waits_reset es j); auto|].
    apply (waits_reset es j); auto. right. split; [by apply Int.swrap_range|done].
  - destruct (data_stream j); [done|]. by apply (waits_reset es j); auto.
Qed.

Lemma init_waits es fs j : waits es j -> waits es (init_data_stream cwd fs j).1.1.
Proof.
  intros Hw. pose proof (open_waits es fs j Hw) as Ho. unfold init_data_stream.
  destruct (open_data_stream cwd fs j) as [j1 [[]|]]; [done| |done]. cbn [fst] in Ho.
  destruct (wants_digest j1); [|done]. destruct (get_current_digest fs j1) as [[]|]; [|done].
  by apply (waits_reset es j1); auto.
Qed.

Lemma swrap_id z : Int.is_s 32 z -> Int.swrap 32 (as_usize z) = z.
Proof.
  unfold Int.is_s, Int.smin, Int.smax, Int.swrap, as_usize, Int.wrap.
  change (2 ^ (32 - 1)) with (2 ^ 31). intros Hz.
  destruct (decide (0 <= z)) as [Hp|Hn].
  - rewrite (Z.mod_small z) by lia. rewrite Z.mod_small by lia. lia.
  - rewrite (Z.mod_eq z (2 ^ 64)) by lia.
    assert (z / 2 ^ 64 = -1) as -> by (symmetry; apply (Z.div_unique z (2 ^ 64) (-1) (z + 2 ^ 64)); lia).
    replace (z - 2 ^ 64 * -1 + 2 ^ 31) with (z + 2 ^ 31 + 2 ^ 32 * 2 ^ 32) by lia.
    rewrite Z.mod_add by lia. rewrite Z.mod_small by lia. lia.
Qed.

Lemma read_waits es granted fs j :
  waits es j ->
  waits es (read granted fs j).1
  /\ forall bl, (read granted fs j).2 = Ok (Some bl) -> asked es (b_id bl) (b_file_num bl).
Proof.
  intros Hw. unfold read. rewrite (wa_type _ _ Hw), (wa_detect _ _ Hw). cbn [andb].
  destruct (file_confirmed j) eqn:Ec; cbn [negb]; [|by split].
  pose proof (wa_confirmed _ _ Hw Ec) as Ha. rewrite <- (swrap_id (file_num j)) in Ha by apply Hw.
  destruct (match data_source j with FilePath _ => _ | MemoryCursor _ _ => _ end) as [nm|];
    [|split; [by apply (waits_reset es j); auto|done]].
  destruct (data_stream j) as [s|]; [|by split].
  destruct (fill _ _ _ _ _ _) as [[[|x buf] s']|].
  - destruct (is_file_source j); (split; [|try done]).
    + apply (waits_reset es j); auto. right. split; [by apply Int.swrap_range|done].
    + by intros bl [= <-].
    + by apply (waits_reset es j); auto.
  - split; [by apply (waits_reset es j); auto|]. by intros bl [= <-].
  - split; [|done]. apply (waits_reset es j); auto. right. split; [by apply Int.swrap_range|done].
Qed.

Lemma confirm_waits es fs r j :
  waits es j -> id j = c_id r -> waits (es ++ [EConfirm fs r]) (confirm cwd fs r j).
Proof.
  intros Hw Hid. pose proof (waits_more es [EConfirm fs r] j Hw) as Hw'. unfold confirm.
  destruct (Z.eqb_spec (file_num j) (c_file_num r)) as [En|]; cbn [negb]; [|done].
  assert (asks_for r = true -> asked (es ++ [EConfirm fs r]) (id j) (file_num j)) as Ha.
  { intros Hr. exists fs, r. split; [|done]. apply elem_of_app. right. by constructor. }
  destruct Hw' as [Ht Hd Hn Hc]. unfold asks_for in Ha.
  destruct (c_union r) as [[|]|offset|] eqn:Eu; [| | |by split].
  - by split; [| |apply Int.swrap_range|].
  - split; [done..|]. intros _. by apply Ha.
  - assert (forall j', type j' = type j -> enable_overwrite_detection j' = enable_overwrite_detection j ->
      file_num j' = file_num j -> id j' = id j -> waits (es ++ [EConfirm fs r]) j') as Hj.
    { intros j' E1 E2 E3 E4. split; rewrite ?E1, ?E2, ?E3, ?E4; [done..|]. intros _. by apply Ha. }
    destruct (0 <? offset); [|by apply Hj]. unfold set_stream_offset.
    repeat match goal with
    | |- waits _ (match ?x with _ => _ end) => destruct x
    end; by apply Hj.
Qed.

(** Each message of a round comes from a job of the list. *)
Lemma init_jobs_waits es fs jobs :
  Forall (waits es) jobs ->
  Forall (waits es) (init_jobs cwd fs jobs).1
  /\ forall bl, MBlock bl ∉ (init_jobs cwd fs jobs).2.
Proof.
  induction 1 as [|j jobs Hj _ [IH1 IH2]]; [split; [done|]; by intros bl ?%elem_of_nil|].
  cbn [init_jobs]. pose proof (init_waits es fs j Hj) as Hi.
  destruct (init_jobs cwd fs jobs) as [jobs' rest]. cbn [fst snd] in *.
  destruct (is_last_job j); [split; [by constructor|done]|].
  assert (forall bl, MBlock bl ∉ (init_data_stream cwd fs j).1.2) as Hno.
  { intros bl. unfold init_data_stream. destruct (open_data_stream cwd fs j) as [j1 [[]|]];
      [by intros ?%elem_of_nil| |by intros ?%elem_of_nil].
    destruct (wants_digest j1); [|by intros ?%elem_of_nil].
    destruct (get_current_digest fs j1) as [[]|]; [|by intros ?%elem_of_nil].
    by intros ?%list_elem_of_singleton. }
  destruct (init_data_stream cwd fs j) as [[j1 sent] [|]]; cbn [fst snd] in *;
    (split; [by constructor|]); intros bl; rewrite ?elem_of_app.
  - intros [?|?]; [by apply (Hno bl)|by apply (IH2 bl)].
  - intros [[?|?%list_elem_of_singleton]|?]; [by apply (Hno bl)|done|by apply (IH2 bl)].
Qed.

Lemma read_first_waits es granted fs jobs :
  Forall (waits es) jobs ->
  Forall (waits es) (read_first granted fs jobs).1.1
  /\ forall bl, MBlock bl ∈ (read_first granted fs jobs).1.2 -> asked es (b_id bl) (b_file_num bl).
Proof.
  induction 1 as [|j jobs Hj Hjobs [IH1 IH2]]; [split; [done|]; by intros bl ?%elem_of_nil|].
  cbn [read_first]. destruct (is_last_job j).
  { destruct (read_first granted fs jobs) as [[rest sent] log]. split; [by constructor|done]. }
  pose proof (read_waits es granted fs j Hj) as [Hr Hb]. unfold read_one.
  destruct (read granted fs j) as [j1 [[bl1|]|e]]; cbn [fst snd] in *.
  - split; [by constructor|]. intros bl [= ->]%list_elem_of_singleton. by apply Hb.
  - destruct (job_completed j1); [|split; [by constructor|]; by intros bl ?%elem_of_nil].
    destruct (job_error j1); (split; [by constructor|]); by intros bl ?%list_elem_of_singleton.
  - split; [by constructor|]. by intros bl ?%list_elem_of_singleton.
Qed.

Lemma serve_waits es e jobs :
  match e with EAdd _ _ _ num _ _ _ => Int.is_s 32 num | _ => True end ->
  Forall (waits es) jobs ->
  Forall (waits (es ++ [e])) (serve e jobs).1
  /\ forall bl, MBlock bl ∈ (serve e jobs).2 -> asked es (b_id bl) (b_file_num bl).
Proof.
  intros He Hw. assert (Forall (waits (es ++ [e])) jobs) as Hw'
    by (eapply Forall_impl; [exact Hw|]; intros; by apply waits_more).
  destruct e as [i rem src num hidden is_rem listed|fs granted|fs r]; cbn [serve].
  - destruct (new_read _ _ _ _ _ _ _ _ _) as [j|] eqn:Ej; (split; [|by intros bl ?%elem_of_nil]); [|done].
    apply Forall_app. split; [done|]. apply Forall_cons. split; [|done].
    unfold new_read in Ej. destruct src; [destruct listed; [|done]|]; injection Ej as <-; by split.
  - unfold handle_read_jobs. destruct (init_jobs_waits es fs jobs Hw) as [Hi Hn].
    destruct (init_jobs cwd fs jobs) as [jobs1 sent1]. cbn [fst snd] in *.
    destruct (read_first_waits es granted fs jobs1 Hi) as [Hr Hb].
    destruct (read_first granted fs jobs1) as [[jobs2 sent2] log]. cbn [fst snd] in *. split.
    + assert (Forall (waits (es ++ [ERound fs granted])) jobs2) as Hr'
        by (eapply Forall_impl; [exact Hr|]; intros; by apply waits_more).
      destruct log as [[[jl ?] ?]|]; [|done]. unfold remove_job.
      destruct (list_find _ _) as [[n ?]|]; [|done]. by apply Forall_delete.
    + intros bl [?|?]%elem_of_app; [by destruct (Hn bl)|by apply Hb].
  - destruct (get_job (c_id r) jobs) as [[n j]|] eqn:Eg; (split; [|by intros bl ?%elem_of_nil]); [|done].
    apply list_find_Some in Eg as (Ej & Hid & _). apply Forall_insert; [done|].
    apply confirm_waits; [|done]. rewrite Forall_lookup in Hw. by eapply Hw.
Qed.

Definition event_ok (e : ServeEvent) : Prop :=
  match e with EAdd _ _ _ num _ _ _ => Int.is_s 32 num | _ => True end.

Lemma serve_all_waits es :
  Forall event_ok es -> Forall (waits es) (serve_all es []).
Proof.
  assert (forall es es0 jobs, Forall event_ok es -> Forall (waits es0) jobs ->
    Forall (waits (es0 ++ es)) (serve_all es jobs)) as Hgen.
  { clear es. induction es as [|e es IH]; intros es0 jobs Hok Hw; [by rewrite app_nil_r|].
    apply Forall_cons in Hok as [He Hok]. cbn [serve_all].
    rewrite cons_middle, app_assoc. apply IH; [done|]. by apply serve_waits. }
  intros Hok. by apply (Hgen es [] []).
Qed.
End Serve.

(** With overwrite detection no block of a file leaves before the peer asked for
    it: whatever jobs were added, rounds run and answers received, a block that the
    next event sends belongs to a job and a file that one of the answers named and
    did not skip. *)
Theorem blocks_need_a_confirmation (cwd : key) `{Codec} (es : list ServeEvent) (e : ServeEvent) (bl : Block) :
  Forall event_ok es -> event_ok e ->
  MBlock bl ∈ (serve cwd e (serve_all cwd es [])).2 -> asked es (b_id bl) (b_file_num bl).
Proof.
  intros Hes He Hin. pose proof (serve_all_waits cwd es Hes) as Hw.
  destruct (serve_waits cwd es e _ He Hw) as [_ Hb]. by apply Hb.
Qed.

(** * Witnesses *)

(** A codec that does nothing, checks of the conditions on concrete file systems,
    and the file systems of the witnesses. *)
Module Toy.
#[export] Instance toy_codec : Codec := {|
  compress := fun x => x;
  decompress := fun x => x;
  digest_to_string := fun d => [dg_size d; dg_modified d];
  digest_from_str := fun x => match x with [s; m] => Some (mkDigest s m) | _ => None end;
  dir_metadata := (0, 4096) |}.

Definition can_all (k : key) : bool := true.
Definition granted_3 (pos : nat) : nat := 3.

(** ** Deciding the conditions on a concrete file system *)

Definition all_entries (es : gmap key Ent) (test : key -> Ent -> bool) : bool :=
  forallb (fun x => test x.1 x.2) (map_to_list es).

Lemma all_entries_at es test k e : all_entries es test = true -> es !! k = Some e -> test k e = true.
Proof.
  unfold all_entries. rewrite forallb_forall. intros H E. apply (H (k, e)).
  by apply list_elem_of_In, elem_of_map_to_list.
Qed.

Definition wf_check (es : gmap key Ent) (next : Z) : bool :=
  all_entries es (fun k e =>
    negb (bool_decide (k = []))
    && (bool_decide (removelast k = []) || bool_decide (es !! removelast k = Some EDir))
    && match e with
       | EFile i => (i <? next)
           && all_entries es (fun k' e' => negb (bool_decide (e' = EFile i)) || bool_decide (k = k'))
       | _ => true
       end).

Lemma wf_check_ok fs : wf_check (ents fs) (next_ino fs) = true -> fs_wf fs.
Proof.
  unfold wf_check. intros H. pose proof (fun k e => all_entries_at _ _ k e H) as H'. cbv beta in H'.
  clear H. repeat split.
  - intros k c e E. apply H' in E. rewrite removelast_last in E.
    apply andb_true_iff in E as [[_ E]%andb_true_iff _].
    apply orb_true_iff in E as [E|E]; apply bool_decide_eq_true in E; auto.
  - intros k k' i E E'. apply H' in E. apply andb_true_iff in E as [_ [_ E]%andb_true_iff].
    apply (all_entries_at _ _ k' (EFile i)) in E; [|done]. cbv beta in E.
    rewrite bool_decide_eq_true_2 in E by done. cbn in E. by apply bool_decide_eq_true in E.
  - intros k i E. apply H' in E. apply andb_true_iff in E as [_ [E _]%andb_true_iff]. lia.
  - destruct (ents fs !! []) as [e|] eqn:E; [|done]. by apply H' in E.
Qed.

Definition base_check (fs : Fs) (base : rstr) : bool :=
  is_absolute base && forallb (fun c => negb (text_is c DOTDOT)) (pieces base)
  && forallb (fun n => bool_decide (ents fs !! take n (pieces base) = Some EDir)) (seq 1 (length (pieces base)))
  && all_entries (ents fs) (fun _ e => negb (is_link (Some e))).

Lemma straight_all es cur ds :
  (forall n, (0 < n <= length ds)%nat -> es !! (cur ++ take n ds) = Some EDir) ->
  straight es cur ds = Found (cur ++ ds) EDir.
Proof.
  intros Hd. destruct (decide (ds = [])) as [->|Hne]; [by rewrite app_nil_r|].
  rewrite straight_dirs; [|done|intros n Hn; apply Hd; lia].
  pose proof (Hd (length ds)) as H. rewrite firstn_all in H. rewrite H; [done|].
  destruct ds; [done|simpl; lia].
Qed.

Lemma base_check_ok cwd fs base :
  wf_check (ents fs) (next_ino fs) = true -> base_check fs base = true ->
  fs_ok cwd base (pieces base) fs.
Proof.
  unfold base_check. intros Hwf Hb. rewrite !andb_true_iff in Hb. destruct Hb as [[[Ha Hn] Hd] Hl].
  rewrite forallb_forall in Hn, Hd.
  assert (forall n, (0 < n <= length (pieces base))%nat -> ents fs !! take n (pieces base) = Some EDir) as Hd'.
  { intros n Hn'. apply (bool_decide_eq_true_1 _). apply Hd, in_seq. lia. }
  split; [by apply wf_check_ok|]. split; [split|].
  - destruct (decide (pieces base = [])) as [->|Hne]; [by left|right].
    rewrite <- (firstn_all (pieces base)). apply Hd'. destruct (pieces base); [done|simpl; lia].
  - intros es Hes. unfold start_of. rewrite Ha.
    assert (forall n, (0 < n <= length (pieces base))%nat -> es !! take n (pieces base) = Some EDir) as Hd2.
    { intros n Hn'. rewrite Hes; [by apply Hd'|]. intros (c & r & E%(f_equal length)).
      rewrite length_take, length_app in E. simpl in E. lia. }
    rewrite walk_passable; [by rewrite straight_all|]. split.
    + apply List.Forall_forall. intros c Hc ->. apply Hn in Hc. done.
    + intros n Hn' _. cbn [app]. by rewrite Hd2.
  - intros k c _ _. destruct (ents fs !! (k ++ [c])) as [e|] eqn:E; [|done].
    apply (all_entries_at _ _ _ _ Hl) in E. by apply negb_true_iff in E.
Qed.

(** ** A sender with two files, one in a directory, and an empty directory to receive *)

Definition NA : rstr := Str.lit "a".
Definition NB : rstr := Str.lit "s/b.txt".
Definition entries : list FileEntry := [mkEntry NA 5 100; mkEntry NB 0 200].
Definition datas : list bytes := [[1; 2; 3; 4; 5]; []].

Definition fs_src : Fs :=
  mkFs (list_to_map [([Str.lit "h"], EDir); ([Str.lit "h"; Str.lit "a"], EFile 1);
          ([Str.lit "h"; Str.lit "s"], EDir); ([Str.lit "h"; Str.lit "s"; Str.lit "b.txt"], EFile 2)])
    (list_to_map [(1, mkInode [1; 2; 3; 4; 5] 7); (2, mkInode [] 8)]) 3.
Definition fs_dst : Fs := mkFs (list_to_map [([Str.lit "d"], EDir)]) ∅ 1.

Definition SRC : rstr := Str.lit "/h".
Definition DST : rstr := Str.lit "/d".

Definition j_write : TransferJob :=
  with_files_total entries 5 (new_write 9 Generic [] (FilePath DST) 0 false true false).

Lemma dst_ok : fs_ok [] DST (pieces DST) fs_dst.
Proof. apply base_check_ok; vm_compute; reflexivity. Qed.

(** A file outside the base, and what an interrupted transfer left below it. *)
Definition fs_left : Fs :=
  mkFs (list_to_map [([Str.lit "d"], EDir); ([Str.lit "out"], EFile 1);
          ([Str.lit "d"; Str.lit "a"], EFile 2); ([Str.lit "d"; Str.lit "a.download"], EFile 3)])
    (list_to_map [(1, mkInode [9] 1); (2, mkInode [1; 2; 3] 2); (3, mkInode [8; 8] 3)]) 4.

Definition block_0 (data : bytes) : Block := mkBlock 9 0 data false.
Definition block_1 (data : bytes) : Block := mkBlock 9 1 data false.

Lemma left_ok : fs_ok [] DST (pieces DST) fs_left.
Proof. apply base_check_ok; vm_compute; reflexivity. Qed.

(** The directory of the second file cannot be written. *)
Definition can_not_s (k : key) : bool := bool_decide (k !! 1%nat <> Some (Str.lit "s")).
Definition after_a : Fs * TransferJob := (write [] can_not_s 50 fs_dst (block_0 [1; 2]) j_write).1.
Definition after_b : Fs * TransferJob :=
  (write [] can_not_s 51 after_a.1 (block_1 [3]) after_a.2).1.

Definition add_9 : ServeEvent := EAdd 9 [] (FilePath SRC) 0 false false (Ok entries).
Definition answer_9 : ServeEvent := EConfirm fs_src (mkConfirm 9 0 (OffsetBlk 0)).

End Toy.
Import Toy.

(** ** Samples *)

Example ext_of_name : get_ext (Str.lit "a.tar.gz") = Str.lit "gz" /\ get_ext (Str.lit "Makefile") = [].
Proof. vm_compute. split; reflexivity. Qed.

Example names_checked :
  is_ok (validate_file_name_no_traversal (Str.lit "s/..b/c..")) = true
  /\ is_ok (validate_file_name_no_traversal (Str.lit "s/../b")) = false
  /\ is_ok (validate_file_name_no_traversal (Str.lit "/etc/passwd")) = false
  /\ is_ok (validate_transfer_file_names [mkEntry [] 0 0]) = true
  /\ is_ok (validate_transfer_file_names [mkEntry [] 0 0; mkEntry NA 0 0]) = false.
Proof. vm_compute. repeat split. Qed.

(** A file to send that is not there: two errors, with the number of the next one. *)
Example unreadable_file_is_reported_twice :
  (handle_read_jobs [] granted_3 fs_src
     [with_files_total entries 5 (new_write 9 Generic [] (FilePath (Str.lit "/none")) 0 false false false)]).1.2
  = [MError 9 (inl Io) 1; MError 9 (inl (Bail (Str.lit "data stream is None"))) 1].
Proof. vm_compute. reflexivity. Qed.

(** A link in the place of a download is followed out of the destination. *)
Example download_link_is_followed :
  let fs := mkFs (list_to_map [([Str.lit "d"], EDir); ([Str.lit "out"], EFile 1);
       ([Str.lit "d"; Str.lit "s"], EDir);
       ([Str.lit "d"; Str.lit "s"; Str.lit "b.txt.download"], ELink true [Str.lit "out"])])
     (list_to_map [(1, mkInode [9] 1)]) 2 in
  let w := (write [] can_all 50 fs (block_0 [5]) j_write).1 in
  let w := write [] can_all 50 w.1 (block_1 [6; 6]) w.2 in
  w.2 = Ok tt /\ is_file [] w.1.1 (Str.lit "/out") = Some (mkInode [6; 6] 50).
Proof. vm_compute. split; reflexivity. Qed.

(** An identical file is asked about, a missing one is sent at once. *)
Example digest_answers :
  let d := mkFtDigest 9 0 0 3 false false 0 false in
  match is_write_need_confirmation [] fs_left false (Str.lit "/d/a") d with
  | Ok (NeedConfirm found) => d_file_size found = 3 /\ d_is_identical found = false
  | _ => False
  end
  /\ match is_write_need_confirmation [] fs_left false (Str.lit "/d/zz") d with
     | Ok NoSuchFile => True | _ => False end.
Proof. vm_compute. repeat split. Qed.

Lemma received_files_stay_inside_witness :
  let fs' := (run_cmds [] can_all
    [CFiles entries; CBlock 50 (block_0 [7]); CConfirm (mkConfirm 9 0 (Skip false)); CDone; CCancel]
    (fs_left, new_write 9 Generic [] (FilePath DST) 0 false true true)).1 in
  ents fs' !! [Str.lit "out"] = ents fs_left !! [Str.lit "out"]
  /\ forall ino, ents fs_left !! [Str.lit "out"] = Some (EFile ino) ->
       inodes fs' !! ino = inodes fs_left !! ino.
Proof.
  apply (received_files_stay_inside [] can_all DST (pieces DST)).
  - exact (proj1 left_ok).
  - exact (proj1 (proj2 left_ok)).
  - exact (proj2 (proj2 left_ok)).
  - repeat constructor; by vm_compute.
  - intros (c & r & E). vm_compute in E. discriminate E.
Defined.

Lemma failed_open_feeds_the_old_file_witness :
  (write [] can_not_s 51 after_a.1 (block_1 [3]) after_a.2).2 = Err Io
  /\ exists j2, write [] can_not_s 52 after_b.1 (block_1 [4; 5]) after_b.2
    = (set_inode 1 (mkInode [1; 2; 4; 5] 52) after_b.1, j2, Ok tt).
Proof.
  split; [vm_compute; reflexivity|].
  apply (failed_open_feeds_the_old_file [] can_not_s 51 52 after_a.1 after_b.1 DST (block_1 [3])
    (block_1 [4; 5]) Io after_a.2 after_b.2 1 2 (mkInode [1; 2] (100 * NANOS)));
    try (vm_compute; reflexivity).
  - exists (mkEntry NB 0 200). vm_compute. reflexivity.
  - vm_compute. discriminate.
Defined.

Lemma blocks_need_a_confirmation_witness :
  (serve [] (ERound fs_src granted_3) (serve_all [] [add_9; ERound fs_src granted_3] [])).2 = []
  /\ asked [add_9; ERound fs_src granted_3; answer_9] 9 0.
Proof.
  split; [vm_compute; reflexivity|].
  apply (blocks_need_a_confirmation [] [add_9; ERound fs_src granted_3; answer_9]
    (ERound fs_src granted_3) (block_0 [1; 2; 3; 4; 5])).
  - repeat constructor; by vm_compute.
  - done.
  - vm_compute. constructor.
Defined.
