(* ===== verification/FileCopy.v ===== *)
(** * Whole file transfers: what [src/libs/base/src/fs.rs] does from the first block
      to the last

    Over the operations of [FileTransfer]: the exact results of the receiver's
    operations where nothing is in the way, the job that writes the blocks of a
    directory, the job that reads it, and the two together. *)

From S2P Require Import Prelude PosixFs FileTransfer.

(** ** Where nothing is in the way, exact results of the operations *)

Section Exact.
Context (cwd : key) (can_create : key -> bool) `{Codec} (base : rstr) (b : key).

(** The way to [b ++ t]: directories or nothing, and at its end a file or nothing. *)
Definition clear (es : gmap key Ent) (t : key) : Prop :=
  (forall n, (0 < n < length t)%nat -> es !! (b ++ take n t) = None \/ es !! (b ++ take n t) = Some EDir)
  /\ (es !! (b ++ t) = None \/ exists i, es !! (b ++ t) = Some (EFile i)).

Definition dirs_to (es : gmap key Ent) (t : key) : Prop :=
  forall n, (0 < n < length t)%nat -> es !! (b ++ take n t) = Some EDir.

(** A text for the place [b ++ t]. *)
Definition text_of (p : rstr) (t : key) : Prop :=
  p <> [] /\ t <> [] /\ start_of cwd p = start_of cwd base /\ pieces p = pieces base ++ t
  /\ names_dir p = false /\ Forall (fun c => c <> DOTDOT) t.

Definition side (t : key) (s : rstr) : key := removelast t ++ [default [] (last t) ++ s].

Lemma clear_passable es t follow :
  Forall (fun c => c <> DOTDOT) t -> clear es t -> passable follow es b t.
Proof.
  intros Hd [Hp He]. split; [done|]. intros n Hn _. destruct (decide (n = length t)) as [->|Hne].
  - rewrite firstn_all. by destruct He as [->|[i ->]].
  - by destruct (Hp n) as [->| ->]; [lia| |].
Qed.

Lemma resolve_target fs follow p t :
  base_at cwd base b fs -> text_of p t -> clear (ents fs) t -> dirs_to (ents fs) t ->
  resolve cwd fs follow p
  = match ents fs !! (b ++ t) with Some e => Found (b ++ t) e | None => Missing (b ++ t) end.
Proof.
  intros Hb (Hp & Ht & Es & Ep & Hn & Hd) Hc Hdirs.
  rewrite (resolve_below cwd fs follow base b p t) by (try done; by apply clear_passable).
  cbv zeta. by rewrite Hn, straight_dirs.
Qed.

(** Without the directories: not there either way. *)
Lemma resolve_absent fs follow p t :
  base_at cwd base b fs -> text_of p t -> clear (ents fs) t -> ents fs !! (b ++ t) = None ->
  match resolve cwd fs follow p with Found _ _ => False | _ => True end.
Proof.
  intros Hb (Hp & Ht & Es & Ep & Hn & Hd) Hc He.
  rewrite (resolve_below cwd fs follow base b p t) by (try done; by apply clear_passable).
  cbv zeta. rewrite Hn. pose proof (straight_cases (ents fs) b t) as Hs.
  destruct (straight _ _ _) as [k e|k|]; [|done|done]. destruct Hs as (-> & Hs & _).
  by rewrite (Hs Ht) in He.
Qed.

Lemma clear_not_blocked es t follow :
  (forall n, (0 < n < length t)%nat -> es !! (b ++ take n t) = None \/ es !! (b ++ take n t) = Some EDir) ->
  straight es b t <> Broken follow \/ follow = true.
Proof.
  intros Hp. destruct follow; [by right|left]. revert Hp. generalize b as cur.
  induction t as [|c t IH]; intros cur Hp; [done|]. cbn [straight].
  destruct (decide (t = [])) as [->|Hne]; [by destruct (es !! (cur ++ [c])) as [[]|]|].
  destruct (Hp 1%nat ltac:(destruct t; simpl; [done|lia])) as [H1|H1];
    change (take 1 (c :: t)) with [c] in H1; rewrite H1.
  - by destruct t.
  - apply IH. intros n Hn. rewrite <- app_assoc. apply (Hp (S n)). simpl. lia.
Qed.

Lemma validate_components_all fs cs cur :
  (forall n, (0 < n <= length cs)%nat -> validate_component cwd fs (foldl join cur (take n cs)) = Ok tt) ->
  validate_components cwd fs cur (Normal <$> cs) = Ok tt.
Proof.
  revert cur. induction cs as [|c cs IH]; intros cur Hv; [done|].
  rewrite fmap_cons. cbn [validate_components].
  pose proof (Hv 1%nat ltac:(simpl; lia)) as H1. change (validate_component cwd fs (join cur c) = Ok tt) in H1. rewrite H1. apply IH.
  intros n Hn. apply (Hv (S n)). simpl. lia.
Qed.

Lemma clear_validated fs nm :
  base_at cwd base b fs -> nm <> [] -> validate_file_name_no_traversal nm = Ok tt ->
  clear (ents fs) (pieces nm) -> join_validated_path cwd fs base nm = Ok (join base nm).
Proof.
  intros Hb Hne Hv [Hc He]. unfold join_validated_path. rewrite Hv.
  apply validate_name_ok in Hv as [Ha Hd].
  assert (validate_no_symlink_components cwd fs base nm = Ok tt) as ->; [|by destruct nm].
  assert (validate_components cwd fs base (Normal <$> pieces nm) = Ok tt) as Hvc.
  { apply validate_components_all. intros n Hn. set (ds := take n (pieces nm)).
    assert (length ds = n) as Hl by (unfold ds; rewrite length_take; lia).
    destruct (foldl_join cwd nm base ds) as (E1 & E2 & E3).
    { intros c Hin%list_elem_of_In. apply list_elem_of_In. unfold ds in Hin.
      rewrite <- (take_drop n (pieces nm)). apply in_app_iff. by left. }
    assert (ds <> []) as Hds by (intros E; rewrite E in Hl; simpl in Hl; lia).
    destruct (E3 Hds) as [E4 E5].
    assert (forall m, (0 < m < length ds)%nat ->
      ents fs !! (b ++ take m ds) = None \/ ents fs !! (b ++ take m ds) = Some EDir) as Hpre.
    { intros m Hm. unfold ds. rewrite take_take, Nat.min_l by lia. apply Hc. lia. }
    assert (is_link (ents fs !! (b ++ ds)) = false) as Hlink.
    { unfold ds. destruct (decide (n = length (pieces nm))) as [->|].
      - rewrite firstn_all. by destruct He as [->|[i ->]].
      - by destruct (Hc n) as [->| ->]; [lia| |]. }
    unfold validate_component. rewrite (resolve_below cwd fs false base b _ ds); try done.
    - rewrite E5. cbv zeta. pose proof (straight_cases (ents fs) b ds) as Hs.
      destruct (clear_not_blocked (ents fs) ds false Hpre) as [Hnb|]; [|done].
      destruct (straight (ents fs) b ds) as [k e|k|[|]]; try done.
      destruct Hs as (-> & Hs & _). rewrite (Hs Hds) in Hlink. by destruct e.
    - rewrite E5. split; [by apply Forall_take|]. intros m Hm [?|Hm']; [done|].
      by destruct (Hpre m) as [->| ->]; [lia| |]. }
  unfold validate_no_symlink_components. destruct nm as [|c nm]; [done|].
  by destruct (components_normal (c :: nm) Ha Hd) as [->| ->].
Qed.

(** The directories on the way, made. *)
Lemma mkdirs_exact fs t n :
  base_at cwd base b fs -> Forall (fun c => c <> DOTDOT) t ->
  (forall m, (0 < m < length t)%nat ->
     ents fs !! (b ++ take m t) = None \/ ents fs !! (b ++ take m t) = Some EDir) ->
  fs_wf fs -> under b (b ++ t) -> (n < length (pieces base) + length t)%nat ->
  let fs' := foldl (mkdir_step (start_of cwd base) (pieces base ++ t)) fs (seq 1 n) in
  (forall m, (0 < m < length t)%nat -> (length (pieces base) + m <= n)%nat ->
     ents fs' !! (b ++ take m t) = Some EDir)
  /\ (forall k, (exists m, (0 < m < length t)%nat /\ k = b ++ take m t /\ ents fs' !! k = Some EDir)
       \/ ents fs' !! k = ents fs !! k)
  /\ inodes fs' = inodes fs /\ next_ino fs' = next_ino fs /\ confined b fs fs'.
Proof.
  intros Hb Hd Hc Hwf Hu. induction n as [|n IH]; intros Hn.
  { cbn. split; [intros; lia|]. split; [by right|]. do 2 (split; [done|]). apply confined_refl. }
  rewrite seq_S, foldl_app. cbn [foldl]. destruct IH as (I1 & I2 & I3 & I4 & I5); [lia|].
  set (fs1 := foldl _ fs (seq 1 n)) in *. cbv zeta.
  assert (forall m, (0 < m < length t)%nat ->
     ents fs1 !! (b ++ take m t) = None \/ ents fs1 !! (b ++ take m t) = Some EDir) as Hc1.
  { intros m Hm. destruct (I2 (b ++ take m t)) as [(? & _ & _ & ->)| ->]; [by right|auto]. }
  assert (base_at cwd base b fs1) as Hb1 by by eapply base_at_confined.
  assert (passable false (ents fs1) b t) as Hpass.
  { split; [done|]. intros m Hm [?|?]; [done|]. by destruct (Hc1 m) as [->| ->]; [lia| |]. }
  pose proof (mkdir_step_confined cwd b base t fs1 (1 + n) Hb1 Hpass) as Hconf.
  destruct (decide (1 + n <= length (pieces base))%nat) as [Hle|Hgt].
  - assert (mkdir_step (start_of cwd base) (pieces base ++ t) fs1 (1 + n) = fs1) as ->.
    { unfold mkdir_step. rewrite take_app_le by done.
      pose proof (proj2 Hb1 (ents fs1) ltac:(done)) as Hw.
      rewrite <- (take_drop (1 + n) (pieces base)) in Hw.
      apply walk_prefix in Hw as (k' & e & ->). done. }
    split; [intros; lia|]. done.
  - set (m := (1 + n - length (pieces base))%nat).
    assert (0 < m < length t)%nat as Hm by lia. set (d := take m t).
    assert (mkdir_step (start_of cwd base) (pieces base ++ t) fs1 (1 + n)
            = match ents fs1 !! (b ++ d) with
              | Some _ => fs1 | None => set_ents (<[b ++ d := EDir]> (ents fs1)) fs1 end) as Es.
    { unfold mkdir_step. rewrite take_app_ge by lia. fold m. fold d.
      assert (d <> []) as Hdn by (intros E%(f_equal length); unfold d in E; rewrite length_take in E; simpl in E; lia).
      rewrite (walk_app _ _ _ _ _ b); [|by apply (proj2 Hb1)|done|].
      - rewrite straight_dirs; [by destruct (ents fs1 !! (b ++ d))|done|].
        intros j Hj. unfold d in *. rewrite length_take in Hj. rewrite take_take, Nat.min_l by lia.
        apply I1; lia.
      - split; [by apply Forall_take|]. intros j Hj _. unfold d in *. rewrite length_take in Hj.
        rewrite take_take, Nat.min_l by lia. by destruct (Hc1 j) as [->| ->]; [lia| |]. }
    rewrite Es in *. destruct (Hc1 m Hm) as [E|E]; fold d in E; rewrite E in *.
    + cbn [set_ents ents inodes next_ino]. split; [|split; [|split; [done|split; [done|]]]].
      * intros j Hj Hjn. destruct (decide (j = m)) as [->|]; [by rewrite lookup_insert_eq|].
        rewrite lookup_insert_ne; [apply I1; lia|]. intros E'%app_inv_head%(f_equal length).
        unfold d in E'. rewrite !length_take in E'. lia.
      * intros k. destruct (decide (k = b ++ d)) as [->|Hk].
        -- left. exists m. split; [done|]. split; [done|]. by rewrite lookup_insert_eq.
        -- rewrite lookup_insert_ne by done. apply I2.
      * by eapply confined_trans.
    + split; [|done]. intros j Hj Hjn. destruct (decide (j = m)) as [->|]; [done|]. apply I1; lia.
Qed.
End Exact.

(** ** A job that writes a directory's files where nothing is in the way *)

Section Copy.
Context (cwd : key) (can_create : key -> bool) `{Codec} (base : rstr) (b : key).
Context (Hcreate : forall k, can_create k = true).

Abbreviation DL := (Str.lit ".download").
Abbreviation DG := (Str.lit ".digest").

(** A name as a directory listing gives it. *)
Definition tidy (nm : rstr) : Prop :=
  nm <> [] /\ validate_file_name_no_traversal nm = Ok tt /\ names_dir nm = false.

Definition places_of (f : FileEntry) : list key :=
  [pieces (name f); side (pieces (name f)) DL; side (pieces (name f)) DG].
Definition places (fl : list FileEntry) : list key := fl ≫= places_of.

(** No two files share a place, and none is in the place of a directory. *)
Definition disjoint_places (fl : list FileEntry) : Prop :=
  NoDup (places fl) /\ forall t t' r, t ∈ places fl -> t' ∈ places fl -> t' = t ++ r -> r = [].

Definition fits (es : gmap key Ent) (fl : list FileEntry) : Prop :=
  forall t, t ∈ places fl -> clear b es t.

Definition k_final (f : FileEntry) : key := b ++ pieces (name f).
Definition k_side (f : FileEntry) (s : rstr) : key := b ++ side (pieces (name f)) s.

Definition has_file (fs : Fs) (k : key) (c : bytes) (t : Z) : Prop :=
  exists i, ents fs !! k = Some (EFile i) /\ inodes fs !! i = Some (mkInode c t).

Definition mtime_of (f : FileEntry) : Z := Int.swrap 64 (modified_time f) * NANOS.

Lemma split_last p i l :
  Str.split (Str.ch SEP) p = i ++ [l] -> kept l = true -> pieces p = List.filter kept i ++ [l].
Proof. intros E Hk. unfold pieces. rewrite E, List.filter_app. cbn. by rewrite Hk. Qed.

Lemma tidy_split nm :
  names_dir nm = false -> exists i l, Str.split (Str.ch SEP) nm = i ++ [l] /\ kept l = true.
Proof.
  unfold names_dir. intros Hn. destruct (Str.split (Str.ch SEP) nm) as [|l i _] eqn:E using rev_ind.
  - by destruct (Str.split_nonempty (Str.ch SEP) nm).
  - rewrite last_snoc in Hn. exists i, l. by destruct (kept l).
Qed.

Lemma split_join_last p nm i l :
  is_absolute nm = false -> Str.split (Str.ch SEP) nm = i ++ [l] ->
  exists i', Str.split (Str.ch SEP) (join p nm) = i' ++ [l].
Proof.
  intros Ha E. unfold join. rewrite Ha. case_bool_decide; [by exists i|].
  destruct (ends_with_sep p) eqn:Es.
  - apply ends_with_sep_inv in Es as [q ->]. exists (Str.split (Str.ch SEP) q ++ i).
    rewrite <- !app_assoc. cbn [app]. by rewrite split_sep_app, E.
  - exists (Str.split (Str.ch SEP) p ++ i). cbn [app]. by rewrite split_sep_app, E, app_assoc.
Qed.

(** The texts of a tidy name and of its companions. *)
Lemma tidy_text nm : tidy nm -> text_of cwd base (join base nm) (pieces nm).
Proof.
  intros (Hne & Hv & Hn). apply validate_name_ok in Hv as [Ha Hd].
  destruct (tidy_split nm Hn) as (i & l & E & Hk).
  destruct (split_join_last base nm i l Ha E) as [i' E'].
  split; [by apply join_nonempty|]. split; [rewrite (split_last _ _ _ E Hk); by destruct (List.filter kept i)|].
  split; [by apply start_of_join|]. split; [by apply pieces_join|]. split; [|done].
  unfold names_dir. by rewrite E', last_snoc, Hk.
Qed.

Lemma tidy_side nm s :
  tidy nm -> s = DL \/ s = DG -> text_of cwd base (join base nm ++ s) (side (pieces nm) s).
Proof.
  intros (Hne & Hv & Hn) Hs. apply validate_name_ok in Hv as [Ha Hd].
  destruct (tidy_split nm Hn) as (i & l & E & Hk).
  assert (Forall (fun c => Str.ch SEP c = false) s /\ (3 <= length s)%nat) as [Hsep Hlen].
  { destruct Hs as [->| ->]; (split; [decide_now|vm_compute; lia]). }
  destruct (split_suffix (Str.ch SEP) nm s Hsep) as (i0 & l0 & E0 & Es).
  rewrite E in E0. apply app_inj_tail in E0 as [<- <-].
  assert (forall c, length c <> length (l ++ s) -> l ++ s <> c) as Hlen' by congruence.
  assert (kept (l ++ s) = true) as Hks.
  { unfold kept. rewrite !bool_decide_eq_false_2; [done|apply Hlen'..]; rewrite length_app;
      [change (length DOT) with 1%nat|simpl]; lia. }
  rewrite <- join_app by done.
  assert (is_absolute (nm ++ s) = false) as Ha' by (by destruct nm).
  destruct (split_join_last base (nm ++ s) i (l ++ s) Ha' Es) as [i' E'].
  assert (pieces (nm ++ s) = side (pieces nm) s) as Ep.
  { rewrite (split_last _ _ _ Es Hks), (split_last _ _ _ E Hk). unfold side.
    by rewrite removelast_last, last_snoc. }
  split; [apply join_nonempty; by intros [? _]%app_eq_nil|]. split; [unfold side; by destruct (removelast (pieces nm))|].
  split; [by apply start_of_join|]. split; [by rewrite pieces_join, Ep|].
  split; [unfold names_dir; by rewrite E', last_snoc, Hks|].
  rewrite (split_last _ _ _ E Hk) in *. unfold side. rewrite removelast_last, last_snoc.
  apply Forall_app in Hd as [Hd _]. apply Forall_app. split; [done|]. apply Forall_singleton.
  apply Hlen'. rewrite length_app. change (length DOTDOT) with 2%nat. lia.
Qed.

Lemma side_take t s n : (n < length t)%nat -> take n (side t s) = take n t /\ length (side t s) = length t.
Proof.
  destruct t as [|l d _] using rev_ind; [simpl; lia|]. unfold side.
  rewrite removelast_last, last_snoc, !length_app. simpl. intros Hn. split; [|done].
  by rewrite !take_app_le by lia.
Qed.

Lemma dirs_side es t s : t <> [] -> dirs_to b es t <-> dirs_to b es (side t s).
Proof.
  intros Ht. assert (0 < length t)%nat as Hl by (destruct t; [done|simpl; lia]).
  destruct (side_take t s 0 Hl) as [_ Hlen]. unfold dirs_to. rewrite Hlen. split; intros Hd n Hn.
  - destruct (side_take t s n ltac:(lia)) as [-> _]. by apply Hd.
  - destruct (side_take t s n ltac:(lia)) as [<- _]. by apply Hd.
Qed.

Lemma places_elem fl k f t : fl !! k = Some f -> t ∈ places_of f -> t ∈ places fl.
Proof.
  intros E Ht. unfold places. apply list_elem_of_bind. exists f. split; [done|].
  by eapply list_elem_of_lookup_2.
Qed.

(** A change that puts files in places and directories on the way to them. *)
Lemma fits_change es es' fl :
  disjoint_places fl -> fits es fl ->
  (forall k, es' !! k = es !! k \/ es' !! k = None
     \/ (exists t i, t ∈ places fl /\ k = b ++ t /\ es' !! k = Some (EFile i))
     \/ (exists t m, t ∈ places fl /\ (0 < m < length t)%nat /\ k = b ++ take m t /\ es' !! k = Some EDir)) ->
  fits es' fl.
Proof.
  intros [_ Hd] Hf Hch t Ht. destruct (Hf t Ht) as [Hp He]. split.
  - intros n Hn. destruct (Hch (b ++ take n t)) as [->|[->|[(t' & i & Ht' & E & _)|(t' & m & _ & _ & _ & ->)]]];
      [by apply Hp|by left| |by right].
    apply app_inv_head in E. exfalso.
    assert (t = t' ++ drop n t) as Et by (by rewrite <- E, take_drop).
    apply (Hd t' t _ Ht' Ht) in Et as Er. apply (f_equal length) in Er. rewrite length_drop in Er.
    simpl in Er. lia.
  - destruct (Hch (b ++ t)) as [->|[->|[(t' & i & _ & _ & ->)|(t' & m & Ht' & Hm & E & _)]]];
      [done|by left|right; by exists i|].
    apply app_inv_head in E. exfalso.
    assert (t' = t ++ drop m t') as Et by (by rewrite E, take_drop).
    apply (Hd t t' _ Ht Ht') in Et as Er. apply (f_equal length) in Er. rewrite length_drop in Er.
    simpl in Er. lia.
Qed.

(** The places of the files are all different. *)
Lemma places_differ fl k k' f f' t t' :
  disjoint_places fl -> fl !! k = Some f -> fl !! k' = Some f' -> k <> k' ->
  t ∈ places_of f -> t' ∈ places_of f' -> t <> t'.
Proof.
  intros [Hnd _] E E' Hk Ht Ht' ->. clear Hcreate. revert k k' E E' Hk.
  unfold places in Hnd. induction fl as [|g fl IH]; intros k k' E E' Hk; [done|].
  cbn [mbind list_bind] in Hnd. apply NoDup_app in Hnd as (_ & Hcross & Hnd).
  assert (forall n h, fl !! n = Some h -> t' ∈ places_of h -> t' ∈ fl ≫= places_of) as Hin.
  { intros n h En Hh. apply list_elem_of_bind. exists h. split; [done|]. by eapply list_elem_of_lookup_2. }
  destruct k as [|k], k' as [|k']; [done| | |].
  - injection E as ->. by apply (Hcross t' Ht), (Hin k' f').
  - injection E' as ->. by apply (Hcross t' Ht'), (Hin k f).
  - apply (IH Hnd k k' E E'). congruence.
Qed.

Lemma places_of_nodup fl k f : disjoint_places fl -> fl !! k = Some f -> NoDup (places_of f).
Proof.
  intros [Hnd _]. revert k. unfold places in Hnd. induction fl as [|g fl IH]; intros k E; [done|].
  cbn [mbind list_bind] in Hnd. apply NoDup_app in Hnd as (Hg & _ & Hnd).
  destruct k as [|k]; [by injection E as ->|by apply (IH Hnd k)].
Qed.

Context (fl : list FileEntry) (contents : list bytes).
Context (Htidy : Forall (fun f => tidy (name f)) fl) (Hdis : disjoint_places fl).

(** What the first [n] files are worth, and that nothing is left of the others. *)
Record settled (n : nat) (fs : Fs) : Prop := {
  se_fits : fits (ents fs) fl;
  se_done : forall k f c, (k < n)%nat -> fl !! k = Some f -> contents !! k = Some c ->
    has_file fs (k_final f) c (mtime_of f);
  se_absent : forall k f, (n <= k)%nat -> fl !! k = Some f ->
    ents fs !! k_side f DL = None /\ ents fs !! k_side f DG = None }.

(** File [n] is being written and has the bytes [d] so far. *)
Record copying (n : nat) (d : bytes) (fs : Fs) (j : TransferJob) : Prop := {
  cp_recv : receiving cwd base b fs j;
  cp_files : files j = fl;
  cp_num : file_num j = Z.of_nat n;
  cp_fits : fits (ents fs) fl;
  cp_done : forall k f c, (k < n)%nat -> fl !! k = Some f -> contents !! k = Some c ->
    has_file fs (k_final f) c (mtime_of f);
  cp_absent : forall k f, (n < k)%nat -> fl !! k = Some f ->
    ents fs !! k_side f DL = None /\ ents fs !! k_side f DG = None;
  cp_open : exists f i i' t, fl !! n = Some f
    /\ ents fs !! k_side f DL = Some (EFile i) /\ inodes fs !! i = Some (mkInode d t)
    /\ ents fs !! k_side f DG = Some (EFile i')
    /\ data_stream j = Some (FileStream (HFile i (length d) true)) }.

Lemma tidy_at k f : fl !! k = Some f -> tidy (name f).
Proof. intros E. rewrite Forall_lookup in Htidy. by eapply Htidy. Qed.

Lemma has_file_frame fs fs' k c t :
  has_file fs k c t -> ents fs' !! k = ents fs !! k ->
  (forall i, ents fs !! k = Some (EFile i) -> inodes fs' !! i = inodes fs !! i) ->
  has_file fs' k c t.
Proof. intros (i & E & Ei) Hk Hi. exists i. rewrite Hk, Hi; done. Qed.

Lemma entry_at_nat j n :
  files j = fl -> (n < length fl)%nat -> Z.of_nat (length fl) < 2 ^ 31 ->
  entry_at j (Z.of_nat n) = fl !! n.
Proof.
  intros Hf Hn Hlen. unfold entry_at, as_usize, Int.wrap. rewrite Hf, Z.mod_small by lia.
  destruct (Z.ltb_spec (Z.of_nat n) (Z.of_nat (length fl))); [|lia]. by rewrite Nat2Z.id.
Qed.

Lemma dirs_to_entry fs t e :
  fs_wf fs -> ents fs !! (b ++ t) = Some e -> dirs_to b (ents fs) t.
Proof.
  intros Hwf He n Hn. rewrite <- (take_drop n t), app_assoc in He.
  destruct (prefix_dirs _ _ _ _ Hwf He) as [E|E]; [|exfalso|done].
  - intros E%(f_equal length). rewrite length_drop in E. simpl in E. lia.
  - apply app_eq_nil in E as [_ E%(f_equal length)]. rewrite length_take in E. simpl in E. lia.
Qed.

Lemma dirs_to_change es es' t :
  (forall k, es !! k = Some EDir -> es' !! k = Some EDir) -> dirs_to b es t -> dirs_to b es' t.
Proof. intros Hk Hd n Hn. auto. Qed.

(** The places of one file, their keys different. *)
Lemma keys_of_file k f :
  fl !! k = Some f ->
  k_final f <> k_side f DL /\ k_final f <> k_side f DG /\ k_side f DL <> k_side f DG
  /\ pieces (name f) ∈ places fl /\ side (pieces (name f)) DL ∈ places fl
  /\ side (pieces (name f)) DG ∈ places fl.
Proof.
  intros E. pose proof (places_of_nodup _ _ _ Hdis E) as Hn. unfold places_of in Hn.
  apply NoDup_cons in Hn as [H1 Hn]. apply NoDup_cons in Hn as [H2 _].
  unfold k_final, k_side. rewrite !not_elem_of_cons in *.
  destruct H1 as (Ha & Hb' & _), H2 as (Hc & _).
  repeat split; try (by intros ?%app_inv_head); apply (places_elem fl k f); try done;
    unfold places_of; rewrite !elem_of_cons; auto.
Qed.

(** The places of two files. *)
Lemma keys_differ k k' f f' t t' :
  fl !! k = Some f -> fl !! k' = Some f' -> k <> k' ->
  t ∈ places_of f -> t' ∈ places_of f' -> b ++ t <> b ++ t'.
Proof.
  intros E E' Hk Ht Ht' Eq%app_inv_head. by apply (places_differ fl k k' f f' t t').
Qed.

Definition good (fs : Fs) : Prop := fs_wf fs /\ base_at cwd base b fs /\ fits (ents fs) fl.

Lemma good_confined fs fs' : confined b fs fs' -> fits (ents fs') fl -> good fs -> good fs'.
Proof.
  intros Hc Hf (Hwf & Hb & _). split; [by apply (co_wf _ _ _ Hc)|].
  split; [by eapply base_at_confined|done].
Qed.

Lemma under_final n f : fl !! n = Some f -> under b (k_final f).
Proof. intros Ef. apply under_app. by destruct (tidy_text _ (tidy_at _ _ Ef)) as (_ & ? & _). Qed.

Lemma under_side f s : under b (k_side f s).
Proof. apply under_app. unfold side. by destruct (removelast _). Qed.

(** The directories of one place of a file are those of the others. *)
Lemma dirs_of_file fs n f s e :
  fs_wf fs -> fl !! n = Some f -> ents fs !! k_side f s = Some e ->
  dirs_to b (ents fs) (pieces (name f)) /\ forall s', dirs_to b (ents fs) (side (pieces (name f)) s').
Proof.
  intros Hwf Ef He. destruct (tidy_text _ (tidy_at _ _ Ef)) as (_ & Ht & _).
  apply dirs_to_entry in He; [|done]. apply (proj2 (dirs_side _ _ s Ht)) in He.
  split; [done|]. intros s'. by apply dirs_side.
Qed.

Lemma side_place n f s :
  fl !! n = Some f -> s = DL \/ s = DG -> side (pieces (name f)) s ∈ places fl.
Proof. intros Ef [->| ->]; by apply (keys_of_file n f). Qed.

Lemma resolve_side fs n f s follow e :
  good fs -> fl !! n = Some f -> s = DL \/ s = DG -> ents fs !! k_side f s = Some e ->
  resolve cwd fs follow (join base (name f) ++ s) = Found (k_side f s) e.
Proof.
  intros (Hwf & Hb & Hfit) Ef Hs He.
  rewrite (resolve_target cwd base b fs follow _ (side (pieces (name f)) s)); [unfold k_side in He; by rewrite He|done| | |].
  - apply tidy_side; [by eapply tidy_at|done].
  - by apply Hfit, (side_place n).
  - by eapply (dirs_of_file fs n f s).
Qed.

Lemma resolve_final fs n f follow :
  good fs -> fl !! n = Some f -> dirs_to b (ents fs) (pieces (name f)) ->
  resolve cwd fs follow (join base (name f))
  = match ents fs !! k_final f with Some e => Found (k_final f) e | None => Missing (k_final f) end.
Proof.
  intros (Hwf & Hb & Hfit) Ef Hd. apply (resolve_target cwd base b); [done| | |done].
  - apply tidy_text. by eapply tidy_at.
  - apply Hfit. by apply (keys_of_file n f).
Qed.

Lemma remove_exact fs n f s :
  good fs -> fl !! n = Some f -> s = DL \/ s = DG ->
  ents fs !! k_side f s = None \/ (exists i, ents fs !! k_side f s = Some (EFile i)) ->
  let fs' := set_ents (delete (k_side f s) (ents fs)) fs in
  or_same (remove_file cwd fs (join base (name f) ++ s)) fs = fs' /\ good fs'.
Proof.
  intros Hg Ef Hs He fs'.
  pose proof (side_place n f s Ef Hs) as Hpl. destruct He as [He|[i He]].
  - assert (fs' = fs) as -> by (unfold fs', set_ents; rewrite delete_id by done; by destruct fs).
    split; [|done]. destruct Hg as (_ & Hb & Hfit).
    pose proof (resolve_absent cwd base b fs false _ _ Hb (tidy_side _ s (tidy_at _ _ Ef) Hs)
      (Hfit _ Hpl) He) as Hr.
    unfold remove_file. by destruct (resolve cwd fs false _) as [? [| |]| |].
  - split; [unfold remove_file; by rewrite (resolve_side fs n f s false (EFile i))|].
    apply (good_confined fs); [apply (confined_delete b fs _ (EFile i)); [apply under_side|done..|apply Hg]| |done].
    apply (fits_change (ents fs)); [done|apply Hg|]. intros k. cbn.
    destruct (decide (k = k_side f s)) as [->|]; [right; left; by rewrite lookup_delete_eq|].
    left. by rewrite lookup_delete_ne.
Qed.

Lemma final_parent fs n f p c :
  good fs -> fl !! n = Some f -> dirs_to b (ents fs) (pieces (name f)) ->
  k_final f = p ++ [c] -> p = [] \/ ents fs !! p = Some EDir.
Proof.
  intros (Hwf & Hb & _) Ef Hd. unfold k_final.
  destruct (tidy_text _ (tidy_at _ _ Ef)) as (_ & Ht & _).
  destruct (pieces (name f)) as [|z q _] using rev_ind; [done|].
  rewrite app_assoc. intros [<- _]%app_inj_tail.
  destruct (decide (q = [])) as [->|Hq]; [rewrite app_nil_r; by destruct Hb|].
  right. specialize (Hd (length q)). rewrite take_app_le, firstn_all in Hd by lia.
  apply Hd. rewrite length_app. destruct q; [done|simpl; lia].
Qed.

Lemma rename_exact fs n f i :
  good fs -> fl !! n = Some f -> ents fs !! k_side f DL = Some (EFile i) ->
  let fs' := set_ents (<[k_final f := EFile i]> (delete (k_side f DL) (ents fs))) fs in
  or_same (rename cwd fs (join base (name f) ++ DL) (join base (name f))) fs = fs' /\ good fs'.
Proof.
  intros Hg Ef He fs'. destruct (keys_of_file n f Ef) as (Kfd & _ & _ & Pf & _).
  destruct (dirs_of_file fs n f DL _ (proj1 Hg) Ef He) as [Hd _].
  destruct (proj2 (proj2 Hg) _ Pf) as [_ Hfin]. fold (k_final f) in Hfin. split.
  - unfold rename. rewrite (resolve_side fs n f DL false (EFile i)) by auto.
    rewrite (resolve_final fs n) by done.
    destruct Hfin as [->|[ix ->]]; [done|]. cbn [is_dir_ent orb].
    by rewrite bool_decide_eq_false_2 by congruence.
  - apply (good_confined fs); [|  |done].
    + apply confined_move; [apply under_side|by eapply under_final|congruence|done| | |by exists i].
      * intros e' Ee'. destruct Hfin as [Ex|[ix Ex]]; rewrite Ex in Ee'; [done|]. by injection Ee' as <-.
      * intros p c. by apply (final_parent fs n).
    + apply (fits_change (ents fs)); [done|apply Hg|]. intros k. cbn.
      destruct (decide (k = k_final f)) as [->|];
        [right; right; left; exists (pieces (name f)), i; by rewrite lookup_insert_eq|].
      rewrite lookup_insert_ne by done.
      destruct (decide (k = k_side f DL)) as [->|]; [right; left; by rewrite lookup_delete_eq|].
      left. by rewrite lookup_delete_ne.
Qed.

Lemma mtime_exact fs n f i d t0 t :
  good fs -> fl !! n = Some f -> ents fs !! k_final f = Some (EFile i) ->
  inodes fs !! i = Some (mkInode d t0) ->
  set_mtime cwd fs (join base (name f)) t = set_inode i (mkInode d t) fs.
Proof.
  intros Hg Ef He Hi. unfold set_mtime. rewrite (resolve_final fs n); [|done|done|].
  - by rewrite He, Hi.
  - apply (dirs_to_entry fs _ (EFile i)); [apply Hg|done].
Qed.

Definition finished (f : FileEntry) (i : Z) (d : bytes) (fs : Fs) : Fs :=
  mkFs (<[k_final f := EFile i]> (delete (k_side f DL) (delete (k_side f DG) (ents fs))))
    (<[i := mkInode d (mtime_of f)]> (inodes fs)) (next_ino fs).

(** The end of a file: the digest goes, the download gets the name and the time. *)
Lemma finish_exact n f i d t fs j :
  Z.of_nat (length fl) < 2 ^ 31 -> receiving cwd base b fs j -> fits (ents fs) fl ->
  files j = fl -> file_num j = Z.of_nat n -> fl !! n = Some f ->
  ents fs !! k_side f DL = Some (EFile i) -> inodes fs !! i = Some (mkInode d t) ->
  (ents fs !! k_side f DG = None \/ exists i', ents fs !! k_side f DG = Some (EFile i')) ->
  modify_time cwd fs j = finished f i d fs /\ good (finished f i d fs).
Proof.
  intros Hlen Hr Hfit Hf Hnum Ef Ed Ei Eg. destruct (re_fs _ _ _ _ _ Hr) as (Hwf & Hb & _).
  destruct (keys_of_file n f Ef) as (Kfd & Kfg & Kdg & Pf & _).
  assert (good fs) as Hg by (split; [done|]; split; done).
  destruct (remove_exact fs n f DG Hg Ef (or_intror eq_refl) Eg) as [E1 Hg1].
  set (fs1 := set_ents _ fs) in *.
  assert (ents fs1 !! k_side f DL = Some (EFile i)) as Ed1 by (cbn; by rewrite lookup_delete_ne).
  destruct (rename_exact fs1 n f i Hg1 Ef Ed1) as [E2 Hg2]. set (fs2 := set_ents _ fs1) in *.
  assert (current_path cwd fs j = Some (f, join base (name f))) as Ec.
  { unfold current_path, resolve_entry_path.
    rewrite (re_type _ _ _ _ _ Hr), (re_source _ _ _ _ _ Hr), Hnum.
    rewrite entry_at_nat by (first [done|by eapply lookup_lt_Some]). rewrite Ef.
    destruct (tidy_at _ _ Ef) as (Hne & Hv & _). cbn [mbind option_bind].
    by rewrite (clear_validated cwd base b) by (first [done|by apply Hfit]). }
  assert (ents fs2 !! k_final f = Some (EFile i)) as Ef2 by (cbn; by rewrite lookup_insert_eq).
  assert (modify_time cwd fs j = finished f i d fs) as Em.
  { unfold modify_time. rewrite Ec. cbv beta iota zeta. unfold dot_digest, dot_download.
    by rewrite E1, E2, (mtime_exact fs2 n f i d t). }
  split; [done|]. apply (good_confined fs2); [|apply Hg2|done].
  apply (confined_set_inode b fs2 i (mkInode d (mtime_of f))).
  apply (inside_at b fs2 (k_final f)); [apply Hg2|by eapply under_final|done].
Qed.

Lemma modify_time_exact n d fs j :
  Z.of_nat (length fl) < 2 ^ 31 -> copying n d fs j ->
  exists f i, fl !! n = Some f /\ ents fs !! k_side f DL = Some (EFile i)
    /\ modify_time cwd fs j = finished f i d fs /\ fits (ents (finished f i d fs)) fl.
Proof.
  intros Hlen Hc. destruct (cp_open _ _ _ _ Hc) as (f & i & i' & t & Ef & Ed & Ei & Eg & Es).
  exists f, i. split; [done|]. split; [done|].
  destruct (finish_exact n f i d t fs j Hlen (cp_recv _ _ _ _ Hc) (cp_fits _ _ _ _ Hc)
    (cp_files _ _ _ _ Hc) (cp_num _ _ _ _ Hc) Ef Ed Ei (or_intror (ex_intro _ i' Eg))) as [E Hg].
  split; [done|apply Hg].
Qed.

Lemma lookup_other {A} (m : gmap key A) k k' x : k <> k' -> <[k := x]> m !! k' = m !! k'.
Proof. apply lookup_insert_ne. Qed.

Lemma k_side_DL_in f : side (pieces (name f)) DL ∈ places_of f.
Proof. unfold places_of. rewrite !elem_of_cons. auto. Qed.
Lemma k_side_DG_in f : side (pieces (name f)) DG ∈ places_of f.
Proof. unfold places_of. rewrite !elem_of_cons. auto. Qed.
Lemma k_final_in f : pieces (name f) ∈ places_of f.
Proof. unfold places_of. rewrite !elem_of_cons. auto. Qed.

Hint Resolve k_side_DL_in k_side_DG_in k_final_in : core.

Lemma finish_settled n d fs j :
  Z.of_nat (length fl) < 2 ^ 31 -> copying n d fs j -> contents !! n = Some d ->
  settled (S n) (modify_time cwd fs j).
Proof.
  intros Hlen Hc Hd. destruct (modify_time_exact n d fs j Hlen Hc) as (f & i & Ef & Ei & E & Hfit).
  destruct (re_fs _ _ _ _ _ (cp_recv _ _ _ _ Hc)) as (Hwf & _).
  destruct (keys_of_file n f Ef) as (Kfd & Kfg & _). rewrite E. split; [done| |].
  - intros k g c Hk Eg Ec. destruct (decide (k = n)) as [->|Hne].
    + assert (g = f) as -> by congruence. assert (c = d) as -> by congruence.
      exists i. cbn. by rewrite !lookup_insert_eq.
    + destruct (cp_done _ _ _ _ Hc k g c) as (i' & E1 & E2); [lia|done..|].
      assert (forall t, t ∈ places_of f -> b ++ t <> k_final g) as Hdiff
        by (intros t Ht; apply (keys_differ n k f g); auto).
      exists i'. cbn. rewrite lookup_insert_ne, !lookup_delete_ne by (apply Hdiff; auto).
      split; [done|]. rewrite lookup_insert_ne; [done|]. intros <-.
      destruct Hwf as (_ & W2 & _). apply (Hdiff (side (pieces (name f)) DL)); [auto|].
      by apply (W2 _ _ i).
  - intros k g Hk Eg. destruct (cp_absent _ _ _ _ Hc k g) as [E1 E2]; [lia|done|].
    assert (forall s t, s = DL \/ s = DG -> t ∈ places_of f -> b ++ t <> k_side g s) as Hdiff.
    { intros s t Hs Ht. apply (keys_differ n k f g); [done|done|lia|done|]. destruct Hs as [->| ->]; auto. }
    cbn. rewrite !lookup_insert_ne, !lookup_delete_ne by (apply Hdiff; auto). done.
Qed.

(** The directories made for a file, nothing else changed. *)
Lemma parents_exact fs n f :
  good fs -> fl !! n = Some f ->
  let fs' := create_parent_dirs cwd fs (join base (name f)) in
  good fs' /\ dirs_to b (ents fs') (pieces (name f))
  /\ inodes fs' = inodes fs /\ next_ino fs' = next_ino fs
  /\ forall t, t ∈ places fl -> ents fs' !! (b ++ t) = ents fs !! (b ++ t).
Proof.
  intros (Hwf & Hb & Hfit) Ef fs'. destruct (tidy_at _ _ Ef) as (Hne & Hv & Hnd).
  destruct (tidy_text _ (tidy_at _ _ Ef)) as (_ & Ht & Es & Ep & _ & Hdd).
  set (t := pieces (name f)) in *.
  assert (0 < length t)%nat as Hl by (destruct t; [done|simpl; lia]).
  destruct (keys_of_file n f Ef) as (_ & _ & _ & Pf & _).
  destruct (mkdirs_exact cwd base b fs t (length (pieces base ++ t) - 1)) as (I1 & I2 & I3 & I4 & I5);
    [done|done|apply Hfit; done|done|by apply under_app|rewrite length_app; lia|].
  assert (fs' = foldl (mkdir_step (start_of cwd base) (pieces base ++ t)) fs
                  (seq 1 (length (pieces base ++ t) - 1))) as Efs.
  { unfold fs'. by rewrite create_parent_dirs_eq, Ep, Es. }
  rewrite <- Efs in *. clear Efs.
  assert (forall t', t' ∈ places fl -> ents fs' !! (b ++ t') = ents fs !! (b ++ t')) as Hsame.
  { intros t' Ht'. destruct (I2 (b ++ t')) as [(m & Hm & E & _)|E]; [|done]. exfalso.
    apply app_inv_head in E. destruct Hdis as [_ Hpre].
    assert (t = t' ++ drop m t) as Et by (by rewrite E, take_drop).
    apply (Hpre t' t _ Ht' Pf) in Et as Er. apply (f_equal length) in Er. rewrite length_drop in Er.
    simpl in Er. lia. }
  split; [|split; [|done]].
  - apply (good_confined fs); [done| |done]. apply (fits_change (ents fs)); [done..|].
    intros k. destruct (I2 k) as [(m & Hm & E & Ek)|E]; [|by left].
    right. right. right. by exists t, m.
  - intros m Hm. apply I1; [done|]. rewrite length_app. lia.
Qed.

Lemma resolve_side_missing fs n f s follow :
  good fs -> fl !! n = Some f -> s = DL \/ s = DG -> dirs_to b (ents fs) (pieces (name f)) ->
  ents fs !! k_side f s = None ->
  resolve cwd fs follow (join base (name f) ++ s) = Missing (k_side f s).
Proof.
  intros (Hwf & Hb & Hfit) Ef Hs Hd He. destruct (tidy_text _ (tidy_at _ _ Ef)) as (_ & Ht & _).
  rewrite (resolve_target cwd base b fs follow _ (side (pieces (name f)) s)).
  - unfold k_side in He. by rewrite He.
  - done.
  - apply tidy_side; [by eapply tidy_at|done].
  - by apply Hfit, (side_place n).
  - by apply dirs_side.
Qed.

(** A new file in the place of a companion. *)
Lemma create_side now fs n f s :
  good fs -> fl !! n = Some f -> s = DL \/ s = DG -> dirs_to b (ents fs) (pieces (name f)) ->
  ents fs !! k_side f s = None ->
  let i := next_ino fs in
  let fs' := mkFs (<[k_side f s := EFile i]> (ents fs)) (<[i := mkInode [] now]> (inodes fs)) (i + 1) in
  file_create cwd can_create now fs (join base (name f) ++ s) = Some (fs', i)
  /\ good fs' /\ dirs_to b (ents fs') (pieces (name f)).
Proof.
  intros Hg Ef Hs Hd He i fs'. destruct Hg as (Hwf & Hb & Hfit).
  assert (good fs) as Hg by (split; [done|split; done]). split; [|split].
  - unfold file_create. by rewrite (resolve_side_missing fs n), Hcreate.
  - apply (good_confined fs); [| |done].
    + apply confined_new_file; [apply under_side|done|done|]. intros p c. unfold k_side, side.
      destruct (tidy_text _ (tidy_at _ _ Ef)) as (_ & Ht & _).
      destruct (pieces (name f)) as [|z q _] using rev_ind; [done|].
      rewrite removelast_last, app_assoc. intros [<- _]%app_inj_tail.
      destruct (decide (q = [])) as [->|Hq]; [rewrite app_nil_r; by destruct Hb|].
      right. specialize (Hd (length q)). rewrite take_app_le, firstn_all in Hd by lia.
      apply Hd. rewrite length_app. destruct q; [done|simpl; lia].
    + apply (fits_change (ents fs)); [done..|]. intros k. cbn.
      destruct (decide (k = k_side f s)) as [->|]; [|left; by rewrite lookup_insert_ne].
      right; right; left. exists (side (pieces (name f)) s), i. rewrite lookup_insert_eq.
      split; [by apply (side_place n)|done].
  - apply (dirs_to_change (ents fs)); [|done]. intros k Ek. cbn. rewrite lookup_insert_ne; [done|].
    congruence.
Qed.

Lemma open_exact now fs n f j :
  good fs -> fl !! n = Some f -> dirs_to b (ents fs) (pieces (name f)) ->
  ents fs !! k_side f DL = None -> ents fs !! k_side f DG = None ->
  let i := next_ino fs in
  let fs' := mkFs (<[k_side f DG := EFile (i + 1)]> (<[k_side f DL := EFile i]> (ents fs)))
    (<[i + 1 := mkInode (digest_to_string (digest j)) now]>
       (<[i + 1 := mkInode [] now]> (<[i := mkInode [] now]> (inodes fs)))) (i + 1 + 1) in
  open_target cwd can_create now fs (dot_download (join base (name f)))
    (Some (dot_digest (join base (name f)))) j
  = (fs', set_data_stream (Some (FileStream (HFile i 0 true))) j, Ok tt)
  /\ good fs'.
Proof.
  intros Hg Ef Hd E1 E2 i fs'. destruct (keys_of_file n f Ef) as (_ & _ & Kdg & _).
  destruct (create_side now fs n f DL Hg Ef (or_introl eq_refl) Hd E1) as (C1 & Hg1 & Hd1).
  set (fs1 := mkFs _ _ _) in C1, Hg1, Hd1.
  assert (ents fs1 !! k_side f DG = None) as E2' by (cbn; by rewrite lookup_insert_ne).
  destruct (create_side now fs1 n f DG Hg1 Ef (or_intror eq_refl) Hd1 E2') as (C2 & Hg2 & _).
  split; [|exact Hg2].
  unfold open_target, dot_digest, dot_download.
  assert (exists_ cwd fs (join base (name f) ++ DG) = false) as ->.
  { unfold exists_. by rewrite (resolve_side_missing fs n) by auto. }
  rewrite C1. cbv beta iota zeta. unfold write_file. rewrite C2. reflexivity.
Qed.

(** The first block of a file, the former one being finished. *)
Lemma switch_copying now fs n f j :
  Z.of_nat (length fl) < 2 ^ 31 -> settled n (modify_time cwd fs j) -> receiving cwd base b fs j ->
  files j = fl -> fl !! n = Some f ->
  let w := switch_file cwd can_create now fs base (Z.of_nat n) f j in
  w.2 = Ok tt /\ copying n [] w.1.1 w.1.2 /\ id w.1.2 = id j /\ digest w.1.2 = digest j.
Proof.
  intros Hlen Hs Hr Hf Ef w. pose proof (modify_time_confined cwd base b fs j Hr) as Hcm.
  pose proof (receiving_confined cwd base b _ _ _ Hcm Hr) as Hrm.
  destruct (re_fs _ _ _ _ _ Hrm) as (Hwf & Hb & _). set (fsm := modify_time cwd fs j) in *.
  assert (good fsm) as Hg by (split; [done|split; [done|apply Hs]]).
  destruct (parents_exact fsm n f Hg Ef) as (Hg1 & Hd1 & Hi1 & Hn1 & Hsame).
  set (fsp := create_parent_dirs cwd fsm (join base (name f))) in *.
  destruct (keys_of_file n f Ef) as (Kfd & Kfg & Kdg & Pf & Pd & Pg).
  destruct (tidy_at _ _ Ef) as (Hne & Hv & _).
  assert (join_validated_path cwd fsm base (name f) = Ok (join base (name f))) as Ev
    by (apply (clear_validated cwd base b); [done..|by apply Hg]).
  destruct (se_absent _ _ Hs n f ltac:(lia) Ef) as [A1 A2].
  assert (receiving cwd base b fsp j) as Hrp.
  { eapply receiving_confined; [|done]. apply validated_name_ok with (b := b) in Ev as [Hnm _]; [|done..].
    apply create_parent_dirs_confined; [apply Hrm|done]. }
  set (jn := with_stream (Z.of_nat n) (data_stream j) j).
  destruct (open_exact now fsp n f jn Hg1 Ef Hd1) as [Eo Hfit];
    [unfold k_side; by rewrite Hsame|unfold k_side; by rewrite Hsame|].
  assert (w = open_target cwd can_create now fsp (dot_download (join base (name f)))
                (Some (dot_digest (join base (name f)))) jn) as Ew.
  { unfold w, switch_file. change (type (with_stream _ _ j)) with (type j).
    rewrite (re_type _ _ _ _ _ Hr). fold fsm. by rewrite Ev. }
  assert (receiving cwd base b fsp jn) as Hrn by (apply (receiving_job cwd base b _ j); try done; apply Hrp).
  rewrite Eo in Ew. set (fs' := mkFs _ _ _) in *.
  assert (receiving cwd base b fs' (set_data_stream (Some (FileStream (HFile (next_ino fsp) 0 true))) jn)) as Hr'.
  { eapply (open_target_confined cwd can_create base b now fsp (name f) jn); [done| |exact Eo].
    apply (validated_name_ok cwd base b fsp (name f) (join base (name f))); try done; try apply Hg1.
    apply (clear_validated cwd base b); [apply Hg1|done|done|by apply Hg1]. }
  rewrite Ew. cbn [fst snd]. split; [done|]. split; [|done].
  assert (forall k g t, fl !! k = Some g -> k <> n -> t ∈ places_of g ->
    ents fs' !! (b ++ t) = ents fsm !! (b ++ t)) as Hother.
  { intros k g t Eg Hk Ht. cbn. unfold k_side.
    assert (forall t', t' ∈ places_of f -> b ++ t' <> b ++ t) as Hdiff
      by (intros t' Ht'; by apply (keys_differ n k f g)).
    rewrite !lookup_insert_ne by (apply Hdiff; auto). apply Hsame. by apply (places_elem fl k g). }
  split; [done|done|done|apply Hfit| | |].
  - intros k g c Hk Eg Ec. destruct (se_done _ _ Hs k g c Hk Eg Ec) as (i & G1 & G2).
    exists i. unfold k_final in *. rewrite (Hother k g) by (first [done|lia|auto]). split; [done|].
    destruct Hwf as (_ & _ & W3 & _). apply W3 in G1. cbn.
    rewrite !lookup_insert_ne by (rewrite Hn1; lia). by rewrite Hi1.
  - intros k g Hk Eg. destruct (se_absent _ _ Hs k g ltac:(lia) Eg) as [B1 B2].
    unfold k_side in *. rewrite !(Hother k g) by (first [done|lia|auto]). done.
  - exists f, (next_ino fsp), (next_ino fsp + 1), now. cbn.
    rewrite lookup_insert_ne by done. rewrite !lookup_insert_eq. rewrite !(lookup_insert_ne _ (next_ino fsp + 1)) by lia.
    by rewrite lookup_insert_eq.
Qed.

(** ** A whole sequence of blocks *)

(** The blocks of file [n], in order: at least one, and together its bytes. *)
Definition sends (i : Z) (n : nat) (c : bytes) (bs : list Block) : Prop :=
  bs <> [] /\ Forall (fun bl => b_id bl = i /\ b_file_num bl = Z.of_nat n) bs
  /\ concat (decoded <$> bs) = c.

Lemma write_at_end d x : write_at d (length d) x = d ++ x.
Proof.
  unfold write_at. rewrite firstn_all, Nat.sub_diag. cbn [replicate app].
  rewrite drop_ge by lia. by rewrite app_nil_r.
Qed.

(** The end of [write]: the bytes go to the end of the open file. *)
Lemma append_copying now n d fs j bl :
  copying n d fs j ->
  exists s fs' s',
    data_stream j = Some s /\ write_all now fs s (decoded bl) = Some (fs', s')
    /\ copying n (d ++ decoded bl) fs'
         (add_counts (length (decoded bl)) (length (b_data bl)) (set_data_stream (Some s') j)).
Proof.
  intros Hc. destruct (cp_open _ _ _ _ Hc) as (f & i & i' & t & Ef & Ed & Ei & Eg & Es).
  pose proof (cp_recv _ _ _ _ Hc) as Hr. pose proof (re_stream _ _ _ _ _ Hr i (length d) Es) as Hin.
  destruct (re_fs _ _ _ _ _ Hr) as ((_ & W2 & _) & _).
  set (x := decoded bl). set (fs' := set_inode i (mkInode (d ++ x) now) fs).
  assert (handle_write now fs (HFile i (length d) true) x = Some (fs', HFile i (length d + length x) true)) as Ew.
  { unfold handle_write. rewrite Ei. cbn [content]. by rewrite write_at_end. }
  exists (FileStream (HFile i (length d) true)), fs', (FileStream (HFile i (length d + length x) true)).
  split; [done|]. split; [unfold write_all; by rewrite Ew|].
  apply (handle_write_confined now b) in Ew as [Hcf _]; [|done].
  split; try apply Hc.
  - apply (receiving_job cwd base b _ j); try done; [by apply (receiving_confined cwd base b fs)|].
    intros k pos [= <- <-]. by apply (co_inside _ _ _ Hcf).
  - intros k g c Hk Eg' Ec. destruct (cp_done _ _ _ _ Hc k g c Hk Eg' Ec) as (ig & G1 & G2).
    exists ig. split; [done|]. cbn. rewrite lookup_insert_ne; [done|]. intros <-.
    apply (keys_differ n k f g (side (pieces (name f)) DL) (pieces (name g))); auto; [lia|].
    by apply (W2 _ _ i).
  - exists f, i, i', now. cbn. rewrite lookup_insert_eq, length_app. done.
Qed.

Lemma write_tail now fs block j fs1 j1 n d :
  b_id block = id j -> prepare_write cwd can_create now fs block j = (fs1, j1, Ok tt) ->
  copying n d fs1 j1 -> id j1 = id j ->
  exists fs' j', write cwd can_create now fs block j = (fs', j', Ok tt)
    /\ copying n (d ++ decoded block) fs' j' /\ id j' = id j.
Proof.
  intros Hid Ep Hc Hij. destruct (append_copying now n d fs1 j1 block Hc) as (s & fs' & s' & Es & Ew & Hc').
  exists fs', (add_counts (length (decoded block)) (length (b_data block)) (set_data_stream (Some s') j1)).
  split; [|done]. unfold write. rewrite Hid, Z.eqb_refl. cbn [negb]. rewrite Ep, Es. cbv zeta.
  unfold decoded in Ew. rewrite Ew. done.
Qed.

Context (Hlen : Z.of_nat (length fl) < 2 ^ 31).

Lemma prepare_same now fs block j n d :
  copying n d fs j -> b_file_num block = Z.of_nat n ->
  prepare_write cwd can_create now fs block j = (fs, j, Ok tt).
Proof.
  intros Hc Hn. destruct (cp_open _ _ _ _ Hc) as (f & i & i' & t & Ef & _ & _ & _ & Es).
  unfold prepare_write. rewrite (re_source _ _ _ _ _ (cp_recv _ _ _ _ Hc)), Hn.
  rewrite entry_at_nat by (first [done|apply Hc|by eapply lookup_lt_Some]).
  by rewrite Ef, (cp_num _ _ _ _ Hc), Z.eqb_refl, Es.
Qed.

Lemma prepare_next now fs block j n f :
  receiving cwd base b fs j -> files j = fl -> settled n (modify_time cwd fs j) ->
  b_file_num block = Z.of_nat n -> fl !! n = Some f ->
  (data_stream j = None \/ as_usize (file_num j) <> Z.of_nat n) ->
  exists fs1 j1, prepare_write cwd can_create now fs block j = (fs1, j1, Ok tt)
    /\ copying n [] fs1 j1 /\ id j1 = id j.
Proof.
  intros Hr Hf Hs Hn Ef Hsw.
  destruct (switch_copying now fs n f j Hlen Hs Hr Hf Ef) as (E & Hc & Hid & _).
  destruct (switch_file cwd can_create now fs base (Z.of_nat n) f j) as [[fs1 j1] r] eqn:Esw.
  cbn [fst snd] in *. subst r. exists fs1, j1. split; [|done].
  unfold prepare_write. rewrite (re_source _ _ _ _ _ Hr), Hn.
  pose proof (lookup_lt_Some _ _ _ Ef) as Hlt. rewrite entry_at_nat by done. rewrite Ef.
  assert (as_usize (Z.of_nat n) = Z.of_nat n) as ->
    by (unfold as_usize, Int.wrap; apply Z.mod_small; lia).
  assert (negb (Z.of_nat n =? as_usize (file_num j))
          || match data_stream j with None => true | Some _ => false end = true) as ->; [|done].
  destruct Hsw as [->|Hsw]; [by rewrite orb_true_r|].
  destruct (Z.eqb_spec (Z.of_nat n) (as_usize (file_num j))); [congruence|done].
Qed.

(** The controller with one write job. *)
Definition holds_job (P : Fs -> TransferJob -> Prop) (i : Z) (c : Client) : Prop :=
  exists j, write_jobs c = [j] /\ id j = i /\ P (fs_ c) j.

Definition feed (c : Client) (msgs : list (Z * Block)) : Client :=
  foldl (fun c m => (recv_block cwd can_create m.1 m.2 c).1) c msgs.

Lemma recv_one now block c j fs' j' r :
  write_jobs c = [j] -> id j = b_id block ->
  write cwd can_create now (fs_ c) block j = (fs', j', r) ->
  (recv_block cwd can_create now block c).1 = mkClient fs' [j'].
Proof.
  intros Ej Hid Ew. unfold recv_block, on_job, get_job. rewrite Ej. cbn [list_find].
  destruct (decide (id j = b_id block)); [|done]. by rewrite Ew.
Qed.

Lemma feed_same i n d c msgs :
  holds_job (copying n d) i c ->
  Forall (fun bl => b_id bl = i /\ b_file_num bl = Z.of_nat n) (snd <$> msgs) ->
  holds_job (copying n (d ++ concat (decoded <$> (snd <$> msgs)))) i (feed c msgs).
Proof.
  revert d c. induction msgs as [|[now bl] msgs IH]; intros d c Hh Hall.
  { cbn. by rewrite app_nil_r. }
  rewrite fmap_cons in Hall. apply Forall_cons in Hall as [[Hid Hn] Hall]. cbn [snd] in *.
  destruct Hh as (j & Ej & Hij & Hc).
  destruct (write_tail now (fs_ c) bl j (fs_ c) j n d) as (fs' & j' & Ew & Hc' & Hij');
    [congruence|by apply prepare_same with (n := n) (d := d)|done|done|].
  rewrite !fmap_cons. cbn [snd concat]. rewrite app_assoc.
  change (feed c ((now, bl) :: msgs)) with (feed (recv_block cwd can_create now bl c).1 msgs).
  apply IH; [|done]. rewrite (recv_one now bl c j fs' j' (Ok tt)) by (congruence || done).
  exists j'. split; [done|]. split; [congruence|done].
Qed.

(** The blocks of a file that is not the open one. *)
Lemma feed_file i n c f x msgs :
  holds_job (fun fs j => receiving cwd base b fs j /\ files j = fl /\ settled n (modify_time cwd fs j)
     /\ (data_stream j = None \/ as_usize (file_num j) <> Z.of_nat n)) i c ->
  fl !! n = Some f -> sends i n x (snd <$> msgs) ->
  holds_job (copying n x) i (feed c msgs).
Proof.
  intros (j & Ej & Hij & Hr & Hf & Hs & Hsw) Ef (Hne & Hall & Hx).
  destruct msgs as [|[now bl] msgs]; [done|].
  rewrite fmap_cons in Hall, Hx. apply Forall_cons in Hall as [[Hid Hn] Hall]. cbn [snd] in *.
  destruct (prepare_next now (fs_ c) bl j n f Hr Hf Hs Hn Ef Hsw) as (fs1 & j1 & Ep & Hc1 & Hi1).
  destruct (write_tail now (fs_ c) bl j fs1 j1 n []) as (fs' & j' & Ew & Hc' & Hij');
    [congruence|done|done|done|].
  rewrite fmap_cons in Hx. cbn [concat] in Hx. rewrite <- Hx.
  change (feed c ((now, bl) :: msgs)) with (feed (recv_block cwd can_create now bl c).1 msgs).
  apply (feed_same i n (decoded bl)); [|done].
  rewrite (recv_one now bl c j fs' j' (Ok tt)) by (congruence || done).
  exists j'. split; [done|]. split; [congruence|done].
Qed.

Definition is_settled (n : nat) (fs : Fs) : Prop := good fs /\ settled n fs.

Lemma copying_end n d fs j :
  copying n d fs j -> contents !! n = Some d -> is_settled (S n) (modify_time cwd fs j).
Proof.
  intros Hc Hd. pose proof (finish_settled n d fs j Hlen Hc Hd) as Hs. split; [|done].
  pose proof (cp_recv _ _ _ _ Hc) as Hr. destruct (re_fs _ _ _ _ _ Hr) as (Hwf & Hb & _).
  apply (good_confined fs); [by apply (modify_time_confined cwd base b)|apply Hs|].
  split; [done|]. split; [done|apply Hc].
Qed.

(** The blocks of the files after the open one, in order. *)
Lemma feed_files i n c d msgs :
  holds_job (copying n d) i c -> contents !! n = Some d ->
  length contents = length fl -> length msgs = (length fl - S n)%nat ->
  (forall k m x, msgs !! k = Some m -> contents !! (S n + k)%nat = Some x ->
     sends i (S n + k) x (snd <$> m)) ->
  exists d', contents !! (length fl - 1)%nat = Some d'
    /\ holds_job (copying (length fl - 1) d') i (feed c (concat msgs)).
Proof.
  intros Hh Hd Hcl Hml Hall. revert n c d Hh Hd Hml Hall.
  induction msgs as [|m msgs IH]; intros n c d Hh Hd Hml Hall.
  { assert (n < length fl)%nat as Hn by (rewrite <- Hcl; by eapply lookup_lt_Some).
    cbn in Hml. assert (length fl - 1 = n)%nat as -> by lia. by exists d. }
  cbn in Hml. assert (is_Some (contents !! S n)) as [x Hx] by (apply lookup_lt_is_Some; lia).
  assert (is_Some (fl !! S n)) as [f Ef] by (apply lookup_lt_is_Some; lia).
  cbn [concat]. unfold feed. rewrite foldl_app. fold (feed c m). fold (feed (feed c m) (concat msgs)).
  assert (holds_job (copying (S n) x) i (feed c m)) as Hh'.
  { apply (feed_file i (S n) c f); [|done|].
    - destruct Hh as (j & Ej & Hij & Hc). exists j. split; [done|]. split; [done|].
      split; [apply Hc|]. split; [apply Hc|]. split; [by apply (finish_settled n d)|].
      right. rewrite (cp_num _ _ _ _ Hc). unfold as_usize, Int.wrap.
      pose proof (lookup_lt_Some _ _ _ Ef). rewrite Z.mod_small by lia. lia.
    - specialize (Hall 0%nat m x eq_refl). rewrite Nat.add_0_r in Hall. by apply Hall. }
  apply (IH (S n) _ x Hh' Hx); [lia|]. intros k m' x' Hm Hx'.
  specialize (Hall (S k) m' x' Hm). rewrite <- Nat.add_succ_comm in Hall. by apply Hall.
Qed.

(** A new job touches nothing before its first block but the time of a file that
    has the first name. *)
Lemma new_job_settled fs j :
  fs_ok cwd base b fs -> fits (ents fs) fl -> receiving cwd base b fs j ->
  (forall f, f ∈ fl -> ents fs !! k_side f DL = None /\ ents fs !! k_side f DG = None) ->
  files j = fl -> settled 0 (modify_time cwd fs j).
Proof.
  intros (Hwf & Hb & _) Hfit Hr Habs Hf.
  assert (ents (modify_time cwd fs j) = ents fs) as E.
  { unfold modify_time. destruct (current_path cwd fs j) as [[f p]|] eqn:Ec; [|done].
    destruct (current_path_ok cwd base b fs j f p Hr Ec) as [-> _].
    assert (f ∈ fl) as Hin.
    { revert Ec. unfold current_path, resolve_entry_path. rewrite (re_type _ _ _ _ _ Hr), (re_source _ _ _ _ _ Hr).
      destruct (entry_at j _) as [g|] eqn:Eg; [|done]. cbn.
      destruct (join_validated_path _ _ _ _); [|done]. cbn. intros [= -> _].
      rewrite <- Hf. by eapply entry_at_In. }
    apply list_elem_of_lookup in Hin as [n Ef]. pose proof (Habs f) as Hab.
    destruct Hab as [A1 A2]; [by eapply list_elem_of_lookup_2|].
    pose proof (tidy_at _ _ Ef) as Hti.
    assert (forall s follow, s = DL \/ s = DG -> ents fs !! k_side f s = None ->
      match resolve cwd fs follow (join base (name f) ++ s) with Found _ _ => False | _ => True end) as Hres.
    { intros s follow Hs Ha. apply (resolve_absent cwd base b fs follow _ (side (pieces (name f)) s));
        [done|by apply tidy_side|by apply Hfit, (side_place n)|done]. }
    assert (or_same (remove_file cwd fs (join base (name f) ++ DG)) fs = fs) as E1.
    { unfold remove_file. specialize (Hres DG false (or_intror eq_refl) A2).
      by destruct (resolve cwd fs false _) as [? [| |]| |]. }
    assert (or_same (rename cwd fs (join base (name f) ++ DL) (join base (name f))) fs = fs) as E2.
    { unfold rename. specialize (Hres DL false (or_introl eq_refl) A1).
      by destruct (resolve cwd fs false (_ ++ DL)). }
    cbv zeta. unfold dot_digest, dot_download. rewrite E1, E2. unfold set_mtime.
    destruct (resolve cwd fs true _) as [? [i| |]| |]; try done. by destruct (inodes fs !! i). }
  split.
  - by rewrite E.
  - intros; lia.
  - intros k f _ Ef. rewrite E. apply Habs. by eapply list_elem_of_lookup_2.
Qed.
End Copy.

(** ** A job that reads: its messages, to the end *)

Section Send.
Context (cwd : key) `{Codec} (granted : nat -> nat) (fs : Fs).

(** The sender's loop: [handle_read_jobs] while there are jobs, the files staying as
    they are. *)
Fixpoint send_loop (fuel : nat) (jobs : list TransferJob) : list TransferJob * list Message :=
  match fuel, jobs with
  | O, _ | _, [] => (jobs, [])
  | S fuel, _ =>
      let '(jobs, sent, _) := handle_read_jobs cwd granted fs jobs in
      let '(jobs, rest) := send_loop fuel jobs in
      (jobs, sent ++ rest)
  end.

Lemma send_loop_add m n jobs :
  send_loop (m + n) jobs
  = let '(jobs, sent) := send_loop m jobs in
    let '(jobs, rest) := send_loop n jobs in (jobs, sent ++ rest).
Proof.
  revert jobs. induction m as [|m IH]; intros jobs; simpl.
  { by destruct (send_loop n jobs). }
  destruct jobs as [|j jobs]; [by destruct n|].
  destruct (handle_read_jobs _ _ _ _) as [[jobs1 sent1] log]. rewrite IH.
  destruct (send_loop m jobs1) as [jobs2 sent2]. destruct (send_loop n jobs2) as [jobs3 sent3].
  by rewrite app_assoc.
Qed.

Context (Hgranted : forall pos, (0 < granted pos)%nat).
Context (Hcodec : forall x, decompress (compress x) = x).

(** The buffer is filled whatever the system gives at a time. *)
Lemma fill_exact i n fuel free pos buf :
  inodes fs !! i = Some n -> (0 < free < fuel)%nat ->
  let got := take free (drop pos (content n)) in
  fill granted fuel fs (FileStream (HFile i pos false)) free buf
  = Some (buf ++ got, FileStream (HFile i (pos + length got) false)).
Proof.
  intros Hi. revert free pos buf. induction fuel as [|fuel IH]; intros free pos buf Hf; [lia|].
  cbv zeta. cbn [fill]. unfold stream_read. cbn [stream_pos handle_read]. rewrite Hi.
  set (m := Nat.min free (granted pos)). pose proof (Hgranted pos) as Hg.
  set (l := drop pos (content n)).
  destruct (decide (take m l = [])) as [E|E].
  - assert (l = []) as ->.
    { apply (f_equal length) in E. rewrite length_take in E. cbn in E. destruct l; [done|].
      cbn in E. unfold m in E. lia. }
    by rewrite !take_nil.
  - rewrite (bool_decide_eq_false_2 (take m l = [])) by done. cbn [orb].
    assert (0 < length (take m l) <= free)%nat as Hl.
    { rewrite length_take. destruct (take m l) eqn:Et; [done|]. apply (f_equal length) in Et.
      rewrite length_take in Et. cbn in Et. unfold m in *. lia. }
    case_bool_decide as Ef.
    + assert (take free l = take m l) as ->; [|done].
      rewrite length_take in Ef. destruct (decide (m = free)) as [->|Hm]; [done|].
      rewrite !take_ge; [done|lia|lia].
    + rewrite IH by lia. cbv zeta.
      assert (drop (pos + length (take m l)) (content n) = drop (length (take m l)) l) as ->
        by (unfold l; by rewrite drop_drop).
      assert (take free l = take m l ++ take (free - length (take m l)) (drop (length (take m l)) l)) as ->.
      { rewrite <- (take_drop (length (take m l)) l) at 1.
        assert (take (length (take m l)) l = take m l) as ->.
        { rewrite length_take. destruct (decide (m <= length l)%nat);
            [by rewrite Nat.min_l|rewrite Nat.min_r, !take_ge by lia; done]. }
        rewrite take_app. by rewrite (take_ge (take m l)) by lia. }
      rewrite length_app, !app_assoc, Nat.add_assoc. done.
Qed.

(** The job while it reads file [n], from position [pos] if the file is open. *)
Record reading (p : rstr) (fl : list FileEntry) (i : Z) (n : nat) (s : option DataStream)
    (j : TransferJob) : Prop := {
  rd_id : id j = i; rd_source : data_source j = FilePath p; rd_files : files j = fl;
  rd_num : file_num j = Z.of_nat n; rd_stream : data_stream j = s;
  rd_detect : enable_overwrite_detection j = false; rd_last : is_last_job j = false;
  rd_skipped : file_skipped j = false }.

(** What a file to send holds. *)
Definition readable (p : rstr) (f : FileEntry) (c : bytes) : Prop :=
  exists i t, file_open cwd fs (job_join p (name f)) = Some (HFile i 0 false)
    /\ inodes fs !! i = Some (mkInode c t).

Context (p : rstr) (fl : list FileEntry) (Hlen : Z.of_nat (length fl) < 2 ^ 31) (i : Z).

Lemma handle_one j :
  is_last_job j = false -> enable_overwrite_detection j = false ->
  forall j', open_data_stream cwd fs j = (j', Ok false) -> is_last_job j' = false ->
  enable_overwrite_detection j' = false ->
  handle_read_jobs cwd granted fs [j]
  = let '(j2, sent, log) := read_one granted fs j' in
    (match log with Some (jl, _, _) => (remove_job (id jl) [j2]).2 | None => [j2] end, sent, log).
Proof.
  intros Hl Hd j' Ho Hl' Hd'. unfold handle_read_jobs. cbn [init_jobs]. rewrite Hl.
  unfold init_data_stream. rewrite Ho. unfold wants_digest. rewrite Hd', andb_false_r. cbn [andb].
  cbn [read_first]. rewrite Hl'. by destruct (read_one granted fs j') as [[j2 sent] log].
Qed.

(** One block of the open file, or its end. *)
Lemma read_open j n f c t ino pos :
  (n < length fl)%nat -> fl !! n = Some f -> inodes fs !! ino = Some (mkInode c t) ->
  reading p fl i n (Some (FileStream (HFile ino pos false))) j ->
  exists j' bl, read_one granted fs j = (j', [MBlock bl], None)
    /\ b_id bl = i /\ b_file_num bl = Z.of_nat n
    /\ let got := take (Z.to_nat BUF_SIZE) (drop pos c) in
       decoded bl = got
       /\ reading p fl i (if decide (got = []) then S n else n)
            (if decide (got = []) then None
             else Some (FileStream (HFile ino (pos + length got) false))) j'.
Proof.
  intros Hn Ef Hi Hr. unfold read_one, read. rewrite (rd_detect _ _ _ _ _ _ Hr), andb_false_r.
  cbn [andb]. rewrite (rd_source _ _ _ _ _ _ Hr), (rd_num _ _ _ _ _ _ Hr).
  rewrite (entry_at_nat fl) by (try done; apply Hr). rewrite Ef, (rd_stream _ _ _ _ _ _ Hr).
  assert (Z.to_nat BUF_SIZE > 0)%nat as Hbuf by (unfold BUF_SIZE; lia).
  set (max := Z.to_nat BUF_SIZE) in *. clearbody max.
  rewrite (fill_exact ino (mkInode c t)) by (done || lia). cbn [content app].
  set (got := take max (drop pos c)). cbv zeta.
  assert (Int.swrap 32 (as_usize (Z.of_nat n)) = Z.of_nat n) as En.
  { unfold as_usize, Int.wrap, Int.swrap. change (2 ^ (32 - 1)) with (2 ^ 31).
    rewrite (Z.mod_small _ (2 ^ 64)) by lia. rewrite Z.mod_small by lia. lia. }
  assert (is_file_source j = true) as Hsrc by (unfold is_file_source; by rewrite (rd_source _ _ _ _ _ _ Hr)).
  rewrite Hsrc, En. destruct got as [|x got'] eqn:Eg.
  - rewrite decide_True by done. eexists _, _. split; [reflexivity|].
    cbn. split; [apply Hr|]. split; [done|]. split; [done|]. destruct Hr. split; try done.
    cbn. rewrite rd_num0. unfold Int.swrap. change (2 ^ (32 - 1)) with (2 ^ 31).
    rewrite Z.mod_small by lia. lia.
  - rewrite <- Eg in *. rewrite !decide_False by (by rewrite Eg).
    eexists _, _. split; [reflexivity|]. cbn [b_id b_file_num]. split; [apply Hr|]. split; [done|].
    split; [|destruct Hr; by split].
    unfold decoded. cbn [b_compressed b_data]. destruct (_ && _); [apply Hcodec|done].
Qed.

Lemma open_reading j n f c :
  fl !! n = Some f -> readable p f c -> reading p fl i n None j ->
  exists ino t j', inodes fs !! ino = Some (mkInode c t) /\ open_data_stream cwd fs j = (j', Ok false)
    /\ reading p fl i n (Some (FileStream (HFile ino 0 false))) j'.
Proof.
  intros Ef (ino & t & Ho & Hi) Hr. exists ino, t. eexists. split; [done|].
  pose proof (lookup_lt_Some _ _ _ Ef) as Hn. unfold open_data_stream.
  rewrite (rd_source _ _ _ _ _ _ Hr), (rd_num _ _ _ _ _ _ Hr).
  rewrite (entry_at_nat fl) by (try done; apply Hr). rewrite Ef, (rd_stream _ _ _ _ _ _ Hr), Ho.
  split; [reflexivity|]. destruct Hr. by split.
Qed.

Lemma open_again j n s f :
  fl !! n = Some f -> reading p fl i n (Some s) j -> open_data_stream cwd fs j = (j, Ok false).
Proof.
  intros Ef Hr. pose proof (lookup_lt_Some _ _ _ Ef) as Hn. unfold open_data_stream.
  rewrite (rd_source _ _ _ _ _ _ Hr), (rd_num _ _ _ _ _ _ Hr).
  rewrite (entry_at_nat fl) by (try done; apply Hr). by rewrite Ef, (rd_stream _ _ _ _ _ _ Hr).
Qed.

Lemma send_step j j' j2 bl :
  is_last_job j = false -> enable_overwrite_detection j = false ->
  open_data_stream cwd fs j = (j', Ok false) -> is_last_job j' = false ->
  enable_overwrite_detection j' = false -> read_one granted fs j' = (j2, [MBlock bl], None) ->
  send_loop 1 [j] = ([j2], [MBlock bl]).
Proof.
  intros Hl Hd Ho Hl' Hd' Er. cbn [send_loop]. rewrite (handle_one j Hl Hd j' Ho Hl' Hd'), Er. done.
Qed.

(** The rest of the open file: its blocks, the last one empty. *)
Lemma send_rest n f c t ino j pos :
  fl !! n = Some f -> inodes fs !! ino = Some (mkInode c t) ->
  reading p fl i n (Some (FileStream (HFile ino pos false))) j ->
  exists k j' bs, send_loop k [j] = ([j'], MBlock <$> bs) /\ reading p fl i (S n) None j'
    /\ (k <= S (length (drop pos c)))%nat /\ sends i n (drop pos c) bs.
Proof.
  intros Ef Hi. pose proof (lookup_lt_Some _ _ _ Ef) as Hn.
  remember (length (drop pos c)) as len eqn:El. revert pos j El.
  induction (lt_wf len) as [len _ IH]. intros pos j El Hr.
  destruct (read_open j n f c t ino pos Hn Ef Hi Hr) as (j' & bl & Er & Hid & Hbn & Hdec & Hr').
  set (got := take _ _) in *.
  assert (send_loop 1 [j] = ([j'], [MBlock bl])) as Es.
  { apply (send_step j j); try apply Hr; [by eapply open_again|done]. }
  destruct (decide (got = [])) as [E|E].
  - assert (drop pos c = []) as Ed.
    { apply (f_equal length) in E. unfold got in E. rewrite length_take in E. cbn [length] in E.
      destruct (drop pos c); [done|]. assert (0 < Z.to_nat BUF_SIZE)%nat by (unfold BUF_SIZE; lia).
      cbn in E. lia. }
    exists 1%nat, j', [bl]. split; [done|]. split; [done|]. split; [lia|].
    split; [done|]. split; [by constructor|]. cbn. by rewrite Hdec, E, Ed.
  - assert (0 < length got <= len)%nat as Hl.
    { split; [destruct got; [done|simpl; lia]|]. rewrite El. unfold got. rewrite length_take. lia. }
    assert (length (drop (pos + length got) c) = len - length got)%nat as El'
      by (rewrite El, !length_drop; lia).
    destruct (IH (len - length got)%nat ltac:(lia) (pos + length got)%nat j' (eq_sym El') Hr')
      as (k & j2 & bs & Es2 & Hr2 & Hk & Hne & Hall & Hcat).
    exists (1 + k)%nat, j2, (bl :: bs). rewrite send_loop_add, Es, Es2. split; [done|].
    split; [done|]. split; [lia|]. split; [done|]. split; [by constructor|].
    rewrite fmap_cons. cbn [concat]. rewrite Hdec, Hcat, <- drop_drop.
    unfold got. set (m := Z.to_nat BUF_SIZE). clearbody m.
    transitivity (take m (drop pos c) ++ drop m (drop pos c)); [|by rewrite take_drop].
    f_equal. rewrite length_take.
    destruct (decide (m <= length (drop pos c))%nat); [by rewrite Nat.min_l|].
    rewrite Nat.min_r by lia. by rewrite !drop_ge by lia.
Qed.

Lemma send_file n f c j :
  fl !! n = Some f -> readable p f c -> reading p fl i n None j ->
  exists k j' bs, send_loop k [j] = ([j'], MBlock <$> bs) /\ reading p fl i (S n) None j'
    /\ (k <= S (length c))%nat /\ sends i n c bs.
Proof.
  intros Ef Hrd Hr. pose proof (lookup_lt_Some _ _ _ Ef) as Hn.
  destruct (open_reading j n f c Ef Hrd Hr) as (ino & t & j1 & Hi & Ho & Hr1).
  destruct (read_open j1 n f c t ino 0 Hn Ef Hi Hr1) as (j' & bl & Er & Hid & Hbn & Hdec & Hr').
  assert (send_loop 1 [j] = ([j'], [MBlock bl])) as Es
    by (apply (send_step j j1); try apply Hr; try apply Hr1; done).
  assert (send_loop 1 [j1] = ([j'], [MBlock bl])) as Es1.
  { apply (send_step j1 j1); try apply Hr1; [by eapply open_again|done]. }
  destruct (send_rest n f c t ino j1 0 Ef Hi Hr1) as (k & j2 & bs & Es2 & Hr2 & Hk & Hs).
  destruct k as [|k].
  { cbn in Es2. injection Es2 as _ Ebs. symmetry in Ebs. apply fmap_nil_inv in Ebs as ->.
    by destruct Hs as [? _]. }
  exists (S k), j2, bs. split; [|done]. rewrite <- Es2.
  change (S k) with (1 + k)%nat. by rewrite !send_loop_add, Es, Es1.
Qed.

(** The end of the list. *)
Lemma send_done j :
  reading p fl i (length fl) None j -> send_loop 1 [j] = ([], [MDone i (Z.of_nat (length fl))]).
Proof.
  intros Hr. assert (entry_at j (Z.of_nat (length fl)) = None) as Ee.
  { unfold entry_at, as_usize, Int.wrap. rewrite (rd_files _ _ _ _ _ _ Hr), Z.mod_small by lia.
    destruct (Z.ltb_spec (Z.of_nat (length fl)) (Z.of_nat (length fl))); [lia|done]. }
  cbn [send_loop]. unfold handle_read_jobs. cbn [init_jobs]. rewrite (rd_last _ _ _ _ _ _ Hr).
  unfold init_data_stream, open_data_stream. rewrite (rd_source _ _ _ _ _ _ Hr), (rd_num _ _ _ _ _ _ Hr), Ee.
  cbn [read_first]. change (is_last_job (set_data_stream None j)) with (is_last_job j).
  rewrite (rd_last _ _ _ _ _ _ Hr). unfold read_one, read.
  change (enable_overwrite_detection (set_data_stream None j)) with (enable_overwrite_detection j).
  change (data_source (set_data_stream None j)) with (data_source j).
  change (file_num (set_data_stream None j)) with (file_num j).
  change (entry_at (set_data_stream None j)) with (entry_at j).
  rewrite (rd_detect _ _ _ _ _ _ Hr), andb_false_r, (rd_source _ _ _ _ _ _ Hr), (rd_num _ _ _ _ _ _ Hr), Ee.
  unfold job_completed, job_error, job_skipped. cbn. rewrite (rd_detect _ _ _ _ _ _ Hr), (rd_skipped _ _ _ _ _ _ Hr).
  cbn. rewrite (rd_num _ _ _ _ _ _ Hr). unfold remove_job. cbn. rewrite decide_True by done.
  cbn. by rewrite (rd_id _ _ _ _ _ _ Hr).
Qed.

(** All the files from [n] on, within one step more per file than there are bytes,
    and one at the end. *)
Lemma send_files n cs j :
  (n <= length fl)%nat -> Forall2 (readable p) (drop n fl) cs -> reading p fl i n None j ->
  exists k bss, send_loop k [j] = ([], (MBlock <$> concat bss) ++ [MDone i (Z.of_nat (length fl))])
    /\ (k <= length (concat cs) + length cs + 1)%nat
    /\ length bss = length cs
    /\ forall m bs c, bss !! m = Some bs -> cs !! m = Some c -> sends i (n + m) c bs.
Proof.
  intros Hn Hcs. remember (drop n fl) as rest eqn:Erest. revert n j Hn Erest.
  induction Hcs as [|f c rest cs Hf Hcs IH]; intros n j Hn Erest Hr.
  - assert (n = length fl) as ->.
    { apply (f_equal length) in Erest. rewrite length_drop in Erest. cbn in Erest. lia. }
    exists 1%nat, []. rewrite send_done by done. split; [done|]. split; [done|]. split; [done|].
    intros; done.
  - assert (fl !! n = Some f) as Ef.
    { rewrite <- (take_drop n fl), <- Erest, lookup_app_r by (rewrite length_take; lia).
      rewrite length_take, Nat.min_l, Nat.sub_diag by lia. done. }
    destruct (send_file n f c j Ef Hf Hr) as (k & j' & bs & Es & Hr' & Hk & Hs).
    pose proof (lookup_lt_Some _ _ _ Ef) as Hlt.
    destruct (IH (S n) j') as (k' & bss & Es' & Hk' & Hl & Hall); [lia| |done|].
    { rewrite <- Nat.add_1_r, <- drop_drop, <- Erest. done. }
    exists (k + k')%nat, (bs :: bss). rewrite send_loop_add, Es, Es'. cbn [concat].
    rewrite fmap_app, app_assoc. split; [done|].
    split; [rewrite length_app; cbn; lia|]. split; [cbn; lia|].
    intros [|m] bs' c' Eb Ec; cbn in Eb, Ec.
    + injection Eb as <-. injection Ec as <-. by rewrite Nat.add_0_r.
    + rewrite Nat.add_succ_r. by apply (Hall m).
Qed.
End Send.

(** ** A whole transfer *)

Lemma chunks_of {A} (bss : list (list A)) {B} (ts : list B) :
  length ts = length (concat bss) ->
  exists mss : list (list (B * A)),
    concat mss = zip ts (concat bss) /\ map (map snd) mss = bss.
Proof.
  revert ts. induction bss as [|bs bss IH]; intros ts Hl; [exists []; by destruct ts|].
  cbn [concat] in *. rewrite length_app in Hl.
  destruct (IH (drop (length bs) ts)) as (mss & E1 & E2); [rewrite length_drop; lia|].
  exists (zip (take (length bs) ts) bs :: mss). cbn [concat]. cbn [map]. rewrite E1, E2. split.
  - rewrite <- (take_drop (length bs) ts) at 3. symmetry. apply zip_with_app. rewrite length_take. lia.
  - f_equal. apply snd_zip. rewrite length_take. lia.
Qed.

Lemma with_files_Ok cwd fs fl j j' :
  with_files cwd fs fl j = Ok j' -> j' = with_files_total fl (sum_sizes fl) j.
Proof.
  unfold with_files, set_files. destruct (validate_transfer_file_names fl); [|done].
  destruct (match data_source j with FilePath _ => _ | MemoryCursor _ _ => _ end); [|done].
  by intros [= <-].
Qed.

(** The receiver's side of a transfer: the blocks of every file, then the end. *)
Lemma receive_all (cwd : key) (can_create : key -> bool) `{Codec} (base : rstr) (b : key)
    (fl : list FileEntry) (cs : list bytes) (fs : Fs) (j : TransferJob) (i num : Z)
    (bss : list (list Block)) (ts : list Z) :
  (forall k, can_create k = true) ->
  Forall (fun f => tidy (name f)) fl -> disjoint_places fl -> Z.of_nat (length fl) < 2 ^ 31 ->
  fl <> [] -> length cs = length fl -> length bss = length cs ->
  (forall m bs c, bss !! m = Some bs -> cs !! m = Some c -> sends i m c bs) ->
  receiving cwd base b fs j -> files j = fl -> data_stream j = None -> id j = i ->
  fits b (ents fs) fl ->
  (forall f, f ∈ fl -> ents fs !! k_side b f (Str.lit ".download") = None
                     /\ ents fs !! k_side b f (Str.lit ".digest") = None) ->
  length ts = length (concat bss) ->
  let c := feed cwd can_create (mkClient fs [j]) (zip ts (concat bss)) in
  let c' := (recv_done cwd i num c).1 in
  write_jobs c' = []
  /\ forall k f x, fl !! k = Some f -> cs !! k = Some x ->
       is_file cwd (fs_ c') (join base (name f)) = Some (mkInode x (mtime_of f)).
Proof.
  intros Hcr Hti Hdis Hlen Hne Hcl Hbl Hs Hr Hf Hst Hid Hfit Habs Hts c c'.
  destruct (chunks_of bss ts Hts) as (mss & E1 & E2).
  assert (forall m ms x, mss !! m = Some ms -> cs !! m = Some x -> sends i m x (snd <$> ms)) as Hs'.
  { intros m ms x Em Ex. apply (Hs m); [|done]. apply (f_equal (fmap (map snd))) in Em.
    rewrite <- list_lookup_fmap in Em. by rewrite <- E2. }
  destruct fl as [|f0 fl'] eqn:Efl; [done|]. rewrite <- Efl in *.
  destruct cs as [|x0 cs'] eqn:Ecs; [by rewrite Efl in Hcl|]. rewrite <- Ecs in *.
  assert (length mss = length fl) as Hml by (apply (f_equal length) in E2; rewrite length_map in E2; congruence).
  destruct mss as [|m0 mss']; [by rewrite Efl in Hml|].
  pose proof (new_job_settled cwd base b fl cs Hti Hdis fs j (re_fs _ _ _ _ _ Hr) Hfit Hr Habs Hf) as H0.
  assert (holds_job (copying cwd base b fl cs 0 x0) i (feed cwd can_create (mkClient fs [j]) m0)) as Hh0.
  { apply (feed_file cwd can_create base b Hcr fl cs Hti Hdis Hlen i 0 _ f0); [|by rewrite Efl|].
    - exists j. split; [done|]. split; [done|]. split; [done|]. split; [done|]. split; [done|by left].
    - apply (Hs' 0%nat m0); [done|by rewrite Ecs]. }
  destruct (feed_files cwd can_create base b Hcr fl cs Hti Hdis Hlen i 0
    (feed cwd can_create (mkClient fs [j]) m0) x0 mss') as (d & Ed & Hh); [done|by rewrite Ecs|done|..].
  { cbn in Hml. lia. }
  { intros k ms x Em Ex. by apply (Hs' (S k) ms x). }
  assert (feed cwd can_create (feed cwd can_create (mkClient fs [j]) m0) (concat mss') = c) as Ec.
  { unfold c, feed. rewrite <- E1. cbn [concat]. by rewrite foldl_app. }
  rewrite Ec in Hh. destruct Hh as (jl & Ej & Hij & Hc).
  assert (c' = mkClient (modify_time cwd (fs_ c) jl) []) as ->.
  { unfold c', recv_done, remove_job. rewrite Ej. cbn [list_find].
    destruct (decide (id jl = i)); [|done]. done. }
  split; [done|]. cbn [fs_]. intros k f x Ef Ex.
  destruct (copying_end cwd base b fl cs Hti Hdis Hlen _ d (fs_ c) jl Hc Ed) as [Hg Hse].
  assert (0 < length fl)%nat by (rewrite Efl; simpl; lia).
  destruct (se_done _ _ _ _ _ Hse k f x) as (ino & G1 & G2); [|done|done|].
  { apply lookup_lt_Some in Ef. lia. }
  unfold is_file. rewrite (resolve_final cwd base b fl Hti Hdis _ k f true Hg Ef); [by rewrite G1|].
  by apply (dirs_to_entry b (modify_time cwd (fs_ c) jl) (pieces (name f)) (EFile ino)); [apply Hg|].
Qed.

(** C6 A whole transfer, without overwrite detection, ends and copies the files: what
    the sender's loop sends, block by block until its job is gone, gives the receiver
    every file of the list with the sender's bytes and the listed time, and no job
    is left.  The names are those of a listing, no two share a place (their
    [.download] and [.digest] included), and nothing is in the way of them. *)
Theorem transfer_copies_the_files
    (cwd1 cwd2 : key) (granted : nat -> nat) (can_create : key -> bool) `{Codec}
    (fs1 fs2 : Fs) (src base : rstr) (b : key) (fl : list FileEntry) (cs : list bytes)
    (i : Z) (rem : rstr) (h1 r1 h2 r2 detect : bool) (j1 j2 : TransferJob) :
  (forall pos, (0 < granted pos)%nat) -> (forall x, decompress (compress x) = x) ->
  (forall k, can_create k = true) ->
  fl <> [] -> Z.of_nat (length fl) < 2 ^ 31 ->
  Forall (fun f => tidy (name f)) fl -> disjoint_places fl ->
  Forall2 (readable cwd1 fs1 src) fl cs ->
  fs_ok cwd2 base b fs2 -> fits b (ents fs2) fl ->
  (forall f, f ∈ fl -> ents fs2 !! k_side b f (Str.lit ".download") = None
                     /\ ents fs2 !! k_side b f (Str.lit ".digest") = None) ->
  new_read i Generic rem (FilePath src) 0 h1 r1 false (Ok fl) = Ok j1 ->
  with_files cwd2 fs2 fl (new_write i Generic rem (FilePath base) 0 h2 r2 detect) = Ok j2 ->
  exists steps blocks,
    send_loop cwd1 granted fs1 steps [j1]
      = ([], (MBlock <$> blocks) ++ [MDone i (Z.of_nat (length fl))])
    /\ (steps <= length (concat cs) + length fl + 1)%nat
    /\ forall times, length times = length blocks ->
         let c := feed cwd2 can_create (mkClient fs2 [j2]) (zip times blocks) in
         let c' := (recv_done cwd2 i (Z.of_nat (length fl)) c).1 in
         write_jobs c' = []
         /\ forall k f x, fl !! k = Some f -> cs !! k = Some x ->
              is_file cwd2 (fs_ c') (join base (name f)) = Some (mkInode x (mtime_of f)).
Proof.
  intros Hg Hcd Hcr Hne Hlen Hti Hdis Hrd Hok Hfit Habs E1 E2.
  pose proof (Forall2_length _ _ _ Hrd) as Hcl.
  destruct (send_files cwd1 granted fs1 Hg Hcd src fl Hlen i 0 cs j1) as (k & bss & Es & Hk & Hbl & Hs).
  { lia. } { by rewrite drop_0. } { cbn in E1. injection E1 as <-. by split. }
  exists k, (concat bss). split; [done|]. split; [lia|]. intros ts Hts.
  apply with_files_Ok in E2. subst j2.
  apply (receive_all cwd2 can_create base b fl cs fs2 _ i _ bss ts); try done.
  split; try done. cbn. apply Forall_forall. intros f Hf.
  rewrite Forall_forall in Hti. by destruct (Hti f Hf).
Qed.

(** What an interrupted transfer left as [name.download] takes the name's place
    when the file is transferred anew: the first block of the file renames the old
    part over it, with the new file's time, before the new download begins. *)
Theorem leftover_download_takes_the_name (cwd : key) (can_create : key -> bool) `{Codec}
    (base : rstr) (b : key) (fl : list FileEntry) (fs : Fs) (j : TransferJob) (n : nat)
    (f : FileEntry) (i t now : Z) (d : bytes) (bl : Block) :
  (forall k, can_create k = true) ->
  Forall (fun f => tidy (name f)) fl -> disjoint_places fl -> Z.of_nat (length fl) < 2 ^ 31 ->
  receiving cwd base b fs j -> fits b (ents fs) fl ->
  files j = fl -> file_num j = Z.of_nat n -> data_stream j = None -> fl !! n = Some f ->
  ents fs !! k_side b f (Str.lit ".download") = Some (EFile i) ->
  inodes fs !! i = Some (mkInode d t) ->
  b_id bl = id j -> b_file_num bl = Z.of_nat n ->
  exists fs' j', write cwd can_create now fs bl j = (fs', j', Ok tt)
    /\ is_file cwd fs' (join base (name f)) = Some (mkInode d (mtime_of f)).
Proof.
  intros Hcr Hti Hdis Hlen Hr Hfit Hf Hnum Hst Ef Ed Ei Hid Hbn.
  destruct (keys_of_file b fl Hdis n f Ef) as (Kfd & Kfg & Kdg & Pf & Pd & Pg).
  destruct (finish_exact cwd base b fl Hti Hdis n f i d t fs j Hlen Hr Hfit Hf Hnum Ef Ed Ei) as [Em Hg];
    [by apply Hfit|].
  set (fsm := finished b f i d fs) in *.
  destruct (parents_exact cwd base b fl Hti Hdis fsm n f Hg Ef) as (Hg1 & Hd1 & Hi1 & Hn1 & Hsame).
  set (fsp := create_parent_dirs cwd fsm (join base (name f))) in *.
  destruct (tidy_at _ Hti _ _ Ef) as (Hne & Hv & _).
  assert (join_validated_path cwd fsm base (name f) = Ok (join base (name f))) as Ev
    by (apply (clear_validated cwd base b); [apply Hg|done|done|by apply Hg]).
  set (jn := with_stream (Z.of_nat n) (data_stream j) j).
  destruct (open_exact cwd can_create base b Hcr fl Hti Hdis now fsp n f jn Hg1 Ef Hd1) as [Eo Hgo].
  { unfold k_side. rewrite Hsame by done. cbn. rewrite lookup_insert_ne by done. by rewrite lookup_delete_eq. }
  { unfold k_side. rewrite Hsame by done. cbn. rewrite lookup_insert_ne by done.
    rewrite lookup_delete_ne by done. by rewrite lookup_delete_eq. }
  remember (next_ino fsp) as nx eqn:Enx. set (fso := mkFs _ _ _) in *.
  assert (prepare_write cwd can_create now fs bl j
    = (fso, set_data_stream (Some (FileStream (HFile nx 0 true))) jn, Ok tt)) as Ep.
  { unfold prepare_write. rewrite (re_source _ _ _ _ _ Hr), Hbn.
    rewrite (entry_at_nat fl) by (first [done|by eapply lookup_lt_Some]). rewrite Ef, Hst, orb_true_r.
    unfold switch_file. change (type (with_stream _ _ j)) with (type j).
    by rewrite Em, (re_type _ _ _ _ _ Hr), Ev. }
  assert (inodes fso !! nx = Some (mkInode [] now)) as Hnx.
  { cbn. rewrite !(lookup_insert_ne _ (nx + 1)) by lia. by rewrite lookup_insert_eq. }
  assert (i < nx) as Hlt.
  { rewrite Hn1. destruct (re_fs _ _ _ _ _ Hr) as ((_ & _ & W3 & _) & _). by eapply W3. }
  assert (ents fso !! k_final b f = Some (EFile i)) as Ef'.
  { cbn. rewrite !lookup_insert_ne by done. unfold k_final. rewrite Hsame by done.
    cbn. by rewrite lookup_insert_eq. }
  eexists _, _. split.
  - unfold write. rewrite Hid, Z.eqb_refl. cbn [negb]. rewrite Ep. cbn [data_stream set_data_stream with_stream].
    unfold write_all, handle_write. rewrite Hnx. reflexivity.
  - set (fs' := set_inode nx _ fso).
    assert (forall p follow, resolve cwd fs' follow p = resolve cwd fso follow p) as Hres by done.
    unfold is_file. rewrite Hres, (resolve_final cwd base b fl Hti Hdis fso n f true Hgo Ef).
    + rewrite Ef'. cbn. rewrite !(lookup_insert_ne _ _ i) by lia. rewrite Hi1. cbn. by rewrite lookup_insert_eq.
    + by apply (dirs_to_entry b fso _ (EFile i)); [apply Hgo|].
Qed.

(** * Witnesses *)

Import Toy.

(** ** Deciding the conditions on the places of a list of files *)

Definition clear_check (b : key) (es : gmap key Ent) (t : key) : bool :=
  forallb (fun n => match es !! (b ++ take n t) with None | Some EDir => true | _ => false end)
    (seq 1 (length t - 1))
  && match es !! (b ++ t) with None | Some (EFile _) => true | _ => false end.

Lemma fits_check b es fl : forallb (clear_check b es) (places fl) = true -> fits b es fl.
Proof.
  intros H t Ht. rewrite forallb_forall in H. apply list_elem_of_In in Ht. apply H in Ht.
  apply andb_true_iff in Ht as [Hp He]. rewrite forallb_forall in Hp. split.
  - intros n Hn. specialize (Hp n ltac:(apply in_seq; lia)).
    destruct (es !! (b ++ take n t)) as [[]|]; try done; auto.
  - destruct (es !! (b ++ t)) as [[i| |]|]; try done; eauto.
Qed.

Definition disjoint_check (fl : list FileEntry) : bool :=
  bool_decide (NoDup (places fl))
  && forallb (fun t => forallb (fun t' =>
       negb (bool_decide (take (length t) t' = t)) || bool_decide (t' = t)) (places fl)) (places fl).

Lemma disjoint_check_ok fl : disjoint_check fl = true -> disjoint_places fl.
Proof.
  unfold disjoint_check. intros [Hn Hp]%andb_true_iff. split; [by apply bool_decide_eq_true in Hn|].
  intros t t' r Ht Ht' ->. rewrite forallb_forall in Hp. apply list_elem_of_In in Ht, Ht'.
  specialize (Hp _ Ht). rewrite forallb_forall in Hp. specialize (Hp _ Ht').
  rewrite take_app_length, bool_decide_eq_true_2 in Hp by done. cbn in Hp.
  apply bool_decide_eq_true in Hp. apply (f_equal length) in Hp. rewrite length_app in Hp.
  destruct r; [done|simpl in Hp; lia].
Qed.

Definition tidy_check (nm : rstr) : bool :=
  negb (text_is nm []) && is_ok (validate_file_name_no_traversal nm) && negb (names_dir nm).

Lemma tidy_check_ok fl :
  forallb (fun f => tidy_check (name f)) fl = true -> Forall (fun f => tidy (name f)) fl.
Proof.
  rewrite forallb_forall. intros H. apply List.Forall_forall. intros f Hf. apply H in Hf.
  unfold tidy_check in Hf. rewrite !andb_true_iff, !negb_true_iff in Hf. destruct Hf as [[H1 H2] H3].
  split; [by apply bool_decide_eq_false in H1|]. split; [|done].
  by destruct (validate_file_name_no_traversal (name f)) as [[]|].
Qed.

Lemma transfer_copies_the_files_witness :
  exists steps blocks j1 j2,
    send_loop [] granted_3 fs_src steps [j1] = ([], (MBlock <$> blocks) ++ [MDone 9 2])
    /\ forall times, length times = length blocks ->
         let c := feed [] can_all (mkClient fs_dst [j2]) (zip times blocks) in
         forall k f x, entries !! k = Some f -> datas !! k = Some x ->
           is_file [] (fs_ (recv_done [] 9 2 c).1) (join DST (name f)) = Some (mkInode x (mtime_of f)).
Proof.
  destruct (new_read 9 Generic [] (FilePath SRC) 0 false false false (Ok entries)) as [j1|] eqn:E1; [|done].
  destruct (transfer_copies_the_files [] [] granted_3 can_all fs_src fs_dst SRC DST (pieces DST)
    entries datas 9 [] false false false true false j1 j_write) as (k & bs & E & _ & H).
  - intros pos. unfold granted_3. lia.
  - done.
  - done.
  - done.
  - by vm_compute.
  - apply tidy_check_ok. by vm_compute.
  - apply disjoint_check_ok. by vm_compute.
  - constructor; [exists 1, 7; split; vm_compute; reflexivity|].
    constructor; [exists 2, 8; split; vm_compute; reflexivity|constructor].
  - exact dst_ok.
  - apply fits_check. by vm_compute.
  - intros f Hf. unfold entries in Hf. rewrite !elem_of_cons, elem_of_nil in Hf.
    destruct Hf as [->|[->|[]]]; split; vm_compute; reflexivity.
  - exact E1.
  - vm_compute. reflexivity.
  - exists k, bs, j1, j_write. split; [exact E|]. intros times Ht. exact (proj2 (H times Ht)).
Defined.

Lemma leftover_download_takes_the_name_witness :
  is_file [] fs_left (Str.lit "/d/a") = Some (mkInode [1; 2; 3] 2)
  /\ exists fs' j', write [] can_all 50 fs_left (block_0 [5]) j_write = (fs', j', Ok tt)
    /\ is_file [] fs' (join DST NA) = Some (mkInode [8; 8] (mtime_of (mkEntry NA 5 100))).
Proof.
  split; [vm_compute; reflexivity|].
  apply (leftover_download_takes_the_name [] can_all DST (pieces DST) entries fs_left j_write 0
    (mkEntry NA 5 100) 3 3 50 [8; 8] (block_0 [5])); try (vm_compute; reflexivity).
  - apply tidy_check_ok. by vm_compute.
  - apply disjoint_check_ok. by vm_compute.
  - split; [exact left_ok|done|done| |].
    + repeat constructor; by vm_compute.
    + by intros i pos.
  - apply fits_check. by vm_compute.
Defined.
