(* ===== verification/SessionScope.v ===== *)
(** * The scope of an authorised session: [src/server/connection.rs]

    The messages of the protocol as the connection reads them, and the predicates that
    say which of them a session of a kind may send: a file transfer, a tunnel, a camera
    view or a terminal takes only its own messages, and of the options only its own
    fields.  What the handlers do not look at inside a message is kept as its bytes.  The
    code is that of Linux. *)

From coqutil Require Import Datatypes.RecordSetters.
From S2P Require Import Prelude PortForwardMux.
Import TriangleBracketNotations.

(** ** Messages *)

(** [EnumOrUnknown]: a number of the wire may name no constant of the enum. *)
Inductive EnumOrUnknown (A : Type) := Known (a : A) | UnknownValue (z : Z).
Arguments Known {A} a.
Arguments UnknownValue {A} z.

Definition enum_value {A} (e : EnumOrUnknown A) : option A :=
  match e with Known a => Some a | UnknownValue _ => None end.

Inductive BoolOption := NotSet | No | Yes.
Inductive ImageQuality := QualityNotSet | Low | Balanced | Best.

Definition quality_value (q : ImageQuality) : Z :=
  match q with QualityNotSet => 0 | Low => 2 | Balanced => 3 | Best => 4 end.

#[export] Instance BoolOption_eq : EqDecision BoolOption.
Proof. solve_decision. Defined.
#[export] Instance ImageQuality_eq : EqDecision ImageQuality.
Proof. solve_decision. Defined.
#[export] Instance EnumOrUnknown_eq {A} `{EqDecision A} : EqDecision (EnumOrUnknown A).
Proof. solve_decision. Defined.

Record OptionMessage := mkOption {
  image_quality : EnumOrUnknown ImageQuality;
  lock_after_session_end : EnumOrUnknown BoolOption;
  show_remote_cursor : EnumOrUnknown BoolOption;
  privacy_mode : EnumOrUnknown BoolOption;
  block_input : EnumOrUnknown BoolOption;
  custom_image_quality : Z;
  disable_audio : EnumOrUnknown BoolOption;
  disable_clipboard : EnumOrUnknown BoolOption;
  enable_file_transfer : EnumOrUnknown BoolOption;
  supported_decoding : option bytes;
  custom_fps : Z;
  disable_keyboard : EnumOrUnknown BoolOption;
  follow_remote_cursor : EnumOrUnknown BoolOption;
  follow_remote_window : EnumOrUnknown BoolOption;
  disable_camera : EnumOrUnknown BoolOption;
  terminal_persistent : EnumOrUnknown BoolOption;
  show_my_cursor : EnumOrUnknown BoolOption }.

Definition unset : EnumOrUnknown BoolOption := Known NotSet.

(** [OptionMessage::new()]. *)
Definition no_option : OptionMessage :=
  mkOption (Known QualityNotSet) unset unset unset unset 0 unset unset unset None 0
    unset unset unset unset unset unset.

Inductive KeyboardMode := Legacy | Map | Translate | Auto.
Inductive KeyUnion := ControlKey (value : Z) | Chr (code : Z) | Unicode (code : Z) | Seq (text : rstr)
  | Win2win (code : Z).

Record KeyEvent := mkKey {
  key_union : option KeyUnion; down : bool; press : bool; mode : EnumOrUnknown KeyboardMode }.

Record MouseEvent := mkMouse { mask : Z; mouse_x : Z; mouse_y : Z }.

Inductive FileType := Generic | Printer.

Record FileEntry := mkEntry { name : rstr; size : Z; modified_time : Z }.

Inductive FileAction :=
| ReadEmptyDirs (path : rstr) (include_hidden : bool)
| ReadDir (path : rstr) (include_hidden : bool)
| AllFiles (id : Z) (path : rstr) (include_hidden : bool)
| SendFiles (id : Z) (path : rstr) (include_hidden : bool) (file_num : Z) (file_type : EnumOrUnknown FileType)
| ReceiveFiles (id : Z) (path : rstr) (file_num : Z) (files : list FileEntry) (total_size : Z)
| RemoveDir (id : Z) (path : rstr) (recursive : bool)
| RemoveFile (id : Z) (path : rstr) (file_num : Z)
| CreateDir (id : Z) (path : rstr)
| CancelJob (id : Z)
| SendConfirm (id : Z) (confirm : bytes)
| Rename (id : Z) (path new_name : rstr).

Inductive FileResponse :=
| Block (id file_num : Z) (data : bytes) (compressed : bool)
| Done (id file_num : Z)
| Digest (id file_num file_size last_modified : Z) (is_resume : bool)
| Error (id : Z) (error : rstr) (file_num : Z)
| OtherResponse.

(** [cliprdr::Union], and none. *)
Inductive Cliprdr :=
| Ready
| FormatList (formats : list (Z * rstr))
| FormatListResponse (msg_flags : Z)
| FormatDataRequest (requested_format_id : Z)
| FormatDataResponse (msg_flags : Z) (format_data : bytes)
| FileContentsRequest (stream_id list_index dw_flags n_position_low n_position_high cb_requested : Z)
    (have_clip_data_id : bool) (clip_data_id : Z)
| FileContentsResponse (msg_flags stream_id : Z) (requested_data : bytes)
| TryEmpty
| Files (files : list (rstr * Z))
| NoClip.

Inductive Misc :=
| ChatMessage (text : rstr)
| SwitchDisplay (display width height : Z)
| OptionMisc (o : OptionMessage)
| AudioFormat (format : bytes)
| CloseReason (reason : rstr)
| RefreshVideo (all : bool)
| VideoReceived
| RestartRemoteDevice
| ElevationRequest
| SwitchSidesRequest (uuid : bytes)
| ChangeResolution (width height : Z)
| AutoAdjustFps (fps : Z)
| ClientRecordStatus (status : bool)
| CaptureDisplays (add sub set : list Z)
| RefreshVideoDisplay (display : Z)
| ToggleVirtualDisplay (on : bool) (display : Z)
| TogglePrivacyMode (impl_key : rstr) (on : bool)
| SelectedSid (sid : Z)
| ChangeDisplayResolution (display width height : Z)
| MessageQuery (switch_display : Z)
| FollowCurrentDisplay (display : Z)
| RequestCursorData (id : Z)
| ClantoControllerIdentity (account_user os_user pc_name : rstr)
| OtherMisc.

(** What an authorised connection looks at in the login of a switch of sides: the ID,
    whether it asks for something else than the desktop, and its options. *)
Record SwitchLogin := mkSwitchLogin {
  login_my_id : rstr; login_has_union : bool; login_option_message : option OptionMessage }.

Inductive Message :=
| LoginRequest
| TestDelay (from_client : bool) (t : bytes)
| MouseEventMsg (e : MouseEvent)
| AudioFrame (data : bytes)
| PointerDeviceEvent (data : bytes)
| KeyEventMsg (e : KeyEvent)
| Clipboard (content : bytes)
| FileActionMsg (a : option FileAction)
| FileResponseMsg (r : FileResponse)
| MiscMsg (m : option Misc)
| CliprdrMsg (c : Cliprdr)
| VoiceCallRequest (req_timestamp : Z) (is_connect : bool)
| VoiceCallResponse
| MultiClipboards (contents : list bytes)
| ScreenshotRequest (display : Z) (sid : rstr)
| ScreenshotResponse
| TerminalAction (action : bytes)
| TerminalResponse
| PortForwardChannel (f : frame)
| ClantoForward (msg : bytes)
| SwitchSidesResponse (uuid : bytes) (lr : option SwitchLogin)
| OtherMessage.

Inductive AuthConnType := Remote | FileTransfer | PortForward | ViewCamera | Terminal.

#[export] Instance AuthConnType_eq : EqDecision AuthConnType.
Proof. solve_decision. Defined.

(** ** Options *)

Definition is_bool_option_not_set (o : EnumOrUnknown BoolOption) : bool :=
  bool_decide (enum_value o = Some NotSet).

Definition quality_not_set (o : OptionMessage) : bool :=
  bool_decide (enum_value (image_quality o) = Some QualityNotSet).

Definition is_supported_decoding_only_option (o : OptionMessage) : bool :=
  bool_decide (is_Some (supported_decoding o))
  && quality_not_set o
  && (custom_image_quality o =? 0)
  && (custom_fps o =? 0)
  && is_bool_option_not_set (lock_after_session_end o)
  && is_bool_option_not_set (show_remote_cursor o)
  && is_bool_option_not_set (privacy_mode o)
  && is_bool_option_not_set (block_input o)
  && is_bool_option_not_set (disable_audio o)
  && is_bool_option_not_set (disable_clipboard o)
  && is_bool_option_not_set (enable_file_transfer o)
  && is_bool_option_not_set (disable_keyboard o)
  && is_bool_option_not_set (follow_remote_cursor o)
  && is_bool_option_not_set (follow_remote_window o)
  && is_bool_option_not_set (disable_camera o)
  && is_bool_option_not_set (terminal_persistent o)
  && is_bool_option_not_set (show_my_cursor o).

Definition option_has_non_view_camera_login_field (o : OptionMessage) : bool :=
  negb (is_bool_option_not_set (lock_after_session_end o)
        && is_bool_option_not_set (show_remote_cursor o)
        && is_bool_option_not_set (privacy_mode o)
        && is_bool_option_not_set (block_input o)
        && is_bool_option_not_set (disable_clipboard o)
        && is_bool_option_not_set (enable_file_transfer o)
        && is_bool_option_not_set (disable_keyboard o)
        && is_bool_option_not_set (follow_remote_cursor o)
        && is_bool_option_not_set (follow_remote_window o)
        && is_bool_option_not_set (disable_camera o)
        && is_bool_option_not_set (terminal_persistent o)
        && is_bool_option_not_set (show_my_cursor o)).

Definition option_has_non_terminal_login_field (o : OptionMessage) : bool :=
  negb (quality_not_set o)
  || negb (custom_image_quality o =? 0)
  || negb (custom_fps o =? 0)
  || bool_decide (is_Some (supported_decoding o))
  || negb (is_bool_option_not_set (lock_after_session_end o))
  || negb (is_bool_option_not_set (show_remote_cursor o))
  || negb (is_bool_option_not_set (privacy_mode o))
  || negb (is_bool_option_not_set (block_input o))
  || negb (is_bool_option_not_set (disable_audio o))
  || negb (is_bool_option_not_set (disable_clipboard o))
  || negb (is_bool_option_not_set (enable_file_transfer o))
  || negb (is_bool_option_not_set (disable_keyboard o))
  || negb (is_bool_option_not_set (follow_remote_cursor o))
  || negb (is_bool_option_not_set (follow_remote_window o))
  || negb (is_bool_option_not_set (disable_camera o))
  || negb (is_bool_option_not_set (show_my_cursor o)).

Definition option_has_any_field (o : OptionMessage) : bool :=
  option_has_non_terminal_login_field o || negb (is_bool_option_not_set (terminal_persistent o)).

(** The names of the families that a violation reports. *)
Definition login_option : rstr := Str.lit "login.option".

(** [then_some]. *)
Definition then_some {A} (b : bool) (x : A) : option A := if b then Some x else None.

Definition scoped_terminal_login_option (o : OptionMessage) : option OptionMessage * option rstr :=
  let '(scoped, violation) :=
    match enum_value (terminal_persistent o) with
    | Some value => (no_option <| terminal_persistent := Known value |>, false)
    | None => (no_option, true)
    end in
  let violation := violation || option_has_non_terminal_login_field o in
  (then_some (option_has_any_field scoped) scoped, then_some violation login_option).

Definition scoped_view_camera_option (o : OptionMessage) : option OptionMessage * option rstr :=
  let scoped := no_option in
  let scoped := match enum_value (image_quality o) with
                | Some _ => scoped <| image_quality := image_quality o |>
                | None => scoped
                end in
  let scoped := if 0 <=? custom_image_quality o
                then scoped <| custom_image_quality := custom_image_quality o |> else scoped in
  let scoped := if 0 <=? custom_fps o then scoped <| custom_fps := custom_fps o |> else scoped in
  let scoped := scoped <| supported_decoding := supported_decoding o |> in
  let scoped := match enum_value (disable_audio o) with
                | Some value => scoped <| disable_audio := Known value |>
                | None => scoped
                end in
  (then_some (option_has_any_field scoped) scoped,
   then_some (option_has_non_view_camera_login_field o) login_option).

Definition scoped_login_option (t : AuthConnType) (o : OptionMessage)
  : option OptionMessage * option rstr :=
  match t with
  | Remote => (Some o, None)
  | ViewCamera => scoped_view_camera_option o
  | Terminal => scoped_terminal_login_option o
  | FileTransfer | PortForward => (None, then_some (option_has_any_field o) login_option)
  end.

(** The options that a handled message may change, outside a remote control. *)
Definition scoped_update_option_message (t : option AuthConnType) (o : OptionMessage)
  : option OptionMessage :=
  match t with
  | Some ViewCamera => (scoped_view_camera_option o).1
  | Some Terminal => (scoped_terminal_login_option o).1
  | Some (Remote | FileTransfer | PortForward) | None => None
  end.

(** ** Messages by session *)

Definition is_connection_housekeeping_message (msg : option Message) : bool :=
  match msg with
  | Some LoginRequest | Some (TestDelay _ _) => true
  | Some (MiscMsg misc) => match misc with Some (CloseReason _) => true | _ => false end
  | _ => false
  end.

Definition is_render_broadcast_noop_compat_message (msg : option Message) : bool :=
  match msg with
  | Some (MiscMsg misc) =>
      match misc with
      | Some (RefreshVideo _) | Some (RefreshVideoDisplay _) => true
      | Some (OptionMisc o) => is_supported_decoding_only_option o
      | _ => false
      end
  | _ => false
  end.

Definition is_text_clipboard_noop_compat_message (msg : option Message) : bool :=
  match msg with
  | Some (Clipboard _) | Some (MultiClipboards _) => true
  | _ => false
  end.

(** [SelectedSid] is Windows'. *)
Definition is_file_transfer_scoped_misc (misc : option Misc) : bool := false.

Definition is_file_transfer_scoped_message (msg : option Message) : bool :=
  match msg with
  | Some (FileActionMsg _) | Some (FileResponseMsg _) => true
  | Some (MiscMsg misc) => is_file_transfer_scoped_misc misc
  | _ => false
  end.

Definition is_port_forward_scoped_message (msg : option Message) : bool :=
  match msg with Some (PortForwardChannel _) => true | _ => false end.

Definition is_terminal_scoped_option (o : OptionMessage) : bool :=
  bool_decide ((scoped_terminal_login_option o).2 = None).

Definition is_terminal_scoped_misc (misc : option Misc) : bool :=
  match misc with
  | Some (ChatMessage _) => true
  | Some (OptionMisc o) => is_terminal_scoped_option o
  | _ => false
  end.

Definition is_terminal_scoped_message (msg : option Message) : bool :=
  match msg with
  | Some (TerminalAction _) => true
  | Some (MiscMsg misc) => is_terminal_scoped_misc misc
  | _ => false
  end.

Definition is_view_camera_scoped_option (o : OptionMessage) : bool :=
  bool_decide ((scoped_view_camera_option o).2 = None).

Definition is_view_camera_scoped_misc (misc : option Misc) : bool :=
  match misc with
  | Some (SwitchDisplay _ _ _) | Some (CaptureDisplays _ _ _) | Some (RefreshVideo _)
  | Some (RefreshVideoDisplay _) | Some VideoReceived | Some (ChatMessage _)
  | Some (AudioFormat _) | Some (ClientRecordStatus _) | Some (MessageQuery _)
  | Some (TogglePrivacyMode _ _) | Some (ToggleVirtualDisplay _ _) | Some (ChangeResolution _ _)
  | Some (ChangeDisplayResolution _ _ _) | Some (ClantoControllerIdentity _ _ _) => true
  | Some (OptionMisc o) => is_view_camera_scoped_option o
  | _ => false
  end.

Definition is_view_camera_scoped_message (msg : option Message) : bool :=
  match msg with
  | Some (ScreenshotRequest _ _) => true
  | Some (MiscMsg misc) => is_view_camera_scoped_misc misc
  | Some (MouseEventMsg _) | Some (PointerDeviceEvent _) | Some (KeyEventMsg _) => true
  | Some (AudioFrame _) | Some (VoiceCallRequest _ _) | Some VoiceCallResponse => true
  | _ => false
  end.

Definition misc_message_family (misc : option Misc) : rstr :=
  match misc with
  | Some (ChatMessage _) => Str.lit "misc.chat_message"
  | Some (SwitchDisplay _ _ _) => Str.lit "misc.switch_display"
  | Some (OptionMisc _) => Str.lit "misc.option"
  | Some (AudioFormat _) => Str.lit "misc.audio_format"
  | Some (CaptureDisplays _ _ _) => Str.lit "misc.capture_displays"
  | Some (ClientRecordStatus _) => Str.lit "misc.client_record_status"
  | Some (TogglePrivacyMode _ _) => Str.lit "misc.toggle_privacy_mode"
  | Some (ToggleVirtualDisplay _ _) => Str.lit "misc.toggle_virtual_display"
  | Some (SelectedSid _) => Str.lit "misc.selected_sid"
  | Some (ChangeResolution _ _) => Str.lit "misc.change_resolution"
  | Some (ChangeDisplayResolution _ _ _) => Str.lit "misc.change_display_resolution"
  | Some (MessageQuery _) => Str.lit "misc.message_query"
  | Some (FollowCurrentDisplay _) => Str.lit "misc.follow_current_display"
  | Some (SwitchSidesRequest _) => Str.lit "misc.switch_sides_request"
  | Some (ClantoControllerIdentity _ _ _) => Str.lit "misc.clanto_controller_identity"
  | Some _ => Str.lit "misc.other"
  | None => Str.lit "misc.empty"
  end.

Definition message_family (msg : option Message) : rstr :=
  match msg with
  | Some (MouseEventMsg _) => Str.lit "mouse_event"
  | Some (AudioFrame _) => Str.lit "audio_frame"
  | Some (PointerDeviceEvent _) => Str.lit "pointer_device_event"
  | Some (KeyEventMsg _) => Str.lit "key_event"
  | Some (Clipboard _) => Str.lit "clipboard"
  | Some (FileActionMsg _) => Str.lit "file_action"
  | Some (FileResponseMsg _) => Str.lit "file_response"
  | Some (VoiceCallRequest _ _) => Str.lit "voice_call_request"
  | Some VoiceCallResponse => Str.lit "voice_call_response"
  | Some (MultiClipboards _) => Str.lit "multi_clipboards"
  | Some (ScreenshotRequest _ _) => Str.lit "screenshot_request"
  | Some ScreenshotResponse => Str.lit "screenshot_response"
  | Some (TerminalAction _) => Str.lit "terminal_action"
  | Some TerminalResponse => Str.lit "terminal_response"
  | Some (PortForwardChannel _) => Str.lit "port_forward_channel"
  | Some (MiscMsg misc) => misc_message_family misc
  | Some _ => Str.lit "message.other"
  | None => Str.lit "empty"
  end.

Definition authorized_message_scope_violation (t : AuthConnType) (msg : option Message) : option rstr :=
  if is_connection_housekeeping_message msg then None
  else
    let noop_compat :=
      match t with
      | FileTransfer | Terminal =>
          is_render_broadcast_noop_compat_message msg || is_text_clipboard_noop_compat_message msg
      | PortForward => is_render_broadcast_noop_compat_message msg
      | ViewCamera => is_text_clipboard_noop_compat_message msg
      | Remote => false
      end in
    if noop_compat then None
    else
      let allowed :=
        match t with
        | Remote => true
        | FileTransfer => is_file_transfer_scoped_message msg
        | PortForward => is_port_forward_scoped_message msg
        | ViewCamera => is_view_camera_scoped_message msg
        | Terminal => is_terminal_scoped_message msg
        end in
      then_some (negb allowed) (message_family msg).

Definition authorized_scope_violation (t : option AuthConnType) (msg : option Message) : option rstr :=
  match t with
  | None => then_some (negb (is_connection_housekeeping_message msg)) (Str.lit "session.auth_type")
  | Some t => authorized_message_scope_violation t msg
  end.

(** * Specification *)

Definition known_or {A} (x : EnumOrUnknown A) (d : A) : EnumOrUnknown A :=
  match x with Known a => Known a | UnknownValue _ => Known d end.

(** What a camera view and a terminal may ask for. *)
Definition camera_part (o : OptionMessage) : OptionMessage :=
  mkOption (known_or (image_quality o) QualityNotSet) unset unset unset unset
    (Z.max 0 (custom_image_quality o)) (known_or (disable_audio o) NotSet) unset unset
    (supported_decoding o) (Z.max 0 (custom_fps o)) unset unset unset unset unset unset.

Definition terminal_part (o : OptionMessage) : OptionMessage :=
  mkOption (Known QualityNotSet) unset unset unset unset 0 unset unset unset None 0 unset unset unset unset
    (known_or (terminal_persistent o) NotSet) unset.

Definition scope_part (t : AuthConnType) (o : OptionMessage) : OptionMessage :=
  match t with
  | Remote => o
  | ViewCamera => camera_part o
  | Terminal => terminal_part o
  | FileTransfer | PortForward => no_option
  end.

(** What a message asks for beyond the scope: its options without the fields of the
    scope.  The values of a camera view's fields do not matter; the only field of a
    terminal has to be known. *)
Definition beyond_scope (t : AuthConnType) (o : OptionMessage) : OptionMessage :=
  match t with
  | Remote => no_option
  | ViewCamera =>
      o <| image_quality := Known QualityNotSet |> <| custom_image_quality := 0 |>
        <| custom_fps := 0 |> <| supported_decoding := None |> <| disable_audio := unset |>
  | Terminal =>
      match terminal_persistent o with
      | Known _ => o <| terminal_persistent := unset |>
      | UnknownValue _ => o
      end
  | FileTransfer | PortForward => o
  end.

(** The options of a session that hold nothing outside its scope, and nothing unknown. *)
Definition in_scope (t : AuthConnType) (o : OptionMessage) : Prop := scope_part t o = o.

(** * Theorems *)

Lemma view_camera_option_part o :
  (scoped_view_camera_option o).1 = then_some (option_has_any_field (camera_part o)) (camera_part o).
Proof.
  assert (forall a b, a = b -> then_some (option_has_any_field a) a = then_some (option_has_any_field b) b) as H
    by (by intros ? ? ->).
  unfold scoped_view_camera_option. apply H. destruct o as [q l1 l2 l3 l4 cq da dc ef sd fps l5 l6 l7 l8 tp sc].
  unfold camera_part. cbn [image_quality custom_image_quality custom_fps supported_decoding disable_audio].
  assert (Z.max 0 cq = if 0 <=? cq then cq else 0) as -> by (zbool; lia).
  assert (Z.max 0 fps = if 0 <=? fps then fps else 0) as -> by (zbool; lia).
  by destruct q, da, (0 <=? cq), (0 <=? fps).
Qed.

Lemma terminal_option_part o :
  (scoped_terminal_login_option o).1 = then_some (option_has_any_field (terminal_part o)) (terminal_part o).
Proof.
  destruct o as [q l1 l2 l3 l4 cq da dc ef sd fps l5 l6 l7 l8 tp sc]. unfold scoped_terminal_login_option, terminal_part.
  cbn [terminal_persistent]. by destruct tp.
Qed.

Lemma scoped_option_part t o :
  t <> Remote ->
  (scoped_login_option t o).1 = then_some (option_has_any_field (scope_part t o)) (scope_part t o).
Proof. destruct t; intros Ht; try done; [apply view_camera_option_part|apply terminal_option_part]. Qed.

Lemma scope_part_idemp t o : scope_part t (scope_part t o) = scope_part t o.
Proof.
  destruct o as [q l1 l2 l3 l4 cq da dc ef sd fps l5 l6 l7 l8 tp sc], t; cbn; try done.
  - unfold camera_part. cbn. by destruct q, da; f_equal; lia.
  - unfold terminal_part. cbn. by destruct tp.
Qed.

(** ** Violations *)

Lemma is_unset f : is_bool_option_not_set f = bool_decide (f = unset).
Proof.
  unfold is_bool_option_not_set. apply bool_decide_ext. destruct f; cbn; [|done].
  by split; [intros [= ->]|intros [= ->]].
Qed.

Lemma quality_is_unset o : quality_not_set o = bool_decide (image_quality o = Known QualityNotSet).
Proof.
  unfold quality_not_set. apply bool_decide_ext. destruct (image_quality o); cbn; [|done].
  by split; [intros [= ->]|intros [= ->]].
Qed.

(** Turns the tests on the fields into equations. *)
Ltac fields :=
  rewrite ?negb_false_iff, ?orb_false_iff, ?andb_true_iff, ?negb_false_iff, ?is_unset, ?quality_is_unset,
    ?bool_decide_eq_true, ?bool_decide_eq_false, ?Z.eqb_eq, <- ?eq_None_not_Some.

Lemma no_field o : option_has_any_field o = false <-> o = no_option.
Proof.
  unfold option_has_any_field, option_has_non_terminal_login_field. fields.
  destruct o as [q l1 l2 l3 l4 cq da dc ef sd fps l5 l6 l7 l8 tp sc]. cbn. split.
  - intros H. destruct_and! H. by subst.
  - intros [= -> -> -> -> -> -> -> -> -> -> -> -> -> -> -> -> ->]. by split_and!.
Qed.

Lemma no_camera_field o : option_has_non_view_camera_login_field o = false <-> beyond_scope ViewCamera o = no_option.
Proof.
  unfold option_has_non_view_camera_login_field. fields.
  destruct o as [q l1 l2 l3 l4 cq da dc ef sd fps l5 l6 l7 l8 tp sc]. cbn. split.
  - intros H. destruct_and! H. by subst.
  - intros [= -> -> -> -> -> -> -> -> -> -> -> ->]. by split_and!.
Qed.

Lemma no_terminal_field o :
  (scoped_terminal_login_option o).2 = None <-> beyond_scope Terminal o = no_option.
Proof.
  unfold scoped_terminal_login_option. cbn [beyond_scope].
  destruct (terminal_persistent o) as [v|z] eqn:Ev; cbn [enum_value snd].
  - rewrite <- no_field. change (option_has_any_field (o <| terminal_persistent := unset |>))
      with (option_has_non_terminal_login_field o || false).
    rewrite orb_false_r. cbn [orb]. by destruct (option_has_non_terminal_login_field o).
  - split; [done|]. by intros ->.
Qed.

Lemma violation_none t o : (scoped_login_option t o).2 = None <-> beyond_scope t o = no_option.
Proof.
  destruct t; cbn [scoped_login_option]; [done| | | |apply no_terminal_field].
  1,2: cbn [beyond_scope snd]; rewrite <- no_field; unfold then_some; by destruct (option_has_any_field o).
  unfold scoped_view_camera_option. cbn [snd]. rewrite <- no_camera_field. unfold then_some.
  by destruct (option_has_non_view_camera_login_field o).
Qed.

Lemma violation_is_login_option t o v : (scoped_login_option t o).2 = Some v -> v = login_option.
Proof.
  assert (forall b, then_some b login_option = Some v -> v = login_option) as Hb
    by (intros []; [by intros [= <-]|done]).
  destruct t; cbn [scoped_login_option snd]; [done|apply Hb|apply Hb|apply Hb|].
  unfold scoped_terminal_login_option. destruct (enum_value _); apply Hb.
Qed.

(** The message by which a session changes its options. *)
Definition update (o : OptionMessage) : option Message := Some (MiscMsg (Some (OptionMisc o))).

Lemma update_allowed t o :
  authorized_scope_violation (Some t) (update o) = None
  <-> t = Remote
      \/ (t = ViewCamera \/ t = Terminal) /\ beyond_scope t o = no_option
      \/ t <> ViewCamera /\ is_supported_decoding_only_option o = true.
Proof.
  destruct t; cbn; rewrite ?orb_false_r.
  - split; [by left|done].
  - destruct (is_supported_decoding_only_option o); cbn; [by split; [auto|]|].
    split; [done|]. by intros [?|[[[?|?] _]|[_ ?]]].
  - destruct (is_supported_decoding_only_option o); cbn; [by split; [auto|]|].
    split; [done|]. by intros [?|[[[?|?] _]|[_ ?]]].
  - unfold is_view_camera_scoped_option. pose proof (violation_none ViewCamera o) as Hv.
    cbn [scoped_login_option] in Hv. case_bool_decide as E; cbn; split; try done.
    + intros _. right. left. split; [by left|]. by apply Hv.
    + intros [?|[[_ Hb]|[? _]]]; [done| |done]. by apply Hv in Hb.
  - destruct (is_supported_decoding_only_option o); cbn; [by split; [auto|]|].
    unfold is_terminal_scoped_option. pose proof (no_terminal_field o) as Hv.
    case_bool_decide as E; cbn; split; try done.
    + intros _. right. left. split; [by right|]. by apply Hv.
    + intros [?|[[_ Hb]|[_ ?]]]; [done| |done]. by apply Hv in Hb.
Qed.

(** C31 Of the options of a scoped session only the fields of its scope are taken, values
    that are unknown or negative as if they were not set, and nothing when none is left;
    what was taken is taken again as it is.  The options of a login are reported as a
    violation exactly when they set a field beyond the scope, and the message that changes
    the options of a session is refused exactly then too by a camera view and a terminal,
    never by the desktop, and always by a file transfer and a tunnel; these two and the
    terminal let the one through, without any effect, that holds the decoding alone. *)
Theorem scoped_options_keep_their_fields t o :
  let '(scoped, violation) := scoped_login_option t o in
  match scoped with
  | Some s => s = scope_part t o /\ in_scope t s /\ (scoped_login_option t s).1 = Some s
  | None => t <> Remote /\ option_has_any_field (scope_part t o) = false
  end
  /\ (in_scope t o -> option_has_any_field o = true -> scoped = Some o)
  /\ match violation with
     | None => beyond_scope t o = no_option
     | Some v => beyond_scope t o <> no_option /\ v = login_option
     end
  /\ (authorized_scope_violation (Some t) (update o) = None
      <-> t = Remote
          \/ (t = ViewCamera \/ t = Terminal) /\ violation = None
          \/ t <> ViewCamera /\ is_supported_decoding_only_option o = true).
Proof.
  pose proof (scoped_option_part t o) as Hs. pose proof (violation_none t o) as Hv.
  pose proof (violation_is_login_option t o) as Hl. pose proof (update_allowed t o) as Hu.
  rewrite <- Hv in Hu.
  assert (match (scoped_login_option t o).2 with
          | None => beyond_scope t o = no_option
          | Some v => beyond_scope t o <> no_option /\ v = login_option
          end) as He.
  { destruct (scoped_login_option t o).2 as [v|]; [|by apply Hv].
    split; [by intros ?%Hv|by apply Hl]. }
  destruct (decide (t = Remote)) as [->|Hne]; [by split_and!|]. specialize (Hs Hne).
  destruct (scoped_login_option t o) as [scoped violation] eqn:E. cbn [fst snd] in *. subst scoped.
  unfold then_some. destruct (option_has_any_field (scope_part t o)) eqn:Ha.
  - split_and!; [done|by apply scope_part_idemp| |by intros ->|done|done].
    rewrite scoped_option_part, scope_part_idemp, Ha by done. done.
  - split_and!; [done|done| |done|done]. unfold in_scope. intros Hi Ho. congruence.
Qed.

(** A camera view that asks for a quality and for the keyboard gets the quality, and the
    keyboard is reported. *)
Lemma scoped_options_keep_their_fields_witness :
  let ask := no_option <| image_quality := Known Best |> in
  scoped_login_option ViewCamera (ask <| disable_keyboard := Known Yes |>) = (Some ask, Some login_option)
  /\ in_scope ViewCamera ask /\ (scoped_login_option ViewCamera ask).1 = Some ask.
Proof.
  intros ask. split; [vm_compute; reflexivity|].
  pose proof (scoped_options_keep_their_fields ViewCamera (ask <| disable_keyboard := Known Yes |>)) as H.
  destruct (scoped_login_option _ _) as [scoped violation] eqn:E. vm_compute in E. injection E as <- <-.
  exact (proj2 (proj1 H)).
Defined.
