(* ===== verification/FileScan.v ===== *)
(** * Policy and antimalware check of files: [src/clanto/file_scan.rs]

    What the host's policy refuses of a file transfer and of the files of the clipboard
    (a direction, an extension), the registry of the destinations of the jobs that are
    scanned, the verdict of [clamd] and what becomes of a scanned file.  The options of
    the configuration are an [Options]; the events of the audit are returned with the
    result.  Paths are those of Linux.  The conversation with [clamd] and the files
    themselves are arguments. *)

From coqutil Require Import Datatypes.RecordSetters.
From S2P Require Import Prelude PosixFs SessionScope.
Import TriangleBracketNotations.

(** ** Data *)

Definition DEFAULT_MAX_MB : Z := 512.
Definition BLOCKED_SCAN_MESSAGE : rstr := Str.lit "File bloccato dal controllo antimalware".
Definition BLOCKED_DIRECTION_MESSAGE : rstr := Str.lit "Trasferimento file bloccato dalla policy dell'host".
Definition BLOCKED_EXTENSION_MESSAGE : rstr := Str.lit "File bloccato per estensione non consentita".
Definition QUARANTINE_BASENAME_MAX : nat := 120.

(** [conn_id], [job_id]. *)
Abbreviation JobOwner := (Z * Z)%type.

Inductive ScanMode := Off | Warn | Block.
Inductive FileDirection := Both | ToHost | FromHost | NoDirection.
Inductive TransferDirection := TowardsHost | AwayFromHost.
Inductive ScanOutcomeKind := Clean | Malware | Unavailable.
Inductive ScanDecision := Deliver | Quarantine.

#[export] Instance ScanMode_eq : EqDecision ScanMode.
Proof. solve_decision. Defined.

Record RegisteredJob := mkRegistered { job_mode : ScanMode; reserved_paths : list rstr }.
Record JobRegistry := mkRegistry { jobs : gmap JobOwner RegisteredJob; reservations : gmap rstr JobOwner }.
Record PolicyRejection := mkRejection { rej_id : Z; rej_file_num : Z; message : rstr }.

(** The options of the configuration. *)
Record Options := mkOptions {
  file_scan : rstr; file_scan_max_mb : rstr; file_direction : rstr; file_blocked_ext : rstr }.

(** [emit_policy_event]: kind, base name, size, result. *)
Record PolicyEvent := mkEvent { kind : rstr; ev_name : rstr; ev_size : Z; ev_result : rstr }.

Definition scan_mode_from (value : rstr) : ScanMode :=
  let value := Str.to_ascii_lowercase (Str.trim value) in
  if bool_decide (value = Str.lit "warn") then Warn
  else if bool_decide (value = Str.lit "block") then Block
  else Off.

Definition file_direction_from (value : rstr) : FileDirection :=
  let value := Str.to_ascii_lowercase (Str.trim value) in
  if bool_decide (value = Str.lit "to-host") then ToHost
  else if bool_decide (value = Str.lit "from-host") then FromHost
  else if bool_decide (value = Str.lit "none") then NoDirection
  else Both.

Definition direction_allowed (policy : FileDirection) (direction : TransferDirection) : bool :=
  match policy, direction with
  | Both, _ | ToHost, TowardsHost | FromHost, AwayFromHost => true
  | _, _ => false
  end.

(** ** Names *)

Definition is_separator (c : Z) : bool := (c =? 47) || (c =? 92).
Definition dot_or_space (c : Z) : bool := (c =? 46) || (c =? 32).

(** [rsplit(separator).next()]. *)
Definition last_component (name : rstr) : rstr := default [] (last (Str.split is_separator name)).

Definition normalized_extension (name : rstr) : option rstr :=
  let name := Str.trim_end_matches dot_or_space (last_component name) in
  match Str.rsplit_once (Str.ch 46) name with
  | Some (_, extension) =>
      match extension with [] => None | _ => Some (Str.to_ascii_lowercase extension) end
  | None => None
  end.

Definition audit_basename (name : rstr) : rstr :=
  default [] (find (fun c => negb (bool_decide (c = []))) (rev (Str.split is_separator name))).

Definition candidate_extension (candidate : rstr) : rstr :=
  Str.trim_end_matches dot_or_space (Str.trim_start_matches (Str.ch 46) (Str.trim candidate)).

Definition extension_blocked (name configured : rstr) : bool :=
  match normalized_extension name with
  | None => false
  | Some extension =>
      existsb (fun candidate => Str.eq_ignore_ascii_case (candidate_extension candidate) extension)
        (Str.split (Str.ch 44) configured)
  end.

Definition incoming_name (path entry_name : rstr) : rstr :=
  match entry_name with [] => path | _ => entry_name end.

Definition emit_policy_event (kind name : rstr) (size : Z) (result : rstr) : PolicyEvent :=
  mkEvent kind (audit_basename name) size result.

Definition DIRECTION_BLOCKED : rstr := Str.lit "clanto_file_direction_blocked".
Definition EXTENSION_BLOCKED : rstr := Str.lit "clanto_file_extension_blocked".
Definition UNSCANNABLE : rstr := Str.lit "clanto_file_unscannable".
Definition blocked : rstr := Str.lit "blocked".

(** ** File transfer *)

Definition file_type_is_printer (t : EnumOrUnknown FileType) : bool :=
  match t with Known Printer => true | _ => false end.

Definition reject_file_action (o : Options) (action : FileAction) : option PolicyRejection * list PolicyEvent :=
  let policy := file_direction_from (file_direction o) in
  match action with
  | SendFiles id path _ file_num file_type =>
      if negb (file_type_is_printer file_type) && negb (direction_allowed policy AwayFromHost) then
        (Some (mkRejection id file_num BLOCKED_DIRECTION_MESSAGE),
         [emit_policy_event DIRECTION_BLOCKED path 0 (Str.lit "from-host")])
      else (None, [])
  | ReceiveFiles id path file_num files total_size =>
      if negb (direction_allowed policy TowardsHost) then
        (Some (mkRejection id file_num BLOCKED_DIRECTION_MESSAGE),
         [emit_policy_event DIRECTION_BLOCKED path total_size (Str.lit "to-host")])
      else
        let configured := file_blocked_ext o in
        match find (fun entry => extension_blocked (incoming_name path (name entry)) configured) files with
        | Some entry =>
            (Some (mkRejection id file_num BLOCKED_EXTENSION_MESSAGE),
             [emit_policy_event EXTENSION_BLOCKED (incoming_name path (name entry)) (size entry) blocked])
        | None =>
            if bool_decide (files = []) && extension_blocked path configured then
              (Some (mkRejection id file_num BLOCKED_EXTENSION_MESSAGE),
               [emit_policy_event EXTENSION_BLOCKED path total_size blocked])
            else (None, [])
        end
  | _ => (None, [])
  end.

Definition reject_files_from_host (o : Options) (path : rstr) (files : list (rstr * Z))
  : option rstr * list PolicyEvent :=
  let configured := file_blocked_ext o in
  if bool_decide (Str.trim configured = []) then (None, [])
  else
    match find (fun f => extension_blocked f.1 configured)
            ((fun f => (incoming_name path f.1, f.2)) <$> files) with
    | Some (name, size) =>
        (Some BLOCKED_EXTENSION_MESSAGE, [emit_policy_event EXTENSION_BLOCKED name size blocked])
    | None => (None, [])
    end.

(** ** Files of the clipboard *)

Definition CLIP_PDU_HEADER : nat := 4.
Definition CLIP_DESCRIPTOR_SIZE : nat := 592.
Definition CLIP_ATTRIBUTES_OFFSET : nat := 36.
Definition CLIP_SIZE_HIGH_OFFSET : nat := 64.
Definition CLIP_NAME_OFFSET : nat := 72.
Definition CLIP_NAME_UNITS : nat := 260.
Definition FILE_ATTRIBUTE_DIRECTORY : Z := 16.
Definition CB_RESPONSE_FAIL : Z := 2.

(** [from_le_bytes]. *)
Definition le_value (b : bytes) : Z := foldr (fun x acc => x + 256 * acc) 0 b.

Definition slice (d : bytes) (at_ len : nat) : bytes := take len (drop at_ d).

Definition u32_at (d : bytes) (at_ : nat) : Z := le_value (slice d at_ 4).

(** [chunks_exact]: the whole chunks. *)
Fixpoint chunks_exact (fuel n : nat) (d : bytes) : list bytes :=
  match fuel with
  | O => []
  | S f => if (length d <? n)%nat then [] else take n d :: chunks_exact f n (drop n d)
  end.

Definition chunks (n : nat) (d : bytes) : list bytes := chunks_exact (length d) n d.

Fixpoint take_while (p : Z -> bool) (us : list Z) : list Z :=
  match us with
  | u :: us => if p u then u :: take_while p us else []
  | [] => []
  end.

Definition REPLACEMENT : Z := 65533.

Definition is_high_surrogate (u : Z) : bool := (55296 <=? u) && (u <=? 56319).
Definition is_low_surrogate (u : Z) : bool := (56320 <=? u) && (u <=? 57343).

(** [String::from_utf16_lossy]: a surrogate without its pair is replaced. *)
Fixpoint from_utf16_lossy (us : list Z) : rstr :=
  match us with
  | [] => []
  | u :: us' =>
      if is_high_surrogate u then
        match us' with
        | v :: us'' =>
            if is_low_surrogate v
            then 65536 + Z.shiftl (u - 55296) 10 + (v - 56320) :: from_utf16_lossy us''
            else REPLACEMENT :: from_utf16_lossy us'
        | [] => [REPLACEMENT]
        end
      else if is_low_surrogate u then REPLACEMENT :: from_utf16_lossy us'
      else u :: from_utf16_lossy us'
  end.

Definition descriptor_name (d : bytes) : rstr :=
  from_utf16_lossy
    (take_while (fun u => negb (u =? 0))
       (le_value <$> chunks 2 (slice d CLIP_NAME_OFFSET (CLIP_NAME_UNITS * 2)))).

Definition descriptor_size (d : bytes) : Z :=
  Z.lor (Z.shiftl (u32_at d CLIP_SIZE_HIGH_OFFSET) 32) (u32_at d (CLIP_SIZE_HIGH_OFFSET + 4)).

Definition is_file_descriptor (d : bytes) : bool :=
  Z.land (u32_at d CLIP_ATTRIBUTES_OFFSET) FILE_ATTRIBUTE_DIRECTORY =? 0.

Definition clipboard_descriptor_files (data : bytes) : option (list (rstr * Z)) :=
  if (length data <? CLIP_PDU_HEADER)%nat then None
  else
    let count := le_value (take CLIP_PDU_HEADER data) in
    if (count =? 0)
       || negb (Z.of_nat (length data) =? Z.of_nat CLIP_PDU_HEADER + count * Z.of_nat CLIP_DESCRIPTOR_SIZE)
    then None
    else Some ((fun d => (descriptor_name d, descriptor_size d))
                 <$> List.filter is_file_descriptor (chunks CLIP_DESCRIPTOR_SIZE (drop CLIP_PDU_HEADER data))).

Definition direction_label (direction : TransferDirection) : rstr :=
  match direction with TowardsHost => Str.lit "to-host" | AwayFromHost => Str.lit "from-host" end.

Definition blocked_clipboard_file (o : Options) (direction : TransferDirection) (files : list (rstr * Z))
  : option PolicyEvent :=
  if negb (direction_allowed (file_direction_from (file_direction o)) direction) then
    (fun f => emit_policy_event DIRECTION_BLOCKED f.1 f.2 (direction_label direction)) <$> head files
  else
    (fun f => emit_policy_event EXTENSION_BLOCKED f.1 f.2 blocked)
      <$> find (fun f => extension_blocked f.1 (file_blocked_ext o)) files.

Definition filter_clipboard_files (o : Options) (direction : TransferDirection) (clip : Cliprdr)
  : Cliprdr * list PolicyEvent :=
  match clip with
  | FormatDataResponse _ format_data =>
      match clipboard_descriptor_files format_data with
      | None => (clip, [])
      | Some files =>
          match blocked_clipboard_file o direction files with
          | Some ev => (FormatDataResponse CB_RESPONSE_FAIL [], [ev])
          | None => (clip, [])
          end
      end
  | _ => (clip, [])
  end.

Definition filter_clipboard_to_host (o : Options) := filter_clipboard_files o TowardsHost.
Definition filter_clipboard_from_host (o : Options) := filter_clipboard_files o AwayFromHost.

Definition clipboard_from_host_blocked (o : Options) : bool :=
  negb (direction_allowed (file_direction_from (file_direction o)) AwayFromHost).

Definition refuse_clipboard_from_host (o : Options) (clip : Cliprdr) : option Cliprdr :=
  let refusal :=
    match clip with
    | FormatDataRequest _ => Some (FormatDataResponse CB_RESPONSE_FAIL [])
    | FileContentsRequest stream_id _ _ _ _ _ _ _ => Some (FileContentsResponse CB_RESPONSE_FAIL stream_id [])
    | _ => None
    end in
  refusal ← refusal;
  if clipboard_from_host_blocked o then Some refusal else None.

(** ** Jobs that are scanned *)

(** [PathBuf::push] and [PathBuf::pop] of components: a root replaces, a root has no
    parent. *)
Definition normalize_step (acc : list Component) (c : Component) : list Component :=
  match c with
  | CurDir => acc
  | ParentDir => match last acc with Some RootDir | None => acc | _ => removelast acc end
  | RootDir => [RootDir]
  | Normal s => acc ++ [Normal s]
  end.

Definition normalize_path (current_dir : option rstr) (path : rstr) : list Component :=
  let absolute :=
    if is_absolute path then path
    else match current_dir with Some directory => join directory path | None => path end in
  foldl normalize_step [] (components absolute).

Definition component_text (c : Component) : rstr :=
  match c with RootDir => [SEP] | CurDir => DOT | ParentDir => DOTDOT | Normal s => s end.

Definition reservation_key (current_dir : option rstr) (path : rstr) : rstr :=
  foldl (fun acc c => match c with RootDir => [SEP] | _ => join acc (component_text c) end) []
    (normalize_path current_dir path).

(** The job, as far as the registry reads it; [download_paths] is an error when the names
    are not safe. *)
Record Job := mkJob {
  job_conn_id : Z; job_id : Z; job_names : list rstr; total_size : Z;
  download_paths : result (list rstr) unit }.

Definition job_owner (job : Job) : JobOwner := (job_conn_id job, job_id job).

Definition scan_mode_for (owner : JobOwner) (r : JobRegistry) : ScanMode :=
  match jobs r !! owner with Some job => job_mode job | None => Off end.

Definition is_scan_enabled_for_job (job : Job) (r : JobRegistry) : bool :=
  negb (bool_decide (scan_mode_for (job_owner job) r = Off)).

Definition unscannable (name : rstr) (size : Z) (result : rstr) : PolicyEvent :=
  emit_policy_event UNSCANNABLE name size result.

(** [None] when the destination has no name. *)
Definition file_name (path : rstr) : option rstr :=
  match last (components path) with Some (Normal s) => Some s | _ => None end.

Definition register_scan_job (current_dir : option rstr) (o : Options) (job : Job) (r : JobRegistry)
  : result unit rstr * JobRegistry * list PolicyEvent :=
  let owner := job_owner job in
  let mode := scan_mode_from (file_scan o) in
  if bool_decide (mode = Off) then (Ok tt, r, [])
  else
    match download_paths job with
    | Err _ =>
        let name := default [] (audit_basename <$> head (job_names job)) in
        (Err BLOCKED_SCAN_MESSAGE, r, [unscannable name (total_size job) (Str.lit "reservation-failed")])
    | Ok paths =>
        let keys := reservation_key current_dir <$> paths in
        let has_internal_collision := negb (bool_decide (NoDup keys)) in
        if has_internal_collision
           || bool_decide (is_Some (jobs r !! owner))
           || existsb (fun key => match reservations r !! key with
                                  | Some reserved_by => negb (bool_decide (reserved_by = owner))
                                  | None => false
                                  end) keys
        then
          let name := default [] (audit_basename <$> (p ← head paths; file_name p)) in
          (Err BLOCKED_SCAN_MESSAGE, r, [unscannable name 0 (Str.lit "destination-reserved")])
        else
          (Ok tt,
           mkRegistry (<[owner := mkRegistered mode keys]> (jobs r))
             (foldl (fun m key => <[key := owner]> m) (reservations r) keys), [])
    end.

Definition release_scan_job (job : Job) (r : JobRegistry) : JobRegistry :=
  let owner := job_owner job in
  match jobs r !! owner with
  | None => r
  | Some registered =>
      mkRegistry (delete owner (jobs r))
        (foldl (fun m path => if bool_decide (m !! path = Some owner) then delete path m else m)
           (reservations r) (reserved_paths registered))
  end.

Definition release_scan_jobs (js : list Job) (r : JobRegistry) : JobRegistry :=
  foldl (fun r job => release_scan_job job r) r js.

(** ** The verdict *)

Definition scan_decision (mode : ScanMode) (outcome : ScanOutcomeKind) : ScanDecision :=
  match mode, outcome with
  | Block, (Malware | Unavailable) => Quarantine
  | _, _ => Deliver
  end.

Definition max_scan_bytes (o : Options) : Z :=
  let mb :=
    match Str.parse_uint 64 (Str.trim (file_scan_max_mb o)) with
    | Some mb => if 0 <? mb then mb else DEFAULT_MAX_MB
    | None => DEFAULT_MAX_MB
    end in
  Z.min (mb * (1024 * 1024)) (Int.umax 64).

Fixpoint contains_text (needle s : rstr) : bool :=
  Str.starts_with needle s || match s with [] => false | _ :: s' => contains_text needle s' end.

(** The answer of [clamd]: what it sent up to an end of line, at most 64 KiB. *)
Definition RESPONSE_MAX : Z := 64 * 1024.

Fixpoint read_response (room : Z) (stream : bytes) : bytes :=
  match stream with
  | b :: stream =>
      if (room <=? 0) || (b =? 0) || (b =? 10) then [] else b :: read_response (room - 1) stream
  | [] => []
  end.

Definition FOUND : rstr := Str.lit " FOUND".
Definition OK : rstr := Str.lit " OK".

Definition clamd_verdict (response : rstr) : result ScanOutcomeKind unit :=
  if contains_text FOUND response then Ok Malware
  else if contains_text OK response then Ok Clean
  else Err tt.

Arguments FOUND : simpl never.
Arguments OK : simpl never.

(** The chunks of the file in the request of [clamd], each after its length, big end
    first, and the empty one that ends it. *)
Definition be32 (n : Z) : bytes :=
  [Int.wrap 8 (n / 2 ^ 24); Int.wrap 8 (n / 2 ^ 16); Int.wrap 8 (n / 2 ^ 8); Int.wrap 8 n].

Definition zINSTREAM : bytes := Str.lit "zINSTREAM" ++ [0].

Definition clamd_request (reads : list bytes) : bytes :=
  zINSTREAM ++ concat ((fun b => be32 (Z.of_nat (length b)) ++ b) <$> reads) ++ be32 0.

(** [answer]: what [clamd] sends, [None] when the conversation fails; the text is the
    lossy one. *)
Definition clamd_scan (from_utf8_lossy : bytes -> rstr) (answer : option bytes)
  : result ScanOutcomeKind unit :=
  match answer with
  | None => Err tt
  | Some stream => clamd_verdict (from_utf8_lossy (read_response RESPONSE_MAX stream))
  end.

Definition scan_with_engine (from_utf8_lossy : bytes -> rstr) (endpoint : rstr) (answer : option bytes)
  : ScanOutcomeKind :=
  if bool_decide (Str.trim endpoint = []) then Unavailable
  else match clamd_scan from_utf8_lossy answer with Ok kind => kind | Err _ => Unavailable end.

(** [preparation] is the size and the hash of the file, [None] when it cannot be read in
    time; [scan] is [None] when the engine takes too long. *)
Definition bounded_scan_pipeline (max_bytes : Z) (preparation : option (Z * rstr))
    (scan : option ScanOutcomeKind) : Z * rstr * ScanOutcomeKind :=
  match preparation with
  | None => (0, [], Unavailable)
  | Some (size, sha256) =>
      if max_bytes <? size then (size, sha256, Unavailable)
      else (size, sha256, match scan with Some kind => kind | None => Unavailable end)
  end.

(** ** Quarantine *)

Definition quarantine_char (c : Z) : Z :=
  if Str.is_ascii_alphanumeric c || (c =? 46) || (c =? 45) || (c =? 95) then c else 95.

Definition safe_quarantine_basename (name : rstr) : rstr :=
  match take QUARANTINE_BASENAME_MAX (quarantine_char <$> audit_basename name) with
  | [] => Str.lit "file"
  | safe_name => safe_name
  end.

(** The name in the directory of the quarantine. *)
Definition quarantine_path (timestamp : Z) (sha256 name : rstr) : rstr :=
  let sha256 := match sha256 with [] => Str.lit "sha256-unavailable" | _ => sha256 end in
  Str.show_nat timestamp ++ Str.lit "-" ++ sha256 ++ Str.lit "-" ++ safe_quarantine_basename name.

(** What becomes of a file that was received: not looked at, given its name and its time,
    or refused; [quarantined] tells whether moving it away worked. *)
Inductive Finished := NotScanned | Delivered | Refused (message : rstr).

Definition finish_completed_download (o : Options) (r : JobRegistry) (owner : JobOwner) (file_num : Z)
    (next_file_num : option Z) (current_download : result (option rstr) rstr)
    (preparation : option (Z * rstr)) (scan : option ScanOutcomeKind) (quarantined : bool) : Finished :=
  let mode := scan_mode_for owner r in
  if bool_decide (mode = Off) || bool_decide (next_file_num = Some file_num) then NotScanned
  else
    match current_download with
    | Err e => Refused e
    | Ok None => NotScanned
    | Ok (Some _) =>
        let '(_, _, outcome) := bounded_scan_pipeline (max_scan_bytes o) preparation scan in
        match scan_decision mode outcome with
        | Deliver => Delivered
        | Quarantine =>
            if quarantined then Refused BLOCKED_SCAN_MESSAGE
            else Refused (BLOCKED_SCAN_MESSAGE ++ Str.lit ": errore durante la quarantena")
        end
    end.

(** ** Reports of the window *)

Definition CM_KINDS : list rstr :=
  Str.lit <$> ["clanto_file_malware"; "clanto_file_unscannable"; "clanto_file_clean"]%string.

(** [set_conn_id] parses the report and gives it the connection's id; [None] when it is
    not an object. *)
Definition on_cm_report {V} (set_conn_id : Z -> rstr -> option V) (conn_id : Z) (kind value : rstr)
  : option (rstr * V) :=
  if bool_decide (kind ∈ CM_KINDS)
  then (fun v => (kind, v)) <$> set_conn_id conn_id value
  else None.

(** * Specification *)

(** Every destination that is reserved is that of one registered job, and every job has
    reserved its destinations. *)
Definition registry_wf (r : JobRegistry) : Prop :=
  forall path owner,
    reservations r !! path = Some owner
    <-> exists job, jobs r !! owner = Some job /\ path ∈ reserved_paths job.

Definition no_jobs : JobRegistry := mkRegistry ∅ ∅.

Inductive RegistryOp := Register (current_dir : option rstr) (o : Options) (job : Job) | Release (job : Job).

Definition registry_step (r : JobRegistry) (op : RegistryOp) : JobRegistry :=
  match op with
  | Register current_dir o job => (register_scan_job current_dir o job r).1.2
  | Release job => release_scan_job job r
  end.

(** [char::encode_utf16], a character's code units. *)
Definition utf16 (s : rstr) : list Z :=
  c ← s; if c <? 65536 then [c] else [55296 + Z.shiftr (c - 65536) 10; 56320 + Z.land (c - 65536) 1023].

(** A character. *)
Definition is_scalar (c : Z) : Prop := 0 < c < 55296 \/ 57344 <= c < 1114112.

Definition zeros (n : nat) : bytes := repeat 0 n.

Fixpoint le_field (n : nat) (z : Z) : bytes :=
  match n with O => [] | S n => z mod 256 :: le_field n (z / 256) end.

(** A [FILEDESCRIPTORW] and a [FILEGROUPDESCRIPTORW], as another end writes them. *)
Definition file_descriptor (f : rstr * Z) (attributes : Z) : bytes :=
  zeros 36 ++ le_field 4 attributes ++ zeros 24 ++ le_field 4 (f.2 / 2 ^ 32) ++ le_field 4 (f.2 mod 2 ^ 32)
  ++ concat (le_field 2 <$> utf16 f.1) ++ zeros (520 - 2 * length (utf16 f.1)).

Definition file_group (files : list (rstr * Z * Z)) : bytes :=
  le_field 4 (Z.of_nat (length files)) ++ concat ((fun f => file_descriptor f.1 f.2) <$> files).

(** What the policy lets through of a transfer. *)
Definition transfer_permitted (o : Options) (action : FileAction) : Prop :=
  let policy := file_direction_from (file_direction o) in
  match action with
  | SendFiles _ _ _ _ file_type =>
      file_type_is_printer file_type = true \/ direction_allowed policy AwayFromHost = true
  | ReceiveFiles _ path _ files _ =>
      direction_allowed policy TowardsHost = true
      /\ Forall (fun entry => extension_blocked (incoming_name path (name entry)) (file_blocked_ext o) = false) files
      /\ (files = [] -> extension_blocked path (file_blocked_ext o) = false)
  | _ => True
  end.

(** And of a list of files of the clipboard. *)
Definition files_permitted (o : Options) (direction : TransferDirection) (files : list (rstr * Z)) : Prop :=
  files = []
  \/ direction_allowed (file_direction_from (file_direction o)) direction = true
     /\ Forall (fun f => extension_blocked f.1 (file_blocked_ext o) = false) files.

(** * Theorems *)

(** ** Extensions *)

Lemma trim_start_matches_app p a b : Forall (fun c => p c = true) a -> Str.trim_start_matches p (a ++ b) = Str.trim_start_matches p b.
Proof. induction 1 as [|c a Hc Ha IH]; [done|]. cbn. by rewrite Hc. Qed.

Lemma trim_end_matches_app p a b : Forall (fun c => p c = true) b -> Str.trim_end_matches p (a ++ b) = Str.trim_end_matches p a.
Proof.
  intros Hb. unfold Str.trim_end_matches. rewrite rev_app_distr, trim_start_matches_app; [done|].
  by apply Forall_rev.
Qed.

Lemma split_app p a c b : p c = true -> Str.split p (a ++ c :: b) = Str.split p a ++ Str.split p b.
Proof.
  intros Hc. induction a as [|x a IH]; [cbn; by rewrite Hc|]. cbn [app Str.split]. rewrite IH.
  destruct (p x); [done|]. by destruct (Str.split p a) as [|piece rest] eqn:E; [destruct (Str.split_nonempty p a)|].
Qed.

Lemma split_app_no p a b : Forall (fun c => p c = false) b ->
  exists front, Str.split p a = front ++ [default [] (last (Str.split p a))]
  /\ Str.split p (a ++ b) = front ++ [default [] (last (Str.split p a)) ++ b].
Proof.
  intros Hb. induction a as [|x a (front & E1 & E2)].
  - exists []. split; [done|]. cbn. induction Hb as [|c b Hc Hb IH]; [done|]. cbn. by rewrite Hc, IH.
  - cbn [app Str.split]. rewrite E2. rewrite E1 in *. destruct (p x).
    + exists ([] :: front). rewrite last_cons, last_snoc. by rewrite last_snoc in *.
    + destruct front as [|f front]; cbn; rewrite last_snoc in *; cbn in *.
      * by exists [].
      * exists ((x :: f) :: front). by rewrite !last_cons, last_snoc.
Qed.

Lemma last_component_app_sep a c b : is_separator c = true -> last_component (a ++ c :: b) = last_component b.
Proof.
  intros Hc. unfold last_component. rewrite split_app by done. rewrite last_app.
  by destruct (last (Str.split is_separator b)) eqn:E; [|apply last_None in E; destruct (Str.split_nonempty is_separator b)].
Qed.

Lemma last_component_app a b :
  Forall (fun c => is_separator c = false) b -> last_component (a ++ b) = last_component a ++ b.
Proof.
  intros Hb. destruct (split_app_no is_separator a b Hb) as (front & E1 & E2).
  unfold last_component. by rewrite E2, last_snoc.
Qed.

(** [to_ascii_lowercase] keeps what the extension is found by. *)
Lemma lower_char_keeps c : is_separator (Str.ascii_lower c) = is_separator c
  /\ dot_or_space (Str.ascii_lower c) = dot_or_space c /\ Str.ch 46 (Str.ascii_lower c) = Str.ch 46 c.
Proof.
  unfold Str.ascii_lower, is_separator, dot_or_space, Str.ch, Str.is_ascii_upper.
  destruct (_ && _) eqn:E; [|done]. apply andb_true_iff in E as [?%Z.leb_le ?%Z.leb_le]. split_and!; zbool; done || lia.
Qed.

Section Keeps.
Context (p : Z -> bool) (Hp : forall c, p (Str.ascii_lower c) = p c).

Lemma trim_start_lower s :
  Str.trim_start_matches p (Str.to_ascii_lowercase s) = Str.to_ascii_lowercase (Str.trim_start_matches p s).
Proof using Hp. induction s as [|c s IH]; [done|]. cbn. rewrite Hp. by destruct (p c). Qed.

Lemma lower_rev s : rev (Str.to_ascii_lowercase s) = Str.to_ascii_lowercase (rev s).
Proof. unfold Str.to_ascii_lowercase. apply (eq_sym (List.map_rev Str.ascii_lower s)). Qed.

Lemma trim_end_lower s :
  Str.trim_end_matches p (Str.to_ascii_lowercase s) = Str.to_ascii_lowercase (Str.trim_end_matches p s).
Proof using Hp. unfold Str.trim_end_matches. by rewrite lower_rev, trim_start_lower, lower_rev. Qed.

Lemma split_lower s : Str.split p (Str.to_ascii_lowercase s) = Str.to_ascii_lowercase <$> Str.split p s.
Proof using Hp.
  induction s as [|c s IH]; [done|]. cbn [Str.to_ascii_lowercase fmap list_fmap Str.split]. rewrite Hp.
  unfold Str.to_ascii_lowercase in IH at 1. rewrite IH. destruct (p c); [done|]. by destruct (Str.split p s).
Qed.

Lemma split_once_lower s :
  Str.split_once p (Str.to_ascii_lowercase s)
  = (fun ab => (Str.to_ascii_lowercase ab.1, Str.to_ascii_lowercase ab.2)) <$> Str.split_once p s.
Proof using Hp.
  induction s as [|c s IH]; [done|]. cbn [Str.to_ascii_lowercase fmap list_fmap Str.split_once]. rewrite Hp.
  unfold Str.to_ascii_lowercase in IH at 1. rewrite IH. destruct (p c); [done|]. by destruct (Str.split_once p s) as [[? ?]|].
Qed.

Lemma rsplit_once_lower s :
  Str.rsplit_once p (Str.to_ascii_lowercase s)
  = (fun ab => (Str.to_ascii_lowercase ab.1, Str.to_ascii_lowercase ab.2)) <$> Str.rsplit_once p s.
Proof using Hp.
  unfold Str.rsplit_once. rewrite lower_rev, split_once_lower. destruct (Str.split_once p (rev s)) as [[a b]|]; [|done].
  cbn. by rewrite !lower_rev.
Qed.
End Keeps.

Lemma last_component_lower s : last_component (Str.to_ascii_lowercase s) = Str.to_ascii_lowercase (last_component s).
Proof.
  unfold last_component. rewrite split_lower by (intros c; apply lower_char_keeps). rewrite fmap_last.
  by destruct (last (Str.split is_separator s)).
Qed.

Lemma normalized_extension_lower s : normalized_extension (Str.to_ascii_lowercase s) = normalized_extension s.
Proof.
  unfold normalized_extension. rewrite last_component_lower, trim_end_lower by (intros c; apply lower_char_keeps).
  rewrite rsplit_once_lower by (intros c; apply lower_char_keeps). destruct (Str.rsplit_once _ _) as [[a b]|]; [|done].
  cbn. destruct b as [|c b]; [done|]. cbn. f_equal. exact (Str.to_ascii_lowercase_idemp (c :: b)).
Qed.

(** A blocked extension is found whatever directories are written before the name,
    whatever dots and spaces after it and whatever the case. *)
Theorem extension_cannot_be_disguised dir sep name trail name' configured :
  is_separator sep = true -> Forall (fun c => dot_or_space c = true) trail ->
  Str.to_ascii_lowercase name' = Str.to_ascii_lowercase name ->
  extension_blocked (dir ++ sep :: name' ++ trail) configured = extension_blocked name configured.
Proof.
  intros Hs Ht Hn. unfold extension_blocked.
  assert (normalized_extension (dir ++ sep :: name' ++ trail) = normalized_extension name) as ->; [|done].
  rewrite <- (normalized_extension_lower name), <- Hn, normalized_extension_lower.
  unfold normalized_extension. rewrite last_component_app_sep by done.
  rewrite last_component_app, trim_end_matches_app; [done|done|].
  apply (Forall_impl _ _ _ Ht). intros c. unfold dot_or_space, is_separator. zbool; done || lia.
Qed.

(** ** The transfer *)

Lemma find_none {A} (f : A -> bool) l x : find f l = None -> x ∈ l -> f x = false.
Proof. intros Hf Hx. apply (List.find_none _ _ Hf). by apply list_elem_of_In. Qed.

Lemma find_is_none {A} (f : A -> bool) l : find f l = None <-> Forall (fun x => f x = false) l.
Proof.
  split.
  - intros Hf. apply List.Forall_forall. intros x Hx. exact (List.find_none _ _ Hf x Hx).
  - induction 1 as [|x l Hx Hl IH]; [done|]. cbn. by rewrite Hx.
Qed.

(** *** A policy that is blank *)

Lemma trim_start_blank s : Str.trim_start s = [] -> Forall (fun c => Str.is_whitespace c = true) s.
Proof. induction s as [|c s IH]; cbn; [done|]. destruct (Str.is_whitespace c) eqn:E; [|done]. auto. Qed.

Lemma trim_blank s : Str.trim s = [] -> Forall (fun c => Str.is_whitespace c = true) s.
Proof.
  unfold Str.trim, Str.trim_end. intros Hs%(f_equal (rev (A:=Z))). rewrite rev_involutive in Hs.
  apply trim_start_blank, Forall_rev in Hs. rewrite rev_involutive in Hs.
  induction s as [|c s IH]; [done|]. cbn in Hs. destruct (Str.is_whitespace c) eqn:E; [by constructor; auto|].
  inversion Hs. congruence.
Qed.

Lemma split_whole p s : Forall (fun c => p c = false) s -> Str.split p s = [s].
Proof. induction 1 as [|c s Hc Hs IH]; [done|]. cbn. by rewrite Hc, IH. Qed.

Lemma blank_blocks_nothing name configured : Str.trim configured = [] -> extension_blocked name configured = false.
Proof.
  intros Ht. unfold extension_blocked, normalized_extension.
  destruct (Str.rsplit_once _ _) as [[stem [|c extension]]|]; [done| |done].
  rewrite split_whole; cycle 1.
  { apply (Forall_impl _ _ _ (trim_blank _ Ht)). intros x Hx. unfold Str.ch.
    destruct (Z.eqb_spec 44 x) as [<-|]; [discriminate Hx|done]. }
  cbn. unfold candidate_extension. by rewrite Ht.
Qed.

(** C36 What the peer sends, and asks for, is refused exactly by the policy.  A file or a
    folder that it sends: when the direction is blocked, or when a name, or the path if no
    name is given, has a blocked extension.  A file or a folder that it asks for: when the
    direction is blocked, whatever the extension; a printer's job obeys no direction.  Once
    the files asked for are known, they are refused exactly when the name of one has a
    blocked extension.  A refusal names the job and its file, and records one event; what
    is let through records none. *)
Theorem refused_exactly_what_the_policy_forbids o action path files :
  match (reject_file_action o action).1 with
  | None => transfer_permitted o action /\ (reject_file_action o action).2 = []
  | Some r =>
      ~ transfer_permitted o action /\ length (reject_file_action o action).2 = 1%nat
      /\ match action with
         | SendFiles id _ _ file_num _ | ReceiveFiles id _ file_num _ _ => rej_id r = id /\ rej_file_num r = file_num
         | _ => False
         end
  end
  /\ match reject_files_from_host o path files with
     | (None, events) =>
         Forall (fun f => extension_blocked (incoming_name path f.1) (file_blocked_ext o) = false) files /\ events = []
     | (Some _, events) =>
         Exists (fun f => extension_blocked (incoming_name path f.1) (file_blocked_ext o) = true) files
         /\ length events = 1%nat
     end.
Proof.
  split.
  - destruct action as [| | |id path' ih fn ft|id path' fn files' total| | | | | |]; cbn; try done.
    + destruct (file_type_is_printer ft); cbn; [by split; [left|]|].
      destruct (direction_allowed _ _); cbn; [by split; [right|]|]. split_and!; try done. by intros [?|?].
    + destruct (direction_allowed _ _); cbn; [|by split_and!; [intros (? & _)|..]].
      destruct (find _ files') as [entry|] eqn:Ef; cbn.
      { apply List.find_some in Ef as [Hin Hb]. split_and!; try done. intros (_ & Hf & _).
        rewrite List.Forall_forall in Hf. specialize (Hf _ Hin). cbn in Hf. congruence. }
      apply find_is_none in Ef. case_bool_decide as E; cbn.
      * destruct (extension_blocked path' _) eqn:Eb; cbn; [|by split_and!].
        split_and!; try done. intros (_ & _ & Hp). by specialize (Hp E).
      * by split_and!.
  - unfold reject_files_from_host. case_bool_decide as Ht.
    { split; [|done]. apply List.Forall_forall. intros f _. by apply blank_blocks_nothing. }
    destruct (find _ _) as [[name size]|] eqn:Ef.
    + split; [|done]. apply List.find_some in Ef as [(f & Ef & Hin)%List.in_map_iff Hb].
      apply List.Exists_exists. exists f. split; [done|]. by injection Ef as <- <-.
    + split; [|done]. by apply find_is_none, Forall_fmap in Ef.
Qed.

(** What is left of a message of the clipboard after the filter offers no file that
    the policy forbids; a list of permitted files is left as it is. *)
Theorem filtered_clipboard_obeys_the_policy o direction clip :
  let '(clip', events) := filter_clipboard_files o direction clip in
  match clip' with
  | FormatDataResponse _ data =>
      forall files, clipboard_descriptor_files data = Some files -> files_permitted o direction files
  | _ => clip' = clip
  end
  /\ (events = [] -> clip' = clip)
  /\ (forall flags data files, clip = FormatDataResponse flags data -> clipboard_descriptor_files data = Some files ->
        files_permitted o direction files -> clip' = clip).
Proof.
  destruct clip as [| | | |flags data| | | | |]; cbn; try done.
  assert (forall files, blocked_clipboard_file o direction files = None <-> files_permitted o direction files) as Hb.
  { intros files. unfold blocked_clipboard_file, files_permitted. destruct (direction_allowed _ _); cbn.
    - rewrite fmap_None, find_is_none. split; [intros H; by right|]. by intros [->|[_ ?]].
    - rewrite fmap_None. destruct files; [by split; [left|]|]. split; [done|]. by intros [?|[? _]]. }
  destruct (clipboard_descriptor_files data) as [files|] eqn:Ed.
  - destruct (blocked_clipboard_file o direction files) as [ev|] eqn:Eb.
    + split_and!; [done|done|]. intros ? ? fs [= <- <-] E Hp. rewrite Ed in E. injection E as <-.
      apply Hb in Hp. congruence.
    + split_and!; [|done|done]. intros fs E. rewrite Ed in E. injection E as <-. by apply Hb.
  - split_and!; [|done|done]. intros fs E. congruence.
Qed.

(** ** The list of files of the clipboard *)

Lemma le_value_field n z : le_value (le_field n z) = z mod 256 ^ Z.of_nat n.
Proof.
  revert z. induction n as [|n IH]; intros z; cbn [le_field le_value foldr]; [by rewrite Z.mod_1_r|].
  change (foldr _ _ (le_field n (z / 256))) with (le_value (le_field n (z / 256))). rewrite IH.
  rewrite Nat2Z.inj_succ, Z.pow_succ_r by lia. rewrite Z.rem_mul_r by lia. lia.
Qed.

Lemma le_field_length n z : length (le_field n z) = n.
Proof. revert z. induction n as [|n IH]; intros z; cbn; [done|]. by rewrite IH. Qed.

Lemma concat_length (n : nat) (ds : list bytes) :
  Forall (fun d => length d = n) ds -> length (concat ds) = (length ds * n)%nat.
Proof. induction 1 as [|d ds Hd Hds IH]; [done|]. cbn. rewrite length_app. lia. Qed.

Lemma chunks_concat (n : nat) (ds : list bytes) :
  (0 < n)%nat -> Forall (fun d => length d = n) ds -> chunks n (concat ds) = ds.
Proof.
  intros Hn Hds. unfold chunks.
  assert (length ds <= length (concat ds))%nat as Hf by (rewrite (concat_length n) by done; nia).
  revert Hf. generalize (length (concat ds)). induction Hds as [|d ds Hd Hds IH]; intros fuel Hf.
  - destruct fuel; [done|]. cbn. by destruct n; [lia|].
  - destruct fuel as [|fuel]; [cbn in Hf; lia|]. cbn [chunks_exact concat]. rewrite length_app.
    rewrite (proj2 (Nat.ltb_ge _ _)) by lia. rewrite take_app_length', drop_app_length' by done.
    rewrite IH; [done|]. cbn in Hf. lia.
Qed.

(** A field of a record after [before]. *)
Lemma slice_at (before field after d : bytes) at_ len :
  d = before ++ field ++ after -> length before = at_ -> length field = len -> slice d at_ len = field.
Proof. intros -> <- <-. unfold slice. by rewrite drop_app_length, take_app_length. Qed.

Lemma utf16_cons c s :
  utf16 (c :: s)
  = (if c <? 65536 then [c] else [55296 + Z.shiftr (c - 65536) 10; 56320 + Z.land (c - 65536) 1023]) ++ utf16 s.
Proof. done. Qed.

Lemma utf16_units s : Forall is_scalar s -> Forall (fun u => 0 < u < 65536) (utf16 s).
Proof.
  induction 1 as [|c s Hc Hs IH]; [done|]. rewrite utf16_cons. apply Forall_app. split; [|done].
  unfold is_scalar in Hc. destruct (Z.ltb_spec c 65536).
  - apply Forall_singleton. lia.
  - rewrite Z.shiftr_div_pow2 by lia. change 1023 with (Z.ones 10). rewrite Z.land_ones by lia.
    repeat (apply Forall_cons; split); [..|done]; Z.to_euclidean_division_equations; lia.
Qed.

Lemma from_utf16 s : Forall is_scalar s -> from_utf16_lossy (utf16 s) = s.
Proof.
  induction 1 as [|c s Hc Hs IH]; [done|]. rewrite utf16_cons. unfold is_scalar in Hc.
  destruct (Z.ltb_spec c 65536) as [Hlt|Hge].
  - cbn [app from_utf16_lossy]. unfold is_high_surrogate, is_low_surrogate.
    assert ((55296 <=? c) && (c <=? 56319) = false) as -> by (zbool; done || lia).
    assert ((56320 <=? c) && (c <=? 57343) = false) as -> by (zbool; done || lia). by rewrite IH.
  - rewrite Z.shiftr_div_pow2 by lia. change 1023 with (Z.ones 10). rewrite Z.land_ones by lia.
    change (2 ^ 10) with 1024. cbn [app from_utf16_lossy]. unfold is_high_surrogate, is_low_surrogate.
    set (h := 55296 + (c - 65536) / 1024). set (l := 56320 + (c - 65536) mod 1024).
    assert (55296 <= h <= 56319 /\ 56320 <= l <= 57343) as [Hh Hl].
    { subst h l. Z.to_euclidean_division_equations; lia. }
    assert ((55296 <=? h) && (h <=? 56319) = true) as -> by (zbool; done || lia).
    assert ((56320 <=? l) && (l <=? 57343) = true) as -> by (zbool; done || lia).
    rewrite IH. f_equal. rewrite Z.shiftl_mul_pow2 by lia. subst h l.
    pose proof (Z.div_mod (c - 65536) 1024 ltac:(lia)). change (2 ^ 10) with 1024. lia.
Qed.

Lemma take_while_zeros us n :
  Forall (fun u => 0 < u < 65536) us -> take_while (fun u => negb (u =? 0)) (us ++ repeat 0 n) = us.
Proof.
  induction 1 as [|u us Hu Hus IH]; [by destruct n|]. cbn. destruct (Z.eqb_spec u 0); [lia|]. cbn. by rewrite IH.
Qed.

Lemma zeros_pairs n : zeros (2 * n) = concat (repeat [0; 0] n).
Proof.
  induction n as [|n IH]; [done|]. replace (2 * S n)%nat with (S (S (2 * n))) by lia.
  cbn [zeros repeat concat app]. by rewrite <- IH.
Qed.

Lemma name_field s :
  Forall is_scalar s -> (length (utf16 s) <= CLIP_NAME_UNITS)%nat ->
  from_utf16_lossy (take_while (fun u => negb (u =? 0))
    (le_value <$> chunks 2 (concat (le_field 2 <$> utf16 s) ++ zeros (520 - 2 * length (utf16 s))))) = s.
Proof.
  unfold CLIP_NAME_UNITS. intros Hs Hl.
  replace (520 - 2 * length (utf16 s))%nat with (2 * (260 - length (utf16 s)))%nat by lia.
  rewrite zeros_pairs, <- concat_app, chunks_concat; [|lia|].
  2: { apply Forall_app. split; [|by apply List.Forall_forall; intros x Hx%repeat_spec; subst x]. apply Forall_fmap, Forall_true. intros u. apply le_field_length. }
  rewrite fmap_app, <- list_fmap_compose. rewrite (Forall_fmap_ext_1 _ id).
  2: { apply (Forall_impl _ _ _ (utf16_units s Hs)). intros u Hu. cbn -[le_field Z.pow].
       rewrite le_value_field. apply Z.mod_small. change (256 ^ Z.of_nat 2) with 65536. lia. }
  rewrite list_fmap_id. change (le_value <$> repeat [0; 0] ?n) with (map le_value (repeat [0; 0] n)).
  rewrite map_repeat. change (le_value [0; 0]) with 0. rewrite take_while_zeros by (by apply utf16_units).
  by apply from_utf16.
Qed.

Lemma names_length s : length (concat (le_field 2 <$> utf16 s)) = (2 * length (utf16 s))%nat.
Proof.
  rewrite (concat_length 2); [rewrite length_fmap; lia|]. apply Forall_fmap, Forall_true. intros u. apply le_field_length.
Qed.

Lemma descriptor_length f attributes :
  (length (utf16 f.1) <= CLIP_NAME_UNITS)%nat -> length (file_descriptor f attributes) = CLIP_DESCRIPTOR_SIZE.
Proof.
  unfold CLIP_NAME_UNITS, CLIP_DESCRIPTOR_SIZE, file_descriptor, zeros. intros Hl.
  rewrite !length_app, !le_field_length, !repeat_length, names_length. lia.
Qed.

(** The fields of a descriptor, by the length of what is before them. *)
Lemma descriptor_fields f attributes :
  (length (utf16 f.1) <= CLIP_NAME_UNITS)%nat ->
  let d := file_descriptor f attributes in
  u32_at d CLIP_ATTRIBUTES_OFFSET = attributes mod 2 ^ 32
  /\ u32_at d CLIP_SIZE_HIGH_OFFSET = (f.2 / 2 ^ 32) mod 2 ^ 32
  /\ u32_at d (CLIP_SIZE_HIGH_OFFSET + 4) = (f.2 mod 2 ^ 32) mod 2 ^ 32
  /\ slice d CLIP_NAME_OFFSET (CLIP_NAME_UNITS * 2)
     = concat (le_field 2 <$> utf16 f.1) ++ zeros (520 - 2 * length (utf16 f.1)).
Proof.
  intros Hl d. unfold u32_at, CLIP_ATTRIBUTES_OFFSET, CLIP_SIZE_HIGH_OFFSET, CLIP_NAME_OFFSET, CLIP_NAME_UNITS in *. subst d.
  assert (forall n, length (zeros n) = n) as Hz by (intros n; apply repeat_length).
  unfold file_descriptor. set (names := concat _). set (pad := zeros (520 - _)).
  assert (length (names ++ pad) = 520%nat) as Hn.
  { subst names pad. rewrite length_app, names_length, Hz. lia. }
  set (a := le_field 4 attributes). set (h := le_field 4 (f.2 / 2 ^ 32)). set (l := le_field 4 (f.2 mod 2 ^ 32)).
  assert (length a = 4 /\ length h = 4 /\ length l = 4)%nat as (La & Lh & Ll) by (split_and!; apply le_field_length).
  split_and!.
  - rewrite (slice_at (zeros 36) a (zeros 24 ++ h ++ l ++ names ++ pad)); [apply le_value_field|done|apply Hz|done].
  - rewrite (slice_at (zeros 36 ++ a ++ zeros 24) h (l ++ names ++ pad)); [apply le_value_field|..|done];
      rewrite ?length_app, ?Hz, <- ?app_assoc; lia || done.
  - rewrite (slice_at (zeros 36 ++ a ++ zeros 24 ++ h) l (names ++ pad)); [apply le_value_field|..|done];
      rewrite ?length_app, ?Hz, <- ?app_assoc; lia || done.
  - rewrite (slice_at (zeros 36 ++ a ++ zeros 24 ++ h ++ l) (names ++ pad) []); [done|..|done];
      rewrite ?app_nil_r, ?length_app, ?Hz, <- ?app_assoc; lia || done.
Qed.

Lemma descriptor_read f attributes :
  Forall is_scalar f.1 -> (length (utf16 f.1) <= CLIP_NAME_UNITS)%nat -> Int.is_u 64 f.2 ->
  (descriptor_name (file_descriptor f attributes), descriptor_size (file_descriptor f attributes)) = f.
Proof.
  intros Hs Hl Hsize. destruct (descriptor_fields f attributes Hl) as (_ & Hhigh & Hlow & Hname).
  destruct f as [s n]. cbn [fst snd] in *. unfold descriptor_name, descriptor_size. rewrite Hhigh, Hlow, Hname.
  f_equal; [by apply name_field|].
  unfold Int.is_u, Int.umax in Hsize. rewrite (Z.mod_small (n / 2 ^ 32)).
  2: { Z.to_euclidean_division_equations. lia. }
  rewrite Z.mod_mod by lia. rewrite Z.shiftl_mul_pow2 by lia. rewrite <- Z.land_ones by lia.
  rewrite <- (Z.shiftr_div_pow2 n 32), <- Z.shiftl_mul_pow2 by lia.
  apply Z.bits_inj'. intros i Hi. rewrite Z.lor_spec, Z.land_spec, Z.testbit_ones_nonneg by lia.
  destruct (Z.ltb_spec i 32).
  - by rewrite Z.shiftl_spec_low, andb_true_r by lia.
  - rewrite Z.shiftl_spec_high, Z.shiftr_spec by lia. rewrite andb_false_r, orb_false_r. f_equal. lia.
Qed.

Definition group_ok (files : list (rstr * Z * Z)) : Prop :=
  (0 < length files)%nat /\ Z.of_nat (length files) < 2 ^ 32
  /\ Forall (fun f => Forall is_scalar f.1.1 /\ (length (utf16 f.1.1) <= CLIP_NAME_UNITS)%nat
                      /\ Int.is_u 64 f.1.2 /\ Int.is_u 32 f.2) files.

(** The filter sees the files of the clipboard as the other end wrote them: the names
    and the sizes of all of them, in order, the directories left out. *)
Theorem clipboard_files_are_read_back (files : list (rstr * Z * Z)) :
  group_ok files ->
  clipboard_descriptor_files (file_group files)
  = Some (fst <$> List.filter (fun f => Z.land f.2 FILE_ATTRIBUTE_DIRECTORY =? 0) files).
Proof.
  intros (Hpos & Hcount & Hall). unfold clipboard_descriptor_files, file_group.
  set (ds := (fun f => file_descriptor f.1 f.2) <$> files).
  assert (Forall (fun d => length d = CLIP_DESCRIPTOR_SIZE) ds) as Hlen.
  { apply Forall_fmap, (Forall_impl _ _ _ Hall). intros f (_ & Hl & _). by apply descriptor_length. }
  pose proof (concat_length _ _ Hlen) as Hc. unfold ds in Hc at 2. rewrite length_fmap in Hc.
  rewrite length_app, le_field_length, Hc. unfold CLIP_PDU_HEADER.
  rewrite take_app_length', drop_app_length', le_value_field by (by rewrite le_field_length).
  change (256 ^ Z.of_nat 4) with (2 ^ 32). rewrite Z.mod_small by lia.
  assert ((4 + length files * CLIP_DESCRIPTOR_SIZE <? 4)%nat = false) as -> by (apply Nat.ltb_ge; lia).
  assert ((Z.of_nat (length files) =? 0) = false) as -> by (apply Z.eqb_neq; lia).
  assert ((Z.of_nat (4 + length files * CLIP_DESCRIPTOR_SIZE)
           =? Z.of_nat 4 + Z.of_nat (length files) * Z.of_nat CLIP_DESCRIPTOR_SIZE) = true) as ->
    by (apply Z.eqb_eq; lia).
  cbn [orb negb]. rewrite chunks_concat by (done || (unfold CLIP_DESCRIPTOR_SIZE; lia)). f_equal. subst ds.
  clear Hpos Hcount Hlen Hc. induction Hall as [|f files (Hs & Hl & Hsize & Hattr) Hall IH]; [done|].
  rewrite fmap_cons. cbn [List.filter].
  assert (is_file_descriptor (file_descriptor f.1 f.2) = (Z.land f.2 FILE_ATTRIBUTE_DIRECTORY =? 0)) as ->.
  { unfold is_file_descriptor. destruct (descriptor_fields f.1 f.2 Hl) as (-> & _).
    unfold Int.is_u, Int.umax in Hattr. by rewrite Z.mod_small by lia. }
  destruct (_ =? 0); [|exact IH]. by rewrite !fmap_cons, IH, descriptor_read.
Qed.

(** ** The registry of destinations *)

Lemma reserve_lookup owner keys m path :
  foldl (fun m key => <[key := owner]> m) m keys !! path
  = if bool_decide (path ∈ keys) then Some owner else (m : gmap rstr JobOwner) !! path.
Proof.
  revert m. induction keys as [|key keys IH]; intros m; cbn [foldl].
  { by rewrite bool_decide_eq_false_2 by apply not_elem_of_nil. }
  rewrite IH. destruct (decide (path ∈ keys)) as [Hin|Hni].
  { by rewrite !bool_decide_eq_true_2 by (rewrite ?elem_of_cons; auto). }
  rewrite (bool_decide_eq_false_2 (path ∈ keys)) by done. destruct (decide (path = key)) as [->|Hne].
  - by rewrite lookup_insert_eq, bool_decide_eq_true_2 by left.
  - rewrite lookup_insert_ne, bool_decide_eq_false_2 by (rewrite ?elem_of_cons; naive_solver). done.
Qed.

Lemma unreserve_lookup owner keys m path :
  foldl (fun m path => if bool_decide (m !! path = Some owner) then delete path m else m) m keys !! path
  = if bool_decide (path ∈ keys /\ (m : gmap rstr JobOwner) !! path = Some owner) then None else m !! path.
Proof.
  revert m. induction keys as [|key keys IH]; intros m; cbn [foldl].
  { rewrite bool_decide_eq_false_2; [done|]. by intros [?%elem_of_nil _]. }
  case_bool_decide as E; rewrite IH; clear IH.
  - destruct (decide (path = key)) as [->|Hne].
    + rewrite lookup_delete_eq. rewrite (bool_decide_eq_false_2 (_ /\ None = _)) by naive_solver.
      by rewrite bool_decide_eq_true_2 by (split; [left|done]).
    + rewrite lookup_delete_ne by done.
      apply (f_equal (fun b : bool => if b then None else m !! path)), bool_decide_ext.
      rewrite elem_of_cons. naive_solver.
  - apply (f_equal (fun b : bool => if b then None else m !! path)), bool_decide_ext.
    rewrite elem_of_cons. naive_solver.
Qed.

(** What a registration that succeeds does. *)
Lemma register_registered current_dir o job r :
  (register_scan_job current_dir o job r).1.1 = Ok tt -> scan_mode_from (file_scan o) <> Off ->
  exists paths, download_paths job = Ok paths /\ NoDup (reservation_key current_dir <$> paths)
    /\ jobs r !! job_owner job = None
    /\ (forall key owner, key ∈ reservation_key current_dir <$> paths -> reservations r !! key = Some owner -> owner = job_owner job)
    /\ (register_scan_job current_dir o job r).1.2
       = mkRegistry (<[job_owner job := mkRegistered (scan_mode_from (file_scan o)) (reservation_key current_dir <$> paths)]> (jobs r))
           (foldl (fun m key => <[key := job_owner job]> m) (reservations r) (reservation_key current_dir <$> paths)).
Proof.
  intros Hok Hm. unfold register_scan_job in *. rewrite bool_decide_eq_false_2 in * by done.
  destruct (download_paths job) as [paths|] eqn:Ed; [|done]. destruct (_ || _) eqn:Ec; [done|].
  apply orb_false_iff in Ec as [[Hnd%negb_false_iff Hj]%orb_false_iff Hres].
  apply bool_decide_eq_true in Hnd. apply bool_decide_eq_false in Hj.
  exists paths. split_and!; [done|done|by apply eq_None_not_Some| |done].
  intros key owner Hin Hk. apply list_elem_of_In in Hin.
  destruct (decide (owner = job_owner job)); [done|]. exfalso.
  assert (existsb (fun key => match reservations r !! key with
     | Some reserved_by => negb (bool_decide (reserved_by = job_owner job)) | None => false end)
     (reservation_key current_dir <$> paths) = true) as Ht; [|congruence].
  apply existsb_exists. exists key. split; [done|]. by rewrite Hk, bool_decide_eq_false_2.
Qed.

(** Otherwise nothing changes. *)
Lemma register_refused current_dir o job r :
  (register_scan_job current_dir o job r).1.1 <> Ok tt \/ scan_mode_from (file_scan o) = Off ->
  (register_scan_job current_dir o job r).1.2 = r.
Proof.
  intros H. unfold register_scan_job in *. case_bool_decide as E; [done|].
  destruct H as [H|H]; [|done]. destruct (download_paths job); [|done]. by destruct (_ || _).
Qed.

#[local] Instance result_unit_eq : EqDecision (result unit rstr).
Proof. solve_decision. Defined.

Lemma register_wf current_dir o job r : registry_wf r -> registry_wf (register_scan_job current_dir o job r).1.2.
Proof.
  intros Hr. destruct (decide (scan_mode_from (file_scan o) = Off)) as [Hoff|Hon].
  { by rewrite register_refused by (by right). }
  destruct (decide ((register_scan_job current_dir o job r).1.1 = Ok tt)) as [Hok|Hno].
  2: { by rewrite register_refused by (by left). }
  destruct (register_registered _ _ _ _ Hok Hon) as (paths & _ & _ & Hnew & Hfree & ->).
  set (keys := reservation_key current_dir <$> paths) in *. intros path owner. cbn.
  rewrite reserve_lookup. destruct (decide (owner = job_owner job)) as [->|Hne].
  - rewrite lookup_insert_eq. case_bool_decide as E.
    + split; [|done]. intros _. eexists. split; [done|]. done.
    + rewrite (Hr path (job_owner job)), Hnew. split; [by intros (? & ? & _)|]. by intros (? & [= <-] & ?).
  - rewrite lookup_insert_ne by done. case_bool_decide as E; [|apply Hr].
    split; [congruence|]. intros Hx%Hr. by destruct Hne; apply (Hfree path).
Qed.

Lemma release_wf job r : registry_wf r -> registry_wf (release_scan_job job r).
Proof.
  intros Hr. unfold release_scan_job. destruct (jobs r !! job_owner job) as [registered|] eqn:Ej; [|done].
  intros path owner. cbn. rewrite unreserve_lookup. destruct (decide (owner = job_owner job)) as [->|Hne].
  - rewrite lookup_delete_eq. split; [|by intros (? & ? & _)]. case_bool_decide as E; [done|].
    intros Hx. destruct E. split; [|done]. apply Hr in Hx as (j & Hj & Hin). rewrite Ej in Hj. by injection Hj as <-.
  - rewrite lookup_delete_ne by done. rewrite <- (Hr path owner). case_bool_decide as E; [|done].
    split; [done|]. destruct E as [_ ->]. congruence.
Qed.

Lemma registry_runs ops r : registry_wf r -> registry_wf (foldl registry_step r ops).
Proof.
  revert r. induction ops as [|op ops IH]; intros r Hr; [done|]. cbn. apply IH.
  destruct op; [by apply register_wf|by apply release_wf].
Qed.

Lemma no_jobs_wf : registry_wf no_jobs.
Proof. intros path owner. cbn. rewrite !lookup_empty. split; [done|]. by intros (? & ? & _). Qed.

(** C35 Whatever jobs come and go, no two of them that are scanned ever write the same
    file, and a destination is held only by a job that is registered. *)
Theorem destinations_belong_to_one_job ops :
  let r := foldl registry_step no_jobs ops in
  (forall path owner, reservations r !! path = Some owner ->
     exists job, jobs r !! owner = Some job /\ path ∈ reserved_paths job)
  /\ (forall owner1 owner2 job1 job2 path,
        jobs r !! owner1 = Some job1 -> jobs r !! owner2 = Some job2 ->
        path ∈ reserved_paths job1 -> path ∈ reserved_paths job2 -> owner1 = owner2).
Proof.
  intros r. pose proof (registry_runs ops _ no_jobs_wf : registry_wf r) as Hr. split.
  - intros path owner. apply Hr.
  - intros owner1 owner2 job1 job2 path H1 H2 Hp1 Hp2.
    assert (reservations r !! path = Some owner1) as E1 by (apply Hr; eauto).
    assert (reservations r !! path = Some owner2) as E2 by (apply Hr; eauto). congruence.
Qed.

(** A job that is registered and released leaves the registry as it was. *)
Theorem release_undoes_register current_dir o job r :
  registry_wf r -> jobs r !! job_owner job = None ->
  release_scan_job job (register_scan_job current_dir o job r).1.2 = r.
Proof.
  intros Hr Hnew. destruct (decide (scan_mode_from (file_scan o) = Off)) as [Hoff|Hon];
    [|destruct (decide ((register_scan_job current_dir o job r).1.1 = Ok tt)) as [Hok|Hno]].
  1: rewrite register_refused by (by right). 3: rewrite register_refused by (by left).
  1, 3: unfold release_scan_job; by rewrite Hnew.
  destruct (register_registered _ _ _ _ Hok Hon) as (paths & _ & _ & _ & Hfree & ->).
  set (keys := reservation_key current_dir <$> paths) in *.
  unfold release_scan_job. cbn. rewrite lookup_insert_eq. cbn.
  destruct r as [js res]. cbn in *. f_equal; [by rewrite delete_insert_id|].
  apply map_eq. intros path. rewrite unreserve_lookup, reserve_lookup.
  assert (forall path, res !! path <> Some (job_owner job)) as Hno.
  { intros p E. apply (Hr p (job_owner job)) in E as (? & E & _). cbn in E. congruence. }
  destruct (decide (path ∈ keys)) as [Hin|Hni].
  - rewrite !(bool_decide_eq_true_2 (path ∈ keys)) by done. rewrite bool_decide_eq_true_2 by done.
    destruct (res !! path) as [owner|] eqn:E; [|done]. destruct (Hno path). by rewrite E, (Hfree path owner).
  - rewrite !(bool_decide_eq_false_2 (path ∈ keys)) by done. rewrite bool_decide_eq_false_2; [done|]. by intros [? _].
Qed.

(** ** The scan *)

Lemma clean_answer from_utf8_lossy endpoint answer :
  scan_with_engine from_utf8_lossy endpoint answer = Clean
  <-> Str.trim endpoint <> []
      /\ exists stream, answer = Some stream
           /\ contains_text OK (from_utf8_lossy (read_response RESPONSE_MAX stream)) = true
           /\ contains_text FOUND (from_utf8_lossy (read_response RESPONSE_MAX stream)) = false.
Proof.
  unfold scan_with_engine. case_bool_decide as Ht; [split; [done|by intros [? _]]|].
  unfold clamd_scan, clamd_verdict. destruct answer as [stream|]; [|split; [done|by intros (_ & ? & ? & _)]].
  destruct (contains_text FOUND _) eqn:Ef; [|destruct (contains_text OK _) eqn:Eo].
  - split; [done|]. intros (_ & ? & [= <-] & _ & ?). congruence.
  - split; [|done]. intros _. eauto.
  - split; [done|]. intros (_ & ? & [= <-] & ? & _). congruence.
Qed.

(** C30 In block mode a file that was received is delivered exactly when [clamd] was asked,
    about a file that could be read in time and within the limit, and answered in time that
    it is clean, naming no finding.  Everything else refuses it: the failures, the file
    that takes too long to read ([preparation] is [None]) and the engine that takes too
    long to answer ([answered] is [None]) included.  Only where there is no file, since
    the job has no current download, nothing is looked at. *)
Theorem only_clean_files_are_delivered from_utf8_lossy endpoint answered o r owner file_num next current
    preparation quarantined :
  scan_mode_for owner r = Block -> next <> Some file_num ->
  let scan := scan_with_engine from_utf8_lossy endpoint <$> answered in
  let finished := finish_completed_download o r owner file_num next current preparation scan quarantined in
  (finished = Delivered
   <-> (exists name, current = Ok (Some name))
       /\ (exists size sha256, preparation = Some (size, sha256) /\ size <= max_scan_bytes o)
       /\ Str.trim endpoint <> []
       /\ exists stream, answered = Some (Some stream)
            /\ contains_text OK (from_utf8_lossy (read_response RESPONSE_MAX stream)) = true
            /\ contains_text FOUND (from_utf8_lossy (read_response RESPONSE_MAX stream)) = false)
  /\ (finished = NotScanned <-> current = Ok None).
Proof.
  intros Hm Hn scan finished. unfold finished, finish_completed_download.
  rewrite Hm, bool_decide_eq_false_2 by done. cbn [orb]. rewrite bool_decide_eq_false_2 by done.
  destruct current as [[name|]|err]; cycle 1; [by split; split; try done; intros ([? ?] & _)..|].
  assert ((exists stream, answered = Some (Some stream)
            /\ contains_text OK (from_utf8_lossy (read_response RESPONSE_MAX stream)) = true
            /\ contains_text FOUND (from_utf8_lossy (read_response RESPONSE_MAX stream)) = false)
          /\ Str.trim endpoint <> [] <-> scan = Some Clean) as Hscan.
  { unfold scan. destruct answered as [answer|]; cbn; [|split; [by intros [(? & ? & _) _]|done]].
    pose proof (clean_answer from_utf8_lossy endpoint answer) as Hc. split.
    - intros [(stream & [= ->] & Ho & Hf) Ht]. f_equal. apply Hc. eauto.
    - intros [= E]. apply Hc in E as (Ht & stream & -> & ? & ?). eauto. }
  split.
  2: { destruct (bounded_scan_pipeline _ _ _) as [[? ?] outcome].
       by destruct (scan_decision Block outcome), quarantined. }
  unfold bounded_scan_pipeline. split.
  - intros Hd. split; [eauto|]. destruct preparation as [[size sha256]|]; [|by destruct quarantined].
    destruct (Z.ltb_spec (max_scan_bytes o) size); [by destruct quarantined|]. split; [eauto|].
    assert (scan = Some Clean) as Hs by (destruct scan as [[]|]; [done|by destruct quarantined..]).
    apply Hscan in Hs as [? ?]. by split.
  - intros (_ & (size & sha256 & -> & Hsize) & Ht & Hs).
    rewrite (proj2 (Z.ltb_ge _ _)) by lia. by rewrite (proj1 Hscan (conj Hs Ht)).
Qed.

Lemma find_piece_no_sep name : Forall (fun c => is_separator c = false) (audit_basename name).
Proof.
  unfold audit_basename. destruct (find _ _) as [piece|] eqn:E; [|done]. apply List.find_some in E as [Hin _].
  apply List.in_rev in Hin.
  pose proof (Str.split_no_sep is_separator name) as Hs. rewrite List.Forall_forall in Hs. by apply Hs.
Qed.

Definition safe_char (c : Z) : Prop := Str.is_ascii_alphanumeric c = true \/ c = 46 \/ c = 45 \/ c = 95.

Lemma quarantine_char_safe c : safe_char (quarantine_char c).
Proof.
  unfold quarantine_char, safe_char. destruct (Str.is_ascii_alphanumeric c) eqn:E; cbn; [by left|].
  zbool; cbn; auto.
Qed.

(** A file is put aside under a name of letters, digits, dots, dashes and underscores
    only, never empty and of at most 120 characters: no name chosen by the peer leaves
    the quarantine's directory. *)
Theorem quarantine_names_are_safe name :
  let safe := safe_quarantine_basename name in
  Forall safe_char safe /\ (0 < length safe <= QUARANTINE_BASENAME_MAX)%nat
  /\ Forall (fun c => is_separator c = false) safe.
Proof.
  intros safe. assert (Forall safe_char safe /\ (0 < length safe <= QUARANTINE_BASENAME_MAX)%nat) as [Hs Hl].
  { subst safe. unfold safe_quarantine_basename. destruct (take _ _) as [|c s] eqn:E.
    - split; [|cbn; unfold QUARANTINE_BASENAME_MAX; lia]. repeat (apply Forall_cons; split); [..|done]; by left.
    - split.
      + rewrite <- E. apply Forall_take, Forall_fmap, Forall_true. intros x. apply quarantine_char_safe.
      + split; [cbn; lia|]. rewrite <- E. apply List.firstn_le_length. }
  split_and!; [done|lia|lia|]. apply (Forall_impl _ _ _ Hs). intros c Hc.
  destruct (is_separator c) eqn:E; [|done]. exfalso. unfold is_separator in E.
  apply orb_true_iff in E as [E|E]; apply Z.eqb_eq in E; subst c; unfold safe_char in Hc; by naive_solver.
Qed.

(** ** Concrete policies *)

Definition blocks_exe : Options := mkOptions (Str.lit "block") [] (Str.lit "both") (Str.lit "exe, .bat").

(** A file that may not be received may be given its name afterwards: a renaming is not
    looked at. *)
Example rename_reaches_a_blocked_extension :
  (reject_file_action blocks_exe (ReceiveFiles 1 (Str.lit "/home/u") 0 [mkEntry (Str.lit "a.exe") 10 0] 10)).1
    = Some (mkRejection 1 0 BLOCKED_EXTENSION_MESSAGE)
  /\ (reject_file_action blocks_exe (ReceiveFiles 1 (Str.lit "/home/u") 0 [mkEntry (Str.lit "a.txt") 10 0] 10)).1 = None
  /\ (reject_file_action blocks_exe (Rename 1 (Str.lit "/home/u/a.txt") (Str.lit "a.exe"))).1 = None.
Proof. vm_compute. done. Qed.

Lemma extension_cannot_be_disguised_witness :
  extension_blocked (Str.lit "c:" ++ 92 :: Str.lit "setup.EXE" ++ Str.lit ". .") (Str.lit "exe")
  = extension_blocked (Str.lit "setup.exe") (Str.lit "exe").
Proof.
  apply (extension_cannot_be_disguised (Str.lit "c:") 92 (Str.lit "setup.exe") (Str.lit ". .") (Str.lit "setup.EXE"));
    [done|by repeat (apply Forall_cons; split)|done].
Defined.

Definition two_files : list (rstr * Z * Z) := [(Str.lit "a.txt", 5, 128); (Str.lit "dir", 0, 16)].

Lemma two_files_ok : group_ok two_files.
Proof.
  split; [cbn; lia|split; [cbn; lia|]].
  repeat (apply Forall_cons; split); [..|done]; (split; [|split; [by apply Nat.leb_le|split; by split]]);
    repeat (apply Forall_cons; split); try done; left; by split.
Qed.

Lemma clipboard_files_are_read_back_witness :
  clipboard_descriptor_files (file_group two_files) = Some [(Str.lit "a.txt", 5)].
Proof. apply (clipboard_files_are_read_back two_files two_files_ok). Defined.

Definition job_a : Job := mkJob 1 1 [Str.lit "a"] 3 (Ok [Str.lit "/tmp/x/../a"; Str.lit "/tmp/b"]).

Lemma release_undoes_register_witness :
  is_scan_enabled_for_job job_a (register_scan_job None blocks_exe job_a no_jobs).1.2 = true
  /\ release_scan_job job_a (register_scan_job None blocks_exe job_a no_jobs).1.2 = no_jobs.
Proof. split; [by vm_compute|]. apply (release_undoes_register None blocks_exe job_a no_jobs no_jobs_wf). done. Defined.

(** The same destination by another path belongs to the first job. *)
Example destination_is_reserved :
  let r := (register_scan_job None blocks_exe job_a no_jobs).1.2 in
  (register_scan_job None blocks_exe (mkJob 2 1 [Str.lit "a"] 3 (Ok [Str.lit "/tmp/./a"])) r).1.1 = Err BLOCKED_SCAN_MESSAGE.
Proof. vm_compute. done. Qed.

Definition one_scanned : JobRegistry := mkRegistry {[(1, 1) := mkRegistered Block []]} ∅.

Lemma only_clean_files_are_delivered_witness :
  finish_completed_download blocks_exe one_scanned (1, 1) 0 (Some 1) (Ok (Some (Str.lit "a"))) (Some (10, []))
    (scan_with_engine id (Str.lit "/run/clamd") <$> Some (Some (Str.lit "stream: OK" ++ [0]))) true = Delivered
  /\ finish_completed_download blocks_exe one_scanned (1, 1) 0 (Some 1) (Ok (Some (Str.lit "a"))) (Some (10, []))
       (scan_with_engine id (Str.lit "/run/clamd") <$> None) true <> Delivered.
Proof.
  pose proof (fun answered => only_clean_files_are_delivered id (Str.lit "/run/clamd") answered blocks_exe
    one_scanned (1, 1) 0 (Some 1) (Ok (Some (Str.lit "a"))) (Some (10, [])) true eq_refl ltac:(done)) as H.
  split.
  - apply (H (Some (Some (Str.lit "stream: OK" ++ [0])))). split; [by eexists|]. split.
    + do 2 eexists. split; [reflexivity|]. apply Z.leb_le. vm_compute. reflexivity.
    + split; [done|]. eexists. split; [reflexivity|]. split; vm_compute; reflexivity.
  - intros E. apply (H None) in E as (_ & _ & _ & ? & E & _). discriminate E.
Defined.
