(* ===== verification/FileClipboard.v ===== *)
(** * The file clipboard of Unix: [libs/clipboard/src/platform/unix], [clipboard_file.rs]

    Files that are copied on one end are pasted on the other: the copying end writes a
    list of descriptors ([local_file.rs]) and serves the contents of its files by their
    place in the list ([serv_files.rs]); the pasting end parses the list ([filetype.rs]).
    A path is the text that [to_string_lossy] gives; the file system is a [World] that
    may be another one at each request. *)

From coqutil Require Import Datatypes.RecordSetters.
From S2P Require Import Prelude PosixFs FileTransfer SessionScope FileScan.
Import TriangleBracketNotations.

#[local] Arguments constant {E} newValue _ /.

(** ** [CliprdrError], without the texts *)

Inductive CliprdrError := InvalidRequest | ConversionFailure | FileError | OtherError.

(** ** The messages *)

Module ClipboardFile.
Inductive ClipboardFile :=
| NotifyCallback (type title text : rstr)
| MonitorReady
| FormatList (format_list : list (Z * rstr))
| FormatListResponse (msg_flags : Z)
| FormatDataRequest (requested_format_id : Z)
| FormatDataResponse (msg_flags : Z) (format_data : bytes)
| FileContentsRequest (stream_id list_index dw_flags n_position_low n_position_high cb_requested : Z)
    (have_clip_data_id : bool) (clip_data_id : Z)
| FileContentsResponse (msg_flags stream_id : Z) (requested_data : bytes)
| TryEmpty
| Files (files : list (rstr * Z)).

Definition is_stopping_allowed (c : ClipboardFile) : bool :=
  match c with MonitorReady | FormatList _ | FormatDataRequest _ => true | _ => false end.

Definition is_beginning_message (c : ClipboardFile) : bool :=
  match c with MonitorReady | FormatList _ => true | _ => false end.

(** What goes on the wire: a box for the user or the clipboard. *)
Inductive ClipMessage := MessageBox (msgtype title text : rstr) | AsCliprdr (c : Cliprdr).

(** [file_len] is [fs::metadata] now: files listed with no size are given theirs. *)
Definition clip_2_msg (file_len : rstr -> option Z) (clip : ClipboardFile) : ClipMessage :=
  match clip with
  | NotifyCallback type title text => MessageBox type title text
  | MonitorReady => AsCliprdr Ready
  | FormatList format_list => AsCliprdr (SessionScope.FormatList format_list)
  | FormatListResponse msg_flags => AsCliprdr (SessionScope.FormatListResponse msg_flags)
  | FormatDataRequest requested_format_id => AsCliprdr (SessionScope.FormatDataRequest requested_format_id)
  | FormatDataResponse msg_flags format_data => AsCliprdr (SessionScope.FormatDataResponse msg_flags format_data)
  | FileContentsRequest stream_id list_index dw_flags low high cb_requested have id =>
      AsCliprdr (SessionScope.FileContentsRequest stream_id list_index dw_flags low high cb_requested have id)
  | FileContentsResponse msg_flags stream_id requested_data =>
      AsCliprdr (SessionScope.FileContentsResponse msg_flags stream_id requested_data)
  | TryEmpty => AsCliprdr SessionScope.TryEmpty
  | Files files =>
      AsCliprdr (SessionScope.Files (omap (fun '(f, s) =>
        if s =? 0 then (fun len => (f, len)) <$> file_len f else Some (f, s)) files))
  end.

Definition msg_2_clip (msg : Cliprdr) : option ClipboardFile :=
  match msg with
  | Ready => Some MonitorReady
  | SessionScope.FormatList formats => Some (FormatList formats)
  | SessionScope.FormatListResponse msg_flags => Some (FormatListResponse msg_flags)
  | SessionScope.FormatDataRequest requested_format_id => Some (FormatDataRequest requested_format_id)
  | SessionScope.FormatDataResponse msg_flags format_data => Some (FormatDataResponse msg_flags format_data)
  | SessionScope.FileContentsRequest stream_id list_index dw_flags low high cb_requested have id =>
      Some (FileContentsRequest stream_id list_index dw_flags low high cb_requested have id)
  | SessionScope.FileContentsResponse msg_flags stream_id requested_data =>
      Some (FileContentsResponse msg_flags stream_id requested_data)
  | SessionScope.TryEmpty => Some TryEmpty
  | SessionScope.Files _ | NoClip => None
  end.

Definition is_file_data_request (msg : Cliprdr) : bool :=
  match msg with
  | SessionScope.FormatDataRequest _ | SessionScope.FileContentsRequest _ _ _ _ _ _ _ _ => true
  | _ => false
  end.
End ClipboardFile.

(** ** Descriptors: [filetype.rs] *)

Module Filetype.
Definition FLAGS_FD_ATTRIBUTES : Z := 4.
Definition FLAGS_FD_SIZE : Z := 64.
Definition FLAGS_FD_LAST_WRITE : Z := 32.
Definition FLAGS_FD_PROGRESSUI : Z := 16384.
Definition FLAGS_FD_UNIX_MODE : Z := 8.
Definition FILE_NAME_CODE_UNITS : nat := 260.
Definition FILE_NAME_FIELD_SIZE : nat := FILE_NAME_CODE_UNITS * 2.
Definition LDAP_EPOCH_DELTA : Z := 116444736000000000.

Inductive FileType := File | Directory | Symlink.

Definition PERM_READ : Z := 292.
Definition PERM_RW : Z := 420.
Definition PERM_SELF_RO : Z := 256.
Definition PERM_RWX : Z := 493.

(** The four times are one, in nanoseconds since 1970. *)
Record FileDescription := mkDescription {
  conn_id : Z; name : rstr; kind : FileType; last_modified : Z; size : Z; perm : Z; clip_data_id : Z }.

(** FNV-1a. *)
Definition file_list_id (file_descriptor_pdu : bytes) : Z :=
  Int.swrap 32 (foldl (fun id byte => Int.wrap 32 (Z.lxor id byte * 16777619)) 2166136261 file_descriptor_pdu).

Definition is_ascii_alphabetic (c : Z) : bool := (65 <=? c) && (c <=? 90) || (97 <=? c) && (c <=? 122).

Definition has_drive (name : rstr) : bool :=
  match name with
  | letter :: c :: s :: _ => is_ascii_alphabetic letter && (c =? 58) && (s =? 47)
  | _ => false
  end.

Definition validate_file_name (name : rstr) : result unit CliprdrError :=
  if has_drive name
     || existsb (fun component => bool_decide (component = []) || bool_decide (component = DOT))
          (Str.split (Str.ch SEP) name)
  then Err InvalidRequest
  else match validate_file_name_no_traversal name with Ok _ => Ok tt | Err _ => Err InvalidRequest end.

(** [WStr::from_utf16le] and [to_utf8]: none with a surrogate that has no pair. *)
Fixpoint from_utf16le (us : list Z) : option rstr :=
  match us with
  | [] => Some []
  | u :: us' =>
      if is_high_surrogate u then
        match us' with
        | v :: us'' =>
            if is_low_surrogate v
            then cons (65536 + Z.shiftl (u - 55296) 10 + (v - 56320)) <$> from_utf16le us''
            else None
        | [] => None
        end
      else if is_low_surrogate u then None
      else cons u <$> from_utf16le us'
  end.

(** [replace('\\', "/")]. *)
Definition backslashes_to_slashes (s : rstr) : rstr := (fun c => if c =? 92 then SEP else c) <$> s.

Definition u64_at (d : bytes) (at_ : nat) : Z := le_value (slice d at_ 8).

(** The place of the first zero unit. *)
Fixpoint position_of_zero (us : list Z) : option nat :=
  match us with
  | [] => None
  | u :: us => if u =? 0 then Some O else S <$> position_of_zero us
  end.

Definition name_units (d : bytes) : list Z := le_value <$> chunks 2 (slice d 72 FILE_NAME_FIELD_SIZE).

Definition permissions (flags attributes mode : Z) : Z :=
  if negb (Z.land flags FLAGS_FD_UNIX_MODE =? 0) then Int.wrap 16 mode
  else if attributes =? 128 then PERM_RWX
  else if negb (Z.land attributes 16 =? 0) then PERM_RWX
  else if negb (Z.land attributes 1 =? 0) then PERM_READ
  else if negb (Z.land attributes 2 =? 0) then PERM_SELF_RO
  else PERM_RW.

Definition modified_at (flags last_write_time : Z) : Z :=
  if negb (Z.land flags FLAGS_FD_LAST_WRITE =? 0) && (LDAP_EPOCH_DELTA <=? last_write_time)
  then (last_write_time - LDAP_EPOCH_DELTA) * 100 else 0.

(** [d] is the 592 bytes of a descriptor. *)
Definition parse_file_descriptor (d : bytes) (conn_id clip_data_id : Z) : result FileDescription CliprdrError :=
  let flags := u32_at d 0 in
  let attributes := u32_at d 36 in
  let perm := u32_at d 52 in
  let last_write_time := u64_at d 56 in
  let file_size_high := u32_at d 64 in
  let file_size_low := u32_at d 68 in
  match position_of_zero (name_units d) with
  | None => Err InvalidRequest
  | Some name_end =>
      match from_utf16le (take name_end (name_units d)) with
      | None => Err ConversionFailure
      | Some wstr =>
          if Z.land flags FLAGS_FD_ATTRIBUTES =? 0 then Err InvalidRequest
          else
            let name := backslashes_to_slashes wstr in
            match validate_file_name name with
            | Err e => Err e
            | Ok _ =>
                Ok (mkDescription conn_id name
                      (if negb (Z.land attributes 16 =? 0) then Directory else File)
                      (modified_at flags last_write_time)
                      (Z.shiftl file_size_high 32 + file_size_low)
                      (permissions flags attributes perm) clip_data_id)
            end
      end
  end.

(** The first error ends the list. *)
Fixpoint parse_all (ds : list bytes) (conn_id clip_data_id : Z) : result (list FileDescription) CliprdrError :=
  match ds with
  | [] => Ok []
  | d :: ds =>
      match parse_file_descriptor d conn_id clip_data_id with
      | Err e => Err e
      | Ok desc =>
          match parse_all ds conn_id clip_data_id with Err e => Err e | Ok files => Ok (desc :: files) end
      end
  end.

Definition parse_file_descriptors (pdu : bytes) (conn_id : Z) : result (list FileDescription) CliprdrError :=
  let clip_data_id := file_list_id pdu in
  if (length pdu <? 4)%nat then Err InvalidRequest
  else
    let count := le_value (take 4 pdu) in
    let data := drop 4 pdu in
    if (length data =? 0)%nat && (count =? 0) then Ok []
    else if negb (Z.of_nat (length data) =? 592 * count) then Err InvalidRequest
    else parse_all (chunks 592 data) conn_id clip_data_id.
End Filetype.

(** ** The files of this end: [local_file.rs] *)

(** What [fs::metadata] tells; the time in nanoseconds since 1970, none when the system
    has none. *)
Record Meta := mkMeta {
  m_len : Z; m_is_dir : bool; m_is_file : bool; m_readonly : bool; m_mode : Z; m_modified : option Z }.

(** The file system at a moment.  [open_file] opens a path for reading and gives the file
    that it names; [file_bytes] and [file_meta] are those of an open file. *)
Record World := mkWorld {
  metadata : rstr -> option Meta;
  read_dir : rstr -> option (list (option rstr));
  open_file : rstr -> option Z;
  file_bytes : Z -> bytes;
  file_meta : Z -> option Meta }.

Module LocalFiles.
Import Filetype.

Definition FILE_DESCRIPTOR_SIZE : Z := 592.
Definition MAX_FILE_NAME_CODE_UNITS : nat := 259.
Definition BLOCK_SIZE : Z := 4 * 1024 * 1024.
Definition CAPACITY : Z := BLOCK_SIZE * 2.

(** A [BufReader<File>]: what is read ahead and the position of the file after it. *)
Record Reader := mkReader { inode : Z; ahead : bytes; at_ : Z }.

Record LocalFile := mkLocal {
  path : rstr; handle : option Reader; offset : Z; descriptor_name : rstr; size : Z;
  last_write_time : Z; is_dir : bool; perm : Z; read_only : bool; hidden : bool; normal : bool }.

(** What is left of a path after [n] components: [Path::strip_prefix] when the prefix
    matches. *)
Fixpoint drop_pieces (n : nat) (ps : list rstr) : list rstr :=
  match ps with
  | [] => []
  | p :: rest =>
      if kept p then match n with O => ps | S n => drop_pieces n rest end else drop_pieces n rest
  end.

Fixpoint trim_pieces (ps : list rstr) : list rstr :=
  match ps with
  | [] => []
  | p :: rest => if kept p then ps else trim_pieces rest
  end.

Fixpoint join_pieces (ps : list rstr) : rstr :=
  match ps with [] => [] | [p] => p | p :: rest => p ++ SEP :: join_pieces rest end.

Definition strip_prefix (root : list Component) (path : rstr) : option rstr :=
  if bool_decide (take (length root) (components path) = root) then
    let n := length (List.filter (fun c => match c with RootDir | CurDir => false | _ => true end) root) in
    match root, is_absolute path with
    | [], true => Some path
    | _, _ =>
        Some (join_pieces (rev (trim_pieces (rev (drop_pieces n (Str.split (Str.ch SEP) path))))))
    end
  else None.

(** [Path::parent]: none for a root and for nothing. *)
Definition parent (path : rstr) : option (list Component) :=
  match last (components path) with
  | None | Some RootDir => None
  | Some _ => Some (removelast (components path))
  end.

Definition validated_descriptor_name (relative_root : list Component) (path : rstr) : result rstr CliprdrError :=
  match strip_prefix relative_root path with
  | None => Err InvalidRequest
  | Some descriptor_name =>
      if is_absolute descriptor_name then Err InvalidRequest
      else
        match validate_file_name descriptor_name with
        | Err e => Err e
        | Ok _ =>
            if (MAX_FILE_NAME_CODE_UNITS <? length (utf16 descriptor_name))%nat then Err InvalidRequest
            else Ok descriptor_name
        end
  end.

Definition try_open (w : World) (relative_root : list Component) (path : rstr) : result LocalFile CliprdrError :=
  match validated_descriptor_name relative_root path with
  | Err e => Err e
  | Ok descriptor_name =>
      match metadata w path with
      | None => Err FileError
      | Some mt =>
          let hidden := Str.starts_with [46] path in
          Ok (mkLocal path None 0 descriptor_name (m_len mt) (default 0 (m_modified mt)) (m_is_dir mt)
                (m_mode mt) (m_readonly mt) hidden (negb (m_is_dir mt || m_readonly mt || hidden)))
      end
  end.

Definition put_descriptor_name (f : LocalFile) : result bytes CliprdrError :=
  match validate_file_name (descriptor_name f) with
  | Err e => Err e
  | Ok _ =>
      let name := concat (le_field 2 <$> utf16 (descriptor_name f)) in
      if (FILE_NAME_FIELD_SIZE <? length name + 2)%nat then Err InvalidRequest
      else Ok (name ++ le_field 2 0 ++ zeros (FILE_NAME_FIELD_SIZE - (length name + 2)))
  end.

Definition file_attributes (f : LocalFile) : Z :=
  Z.lor (if read_only f then 1 else 0)
    (Z.lor (if hidden f then 2 else 0)
       (Z.lor (if is_dir f then 16 else 0) (if normal f then 128 else 0))).

(** A time before 1970 is taken for 1970. *)
Definition win32_time (f : LocalFile) : Z :=
  Int.wrap 64 (Int.wrap 64 (Z.max 0 (last_write_time f) / 100) + LDAP_EPOCH_DELTA).

Definition UNIX_FLAGS : Z := 16492.

Definition as_bin (f : LocalFile) : result bytes CliprdrError :=
  match put_descriptor_name f with
  | Err e => Err e
  | Ok name =>
      Ok (le_field 4 UNIX_FLAGS ++ zeros 32 ++ le_field 4 (file_attributes f) ++ zeros 12
          ++ le_field 4 (perm f) ++ le_field 8 (win32_time f)
          ++ le_field 4 (size f / 2 ^ 32) ++ le_field 4 (Z.land (size f) (Int.umax 32)) ++ name)
  end.

(** *** Reading *)

Definition zlen (b : bytes) : Z := Z.of_nat (length b).

Definition zslice (b : bytes) (from len : Z) : bytes := take (Z.to_nat len) (drop (Z.to_nat from) b).

(** [fill_buf], of a reader with nothing read ahead. *)
Definition refill (w : World) (r : Reader) : Reader :=
  let got := zslice (file_bytes w (inode r)) (at_ r) CAPACITY in
  mkReader (inode r) got (at_ r + zlen got).

(** [File::open] and the first [fill_buf]. *)
Definition load_handle (w : World) (f : LocalFile) : result LocalFile CliprdrError :=
  if negb (is_dir f) && negb (bool_decide (is_Some (handle f))) then
    match open_file w (path f) with
    | None => Err FileError
    | Some ino => Ok (f <| handle := Some (refill w (mkReader ino [] 0)) |>)
    end
  else Ok f.

(** [Read::read_exact] of [n] bytes: a call of [read] takes what is read ahead, or reads on;
    one that needs more than the buffer holds reads past it.  None is the end of the file. *)
Fixpoint read_loop (fuel : nat) (w : World) (r : Reader) (n : Z) (acc : bytes) : option (bytes * Reader) :=
  if n <=? 0 then Some (acc, r)
  else
    match fuel with
    | O => None
    | S fuel =>
        match ahead r with
        | [] =>
            if CAPACITY <=? n then
              let got := zslice (file_bytes w (inode r)) (at_ r) n in
              match got with
              | [] => None
              | _ => read_loop fuel w (mkReader (inode r) [] (at_ r + zlen got)) (n - zlen got) (acc ++ got)
              end
            else
              let r := refill w r in
              match ahead r with
              | [] => None
              | _ =>
                  let got := zslice (ahead r) 0 n in
                  read_loop fuel w (mkReader (inode r) (drop (Z.to_nat (zlen got)) (ahead r)) (at_ r))
                    (n - zlen got) (acc ++ got)
              end
        | _ =>
            let got := zslice (ahead r) 0 n in
            read_loop fuel w (mkReader (inode r) (drop (Z.to_nat (zlen got)) (ahead r)) (at_ r))
              (n - zlen got) (acc ++ got)
        end
    end.

Definition read_exact (w : World) (r : Reader) (n : Z) : option (bytes * Reader) :=
  read_loop (S (Z.to_nat n)) w r n [].

Definition seek (r : Reader) (to : Z) : Reader := mkReader (inode r) [] to.

(** The bytes, and the file after it: closed by an error and at its end. *)
Definition read_exact_at (w : World) (f : LocalFile) (n : Z) (offset_ : Z)
  : result bytes CliprdrError * LocalFile :=
  match load_handle w f with
  | Err e => (Err e, f)
  | Ok f =>
      match handle f with
      | None => (Err FileError, f)
      | Some r =>
          let r := if offset_ =? offset f then r else seek r offset_ in
          match read_exact w r n with
          | None => (Err FileError, f <| offset := 0 |> <| handle := None |>)
          | Some (buf, r) =>
              let new_offset := Int.wrap 64 (offset_ + n) in
              if size f <=? new_offset
              then (Ok buf, f <| offset := 0 |> <| handle := None |>)
              else (Ok buf, f <| offset := new_offset |> <| handle := Some r |>)
          end
      end
  end.

(** *** The list *)

(** The walk of a selected path, depth first, each file after its folder.  The files are
    appended to the list; no path is visited twice.  A path has at most [PATH_MAX] bytes, so that one that
    is deeper than the fuel has no metadata. *)
Definition PATH_MAX : nat := 4096.

Fixpoint constr_file_lst (fuel : nat) (w : World) (relative_root : list Component) (path : rstr)
    (file_list : list LocalFile) (visited : gset rstr) : result (list LocalFile * gset rstr) CliprdrError :=
  match fuel with
  | O => Err FileError
  | S fuel =>
      if bool_decide (path ∈ visited) then Ok (file_list, visited)
      else
        let visited := {[path]} ∪ visited in
        match try_open w relative_root path with
        | Err e => Err e
        | Ok local_file =>
            let file_list := file_list ++ [local_file] in
            if is_dir local_file then
              match read_dir w path with
              | None => Err FileError
              | Some entries =>
                  (fix go (entries : list (option rstr)) (file_list : list LocalFile) (visited : gset rstr) :=
                     match entries with
                     | [] => Ok (file_list, visited)
                     | None :: _ => Err FileError
                     | Some entry :: entries =>
                         match constr_file_lst fuel w relative_root (PosixFs.join path entry) file_list visited with
                         | Err e => Err e
                         | Ok (file_list, visited) => go entries file_list visited
                         end
                     end) entries file_list visited
              end
            else Ok (file_list, visited)
        end
  end.

Fixpoint construct_from (w : World) (paths : list rstr) (file_list : list LocalFile)
  : result (list LocalFile) CliprdrError :=
  match paths with
  | [] => Ok file_list
  | path :: paths =>
      match parent path with
      | None => Err InvalidRequest
      | Some relative_root =>
          match constr_file_lst PATH_MAX w relative_root path file_list ∅ with
          | Err e => Err e
          | Ok (file_list, _) => construct_from w paths file_list
          end
      end
  end.

Definition construct_file_list (w : World) (paths : list rstr) : result (list LocalFile) CliprdrError :=
  match paths with [] => Err InvalidRequest | _ => construct_from w paths [] end.
End LocalFiles.

(** ** Serving them: [serv_files.rs] *)

Module ServFiles.
Import Filetype LocalFiles.

Definition MAX_RANGE_READ : Z := 16 * 1024 * 1024.
Definition MAX_RETIRED_CLIP_FILES : nat := 4.
Definition USIZE_MAX : Z := Int.umax 64.

Inductive FileContentsRequest :=
| Size (stream_id file_idx : Z)
| Range (stream_id file_idx offset length : Z).

Definition stream_of (r : FileContentsRequest) : Z := match r with Size s _ | Range s _ _ _ => s end.
Definition index_of (r : FileContentsRequest) : Z := match r with Size _ i | Range _ i _ _ => i end.

Record FileSig := mkSig { sig_size : Z; sig_mtime : option Z; sig_is_dir : bool }.

#[export] Instance FileSig_eq : EqDecision FileSig.
Proof. solve_decision. Defined.

Definition default_sig : FileSig := mkSig 0 None false.

Definition fingerprint (w : World) (files : list rstr) : list FileSig :=
  (fun s => match metadata w s with
            | Some mt => mkSig (m_len mt) (m_modified mt) (m_is_dir mt)
            | None => default_sig
            end) <$> files.

Record ClipFiles := mkClipFiles {
  files : list rstr; sigs : list FileSig; file_list : list LocalFile; first_file_index : Z;
  files_pdu : bytes; id : Z; served_to : list Z }.

(** [default], and [clear]. *)
Definition no_files : ClipFiles := mkClipFiles [] [] [] 0 [] 0 [].
Definition cleared : ClipFiles := mkClipFiles [] [] [] USIZE_MAX [] 0 [].

(** The lists that the connections of a process share. *)
Record Shared := mkShared { current : ClipFiles; retired : list ClipFiles }.

Definition clear_files : Shared := mkShared cleared [].

Definition position_of (p : LocalFile -> bool) (fs : list LocalFile) : Z :=
  match list_find (fun f => p f = true) fs with Some (i, _) => Z.of_nat i | None => USIZE_MAX end.

(** [path.is_dir()] now. *)
Definition path_is_dir (w : World) (f : LocalFile) : bool :=
  match metadata w (path f) with Some mt => m_is_dir mt | None => false end.
Definition path_is_file (w : World) (f : LocalFile) : bool :=
  match metadata w (path f) with Some mt => m_is_file mt | None => false end.

Definition sync_clip_files (w : World) (clipboard_files : list rstr) (sigs : list FileSig)
  : result ClipFiles CliprdrError :=
  match construct_file_list w clipboard_files with
  | Err e => Err e
  | Ok file_list =>
      Ok (mkClipFiles clipboard_files sigs file_list
            (position_of (fun f => negb (path_is_dir w f)) file_list) [] 0 [])
  end.

Fixpoint descriptors (fs : list LocalFile) : result bytes CliprdrError :=
  match fs with
  | [] => Ok []
  | f :: fs =>
      match as_bin f with
      | Err e => Err e
      | Ok d => match descriptors fs with Err e => Err e | Ok ds => Ok (d ++ ds) end
      end
  end.

(** The 16 bytes of the nonce are put in the reserved ones of the first descriptor. *)
Definition put_nonce (nonce pdu : bytes) : bytes :=
  if (length pdu <? 24)%nat then pdu else take 8 pdu ++ nonce ++ drop 24 pdu.

Definition build_file_list_pdu (nonce : bytes) (c : ClipFiles) : result ClipFiles CliprdrError :=
  match descriptors (file_list c) with
  | Err e => Err e
  | Ok ds =>
      let pdu := put_nonce nonce (le_field 4 (Z.of_nat (length (file_list c))) ++ ds) in
      Ok (c <| files_pdu := pdu |> <| id := file_list_id pdu |>)
  end.

Definition release_handles (c : ClipFiles) : ClipFiles :=
  c <| file_list := (fun f => if LocalFiles.offset f =? 0 then f <| handle := None |> else f) <$> file_list c |>.

Definition get_file (c : ClipFiles) (idx : Z) : option LocalFile :=
  if idx <? Z.of_nat (length (file_list c)) then file_list c !! Z.to_nat idx else None.
Definition put_file (idx : Z) (f : LocalFile) (c : ClipFiles) : ClipFiles :=
  c <| file_list := <[Z.to_nat idx := f]> (file_list c) |>.

Definition check_retired_file (w : World) (request : FileContentsRequest) (c : ClipFiles)
  : result unit CliprdrError * ClipFiles :=
  match request with
  | Size _ _ => (Ok tt, c)
  | Range _ idx _ _ =>
      match get_file c idx with
      | None => (Ok tt, c)
      | Some f =>
          if is_dir f then (Ok tt, c)
          else
            match load_handle w f with
            | Err e => (Err e, c)
            | Ok f =>
                let unchanged :=
                  match handle f with
                  | Some r =>
                      match file_meta w (inode r) with
                      | Some md => (m_len md =? LocalFiles.size f)
                                   && bool_decide (m_modified md = Some (last_write_time f))
                      | None => false
                      end
                  | None => false
                  end in
                (if unchanged then Ok tt else Err InvalidRequest, put_file idx f c)
            end
      end
  end.

Definition get_files_for_audit (w : World) (request : FileContentsRequest) (c : ClipFiles)
  : option (list (rstr * Z)) :=
  match request with
  | Range _ idx offset _ =>
      if (idx =? first_file_index c) && (offset =? 0) then
        match omap (fun f => if path_is_file w f then Some (path f, LocalFiles.size f) else None) (file_list c) with
        | [] => None
        | files => Some files
        end
      else None
  | Size _ _ => None
  end.

(** The next file is opened ahead, if it can be. *)
Fixpoint preload (w : World) (fs : list LocalFile) : list LocalFile :=
  match fs with
  | [] => []
  | f :: fs =>
      if is_dir f then f :: preload w fs
      else match load_handle w f with Ok f => f :: fs | Err _ => f :: fs end
  end.

Definition preload_after (w : World) (idx : Z) (c : ClipFiles) : ClipFiles :=
  let n := S (Z.to_nat idx) in
  c <| file_list := take n (file_list c) ++ preload w (drop n (file_list c)) |>.

Definition serve_file_contents (w : World) (request : FileContentsRequest) (c : ClipFiles)
  : result bytes CliprdrError * ClipFiles :=
  match get_file c (index_of request) with
  | None => (Err InvalidRequest, c)
  | Some f =>
      match request with
      | Size _ idx => (Ok (le_field 8 (LocalFiles.size f)), preload_after w idx c)
      | Range _ idx offset length =>
          if LocalFiles.size f <? offset then (Err InvalidRequest, c)
          else
            let read_size :=
              if LocalFiles.size f - offset <? length then LocalFiles.size f - offset else length in
            if MAX_RANGE_READ <? read_size then (Err InvalidRequest, c)
            else
              let '(res, f) := read_exact_at w f read_size offset in
              match res with
              | Err e => (Err e, put_file idx f c)
              | Ok buf => (Ok buf, preload_after w idx (put_file idx f c))
              end
      end
  end.

Definition has_served (conn_id : Z) (c : ClipFiles) : bool := bool_decide (conn_id ∈ served_to c).

(** The last of the retired that [p] admits. *)
Definition last_retired (p : ClipFiles -> bool) (rs : list ClipFiles) : option nat :=
  match list_find (fun c => p c = true) (rev rs) with
  | Some (i, _) => Some (length rs - 1 - i)%nat
  | None => None
  end.

Inductive Selected := Current | Retired (i : nat).

Definition select_clip_files (conn_id : Z) (clip_data_id : option Z) (s : Shared) : option Selected :=
  match clip_data_id with
  | Some i =>
      if id (current s) =? i then Some Current
      else Retired <$> last_retired (fun c => (id c =? i) && has_served conn_id c) (retired s)
  | None =>
      if has_served conn_id (current s) then Some Current
      else match last_retired (has_served conn_id) (retired s) with
           | Some i => Some (Retired i)
           | None => Some Current
           end
  end.

Definition retire_if_served (replaced : ClipFiles) (rs : list ClipFiles) : list ClipFiles :=
  match served_to replaced with
  | [] => rs
  | _ =>
      (if (length rs =? MAX_RETIRED_CLIP_FILES)%nat then tail rs else rs) ++ [release_handles replaced]
  end.

(** [as usize], and the unsigned words in signed fields. *)
Definition parse_request (stream_id list_index dw_flags low high cb_requested : Z) : option FileContentsRequest :=
  let idx := Int.wrap 64 list_index in
  if dw_flags =? 1 then Some (Size stream_id idx)
  else if dw_flags =? 2 then
    Some (Range stream_id idx
            (Z.lor (Int.wrap 64 (Z.shiftl (Int.wrap 64 high) 32)) (Int.wrap 32 low)) (Int.wrap 32 cb_requested))
  else None.

(** What is answered: the names for the audit, the contents. *)
Inductive Answer := ForAudit (files : list (rstr * Z)) | Contents (stream_id : Z) (data : bytes).

Definition on_selected (sel : Selected) (f : ClipFiles -> ClipFiles) (s : Shared) : Shared :=
  match sel with
  | Current => mkShared (f (current s)) (retired s)
  | Retired i => mkShared (current s) (alter f i (retired s))
  end.

Definition selected (sel : Selected) (s : Shared) : option ClipFiles :=
  match sel with Current => Some (current s) | Retired i => retired s !! i end.

Definition read_selected (w : World) (request : FileContentsRequest) (c : ClipFiles)
  : list (result Answer CliprdrError) * ClipFiles :=
  let audit := match get_files_for_audit w request c with Some fs => [Ok (ForAudit fs)] | None => [] end in
  let '(res, c) := serve_file_contents w request c in
  (audit ++ [match res with Ok data => Ok (Contents (stream_of request) data) | Err e => Err e end], c).

Definition read_file_contents (w : World) (conn_id stream_id list_index dw_flags low high cb_requested : Z)
    (clip_data_id : option Z) (s : Shared) : list (result Answer CliprdrError) * Shared :=
  match parse_request stream_id list_index dw_flags low high cb_requested with
  | None => ([Err InvalidRequest], s)
  | Some request =>
      match select_clip_files conn_id clip_data_id s with
      | None => ([Err InvalidRequest], s)
      | Some sel =>
          match selected sel s with
          | None => ([Err InvalidRequest], s)
          | Some c =>
              let '(checked, c) :=
                match sel with Current => (Ok tt, c) | Retired _ => check_retired_file w request c end in
              match checked with
              | Err e => ([Err e], on_selected sel (fun _ => c) s)
              | Ok _ =>
                  let '(res, c) := read_selected w request c in
                  (res, on_selected sel (fun _ => c) s)
              end
          end
      end
  end.

Definition sync_files (w : World) (nonce : bytes) (fs : list rstr) (s : Shared) : result unit CliprdrError * Shared :=
  let sg := fingerprint w fs in
  if bool_decide (files (current s) = fs) && bool_decide (sigs (current s) = sg)
     && negb (existsb sig_is_dir sg)
  then (Ok tt, s)
  else
    match sync_clip_files w fs sg with
    | Err e => (Err e, s)
    | Ok next =>
        match build_file_list_pdu nonce next with
        | Err e => (Err e, s)
        | Ok next => (Ok tt, mkShared next (retire_if_served (current s) (retired s)))
        end
    end.

Definition get_file_list_pdu (conn_id : Z) (s : Shared) : bytes * Shared :=
  let c := current s in
  match files_pdu c with
  | [] => ([], s)
  | pdu =>
      (pdu, if has_served conn_id c then s
            else mkShared (c <| served_to := served_to c ++ [conn_id] |>) (retired s))
  end.
End ServFiles.

(** ** The messages of the peer: [serve_clip_messages] *)

Section Serve.
Import ServFiles ClipboardFile.

Definition FILEDESCRIPTORW_FORMAT_NAME : rstr := Str.lit "FileGroupDescriptorW".
Definition FILECONTENTS_FORMAT_NAME : rstr := Str.lit "FileContents".
Definition FILEDESCRIPTOR_FORMAT_ID : Z := 49334.
Definition FILECONTENTS_FORMAT_ID : Z := 49267.

(** The formats have their own names in [REMOTE_FORMAT_MAP]. *)
Definition get_format_list : ClipboardFile :=
  FormatList [(FILEDESCRIPTOR_FORMAT_ID, FILEDESCRIPTORW_FORMAT_NAME);
              (FILECONTENTS_FORMAT_ID, FILECONTENTS_FORMAT_NAME)].

Definition msg_resp_format_data_failure : ClipboardFile := FormatDataResponse 2 [].
Definition resp_file_contents_fail (stream_id : Z) : ClipboardFile := FileContentsResponse 2 stream_id [].

(** What is done on this end: the paste of a list, the contents that a paste waits for, the
    clipboard to be emptied. *)
Inductive Local := PasteList (format_data : bytes) | PasteContents (msg_flags stream_id : Z) (data : bytes)
  | EmptyClipboard.

Definition find_format (name : rstr) (format_list : list (Z * rstr)) : option Z :=
  fst <$> find (fun f => bool_decide (f.2 = name)) format_list.

Definition answer_msg (file_len : rstr -> option Z) (stream_id : Z) (res : result Answer CliprdrError) : ClipMessage :=
  clip_2_msg file_len
    match res with
    | Ok (ForAudit files) => Files files
    | Ok (Contents stream_id data) => FileContentsResponse 1 stream_id data
    | Err _ => resp_file_contents_fail stream_id
    end.

Definition serve_clip_messages (w : World) (clip : ClipboardFile) (conn_id : Z) (s : Shared)
  : list ClipMessage * list Local * Shared :=
  let file_len p := m_len <$> metadata w p in
  match clip with
  | FormatList format_list =>
      match find_format FILECONTENTS_FORMAT_NAME format_list, find_format FILEDESCRIPTORW_FORMAT_NAME format_list with
      | Some _, Some file_descriptor_id => ([clip_2_msg file_len (FormatDataRequest file_descriptor_id)], [], s)
      | _, _ => ([], [], s)
      end
  | FormatDataRequest _ =>
      let '(format_data, s) := get_file_list_pdu conn_id s in
      ([clip_2_msg file_len
          match format_data with [] => msg_resp_format_data_failure | _ => FormatDataResponse 1 format_data end],
       [], s)
  | FormatDataResponse msg_flags format_data =>
      ([], if msg_flags =? 1 then [PasteList format_data] else [], s)
  | FileContentsRequest stream_id list_index dw_flags low high cb_requested have clip_data_id =>
      let '(res, s) := read_file_contents w conn_id stream_id list_index dw_flags low high cb_requested
                         (if have then Some clip_data_id else None) s in
      (answer_msg file_len stream_id <$> res, [], s)
  | FileContentsResponse msg_flags stream_id data => ([], [PasteContents msg_flags stream_id data], s)
  | TryEmpty => ([], [EmptyClipboard], s)
  | MonitorReady | FormatListResponse _ | NotifyCallback _ _ _ | Files _ => ([], [], s)
  end.
End Serve.

(** * Specification *)

Import Filetype LocalFiles ServFiles.

(** A file whose name the format can carry: what [construct_file_list] lists, of a file
    system whose numbers are those of their types and whose names have no backslash. *)
Record sendable (f : LocalFile) : Prop := mkSendable {
  sendable_scalar : Forall is_scalar (descriptor_name f);
  sendable_plain : Forall (fun c => c <> 92) (descriptor_name f);
  sendable_valid : validate_file_name (descriptor_name f) = Ok tt;
  sendable_length : (length (utf16 (descriptor_name f)) <= MAX_FILE_NAME_CODE_UNITS)%nat;
  sendable_size : Int.is_u 64 (LocalFiles.size f);
  sendable_time : last_write_time f / 100 + LDAP_EPOCH_DELTA <= Int.umax 64 }.

(** What the other end makes of it: times have steps of 100 ns from 1970 on, and permissions have 16 bits. *)
Definition described (conn_id list_id : Z) (f : LocalFile) : FileDescription :=
  mkDescription conn_id (descriptor_name f) (if is_dir f then Directory else File)
    (Z.max 0 (last_write_time f) / 100 * 100) (LocalFiles.size f) (Int.wrap 16 (LocalFiles.perm f)) list_id.

(** * Theorems *)

(** ** A list that is written and read *)

Lemma zeros_length n : length (zeros n) = n.
Proof. apply repeat_length. Qed.

Lemma from_utf16le_utf16 s : Forall is_scalar s -> from_utf16le (utf16 s) = Some s.
Proof.
  induction 1 as [|c s Hc Hs IH]; [done|]. rewrite utf16_cons. unfold is_scalar in Hc.
  destruct (Z.ltb_spec c 65536) as [Hlt|Hge].
  - cbn [app from_utf16le]. unfold is_high_surrogate, is_low_surrogate.
    assert ((55296 <=? c) && (c <=? 56319) = false) as -> by (zbool; done || lia).
    assert ((56320 <=? c) && (c <=? 57343) = false) as -> by (zbool; done || lia). by rewrite IH.
  - rewrite Z.shiftr_div_pow2 by lia. change 1023 with (Z.ones 10). rewrite Z.land_ones by lia.
    change (2 ^ 10) with 1024. cbn [app from_utf16le]. unfold is_high_surrogate, is_low_surrogate.
    set (h := 55296 + (c - 65536) / 1024). set (l := 56320 + (c - 65536) mod 1024).
    assert (55296 <= h <= 56319 /\ 56320 <= l <= 57343) as [Hh Hl].
    { subst h l. Z.to_euclidean_division_equations; lia. }
    assert ((55296 <=? h) && (h <=? 56319) = true) as -> by (zbool; done || lia).
    assert ((56320 <=? l) && (l <=? 57343) = true) as -> by (zbool; done || lia).
    rewrite IH. cbn. f_equal. f_equal. rewrite Z.shiftl_mul_pow2 by lia. subst h l.
    pose proof (Z.div_mod (c - 65536) 1024 ltac:(lia)). change (2 ^ 10) with 1024. lia.
Qed.

Lemma backslashes_plain s : Forall (fun c => c <> 92) s -> backslashes_to_slashes s = s.
Proof.
  induction 1 as [|c s Hc Hs IH]; [done|]. unfold backslashes_to_slashes in *. cbn.
  rewrite IH. by destruct (Z.eqb_spec c 92).
Qed.

Lemma position_of_zero_units us n :
  Forall (fun u => 0 < u < 65536) us -> position_of_zero (us ++ repeat 0 (S n)) = Some (length us).
Proof. induction 1 as [|u us Hu Hus IH]; [done|]. cbn in *. destruct (Z.eqb_spec u 0); [lia|]. by rewrite IH. Qed.

(** The units of a name field: those of the name and zeros. *)
Lemma field_units s n :
  Forall is_scalar s ->
  le_value <$> chunks 2 (concat (le_field 2 <$> utf16 s) ++ zeros (2 * n)) = utf16 s ++ repeat 0 n.
Proof.
  intros Hs. rewrite zeros_pairs, <- concat_app, chunks_concat; [|lia|].
  2: { apply Forall_app. split; [|by apply List.Forall_forall; intros x Hx%repeat_spec; subst x].
       apply Forall_fmap, Forall_true. intros u. apply le_field_length. }
  rewrite fmap_app, <- list_fmap_compose. rewrite (Forall_fmap_ext_1 _ Datatypes.id).
  2: { apply (Forall_impl _ _ _ (utf16_units s Hs)). intros u Hu. cbn -[le_field Z.pow].
       rewrite le_value_field. apply Z.mod_small. change (256 ^ Z.of_nat 2) with 65536. lia. }
  rewrite list_fmap_id. change (le_value <$> repeat [0; 0] ?n) with (map le_value (repeat [0; 0] n)).
  by rewrite map_repeat.
Qed.

Lemma put_name_sendable f :
  sendable f ->
  put_descriptor_name f
  = Ok (concat (le_field 2 <$> utf16 (descriptor_name f)) ++ zeros (2 * (260 - length (utf16 (descriptor_name f))))).
Proof.
  intros [_ _ Hv Hl _ _]. unfold put_descriptor_name. rewrite Hv. unfold MAX_FILE_NAME_CODE_UNITS in Hl.
  rewrite names_length. unfold FILE_NAME_FIELD_SIZE, FILE_NAME_CODE_UNITS.
  rewrite (proj2 (Nat.ltb_ge _ _)) by lia. f_equal. f_equal.
  change (le_field 2 0) with (zeros 2). unfold zeros. rewrite <- repeat_app. f_equal. lia.
Qed.

(** A descriptor: fields of their width, one after the other. *)
Definition descriptor_of (f : LocalFile) (reserved : bytes) : bytes :=
  le_field 4 UNIX_FLAGS ++ reserved ++ le_field 4 (file_attributes f) ++ zeros 12
  ++ le_field 4 (LocalFiles.perm f) ++ le_field 8 (win32_time f)
  ++ le_field 4 (LocalFiles.size f / 2 ^ 32) ++ le_field 4 (Z.land (LocalFiles.size f) (Int.umax 32))
  ++ concat (le_field 2 <$> utf16 (descriptor_name f)) ++ zeros (2 * (260 - length (utf16 (descriptor_name f)))).

Lemma as_bin_sendable f : sendable f -> as_bin f = Ok (descriptor_of f (zeros 32)).
Proof. intros Hf. unfold as_bin. by rewrite put_name_sendable. Qed.

Lemma descriptor_of_length f reserved :
  sendable f -> length reserved = 32%nat -> length (descriptor_of f reserved) = 592%nat.
Proof.
  intros [_ _ _ Hl _ _] Hr. unfold descriptor_of, MAX_FILE_NAME_CODE_UNITS in *.
  rewrite !length_app, !le_field_length, !zeros_length, names_length, Hr. lia.
Qed.

Lemma descriptor_of_fields f reserved :
  sendable f -> length reserved = 32%nat ->
  let d := descriptor_of f reserved in
  u32_at d 0 = UNIX_FLAGS
  /\ u32_at d 36 = file_attributes f mod 2 ^ 32
  /\ u32_at d 52 = LocalFiles.perm f mod 2 ^ 32
  /\ u64_at d 56 = win32_time f mod 2 ^ 64
  /\ u32_at d 64 = (LocalFiles.size f / 2 ^ 32) mod 2 ^ 32
  /\ u32_at d 68 = Z.land (LocalFiles.size f) (Int.umax 32) mod 2 ^ 32
  /\ name_units d = utf16 (descriptor_name f) ++ repeat 0 (260 - length (utf16 (descriptor_name f))).
Proof.
  intros Hf Hr d. unfold u32_at, u64_at, name_units, FILE_NAME_FIELD_SIZE, FILE_NAME_CODE_UNITS.
  pose proof (sendable_length f Hf) as Hl. unfold MAX_FILE_NAME_CODE_UNITS in Hl.
  set (name := concat (le_field 2 <$> utf16 (descriptor_name f))
                 ++ zeros (2 * (260 - length (utf16 (descriptor_name f))))).
  assert (length name = 520%nat) as Hn by (subst name; rewrite length_app, names_length, zeros_length; lia).
  assert (slice d 72 (260 * 2) = name) as ->.
  { subst d. apply (slice_at (take 72 (descriptor_of f reserved)) name []); [|..|done].
    2: { rewrite length_take, (descriptor_of_length f reserved); [done..]. }
    unfold descriptor_of. fold name. rewrite app_nil_r, !app_assoc, take_app_length'; [done|].
    by rewrite !length_app, !le_field_length, Hr, !zeros_length. }
  subst name. rewrite field_units by apply Hf. subst d. unfold descriptor_of.
  set (a := le_field 4 UNIX_FLAGS). set (b := le_field 4 (file_attributes f)).
  set (p := le_field 4 (LocalFiles.perm f)). set (t := le_field 8 (win32_time f)).
  set (h := le_field 4 (LocalFiles.size f / 2 ^ 32)). set (l := le_field 4 (Z.land _ _)).
  set (rest := concat _ ++ _).
  assert (length a = 4 /\ length b = 4 /\ length p = 4 /\ length t = 8 /\ length h = 4 /\ length l = 4)%nat
    as (La & Lb & Lp & Lt & Lh & Ll) by (split_and!; apply le_field_length).
  split_and!; [..|done];
    [rewrite (slice_at [] a (reserved ++ b ++ zeros 12 ++ p ++ t ++ h ++ l ++ rest))
    |rewrite (slice_at (a ++ reserved) b (zeros 12 ++ p ++ t ++ h ++ l ++ rest))
    |rewrite (slice_at (a ++ reserved ++ b ++ zeros 12) p (t ++ h ++ l ++ rest))
    |rewrite (slice_at (a ++ reserved ++ b ++ zeros 12 ++ p) t (h ++ l ++ rest))
    |rewrite (slice_at (a ++ reserved ++ b ++ zeros 12 ++ p ++ t) h (l ++ rest))
    |rewrite (slice_at (a ++ reserved ++ b ++ zeros 12 ++ p ++ t ++ h) l rest)];
    try done; rewrite ?length_app, ?zeros_length, <- ?app_assoc;
    try (done || lia);
    apply le_value_field.
Qed.

Lemma flag_bit (b : bool) m k : Z.land (if b then m else 0) k = if b then Z.land m k else 0.
Proof. by destruct b. Qed.

Lemma attributes_small f : 0 <= file_attributes f < 256.
Proof. unfold file_attributes. destruct (read_only f), (hidden f), (is_dir f), (normal f); by vm_compute. Qed.

Lemma attributes_directory f : negb (Z.land (file_attributes f) 16 =? 0) = is_dir f.
Proof. unfold file_attributes. by destruct (read_only f), (hidden f), (is_dir f), (normal f). Qed.

Lemma win32_time_back f :
  sendable f ->
  win32_time f mod 2 ^ 64 = Z.max 0 (last_write_time f) / 100 + LDAP_EPOCH_DELTA.
Proof.
  intros Hf. pose proof (sendable_time f Hf) as Ht. unfold win32_time, Int.wrap, Int.umax, LDAP_EPOCH_DELTA in *.
  assert (0 <= Z.max 0 (last_write_time f) / 100 <= 2 ^ 64 - 1 - 116444736000000000).
  { split; [apply Z.div_pos; lia|]. destruct (Z.max_spec 0 (last_write_time f)) as [[_ ->]|[_ ->]]; [lia|].
    rewrite Z.div_0_l by lia. lia. }
  rewrite !(Z.mod_small (Z.max 0 (last_write_time f) / 100)) by lia. rewrite Z.mod_mod by lia.
  apply Z.mod_small. lia.
Qed.

Lemma size_back n : Int.is_u 64 n ->
  Z.shiftl ((n / 2 ^ 32) mod 2 ^ 32) 32 + Z.land n (Int.umax 32) mod 2 ^ 32 = n.
Proof.
  unfold Int.is_u, Int.umax. intros Hn. change (2 ^ 32 - 1) with (Z.ones 32). rewrite Z.land_ones by lia.
  rewrite Z.mod_mod by lia. rewrite (Z.mod_small (n / 2 ^ 32)).
  2: { Z.to_euclidean_division_equations. lia. }
  rewrite Z.shiftl_mul_pow2 by lia. pose proof (Z.div_mod n (2 ^ 32) ltac:(lia)). lia.
Qed.

(** The parser reads back a descriptor, whatever its reserved bytes are. *)
Lemma parse_descriptor_of f reserved conn_id list_id :
  sendable f -> length reserved = 32%nat ->
  parse_file_descriptor (descriptor_of f reserved) conn_id list_id = Ok (described conn_id list_id f).
Proof.
  intros Hf Hr. unfold parse_file_descriptor.
  destruct (descriptor_of_fields f reserved Hf Hr) as (Ef & Ea & Ep & Et & Eh & El & En).
  rewrite Ef, Ea, Ep, Et, Eh, El, En. destruct Hf as [Hs Hb Hv Hl Hsz Ht] eqn:E. clear E.
  unfold MAX_FILE_NAME_CODE_UNITS in Hl.
  replace (260 - length (utf16 (descriptor_name f)))%nat with (S (259 - length (utf16 (descriptor_name f)))) by lia.
  rewrite position_of_zero_units by (by apply utf16_units). rewrite take_app_length.
  rewrite from_utf16le_utf16 by done. change (Z.land UNIX_FLAGS FLAGS_FD_ATTRIBUTES =? 0) with false. cbn iota.
  cbv zeta. rewrite backslashes_plain, Hv by done. f_equal. unfold described.
  rewrite (Z.mod_small (file_attributes f)) by (pose proof (attributes_small f); lia).
  rewrite attributes_directory. rewrite size_back by done. rewrite win32_time_back by (by apply mkSendable).
  f_equal.
  - unfold modified_at. change (Z.land UNIX_FLAGS FLAGS_FD_LAST_WRITE =? 0) with false. cbn [negb andb].
    destruct (Z.leb_spec LDAP_EPOCH_DELTA (Z.max 0 (last_write_time f) / 100 + LDAP_EPOCH_DELTA)) as [_|H]; [lia|].
    assert (0 <= Z.max 0 (last_write_time f) / 100) by (apply Z.div_pos; lia). lia.
  - unfold permissions. change (Z.land UNIX_FLAGS FLAGS_FD_UNIX_MODE =? 0) with false. cbn [negb].
    unfold Int.wrap. apply Z.mod_mod_divide. by exists (2 ^ 16).
Qed.

(** *** The list *)

Lemma descriptors_sendable fs :
  Forall sendable fs -> descriptors fs = Ok (concat ((fun f => descriptor_of f (zeros 32)) <$> fs)).
Proof. induction 1 as [|f fs Hf Hfs IH]; [done|]. cbn [descriptors]. by rewrite as_bin_sendable, IH by done. Qed.

(** The descriptors of a list with a nonce in the first. *)
Definition descriptor_list (nonce : bytes) (fs : list LocalFile) : list bytes :=
  match fs with
  | [] => []
  | f :: fs => descriptor_of f (nonce ++ zeros 16) :: ((fun f => descriptor_of f (zeros 32)) <$> fs)
  end.

Lemma descriptor_list_lengths nonce fs :
  length nonce = 16%nat -> Forall sendable fs -> Forall (fun d => length d = 592%nat) (descriptor_list nonce fs).
Proof.
  intros Hn [|f fs' Hf Hfs]; [done|]. apply Forall_cons. split.
  - apply descriptor_of_length; [done|]. by rewrite length_app, Hn, zeros_length.
  - apply Forall_fmap, (Forall_impl _ _ _ Hfs). intros x Hx. by apply descriptor_of_length.
Qed.

Lemma put_nonce_descriptors nonce n fs :
  length nonce = 16%nat -> fs <> [] ->
  put_nonce nonce (le_field 4 n ++ concat ((fun f => descriptor_of f (zeros 32)) <$> fs))
  = le_field 4 n ++ concat (descriptor_list nonce fs).
Proof.
  intros Hn Hne. destruct fs as [|f fs]; [done|]. cbn [descriptor_list]. rewrite fmap_cons. cbn [concat].
  set (ds := concat _). unfold descriptor_of, put_nonce. change (zeros 32) with (zeros 16 ++ zeros 16).
  rewrite <- !app_assoc. set (a := le_field 4 n). set (b := le_field 4 UNIX_FLAGS).
  assert (length a = 4%nat /\ length b = 4%nat) as [La Lb] by (split; apply le_field_length).
  set (rest := le_field 4 (file_attributes f) ++ _).
  assert ((length (a ++ b ++ zeros 16 ++ zeros 16 ++ rest) <? 24)%nat = false) as ->.
  { apply Nat.ltb_ge. rewrite !length_app, !zeros_length. lia. }
  rewrite (app_assoc a b), take_app_length' by (rewrite length_app; lia). by rewrite <- app_assoc.
Qed.

Lemma parse_all_described nonce conn_id list_id fs :
  length nonce = 16%nat -> Forall sendable fs ->
  parse_all (descriptor_list nonce fs) conn_id list_id = Ok (described conn_id list_id <$> fs).
Proof.
  intros Hn Hfs. destruct Hfs as [|f fs Hf Hfs]; [done|]. cbn [descriptor_list parse_all].
  rewrite parse_descriptor_of; [|done|by rewrite length_app, Hn].
  assert (parse_all ((fun f => descriptor_of f (zeros 32)) <$> fs) conn_id list_id
          = Ok (described conn_id list_id <$> fs)) as ->; [|done].
  induction Hfs as [|g fs Hg Hfs IH]; [done|]. rewrite fmap_cons. cbn [parse_all].
  by rewrite parse_descriptor_of, IH.
Qed.

(** A list that was built has the bytes and the id of its files. *)
Definition built (c : ClipFiles) : Prop :=
  file_list c = [] /\ files_pdu c = []
  \/ exists nonce, length nonce = 16%nat /\ file_list c <> [] /\ build_file_list_pdu nonce c = Ok c.

Lemma build_rebuild nonce c c' : build_file_list_pdu nonce c = Ok c' -> build_file_list_pdu nonce c' = Ok c'.
Proof.
  unfold build_file_list_pdu. destruct (descriptors (file_list c)) as [ds|e] eqn:E; [|done].
  intros [= <-]. destruct c. cbn in *. by rewrite E.
Qed.

Lemma built_read_back c conn_id :
  built c -> files_pdu c <> [] -> Forall sendable (file_list c) -> Z.of_nat (length (file_list c)) < 2 ^ 32 ->
  parse_file_descriptors (files_pdu c) conn_id = Ok (described conn_id (id c) <$> file_list c).
Proof.
  intros [[_ E]|(nonce & Hn & Hne & Hb)] Hp Hs Hc; [done|].
  unfold build_file_list_pdu in Hb. rewrite descriptors_sendable in Hb by done.
  rewrite put_nonce_descriptors in Hb by done. destruct c as [fl sg files fi pdu i sv].
  cbn [file_list files_pdu id] in *. cbn -[le_field] in Hb.
  assert (pdu = le_field 4 (Z.of_nat (length files)) ++ concat (descriptor_list nonce files)
          /\ file_list_id pdu = i) as [-> <-] by (injection Hb as <- <-; done). clear Hb.
  set (ds := descriptor_list nonce files).
  assert (length (concat ds) = length files * 592)%nat as Hd.
  { subst ds. rewrite (concat_length 592) by (by apply descriptor_list_lengths). f_equal.
    destruct files; [done|]. cbn. by rewrite length_fmap. }
  unfold parse_file_descriptors. rewrite length_app, le_field_length, Hd.
  assert ((4 + length files * 592 <? 4)%nat = false) as -> by (apply Nat.ltb_ge; lia).
  rewrite take_app_length', drop_app_length', le_value_field by (by rewrite le_field_length).
  change (256 ^ Z.of_nat 4) with (2 ^ 32). rewrite Z.mod_small by lia. rewrite Hd.
  assert ((length files * 592 =? 0)%nat = false) as ->.
  { apply Nat.eqb_neq. destruct files; [done|cbn; lia]. }
  assert ((Z.of_nat (length files * 592) =? 592 * Z.of_nat (length files)) = true) as -> by (apply Z.eqb_eq; lia).
  cbn [andb negb]. rewrite chunks_concat; [|lia|by apply descriptor_list_lengths].
  subst ds. by apply parse_all_described.
Qed.

(** ** The lists that the connections share *)

(** What is done with them; [Read] with the fields of a request. *)
Inductive ShareOp :=
| Sync (w : World) (nonce : bytes) (paths : list rstr)
| Send (conn_id : Z)
| Read (w : World) (conn_id stream_id list_index dw_flags low high cb_requested : Z) (clip_data_id : option Z)
| Clear.

Definition share_step (s : Shared) (op : ShareOp) : Shared :=
  match op with
  | Sync w nonce paths => (sync_files w nonce paths s).2
  | Send conn_id => (get_file_list_pdu conn_id s).2
  | Read w conn_id stream_id list_index dw_flags low high cb clip_data_id =>
      (read_file_contents w conn_id stream_id list_index dw_flags low high cb clip_data_id s).2
  | Clear => clear_files
  end.

Definition at_start : Shared := mkShared no_files [].

(** The numbers of a file system are those of their types. *)
Definition world_ok (w : World) : Prop :=
  forall p mt, metadata w p = Some mt ->
    Int.is_u 64 (m_len mt) /\ default 0 (m_modified mt) / 100 + LDAP_EPOCH_DELTA <= Int.umax 64.

Definition op_ok (op : ShareOp) : Prop :=
  match op with Sync w nonce _ => length nonce = 16%nat /\ world_ok w | _ => True end.

(** A file as it was listed, without what is read of it. *)
Definition closed (f : LocalFile) : LocalFile := f <| handle := None |> <| LocalFiles.offset := 0 |>.

#[local] Arguments closed : simpl never.

(** The same list, of which files may have been opened, read and closed. *)
Record same_list (c c' : ClipFiles) : Prop := mkSame {
  same_files : closed <$> file_list c' = closed <$> file_list c;
  same_pdu : files_pdu c' = files_pdu c;
  same_id : id c' = id c;
  same_served : served_to c ⊆ served_to c' }.

(** What every listed file satisfies. *)
Record listed (f : LocalFile) : Prop := mkListed {
  listed_valid : validate_file_name (descriptor_name f) = Ok tt;
  listed_length : (length (utf16 (descriptor_name f)) <= MAX_FILE_NAME_CODE_UNITS)%nat;
  listed_size : Int.is_u 64 (LocalFiles.size f);
  listed_time : last_write_time f / 100 + LDAP_EPOCH_DELTA <= Int.umax 64 }.

(** Names that go through the other end's backslashes. *)
Definition plain (f : LocalFile) : Prop :=
  Forall is_scalar (descriptor_name f) /\ Forall (fun c => c <> 92) (descriptor_name f).

Record shared_ok (s : Shared) : Prop := mkSharedOk {
  ok_current : built (current s) /\ Forall listed (file_list (current s));
  ok_retired : Forall (fun c => built c /\ Forall listed (file_list c) /\ served_to c <> []) (retired s);
  ok_few : (length (retired s) <= MAX_RETIRED_CLIP_FILES)%nat }.

Lemma same_list_refl c : same_list c c.
Proof. done. Qed.

Lemma same_list_trans c c' c'' : same_list c c' -> same_list c' c'' -> same_list c c''.
Proof. intros [? ? ? ?] [? ? ? ?]. split; [congruence..|]. by etrans. Qed.

#[local] Hint Resolve same_list_refl : core.

#[export] Instance same_list_preorder : PreOrder same_list.
Proof. split; [exact same_list_refl|exact same_list_trans]. Qed.

Lemma closed_descriptors fs : descriptors (closed <$> fs) = descriptors fs.
Proof. induction fs as [|f fs IH]; [done|]. rewrite fmap_cons. cbn [descriptors]. rewrite IH. by destruct f. Qed.

Lemma closed_listed fs : Forall listed (closed <$> fs) <-> Forall listed fs.
Proof.
  rewrite Forall_fmap. apply Forall_iff. intros f.
  split; intros [? ? ? ?]; destruct f; by constructor.
Qed.

Lemma same_listed c c' : same_list c c' -> Forall listed (file_list c) -> Forall listed (file_list c').
Proof. intros Hc Hl. apply closed_listed. rewrite (same_files _ _ Hc). by apply closed_listed. Qed.

Lemma same_empty c c' : same_list c c' -> file_list c' = [] <-> file_list c = [].
Proof.
  intros Hc. pose proof (f_equal length (same_files _ _ Hc)) as Hl. rewrite !length_fmap in Hl.
  destruct (file_list c), (file_list c'); done.
Qed.

Lemma same_built c c' : same_list c c' -> built c -> built c'.
Proof.
  intros Hc [[E Ep]|(nonce & Hn & Hne & Hb)]; [left|right].
  { split; [by apply (same_empty c)|by rewrite (same_pdu _ _ Hc)]. }
  exists nonce. split_and!; [done|by rewrite (same_empty c)|].
  pose proof (f_equal length (same_files _ _ Hc)) as Hl. rewrite !length_fmap in Hl.
  unfold build_file_list_pdu in *. rewrite <- closed_descriptors, (same_files _ _ Hc), closed_descriptors, Hl.
  destruct (descriptors (file_list c)) as [ds|]; [|done].
  destruct Hc as [_ Hp Hi _]. destruct c, c'. cbn -[le_field] in *. congruence.
Qed.

(** *** Reading leaves a list as it is *)

Lemma load_handle_closed w f f' : load_handle w f = Ok f' -> closed f' = closed f.
Proof.
  unfold load_handle. destruct (negb (is_dir f) && _); [|by intros [= ->]].
  destruct (open_file w (path f)); [|done]. intros [= <-]. by destruct f.
Qed.

Lemma read_exact_at_closed w f n o : closed (read_exact_at w f n o).2 = closed f.
Proof.
  unfold read_exact_at. destruct (load_handle w f) as [f'|e] eqn:E; [|done].
  apply load_handle_closed in E. destruct (handle f') as [r|]; [|done].
  destruct (read_exact w _ n) as [[buf r']|]; [case_match|]; rewrite <- E; by destruct f'.
Qed.

Lemma preload_closed w fs : closed <$> preload w fs = closed <$> fs.
Proof.
  induction fs as [|f fs IH]; [done|]. cbn [preload]. destruct (is_dir f); [by rewrite !fmap_cons, IH|].
  destruct (load_handle w f) as [f'|] eqn:E; [|done]. by rewrite !fmap_cons, (load_handle_closed _ _ _ E).
Qed.

Lemma same_preload w idx c : same_list c (preload_after w idx c).
Proof.
  destruct c. split; [|done..]. unfold preload_after. cbn [file_list]. cbn.
  by rewrite fmap_app, preload_closed, <- fmap_app, take_drop.
Qed.

Lemma get_file_at c idx f : get_file c idx = Some f -> file_list c !! Z.to_nat idx = Some f.
Proof. unfold get_file. by destruct (_ <? _). Qed.

Lemma same_put c idx f f' : get_file c idx = Some f -> closed f' = closed f -> same_list c (put_file idx f' c).
Proof.
  intros Hf%get_file_at Hc. destruct c. split; [|done..]. cbn in *.
  rewrite list_fmap_insert, Hc. apply list_insert_id. by rewrite list_lookup_fmap, Hf.
Qed.

Lemma same_check w r c : same_list c (check_retired_file w r c).2.
Proof.
  destruct r as [|? idx ? ?]; [done|]. cbn [check_retired_file]. destruct (get_file c idx) as [f|] eqn:E; [|done].
  destruct (is_dir f); [done|]. destruct (load_handle w f) as [f'|] eqn:El; [|done]. cbn [snd].
  eapply same_put; [done|]. by apply load_handle_closed in El.
Qed.

Lemma same_serve w r c : same_list c (serve_file_contents w r c).2.
Proof.
  unfold serve_file_contents. destruct (get_file c (index_of r)) as [f|] eqn:E; [|done].
  destruct r as [? idx|? idx o n]; [apply same_preload|].
  destruct (_ <? o); [done|]. cbv zeta. set (m := if LocalFiles.size f - o <? n then _ else n). destruct (_ <? m); [done|].
  pose proof (read_exact_at_closed w f m o) as Hc. destruct (read_exact_at w f m o) as [res f']. cbn [snd] in Hc.
  assert (same_list c (put_file idx f' c)) as Hp by (by eapply same_put).
  destruct res; [|done]. eapply same_list_trans; [exact Hp|]. apply same_preload.
Qed.

Lemma same_read w r c : same_list c (read_selected w r c).2.
Proof.
  unfold read_selected. pose proof (same_serve w r c) as H. by destruct (serve_file_contents w r c).
Qed.

(** *** Listing *)

Lemma try_open_listed w root p f : world_ok w -> try_open w root p = Ok f -> listed f.
Proof.
  intros Hw. unfold try_open. destruct (validated_descriptor_name root p) as [nm|] eqn:Ev; [|done].
  destruct (metadata w p) as [mt|] eqn:Em; [|done]. intros [= <-].
  apply Hw in Em as [Hl Ht]. unfold validated_descriptor_name in Ev.
  destruct (strip_prefix root p) as [d|]; [|done]. destruct (is_absolute d); [done|].
  destruct (validate_file_name d) as [[]|] eqn:Ed; [|done].
  destruct (_ <? _)%nat eqn:El; [done|]. injection Ev as <-. apply Nat.ltb_ge in El. by constructor.
Qed.

(** A walk appends to the list. *)
Lemma walk_extends (P : LocalFile -> Prop) fuel w root p fs visited fs' visited' :
  (forall p f, try_open w root p = Ok f -> P f) ->
  constr_file_lst fuel w root p fs visited = Ok (fs', visited') ->
  exists ext, fs' = fs ++ ext /\ Forall P ext /\ (ext = [] -> p ∈ visited).
Proof.
  intros HP. revert p fs visited fs' visited'. induction fuel as [|fuel IH]; intros p fs visited fs' visited'; [done|].
  cbn [constr_file_lst]. case_bool_decide as Hv; [intros [= <- <-]; exists []; by rewrite app_nil_r|].
  destruct (try_open w root p) as [f|] eqn:Eo; [|done]. apply HP in Eo.
  assert (forall ext, Forall P ext -> exists ext', (fs ++ [f]) ++ ext = fs ++ ext' /\ Forall P ext' /\ (ext' = [] -> p ∈ visited))
    as Hext.
  { intros ext He. exists (f :: ext). rewrite <- app_assoc. split_and!; [done|by constructor|done]. }
  destruct (is_dir f); [|intros [= <- <-]; destruct (Hext []) as (x & E & ?); [done|]; rewrite app_nil_r in E; by exists x].
  destruct (read_dir w p) as [entries|]; [|done]. intros Hgo.
  assert (exists ext, fs' = (fs ++ [f]) ++ ext /\ Forall P ext) as (ext & -> & He); [|by apply Hext].
  revert Hgo. generalize (fs ++ [f]), ({[p]} ∪ visited). clear Hext. induction entries as [|[entry|] entries IHe]; intros l v.
  - intros [= <- <-]. exists []. by rewrite app_nil_r.
  - destruct (constr_file_lst fuel w root _ l v) as [[l' v']|] eqn:E; [|done]. intros Hgo.
    apply IH in E as (x & -> & Hx & _). apply IHe in Hgo as (y & -> & Hy).
    exists (x ++ y). rewrite app_assoc. split; [done|]. by apply Forall_app.
  - done.
Qed.

Lemma construct_from_extends (P : LocalFile -> Prop) w paths fs fs' :
  (forall root p f, try_open w root p = Ok f -> P f) -> construct_from w paths fs = Ok fs' ->
  exists ext, fs' = fs ++ ext /\ Forall P ext /\ (ext = [] -> paths = []).
Proof.
  intros HP. revert fs. induction paths as [|p paths IH]; intros fs; cbn [construct_from].
  { intros [= <-]. exists []. by rewrite app_nil_r. }
  destruct (parent p) as [root|]; [|done]. destruct (constr_file_lst _ w root p fs ∅) as [[l v]|] eqn:E; [|done].
  apply (walk_extends P) in E as (x & -> & Hx & Hne); [|by intros; eapply HP].
  intros (y & -> & Hy & _)%IH. exists (x ++ y). rewrite app_assoc. split_and!; [done|by apply Forall_app|].
  intros [-> _]%app_eq_nil. specialize (Hne eq_refl). set_solver.
Qed.

Lemma construct_all (P : LocalFile -> Prop) w paths fs :
  (forall root p f, try_open w root p = Ok f -> P f) -> construct_file_list w paths = Ok fs -> Forall P fs /\ fs <> [].
Proof.
  intros HP. unfold construct_file_list. destruct paths as [|p paths]; [done|].
  intros (ext & -> & Hl & Hne)%(construct_from_extends P); [|done]. split; [done|]. intros E. by apply Hne in E.
Qed.

Lemma construct_listed w paths fs :
  world_ok w -> construct_file_list w paths = Ok fs -> Forall listed fs /\ fs <> [].
Proof. intros Hw. apply construct_all. intros root p f. by apply try_open_listed. Qed.

(** *** The invariant *)

Lemma released_closed f : closed (if LocalFiles.offset f =? 0 then f <| handle := None |> else f) = closed f.
Proof. destruct (_ =? 0); by destruct f. Qed.

Lemma same_released c : same_list c (release_handles c).
Proof.
  destruct c. split; [|done..]. cbn. rewrite <- list_fmap_compose. apply list_fmap_ext. intros i f _. apply released_closed.
Qed.

Lemma sync_files_cases w nonce paths s :
  length nonce = 16%nat -> world_ok w ->
  (sync_files w nonce paths s).2 = s
  \/ exists next, (sync_files w nonce paths s).2 = mkShared next (retire_if_served (current s) (retired s))
     /\ (sync_files w nonce paths s).1 = Ok tt
     /\ build_file_list_pdu nonce next = Ok next /\ file_list next <> [] /\ Forall listed (file_list next).
Proof.
  intros Hn Hw. unfold sync_files. destruct (_ && _ && _); [by left|].
  unfold sync_clip_files. destruct (construct_file_list w paths) as [fs|] eqn:Ec; [|by left].
  apply construct_listed in Ec as [Hl Hne]; [|done].
  destruct (build_file_list_pdu nonce _) as [next|] eqn:Eb; [|by left]. right. exists next. split_and!; [done..| | | ].
  - by eapply build_rebuild.
  - revert Eb. unfold build_file_list_pdu. cbn [file_list]. by destruct (descriptors fs); intros [= <-].
  - revert Eb. unfold build_file_list_pdu. cbn [file_list]. by destruct (descriptors fs); intros [= <-].
Qed.

Lemma retire_ok replaced rs :
  built replaced /\ Forall listed (file_list replaced) ->
  Forall (fun c => built c /\ Forall listed (file_list c) /\ served_to c <> []) rs ->
  (length rs <= MAX_RETIRED_CLIP_FILES)%nat ->
  Forall (fun c => built c /\ Forall listed (file_list c) /\ served_to c <> []) (retire_if_served replaced rs)
  /\ (length (retire_if_served replaced rs) <= MAX_RETIRED_CLIP_FILES)%nat.
Proof.
  intros [Hb Hl] Hrs Hlen. unfold retire_if_served. destruct (served_to replaced) as [|v vs] eqn:Es; [done|].
  pose proof (same_released replaced) as Hs. rewrite length_app. unfold MAX_RETIRED_CLIP_FILES in *.
  rewrite Forall_app, Forall_singleton. split; [split|].
  - destruct (_ =? _)%nat; [|done]. by destruct Hrs.
  - split_and!; [by apply (same_built replaced)|by apply (same_listed replaced)|].
    destruct replaced. cbn in *. by rewrite Es.
  - destruct (Nat.eqb_spec (length rs) 4); cbn; [|lia]. destruct rs; cbn in *; lia.
Qed.

(** A read leaves every list as it was. *)
Inductive same_shared : Shared -> Shared -> Prop :=
| same_shared_intro c c' rs rs' :
    same_list c c' -> Forall2 same_list rs rs' -> same_shared (mkShared c rs) (mkShared c' rs').

Lemma same_shared_refl s : same_shared s s.
Proof. destruct s. by constructor. Qed.

Lemma same_on_selected sel c c' s :
  selected sel s = Some c -> same_list c c' -> same_shared s (on_selected sel (fun _ => c') s).
Proof.
  destruct s as [cur rs]. destruct sel as [|i]; cbn.
  - intros [= ->] Hc. by constructor.
  - intros Hi Hc. constructor; [done|]. apply Forall2_alter_r; [done|]. intros x y Hx _ _. congruence.
Qed.

Lemma read_file_contents_same w conn stream idx flags low high cb clip_data_id s :
  same_shared s (read_file_contents w conn stream idx flags low high cb clip_data_id s).2.
Proof.
  unfold read_file_contents. destruct (parse_request _ _ _ _ _ _) as [r|]; [|apply same_shared_refl].
  destruct (select_clip_files conn clip_data_id s) as [sel|]; [|apply same_shared_refl].
  destruct (selected sel s) as [c|] eqn:Es; [|apply same_shared_refl].
  set (checked := match sel with Current => _ | Retired _ => _ end).
  assert (same_list c checked.2) as Hc by (subst checked; destruct sel; [done|apply same_check]).
  destruct checked as [chk c']. cbn [snd] in Hc. destruct chk; [|by apply (same_on_selected _ c)].
  pose proof (same_read w r c') as Hr. destruct (read_selected w r c') as [res c'']. cbn [snd] in *.
  apply (same_on_selected _ c); [done|]. by etrans.
Qed.

Lemma same_shared_ok s s' : same_shared s s' -> shared_ok s -> shared_ok s'.
Proof.
  intros [c c' rs rs' Hc Hrs] [[Hb Hl] Hr Hf]. cbn [current retired] in *. split; cbn [current retired].
  - split; [by apply (same_built c)|by apply (same_listed c)].
  - clear Hf Hb Hl. induction Hrs as [|x y rs rs' Hx Hrs IH]; [done|].
    apply Forall_cons in Hr as [(Hb & Hl & Hs) Hr]. constructor; [|by apply IH].
    split_and!; [by apply (same_built x)|by apply (same_listed x)|].
    pose proof (same_served _ _ Hx). intros E. rewrite E in *. apply Hs. by apply list_nil_subseteq.
  - by rewrite <- (Forall2_length _ _ _ Hrs).
Qed.

Lemma share_step_ok s op : op_ok op -> shared_ok s -> shared_ok (share_step s op).
Proof.
  destruct op as [w nonce paths|conn|w conn stream idx flags low high cb clip_data_id|]; cbn [op_ok share_step].
  - intros [Hn Hw] Hs. destruct (sync_files_cases w nonce paths s Hn Hw) as [->|(next & -> & _ & Hb & Hne & Hl)]; [done|].
    destruct Hs as [Hc Hr Hf]. destruct (retire_ok _ _ Hc Hr Hf) as [Hr' Hf']. split; [|done..].
    split; [|done]. right. by exists nonce.
  - intros _ Hs. unfold get_file_list_pdu. destruct (files_pdu (current s)) eqn:E; [done|].
    destruct (has_served conn (current s)); [done|]. destruct Hs as [[Hb Hl] Hr Hf]. split; [|done..].
    cbn [current]. split; [|by destruct (current s)]. apply (same_built (current s)); [|done].
    destruct (current s). split; cbn; [done..|]. set_solver.
  - intros _. apply same_shared_ok, read_file_contents_same.
  - intros _ _. split; cbn; [|done|lia]. split; [by left|done].
Qed.

Lemma shared_always_ok ops s : Forall op_ok ops -> shared_ok s -> shared_ok (foldl share_step s ops).
Proof. intros Hops. revert s. induction Hops; intros s Hs; [done|]. cbn. by apply IHHops, share_step_ok. Qed.

Lemma at_start_ok : shared_ok at_start.
Proof. split; cbn; [split; [by left|done]|done|lia]. Qed.

Lemma listed_sendable f : listed f -> plain f -> sendable f.
Proof. intros [? ? ? ?] [? ?]. by constructor. Qed.

Lemma built_id c : built c -> files_pdu c <> [] -> file_list_id (files_pdu c) = id c.
Proof.
  intros [[_ E]|(nonce & _ & _ & E)] Hp; [done|]. unfold build_file_list_pdu in E.
  destruct (descriptors (file_list c)); [|done]. injection E as E. rewrite <- E. by destruct c.
Qed.

(** C28 Whatever lists were shared before, a list none of whose names holds a backslash (or a
    code that is no character: [plain]) is read by the other end of the connection that it is
    sent to as the files whose contents are served under the same places: their names,
    kinds, sizes and permissions and their times in steps of 100 ns, and with an id that
    selects that list.  No more than four older lists are held, each of which was sent to
    someone.  With a backslash in a name the other end, which takes it for a slash, reads
    another path or refuses the whole list ([backslash_spoils_the_list]). *)
Theorem sent_list_is_read_back ops conn_id peer :
  Forall op_ok ops ->
  let s := foldl share_step at_start ops in
  let c := current s in
  let '(pdu, s') := get_file_list_pdu conn_id s in
  (length (retired s') <= MAX_RETIRED_CLIP_FILES)%nat
  /\ Forall (fun c => served_to c <> []) (retired s')
  /\ (pdu <> [] -> Forall plain (file_list c) -> Z.of_nat (length (file_list c)) < 2 ^ 32 ->
      parse_file_descriptors pdu peer = Ok (described peer (file_list_id pdu) <$> file_list c)
      /\ select_clip_files conn_id (Some (file_list_id pdu)) s' = Some Current
      /\ select_clip_files conn_id None s' = Some Current
      /\ file_list (current s') = file_list c).
Proof.
  intros Hops s c. assert (shared_ok s) as [[Hb Hl] Hr Hf] by (apply shared_always_ok, at_start_ok; done).
  change (current s) with c in Hb, Hl. unfold get_file_list_pdu. fold c. destruct (files_pdu c) as [|b0 pdu] eqn:Ep.
  { split_and!; [done| |done]. apply (Forall_impl _ _ _ Hr). naive_solver. }
  set (s' := if _ : bool then _ else _). assert (retired s' = retired s) as Er by (subst s'; by destruct (has_served conn_id c)).
  rewrite Er. split_and!; [done|apply (Forall_impl _ _ _ Hr); naive_solver|]. intros _ Hp Hcount.
  assert (Forall sendable (file_list c)) as Hs.
  { apply List.Forall_forall. intros f Hf'. rewrite List.Forall_forall in Hl, Hp. apply listed_sendable; auto. }
  rewrite <- Ep. rewrite built_id by (by rewrite ?Ep).
  split; [by apply built_read_back; rewrite ?Ep|].
  assert (current s' = c \/ current s' = c <| served_to := served_to c ++ [conn_id] |>) as Hc.
  { subst s'. destruct (has_served conn_id c); [by left|by right]. }
  assert (has_served conn_id (current s') = true) as Hsv.
  { subst s'. destruct (has_served conn_id c) eqn:E; [done|]. apply bool_decide_eq_true. destruct c. cbn. set_solver. }
  assert (id (current s') = id c /\ file_list (current s') = file_list c) as [Hi Hfl].
  { destruct Hc as [->| ->]; [done|by destruct c]. }
  unfold select_clip_files. by rewrite Hi, Z.eqb_refl, Hsv, Hfl.
Qed.

(** *** Lists that were sent are kept *)

Definition is_sync (op : ShareOp) : bool := match op with Sync _ _ _ => true | _ => false end.

(** [c] is shared: it is the current list, or one of the [k] that were retired last. *)
Definition held (k : nat) (c : ClipFiles) (s : Shared) : Prop :=
  same_list c (current s)
  \/ exists l1 c' l2, retired s = l1 ++ c' :: l2 /\ same_list c c' /\ (length l2 < k)%nat.

Definition lists (s : Shared) : list ClipFiles := current s :: retired s.

Lemma held_same k c s s' : same_shared s s' -> held k c s -> held k c s'.
Proof.
  intros [cur cur' rs rs' Hc Hrs] [H|(l1 & c' & l2 & E & H & Hk)]; cbn [current retired] in *.
  { left. cbn. by etrans. }
  right. subst rs. apply Forall2_app_inv_l in Hrs as (m1 & m & _ & Hm & ->).
  apply Forall2_cons_inv_l in Hm as (c'' & m2 & Hc' & Hm2 & ->). exists m1, c'', m2. split_and!; [done|by etrans|].
  by rewrite <- (Forall2_length _ _ _ Hm2).
Qed.

Lemma held_retire k c cur rs next conn :
  conn ∈ served_to c -> (S k <= MAX_RETIRED_CLIP_FILES)%nat -> (length rs <= MAX_RETIRED_CLIP_FILES)%nat ->
  held k c (mkShared cur rs) -> held (S k) c (mkShared next (retire_if_served cur rs)).
Proof.
  unfold retire_if_served, MAX_RETIRED_CLIP_FILES. intros Hconn Hk Hlen H. right. cbn [retired].
  destruct H as [H|(l1 & c' & l2 & E & H & Hl2)]; cbn [current retired] in *.
  - destruct (served_to cur) as [|v vs] eqn:Es; [apply (same_served _ _ H) in Hconn; rewrite Es in Hconn; by apply not_elem_of_nil in Hconn|].
    eexists _, _, []. split_and!; [done| |cbn; lia]. etrans; [exact H|apply same_released].
  - subst rs. rewrite length_app in *. cbn [length] in *.
    destruct (served_to cur) as [|v vs]; [by exists l1, c', l2; split_and!; auto with lia|].
    destruct (Nat.eqb_spec (length l1 + S (length l2)) 4) as [E|E].
    + destruct l1 as [|y l1]; cbn in E; [lia|]. cbn [tail app].
      exists l1, c', (l2 ++ [release_handles cur]). rewrite <- app_assoc, length_app. cbn. split_and!; [done..|lia].
    + exists l1, c', (l2 ++ [release_handles cur]). rewrite <- app_assoc, length_app. cbn. split_and!; [done..|lia].
Qed.

Lemma held_step k c s op conn :
  op_ok op -> op <> Clear -> conn ∈ served_to c -> shared_ok s ->
  (k + (if is_sync op then 1 else 0) <= MAX_RETIRED_CLIP_FILES)%nat ->
  held k c s -> held (k + (if is_sync op then 1 else 0)) c (share_step s op).
Proof.
  destruct op as [w nonce paths|x|w x stream idx flags low high cb clip_data_id|]; cbn [op_ok is_sync share_step];
    intros Hop Hcl Hconn Hs Hk H; [..|done]; rewrite ?Nat.add_0_r, ?Nat.add_1_r in *.
  - destruct Hop as [Hn Hw]. destruct (sync_files_cases w nonce paths s Hn Hw) as [->|(next & -> & _)].
    + destruct H as [H|(l1 & c' & l2 & E & H & Hl)]; [by left|]. right. exists l1, c', l2. split_and!; [done..|lia].
    + destruct s as [cur rs]. eapply held_retire; [done..|exact (ok_few _ Hs)|done].
  - destruct H as [H|(l1 & c' & l2 & E & H & Hl)]; unfold get_file_list_pdu; destruct (files_pdu (current s));
      [by left| |by right; exists l1, c', l2|]; destruct (has_served x (current s)) eqn:E';
      [by left| |by right; exists l1, c', l2|].
    + left. cbn [current snd]. etrans; [exact H|]. destruct (current s). split; cbn; [done..|]. set_solver.
    + right. exists l1, c', l2. by cbn [retired snd].
  - eapply held_same; [apply read_file_contents_same|done].
Qed.

Lemma held_steps k c s ops conn :
  Forall op_ok ops -> Clear ∉ ops -> conn ∈ served_to c -> shared_ok s ->
  (k + length (List.filter is_sync ops) <= MAX_RETIRED_CLIP_FILES)%nat ->
  held k c s -> exists k', held k' c (foldl share_step s ops).
Proof.
  intros Hops. revert k s. induction Hops as [|op ops Hop Hops IH]; intros k s Hcl Hconn Hs Hk H; [by exists k|].
  apply not_elem_of_cons in Hcl as [Hcl Hcls]. cbn [foldl List.filter] in *.
  apply (IH (k + if is_sync op then 1 else 0)%nat); [done..|by apply share_step_ok| |].
  - destruct (is_sync op); cbn [length] in Hk; lia.
  - eapply held_step; [done..|destruct (is_sync op); cbn [length] in Hk; lia|done].
Qed.

Lemma last_retired_some p rs c :
  c ∈ rs -> p c = true -> exists i c', last_retired p rs = Some i /\ rs !! i = Some c' /\ p c' = true.
Proof.
  intros Hc Hp. unfold last_retired. destruct (list_find (fun c => p c = true) (rev rs)) as [[i c']|] eqn:E.
  - apply list_find_Some in E as (Hi & Hp' & _). exists (length rs - 1 - i)%nat, c'. split_and!; [done| |done].
    rewrite rev_alt in Hi. change (rev_append rs []) with (reverse rs) in Hi.
    pose proof (lookup_lt_Some _ _ _ Hi) as Hlt. rewrite length_reverse in Hlt.
    rewrite reverse_lookup in Hi by done. by replace (length rs - 1 - i)%nat with (length rs - S i)%nat by lia.
  - apply list_find_None in E. exfalso. rewrite List.Forall_forall in E. apply (E c); [|done].
    apply in_rev. rewrite rev_involutive. by apply list_elem_of_In.
Qed.

Lemma select_held k c s conn :
  held k c s -> conn ∈ served_to c ->
  exists sel c', select_clip_files conn (Some (id c)) s = Some sel /\ selected sel s = Some c' /\ id c' = id c
    /\ exists c0, c0 ∈ lists s /\ same_list c c0.
Proof.
  intros H Hconn. unfold select_clip_files, lists. destruct (Z.eqb_spec (id (current s)) (id c)) as [E|E].
  { exists Current, (current s). split_and!; [done..|]. destruct H as [H|(l1 & c' & l2 & E' & H & _)].
    - exists (current s). split; [set_solver|done].
    - exists c'. rewrite E'. split; [set_solver|done]. }
  destruct H as [H|(l1 & c' & l2 & E' & H & _)]; [by rewrite (same_id _ _ H) in E|].
  destruct (last_retired_some (fun c0 => (id c0 =? id c) && has_served conn c0) (retired s) c') as (i & c'' & -> & Hi & Hp).
  { rewrite E'. set_solver. }
  { rewrite (same_id _ _ H), Z.eqb_refl. apply bool_decide_eq_true. by apply (same_served _ _ H). }
  apply andb_true_iff in Hp as [Hid%Z.eqb_eq _]. exists (Retired i), c''. split_and!; [done..|].
  exists c'. rewrite E'. split; [set_solver|done].
Qed.

Lemma nodup_fmap_inj {A B} (f : A -> B) (l : list A) x y : NoDup (f <$> l) -> x ∈ l -> y ∈ l -> f x = f y -> x = y.
Proof.
  intros Hn [i Hi]%list_elem_of_lookup [j Hj]%list_elem_of_lookup E. rewrite NoDup_alt in Hn.
  assert (i = j) as ->; [|congruence]. apply (Hn i j (f x)); rewrite list_lookup_fmap; [by rewrite Hi|by rewrite Hj, E].
Qed.

Lemma selected_in sel s c : selected sel s = Some c -> c ∈ lists s.
Proof.
  unfold lists. destruct sel as [|i]; cbn; [intros [= ->]; set_solver|]. intros H%list_elem_of_lookup_2. set_solver.
Qed.

(** A list that a connection was sent stays selected by its id while up to four other
    copies replace it, whatever else is sent and read meanwhile: the copy goes on being
    pasted.  Only two lists whose ids collide can be taken for one another. *)
Theorem sent_lists_are_kept ops later conn_id pdu s :
  Forall op_ok ops -> Forall op_ok later -> Clear ∉ later ->
  (length (List.filter is_sync later) <= MAX_RETIRED_CLIP_FILES)%nat ->
  get_file_list_pdu conn_id (foldl share_step at_start ops) = (pdu, s) -> pdu <> [] ->
  let s' := foldl share_step s later in
  exists sel c,
    select_clip_files conn_id (Some (id (current s))) s' = Some sel
    /\ selected sel s' = Some c /\ id c = id (current s)
    /\ (NoDup (id <$> lists s') -> files_pdu c = pdu /\ closed <$> file_list c = closed <$> file_list (current s)).
Proof.
  intros Hops Hlater Hcl Hn Hget Hne s'.
  assert (shared_ok s) as Hs.
  { pose proof (share_step_ok _ (Send conn_id) I (shared_always_ok ops _ Hops at_start_ok)) as H. cbn in H.
    by rewrite Hget in H. }
  assert (conn_id ∈ served_to (current s) /\ files_pdu (current s) = pdu) as [Hconn Hp].
  { revert Hget. generalize (foldl share_step at_start ops). intros s0. unfold get_file_list_pdu.
    destruct (files_pdu (current s0)) as [|b0 p0] eqn:E; intros [= <- <-]; [done|].
    destruct (has_served conn_id (current s0)) eqn:Ev; [by apply bool_decide_eq_true in Ev|].
    destruct (current s0). cbn in *. split; [set_solver|done]. }
  destruct (held_steps 0 (current s) s later conn_id Hlater Hcl Hconn Hs Hn) as (k & Hk); [by left|].
  destruct (select_held k _ _ _ Hk Hconn) as (sel & c & Hsel & Hc & Hid & c0 & Hc0 & Hsame).
  exists sel, c. split_and!; [done..|]. intros Hd. assert (c = c0) as ->.
  { apply (nodup_fmap_inj id (lists s')); [done|by eapply selected_in|done|]. by rewrite Hid, (same_id _ _ Hsame). }
  by rewrite (same_pdu _ _ Hsame), (same_files _ _ Hsame).
Qed.

(** ** What is accepted of the other end *)

Lemma parse_all_each ds conn_id list_id files :
  parse_all ds conn_id list_id = Ok files ->
  Forall2 (fun d f => parse_file_descriptor d conn_id list_id = Ok f) ds files.
Proof.
  revert files. induction ds as [|d ds IH]; intros files; cbn [parse_all]; [by intros [= <-]|].
  destruct (parse_file_descriptor d conn_id list_id) as [f|] eqn:E; [|done].
  destruct (parse_all ds conn_id list_id) as [fs|]; [|done]. intros [= <-]. constructor; [done|]. by apply IH.
Qed.

(** A list that is accepted has the descriptors that its first four bytes count, and nothing more. *)
Lemma chunks_exact_count fuel n d : (0 < n)%nat -> (length d <= fuel)%nat ->
  length (chunks_exact fuel n d) = (length d / n)%nat.
Proof.
  intros Hn. revert d. induction fuel as [|fuel IH]; intros d Hd; cbn [chunks_exact].
  { destruct d; [|cbn in Hd; lia]. cbn. by rewrite Nat.Div0.div_0_l. }
  destruct (Nat.ltb_spec (length d) n) as [Hlt|Hge]; cbn [length]; [by rewrite Nat.div_small|].
  rewrite IH by (rewrite length_drop; lia). rewrite length_drop.
  replace (length d) with ((length d - n) + 1 * n)%nat at 2 by lia. rewrite Nat.div_add by lia. lia.
Qed.

Lemma parse_list_inv pdu conn_id files :
  parse_file_descriptors pdu conn_id = Ok files ->
  (4 <= length pdu)%nat /\ Z.of_nat (length pdu) = 4 + 592 * le_value (take 4 pdu)
  /\ Forall2 (fun d f => parse_file_descriptor d conn_id (file_list_id pdu) = Ok f) (chunks 592 (drop 4 pdu)) files.
Proof.
  unfold parse_file_descriptors. destruct (Nat.ltb_spec (length pdu) 4) as [|H4]; [done|]. cbv zeta.
  rewrite length_drop.
  destruct (Nat.eqb_spec (length pdu - 4) 0) as [E|E], (Z.eqb_spec (le_value (take 4 pdu)) 0) as [E'|E']; cbn [andb].
  { intros [= <-]. split_and!; [done|lia|]. rewrite drop_ge by lia. constructor. }
  all: destruct (Z.eqb_spec (Z.of_nat (length pdu - 4)) (592 * le_value (take 4 pdu))); [|done]; cbn [negb];
    intros Hp%parse_all_each; (split_and!; [done|lia|done]).
Qed.

Lemma parse_list_length pdu conn_id files :
  parse_file_descriptors pdu conn_id = Ok files -> length pdu = (4 + 592 * length files)%nat.
Proof.
  intros (H4 & Hlen & Hf)%parse_list_inv. apply Forall2_length in Hf. revert Hf. unfold chunks.
  rewrite chunks_exact_count by lia. rewrite length_drop. intros Hf.
  assert (exists k, length pdu - 4 = k * 592)%nat as [k Hk].
  { exists (Z.to_nat (le_value (take 4 pdu))). lia. }
  rewrite Hk, Nat.div_mul in Hf by lia. lia.
Qed.

Lemma parse_descriptor_inv d conn_id list_id f :
  parse_file_descriptor d conn_id list_id = Ok f ->
  exists n s, position_of_zero (name_units d) = Some n /\ from_utf16le (take n (name_units d)) = Some s
    /\ name f = backslashes_to_slashes s /\ validate_file_name (name f) = Ok tt
    /\ conn_id = Filetype.conn_id f /\ list_id = clip_data_id f
    /\ Filetype.size f = Z.shiftl (u32_at d 64) 32 + u32_at d 68
    /\ kind f = if negb (Z.land (u32_at d 36) 16 =? 0) then Directory else File.
Proof.
  unfold parse_file_descriptor. destruct (position_of_zero (name_units d)) as [n|]; [|done].
  destruct (from_utf16le (take n (name_units d))) as [s|] eqn:Es; [|done].
  destruct (_ =? 0); [done|]. cbv zeta. destruct (validate_file_name _) as [[]|] eqn:Ev; [|done].
  intros [= <-]. by exists n, s.
Qed.

(** *** Names *)

Definition inside_name (nm : rstr) : Prop :=
  Forall (fun c => c <> [] /\ c <> DOT /\ c <> DOTDOT) (Str.split (Str.ch SEP) nm)
  /\ is_absolute nm = false /\ has_drive nm = false.

Lemma validate_inside nm : validate_file_name nm = Ok tt -> inside_name nm.
Proof.
  unfold validate_file_name. destruct (has_drive nm) eqn:Hd; [done|]. cbn [orb].
  destruct (existsb _ _) eqn:He; [done|]. destruct (validate_file_name_no_traversal nm) as [[]|] eqn:Ev; [|done].
  intros _. apply validate_name_ok in Ev as [Ha Hdd]. split; [|done]. apply List.Forall_forall. intros c Hc.
  apply not_true_iff_false in He. rewrite existsb_exists in He.
  assert (c <> [] /\ c <> DOT) as [H1 H2].
  { split; intros ->; apply He; eexists; (split; [exact Hc|]).
    - by rewrite bool_decide_eq_true_2.
    - by rewrite orb_comm, bool_decide_eq_true_2. }
  split_and!; [done..|]. rewrite List.Forall_forall in Hdd. apply Hdd. apply filter_In. split; [done|].
  unfold kept. by rewrite !bool_decide_eq_false_2.
Qed.

Lemma inside_pieces nm : inside_name nm -> pieces nm = Str.split (Str.ch SEP) nm.
Proof.
  intros [Hf _]. unfold pieces. induction Hf as [|c cs (H1 & H2 & _) Hcs IH]; [done|]. cbn [List.filter].
  unfold kept at 1. rewrite !bool_decide_eq_false_2 by done. cbn. by rewrite IH.
Qed.

(** C33 Every name of an accepted list is a path below wherever it is put: not empty, not
    absolute, without a drive, and none of its parts is empty, a dot or two dots; it
    holds no backslash.  The list is as long as its files say, and every file has its id. *)
Theorem pasted_names_stay_inside pdu conn files :
  parse_file_descriptors pdu conn = Ok files ->
  length pdu = (4 + 592 * length files)%nat
  /\ Forall (fun f =>
       inside_name (name f) /\ ~ (92 ∈ name f)
       /\ (forall base, pieces (PosixFs.join base (name f)) = pieces base ++ Str.split (Str.ch SEP) (name f))
       /\ Str.split (Str.ch SEP) (name f) <> []
       /\ conn_id f = conn /\ clip_data_id f = file_list_id pdu) files.
Proof.
  intros Hp. split; [by eapply parse_list_length|]. apply parse_list_inv in Hp as (_ & _ & Hf).
  apply List.Forall_forall. intros f Hin%list_elem_of_In.
  apply list_elem_of_lookup in Hin as [i Hi]. destruct (Forall2_lookup_r _ _ _ _ _ Hf Hi) as (d & _ & Hd).
  apply parse_descriptor_inv in Hd as (n & s & _ & _ & Hn & Hv & Hc & Hl & _).
  apply validate_inside in Hv. split_and!; [done..| | | |done|done].
  - rewrite Hn. unfold backslashes_to_slashes. intros (x & Hx & _)%list_elem_of_fmap.
    destruct (Z.eqb_spec x 92); [done|congruence].
  - intros base. rewrite pieces_join by apply Hv. by rewrite (inside_pieces (name f)).
  - apply Str.split_nonempty.
Qed.

(** *** The policy of the host *)

Lemma take_while_position us n :
  position_of_zero us = Some n -> take_while (fun u => negb (u =? 0)) us = take n us.
Proof.
  revert n. induction us as [|u us IH]; intros n; [done|]. cbn. destruct (u =? 0); [by intros [= <-]|].
  destruct (position_of_zero us) as [m|]; [|done]. intros [= <-]. cbn. by rewrite (IH m).
Qed.

Lemma utf16le_lossy us s : from_utf16le us = Some s -> from_utf16_lossy us = s.
Proof.
  remember (length us) as k eqn:Ek. assert (length us <= k)%nat as Hk by lia. clear Ek.
  revert us s Hk. induction k as [|k IH]; intros us s Hk.
  { destruct us; [|cbn in Hk; lia]. by intros [= <-]. }
  destruct us as [|u us]; [by intros [= <-]|]. cbn [from_utf16le from_utf16_lossy length] in *.
  destruct (is_high_surrogate u).
  - destruct us as [|v us]; [done|]. destruct (is_low_surrogate v); [|done].
    destruct (from_utf16le us) as [s'|] eqn:E; [|done]. intros [= <-]. rewrite (IH us s'); [done| |done]. cbn in Hk. lia.
  - destruct (is_low_surrogate u); [done|]. destruct (from_utf16le us) as [s'|] eqn:E; [|done].
    intros [= <-]. rewrite (IH us s'); [done|lia|done].
Qed.

Lemma slashes_split s : Str.split is_separator (backslashes_to_slashes s) = Str.split is_separator s.
Proof.
  induction s as [|c s IH]; [done|]. unfold backslashes_to_slashes in *. rewrite fmap_cons. cbn [Str.split].
  rewrite IH. by destruct (Z.eqb_spec c 92) as [->|].
Qed.

Lemma slashes_extension s configured :
  extension_blocked (backslashes_to_slashes s) configured = extension_blocked s configured.
Proof. unfold extension_blocked, normalized_extension, last_component. by rewrite slashes_split. Qed.

(** Both parsers see the same files. *)
Lemma descriptor_seen d conn list_id f configured :
  parse_file_descriptor d conn list_id = Ok f -> kind f = File ->
  is_file_descriptor d = true
  /\ extension_blocked (name f) configured = extension_blocked (FileScan.descriptor_name d) configured.
Proof.
  intros (n & s & Hn & Hs & Hname & _ & _ & _ & _ & Hk)%parse_descriptor_inv Hf. rewrite Hk in Hf. split.
  - unfold is_file_descriptor, CLIP_ATTRIBUTES_OFFSET, FILE_ATTRIBUTE_DIRECTORY. by destruct (Z.land _ 16 =? 0).
  - rewrite Hname, slashes_extension. f_equal. unfold FileScan.descriptor_name. symmetry.
    change (le_value <$> _) with (name_units d). rewrite (take_while_position _ n) by done. by apply utf16le_lossy.
Qed.

Lemma seen_files pdu conn files :
  parse_file_descriptors pdu conn = Ok files -> files <> [] ->
  clipboard_descriptor_files pdu
  = Some ((fun d => (FileScan.descriptor_name d, descriptor_size d))
            <$> List.filter is_file_descriptor (chunks CLIP_DESCRIPTOR_SIZE (drop CLIP_PDU_HEADER pdu))).
Proof.
  intros Hp Hne. pose proof (parse_list_length _ _ _ Hp) as Hl. apply parse_list_inv in Hp as (H4 & Hlen & _).
  unfold clipboard_descriptor_files, CLIP_PDU_HEADER, CLIP_DESCRIPTOR_SIZE.
  rewrite (proj2 (Nat.ltb_ge _ _)) by done. cbv zeta.
  assert (0 < length files)%nat by (destruct files; [done|cbn; lia]).
  rewrite (proj2 (Z.eqb_neq _ _)) by lia.
  replace (Z.of_nat (length pdu) =? _) with true; [done|]. symmetry. apply Z.eqb_eq. lia.
Qed.

(** A list that the filter lets through, as it is pasted. *)
Definition paste_permitted (o : Options) (direction : TransferDirection) (data : bytes) : Prop :=
  forall conn files, parse_file_descriptors data conn = Ok files ->
    Forall (fun f => kind f = File ->
      direction_allowed (file_direction_from (file_direction o)) direction = true
      /\ extension_blocked (name f) (file_blocked_ext o) = false) files.

Lemma unblocked_paste o direction data :
  (forall fs, clipboard_descriptor_files data = Some fs -> blocked_clipboard_file o direction fs = None) ->
  paste_permitted o direction data.
Proof.
  intros Hnone conn files Hp. destruct files as [|f0 fs]; [done|]. set (files := f0 :: fs) in *.
  specialize (Hnone _ (seen_files _ _ _ Hp ltac:(done))). apply parse_list_inv in Hp as (_ & _ & Hf).
  apply List.Forall_forall. intros f Hin%list_elem_of_In Hk.
  apply list_elem_of_lookup in Hin as [i Hi]. destruct (Forall2_lookup_r _ _ _ _ _ Hf Hi) as (d & Hd & Hpd).
  destruct (descriptor_seen _ _ _ _ (file_blocked_ext o) Hpd Hk) as [Hfd ->].
  assert (In d (List.filter is_file_descriptor (chunks CLIP_DESCRIPTOR_SIZE (drop CLIP_PDU_HEADER data)))) as Hin.
  { apply filter_In. split; [|done]. apply list_elem_of_In. by eapply list_elem_of_lookup_2. }
  revert Hnone Hin. generalize (List.filter is_file_descriptor (chunks CLIP_DESCRIPTOR_SIZE (drop CLIP_PDU_HEADER data))).
  intros ds Hnone Hin. unfold blocked_clipboard_file in Hnone. destruct (direction_allowed _ _); cbn [negb] in Hnone.
  - split; [done|]. apply fmap_None, find_is_none, Forall_fmap in Hnone. rewrite List.Forall_forall in Hnone. by apply Hnone.
  - by destruct ds.
Qed.

Lemma filtered_paste o direction clip flags data events :
  filter_clipboard_files o direction clip = (FormatDataResponse flags data, events) -> paste_permitted o direction data.
Proof.
  intros Hfil. destruct clip as [| | | |fl d| | | | |]; cbn in Hfil; try congruence.
  destruct (clipboard_descriptor_files d) as [fs'|] eqn:Ed; [destruct (blocked_clipboard_file o direction fs') eqn:Eb|].
  - injection Hfil as <- <- <-. intros conn files Hp. by apply parse_list_length in Hp.
  - injection Hfil as <- <- <-. apply unblocked_paste. congruence.
  - injection Hfil as <- <- <-. apply unblocked_paste. congruence.
Qed.

(** Files that the paste makes of a list that went through the filter are files that
    the policy lets through in that direction, each with the name that it gets on the disk:
    the filter and the paste read the same list.  A folder is not looked at. *)
Theorem pasted_files_passed_the_policy o direction clip events flags data conn files :
  filter_clipboard_files o direction clip = (FormatDataResponse flags data, events) ->
  parse_file_descriptors data conn = Ok files ->
  Forall (fun f => kind f = File ->
    direction_allowed (file_direction_from (file_direction o)) direction = true
    /\ extension_blocked (name f) (file_blocked_ext o) = false) files.
Proof. intros Hfil. by apply (filtered_paste o direction clip flags data events). Qed.

(** ** Examples *)

Definition A_TXT : rstr := Str.lit "/t/a.txt".

(** A file of three bytes, another time and another size of it, and what a folder named
    [/t/d] with a link to itself looks like to the system calls. *)
Definition a_file (len time : Z) : Meta := mkMeta len false true false 33188 (Some time).
Definition a_folder : Meta := mkMeta 4096 true false false 16877 (Some 0).

Definition one_file (len time : Z) (data : bytes) : World :=
  mkWorld (fun p => if bool_decide (p = A_TXT) then Some (a_file len time) else None) (fun _ => None)
    (fun p => if bool_decide (p = A_TXT) then Some 1 else None) (fun _ => data) (fun _ => Some (a_file len time)).

Definition nonce_of (b : Z) : bytes := repeat b 16.

Lemma one_file_ok len time data :
  Int.is_u 64 len -> time / 100 + LDAP_EPOCH_DELTA <= Int.umax 64 -> world_ok (one_file len time data).
Proof. intros Hl Ht p mt. cbn. case_bool_decide; [|done]. by intros [= <-]. Qed.

Lemma sync_one_ok b len time data :
  Int.is_u 64 len -> time / 100 + LDAP_EPOCH_DELTA <= Int.umax 64 ->
  op_ok (Sync (one_file len time data) (nonce_of b) [A_TXT]).
Proof. intros. split; [done|by apply one_file_ok]. Qed.

Definition first_copy : list ShareOp := [Sync (one_file 3 1050 [1; 2; 3]) (nonce_of 7) [A_TXT]].

Lemma first_copy_ok : Forall op_ok first_copy.
Proof. apply Forall_singleton. by apply sync_one_ok. Qed.

Lemma sent_list_is_read_back_witness :
  let '(pdu, _) := get_file_list_pdu 1 (foldl share_step at_start first_copy) in
  parse_file_descriptors pdu 9
  = Ok [mkDescription 9 (Str.lit "a.txt") File 1000 3 33188 (file_list_id pdu)].
Proof.
  pose proof (sent_list_is_read_back first_copy 1 9 first_copy_ok) as H. cbv zeta in H.
  destruct (get_file_list_pdu 1 (foldl share_step at_start first_copy)) as [pdu s'] eqn:E.
  destruct H as (_ & _ & H). assert (pdu = (get_file_list_pdu 1 (foldl share_step at_start first_copy)).1) as Hp by (by rewrite E).
  destruct H as [H _].
  - rewrite Hp. by vm_compute.
  - apply (bool_decide_unpack _). by vm_compute.
  - by vm_compute.
  - rewrite H. f_equal.
Defined.

(** Four copies after the one that connection 1 was sent. *)
Definition later_copies : list ShareOp :=
  [Sync (one_file 4 2000 [1; 2; 3; 4]) (nonce_of 8) [A_TXT]; Send 2;
   Read (one_file 4 2000 [1; 2; 3; 4]) 1 5 0 2 0 0 10 None;
   Sync (one_file 5 3000 []) (nonce_of 9) [A_TXT]; Send 2;
   Sync (one_file 6 4000 []) (nonce_of 10) [A_TXT]; Send 2; Sync (one_file 7 5000 []) (nonce_of 11) [A_TXT]].

Lemma later_copies_ok : Forall op_ok later_copies /\ Clear ∉ later_copies.
Proof.
  split; [|by intros H; repeat (apply elem_of_cons in H as [H|H]; [discriminate|]); apply elem_of_nil in H].
  repeat (apply Forall_cons; split); [..|done]; first [by apply sync_one_ok | done].
Qed.

Definition sent_first : bytes * Shared := get_file_list_pdu 1 (foldl share_step at_start first_copy).

Lemma sent_lists_are_kept_witness :
  match select_clip_files 1 (Some (id (current sent_first.2))) (foldl share_step sent_first.2 later_copies) with
  | Some sel => files_pdu <$> selected sel (foldl share_step sent_first.2 later_copies) = Some sent_first.1
  | None => False
  end.
Proof.
  destruct (sent_lists_are_kept first_copy later_copies 1 sent_first.1 sent_first.2 first_copy_ok
    (proj1 later_copies_ok) (proj2 later_copies_ok)) as (sel & c & -> & -> & _ & H).
  - by apply Nat.leb_le.
  - unfold sent_first. by destruct (get_file_list_pdu _ _).
  - by vm_compute.
  - cbn [fmap option_fmap option_map]. f_equal. apply H. apply (bool_decide_unpack _). by vm_compute.
Defined.

(** After one copy more the list is gone. *)
Example fifth_copy_drops_the_list :
  select_clip_files 1 (Some (id (current sent_first.2)))
    (foldl share_step sent_first.2 (later_copies ++ [Send 2; Sync (one_file 8 6000 []) (nonce_of 12) [A_TXT]])) = None.
Proof. by vm_compute. Qed.

Lemma pasted_names_stay_inside_witness :
  match parse_file_descriptors sent_first.1 9 with
  | Ok files => Forall (fun f => inside_name (name f)) files
  | Err _ => False
  end.
Proof.
  destruct (parse_file_descriptors sent_first.1 9) as [files|e] eqn:E; [|by vm_compute in E].
  destruct (pasted_names_stay_inside sent_first.1 9 files E) as [_ H].
  apply (Forall_impl _ _ _ H). by intros f [Hf _].
Defined.

Lemma pasted_files_passed_the_policy_witness :
  let o := mkOptions (Str.lit "block") [] (Str.lit "to-host") (Str.lit "exe") in
  filter_clipboard_files o TowardsHost (FormatDataResponse 1 sent_first.1) = (FormatDataResponse 1 sent_first.1, [])
  /\ extension_blocked (Str.lit "a.txt") (Str.lit "exe") = false.
Proof.
  split; [by vm_compute|].
  destruct (parse_file_descriptors sent_first.1 9) as [files|e] eqn:E; [|by vm_compute in E].
  assert (name <$> files = [Str.lit "a.txt"] /\ kind <$> files = [File]) as [En Ek].
  { vm_compute in E. injection E as <-. by vm_compute. }
  pose proof (pasted_files_passed_the_policy (mkOptions (Str.lit "block") [] (Str.lit "to-host") (Str.lit "exe"))
    TowardsHost (FormatDataResponse 1 sent_first.1) [] 1 sent_first.1 9 files ltac:(by vm_compute) E) as H.
  destruct files as [|f [|]]; [done| |done]. injection En as En. injection Ek as Ek.
  apply Forall_inv in H. rewrite <- En. by apply H.
Defined.

(** *** What the code does not do *)

(** A file whose name has a backslash is listed, and the other end reads another name: here one that
    ends with a slash, for which it refuses the whole list. *)
Example backslash_spoils_the_list :
  let nm := Str.lit "/t/a" ++ [92] in
  let w := mkWorld (fun _ => Some (a_file 1 0)) (fun _ => None) (fun _ => None) (fun _ => []) (fun _ => None) in
  let s := share_step at_start (Sync w (nonce_of 1) [A_TXT; nm]) in
  length (file_list (current s)) = 2%nat
  /\ parse_file_descriptors (get_file_list_pdu 1 s).1 9 = Err InvalidRequest.
Proof. by vm_compute. Qed.

(** A folder that links to itself has no path twice: the walk goes on until the system has
    enough of the links, and then nothing is listed. *)
Definition loop_path (links : nat) : rstr := Str.lit "/t/d" ++ concat (repeat (Str.lit "/l") links).
Definition looped : World :=
  mkWorld (fun p => if bool_decide (p ∈ loop_path <$> seq 0 41) then Some a_folder else None)
    (fun _ => Some [Some (Str.lit "l")]) (fun _ => None) (fun _ => []) (fun _ => None).

Example link_loop_is_not_stopped : construct_file_list looped [Str.lit "/t/d"] = Err FileError.
Proof. by vm_compute. Qed.

(** A file is marked hidden only when its whole path starts with a dot. *)
Example hidden_file_is_not_marked :
  match construct_file_list (mkWorld (fun _ => Some (a_file 1 0)) (fun _ => None) (fun _ => None) (fun _ => []) (fun _ => None))
          [Str.lit "/home/u/.secret"] with
  | Ok files => hidden <$> files = [false]
  | Err _ => False
  end.
Proof. by vm_compute. Qed.
