(* ===== verification/FileServe.v ===== *)
(** * The contents of the copied files

    [serv_files.rs] reads the files of a list through buffered readers that it keeps open,
    moves, closes and opens in advance; here that is equal to reading each range alone. *)

From coqutil Require Import Datatypes.RecordSetters.
From S2P Require Import Prelude PosixFs FileTransfer SessionScope FileScan FileClipboard.
Import Filetype LocalFiles ServFiles.

#[local] Arguments constant {E} newValue _ /.
#[local] Hint Resolve same_list_refl : core.

(** ** Contents *)

(** The bytes of a file from an offset on, all that is asked for or none: [pread]. *)
Definition pread (b : bytes) (offset n : Z) : option bytes :=
  if n <=? 0 then Some [] else if offset + n <=? zlen b then Some (zslice b offset n) else None.

(** Where the next byte of a reader comes from. *)
Definition position (r : Reader) : Z := at_ r - zlen (ahead r).

Definition reader_ok (b : bytes) (r : Reader) : Prop :=
  0 <= position r /\ ahead r = zslice b (position r) (zlen (ahead r)).

Lemma zlen_nonneg b : 0 <= zlen b.
Proof. unfold zlen. lia. Qed.

Lemma zlen_slice b p n : 0 <= p -> 0 <= n -> zlen (zslice b p n) = Z.max 0 (Z.min n (zlen b - p)).
Proof. intros Hp Hn. unfold zlen, zslice. rewrite length_take, length_drop. lia. Qed.

Lemma zslice_add b p m n : 0 <= p -> 0 <= m -> 0 <= n -> zslice b p (m + n) = zslice b p m ++ zslice b (p + m) n.
Proof.
  intros Hp Hm Hn. unfold zslice. rewrite !Z2Nat.inj_add by lia. rewrite <- drop_drop. symmetry. apply take_take_drop.
Qed.

Lemma zslice_whole b p n : 0 <= p -> 0 <= n -> zslice b p (zlen (zslice b p n)) = zslice b p n.
Proof.
  intros Hp Hn. rewrite zlen_slice by done. unfold zslice, zlen.
  destruct (Z.le_gt_cases n (Z.of_nat (length b) - p)); [f_equal; lia|].
  rewrite !take_ge by (rewrite length_drop; lia). done.
Qed.

Lemma zslice_prefix b p m n :
  0 <= p -> 0 <= m -> 0 <= n -> zslice (zslice b p m) 0 n = zslice b p (Z.min m n).
Proof. intros Hp Hm Hn. unfold zslice. rewrite drop_0, take_take. f_equal. lia. Qed.

Lemma drop_zslice b p m n :
  0 <= p -> 0 <= m -> 0 <= n -> drop (Z.to_nat n) (zslice b p m) = zslice b (p + n) (m - n).
Proof.
  intros Hp Hm Hn. unfold zslice. rewrite skipn_firstn_comm, drop_drop.
  rewrite Z2Nat.inj_add by lia. f_equal. lia.
Qed.

Lemma reader_ok_seek b r o : 0 <= o -> reader_ok b (seek r o) /\ position (seek r o) = o /\ inode (seek r o) = inode r.
Proof. intros Ho. unfold reader_ok, position, zlen. cbn. by rewrite Z.sub_0_r. Qed.

Lemma capacity_pos : 0 < CAPACITY.
Proof. done. Qed.

Lemma refill_ahead w r : ahead (refill w r) = zslice (file_bytes w (inode r)) (at_ r) CAPACITY.
Proof. done. Qed.

Lemma refill_ok w r :
  0 <= at_ r -> reader_ok (file_bytes w (inode r)) (refill w r) /\ position (refill w r) = at_ r.
Proof.
  intros Hr. unfold reader_ok, position, refill. cbn [ahead at_].
  replace (_ + _ - _) with (at_ r) by lia. split_and!; [done| |done].
  pose proof capacity_pos. rewrite zslice_whole; [done|done|lia].
Qed.

(** What is read ahead is taken from. *)
Lemma consume_ok w r n :
  let b := file_bytes w (inode r) in
  reader_ok b r -> 0 <= n ->
  let got := zslice (ahead r) 0 n in
  let r' := mkReader (inode r) (drop (Z.to_nat (zlen got)) (ahead r)) (at_ r) in
  got = zslice b (position r) (zlen got) /\ reader_ok b r' /\ position r' = position r + zlen got.
Proof.
  intros b [Hp Ha] Hn got r'. pose proof (zlen_nonneg (ahead r)) as Hl.
  assert (zlen got = Z.min n (zlen (ahead r))) as Hg by (subst got; rewrite zlen_slice; lia).
  assert (position r' = position r + zlen got) as Hpos.
  { unfold position. subst r'. cbn [at_ ahead]. unfold zlen at 1. rewrite length_drop. unfold zlen in *. lia. }
  split_and!; [|split|done].
  - subst got. rewrite Ha at 1. rewrite zslice_prefix by lia. by rewrite Z.min_comm, <- Hg.
  - lia.
  - assert (zlen (ahead r') = zlen (ahead r) - zlen got) as Hd.
    { subst r'. cbn [ahead]. unfold zlen at 1. rewrite length_drop. unfold zlen in *. lia. }
    rewrite Hpos, Hd. subst r'. cbn [ahead]. rewrite Ha at 1. by rewrite drop_zslice by lia.
Qed.

(** What a read of [n] bytes at [pos] yields. *)
Definition read_at (b : bytes) (ino pos n : Z) (acc : bytes) (res : option (bytes * Reader)) : Prop :=
  match res with
  | Some (buf, r) =>
      (exists x, pread b pos n = Some x /\ buf = acc ++ x)
      /\ reader_ok b r /\ position r = pos + Z.max 0 n /\ inode r = ino
  | None => pread b pos n = None
  end.

Lemma pread_beyond b pos n : 0 <= pos -> 0 < n -> zslice b pos n = [] -> pread b pos n = None.
Proof.
  intros Hp Hn E. pose proof (zlen_slice b pos n Hp ltac:(lia)) as Hl. rewrite E in Hl. change (zlen []) with 0 in Hl.
  unfold pread. destruct (Z.leb_spec n 0); [lia|]. destruct (Z.leb_spec (pos + n) (zlen b)); [lia|done].
Qed.

Lemma pread_more b pos m n :
  0 <= pos -> 0 <= m -> m <= n -> zlen (zslice b pos m) = m ->
  pread b pos n = app (zslice b pos m) <$> pread b (pos + m) (n - m).
Proof.
  intros Hp Hm Hn Hl. rewrite zlen_slice in Hl by lia. unfold pread.
  destruct (Z.leb_spec (n - m) 0), (Z.leb_spec n 0); cbn.
  - replace m with 0 by lia. unfold zslice. by rewrite take_0.
  - assert (m = n) as -> by lia. rewrite app_nil_r. destruct (Z.leb_spec (pos + n) (zlen b)); [done|lia].
  - lia.
  - replace (pos + m + (n - m)) with (pos + n) by lia. destruct (_ <=? _); [|done]. cbn. f_equal.
    rewrite <- zslice_add by lia. f_equal. lia.
Qed.

(** A read goes on after what it got. *)
Lemma read_at_more b ino pos n acc got res :
  0 <= pos -> got = zslice b pos (zlen got) -> zlen got <= n ->
  read_at b ino (pos + zlen got) (n - zlen got) (acc ++ got) res -> read_at b ino pos n acc res.
Proof.
  intros Hp Hg Hn. pose proof (zlen_nonneg got) as Hl.
  pose proof (pread_more b pos (zlen got) n Hp Hl Hn ltac:(by rewrite <- Hg)) as E. rewrite <- Hg in E.
  destruct res as [[buf r]|]; cbn [read_at].
  - intros ((x & Ex & ->) & Hr & Hpos & Hi). split_and!; [|done|lia|done].
    exists (got ++ x). rewrite E, Ex, app_assoc. done.
  - intros Ex. by rewrite E, Ex.
Qed.

Lemma read_loop_at w fuel r n acc :
  let b := file_bytes w (inode r) in
  reader_ok b r -> n < Z.of_nat fuel -> read_at b (inode r) (position r) n acc (read_loop fuel w r n acc).
Proof.
  revert r n acc. induction fuel as [|fuel IH]; intros r n acc b Hr Hn; cbn [read_loop].
  { destruct (Z.leb_spec n 0); [|lia]. cbn [read_at]. unfold pread. rewrite (proj2 (Z.leb_le _ _)) by done.
    split_and!; [exists []; by rewrite app_nil_r|done|lia|done]. }
  destruct (Z.leb_spec n 0) as [Hn0|Hn0].
  { cbn [read_at]. unfold pread. rewrite (proj2 (Z.leb_le _ _)) by done.
    split_and!; [exists []; by rewrite app_nil_r|done|lia|done]. }
  assert (forall r0, inode r0 = inode r -> reader_ok b r0 -> position r0 = position r -> ahead r0 <> [] ->
    let got := zslice (ahead r0) 0 n in
    read_at b (inode r) (position r) n acc
      (read_loop fuel w (mkReader (inode r0) (drop (Z.to_nat (zlen got)) (ahead r0)) (at_ r0)) (n - zlen got) (acc ++ got)))
    as Htake.
  { intros r0 Hi Hr0 Hpos Hne got. subst b. rewrite <- Hi in Hr0 |- *.
    destruct (consume_ok w r0 n Hr0 ltac:(lia)) as (Hg & Hr' & Hp'). fold got in Hg, Hr', Hp'. rewrite <- Hpos.
    assert (zlen got = Z.min n (zlen (ahead r0))) as Hl.
    { subst got. pose proof (zlen_nonneg (ahead r0)). rewrite zlen_slice; lia. }
    assert (0 < zlen (ahead r0)) by (unfold zlen; destruct (ahead r0); [done|cbn [length]; lia]).
    eapply read_at_more; [by apply Hr0|exact Hg|lia|]. rewrite <- Hp'. apply (IH (mkReader (inode r0) _ (at_ r0))); [done|lia]. }
  destruct (ahead r) as [|x xs] eqn:Ea; [|rewrite <- Ea; apply Htake; [done..|by rewrite Ea]].
  assert (position r = at_ r) as Hpos by (unfold position; rewrite Ea; unfold zlen; cbn [length]; lia).
  pose proof (proj1 Hr) as Hp0. destruct (Z.leb_spec CAPACITY n) as [Hc|Hc].
  - destruct (zslice (file_bytes w (inode r)) (at_ r) n) as [|y ys] eqn:Eg.
    { cbn [read_at]. apply pread_beyond; [done..|]. by rewrite Hpos. }
    rewrite <- Eg. set (got := zslice _ _ _) in *. rewrite Hpos in Hp0 |- *.
    assert (zlen got <= n /\ 0 < zlen got) as [Hl Hl'].
    { split; [subst got; rewrite zlen_slice; lia|rewrite Eg; unfold zlen; cbn [length]; lia]. }
    eapply (read_at_more b _ (at_ r) n acc got); [done|subst got; by rewrite zslice_whole by lia|done|].
    set (r' := mkReader (inode r) [] (at_ r + zlen got)).
    assert (position r' = at_ r + zlen got) as Hp' by (unfold position, r', zlen; cbn [at_ ahead length]; lia).
    rewrite <- Hp'. apply (IH r'); [|lia]. split; [lia|done].
  - destruct (refill_ok w r ltac:(lia)) as [Hr' Hp']. cbv zeta.
    destruct (ahead (refill w r)) as [|y ys] eqn:Eg.
    + cbn [read_at]. apply pread_beyond; [done..|]. rewrite Hpos.
      rewrite refill_ahead in Eg. pose proof capacity_pos.
      pose proof (zlen_slice b (at_ r) CAPACITY ltac:(lia) ltac:(lia)) as E. unfold b in E at 1. rewrite Eg in E.
      change (zlen []) with 0 in E. apply length_zero_iff_nil.
      pose proof (zlen_slice b (at_ r) n ltac:(lia) ltac:(lia)) as E'. unfold zlen at 1 in E'. lia.
    + rewrite <- Eg. apply Htake; [done|done|lia|by rewrite Eg].
Qed.

(** What is open of a file is at its offset; a file that is not open starts at 0. *)
Definition file_ok (w : World) (f : LocalFile) : Prop :=
  match handle f with
  | None => LocalFiles.offset f = 0
  | Some r => is_dir f = false /\ open_file w (path f) = Some (inode r)
              /\ reader_ok (file_bytes w (inode r)) r /\ position r = LocalFiles.offset f
  end.

(** What is answered, by the list alone. *)
Definition reference_read (w : World) (f : LocalFile) (offset n : Z) : result bytes CliprdrError :=
  if is_dir f then Err FileError
  else match open_file w (path f) ≫= fun ino => pread (file_bytes w ino) offset n with
       | Some buf => Ok buf
       | None => Err FileError
       end.

Definition reference (w : World) (files : list LocalFile) (r : FileContentsRequest) : result bytes CliprdrError :=
  match (if index_of r <? Z.of_nat (length files) then files !! Z.to_nat (index_of r) else None) with
  | None => Err InvalidRequest
  | Some f =>
      match r with
      | Size _ _ => Ok (le_field 8 (LocalFiles.size f))
      | Range _ _ offset n =>
          if LocalFiles.size f <? offset then Err InvalidRequest
          else if MAX_RANGE_READ <? Z.min n (LocalFiles.size f - offset) then Err InvalidRequest
          else reference_read w f offset (Z.min n (LocalFiles.size f - offset))
      end
  end.

Definition request_ok (r : FileContentsRequest) : Prop :=
  0 <= index_of r /\ match r with Size _ _ => True | Range _ _ offset n => 0 <= offset /\ 0 <= n end.

Lemma load_handle_ok w f :
  file_ok w f ->
  match load_handle w f with
  | Ok f' =>
      file_ok w f' /\ closed f' = closed f /\ LocalFiles.offset f' = LocalFiles.offset f
      /\ match handle f' with
         | Some r => is_dir f = false /\ open_file w (path f) = Some (inode r)
         | None => is_dir f = true
         end
  | Err e => e = FileError /\ is_dir f = false /\ open_file w (path f) = None
  end.
Proof.
  intros Hf. unfold load_handle. destruct (is_dir f) eqn:Ed; cbn [negb andb].
  { split_and!; [done..|]. destruct (handle f) eqn:E; [|done]. unfold file_ok in Hf. rewrite E in Hf. naive_solver. }
  case_bool_decide as Hh; cbn [negb].
  { destruct Hh as [r E]. rewrite E. split_and!; [done..|]. unfold file_ok in Hf. rewrite E in Hf. naive_solver. }
  destruct (open_file w (path f)) as [ino|] eqn:Eo; [|done].
  destruct (refill_ok w (mkReader ino [] 0) ltac:(done)) as [Hr Hp].
  unfold file_ok in *. destruct f as [p h o nm sz t d pm ro hd no]; cbn -[refill] in *.
  destruct h; [by destruct Hh|]. split_and!; try done. by rewrite Hp, Hf.
Qed.

Lemma read_exact_ok w r n :
  reader_ok (file_bytes w (inode r)) r ->
  read_at (file_bytes w (inode r)) (inode r) (position r) n [] (read_exact w r n).
Proof. intros Hr. apply read_loop_at; [done|lia]. Qed.

Lemma read_exact_at_ok w f n o :
  file_ok w f -> 0 <= o -> 0 <= n -> o + n <= LocalFiles.size f -> Int.is_u 64 (LocalFiles.size f) ->
  (read_exact_at w f n o).1 = reference_read w f o n
  /\ file_ok w (read_exact_at w f n o).2.
Proof.
  intros Hf Ho Hn Hs Hu. unfold read_exact_at, reference_read.
  pose proof (load_handle_ok w f Hf) as Hl. destruct (load_handle w f) as [f'|e].
  2: { destruct Hl as (-> & -> & ->). done. }
  destruct Hl as (Hf' & Hc & Hoff & Hh). unfold file_ok in Hf'.
  assert (LocalFiles.size f' = LocalFiles.size f /\ path f' = path f /\ is_dir f' = is_dir f) as (Hsz & Hpath & Hdir).
  { destruct f, f'. unfold closed in Hc. cbn in Hc. injection Hc. naive_solver. }
  destruct (handle f') as [r|] eqn:Er; [|rewrite Hh; split; [done|unfold file_ok; cbn [snd]; by rewrite Er]].
  destruct Hh as [-> Eo]. destruct Hf' as (Hd & Eo' & Hr & Hp). rewrite Eo.
  set (r0 := if o =? LocalFiles.offset f' then r else seek r o).
  assert (reader_ok (file_bytes w (inode r)) r0 /\ position r0 = o /\ inode r0 = inode r) as (Hr0 & Hp0 & Hi0).
  { subst r0. destruct (Z.eqb_spec o (LocalFiles.offset f')) as [->|_]; [done|by apply reader_ok_seek]. }
  pose proof (read_exact_ok w r0 n) as Hx. rewrite Hi0, Hp0 in Hx. specialize (Hx Hr0). cbn [mbind option_bind].
  destruct (read_exact w r0 n) as [[buf r']|]; cbn [read_at] in Hx.
  2: { rewrite Hx. split; [done|]. unfold file_ok. by destruct f'. }
  destruct Hx as ((x & -> & ->) & Hr' & Hp' & Hi'). cbn [app].
  unfold Int.wrap. rewrite Z.mod_small by (unfold Int.is_u, Int.umax in Hu; lia).
  destruct (Z.leb_spec (LocalFiles.size f') (o + n)) as [Hend|Hmore].
  - split; [done|]. unfold file_ok. by destruct f'.
  - split; [done|]. unfold file_ok. destruct f'; cbn in *. rewrite Hi', Hpath. split_and!; [done..|lia].
Qed.

Lemma preload_ok w fs : Forall (file_ok w) fs -> Forall (file_ok w) (preload w fs).
Proof.
  induction 1 as [|f fs Hf Hfs IH]; [done|]. cbn [preload]. destruct (is_dir f); [by constructor|].
  pose proof (load_handle_ok w f Hf) as Hl. destruct (load_handle w f) as [f'|]; [|by constructor].
  constructor; [apply Hl|done].
Qed.

Lemma preload_after_ok w idx c : Forall (file_ok w) (file_list c) -> Forall (file_ok w) (file_list (preload_after w idx c)).
Proof.
  intros H. destruct c. cbn -[take drop]. cbn [file_list] in H.
  apply Forall_app. split; [by apply Forall_take|]. by apply preload_ok, Forall_drop.
Qed.

Lemma put_file_ok w idx f c :
  Forall (file_ok w) (file_list c) -> file_ok w f -> Forall (file_ok w) (file_list (put_file idx f c)).
Proof. intros H Hf. destruct c. cbn. by apply Forall_insert. Qed.

Lemma served_size n m : (if m <? n then m else n) = Z.min n m.
Proof. destruct (Z.ltb_spec m n); lia. Qed.

Lemma serve_ok w r c :
  Forall listed (file_list c) -> Forall (file_ok w) (file_list c) -> request_ok r ->
  (serve_file_contents w r c).1 = reference w (file_list c) r
  /\ Forall (file_ok w) (file_list (serve_file_contents w r c).2).
Proof.
  intros Hl Hf [Hi Hr]. unfold serve_file_contents, reference, get_file.
  destruct (_ <? Z.of_nat _); [|done]. destruct (file_list c !! _) as [f|] eqn:E; [|done].
  destruct r as [? idx|? idx o n]; [split; [done|by apply preload_after_ok]|].
  pose proof (proj1 (Forall_lookup _ _) Hl _ _ E) as [_ _ Hsize _].
  pose proof (proj1 (Forall_lookup _ _) Hf _ _ E) as Hff.
  destruct (Z.ltb_spec (LocalFiles.size f) o) as [|Ho]; [done|]. cbv zeta. rewrite served_size.
  destruct (MAX_RANGE_READ <? _); [done|].
  destruct (read_exact_at_ok w f (Z.min n (LocalFiles.size f - o)) o) as [Hres Hok]; [done|lia..|done|].
  destruct (read_exact_at w f _ o) as [res f']. cbn [fst snd] in *. rewrite <- Hres.
  destruct res; (split; [done|]); cbn [snd]; [apply preload_after_ok|]; by apply put_file_ok.
Qed.

(** Requests of a list one after the other. *)
Fixpoint serve_all (w : World) (rs : list FileContentsRequest) (c : ClipFiles) : list (result bytes CliprdrError) :=
  match rs with
  | [] => []
  | r :: rs => let '(res, c) := serve_file_contents w r c in res :: serve_all w rs c
  end.

(** The [m] pieces of [k] bytes of the [i]-th file. *)
Definition piece_requests (i k : Z) (m : nat) : list FileContentsRequest :=
  (fun j => Range 0 i (Z.of_nat j * k) k) <$> seq 0 m.

Definition contents (rs : list (result bytes CliprdrError)) : bytes :=
  rs ≫= fun r => match r with Ok b => b | Err _ => [] end.

Lemma reference_closed w l l' r : closed <$> l = closed <$> l' -> reference w l r = reference w l' r.
Proof.
  intros E. pose proof (f_equal length E) as Hl. rewrite !length_fmap in Hl. unfold reference. rewrite Hl.
  destruct (_ <? _); [|done]. pose proof (f_equal (.!! Z.to_nat (index_of r)) E) as Hi. cbn in Hi.
  rewrite !list_lookup_fmap in Hi. destruct (l !! _) as [f|], (l' !! _) as [f'|]; try done. apply (inj Some) in Hi.
  assert (LocalFiles.size f = LocalFiles.size f' /\ path f = path f' /\ is_dir f = is_dir f') as (Hs & Hp & Hd).
  { destruct f, f'. unfold closed in Hi. cbn in Hi. injection Hi. naive_solver. }
  unfold reference_read. by rewrite Hs, Hp, Hd.
Qed.

Lemma serve_all_reference w rs c :
  Forall listed (file_list c) -> Forall (file_ok w) (file_list c) -> Forall request_ok rs ->
  serve_all w rs c = reference w (file_list c) <$> rs.
Proof.
  intros Hl Hf Hrs. revert c Hl Hf. induction Hrs as [|r rs Hr Hrs IH]; intros c Hl Hf; [done|].
  cbn [serve_all]. destruct (serve_ok w r c Hl Hf Hr) as [Hres Hok]. pose proof (same_serve w r c) as Hs.
  destruct (serve_file_contents w r c) as [res c']. cbn [fst snd] in *. subst res. rewrite fmap_cons. f_equal.
  rewrite IH; [|by apply (same_listed c)|done]. apply list_fmap_ext. intros i x _. apply reference_closed, (same_files _ _ Hs).
Qed.

Lemma le_field_zlen n z : zlen (le_field n z) = Z.of_nat n.
Proof. unfold zlen. by rewrite le_field_length. Qed.

Lemma reference_bound w l r data : request_ok r -> reference w l r = Ok data -> zlen data <= MAX_RANGE_READ.
Proof.
  intros [_ Hr]. unfold reference. destruct (if _ : bool then _ else _) as [f|]; [|done].
  destruct r as [? idx|? idx o n]; [intros E; assert (data = le_field 8 (LocalFiles.size f)) as -> by congruence; by rewrite le_field_zlen|].
  destruct (Z.ltb_spec (LocalFiles.size f) o); [done|].
  destruct (Z.ltb_spec MAX_RANGE_READ (Z.min n (LocalFiles.size f - o))); [done|].
  unfold reference_read, pread. destruct (is_dir f); [done|]. destruct (open_file w (path f)) as [ino|]; [|done].
  cbn [mbind option_bind]. destruct (Z.leb_spec (Z.min n (LocalFiles.size f - o)) 0); [by intros [= <-]|].
  destruct (_ <=? _); [|done]. intros [= <-]. rewrite zlen_slice by lia. lia.
Qed.

Lemma zslice_min b p n : 0 <= p -> 0 <= n -> p <= zlen b -> zslice b p (Z.min n (zlen b - p)) = zslice b p n.
Proof.
  intros Hp Hn Hb. destruct (Z.le_gt_cases n (zlen b - p)); [f_equal; lia|].
  unfold zslice, zlen in *. rewrite !take_ge by (rewrite length_drop; lia). done.
Qed.

(** The piece at an offset of a file that did not change. *)
Lemma reference_piece w l i f ino o k :
  0 <= i -> l !! Z.to_nat i = Some f -> is_dir f = false -> open_file w (path f) = Some ino ->
  zlen (file_bytes w ino) = LocalFiles.size f -> 0 <= o <= LocalFiles.size f -> 0 <= k <= MAX_RANGE_READ ->
  reference w l (Range 0 i o k) = Ok (zslice (file_bytes w ino) o k).
Proof.
  intros Hi Hf Hd Ho Hz Hoff Hk. unfold reference. cbn [index_of]. pose proof (lookup_lt_Some _ _ _ Hf).
  rewrite (proj2 (Z.ltb_lt _ _)) by lia. rewrite Hf. rewrite (proj2 (Z.ltb_ge _ _)) by lia.
  rewrite (proj2 (Z.ltb_ge _ _)) by lia. unfold reference_read, pread. rewrite Hd, Ho. cbn [mbind option_bind].
  rewrite <- Hz in *. rewrite <- (zslice_min _ o k) by lia. set (m := Z.min k _).
  destruct (Z.leb_spec m 0).
  - assert (m = 0) as -> by lia. unfold zslice. by rewrite take_0.
  - rewrite (proj2 (Z.leb_le _ _)) by lia. done.
Qed.

Lemma seq_snoc m : seq 0 (S m) = seq 0 m ++ [m].
Proof. by rewrite seq_S. Qed.

Lemma pieces_contents w l i f ino k m :
  0 <= i -> l !! Z.to_nat i = Some f -> is_dir f = false -> open_file w (path f) = Some ino ->
  zlen (file_bytes w ino) = LocalFiles.size f -> 0 < k <= MAX_RANGE_READ ->
  (Z.of_nat m - 1) * k <= LocalFiles.size f ->
  contents (reference w l <$> piece_requests i k m) = zslice (file_bytes w ino) 0 (Z.of_nat m * k).
Proof.
  intros Hi Hf Hd Ho Hz Hk. induction m as [|m IH]; intros Hm; [done|].
  unfold piece_requests, contents in *. rewrite seq_snoc, !fmap_app, bind_app, IH by lia. cbn -[Z.of_nat Z.mul Z.add reference].
  rewrite (reference_piece w l i f ino) by (done || lia). rewrite app_nil_r.
  replace (Z.of_nat (S m) * k) with (Z.of_nat m * k + k) by lia. by rewrite zslice_add, Z.add_0_l by lia.
Qed.

(** C29 The contents of the files of a list that was just made are answered as if each
    range were read from its file alone, in any order and whatever was asked before: what
    is read ahead, kept open and opened in advance makes no difference.  No answer has more than
    16 MiB, and the pieces of a file that did not change are the file. *)
Theorem served_contents_are_reads w0 w paths sigs c rs :
  world_ok w0 -> sync_clip_files w0 paths sigs = Ok c -> Forall request_ok rs ->
  serve_all w rs c = reference w (file_list c) <$> rs
  /\ Forall (fun res => match res with Ok data => zlen data <= MAX_RANGE_READ | Err _ => True end) (serve_all w rs c)
  /\ (forall i k m f ino,
        0 <= i -> file_list c !! Z.to_nat i = Some f -> is_dir f = false -> open_file w (path f) = Some ino ->
        zlen (file_bytes w ino) = LocalFiles.size f -> 0 < k <= MAX_RANGE_READ ->
        (Z.of_nat m - 1) * k <= LocalFiles.size f <= Z.of_nat m * k ->
        contents (serve_all w (piece_requests i k m) c) = file_bytes w ino).
Proof.
  intros Hw Hs Hrs. unfold sync_clip_files in Hs. destruct (construct_file_list w0 paths) as [fs|] eqn:Ec; [|done].
  injection Hs as <-. cbn [file_list].
  assert (Forall listed fs) as Hl by (by apply (construct_listed w0 paths)).
  assert (Forall (file_ok w) fs) as Hf.
  { apply (construct_all _ w0 paths); [|done]. intros root p f. unfold try_open.
    destruct (validated_descriptor_name root p); [|done]. destruct (metadata w0 p); [|done]. by intros [= <-]. }
  split; [by apply serve_all_reference|]. split.
  - rewrite serve_all_reference by done. apply Forall_fmap, (Forall_impl _ _ _ Hrs). intros r Hr.
    cbn. destruct (reference w fs r) as [data|] eqn:E; [|done]. by apply (reference_bound w fs r).
  - intros i k m f ino Hi Hf' Hd Ho Hz Hk Hm. rewrite serve_all_reference; [|done..|].
    + rewrite (pieces_contents w fs i f ino) by (done || lia). unfold zslice. cbn [drop Z.to_nat].
      apply take_ge. unfold zlen in Hz. lia.
    + apply Forall_fmap, Forall_true. intros j. split; cbn; lia.
Qed.

(** ** Examples *)

Definition first_list : ClipFiles :=
  match sync_clip_files (one_file 3 1050 [1; 2; 3]) [A_TXT] [] with Ok c => c | Err _ => no_files end.

Lemma served_contents_are_reads_witness :
  contents (serve_all (one_file 3 1050 [1; 2; 3]) (piece_requests 0 2 2) first_list) = [1; 2; 3].
Proof.
  destruct (served_contents_are_reads (one_file 3 1050 [1; 2; 3]) (one_file 3 1050 [1; 2; 3]) [A_TXT] [] first_list []
    (one_file_ok 3 1050 [1; 2; 3] ltac:(done) ltac:(done)) ltac:(by vm_compute) ltac:(constructor)) as (_ & _ & H).
  destruct (file_list first_list !! 0%nat) as [f|] eqn:Ef; [|by vm_compute in Ef].
  assert (is_dir f = false /\ path f = A_TXT /\ LocalFiles.size f = 3) as (Hd & Hpath & Hsz).
  { vm_compute in Ef. injection Ef as <-. by vm_compute. }
  apply (H 0 2 2%nat f 1); try done.
  - rewrite Hpath. by vm_compute.
  - by rewrite Hsz.
Defined.
