(* ===== verification/Services.v ===== *)
(** * Services and their subscribers: [src/server/service.rs], [Server] of
      [src/server.rs]

    A service sends its messages to the connections that subscribe to it; a service that
    [need_snapshot]s keeps a newcomer aside until its thread has sent it what it would
    have missed.  The server holds the services by name and subscribes connections to
    them.  A subscriber is its connection's id, a delivery the id and the message; what
    the threads of the services do between the locks is a sequence of events. *)

From coqutil Require Import Datatypes.RecordSetters.
From S2P Require Import Prelude.
Import TriangleBracketNotations.

#[local] Arguments constant {E} newValue _ /.

(** ** A service *)

(** [ServiceInner]. *)
Record ServiceInner := mkService {
  subscribes : gset Z; new_subscribes : gset Z;
  active : bool; need_snapshot : bool; options : gmap rstr rstr }.

Definition SERVICE_OPTION_VALUE_TRUE : rstr := Str.lit "1".
Definition SERVICE_OPTION_VALUE_FALSE : rstr := Str.lit "0".

Definition new (need_snapshot : bool) : ServiceInner := mkService ∅ ∅ true need_snapshot ∅.

Definition is_subed (id : Z) (s : ServiceInner) : bool :=
  bool_decide (id ∈ subscribes s) || bool_decide (id ∈ new_subscribes s).

Definition on_subscribe (id : Z) (s : ServiceInner) : ServiceInner :=
  if bool_decide (id ∈ subscribes s) then s
  else if need_snapshot s then s <| new_subscribes := {[id]} ∪ new_subscribes s |>
  else s <| subscribes := {[id]} ∪ subscribes s |>.

Definition on_unsubscribe (id : Z) (s : ServiceInner) : ServiceInner :=
  if bool_decide (id ∈ subscribes s) then s <| subscribes := subscribes s ∖ {[id]} |>
  else s <| new_subscribes := new_subscribes s ∖ {[id]} |>.

Definition join (s : ServiceInner) : ServiceInner := s <| active := false |>.

Definition has_subscribes (s : ServiceInner) : bool :=
  (0 <? size (subscribes s))%nat || (0 <? size (new_subscribes s))%nat.

Definition ok (s : ServiceInner) : bool := active s && has_subscribes s.

Definition set_option (opt val : rstr) (s : ServiceInner) : ServiceInner :=
  s <| options := <[opt := val]> (options s) |>.

Definition is_option_true (opt : rstr) (s : ServiceInner) : bool :=
  bool_decide (options s !! opt = Some SERVICE_OPTION_VALUE_TRUE).

Definition set_option_bool (opt : rstr) (val : bool) (s : ServiceInner) : ServiceInner :=
  set_option opt (if val then SERVICE_OPTION_VALUE_TRUE else SERVICE_OPTION_VALUE_FALSE) s.

Definition swap_new_subscribes (s : ServiceInner) : ServiceInner :=
  s <| subscribes := subscribes s ∪ new_subscribes s |> <| new_subscribes := ∅ |>.

Section Deliveries.
Context {M : Type}.

Definition to_each (ids : list Z) (m : M) : list (Z * M) := (fun id => (id, m)) <$> ids.

Definition send_new_subscribes (m : M) (s : ServiceInner) : list (Z * M) :=
  to_each (elements (new_subscribes s)) m.
Definition send_shared (m : M) (s : ServiceInner) : list (Z * M) :=
  to_each (elements (subscribes s)) m.
Definition send_to (m : M) (id : Z) (s : ServiceInner) : list (Z * M) :=
  if bool_decide (id ∈ subscribes s) then [(id, m)] else [].
Definition send_to_others (m : M) (id : Z) (s : ServiceInner) : list (Z * M) :=
  to_each (filter (fun sid => sid <> id) (elements (subscribes s))) m.
Definition send_without (m : M) (id : Z) (s : ServiceInner) : list (Z * M) :=
  to_each (filter (fun sid => id <> sid) (elements (subscribes s))) m.

(** The messages, and the connections that a frame was sent to. *)
Definition send_video_frame_shared (m : M) (s : ServiceInner) : list (Z * M) * gset Z :=
  (send_shared m s, subscribes s).

(** What the connections and the thread of a service do to it, one lock at a time: the
    thread's [snapshot] sends the newcomers some messages, if there are any, and then
    takes them in. *)
Inductive Event :=
| Subscribe (id : Z)
| Unsubscribe (id : Z)
| Send (m : M)
| SendTo (m : M) (id : Z)
| SendToOthers (m : M) (id : Z)
| SnapshotSend (m : M)
| SnapshotEnd.

Definition step (ev : Event) (s : ServiceInner) : ServiceInner * list (Z * M) :=
  match ev with
  | Subscribe id => (on_subscribe id s, [])
  | Unsubscribe id => (on_unsubscribe id s, [])
  | Send m => (s, send_shared m s)
  | SendTo m id => (s, send_to m id s)
  | SendToOthers m id => (s, send_to_others m id s)
  | SnapshotSend m => (s, send_new_subscribes m s)
  | SnapshotEnd => (swap_new_subscribes s, [])
  end.

Fixpoint run (evs : list Event) (s : ServiceInner) : ServiceInner * list (Z * M) :=
  match evs with
  | [] => (s, [])
  | ev :: evs =>
      let '(s, out) := step ev s in
      let '(s, outs) := run evs s in (s, out ++ outs)
  end.

(** [snapshot], when nobody subscribes meanwhile. *)
Definition snapshot (ms : list M) (s : ServiceInner) : list Event :=
  if (0 <? size (new_subscribes s))%nat then (SnapshotSend <$> ms) ++ [SnapshotEnd] else [].
End Deliveries.

(** ** The server's table of services *)

Inductive VideoSource := Monitor | Camera.

#[export] Instance VideoSource_eq : EqDecision VideoSource.
Proof. solve_decision. Defined.

Definition service_name_prefix (v : VideoSource) : rstr :=
  match v with Monitor => Str.lit "monitor" | Camera => Str.lit "camera" end.

Definition get_service_name (source : VideoSource) (idx : Z) : rstr :=
  service_name_prefix source ++ Str.show_nat idx.

Arguments get_service_name : simpl never.

Definition is_video_service_name (name : rstr) : bool :=
  Str.starts_with (service_name_prefix Monitor) name
  || Str.starts_with (service_name_prefix Camera) name.

(** A video service needs a snapshot. *)
Definition video_service : ServiceInner := new true.

Record Server := mkServer { services : gmap rstr ServiceInner; connections : gset Z }.

Definition contains (name : rstr) (sv : Server) : bool :=
  bool_decide (is_Some (services sv !! name)).

Definition add_service (name : rstr) (s : ServiceInner) (sv : Server) : Server :=
  sv <| services := <[name := s]> (services sv) |>.

(** The services of a kind are added once. *)
Definition ensure_video (source : VideoSource) (idx : Z) (sv : Server) : Server :=
  let name := get_service_name source idx in
  if contains name sv then sv else add_service name video_service sv.

Definition PRIMARY_CAMERA_IDX : Z := 0.
Arguments PRIMARY_CAMERA_IDX : simpl never.

Definition try_add_primary_camera_service (primary_camera_exists : bool) (sv : Server) : Server :=
  if primary_camera_exists then ensure_video Camera PRIMARY_CAMERA_IDX sv else sv.

Definition try_add_monitor_service (display_idx : Z) (sv : Server) : Server :=
  ensure_video Monitor display_idx sv.

Definition add_camera_connection (primary_camera_exists : bool) (id : Z) (sv : Server) : Server :=
  let sv :=
    if primary_camera_exists
    then sv <| services := alter (on_subscribe id) (get_service_name Camera PRIMARY_CAMERA_IDX) (services sv) |>
    else sv in
  sv <| connections := {[id]} ∪ connections sv |>.

Definition add_monitor_connection (id : Z) (noperms : list rstr) (display_idx : Z) (sv : Server)
  : Server :=
  let monitor_service_name := get_service_name Monitor display_idx in
  let add name s :=
    if is_video_service_name name && negb (bool_decide (name = monitor_service_name)) then s
    else if bool_decide (name ∈ noperms) then s
    else on_subscribe id s in
  sv <| services := map_imap (fun name s => Some (add name s)) (services sv) |>
     <| connections := {[id]} ∪ connections sv |>.

Definition remove_connection (id : Z) (sv : Server) : Server :=
  sv <| services := on_unsubscribe id <$> services sv |>
     <| connections := connections sv ∖ {[id]} |>.

Definition subscribe (name : rstr) (id : Z) (sub : bool) (sv : Server) : Server :=
  match services sv !! name with
  | None => sv
  | Some s =>
      if Bool.eqb (is_subed id s) sub then sv
      else sv <| services := <[name := if sub then on_subscribe id s else on_unsubscribe id s]> (services sv) |>
  end.

Definition set_video_service_opt (display : option (VideoSource * Z)) (opt value : rstr) (sv : Server)
  : Server :=
  sv <| services := map_imap (fun k s =>
    Some (if match display with
             | Some (source, d) => negb (bool_decide (k = get_service_name source d))
             | None => false
             end then s
          else if is_video_service_name k then set_option opt value s else s)) (services sv) |>.

Definition get_subbed_displays_count (id : Z) (sv : Server) : nat :=
  size (filter (fun ks => is_video_service_name ks.1 = true /\ is_subed id ks.2 = true) (services sv)).

Definition capture_name (displays : list rstr) (id : Z) (include exclude : bool) (sv : Server)
    (name : rstr) : Server :=
  if is_video_service_name name then
    if bool_decide (name ∈ displays) then if include then subscribe name id true sv else sv
    else if exclude then subscribe name id false sv else sv
  else sv.

Definition capture_displays (id : Z) (source : VideoSource) (displays : list Z) (include exclude : bool)
    (sv : Server) : Server :=
  let names := get_service_name source <$> displays in
  foldl (capture_name names id include exclude) sv (elements (dom (services sv))).

(** * Specification *)

(** Who gets what a service sends: the subscribers, taken in or not. *)
Definition listens (sv : Server) (name : rstr) (id : Z) : Prop :=
  exists s, services sv !! name = Some s /\ is_subed id s = true.

(** No one is both aside and taken in, and a service without a snapshot keeps no one
    aside. *)
Definition tidy (s : ServiceInner) : Prop :=
  (subscribes s ## new_subscribes s) /\ (need_snapshot s = false -> new_subscribes s = ∅).

Definition tidy_server (sv : Server) : Prop := forall name s, services sv !! name = Some s -> tidy s.

Section Views.
Context {M : Type}.

(** What one connection gets. *)
Definition got (id : Z) (out : list (Z * M)) : list M :=
  snd <$> List.filter (fun d => d.1 =? id) out.

(** The messages of the snapshots; those that are for a subscriber. *)
Definition pending_of (evs : list (@Event M)) : list M :=
  omap (fun ev => match ev with SnapshotSend m => Some m | _ => None end) evs.

Definition addressed (id : Z) (evs : list (@Event M)) : list M :=
  omap (fun ev => match ev with
                  | Send m => Some m
                  | SendTo m i => if i =? id then Some m else None
                  | SendToOthers m i => if i =? id then None else Some m
                  | _ => None
                  end) evs.
End Views.

(** * Theorems *)

Create HintDb services.

Lemma is_subed_true id s : is_subed id s = true <-> id ∈ subscribes s \/ id ∈ new_subscribes s.
Proof. unfold is_subed. by rewrite orb_true_iff, !bool_decide_eq_true. Qed.

Lemma on_subscribe_subed id id' s :
  is_subed id' (on_subscribe id s) = true <-> id' = id \/ is_subed id' s = true.
Proof.
  rewrite !is_subed_true. unfold on_subscribe. case_bool_decide; [set_solver|].
  destruct (need_snapshot s); cbn; set_solver.
Qed.

Lemma on_unsubscribe_subed id id' s :
  tidy s -> is_subed id' (on_unsubscribe id s) = true <-> id' <> id /\ is_subed id' s = true.
Proof.
  intros [Hd _]. rewrite !is_subed_true. unfold on_unsubscribe. case_bool_decide; cbn; set_solver.
Qed.

Lemma on_subscribe_tidy id s : tidy s -> tidy (on_subscribe id s).
Proof.
  destruct s as [sub aside act snap opts]. intros [Hd Hn]. unfold tidy, on_subscribe. cbn in *.
  case_bool_decide as E; [done|]. destruct snap; cbn; [split; [set_solver|done]|].
  rewrite Hn by done. split; [set_solver|done].
Qed.

Lemma on_unsubscribe_tidy id s : tidy s -> tidy (on_unsubscribe id s).
Proof.
  destruct s as [sub aside act snap opts]. intros [Hd Hn]. unfold tidy, on_unsubscribe. cbn in *.
  case_bool_decide; cbn; (split; [set_solver|]); [exact Hn|]. intros E. rewrite Hn by done. set_solver.
Qed.

Lemma new_tidy b : tidy (new b).
Proof. split; [cbn; set_solver|done]. Qed.

#[export] Hint Resolve on_subscribe_tidy on_unsubscribe_tidy new_tidy : services.

(** ** The table *)

Lemma listens_at sv name id s : services sv !! name = Some s -> listens sv name id <-> is_subed id s = true.
Proof.
  intros E. unfold listens. split; [|by exists s].
  intros (s' & E' & Hs). rewrite E in E'. by injection E' as <-.
Qed.

Lemma listens_none sv name id : services sv !! name = None -> ~ listens sv name id.
Proof. intros E (s & E' & _). congruence. Qed.

(** Subscribing sets, for one service and one connection, whether it listens. *)
Lemma subscribe_listens name id sub sv n i :
  tidy_server sv ->
  listens (subscribe name id sub sv) n i
  <-> if bool_decide (n = name /\ i = id) then is_Some (services sv !! name) /\ sub = true else listens sv n i.
Proof.
  destruct sv as [ss cs]. intros Ht. unfold subscribe. destruct (services _ !! name) as [s|] eqn:Es.
  2: { case_bool_decide as E; [|done]. destruct E as [-> ->]. split; [|by intros [[? ?] _]].
       intros Hl. by destruct (listens_none _ _ id Es). }
  destruct (Bool.eqb (is_subed id s) sub) eqn:Eb.
  - apply eqb_prop in Eb. case_bool_decide as E; [|done]. destruct E as [-> ->].
    rewrite (listens_at _ _ _ _ Es), Eb. split; [intros H; split; [by eexists|done]|by intros [_ ->]].
  - unfold listens. cbn. destruct (decide (n = name)) as [->|Hne].
    2: { rewrite bool_decide_eq_false_2 by tauto. by setoid_rewrite lookup_insert_ne. }
    cbn in Es. rewrite lookup_insert_eq, Es. transitivity (is_subed i (if sub then on_subscribe id s else on_unsubscribe id s) = true).
    { split; [by intros (? & [= <-] & ?)|intros H; by eexists]. }
    assert (is_subed i s = true <-> (exists s0, Some s = Some s0 /\ is_subed i s0 = true)) as E1.
    { split; [intros H; by eexists|by intros (? & [= <-] & ?)]. }
    destruct sub; [rewrite on_subscribe_subed|rewrite on_unsubscribe_subed by (by apply (Ht name))].
    + case_bool_decide as E; [destruct E as [_ ->]; split; eauto|].
      rewrite <- E1. split; [|by right]. intros [->|H]; [by destruct E|done].
    + case_bool_decide as E; [split; [by intros [[] _]; apply E|by intros [_ ?]]|].
      rewrite <- E1. split; [by intros [_ ?]|]. intros H. split; [|done]. intros ->. by destruct E.
Qed.

Lemma subscribe_tidy name id sub sv : tidy_server sv -> tidy_server (subscribe name id sub sv).
Proof.
  destruct sv as [ss cs]. intros Ht. unfold subscribe. destruct (services _ !! name) as [s|] eqn:Es; [|done].
  destruct (Bool.eqb _ _); [done|]. intros n s'. cbn. intros [[<- <-]|[_ Hs]]%lookup_insert_Some; [|by apply (Ht n)].
  apply Ht in Es. destruct sub; eauto with services.
Qed.

Lemma subscribe_names name id sub sv : dom (services (subscribe name id sub sv)) = dom (services sv).
Proof.
  destruct sv as [ss cs]. unfold subscribe. destruct (services _ !! name) as [s|] eqn:Es; [|done].
  destruct (Bool.eqb _ _); [done|]. cbn in *. rewrite dom_insert_L.
  assert (name ∈ dom ss) by (apply elem_of_dom; eauto). set_solver.
Qed.

(** ** Videos *)

Lemma video_names source idx : is_video_service_name (get_service_name source idx) = true.
Proof. destruct source; done. Qed.

Lemma capture_name_listens names id include exclude sv name n i :
  tidy_server sv -> name ∈ dom (services sv) ->
  listens (capture_name names id include exclude sv name) n i
  <-> if bool_decide (n = name /\ i = id) && is_video_service_name name
         && (if bool_decide (name ∈ names) then include else exclude)
      then name ∈ names else listens sv n i.
Proof.
  intros Ht Hin. apply elem_of_dom in Hin. unfold capture_name.
  destruct (is_video_service_name name); [|by rewrite andb_false_r].
  rewrite andb_true_r. case_bool_decide as E2; case_bool_decide as E1; cbn [andb].
  - destruct include; [|done]. rewrite subscribe_listens, bool_decide_eq_true_2 by done. tauto.
  - destruct include; [|done]. by rewrite subscribe_listens, bool_decide_eq_false_2.
  - destruct exclude; [|done]. rewrite subscribe_listens, bool_decide_eq_true_2 by done.
    split; [by intros [_ ?]|done].
  - destruct exclude; [|done]. by rewrite subscribe_listens, bool_decide_eq_false_2.
Qed.

Lemma capture_name_tidy names id include exclude sv name :
  tidy_server sv -> tidy_server (capture_name names id include exclude sv name).
Proof.
  intros Ht. unfold capture_name. destruct (is_video_service_name name); [|done].
  case_bool_decide; [destruct include|destruct exclude]; by try apply subscribe_tidy.
Qed.

Lemma capture_name_names names id include exclude sv name :
  dom (services (capture_name names id include exclude sv name)) = dom (services sv).
Proof.
  unfold capture_name. destruct (is_video_service_name name); [|done].
  case_bool_decide; [destruct include|destruct exclude]; try done; apply subscribe_names.
Qed.

Lemma capture_fold names id include exclude keys sv n i :
  tidy_server sv -> NoDup keys -> list_to_set keys ⊆ dom (services sv) ->
  listens (foldl (capture_name names id include exclude) sv keys) n i
  <-> if bool_decide (n ∈ keys /\ i = id) && is_video_service_name n
         && (if bool_decide (n ∈ names) then include else exclude)
      then n ∈ names else listens sv n i.
Proof.
  revert sv. induction keys as [|name keys IH]; intros sv Ht Hnd Hsub.
  { rewrite bool_decide_eq_false_2; [done|]. intros [Hx _]. by apply elem_of_nil in Hx. }
  apply NoDup_cons in Hnd as [Hni Hnd]. cbn [foldl]. rewrite IH;
    [|by apply capture_name_tidy|done|rewrite capture_name_names; set_solver].
  assert (name ∈ dom (services sv)) as Hin by set_solver.
  pose proof (capture_name_listens names id include exclude sv name n i Ht Hin) as Hc.
  destruct (decide (n = name)) as [->|Hne].
  - rewrite (bool_decide_eq_false_2 (name ∈ keys /\ i = id)) by tauto. cbn [andb]. rewrite Hc.
    assert (bool_decide (name ∈ name :: keys /\ i = id) = bool_decide (name = name /\ i = id)) as ->.
    { apply bool_decide_ext. rewrite elem_of_cons. tauto. }
    done.
  - rewrite (bool_decide_eq_false_2 (n = name /\ i = id)) in Hc by tauto. cbn [andb] in Hc.
    assert (bool_decide (n ∈ name :: keys /\ i = id) = bool_decide (n ∈ keys /\ i = id)) as ->.
    { apply bool_decide_ext. rewrite elem_of_cons. tauto. }
    case_match; [done|exact Hc].
Qed.

(** The displays of a request: after it the connection listens, of the services of videos,
    to those named that are there, if it includes, and to none of the others, if it
    excludes; everything else is as before. *)
Theorem capture_sets_the_displays id source displays include exclude sv n i :
  tidy_server sv ->
  listens (capture_displays id source displays include exclude sv) n i
  <-> if bool_decide (i = id) && contains n sv && is_video_service_name n
         && (if bool_decide (n ∈ get_service_name source <$> displays) then include else exclude)
      then n ∈ get_service_name source <$> displays else listens sv n i.
Proof.
  intros Ht. unfold capture_displays. rewrite capture_fold; [|done|apply NoDup_elements|set_solver].
  assert (bool_decide (n ∈ elements (dom (services sv)) /\ i = id) = bool_decide (i = id) && contains n sv) as ->; [|done].
  unfold contains. rewrite <- bool_decide_and. apply bool_decide_ext. rewrite elem_of_elements, elem_of_dom. tauto.
Qed.

Lemma capture_tidy id source displays include exclude sv :
  tidy_server sv -> tidy_server (capture_displays id source displays include exclude sv).
Proof.
  intros Ht. unfold capture_displays. revert sv Ht. generalize (get_service_name source <$> displays). intros names sv.
  generalize (elements (dom (services sv))). intros keys. revert sv.
  induction keys as [|k keys IH]; intros sv Ht; [done|]. cbn. by apply IH, capture_name_tidy.
Qed.

(** ** Monitors and the end of a connection *)

Lemma imap_lookup (f : rstr -> ServiceInner -> ServiceInner) m n :
  map_imap (fun k s => Some (f k s)) m !! n = f n <$> m !! n.
Proof. rewrite map_lookup_imap. by destruct (m !! n). Qed.

Lemma monitor_listens id noperms display_idx sv n i :
  listens (add_monitor_connection id noperms display_idx sv) n i
  <-> listens sv n i
      \/ i = id /\ is_Some (services sv !! n) /\ (n ∉ noperms)
         /\ (is_video_service_name n = true -> n = get_service_name Monitor display_idx).
Proof.
  destruct sv as [ss cs]. unfold listens, add_monitor_connection. cbn. rewrite imap_lookup.
  destruct (ss !! n) as [s|]; cbn.
  2: { split; [by intros (? & ? & _)|]. by intros [(? & ? & _)|(_ & [? ?] & _)]. }
  transitivity (is_subed i (if is_video_service_name n && negb (bool_decide (n = get_service_name Monitor display_idx))
    then s else if bool_decide (n ∈ noperms) then s else on_subscribe id s) = true).
  { split; [by intros (? & [= <-] & ?)|intros H; by eexists]. }
  assert (is_subed i s = true <-> (exists s0, Some s = Some s0 /\ is_subed i s0 = true)) as E1.
  { split; [intros H; by eexists|by intros (? & [= <-] & ?)]. }
  rewrite <- E1. clear E1. destruct (is_video_service_name n); cbn [andb].
  - case_bool_decide as E; cbn [negb].
    + case_bool_decide as E2; [tauto|]. rewrite on_subscribe_subed. split; [|tauto].
      intros [->|H]; [right|tauto]. split_and!; eauto.
    + split; [tauto|]. intros [H|(_ & _ & _ & H)]; [done|]. by destruct E; apply H.
  - case_bool_decide as E2; [tauto|]. rewrite on_subscribe_subed. split; [|tauto].
    intros [->|H]; [right|tauto]. split_and!; eauto; done.
Qed.

Lemma monitor_tidy id noperms display_idx sv :
  tidy_server sv -> tidy_server (add_monitor_connection id noperms display_idx sv).
Proof.
  destruct sv as [ss cs]. intros Ht n s. unfold add_monitor_connection. cbn. rewrite imap_lookup.
  destruct (ss !! n) as [s0|] eqn:E; [|done]. cbn. apply Ht in E.
  intros [= <-]. repeat case_match; eauto with services.
Qed.

Lemma camera_listens exists_ id sv n i :
  listens (add_camera_connection exists_ id sv) n i
  <-> listens sv n i
      \/ exists_ = true /\ i = id /\ n = get_service_name Camera PRIMARY_CAMERA_IDX /\ is_Some (services sv !! n).
Proof.
  destruct sv as [ss cs]. unfold listens, add_camera_connection. destruct exists_; cbn; [|intuition done].
  destruct (decide (n = get_service_name Camera PRIMARY_CAMERA_IDX)) as [->|Hne].
  - rewrite lookup_alter_eq. destruct (ss !! _) as [s|]; cbn.
    + split.
      * intros (? & [= <-] & Hs). apply on_subscribe_subed in Hs as [->|Hs]; [right; eauto|left; eauto].
      * intros [(? & [= <-] & Hs)|(_ & -> & _)]; eexists; (split; [done|]); apply on_subscribe_subed; tauto.
    + split; [by intros (? & ? & _)|]. by intros [(? & ? & _)|(_ & _ & _ & [? ?])].
  - rewrite lookup_alter_ne by done. intuition done.
Qed.

Lemma camera_tidy exists_ id sv : tidy_server sv -> tidy_server (add_camera_connection exists_ id sv).
Proof.
  destruct sv as [ss cs]. intros Ht n s. unfold add_camera_connection. destruct exists_; [|apply Ht]. cbn.
  intros [(<- & s0 & Hs & ->)|[_ Hs]]%lookup_alter_Some; [|by apply (Ht n)]. apply Ht in Hs. eauto with services.
Qed.

(** Nothing of a connection that ends is left behind. *)
Lemma remove_listens id sv n i :
  tidy_server sv -> listens (remove_connection id sv) n i <-> i <> id /\ listens sv n i.
Proof.
  destruct sv as [ss cs]. intros Ht. unfold listens, remove_connection. cbn. rewrite lookup_fmap.
  destruct (ss !! n) as [s|] eqn:E; cbn.
  - apply (Ht n) in E. split.
    + intros (? & [= <-] & Hs). apply on_unsubscribe_subed in Hs as [Hne Hs]; [|done]. eauto.
    + intros (Hne & ? & [= <-] & Hs). eexists. split; [done|]. by apply on_unsubscribe_subed.
  - split; [by intros (? & ? & _)|by intros (_ & ? & ? & _)].
Qed.

Lemma ensure_listens source idx sv n i : listens (ensure_video source idx sv) n i <-> listens sv n i.
Proof.
  destruct sv as [ss cs]. unfold ensure_video, contains. case_bool_decide as E; [done|]. cbn in E.
  unfold listens, add_service. cbn. destruct (decide (n = get_service_name source idx)) as [->|Hne].
  - rewrite lookup_insert_eq. split.
    + intros (? & [= <-] & Hs). by rewrite is_subed_true in Hs; cbn in Hs; destruct Hs.
    + intros (? & Hs & _). by destruct E.
  - by rewrite lookup_insert_ne.
Qed.

Lemma ensure_tidy source idx sv : tidy_server sv -> tidy_server (ensure_video source idx sv).
Proof.
  destruct sv as [ss cs]. intros Ht. unfold ensure_video. destruct (contains _ _); [done|].
  intros n s. cbn. intros [[<- <-]|[_ Hs]]%lookup_insert_Some; [apply new_tidy|by apply (Ht n)].
Qed.

Lemma ensure_contains source idx sv n :
  contains n (ensure_video source idx sv) = contains n sv || bool_decide (n = get_service_name source idx).
Proof.
  destruct sv as [ss cs]. unfold ensure_video, contains. cbn.
  set (name := get_service_name source idx). destruct (ss !! name) as [s|] eqn:E.
  - rewrite (bool_decide_eq_true_2 (is_Some (Some s))) by done. cbn.
    destruct (decide (n = name)) as [->|Hne]; [|by rewrite (bool_decide_eq_false_2 (n = name)), orb_false_r].
    by rewrite E, !bool_decide_eq_true_2 by done.
  - rewrite (bool_decide_eq_false_2 (is_Some None)) by (by intros [? ?]). cbn.
    destruct (decide (n = name)) as [->|Hne].
    + by rewrite lookup_insert_eq, (bool_decide_eq_true_2 (name = name)), orb_true_r, bool_decide_eq_true_2 by done.
    + by rewrite lookup_insert_ne, (bool_decide_eq_false_2 (n = name)), orb_false_r by done.
Qed.

(** ** What a subscriber gets *)

Section Newcomers.
Context {M : Type}.

Lemma got_app id (a b : list (Z * M)) : got id (a ++ b) = got id a ++ got id b.
Proof. unfold got. by rewrite List.filter_app, fmap_app. Qed.

Lemma got_each id ids (m : M) : NoDup ids -> got id (to_each ids m) = if bool_decide (id ∈ ids) then [m] else [].
Proof.
  induction 1 as [|i ids Hni Hnd IH]; [by rewrite bool_decide_eq_false_2 by apply not_elem_of_nil|].
  unfold got, to_each in *. cbn [fmap list_fmap List.filter fst]. destruct (Z.eqb_spec i id) as [->|Hne].
  - cbn [fmap list_fmap snd]. rewrite IH, (bool_decide_eq_false_2 (id ∈ ids)) by done.
    by rewrite bool_decide_eq_true_2 by left.
  - rewrite IH. apply (f_equal (fun b : bool => if b then [m] else [])), bool_decide_ext. rewrite elem_of_cons.
    naive_solver.
Qed.

(** A connection kept aside gets the snapshots and nothing else. *)
Lemma aside_step id (ev : @Event M) (s : ServiceInner) :
  tidy s -> need_snapshot s = true -> id ∈ new_subscribes s ->
  match ev with Unsubscribe i => i <> id | SnapshotEnd => False | _ => True end ->
  got id (step ev s).2 = pending_of [ev] /\ tidy (step ev s).1 /\ need_snapshot (step ev s).1 = true
  /\ id ∈ new_subscribes (step ev s).1.
Proof.
  destruct s as [sub aside act snap opts]. cbn [need_snapshot new_subscribes]. intros Ht -> Hin Hev.
  pose proof Ht as [Hd _]. cbn in Hd. assert (id ∉ sub) as Hns by set_solver.
  destruct ev as [i|i|m|m i|m i|m|]; cbn [step fst snd]; try done.
  - split_and!; [done|by apply on_subscribe_tidy|..]; unfold on_subscribe; cbn; case_bool_decide; try done. cbn. set_solver.
  - split_and!; [done|by apply on_unsubscribe_tidy|..]; unfold on_unsubscribe; cbn; case_bool_decide; try done. cbn. set_solver.
  - split_and!; try done. unfold send_shared. rewrite got_each by apply NoDup_elements. cbn.
    by rewrite bool_decide_eq_false_2 by set_solver.
  - split_and!; try done. unfold send_to. cbn. case_bool_decide; [|done]. unfold got. cbn.
    destruct (Z.eqb_spec i id) as [->|]; done.
  - split_and!; try done. unfold send_to_others. rewrite got_each by (apply NoDup_filter, NoDup_elements). cbn.
    rewrite bool_decide_eq_false_2; [done|]. rewrite list_elem_of_filter, elem_of_elements. tauto.
  - split_and!; try done. unfold send_new_subscribes. rewrite got_each by apply NoDup_elements. cbn.
    by rewrite bool_decide_eq_true_2 by set_solver.
Qed.

Lemma taken_step id (ev : @Event M) (s : ServiceInner) :
  tidy s -> id ∈ subscribes s -> match ev with Unsubscribe i => i <> id | _ => True end ->
  got id (step ev s).2 = addressed id [ev] /\ tidy (step ev s).1 /\ id ∈ subscribes (step ev s).1.
Proof.
  destruct s as [sub aside act snap opts]. cbn [subscribes]. intros Ht Hin Hev.
  pose proof Ht as [Hd Hn]. cbn in Hd, Hn. assert (id ∉ aside) as Hns by set_solver.
  destruct ev as [i|i|m|m i|m i|m|]; cbn [step fst snd].
  - split_and!; [done|by apply on_subscribe_tidy|]. unfold on_subscribe. cbn. case_bool_decide; [done|].
    destruct snap; cbn; set_solver.
  - split_and!; [done|by apply on_unsubscribe_tidy|]. unfold on_unsubscribe. cbn. case_bool_decide; cbn; set_solver.
  - split_and!; try done. unfold send_shared. rewrite got_each by apply NoDup_elements. cbn.
    by rewrite bool_decide_eq_true_2 by set_solver.
  - split_and!; try done. unfold send_to. cbn. case_bool_decide as E; unfold got; cbn.
    + by destruct (i =? id).
    + destruct (Z.eqb_spec i id) as [->|]; done.
  - split_and!; try done. unfold send_to_others. rewrite got_each by (apply NoDup_filter, NoDup_elements). cbn.
    destruct (Z.eqb_spec i id) as [->|Hne].
    + rewrite bool_decide_eq_false_2; [done|]. rewrite list_elem_of_filter. tauto.
    + rewrite bool_decide_eq_true_2; [done|]. rewrite list_elem_of_filter, elem_of_elements. done.
  - split_and!; try done. unfold send_new_subscribes. rewrite got_each by apply NoDup_elements. cbn.
    by rewrite bool_decide_eq_false_2 by set_solver.
  - split_and!; [done| |]; unfold swap_new_subscribes; cbn; [split; cbn; [set_solver|done]|set_solver].
Qed.

Lemma run_app (evs1 evs2 : list (@Event M)) (s : ServiceInner) :
  run (evs1 ++ evs2) s = let '(s1, o1) := run evs1 s in let '(s2, o2) := run evs2 s1 in (s2, o1 ++ o2).
Proof.
  revert s. induction evs1 as [|ev evs1 IH]; intros s; cbn [run app]; [by destruct (run evs2 s)|].
  destruct (step ev s) as [s1 o1]. rewrite IH. destruct (run evs1 s1) as [s2 o2]. destruct (run evs2 s2).
  by rewrite app_assoc.
Qed.

Lemma aside_run id (evs : list (@Event M)) (s : ServiceInner) :
  tidy s -> need_snapshot s = true -> id ∈ new_subscribes s -> Unsubscribe id ∉ evs -> SnapshotEnd ∉ evs ->
  got id (run evs s).2 = pending_of evs /\ tidy (run evs s).1 /\ need_snapshot (run evs s).1 = true
  /\ id ∈ new_subscribes (run evs s).1.
Proof.
  revert s. induction evs as [|ev evs IH]; intros s Ht Hs Hin Hu He; [done|]. cbn [run].
  apply not_elem_of_cons in Hu as [Hu Hus]. apply not_elem_of_cons in He as [He Hes].
  destruct (aside_step id ev s Ht Hs Hin) as (Hg & Ht1 & Hs1 & Hin1).
  { destruct ev; try done. congruence. }
  destruct (step ev s) as [s1 o1]. cbn [fst snd] in *. destruct (IH s1 Ht1 Hs1 Hin1 Hus Hes) as (Hg2 & Hrest).
  destruct (run evs s1) as [s2 o2]. cbn [fst snd] in *. split; [|done]. rewrite got_app, Hg, Hg2. by destruct ev.
Qed.

Lemma taken_run id (evs : list (@Event M)) (s : ServiceInner) :
  tidy s -> id ∈ subscribes s -> Unsubscribe id ∉ evs -> got id (run evs s).2 = addressed id evs.
Proof.
  revert s. induction evs as [|ev evs IH]; intros s Ht Hin Hu; [done|]. cbn [run].
  apply not_elem_of_cons in Hu as [Hu Hus].
  destruct (taken_step id ev s Ht Hin) as (Hg & Ht1 & Hin1). { destruct ev; try done. congruence. }
  destruct (step ev s) as [s1 o1]. cbn [fst snd] in *. specialize (IH s1 Ht1 Hin1 Hus).
  destruct (run evs s1) as [s2 o2]. cbn [fst snd] in *. rewrite got_app, Hg, IH.
  unfold addressed. cbn. by destruct ev as [| |m|m i|m i| |]; cbn; try done; destruct (i =? id).
Qed.

(** A connection that subscribes to a service with a snapshot gets, in order, the
    messages of the snapshot sent from then on and no others, until the snapshot ends;
    from then on every message that is for it, in order and once, until it leaves. *)
Theorem newcomer_gets_the_snapshot_then_the_rest id (s : ServiceInner) (before after : list (@Event M)) :
  tidy s -> need_snapshot s = true -> is_subed id s = false ->
  Unsubscribe id ∉ before -> SnapshotEnd ∉ before -> Unsubscribe id ∉ after ->
  got id (run (Subscribe id :: before ++ SnapshotEnd :: after) s).2 = pending_of before ++ addressed id after.
Proof.
  intros Ht Hs Hno Hub Heb Hua. cbn [run step].
  assert (id ∈ new_subscribes (on_subscribe id s) /\ need_snapshot (on_subscribe id s) = true) as [Hin Hs1].
  { destruct s as [sub aside act snap opts]. cbn in *. subst snap. unfold is_subed in Hno. cbn in Hno.
    apply orb_false_iff in Hno as [Hn1 Hn2]. unfold on_subscribe. cbn. rewrite Hn1. cbn. split; [set_solver|done]. }
  destruct (aside_run id before _ (on_subscribe_tidy id s Ht) Hs1 Hin Hub Heb) as (Hg & Ht2 & Hs2 & Hin2).
  rewrite run_app. destruct (run before (on_subscribe id s)) as [s2 o2]. cbn [fst snd] in *. cbn [run step].
  assert (tidy (swap_new_subscribes s2) /\ id ∈ subscribes (swap_new_subscribes s2)) as [Ht3 Hin3].
  { destruct s2 as [sub aside act snap opts]. cbn in *. split; [split; cbn; [set_solver|done]|set_solver]. }
  pose proof (taken_run id after _ Ht3 Hin3 Hua) as Hr. destruct (run after (swap_new_subscribes s2)) as [s3 o3].
  cbn [fst snd] in *. by rewrite app_nil_l, got_app, Hg, app_nil_l, Hr.
Qed.
End Newcomers.

(** ** Concrete services *)

(** A connection that comes between the last message of a snapshot and its end is taken in
    without it. *)
Example late_newcomer_misses_the_snapshot :
  let evs := [Subscribe 1; SnapshotSend "format"; Subscribe 2; SnapshotEnd; Send "frame"]%string in
  got 1 (run evs (new true)).2 = ["format"; "frame"]%string /\ got 2 (run evs (new true)).2 = ["frame"]%string.
Proof. vm_compute. done. Qed.

Lemma newcomer_gets_the_snapshot_then_the_rest_witness :
  got 1 (run (Subscribe 1 :: [SnapshotSend "format"] ++ SnapshotEnd :: [Send "frame"; SendToOthers "echo" 1])%string
           (new true)).2 = ["format"; "frame"]%string.
Proof.
  apply (newcomer_gets_the_snapshot_then_the_rest 1 (new true) [SnapshotSend "format"%string]
    [Send "frame"; SendToOthers "echo" 1]%string); [apply new_tidy|done|done|..];
    rewrite ?not_elem_of_cons; split_and?; try done; apply not_elem_of_nil.
Defined.
