(* ===== verification/SessionState.v ===== *)
(** * The state of a session: [src/server/connection.rs]

    What a connection is made of once it is admitted, what it tells the peer, the
    connection manager, the input and the services, and the helpers by which its
    handlers ask for permissions and change subscriptions.  What a handler reads
    outside, options, displays, the peer's version, the answers of the platform, is an
    [Env] of that moment.  The code is that of Linux with the [flutter] and
    [unix-file-copy-paste] features. *)

From coqutil Require Import Datatypes.RecordSetters.
From S2P Require Import Prelude PortForwardMux FileScan Services SessionScope IdPermissions LoginFailure.
Import TriangleBracketNotations.

Abbreviation Perms := Connection.Connection.

(** ** What a session tells *)

Inductive PrivacyModeState :=
| PrvOnFailedDenied | PrvNotSupported | PrvOnSucceeded | PrvOnFailed | PrvOffSucceeded
| PrvOffByPeer | PrvOffFailed | PrvOffUnknown.

Record PrivacyMsg := mkPrivacyMsg { privacy_state : PrivacyModeState; details : rstr; privacy_impl_key : rstr }.

Inductive BlockInputState := BlkOnFailed | BlkOffFailed.

(** [ipc::FS]. *)
Inductive FS :=
| FsReadEmptyDirs (dir : rstr) (include_hidden : bool)
| FsReadDir (dir : rstr) (include_hidden : bool)
| FsReadAllFiles (path : rstr) (id : Z) (include_hidden : bool)
| FsReadFile (path : rstr) (id file_num : Z) (include_hidden overwrite_detection : bool)
| FsNewWrite (path : rstr) (id file_num : Z) (files : list (rstr * Z)) (overwrite_detection : bool)
    (total_size : Z)
| FsRemoveDir (path : rstr) (id : Z) (recursive : bool)
| FsRemoveFile (path : rstr) (id file_num : Z)
| FsCreateDir (path : rstr) (id : Z)
| FsCancelWrite (id : Z)
| FsCancelRead (id : Z)
| FsSendConfirmForRead (id : Z) (confirm : bytes)
| FsSendConfirm (confirm : bytes)
| FsRename (id : Z) (path new_name : rstr)
| FsWriteBlock (id file_num : Z) (data : bytes) (compressed : bool)
| FsWriteDone (id file_num : Z)
| FsCheckDigest (id file_num file_size last_modified : Z) (is_resume : bool)
| FsWriteError (id file_num : Z) (err : rstr).

(** [ipc::Data], to the connection manager. *)
Inductive Data :=
| DataFS (fs : FS)
| DataChat (text : rstr)
| DataFileTransferLog (action : rstr)
| DataControllerIdentity (account_user os_user pc_name : rstr)
| DataEffectivePermissions (keyboard clipboard audio file : bool)
| DataSwitchPermission (name : rstr) (enabled : bool)
| DataVoiceCallIncoming
| DataStartVoiceCall
| DataCloseVoiceCall
| DataCameraRequest
| DataLogin (peer_id : rstr) (file_transfer view_camera terminal authorized from_switch : bool) (perms : Perms)
| DataSessionCode
| DataDisconnected
| DataClose.

(** Messages to the peer. *)
Inductive Out :=
| PermissionInfo (permission : Profiles.Permission) (enabled : bool)
| OutCloseReason (reason : rstr)
| OutChat (text : rstr)
| DisplayChanged (msg : bytes)
| NewError (id : Z) (err : rstr) (file_num : Z)
| NewDir (id : Z) (path : rstr) (files : list FileEntry)
| OutBlock (id file_num : Z) (data : bytes) (compressed : bool)
| OutDone (id file_num : Z)
| OutDigest (id file_num last_modified file_size : Z) (is_resume : bool)
| OutClip (c : Cliprdr)
| PrivacyModeMsg (m : PrivacyMsg)
| BlockInputError (state : BlockInputState) (details : rstr)
| CursorData (msg : bytes)
| VoiceCallResponseMsg (req_timestamp : Z) (accepted : bool)
| VoiceCallRequestMsg (is_connect : bool)
| OutTerminal (response : bytes)
| OutTerminalError (message : rstr)
| CursorNotSupported
| SwitchBack
| LoginPeerInfo
| LoginError (err : rstr)
| DisplayInited (msg : bytes)
| FollowCurrentDisplayMsg (display : Z)
| TestDelayMsg (last_delay : Z)
| FromService (msg : bytes)
| RawMessage (bytes : bytes).

(** [MessageInput]. *)
Inductive MessageInput :=
| InputMouse (e : MouseEvent) (simulate show_cursor : bool)
| InputPointer (e : bytes)
| InputKey (e : KeyEvent) (press : bool)
| ReleaseKey (key : Z)
| BlockOn
| BlockOff.

(** In order, what a session does outside itself and the services. *)
Inductive Effect :=
| Send (m : Out)
| ToCm (d : Data)
| Input (i : MessageInput)
| ClickTime
| MouseMoveTime
| MarkPermission (name : rstr)
| UpdateClipboard (contents : list bytes)
| ServeClip (c : Cliprdr)
| EmptyFileClipboard
| FileAudit (remote_receive : bool) (path : rstr) (files : list (rstr * Z))
| PolicyAudit (e : PolicyEvent)
| RemoveLog (path : rstr) (id : Z)
| ConfirmRead (id : Z) (confirm : bytes)
| UserImageQuality (q : Z)
| UserCustomFps (fps : Z)
| UserAutoAdjustFps (fps : Z)
| UserRecord (status : bool)
| UpdateEncoding (decoding : bytes)
| FrameFetched
| UserNetworkDelay (delay : Z)
| UserDelayElapsed (elapsed : Z)
| EchoTestDelay (t : bytes)
| CodecOnLogin
| RemoveWallpaper
| ActivateScreen
| Refresh
| TakeScreenshot (source : VideoSource) (display : Z) (sid : rstr)
| Reboot
| StartAudio (format : bytes)
| PlayAudio (frame : bytes)
| VoiceCallInput (chosen : bool)
| RunMe (switch_uuid : bytes)
| SetResolution (display : rstr) (width height : Z)
| TurnOnPrivacy (impl_key : rstr)
| TurnOffPrivacy
| PersistTerminal (persistent : bool)
| DoTerminal (action : bytes)
| MuxHandle (f : frame) (tunnel_allowed : bool)
| ForwardMessage (msg : bytes) (forward camera : bool)
| Whiteboard (on : bool)
| LockScreen
| ConnAudit (action : rstr)
| Alarm (message : rstr)
| CloseForwarding
| UnregisterGrant
| RemoveSession
| ScanReport (kind value : rstr)
| CameraConsent (accepted : bool)
| FramesFetched
| JoinTerminal
| SetSwitchSidesUuid (codes : gmap rstr (Z * bytes))
| SetIdFailures (failures : Buckets.table)
| LoginCheck (e : Buckets.effect)
| AuditAsSwitchSides
| StartCmIpc.

(** ** State *)

(** A job that reads for the peer. *)
Record ReadJob := mkReadJob { rj_id : Z; rj_printer : bool; rj_files : list FileEntry }.

Record Conn := mkConn {
  file_transfer : option (rstr * bool); view_camera : bool; terminal : bool;
  port_forward_socket : bool; port_forward_mux : bool;
  authorized : bool; authed_conn_id : option AuthConnType; perms : Perms;
  disable_keyboard : bool; disable_clipboard : bool; disable_audio : bool;
  enable_file_transfer : bool; lock_after_session_end : bool; show_remote_cursor : bool;
  follow_remote_cursor : bool; follow_remote_window : bool; show_my_cursor : bool;
  terminal_persistent : bool;
  services_subed : bool; voice_calling : bool; voice_call_request_timestamp : option Z;
  audio_sender : bool; display_idx : Z; multi_ui_session : bool;
  chat_unanswered : bool; file_transferred : bool; closed : bool; close_reason : option rstr;
  scope_violation_messages : gset rstr; options_in_login : option OptionMessage;
  delayed_read_dir : option (rstr * bool); cm_read_job_ids : gset Z; read_jobs : list ReadJob;
  printer_data : list (rstr * bytes); controller_identity : option (rstr * rstr * rstr);
  pressed_modifiers : gset Z; auto_disconnect_timer : option (Z * Z);
  last_test_delay : option Z; network_delay : Z;
  terminal_user_token : bool; terminal_generic_service : bool; from_switch : bool }.

(** [server] is gone when the service stops; [inner_id] is the connection's number. *)
Record St := mkSt { conn : Conn; server : option Server; out : list Effect }.

(** What a handler reads outside.  [options] are those of the file policy; [displays] are
    the names of the displays, if they can be read; [new_read] is [TransferJob::new_read];
    [serve_clip_messages] is the answer of the file clipboard; the privacy mode's answers
    are those to the call the handler makes, [still_in_privacy_mode] after it failed; [modifier] is the modifier key that a key
    event of the map or translate mode stands for; [displays_on_login] is the
    primary display, if the displays can be read; [display_under] is the display of a
    position; [recv_elapsed] is the time since the peer was last heard, in milliseconds;
    [switch_sides_uuid] has the codes to switch sides by the ID they were given to, each
    with its age in milliseconds, [id_failures] the failures of the ID whitelist, and
    [opt_id_whitelist] to [grant_allows] are what the permissions are taken from, the last
    one being the grant that the session was admitted with, if any. *)
Record Env := mkEnv {
  inner_id : Z; now : Z;
  one_way_file_transfer : bool; one_way_clipboard_redirection : bool;
  permission : rstr -> bool; file_options : FileScan.Options;
  host_watermark : bool; controller_watermark : bool; recording_forbidden : bool;
  scope_violation_alarm : bool; scope_violation_close : bool; allow_auto_disconnect : bool;
  support_multi_ui_session : bool; can_enable_overwrite_detection : bool;
  is_support_file_copy_paste : bool; before_1_2_4 : bool;
  source_count : VideoSource -> Z; display_changed_msg : Z -> VideoSource -> option bytes;
  displays : option (list rstr); primary_camera_exists : bool;
  need_fs_cm_send_files : bool;
  get_recursive_files : rstr -> bool -> result (list FileEntry) rstr;
  new_read : rstr -> Z -> bool -> bool -> result (list FileEntry) rstr;
  new_read_printer : bytes -> result (list FileEntry) rstr;
  check_file_count_limit : nat -> option rstr;
  parse_directory : bytes -> option (rstr * list FileEntry);
  msg_2_clip : Cliprdr -> bool; serve_clip_messages : Cliprdr -> list Cliprdr;
  is_privacy_mode_supported : bool; is_in_privacy_mode : bool; still_in_privacy_mode : bool;
  privacy_mode_conn_id : option Z;
  cur_impl_key : option rstr; is_current_privacy_mode_impl : rstr -> bool;
  turn_on_result : option (result bool rstr); check_privacy_mode_err : rstr;
  turn_off_result : option (result unit rstr);
  modifier : KeyEvent -> option Z; is_modifier : KeyEvent -> bool;
  cursor_data_message : Z -> option bytes; whiteboard_supported : bool;
  session_reconnected : bool;
  uuid_from_slice : bytes -> bool; insert_pending_switch_sides_uuid : bytes -> bool;
  terminal_answer : bytes -> result (option bytes) rstr;
  forward_asks_camera : bytes -> bool;
  display_inited_msg : option bytes; displays_on_login : result Z rstr; removes_wallpaper : bool;
  is_allowed_dir : rstr -> bool;
  auto_disconnect_timeout : rstr; recv_elapsed : Z; display_under : Z -> Z -> option Z;
  not_support_multi_clip : bytes -> option bytes;
  switch_sides_uuid : gmap rstr (Z * bytes);
  id_failures : Buckets.table; ip : rstr; now_ms : Z;
  to_lowercase : rstr -> rstr;
  from_json : rstr -> option (list (rstr * Profiles.ProfileConfig));
  opt_id_whitelist : rstr; opt_id_permissions : rstr;
  grant_allows : option (rstr -> bool) }.

(** ** Handlers: state and answer *)

Definition M (A : Type) : Type := St -> A * St.
#[export] Instance M_ret : MRet M := fun A x s => (x, s).
#[export] Instance M_bind : MBind M := fun A B f m s => let '(x, s) := m s in f x s.

Definition get : M Conn := fun s => (conn s, s).
Definition modify (f : Conn -> Conn) : M unit := fun s => (tt, s <| conn ::= f |>).
Definition emit (e : Effect) : M unit := fun s => (tt, s <| out := out s ++ [e] |>).
Definition when (b : bool) (m : M unit) : M unit := if b then m else mret tt.
Fixpoint for_each {A} (l : list A) (f : A -> M unit) : M unit :=
  match l with [] => mret tt | x :: l => _ ← f x; for_each l f end.

(** [if let Some(s) = self.server.upgrade()]. *)
Definition with_server (f : Server -> Server) : M unit := fun s => (tt, s <| server ::= fmap f |>).
Definition get_server : M (option Server) := fun s => (server s, s).

Definition send (m : Out) : M unit := emit (Send m).
Definition send_to_cm (d : Data) : M unit := emit (ToCm d).
Definition send_fs (fs : FS) : M unit := send_to_cm (DataFS fs).
Definition mark_permission (name : string) : M unit := emit (MarkPermission (Str.lit name)).
Definition policy_audit (events : list PolicyEvent) : M unit := for_each events (fun e => emit (PolicyAudit e)).
Definition send_permission (p : Profiles.Permission) (enabled : bool) : M unit := send (PermissionInfo p enabled).

(** ** Kinds and permissions *)

Definition is_port_forward (c : Conn) : bool := port_forward_socket c || port_forward_mux c.

Definition is_file_transfer (c : Conn) : bool := bool_decide (is_Some (file_transfer c)).

Definition is_remote (c : Conn) : bool :=
  negb (is_file_transfer c) && negb (is_port_forward c) && negb (view_camera c) && negb (terminal c).

Definition is_authed_remote_conn (c : Conn) : bool := bool_decide (authed_conn_id c = Some Remote).
Definition is_authed_view_camera_conn (c : Conn) : bool := bool_decide (authed_conn_id c = Some ViewCamera).

Definition should_handle_render_broadcast_message (c : Conn) : bool :=
  match authed_conn_id c with Some Remote | Some ViewCamera => true | _ => false end.

Definition should_handle_text_clipboard_message (c : Conn) : bool :=
  match authed_conn_id c with Some Remote => true | _ => false end.

Definition keyboard (c : Conn) : bool := Connection.k_keyboard (perms c).
Definition clipboard (c : Conn) : bool := Connection.k_clipboard (perms c).
Definition audio (c : Conn) : bool := Connection.k_audio (perms c).
Definition file (c : Conn) : bool := Connection.k_file (perms c).
Definition block_input_allowed (c : Conn) : bool := Connection.k_block_input (perms c).
Definition privacy_mode_allowed (c : Conn) : bool := Connection.k_privacy_mode (perms c).

Definition peer_keyboard_enabled (c : Conn) : bool := keyboard c && negb (disable_keyboard c).
Definition clipboard_enabled (c : Conn) : bool := clipboard c && negb (disable_clipboard c).
Definition audio_enabled (c : Conn) : bool := audio c && negb (disable_audio c).
Definition file_transfer_enabled (c : Conn) : bool := file c && enable_file_transfer c.

Definition can_sub_clipboard_service (e : Env) (c : Conn) : bool :=
  clipboard_enabled c && peer_keyboard_enabled c && negb (one_way_clipboard_redirection e).

Definition can_sub_file_clipboard_service (e : Env) (c : Conn) : bool :=
  clipboard_enabled c && file_transfer_enabled c && negb (one_way_file_transfer e).

Definition profiled_permission (e : Env) (option : string) (profiled : bool) (c : Conn) : bool :=
  permission e (Str.lit option) && (bool_decide (Connection.id_profile (perms c) = []) || profiled).

Definition remote_printer_allowed (e : Env) (c : Conn) : bool :=
  profiled_permission e "enable-remote-printer" (Connection.k_remote_printer (perms c)) c.

Definition tunnel_allowed (e : Env) (c : Conn) : bool :=
  profiled_permission e "enable-tunnel" (Connection.k_tunnel (perms c)) c.

Definition is_watermark_session (is_file_transfer is_view_camera is_terminal is_port_forward : bool) : bool :=
  let excluded := is_file_transfer || is_terminal || is_port_forward in
  let is_camera := is_view_camera && negb excluded in
  let is_desktop := negb is_view_camera && negb excluded in
  is_desktop || is_camera.

Definition should_request_controller_identity (e : Env) (c : Conn) : bool :=
  let eligible := is_watermark_session (is_file_transfer c) (view_camera c) (terminal c) (is_port_forward c) in
  (host_watermark e || controller_watermark e) && authorized c && eligible.

Definition send_clanto_effective_permissions : M unit :=
  c ← get;
  send_to_cm (DataEffectivePermissions (peer_keyboard_enabled c) (clipboard_enabled c) (audio_enabled c)
                (file_transfer_enabled c)).

(** ** Subscriptions *)

Definition NAME_CURSOR : rstr := Str.lit "mouse_cursor".
Definition NAME_POS : rstr := Str.lit "mouse_pos".
Definition NAME_WINDOW_FOCUS : rstr := Str.lit "window_focus".
Definition CLIPBOARD_NAME : rstr := Str.lit "clipboard".
Definition FILE_NAME : rstr := Str.lit "file-clipboard".
Definition AUDIO_NAME : rstr := Str.lit "audio".

Definition sub_service (e : Env) (name : rstr) (sub : Conn -> bool) : M unit :=
  c ← get; with_server (subscribe name (inner_id e) (sub c)).

Definition video_source (c : Conn) : VideoSource := if view_camera c then Camera else Monitor.

Definition try_sub_camera_displays (e : Env) : M unit :=
  with_server (fun sv => add_camera_connection (primary_camera_exists e) (inner_id e)
                           (try_add_primary_camera_service (primary_camera_exists e) sv)).

Definition noperms (e : Env) (c : Conn) : list rstr :=
  (if negb (peer_keyboard_enabled c) && negb (show_remote_cursor c) then [NAME_CURSOR] else [])
  ++ (if negb (show_remote_cursor c) then [NAME_POS] else [])
  ++ (if negb (follow_remote_window c) then [NAME_WINDOW_FOCUS] else [])
  ++ (if negb (can_sub_clipboard_service e c) then [CLIPBOARD_NAME] else [])
  ++ (if negb (can_sub_file_clipboard_service e c) then [FILE_NAME] else [])
  ++ (if negb (audio_enabled c) then [AUDIO_NAME] else []).

(** When it was last renewed, and the minutes. *)
Definition get_auto_disconnect_timer (e : Env) : option (Z * Z) :=
  if allow_auto_disconnect e then
    let minute := default 10 (Str.parse_uint 64 (auto_disconnect_timeout e)) in
    Some (now e, if minute =? 0 then 10 else minute)
  else None.

Definition update_auto_disconnect_timer (e : Env) : M unit :=
  modify (fun c => c <| auto_disconnect_timer := (fun t => (now e, t.2)) <$> auto_disconnect_timer c |>).

Definition try_sub_monitor_services (e : Env) : M unit :=
  c ← get;
  when (is_remote c && negb (services_subed c))
    (_ ← modify (fun c => c <| services_subed := true |>);
     sv ← get_server;
     match sv with
     | None => mret tt
     | Some _ =>
         _ ← modify (fun c => c <| auto_disconnect_timer := get_auto_disconnect_timer e |>);
         with_server (fun sv => add_monitor_connection (inner_id e) (noperms e c) (display_idx c)
                                  (try_add_monitor_service (display_idx c) sv))
     end).
