(* ===== verification/SessionHandler.v ===== *)
(** * The handlers of an authorised session: [src/server/connection.rs]

    What an authorised connection does with the messages of its peer ([on_message]) and of
    the connection manager, its options, displays, files, privacy mode, voice calls, the
    answer to a switch of sides and its end, over the state of [SessionState]. *)

From coqutil Require Import Datatypes.RecordSetters.
From S2P Require Import Prelude PortForwardMux FileScan Services SessionScope IdPermissions LoginFailure SessionState.
Import TriangleBracketNotations.

(** ** Displays *)

(** [as usize] of a number of the wire. *)
Definition as_usize (d : Z) : Z := Int.wrap 64 d.

Definition OPTION_REFRESH : rstr := Str.lit "refresh".

Definition refresh_video_display (display : option Z) : M unit :=
  c ← get;
  _ ← emit Refresh;
  with_server (set_video_service_opt ((fun d => (video_source c, d)) <$> display) OPTION_REFRESH
                 SERVICE_OPTION_VALUE_TRUE).

Definition switch_display_to (e : Env) (idx : Z) : M bool :=
  c ← get;
  let source := video_source c in
  if source_count e source <=? idx then mret false
  else
    let new_service_name := get_service_name source idx in
    let old_service_name := get_service_name source (display_idx c) in
    _ ← with_server (fun sv =>
          let sv := ensure_video source idx sv in
          let sv := if negb (support_multi_ui_session e)
                    then subscribe old_service_name (inner_id e) false sv else sv in
          subscribe new_service_name (inner_id e) true sv);
    _ ← modify (fun c => c <| display_idx := idx |>);
    mret true.

Definition change_resolution (e : Env) (d : option Z) (width height : Z) : M unit :=
  c ← get;
  when (keyboard c)
    (match displays e with
     | Some names =>
         match names !! Z.to_nat (default (display_idx c) d) with
         | Some name => emit (SetResolution name width height)
         | None => mret tt
         end
     | None => mret tt
     end).

Definition send_display_changed (e : Env) (idx : Z) : M unit :=
  c ← get;
  match display_changed_msg e idx (video_source c) with
  | Some msg => send (DisplayChanged msg)
  | None => mret tt
  end.

Definition handle_switch_display (e : Env) (display width height : Z) : M unit :=
  c ← get;
  let idx := as_usize display in
  if display_idx c =? idx then mret tt
  else
    sv ← get_server;
    switched ← match sv with
               | Some _ =>
                   ok ← switch_display_to e idx;
                   if ok : bool then
                     _ ← when (negb (view_camera c) && negb (width =? 0) && negb (height =? 0))
                           (change_resolution e None width height);
                     mret true
                   else mret false
               | None => mret true
               end;
    when switched (c ← get; send_display_changed e (display_idx c)).

Definition capture_displays (e : Env) (add sub set : list Z) : M unit :=
  c ← get;
  let source := video_source c in
  let count := source_count e source in
  let valid := List.filter (fun d => d <? count) in
  let nonempty (l : list Z) := match l with [] => false | _ => true end in
  if (nonempty add && negb (nonempty (valid add)))
     || (negb (nonempty add) && nonempty sub && negb (nonempty (valid sub)))
     || (negb (nonempty add) && negb (nonempty sub) && nonempty set && negb (nonempty (valid set)))
  then mret tt
  else
    _ ← with_server (fun sv =>
          let sv := foldl (fun sv d => ensure_video source d sv) sv (valid add) in
          let sv := foldl (fun sv d => ensure_video source d sv) sv (valid set) in
          if nonempty add then Services.capture_displays (inner_id e) source (valid add) true false sv
          else if nonempty sub then Services.capture_displays (inner_id e) source (valid sub) false true sv
          else Services.capture_displays (inner_id e) source (valid set) true true sv);
    sv ← get_server;
    match sv with
    | None => mret tt
    | Some sv =>
        _ ← modify (fun c => c <| multi_ui_session := (1 <? get_subbed_displays_count (inner_id e) sv)%nat |>);
        c ← get;
        when (follow_remote_window c)
          (sub_service e NAME_WINDOW_FOCUS (fun c => negb (multi_ui_session c)))
    end.

(** ** Privacy mode *)

Definition NOT_SUPPORTED : rstr :=
  Str.lit "Unsupported. 1 Multi-screen is not supported. 2 Please confirm the license is activated.".

Definition turn_off_privacy_result_to_msg (res : option (result unit rstr)) (impl_key : rstr) : PrivacyMsg :=
  match res with
  | Some (Ok _) => mkPrivacyMsg PrvOffSucceeded [] impl_key
  | Some (Err e) => mkPrivacyMsg PrvOffFailed e impl_key
  | None => mkPrivacyMsg PrvOffFailed (Str.lit "Not supported") impl_key
  end.

Definition turn_off_privacy_to_msg (e : Env) (impl_key : rstr) : M PrivacyMsg :=
  _ ← emit TurnOffPrivacy; mret (turn_off_privacy_result_to_msg (turn_off_result e) impl_key).

Definition turn_on_privacy (e : Env) (impl_key : rstr) : M unit :=
  c ← get;
  if negb (is_authed_remote_conn c) || negb (privacy_mode_allowed c) then
    send (PrivacyModeMsg (mkPrivacyMsg PrvOnFailedDenied [] impl_key))
  else
    msg ← (if negb (is_privacy_mode_supported e) then mret (mkPrivacyMsg PrvNotSupported NOT_SUPPORTED impl_key)
           else
             _ ← match cur_impl_key e with
                 | Some pre => when (is_in_privacy_mode e && negb (is_current_privacy_mode_impl e pre))
                                 (send (PrivacyModeMsg (mkPrivacyMsg PrvOffSucceeded [] pre)))
                 | None => mret tt
                 end;
             _ ← emit (TurnOnPrivacy impl_key);
             match turn_on_result e with
             | Some (Ok true) =>
                 match check_privacy_mode_err e with
                 | [] => mret (mkPrivacyMsg PrvOnSucceeded [] impl_key)
                 | err =>
                     _ ← turn_off_privacy_to_msg e [];
                     mret (mkPrivacyMsg PrvOnFailed err impl_key)
                 end
             | Some (Ok false) => mret (mkPrivacyMsg PrvOnFailed [] impl_key)
             | Some (Err err) =>
                 _ ← when (still_in_privacy_mode e) (_ ← turn_off_privacy_to_msg e []; mret tt);
                 mret (mkPrivacyMsg PrvOnFailed err impl_key)
             | None => mret (mkPrivacyMsg PrvOffFailed (Str.lit "Not supported") impl_key)
             end);
    send (PrivacyModeMsg msg).

Definition turn_off_privacy (e : Env) (impl_key : rstr) : M unit :=
  msg ← (if negb (is_privacy_mode_supported e) then mret (mkPrivacyMsg PrvNotSupported NOT_SUPPORTED impl_key)
         else turn_off_privacy_to_msg e impl_key);
  send (PrivacyModeMsg msg).

Definition toggle_privacy_mode (e : Env) (impl_key : rstr) (on : bool) : M unit :=
  if on then turn_on_privacy e impl_key else turn_off_privacy e impl_key.

(** ** Voice calls *)

Definition handle_voice_call (e : Env) (accepted : bool) : M unit :=
  c ← get;
  match voice_call_request_timestamp c with
  | None => mret tt
  | Some ts =>
      _ ← modify (fun c => c <| voice_call_request_timestamp := None |>);
      _ ← (if accepted then _ ← emit (VoiceCallInput true); send_to_cm DataStartVoiceCall
           else send_to_cm DataCloseVoiceCall);
      _ ← send (VoiceCallResponseMsg ts accepted);
      _ ← modify (fun c => c <| voice_calling := accepted |>);
      when (is_authed_view_camera_conn c)
        (sub_service e AUDIO_NAME (fun c => audio_enabled c && accepted))
  end.

Definition close_voice_call (e : Env) : M unit :=
  _ ← emit (VoiceCallInput false);
  _ ← send_to_cm DataCloseVoiceCall;
  _ ← modify (fun c => c <| voice_calling := false |>);
  c ← get;
  when (is_authed_view_camera_conn c) (sub_service e AUDIO_NAME (fun _ => false)).

(** ** Options *)

Definition is_yes (q : BoolOption) : bool := bool_decide (q = Yes).

(** [if let Ok(q) = .. { if q != NotSet { .. } }]. *)
Definition when_set (o : EnumOrUnknown BoolOption) (f : bool -> M unit) : M unit :=
  match o with
  | Known Yes => f true
  | Known No => f false
  | _ => mret tt
  end.

Definition option_changes (o : EnumOrUnknown BoolOption) : bool :=
  match o with Known Yes | Known No => true | _ => false end.

Definition sub_cursor (e : Env) : M unit :=
  sub_service e NAME_CURSOR (fun c => peer_keyboard_enabled c || show_remote_cursor c).
Definition sub_clipboard (e : Env) : M unit := sub_service e CLIPBOARD_NAME (can_sub_clipboard_service e).
Definition sub_file_clipboard (e : Env) : M unit := sub_service e FILE_NAME (can_sub_file_clipboard_service e).

(** What follows a change of the audio permission: a camera view hears it only during a
    voice call. *)
Definition sub_audio (e : Env) : M unit :=
  c ← get;
  if is_authed_view_camera_conn c then
    when (voice_calling c || negb (audio_enabled c)) (sub_service e AUDIO_NAME audio_enabled)
  else sub_service e AUDIO_NAME audio_enabled.

Definition try_empty_file_clipboard : M unit := emit EmptyFileClipboard.

Definition update_quality (o : OptionMessage) : M unit :=
  match enum_value (image_quality o) with
  | None => mret tt
  | Some q =>
      let image_quality :=
        match q with
        | QualityNotSet => if 0 <? custom_image_quality o then custom_image_quality o else -1
        | q => quality_value q
        end in
      when (0 <? image_quality) (emit (UserImageQuality image_quality))
  end.

Definition update_cursor_options (e : Env) (o : OptionMessage) : M unit :=
  _ ← when_set (SessionScope.show_remote_cursor o) (fun yes =>
        _ ← modify (fun c => c <| show_remote_cursor := yes |>);
        _ ← sub_cursor e;
        sub_service e NAME_POS show_remote_cursor);
  _ ← when_set (SessionScope.follow_remote_cursor o) (fun yes =>
        modify (fun c => c <| follow_remote_cursor := yes |>));
  when_set (SessionScope.follow_remote_window o) (fun yes =>
        _ ← modify (fun c => c <| follow_remote_window := yes |>);
        sub_service e NAME_WINDOW_FOCUS follow_remote_window).

Definition update_audio_option (e : Env) (o : OptionMessage) : M unit :=
  when_set (SessionScope.disable_audio o) (fun yes =>
    _ ← modify (fun c => c <| disable_audio := yes |>);
    sub_audio e).

Definition update_clipboard_options (e : Env) (o : OptionMessage) : M unit :=
  _ ← when_set (SessionScope.enable_file_transfer o) (fun yes =>
        _ ← modify (fun c => c <| enable_file_transfer := yes |>);
        _ ← when (negb yes) try_empty_file_clipboard;
        sub_file_clipboard e);
  _ ← when_set (SessionScope.disable_clipboard o) (fun yes =>
        _ ← modify (fun c => c <| disable_clipboard := yes |>);
        sub_clipboard e);
  when_set (SessionScope.disable_keyboard o) (fun yes =>
    _ ← modify (fun c => c <| disable_keyboard := yes |>);
    _ ← sub_clipboard e;
    _ ← sub_file_clipboard e;
    sub_cursor e).

Definition update_privacy_option (e : Env) (o : OptionMessage) : M unit :=
  when (before_1_2_4 e)
    (c ← get;
     when (keyboard c)
       (when_set (SessionScope.privacy_mode o) (fun yes =>
          if yes then turn_on_privacy e [] else turn_off_privacy e []))).

Definition update_block_input (o : OptionMessage) : M unit :=
  c ← get;
  when_set (SessionScope.block_input o) (fun yes =>
    if keyboard c && block_input_allowed c then emit (Input (if yes then BlockOn else BlockOff))
    else send (BlockInputError (if yes then BlkOnFailed else BlkOffFailed) (Str.lit "No permission"))).

Definition update_terminal_persistence (persistent : bool) : M unit :=
  _ ← modify (fun c => c <| terminal_persistent := persistent |>);
  emit (PersistTerminal persistent).

Definition update_show_my_cursor (e : Env) (o : OptionMessage) : M unit :=
  when_set (SessionScope.show_my_cursor o) (fun yes =>
    _ ← modify (fun c => c <| show_my_cursor := yes |>);
    if whiteboard_supported e then emit (Whiteboard yes)
    else when yes (send CursorNotSupported)).

Definition update_options (e : Env) (o : OptionMessage) : M unit :=
  let clanto_permissions_changed :=
    option_changes (SessionScope.disable_audio o) || option_changes (SessionScope.enable_file_transfer o)
    || option_changes (SessionScope.disable_clipboard o) || option_changes (SessionScope.disable_keyboard o) in
  _ ← update_quality o;
  _ ← when (0 <? custom_fps o) (emit (UserCustomFps (custom_fps o)));
  _ ← match supported_decoding o with Some q => emit (UpdateEncoding q) | None => mret tt end;
  _ ← when_set (SessionScope.lock_after_session_end o) (fun yes =>
        modify (fun c => c <| lock_after_session_end := yes |>));
  _ ← update_cursor_options e o;
  _ ← update_audio_option e o;
  _ ← update_clipboard_options e o;
  _ ← update_privacy_option e o;
  _ ← update_block_input o;
  _ ← when_set (SessionScope.terminal_persistent o) update_terminal_persistence;
  _ ← update_show_my_cursor e o;
  when clanto_permissions_changed send_clanto_effective_permissions.

Definition update_scoped_login_options (e : Env) : M unit :=
  c ← get;
  match options_in_login c with
  | None => mret tt
  | Some o =>
      _ ← modify (fun c => c <| options_in_login := None |>);
      match authed_conn_id c with
      | None => mret tt
      | Some t =>
          match (scoped_login_option t o).1 with
          | Some o => update_options e o
          | None => mret tt
          end
      end
  end.

(** ** The end *)

Definition remember_close_reason (reason : rstr) : M unit :=
  modify (fun c => match close_reason c with
                   | None => c <| close_reason := Some reason |>
                   | Some _ => c
                   end).

Definition on_close (e : Env) (reason : string) (lock : bool) : M unit :=
  _ ← remember_close_reason (Str.lit reason);
  c ← get;
  if closed c then mret tt
  else
    _ ← modify (fun c => c <| closed := true |>);
    _ ← emit CloseForwarding;
    _ ← emit UnregisterGrant;
    _ ← emit (VoiceCallInput false);
    _ ← when (lock && lock_after_session_end c && keyboard c && negb (session_reconnected e))
          (emit LockScreen);
    _ ← send_to_cm (if chat_unanswered c || file_transferred c then DataDisconnected else DataClose);
    modify (fun c => c <| port_forward_socket := false |> <| port_forward_mux := false |>).

Definition send_close_reason_no_retry (reason : rstr) : M unit :=
  let reason := match reason with [] => Str.lit "Closed manually by the peer" | _ => reason end in
  _ ← remember_close_reason reason;
  _ ← send (OutCloseReason reason);
  emit RemoveSession.

Definition handle_authorized_scope_violation (e : Env) (message : rstr) : M bool :=
  c ← get;
  let is_first := negb (bool_decide (message ∈ scope_violation_messages c)) in
  _ ← modify (fun c => c <| scope_violation_messages := {[message]} ∪ scope_violation_messages c |>);
  _ ← when (is_first && scope_violation_alarm e) (emit (Alarm message));
  if scope_violation_close e then
    _ ← send_close_reason_no_retry (Str.lit "Connection not allowed");
    _ ← on_close e "Session scope violation" true;
    mret false
  else mret true.

(** ** Files *)

Definition files_for_audit (files : list FileEntry) : list (rstr * Z) :=
  (fun f => (SessionScope.name f, SessionScope.size f)) <$> files.

Definition process_new_read_job (id : Z) (printer : bool) (files : list FileEntry) (path : rstr) : M unit :=
  _ ← send (NewDir id path files);
  _ ← modify (fun c => c <| read_jobs := read_jobs c ++ [mkReadJob id printer files] |>);
  emit (FileAudit false (if printer then Str.lit "Remote print" else path)
    (if printer then (fun f => (Str.lit "Remote print", SessionScope.size f)) <$> files
     else files_for_audit files)).

Definition create_and_start_read_job (e : Env) (id : Z) (printer : bool)
    (job : result (list FileEntry) rstr) (path : rstr) (check_file_limit : bool) : M unit :=
  match job with
  | Err err => send (NewError id err 0)
  | Ok files =>
      let '(rejected, events) :=
        if printer then (None, []) else reject_files_from_host (file_options e) path (files_for_audit files) in
      _ ← policy_audit events;
      match rejected with
      | Some message => send (NewError id message 0)
      | None =>
          match (if check_file_limit then check_file_count_limit e (length files) else None) with
          | Some msg => send (NewError id msg (-1))
          | None => process_new_read_job id printer files path
          end
      end
  end.

Definition send_files (e : Env) (id : Z) (path : rstr) (include_hidden : bool) (file_num : Z)
    (file_type : EnumOrUnknown FileType) : M unit :=
  if negb (file_type_is_printer file_type) then
    _ ← (if need_fs_cm_send_files e then
           _ ← modify (fun c => c <| cm_read_job_ids := {[id]} ∪ cm_read_job_ids c |>);
           send_fs (FsReadFile path id file_num include_hidden (can_enable_overwrite_detection e))
         else
           create_and_start_read_job e id false
             (new_read e path file_num include_hidden (can_enable_overwrite_detection e)) path true);
    modify (fun c => c <| file_transferred := true |>)
  else
    c ← get;
    if negb (remote_printer_allowed e c) then mret tt
    else
      match list_find (fun pd => pd.1 = path) (printer_data c) with
      | Some (i, (_, data)) =>
          _ ← modify (fun c => c <| printer_data := delete i (printer_data c) |>);
          _ ← create_and_start_read_job e id true (new_read_printer e data) path false;
          modify (fun c => c <| file_transferred := true |>)
      | None => mret tt
      end.

Definition all_files (e : Env) (id : Z) (path : rstr) (include_hidden : bool) : M unit :=
  if need_fs_cm_send_files e then send_fs (FsReadAllFiles path id include_hidden)
  else
    match get_recursive_files e path include_hidden with
    | Err err => send (NewError id err (-1))
    | Ok files =>
        match check_file_count_limit e (length files) with
        | Some msg => send (NewError id msg (-1))
        | None => send (NewDir id path files)
        end
    end.

Definition cancel_job (id : Z) : M unit :=
  _ ← send_fs (FsCancelWrite id);
  _ ← modify (fun c => c <| cm_read_job_ids := cm_read_job_ids c ∖ {[id]} |>);
  _ ← send_fs (FsCancelRead id);
  c ← get;
  match list_find (fun j => rj_id j = id) (read_jobs c) with
  | Some (i, _) =>
      _ ← modify (fun c => c <| read_jobs := delete i (read_jobs c) |>);
      send_to_cm (DataFileTransferLog (Str.lit "transfer"))
  | None => mret tt
  end.

Definition send_confirm (id : Z) (confirm : bytes) : M unit :=
  c ← get;
  if existsb (fun j => rj_id j =? id) (read_jobs c) then emit (ConfirmRead id confirm)
  else if bool_decide (id ∈ cm_read_job_ids c) then send_fs (FsSendConfirmForRead id confirm)
  else send_fs (FsSendConfirm confirm).

Definition do_file_action (e : Env) (action : FileAction) : M unit :=
  match action with
  | ReadEmptyDirs path include_hidden => send_fs (FsReadEmptyDirs path include_hidden)
  | ReadDir path include_hidden => send_fs (FsReadDir path include_hidden)
  | AllFiles id path include_hidden => all_files e id path include_hidden
  | SendFiles id path include_hidden file_num file_type =>
      send_files e id path include_hidden file_num file_type
  | ReceiveFiles id path file_num files total_size =>
      _ ← send_fs (FsNewWrite path id file_num
                     ((fun f => (SessionScope.name f, modified_time f)) <$> files)
                     (can_enable_overwrite_detection e) total_size);
      _ ← emit (FileAudit true path (files_for_audit files));
      modify (fun c => c <| file_transferred := true |>)
  | RemoveDir id path recursive =>
      _ ← send_fs (FsRemoveDir path id recursive); emit (RemoveLog path id)
  | RemoveFile id path file_num =>
      _ ← send_fs (FsRemoveFile path id file_num); emit (RemoveLog path id)
  | CreateDir id path =>
      _ ← send_fs (FsCreateDir path id); send_to_cm (DataFileTransferLog (Str.lit "create_dir"))
  | CancelJob id => cancel_job id
  | SendConfirm id confirm => send_confirm id confirm
  | Rename id path new_name =>
      _ ← send_fs (FsRename id path new_name); send_to_cm (DataFileTransferLog (Str.lit "rename"))
  end.

(** The job that is told of a one-way transfer. *)
Definition one_way_job (action : FileAction) : option Z :=
  match action with
  | SendFiles id _ _ _ _ | RemoveFile id _ _ | Rename id _ _ | CreateDir id _ | RemoveDir id _ _ => Some id
  | _ => None
  end.

Definition on_file_action (e : Env) (action : FileAction) : M unit :=
  c ← get;
  let handle_fa :=
    is_file_transfer c
    || match action with
       | SendFiles _ _ _ _ file_type => file_type_is_printer file_type && remote_printer_allowed e c
       | _ => false
       end in
  when handle_fa
    (let '(rejection, events) := reject_file_action (file_options e) action in
     _ ← policy_audit events;
     match rejection with
     | Some r => send (NewError (rej_id r) (message r) (rej_file_num r))
     | None =>
         match delayed_read_dir c with
         | Some _ =>
             match action with
             | ReadDir path include_hidden =>
                 modify (fun c => c <| delayed_read_dir := Some (path, include_hidden) |>)
             | _ => mret tt
             end
         | None =>
             match (if one_way_file_transfer e then one_way_job action else None) with
             | Some job_id => send (NewError job_id (Str.lit "one-way-file-transfer-tip") 0)
             | None => do_file_action e action
             end
         end
     end).

Definition on_file_response (r : FileResponse) : M unit :=
  match r with
  | SessionScope.Block id file_num data compressed => send_fs (FsWriteBlock id file_num data compressed)
  | Done id file_num => send_fs (FsWriteDone id file_num)
  | Digest id file_num file_size last_modified is_resume =>
      send_fs (FsCheckDigest id file_num file_size last_modified is_resume)
  | Error id error file_num => send_fs (FsWriteError id file_num error)
  | OtherResponse => mret tt
  end.

(** ** The file clipboard *)

Definition is_file_data_request (clip : Cliprdr) : bool :=
  match clip with FormatDataRequest _ | FileContentsRequest _ _ _ _ _ _ _ _ => true | _ => false end.

Definition answer_clip (e : Env) (answer : Cliprdr) : M unit :=
  let '(answer, events) := filter_clipboard_from_host (file_options e) answer in
  _ ← policy_audit events;
  match answer with
  | Files files => emit (FileAudit false [] files)
  | _ => send (OutClip answer)
  end.

Definition on_cliprdr (e : Env) (clip : Cliprdr) : M unit :=
  c ← get;
  let '(clip, events) := filter_clipboard_to_host (file_options e) clip in
  _ ← policy_audit events;
  match clip with
  | Files files => emit (FileAudit true [] files)
  | _ =>
      if is_file_data_request clip && one_way_file_transfer e then mret tt
      else
        match refuse_clipboard_from_host (file_options e) clip with
        | Some refusal => send (OutClip refusal)
        | None =>
            when (msg_2_clip e clip && is_support_file_copy_paste e && file_transfer_enabled c)
              (_ ← emit (ServeClip clip); for_each (serve_clip_messages e clip) (answer_clip e))
        end
  end.

(** ** Input *)

Definition MOUSE_TYPE_MASK : Z := 7.
Definition MOUSE_TYPE_UP : Z := 2.
Definition MOUSE_BUTTON_LEFT : Z := 1.

Definition is_left_up (evt : MouseEvent) : bool :=
  (Z.shiftr (mask evt) 3 =? MOUSE_BUTTON_LEFT) && (Z.land (mask evt) MOUSE_TYPE_MASK =? MOUSE_TYPE_UP).

Definition CONTROL_RETURN : Z := 27.
Definition CONTROL_NUMPAD_ENTER : Z := 72.

Definition is_enter (evt : KeyEvent) : bool :=
  match key_union evt with
  | Some (ControlKey ck) => (ck =? CONTROL_RETURN) || (ck =? CONTROL_NUMPAD_ENTER)
  | _ => false
  end.

Definition input_mouse (me : MouseEvent) (simulate show_cursor : bool) : M unit :=
  emit (Input (InputMouse me simulate show_cursor)).
Definition input_key (me : KeyEvent) (press : bool) : M unit := emit (Input (InputKey me press)).

Definition on_mouse_event (e : Env) (me : MouseEvent) : M unit :=
  c ← get;
  if is_authed_view_camera_conn c then mret tt
  else
    _ ← mark_permission "keyboard_mouse";
    _ ← (if peer_keyboard_enabled c then
           _ ← emit (if is_left_up me then ClickTime else MouseMoveTime);
           input_mouse me true (show_my_cursor c)
         else when (show_my_cursor c) (input_mouse me false true));
    update_auto_disconnect_timer e.

Definition on_pointer_device_event (e : Env) (pde : bytes) : M unit :=
  c ← get;
  if is_authed_view_camera_conn c then mret tt
  else
    _ ← mark_permission "keyboard_mouse";
    _ ← when (peer_keyboard_enabled c)
          (_ ← emit MouseMoveTime; emit (Input (InputPointer pde)));
    update_auto_disconnect_timer e.

(** A modifier is pressed or not; [is_press] is Linux': every down of a key that is no
    modifier. *)
Definition is_press (e : Env) (me : KeyEvent) : bool :=
  (press me || down me) && negb (is_modifier e me || bool_decide (is_Some (modifier e me))).

Definition press_modifier (key : option Z) (pressed : bool) (c : Conn) : Conn :=
  match key with
  | Some k =>
      c <| pressed_modifiers := if pressed then {[k]} ∪ pressed_modifiers c
                                else pressed_modifiers c ∖ {[k]} |>
  | None => c
  end.

Definition on_key_event (e : Env) (me : KeyEvent) : M unit :=
  c ← get;
  if is_authed_view_camera_conn c then mret tt
  else
    _ ← mark_permission "keyboard_mouse";
    _ ← when (peer_keyboard_enabled c)
          (_ ← when (is_enter me) (emit ClickTime);
           _ ← emit MouseMoveTime;
           let pressed := is_press e me in
           _ ← modify (press_modifier (modifier e me) pressed);
           if pressed then
             match key_union me with
             | Some (Unicode _) | Some (Seq _) => input_key me false
             | _ => input_key me true
             end
           else input_key me false);
    update_auto_disconnect_timer e.

Definition on_clipboards (contents : list bytes) : M unit :=
  c ← get;
  when (should_handle_text_clipboard_message c && clipboard_enabled c)
    (_ ← mark_permission "clipboard"; emit (UpdateClipboard contents)).

(** ** The messages of a session *)

Definition on_option (e : Env) (o : OptionMessage) : M unit :=
  c ← get;
  if bool_decide (authed_conn_id c = Some Remote) then update_options e o
  else match scoped_update_option_message (authed_conn_id c) o with
       | Some o => update_options e o
       | None => mret tt
       end.

(** Whether the connection is kept. *)
Definition on_switch_sides_request (e : Env) (uuid : bytes) : M bool :=
  if uuid_from_slice e uuid then
    _ ← when (insert_pending_switch_sides_uuid e uuid) (emit (RunMe uuid));
    _ ← on_close e "switch sides" false;
    mret false
  else mret true.

Definition on_request_cursor_data (e : Env) (id : Z) : M unit :=
  c ← get;
  when (is_remote c && (peer_keyboard_enabled c || show_remote_cursor c))
    (match cursor_data_message e id with Some msg => send (CursorData msg) | None => mret tt end).

Definition on_controller_identity (e : Env) (account_user os_user pc_name : rstr) : M unit :=
  c ← get;
  when (should_request_controller_identity e c)
    (_ ← modify (fun c => c <| controller_identity := Some (account_user, os_user, pc_name) |>);
     _ ← emit (ConnAudit (Str.lit "controller_identity"));
     send_to_cm (DataControllerIdentity account_user os_user pc_name)).

Definition on_misc (e : Env) (misc : Misc) : M bool :=
  c ← get;
  let keep (m : M unit) : M bool := _ ← m; mret true in
  let unless_camera (m : M unit) : M bool := keep (when (negb (view_camera c)) m) in
  match misc with
  | ClantoControllerIdentity account_user os_user pc_name =>
      keep (on_controller_identity e account_user os_user pc_name)
  | SwitchDisplay display width height => keep (handle_switch_display e display width height)
  | CaptureDisplays add sub set =>
      keep (capture_displays e (as_usize <$> add) (as_usize <$> sub) (as_usize <$> set))
  | TogglePrivacyMode impl_key on => unless_camera (toggle_privacy_mode e impl_key on)
  | ChatMessage text =>
      keep (_ ← send_to_cm (DataChat text);
            _ ← modify (fun c => c <| chat_unanswered := true |>);
            update_auto_disconnect_timer e)
  | OptionMisc o => keep (on_option e o)
  | RefreshVideo r =>
      keep (when (should_handle_render_broadcast_message c)
              (_ ← when r (refresh_video_display None); update_auto_disconnect_timer e))
  | RefreshVideoDisplay display =>
      keep (when (should_handle_render_broadcast_message c)
              (_ ← refresh_video_display (Some (as_usize display)); update_auto_disconnect_timer e))
  | VideoReceived => keep (emit FrameFetched)
  | RestartRemoteDevice =>
      keep (when (Connection.k_restart (perms c)) (_ ← mark_permission "remote_restart"; emit Reboot))
  | AudioFormat format =>
      keep (when (negb (disable_audio c))
              (_ ← modify (fun c => c <| audio_sender := true |>); emit (StartAudio format)))
  | SwitchSidesRequest uuid => on_switch_sides_request e uuid
  | ChangeResolution width height => unless_camera (change_resolution e None width height)
  | ChangeDisplayResolution display width height =>
      unless_camera (change_resolution e (Some (as_usize display)) width height)
  | AutoAdjustFps fps => keep (emit (UserAutoAdjustFps fps))
  | ClientRecordStatus status =>
      keep (_ ← when status (mark_permission "recording"); emit (UserRecord status))
  | MessageQuery switch_display => keep (send_display_changed e (as_usize switch_display))
  | RequestCursorData id => keep (on_request_cursor_data e id)
  | ToggleVirtualDisplay _ _ | ElevationRequest | SelectedSid _ | FollowCurrentDisplay _
  | CloseReason _ | OtherMisc => mret true
  end.

Definition on_audio_frame (frame : bytes) : M unit :=
  c ← get;
  when (negb (disable_audio c))
    (_ ← mark_permission "audio"; when (audio_sender c) (emit (PlayAudio frame))).

Definition on_voice_call_request (e : Env) (req_timestamp : Z) (is_connect : bool) : M unit :=
  if is_connect then
    _ ← modify (fun c => c <| voice_call_request_timestamp :=
                               Some (if req_timestamp =? 0 then now e else req_timestamp) |>);
    send_to_cm DataVoiceCallIncoming
  else close_voice_call e.

Definition handle_terminal_action (e : Env) (action : bytes) : M unit :=
  c ← get;
  when (terminal_user_token c)
    (_ ← emit (DoTerminal action);
     match terminal_answer e action with
     | Ok (Some response) => send (OutTerminal response)
     | Ok None => mret tt
     | Err err => send (OutTerminalError (Str.lit "Failed to handle action: " ++ err))
     end).

Definition handle_port_forward_channel (e : Env) (f : frame) : M unit :=
  c ← get; when (port_forward_mux c) (emit (MuxHandle f (tunnel_allowed e c))).

Definition on_screenshot_request (e : Env) (display : Z) (sid : rstr) : M unit :=
  c ← get;
  _ ← emit (TakeScreenshot (video_source c) (as_usize display) sid);
  refresh_video_display (Some (as_usize display)).

Definition on_test_delay (e : Env) (from_client : bool) (t : bytes) : M unit :=
  if from_client then emit (EchoTestDelay t)
  else
    c ← get;
    match last_test_delay c with
    | None => mret tt
    | Some tm =>
        let new_delay := Int.wrap 32 (now e - tm) in
        _ ← modify (fun c => c <| last_test_delay := None |>);
        _ ← emit (UserNetworkDelay new_delay);
        modify (fun c => c <| network_delay := new_delay |>)
    end.

Definition on_forward_message (e : Env) (msg : bytes) : M unit :=
  c ← get;
  _ ← emit (ForwardMessage msg (Connection.clanto_forward_profile (perms c))
              (Connection.clanto_camera_profile (perms c)));
  when (forward_asks_camera e msg) (send_to_cm DataCameraRequest).

Definition on_session_message (e : Env) (msg : Message) : M bool :=
  let keep (m : M unit) : M bool := _ ← m; mret true in
  match msg with
  | MouseEventMsg me => keep (on_mouse_event e me)
  | PointerDeviceEvent pde => keep (on_pointer_device_event e pde)
  | KeyEventMsg me => keep (on_key_event e me)
  | Clipboard content => keep (on_clipboards [content])
  | MultiClipboards contents => keep (on_clipboards contents)
  | CliprdrMsg clip => keep (on_cliprdr e clip)
  | FileActionMsg (Some action) => keep (on_file_action e action)
  | FileResponseMsg r => keep (on_file_response r)
  | MiscMsg (Some misc) => on_misc e misc
  | AudioFrame frame => keep (on_audio_frame frame)
  | VoiceCallRequest req_timestamp is_connect => keep (on_voice_call_request e req_timestamp is_connect)
  | ScreenshotRequest display sid => keep (on_screenshot_request e display sid)
  | PortForwardChannel f =>
      keep (_ ← mark_permission "tunnel"; handle_port_forward_channel e f)
  | TerminalAction action => keep (_ ← mark_permission "terminal"; handle_terminal_action e action)
  | _ => mret true
  end.

(** ** The switch of sides on a connection that is authorised already *)

Definition SWITCH_SIDES_UUID_TTL : Z := 10000.

(** A login that asks for the desktop again.  The address of a port forwarding is not
    looked at any more. *)
Definition reset_session_scope_for_login (c : Conn) : Conn :=
  c <| file_transfer := None |> <| view_camera := false |> <| terminal := false |>
    <| terminal_persistent := false |>.

(** The whitelist of IDs, with what it remembers as the reason of the close. *)
Definition check_id_whitelist (e : Env) (my_id : rstr) : M bool :=
  let '(failures, ok, es) :=
    Buckets.check_id_whitelist (to_lowercase e) (id_failures e) (opt_id_whitelist e) (ip e) my_id
      (now_ms e) in
  let blocked := existsb (fun eff => match eff with Buckets.Alarm IdWhitelist => true | _ => false end) es in
  _ ← emit (SetIdFailures failures);
  _ ← for_each es (fun eff => emit (LoginCheck eff));
  _ ← when (negb ok)
        (remember_close_reason
           (if blocked then Str.lit "Your ID is blocked by the peer"
            else Str.lit "ID whitelist rejected by failure policy"));
  mret ok.

(** The permissions of the options, the profile of the ID and the grant. *)
Definition permissions_of (e : Env) (my_id : rstr) (p : Perms) : Perms :=
  Connection.apply_id_permissions (to_lowercase e) (from_json e) (permission e)
    (opt_id_whitelist e) (opt_id_permissions e) (recording_forbidden e) (grant_allows e) my_id p.

Definition apply_id_permissions (e : Env) (my_id : rstr) : M unit :=
  _ ← modify (fun c => c <| perms ::= permissions_of e my_id |>);
  c ← get;
  for_each
    [(Profiles.Keyboard, Connection.k_keyboard (perms c)); (Profiles.Clipboard, Connection.k_clipboard (perms c));
     (Profiles.File, Connection.k_file (perms c)); (Profiles.Audio, Connection.k_audio (perms c));
     (Profiles.Restart, Connection.k_restart (perms c)); (Profiles.Recording, Connection.k_recording (perms c));
     (Profiles.BlockInput, Connection.k_block_input (perms c));
     (Profiles.PrivacyMode, Connection.k_privacy_mode (perms c))]
    (fun pe => send_permission pe.1 pe.2).

Definition try_start_cm (peer_id : rstr) : M unit :=
  c ← get;
  _ ← send_to_cm (DataLogin peer_id (is_file_transfer c) (view_camera c) (terminal c) (authorized c)
                    (from_switch c) (perms c));
  _ ← send_to_cm DataSessionCode;
  send_clanto_effective_permissions.

(** The code that the peer was given, when it shows it in time. *)
Definition switch_code_ok (e : Env) (uuid : bytes) (lr : SwitchLogin) : bool :=
  let codes := filter (fun ku => ku.2.1 < SWITCH_SIDES_UUID_TTL) (switch_sides_uuid e) in
  uuid_from_slice e uuid
  && match codes !! login_my_id lr with Some (_, uuid_old) => bool_decide (uuid = uuid_old) | None => false end.

(** The second factor, which the login looks at too, and the answer to the login, which
    does nothing on an authorised connection, are left out; the options of the login are
    kept although nothing takes them any more. *)
Definition on_switch_sides_response (e : Env) (uuid : bytes) (lr : option SwitchLogin) : M bool :=
  match lr with
  | None => mret true
  | Some lr =>
      let codes := filter (fun ku => ku.2.1 < SWITCH_SIDES_UUID_TTL) (switch_sides_uuid e) in
      _ ← emit (SetSwitchSidesUuid (delete (login_my_id lr) codes));
      if negb (switch_code_ok e uuid lr) then mret true
      else if login_has_union lr then
        _ ← send (LoginError (Str.lit "Connection not allowed"));
        _ ← remember_close_reason (Str.lit "Connection not allowed");
        mret false
      else
        _ ← modify reset_session_scope_for_login;
        _ ← modify (fun c => match login_option_message lr with
                             | Some o => c <| options_in_login := Some o |>
                             | None => c
                             end);
        ok ← check_id_whitelist e (login_my_id lr);
        if negb ok then mret false
        else
          _ ← apply_id_permissions e (login_my_id lr);
          _ ← modify (fun c => c <| from_switch := true |>);
          _ ← emit AuditAsSwitchSides;
          _ ← try_start_cm (login_my_id lr);
          _ ← emit StartCmIpc;
          mret true
  end.

(** [on_message]: whether the connection is kept; what it does with the messages of a
    login, on a connection that is not authorised, is [ConnLogin]. *)
Definition on_message (e : Env) (msg : option Message) : M bool :=
  c ← get;
  match msg with
  | Some (MiscMsg (Some (CloseReason _))) =>
      _ ← on_close e "Peer close" true;
      _ ← emit RemoveSession;
      mret false
  | Some LoginRequest => mret true
  | _ =>
      match (if authorized c then authorized_scope_violation (authed_conn_id c) msg else None) with
      | Some message => handle_authorized_scope_violation e message
      | None =>
          match msg with
          | Some (TestDelay from_client t) => _ ← on_test_delay e from_client t; mret true
          | Some (SwitchSidesResponse uuid lr) =>
              if authorized c then on_switch_sides_response e uuid lr else mret true
          | Some (ClantoForward cf) =>
              if authorized c then _ ← on_forward_message e cf; mret true else mret true
          | Some m => if negb (authorized c) || port_forward_socket c then mret true else on_session_message e m
          | None => mret true
          end
      end
  end.

(** ** The connection manager *)

Inductive CmMessage :=
| CmClose
| CmWindowClosed
| CmErr (expected : bool)
| CmChat (text : rstr)
| SwitchPermission (name : rstr) (enabled : bool)
| CmRawMessage (bytes : bytes)
| CmPrivacyModeState (state : PrivacyModeState) (impl_key : rstr)
| SwitchSidesBack
| CmVoiceCallResponse (accepted : bool)
| CloseVoiceCall
| ClantoFileScan (kind value : rstr)
| ClantoCameraResponse (accepted : bool)
| ReadJobInitResult (id conn_id : Z) (result : result bytes rstr)
| FileBlockFromCM (id file_num : Z) (data : bytes) (compressed : bool) (conn_id : Z)
| FileReadDone (id file_num conn_id : Z)
| FileReadError (id file_num : Z) (err : rstr) (conn_id : Z)
| FileDigestFromCM (id file_num last_modified file_size : Z) (is_resume : bool) (conn_id : Z)
| AllFilesResult (id conn_id : Z) (path : rstr) (result : result bytes rstr).

(** An assignment of a permission of the connection. *)
Definition set_keyboard (v : bool) (c : Conn) : Conn :=
  c <| perms ::= fun p => p <| Connection.k_keyboard := v |> |>.
Definition set_clipboard (v : bool) (c : Conn) : Conn :=
  c <| perms ::= fun p => p <| Connection.k_clipboard := v |> |>.
Definition set_audio (v : bool) (c : Conn) : Conn :=
  c <| perms ::= fun p => p <| Connection.k_audio := v |> |>.
Definition set_file (v : bool) (c : Conn) : Conn :=
  c <| perms ::= fun p => p <| Connection.k_file := v |> |>.
Definition set_restart (v : bool) (c : Conn) : Conn :=
  c <| perms ::= fun p => p <| Connection.k_restart := v |> |>.
Definition set_recording (v : bool) (c : Conn) : Conn :=
  c <| perms ::= fun p => p <| Connection.k_recording := v |> |>.
Definition set_block_input (v : bool) (c : Conn) : Conn :=
  c <| perms ::= fun p => p <| Connection.k_block_input := v |> |>.
Definition set_privacy_mode (v : bool) (c : Conn) : Conn :=
  c <| perms ::= fun p => p <| Connection.k_privacy_mode := v |> |>.

Definition switch_keyboard (e : Env) (enabled : bool) : M unit :=
  _ ← modify (set_keyboard enabled);
  _ ← send_permission Profiles.Keyboard enabled;
  _ ← sub_clipboard e;
  _ ← sub_file_clipboard e;
  sub_service e NAME_CURSOR (fun c => enabled || show_remote_cursor c).

Definition switch_clipboard (e : Env) (enabled : bool) : M unit :=
  _ ← modify (set_clipboard enabled);
  _ ← send_permission Profiles.Clipboard enabled;
  sub_clipboard e.

Definition switch_audio (e : Env) (enabled : bool) : M unit :=
  _ ← modify (set_audio enabled);
  _ ← send_permission Profiles.Audio enabled;
  c ← get;
  when (authorized c) (sub_audio e).

Definition switch_file (e : Env) (enabled : bool) : M unit :=
  _ ← modify (set_file enabled);
  _ ← send_permission Profiles.File enabled;
  _ ← when (negb enabled) try_empty_file_clipboard;
  sub_file_clipboard e.

(** Revoking leaves the privacy mode first; when that fails the permission stays. *)
Definition switch_privacy_mode (e : Env) (enabled : bool) : M unit :=
  let revoke := _ ← modify (set_privacy_mode enabled); send_permission Profiles.PrivacyMode enabled in
  if negb enabled && is_in_privacy_mode e && bool_decide (privacy_mode_conn_id e = Some (inner_id e)) then
    let impl_key := default [] (cur_impl_key e) in
    _ ← emit TurnOffPrivacy;
    match turn_off_result e with
    | Some (Ok _) => _ ← send (PrivacyModeMsg (mkPrivacyMsg PrvOffByPeer [] impl_key)); revoke
    | res =>
        _ ← send (PrivacyModeMsg (turn_off_privacy_result_to_msg res impl_key));
        c ← get;
        send_to_cm (DataSwitchPermission (Str.lit "privacy_mode") (privacy_mode_allowed c))
    end
  else revoke.

Definition is_name (name : rstr) (s : string) : bool := bool_decide (name = Str.lit s).

Definition on_switch_permission (e : Env) (name : rstr) (enabled : bool) : M unit :=
  let name_is := is_name name in
  _ ← (if name_is "keyboard"%string then switch_keyboard e enabled
       else if name_is "clipboard"%string then switch_clipboard e enabled
       else if name_is "audio"%string then switch_audio e enabled
       else if name_is "file"%string then switch_file e enabled
       else if name_is "restart"%string then
         _ ← modify (set_restart enabled); send_permission Profiles.Restart enabled
       else if name_is "recording"%string then
         let allowed := Connection.recording_allowed enabled (recording_forbidden e) in
         _ ← modify (set_recording allowed); send_permission Profiles.Recording allowed
       else if name_is "block_input"%string then
         _ ← modify (set_block_input enabled); send_permission Profiles.BlockInput enabled
       else if name_is "privacy_mode"%string then switch_privacy_mode e enabled
       else mret tt);
  when (name_is "keyboard"%string || name_is "clipboard"%string || name_is "audio"%string
        || name_is "file"%string) send_clanto_effective_permissions.

(** A file that the connection manager reads: what it answers of a job that is not
    awaited any more is dropped. *)
Definition when_awaited (id : Z) (m : M unit) : M unit :=
  c ← get; when (bool_decide (id ∈ cm_read_job_ids c)) m.

Definition forget_job (id : Z) : M unit :=
  modify (fun c => c <| cm_read_job_ids := cm_read_job_ids c ∖ {[id]} |>).

Definition handle_read_job_init_result (e : Env) (id : Z) (res : result bytes rstr) : M unit :=
  when_awaited id
    (match res with
     | Err error => _ ← forget_job id; send (NewError id error 0)
     | Ok dir_bytes =>
         match parse_directory e dir_bytes with
         | None => _ ← forget_job id; send (NewError id (Str.lit "internal error") 0)
         | Some (path, entries) =>
             let '(rejected, events) :=
               reject_files_from_host (file_options e) path (files_for_audit entries) in
             _ ← policy_audit events;
             match rejected with
             | Some message =>
                 _ ← forget_job id;
                 _ ← send_fs (FsCancelRead id);
                 send (NewError id message 0)
             | None =>
                 _ ← send (NewDir id path entries);
                 _ ← emit (FileAudit false path (files_for_audit entries));
                 modify (fun c => c <| file_transferred := true |>)
             end
         end
     end).

Definition handle_file_block_from_cm (id file_num : Z) (data : bytes) (compressed : bool) : M unit :=
  when_awaited id (send (OutBlock id file_num data compressed)).
Definition handle_file_read_done (id file_num : Z) : M unit :=
  when_awaited id (_ ← forget_job id; send (OutDone id file_num)).
Definition handle_file_read_error (id file_num : Z) (err : rstr) : M unit :=
  when_awaited id (_ ← forget_job id; send (NewError id err file_num)).
Definition handle_file_digest_from_cm (id file_num last_modified file_size : Z) (is_resume : bool) : M unit :=
  when_awaited id (send (OutDigest id file_num last_modified file_size is_resume)).

Definition handle_all_files_result (e : Env) (id : Z) (path : rstr) (res : result bytes rstr) : M unit :=
  match res with
  | Err err => send (NewError id err (-1))
  | Ok bytes =>
      match parse_directory e bytes with
      | Some (dir, entries) => send (NewDir id dir entries)
      | None => send (NewError id (Str.lit "deserialize failed for " ++ path) (-1))
      end
  end.

Definition on_cm_message (e : Env) (msg : CmMessage) : M bool :=
  let keep (m : M unit) : M bool := _ ← m; mret true in
  let mine (conn_id : Z) (m : M unit) : M bool := keep (when (conn_id =? inner_id e) m) in
  let seen := modify (fun c => c <| chat_unanswered := false |> <| file_transferred := false |>) in
  match msg with
  | CmClose =>
      _ ← seen;
      _ ← remember_close_reason (Str.lit "Closed manually by connection manager");
      _ ← send_close_reason_no_retry [];
      _ ← on_close e "connection manager" true;
      mret false
  | CmWindowClosed =>
      _ ← seen; _ ← on_close e "connection manager window closed" true; mret false
  | CmErr expected =>
      if expected then mret true
      else _ ← on_close e "connection manager error" false; mret false
  | CmChat text =>
      keep (_ ← send (OutChat text); modify (fun c => c <| chat_unanswered := false |>))
  | SwitchPermission name enabled => keep (on_switch_permission e name enabled)
  | CmRawMessage bytes => keep (send (RawMessage bytes))
  | CmPrivacyModeState state impl_key => keep (send (PrivacyModeMsg (mkPrivacyMsg state [] impl_key)))
  | SwitchSidesBack => keep (send SwitchBack)
  | CmVoiceCallResponse accepted => keep (handle_voice_call e accepted)
  | ClantoFileScan kind value => keep (emit (ScanReport kind value))
  | ClantoCameraResponse accepted => keep (emit (CameraConsent accepted))
  | CloseVoiceCall => keep (_ ← close_voice_call e; send (VoiceCallRequestMsg false))
  | ReadJobInitResult id conn_id res => mine conn_id (handle_read_job_init_result e id res)
  | FileBlockFromCM id file_num data compressed conn_id =>
      mine conn_id (handle_file_block_from_cm id file_num data compressed)
  | FileReadDone id file_num conn_id => mine conn_id (handle_file_read_done id file_num)
  | FileReadError id file_num err conn_id => mine conn_id (handle_file_read_error id file_num err)
  | FileDigestFromCM id file_num last_modified file_size is_resume conn_id =>
      mine conn_id (handle_file_digest_from_cm id file_num last_modified file_size is_resume)
  | AllFilesResult id conn_id path res => mine conn_id (handle_all_files_result e id path res)
  end.

(** ** The end of the login *)

Definition auth_conn_type (c : Conn) : AuthConnType :=
  if is_file_transfer c then FileTransfer
  else if is_port_forward c then PortForward
  else if view_camera c then ViewCamera
  else if terminal c then Terminal
  else Remote.

Definition on_remote_authorized (e : Env) : M unit :=
  _ ← emit CodecOnLogin; when (removes_wallpaper e) (emit RemoveWallpaper).

(** The answer to the login; whether the monitors' services are to be subscribed to. *)
Definition answer_login (e : Env) : M bool :=
  c ← get;
  if is_file_transfer c || terminal c then _ ← send LoginPeerInfo; mret false
  else if view_camera c then _ ← emit CodecOnLogin; _ ← send LoginPeerInfo; mret false
  else
    _ ← match display_inited_msg e with Some msg => send (DisplayInited msg) | None => mret tt end;
    _ ← emit ActivateScreen;
    match displays_on_login e with
    | Err err => _ ← on_remote_authorized e; _ ← send (LoginError err); mret false
    | Ok primary_display_idx =>
        _ ← modify (fun c => c <| display_idx := primary_display_idx |>);
        _ ← on_remote_authorized e;
        _ ← send LoginPeerInfo;
        mret true
    end.

Definition logon_tail (e : Env) : M unit :=
  _ ← modify (fun c => c <| authorized := true |> <| authed_conn_id := Some (auth_conn_type c) |>);
  sub ← answer_login e;
  _ ← update_scoped_login_options e;
  c ← get;
  match file_transfer c with
  | Some (dir, show_hidden) =>
      _ ← modify (set_keyboard false);
      send_fs (FsReadDir (if is_allowed_dir e dir then dir else []) show_hidden)
  | None =>
      if terminal c then
        _ ← modify (set_keyboard false);
        when (terminal_user_token c) (modify (fun c => c <| terminal_generic_service := true |>))
      else if view_camera c then
        _ ← try_sub_camera_displays e;
        _ ← modify (set_keyboard false);
        send_permission Profiles.Keyboard false
      else when sub (try_sub_monitor_services e)
  end.

(** ** The services and the clock *)

(** What a service sends to the connection; [stale] is a frame of audio older than a
    second. *)
Inductive ServiceMessage :=
| StopService
| ServicePeerInfo (msg : bytes)
| CursorPosition (x y : Z) (msg : bytes)
| ServiceMultiClipboards (msg : bytes)
| ServiceAudioFrame (msg : bytes) (stale : bool)
| OtherServiceMessage (msg : bytes).

Definition handle_cursor_switch_display (e : Env) (x y : Z) : M unit :=
  c ← get;
  if multi_ui_session c then mret tt
  else
    match display_under e x y with
    | Some d_index => when (negb (display_idx c =? d_index)) (send (FollowCurrentDisplayMsg d_index))
    | None => mret tt
    end.

Definition on_service_message (e : Env) (m : ServiceMessage) : M bool :=
  c ← get;
  let keep (m : M unit) : M bool := _ ← m; mret true in
  match m with
  | StopService =>
      _ ← remember_close_reason (Str.lit "Stop service");
      _ ← send_close_reason_no_retry [];
      _ ← on_close e "stop service" false;
      mret false
  | ServicePeerInfo msg => keep (_ ← refresh_video_display None; send (FromService msg))
  | CursorPosition x y msg =>
      keep (_ ← when (follow_remote_cursor c) (handle_cursor_switch_display e x y); send (FromService msg))
  | ServiceMultiClipboards msg => keep (send (FromService (default msg (not_support_multi_clip e msg))))
  | ServiceAudioFrame msg stale => keep (when (negb stale) (send (FromService msg)))
  | OtherServiceMessage msg => keep (send (FromService msg))
  end.

Definition on_second_timer (e : Env) : M bool :=
  c ← get;
  match auto_disconnect_timer c with
  | Some (instant, minute) =>
      if Int.wrap 64 (minute * 60) <? (now e - instant) / 1000 then
        _ ← send_close_reason_no_retry (Str.lit "Connection failed due to inactivity");
        _ ← on_close e "auto disconnect" true;
        mret false
      else mret true
  | None => mret true
  end.

Definition SEC30 : Z := 30000.

Definition on_test_delay_timer (e : Env) : M bool :=
  if SEC30 <=? recv_elapsed e then _ ← on_close e "Timeout" true; mret false
  else
    c ← get;
    _ ← when (bool_decide (last_test_delay c = None) && negb (port_forward_socket c && authorized c))
          (_ ← modify (fun c => c <| last_test_delay := Some (now e) |>);
           send (TestDelayMsg (network_delay c)));
    c ← get;
    _ ← when (is_authed_remote_conn c || view_camera c)
          (match last_test_delay c with
           | Some tm => emit (UserDelayElapsed (Int.wrap 128 (now e - tm)))
           | None => mret tt
           end);
    mret true.

Definition release_pressed_modifiers : M unit :=
  c ← get;
  _ ← for_each (elements (pressed_modifiers c)) (fun k => emit (Input (ReleaseKey k)));
  modify (fun c => c <| pressed_modifiers := ∅ |>).

(** [drop]. *)
Definition drop_connection : M unit :=
  _ ← release_pressed_modifiers;
  c ← get; when (terminal_generic_service c) (emit JoinTerminal).

(** What follows the loop. *)
Definition finish (e : Env) : M unit :=
  _ ← try_empty_file_clipboard;
  _ ← when (bool_decide (privacy_mode_conn_id e = Some (inner_id e)))
        (_ ← turn_off_privacy_to_msg e []; mret tt);
  _ ← emit FramesFetched;
  c ← get;
  _ ← emit (ConnAudit (default (Str.lit "End") (close_reason c)));
  _ ← with_server (remove_connection (inner_id e));
  _ ← on_close e "End" true;
  drop_connection.

(** ** The loop *)

(** A port forward of its own socket leaves the loop once it is authorised, when no delay
    is being measured. *)
Definition on_peer_message (e : Env) (msg : option Message) : M bool :=
  kept ← on_message e msg;
  if kept : bool then
    c ← get;
    mret (negb (port_forward_socket c && authorized c && bool_decide (last_test_delay c = None)))
  else mret false.

(** [LoggedOn] is the authorisation, at the end of [ConnLogin]. *)
Inductive Event :=
| LoggedOn
| FromPeer (msg : option Message)
| FromCm (msg : CmMessage)
| FromServices (m : ServiceMessage)
| SecondTimer
| TestDelayTimer
| WebConsoleClose
| StreamError.

Definition handle (e : Env) (ev : Event) : M bool :=
  match ev with
  | LoggedOn => c ← get; _ ← when (negb (authorized c)) (logon_tail e); mret true
  | FromPeer msg => on_peer_message e msg
  | FromCm msg => on_cm_message e msg
  | FromServices m => on_service_message e m
  | SecondTimer => on_second_timer e
  | TestDelayTimer => on_test_delay_timer e
  | WebConsoleClose =>
      _ ← send_close_reason_no_retry (Str.lit "Closed manually by web console");
      _ ← on_close e "web console" true;
      mret false
  | StreamError => _ ← on_close e "Reset by the peer" true; mret false
  end.

(** A turn of the loop; [None] is the state of a connection that is over. *)
Definition turn (e : Env) (ev : Event) : M bool :=
  keep ← handle e ev;
  if keep : bool then mret true else _ ← finish e; mret false.

Fixpoint run (evs : list (Env * Event)) : M bool :=
  match evs with
  | [] => mret true
  | (e, ev) :: evs => keep ← turn e ev; if keep : bool then run evs else mret false
  end.
