(* ===== verification/SessionSafety.v ===== *)
(** * What a session may do: [src/server/connection.rs]

    Every effect of a message of the peer is admitted by the kind of the session, its
    permissions and its options, over the handlers of [SessionHandler]; what a switch of
    sides does to the permissions. *)

From coqutil Require Import Datatypes.RecordSetters.
From S2P Require Import Prelude PortForwardMux FileScan Services SessionScope IdPermissions LoginFailure SessionState SessionHandler.
Import TriangleBracketNotations.

(** * Specification *)

(** A handler that keeps [I] of the connection and does only what [P] admits. *)
Definition does {A} (I : Conn -> Prop) (P : Effect -> Prop) (m : M A) : Prop :=
  forall s, I (conn s) ->
    exists es, out (m s).2 = out s ++ es /\ Forall P es /\ I (conn (m s).2).

(** What no message of the peer changes, but for the permissions, which a switch of sides
    takes again. *)
Definition kept (c : Conn) :=
  (perms c, authed_conn_id c, authorized c, file_transfer c, view_camera c, terminal c, terminal_user_token c).

(** And what the peer's options change. *)
Definition chosen (c : Conn) :=
  (disable_keyboard c, disable_clipboard c, disable_audio c, enable_file_transfer c,
   show_my_cursor c, show_remote_cursor c, lock_after_session_end c).

Definition same_kept (c0 c : Conn) : Prop :=
  kept c = kept c0 /\ (port_forward_mux c = true -> port_forward_mux c0 = true).
Definition same_chosen (c0 c : Conn) : Prop := same_kept c0 c /\ chosen c = chosen c0.

(** The kind of an authorised connection agrees with what its login asked for. *)
Definition kind_ok (c : Conn) : Prop :=
  match authed_conn_id c with
  | Some FileTransfer => file_transfer c <> None
  | Some ViewCamera => file_transfer c = None /\ view_camera c = true
  | Some Terminal => file_transfer c = None /\ view_camera c = false
  | Some PortForward => file_transfer c = None
  | Some Remote => file_transfer c = None /\ view_camera c = false /\ terminal c = false
  | None => False
  end
  /\ (terminal_user_token c = true -> authed_conn_id c = Some Terminal)
  /\ (port_forward_mux c = true -> authed_conn_id c = Some PortForward).

Definition is_kind (c : Conn) (t : AuthConnType) : Prop := authed_conn_id c = Some t.

(** Who may have what done: the kind of the session, its permissions and its options. *)
Definition permitted (e : Env) (c : Conn) (eff : Effect) : Prop :=
  match eff with
  | Input (InputMouse _ true _) | Input (InputPointer _) | Input (InputKey _ _) =>
      is_kind c Remote /\ peer_keyboard_enabled c = true
  | Input (InputMouse _ false _) => is_kind c Remote /\ show_my_cursor c = true
  | Input (ReleaseKey _) => False
  | Input BlockOn | Input BlockOff => is_kind c Remote /\ keyboard c = true /\ block_input_allowed c = true
  | UpdateClipboard _ => is_kind c Remote /\ clipboard_enabled c = true
  | ServeClip _ => is_kind c Remote /\ file_transfer_enabled c = true
  | ToCm (DataFS (FsWriteBlock _ _ _ _ | FsWriteDone _ _ | FsCheckDigest _ _ _ _ _ | FsWriteError _ _ _)) =>
      is_kind c FileTransfer \/ is_kind c Remote
  | ToCm (DataFS _) => is_kind c FileTransfer
  | Send (NewDir _ _ _) => is_kind c FileTransfer \/ is_kind c Remote /\ remote_printer_allowed e c = true
  | Reboot => is_kind c Remote /\ Connection.k_restart (perms c) = true
  | SetResolution _ _ _ => is_kind c Remote /\ keyboard c = true
  | TurnOnPrivacy _ => is_kind c Remote /\ privacy_mode_allowed c = true
  | TurnOffPrivacy | RunMe _ | Whiteboard _ => is_kind c Remote
  | DoTerminal _ => is_kind c Terminal
  | MuxHandle _ allowed => is_kind c PortForward /\ allowed = tunnel_allowed e c
  | ForwardMessage _ forward camera =>
      is_kind c Remote /\ forward = Connection.clanto_forward_profile (perms c)
      /\ camera = Connection.clanto_camera_profile (perms c)
  | StartAudio _ | PlayAudio _ => (is_kind c Remote \/ is_kind c ViewCamera) /\ disable_audio c = false
  | TakeScreenshot _ _ _ | UserImageQuality _ | UserCustomFps _ | UpdateEncoding _ =>
      is_kind c Remote \/ is_kind c ViewCamera
  | Send (CursorData _) => is_kind c Remote /\ (peer_keyboard_enabled c = true \/ show_remote_cursor c = true)
  | LockScreen => keyboard c = true /\ lock_after_session_end c = true
  | ToCm (DataLogin _ _ _ _ _ _ _) | ToCm DataSessionCode | Send (PermissionInfo _ _)
  | SetSwitchSidesUuid _ | SetIdFailures _ | LoginCheck _ | AuditAsSwitchSides | StartCmIpc => is_kind c Remote
  | _ => True
  end.

(** The ID for which a message switches the sides: a session that views the desktop shows
    in time the code that this ID was given, asks for the desktop, and the whitelist of IDs
    lets the ID in. *)
Definition switched_to (e : Env) (c : Conn) (msg : option Message) : option rstr :=
  match msg with
  | Some (SwitchSidesResponse uuid (Some lr)) =>
      if is_authed_remote_conn c && switch_code_ok e uuid lr && negb (login_has_union lr)
         && (Buckets.check_id_whitelist (to_lowercase e) (id_failures e) (opt_id_whitelist e) (ip e)
               (login_my_id lr) (now_ms e)).1.2
      then Some (login_my_id lr)
      else None
  | _ => None
  end.

(** The connection with the permissions that it has after a message. *)
Definition with_permissions_of (e : Env) (my_id : option rstr) (c : Conn) : Conn :=
  match my_id with Some my_id => c <| perms ::= permissions_of e my_id |> | None => c end.

(** * Theorems *)

(** ** What a handler does *)

Create HintDb session.

Section Does.
Context (I : Conn -> Prop) (P : Effect -> Prop).

Lemma does_ret {A} (x : A) : does I P (mret x).
Proof. intros s Hs. exists []. cbn. by rewrite app_nil_r. Qed.

Lemma does_bind {A B} (m : M A) (k : A -> M B) :
  does I P m -> (forall a, does I P (k a)) -> does I P (mbind k m).
Proof.
  intros Hm Hk s Hs. destruct (Hm s Hs) as (es & Ho & Hes & Hi). unfold mbind, M_bind.
  destruct (m s) as [a s1]. destruct (Hk a s1 Hi) as (es' & Ho' & Hes' & Hi').
  exists (es ++ es'). cbn in *. rewrite Ho', Ho, app_assoc. split_and!; [done| |done]. by apply Forall_app.
Qed.

Lemma does_get {B} (k : Conn -> M B) : (forall c, I c -> does I P (k c)) -> does I P (mbind k get).
Proof. intros Hk s Hs. apply (Hk (conn s) Hs s Hs). Qed.

Lemma does_get_server : does I P get_server.
Proof. intros s Hs. exists []. cbn. by rewrite app_nil_r. Qed.

Lemma does_modify f : (forall c, I c -> I (f c)) -> does I P (modify f).
Proof.
  intros Hf s Hs. exists []. destruct s. cbn in *. rewrite app_nil_r. split_and!; [done|done|]. by apply Hf.
Qed.

Lemma does_emit eff : P eff -> does I P (emit eff).
Proof. intros He s Hs. exists [eff]. destruct s. cbn in *. split_and!; [done| |done]. by apply Forall_singleton. Qed.

Lemma does_with_server f : does I P (with_server f).
Proof. intros s Hs. exists []. destruct s. cbn in *. by rewrite app_nil_r. Qed.

Lemma does_when b m : (b = true -> does I P m) -> does I P (when b m).
Proof. intros Hm. destruct b; [by apply Hm|apply does_ret]. Qed.

Lemma does_for_each {A} (l : list A) f : (forall x, does I P (f x)) -> does I P (for_each l f).
Proof. intros Hf. induction l as [|x l IH]; [apply does_ret|]. apply does_bind; [apply Hf|done]. Qed.

Lemma does_when_set o f : (forall b, does I P (f b)) -> does I P (when_set o f).
Proof. intros Hf. destruct o as [[]|]; cbn; [apply does_ret|apply Hf..|apply does_ret]. Qed.

Lemma does_sub_service e name sub : does I P (sub_service e name sub).
Proof. apply does_get. intros c Hc. apply does_with_server. Qed.
End Does.

Lemma does_weaken {A} (I J : Conn -> Prop) P (m : M A) c :
  does I P m -> I c -> (forall c, I c -> J c) -> forall s, conn s = c ->
  exists es, out (m s).2 = out s ++ es /\ Forall P es /\ J (conn (m s).2).
Proof. intros Hm Hc HJ s <-. destruct (Hm s Hc) as (es & ? & ? & ?). eauto. Qed.

#[export] Hint Resolve does_ret does_get_server does_with_server does_sub_service : session.

(** One step through a handler. *)
Ltac does_step :=
  match goal with
  | |- does _ _ (mbind _ get) => apply does_get; intros ? ?
  | |- does _ _ (mbind _ _) => apply does_bind; [|intros ?]
  | |- does _ _ (when _ _) => apply does_when; intros ?
  | |- does _ _ (when_set _ _) => apply does_when_set; intros ?
  | |- does _ _ (for_each _ _) => apply does_for_each; intros ?
  | |- does _ _ (modify _) => apply does_modify; let H := fresh "Hsame" in intros ? H; try exact H
  | |- does _ _ (emit _) => apply does_emit
  | |- does _ _ (match ?x with _ => _ end) => destruct x eqn:?
  | |- does _ _ _ => solve [auto with session nocore]
  end.

(** ** The peer's messages *)

Lemma same_kept_eqs c0 c :
  same_kept c0 c ->
  perms c = perms c0 /\ authed_conn_id c = authed_conn_id c0 /\ authorized c = authorized c0
  /\ file_transfer c = file_transfer c0 /\ view_camera c = view_camera c0 /\ terminal c = terminal c0
  /\ terminal_user_token c = terminal_user_token c0.
Proof. intros [[= ? ? ? ? ? ? ?] _]. done. Qed.

Lemma same_chosen_eqs c0 c :
  same_chosen c0 c ->
  disable_keyboard c = disable_keyboard c0 /\ disable_clipboard c = disable_clipboard c0
  /\ disable_audio c = disable_audio c0 /\ enable_file_transfer c = enable_file_transfer c0
  /\ show_my_cursor c = show_my_cursor c0 /\ show_remote_cursor c = show_remote_cursor c0
  /\ lock_after_session_end c = lock_after_session_end c0.
Proof. intros [_ [= ? ? ? ? ? ? ?]]. done. Qed.

Lemma same_chosen_kept c0 c : same_chosen c0 c -> same_kept c0 c.
Proof. by intros [? _]. Qed.

Lemma same_profiled e c0 c :
  same_kept c0 c ->
  remote_printer_allowed e c = remote_printer_allowed e c0 /\ tunnel_allowed e c = tunnel_allowed e c0.
Proof.
  intros H. apply same_kept_eqs in H as (Hp & _).
  unfold remote_printer_allowed, tunnel_allowed, profiled_permission. by rewrite Hp.
Qed.

(** Brings the flags of the connection of now to those before the message. *)
Ltac same_flags :=
  repeat match goal with
  | H : same_chosen ?c0 ?c, e : Env |- _ =>
      lazymatch goal with
      | _ : tunnel_allowed e c = tunnel_allowed e c0 |- _ => fail
      | _ => pose proof (same_profiled e c0 c (same_chosen_kept c0 c H)) as [? ?]
      end
  | H : same_chosen ?c0 ?c |- _ =>
      let K := fresh "K" in
      pose proof (same_kept_eqs c0 c (same_chosen_kept c0 c H)) as (? & ? & ? & ? & ? & ? & ?);
      pose proof (same_chosen_eqs c0 c H) as (? & ? & ? & ? & ? & ? & ?);
      pose proof (proj2 (proj1 H)) as K; clear H
  | H : same_kept ?c0 ?c |- _ =>
      let K := fresh "K" in
      pose proof (same_kept_eqs c0 c H) as (? & ? & ? & ? & ? & ? & ?);
      pose proof (proj2 H) as K; clear H
  end.

Ltac flags :=
  unfold is_authed_remote_conn, is_authed_view_camera_conn, is_file_transfer, peer_keyboard_enabled,
    clipboard_enabled, file_transfer_enabled,
    keyboard, clipboard, audio, file, block_input_allowed,
    privacy_mode_allowed, is_kind in *;
  same_flags.

(** What is left of the permission of an effect. *)
Ltac permit :=
  cbn [permitted]; try case_match; first [done | flags;
    repeat match goal with
    | H : (_ && _)%bool = true |- _ => apply andb_true_iff in H as [? ?]
    | H : negb _ = true |- _ => apply negb_true_iff in H
    | H : negb _ = false |- _ => apply negb_false_iff in H
    | H : bool_decide _ = true |- _ => apply bool_decide_eq_true in H
    | H : bool_decide _ = false |- _ => apply bool_decide_eq_false in H
    end;
    repeat match goal with
    | |- _ /\ _ => split
    | |- (_ && _)%bool = true => apply andb_true_iff; split
    | |- negb _ = true => apply negb_true_iff
    end; intuition congruence ].

Ltac does_all :=
  unfold send_permission, send_display_changed, send_clanto_effective_permissions, send_fs, send_to_cm, send,
    mark_permission, policy_audit, update_auto_disconnect_timer, try_empty_file_clipboard, forget_job in *;
  repeat does_step; try (by permit).

Lemma text_clipboard_remote c : should_handle_text_clipboard_message c = bool_decide (authed_conn_id c = Some Remote).
Proof. unfold should_handle_text_clipboard_message. by destruct (authed_conn_id c) as [[]|]. Qed.

Section Permitted.
Context (e : Env) (c0 : Conn).

Abbreviation acts m := (does (same_chosen c0) (permitted e c0) m).

Lemma on_mouse_event_acts me :
  is_kind c0 Remote \/ is_kind c0 ViewCamera -> acts (on_mouse_event e me).
Proof.
  intros Hk. unfold on_mouse_event, input_mouse. does_all.
Qed.
Lemma on_pointer_device_event_acts pde :
  is_kind c0 Remote \/ is_kind c0 ViewCamera -> acts (on_pointer_device_event e pde).
Proof. intros Hk. unfold on_pointer_device_event. does_all. Qed.

Lemma on_key_event_acts me :
  is_kind c0 Remote \/ is_kind c0 ViewCamera -> acts (on_key_event e me).
Proof.
  intros Hk. unfold on_key_event, input_key, press_modifier. does_all.
Qed.

Lemma on_clipboards_acts contents : acts (on_clipboards contents).
Proof. unfold on_clipboards. does_all. rewrite text_clipboard_remote in *. by permit. Qed.

Lemma answer_clip_acts clip : acts (answer_clip e clip).
Proof. unfold answer_clip. does_all. Qed.

Lemma on_cliprdr_acts clip : is_kind c0 Remote -> acts (on_cliprdr e clip).
Proof.
  intros Hk. unfold on_cliprdr. does_all; by apply answer_clip_acts.
Qed.

Lemma process_new_read_job_acts id printer files path :
  is_kind c0 FileTransfer \/ is_kind c0 Remote /\ remote_printer_allowed e c0 = true ->
  acts (process_new_read_job id printer files path).
Proof. intros Hk. unfold process_new_read_job. does_all. Qed.

Lemma create_and_start_read_job_acts id printer job path limit :
  is_kind c0 FileTransfer \/ is_kind c0 Remote /\ remote_printer_allowed e c0 = true ->
  acts (create_and_start_read_job e id printer job path limit).
Proof. intros Hk. unfold create_and_start_read_job. does_all; by apply process_new_read_job_acts. Qed.

Lemma send_files_acts id path hidden file_num file_type :
  is_kind c0 FileTransfer
  \/ is_kind c0 Remote /\ remote_printer_allowed e c0 = true /\ file_type_is_printer file_type = true ->
  acts (send_files e id path hidden file_num file_type).
Proof.
  intros Hk. unfold send_files. does_all; try (apply create_and_start_read_job_acts; tauto).
  all: apply negb_true_iff in Heqb; destruct Hk as [Hk|(? & ? & Hk)]; [by permit|congruence].
Qed.

Lemma do_file_action_acts action :
  is_kind c0 FileTransfer
  \/ (is_kind c0 Remote /\ remote_printer_allowed e c0 = true
      /\ exists id path hidden file_num file_type, action = SendFiles id path hidden file_num file_type
           /\ file_type_is_printer file_type = true) ->
  acts (do_file_action e action).
Proof.
  intros [Hk|(Hk & Hp & id & path & hidden & file_num & file_type & -> & Ht)].
  - destruct action; cbn [do_file_action];
      try (apply send_files_acts; by left); unfold all_files, cancel_job, send_confirm; does_all.
  - cbn [do_file_action]. apply send_files_acts. by right.
Qed.

Lemma on_file_action_acts action :
  kind_ok c0 -> is_kind c0 FileTransfer \/ is_kind c0 Remote -> acts (on_file_action e action).
Proof.
  intros (Hok & _) Hk. unfold on_file_action. does_step. does_step.
  assert (is_kind c0 FileTransfer
    \/ (is_kind c0 Remote /\ remote_printer_allowed e c0 = true
        /\ exists id path hidden file_num file_type, action = SendFiles id path hidden file_num file_type
             /\ file_type_is_printer file_type = true)) as Hd.
  { destruct Hk as [Hk|Hk]; [by left|right]. rewrite Hk in Hok. destruct Hok as (Hf & _).
    assert (is_file_transfer c = false) as E by (flags; rewrite bool_decide_eq_false; intros [? ?]; congruence).
    rewrite E in H0. cbn in H0. destruct action; try done. apply andb_true_iff in H0 as [? Hp].
    split_and!; [done|by permit|by eauto 10]. }
  destruct (reject_file_action _ _) as [rejection events]. does_all; by apply do_file_action_acts.
Qed.

Lemma on_file_response_acts r : is_kind c0 FileTransfer \/ is_kind c0 Remote -> acts (on_file_response r).
Proof. intros Hk. destruct r; cbn; does_all. Qed.
End Permitted.

Section Permitted2.
Context (e : Env) (c0 : Conn).

Abbreviation acts m := (does (same_chosen c0) (permitted e c0) m).
Abbreviation sets m := (does (same_kept c0) (permitted e c0) m).

Lemma refresh_acts display : acts (refresh_video_display display).
Proof. unfold refresh_video_display. does_all. Qed.

Lemma change_resolution_acts d width height :
  is_kind c0 Remote -> acts (change_resolution e d width height).
Proof. intros Hk. unfold change_resolution. does_all. Qed.

Lemma handle_switch_display_acts display width height :
  kind_ok c0 -> is_kind c0 Remote \/ is_kind c0 ViewCamera ->
  acts (handle_switch_display e display width height).
Proof.
  intros (Hok & _) Hk. unfold handle_switch_display, switch_display_to. does_all.
  all: destruct Hk as [Hk|Hk]; [by apply change_resolution_acts|].
  all: unfold is_kind in Hk; rewrite Hk in Hok; destruct Hok as [_ Hv]; exfalso;
    repeat match goal with H : (_ && _)%bool = true |- _ => apply andb_true_iff in H as [? ?] end;
    flags; rewrite ?negb_true_iff in *; congruence.
Qed.

Lemma capture_displays_acts add sub set : acts (capture_displays e add sub set).
Proof. unfold capture_displays. does_all. Qed.

(** The privacy mode changes nothing of the connection. *)
Section Privacy.
Context (I : Conn -> Prop) (HI : forall c, I c -> same_kept c0 c) (Hk : is_kind c0 Remote).

Lemma turn_off_privacy_to_msg_does key : does I (permitted e c0) (turn_off_privacy_to_msg e key).
Proof using Hk. unfold turn_off_privacy_to_msg. does_all. Qed.

Lemma turn_off_privacy_does key : does I (permitted e c0) (turn_off_privacy e key).
Proof using Hk.
  unfold turn_off_privacy. does_all; apply turn_off_privacy_to_msg_does.
Qed.

Lemma turn_on_privacy_does key : does I (permitted e c0) (turn_on_privacy e key).
Proof using HI Hk.
  unfold turn_on_privacy. does_step. apply HI in H. does_all; try apply turn_off_privacy_to_msg_does.
  - apply orb_false_iff in Heqb as [_ Hp]. by permit.
Qed.
End Privacy.

(** What the options of a scoped session leave alone. *)
Definition desktop_unset (o : OptionMessage) : Prop :=
  privacy_mode o = unset /\ block_input o = unset /\ SessionScope.show_my_cursor o = unset.
Definition video_unset (o : OptionMessage) : Prop :=
  image_quality o = Known QualityNotSet /\ custom_image_quality o = 0 /\ custom_fps o = 0
  /\ supported_decoding o = None.

Definition options_fit (o : OptionMessage) : Prop :=
  is_kind c0 Remote \/ is_kind c0 ViewCamera /\ desktop_unset o
  \/ is_kind c0 Terminal /\ desktop_unset o /\ video_unset o.

Lemma update_options_sets o : options_fit o -> sets (update_options e o).
Proof.
  intros Hfit. unfold update_options, update_quality, update_cursor_options, update_audio_option,
    update_clipboard_options, update_privacy_option, update_block_input, update_show_my_cursor,
    update_terminal_persistence, sub_audio, sub_cursor, sub_clipboard, sub_file_clipboard.
  does_step.
  { destruct Hfit as [Hk|[[Hk _]|(_ & _ & -> & Hz & _)]]; [does_all|does_all|cbn; rewrite Hz; cbn; does_all]. }
  does_step.
  { destruct Hfit as [Hk|[[Hk _]|(_ & _ & _ & _ & Hz & _)]]; [does_all|does_all|rewrite Hz; cbn; does_all]. }
  does_step.
  { destruct Hfit as [Hk|[[Hk _]|(_ & _ & _ & _ & _ & ->)]]; does_all. }
  do 4 (does_step; [does_all|]).
  assert (is_kind c0 Remote \/ desktop_unset o) as Hd by (unfold options_fit in Hfit; tauto). clear Hfit.
  does_step.
  { destruct Hd as [Hk|(-> & _)]; [|cbn; does_all].
    does_all; [by apply turn_on_privacy_does|by apply turn_off_privacy_does]. }
  does_step.
  { destruct Hd as [Hk|(_ & -> & _)]; [|cbn; does_all]. does_all. destruct b; by permit. }
  does_step; [does_all|]. does_step; [|does_all].
  destruct Hd as [Hk|(_ & _ & ->)]; [|cbn]; does_all.
Qed.

Lemma scoped_options_fit o' o :
  scoped_update_option_message (authed_conn_id c0) o' = Some o -> options_fit o.
Proof.
  unfold options_fit, is_kind, scoped_update_option_message.
  destruct (authed_conn_id c0) as [[]|]; try done; intros E.
  - right; left. split; [done|]. rewrite view_camera_option_part in E. unfold then_some in E.
    destruct (option_has_any_field _); [|done]. by injection E as <-.
  - right; right. split; [done|]. rewrite terminal_option_part in E. unfold then_some in E.
    destruct (option_has_any_field _); [|done]. by injection E as <-.
Qed.

Lemma on_option_sets o : sets (on_option e o).
Proof.
  unfold on_option. does_step. apply same_kept_eqs in H as (_ & Ha & _). does_step.
  - apply update_options_sets. left. apply bool_decide_eq_true in Heqb. unfold is_kind. congruence.
  - rewrite Ha. destruct (scoped_update_option_message _ o) as [o'|] eqn:E; [|apply does_ret].
    by eapply update_options_sets, scoped_options_fit.
Qed.
End Permitted2.

Section Permitted3.
Context (e : Env) (c0 : Conn).

Abbreviation acts m := (does (same_chosen c0) (permitted e c0) m).

Lemma remember_close_reason_acts reason : acts (remember_close_reason reason).
Proof. apply does_modify. intros c Hc. by destruct (close_reason c). Qed.

Lemma send_close_reason_acts reason : acts (send_close_reason_no_retry reason).
Proof. unfold send_close_reason_no_retry. does_all. apply remember_close_reason_acts. Qed.

Lemma on_close_acts reason lock : acts (on_close e reason lock).
Proof.
  unfold on_close. does_all; try apply remember_close_reason_acts.
  - by destruct (_ || _).
  - match goal with H : same_chosen c0 c1 |- _ => destruct H as [[? _] ?] end. by split; [split|].
Qed.

Lemma scope_violation_acts message : acts (handle_authorized_scope_violation e message).
Proof.
  unfold handle_authorized_scope_violation. does_all;
    [apply send_close_reason_acts|apply on_close_acts].
Qed.

Lemma on_audio_frame_acts frame :
  is_kind c0 Remote \/ is_kind c0 ViewCamera -> acts (on_audio_frame frame).
Proof. intros Hk. unfold on_audio_frame. does_all. Qed.

Lemma close_voice_call_acts : acts (close_voice_call e).
Proof. unfold close_voice_call. does_all. Qed.

Lemma on_test_delay_acts from_client t : acts (on_test_delay e from_client t).
Proof. unfold on_test_delay. does_all. Qed.

(** What of the messages under [Misc] is for whom. *)
Definition misc_kind (m : Misc) : Prop :=
  match m with
  | OptionMisc _ | ChatMessage _ | RefreshVideo _ | RefreshVideoDisplay _ | CloseReason _ => True
  | SwitchDisplay _ _ _ | CaptureDisplays _ _ _ | VideoReceived | AudioFormat _ | ClientRecordStatus _
  | MessageQuery _ | TogglePrivacyMode _ _ | ToggleVirtualDisplay _ _ | ChangeResolution _ _
  | ChangeDisplayResolution _ _ _ | ClantoControllerIdentity _ _ _ => is_kind c0 Remote \/ is_kind c0 ViewCamera
  | _ => is_kind c0 Remote
  end.

Lemma unless_camera_acts c (m : M unit) :
  kind_ok c0 -> is_kind c0 Remote \/ is_kind c0 ViewCamera -> same_chosen c0 c ->
  (is_kind c0 Remote -> acts m) -> acts (when (negb (view_camera c)) m).
Proof.
  intros (Hok & _) Hk Hs Hm. does_step. apply Hm. destruct Hk as [Hk|Hk]; [done|].
  unfold is_kind in Hk. rewrite Hk in Hok. destruct Hok as [_ Hv]. flags. rewrite negb_true_iff in *. congruence.
Qed.

Lemma keep_acts (m : M unit) : acts m -> acts (_ ← m; mret true).
Proof. intros Hm. does_step; [done|apply does_ret]. Qed.

Lemma on_misc_acts misc :
  kind_ok c0 -> misc_kind misc -> (forall o, misc <> OptionMisc o) -> acts (on_misc e misc).
Proof.
  intros Hok Hk Ho. unfold on_misc. does_step.
  destruct misc; cbn [misc_kind] in *; try (by destruct (Ho o)); try apply keep_acts;
    try (apply unless_camera_acts; [done|done|done|intros Hr]).
  all: try (unfold toggle_privacy_mode; does_step;
    [eapply turn_on_privacy_does; [apply same_chosen_kept|done]|by apply turn_off_privacy_does]).
  all: try (by apply handle_switch_display_acts); try (apply capture_displays_acts); try (by apply change_resolution_acts).
  all: try (by does_all; apply refresh_acts).
  - unfold on_switch_sides_request. does_all. apply on_close_acts.
  - unfold on_request_cursor_data. does_all.
    match goal with H : (_ && _)%bool = true |- _ => apply andb_true_iff in H as [_ Hc%orb_true_iff] end. by permit.
  - unfold on_controller_identity. does_all.
Qed.

(** What of all messages is for whom, as far as the scope lets it through. *)
Definition message_kind (m : Message) : Prop :=
  match m with
  | MouseEventMsg _ | PointerDeviceEvent _ | KeyEventMsg _ | AudioFrame _ | VoiceCallRequest _ _
  | ScreenshotRequest _ _ => is_kind c0 Remote \/ is_kind c0 ViewCamera
  | FileActionMsg _ | FileResponseMsg _ => is_kind c0 FileTransfer \/ is_kind c0 Remote
  | PortForwardChannel _ => is_kind c0 PortForward \/ is_kind c0 Remote
  | TerminalAction _ => is_kind c0 Terminal \/ is_kind c0 Remote
  | MiscMsg (Some misc) => misc_kind misc
  | CliprdrMsg _ | ClantoForward _ | SwitchSidesResponse _ _ => is_kind c0 Remote
  | _ => True
  end.

Lemma scope_kind m : authorized_scope_violation (authed_conn_id c0) (Some m) = None -> message_kind m.
Proof.
  unfold is_kind, message_kind, misc_kind, is_kind.
  destruct (authed_conn_id c0) as [[]|];
    destruct m as [| | | | | | |[]| |[[]|]| | | | | | | | | | | | ]; cbn; intros H; try discriminate H; auto.
Qed.

Lemma session_message_acts m :
  kind_ok c0 -> message_kind m -> (forall o, m <> MiscMsg (Some (OptionMisc o))) ->
  acts (on_session_message e m).
Proof.
  intros Hok Hk Ho.
  destruct m; cbn [on_session_message message_kind] in *; try apply does_ret;
    try (case_match; [|by apply does_ret]); try apply keep_acts.
  - by apply on_mouse_event_acts.
  - by apply on_audio_frame_acts.
  - by apply on_pointer_device_event_acts.
  - by apply on_key_event_acts.
  - apply on_clipboards_acts.
  - by apply on_file_action_acts.
  - by apply on_file_response_acts.
  - apply on_misc_acts; [done|done|]. intros o ->. by destruct (Ho o).
  - by apply on_cliprdr_acts.
  - unfold on_voice_call_request. does_all. apply close_voice_call_acts.
  - apply on_clipboards_acts.
  - unfold on_screenshot_request. does_all. apply refresh_acts.
  - unfold handle_terminal_action. destruct Hok as (_ & Ht & _). does_all. apply Ht. flags. congruence.
  - unfold handle_port_forward_channel. destruct Hok as (_ & _ & Hm). does_all.
Qed.

Lemma on_message_acts msg :
  kind_ok c0 -> authorized c0 = true ->
  (forall o, msg = Some (MiscMsg (Some (OptionMisc o))) -> authorized_scope_violation (authed_conn_id c0) msg <> None) ->
  (forall uuid lr, msg = Some (SwitchSidesResponse uuid lr) -> authorized_scope_violation (authed_conn_id c0) msg <> None) ->
  acts (on_message e msg).
Proof.
  intros Hok Hau Ho Hsw. unfold on_message. does_step.
  pose proof (same_kept_eqs _ _ (same_chosen_kept _ _ H)) as (Hp & Ha & Hauth & _).
  rewrite Ha, Hauth, Hau. cbn [negb orb]. destruct msg as [m|]; [|does_all; apply scope_violation_acts].
  pose proof (scope_kind m) as Hk.
  assert (forall m', m' = m -> authorized_scope_violation (authed_conn_id c0) (Some m') = None ->
    acts (on_session_message e m')) as Hm.
  { intros ? -> Hv. apply session_message_acts; [done|by apply Hk|]. intros o ->. by apply (Ho o). }
  destruct m as [| | | | | | | | |[[]|]| | | | | | | | | | | | ];
    try (by does_all; [apply on_close_acts]); try apply does_ret;
    (destruct (authorized_scope_violation _ _) eqn:Hv; [apply scope_violation_acts|]);
    try (destruct (port_forward_socket c); [apply does_ret|by apply Hm]).
  - apply keep_acts, on_test_delay_acts.
  - specialize (Hk eq_refl). apply keep_acts. unfold on_forward_message. cbn in Hk. does_all.
  - by destruct (Hsw _ _ eq_refl).
Qed.

Lemma on_option_message_sets o :
  authorized c0 = true -> authorized_scope_violation (authed_conn_id c0) (Some (MiscMsg (Some (OptionMisc o)))) = None ->
  does (same_kept c0) (permitted e c0) (on_message e (Some (MiscMsg (Some (OptionMisc o))))).
Proof.
  intros Hau Hv. unfold on_message. does_step. apply same_kept_eqs in H as (_ & Ha & Hauth & _).
  rewrite Ha, Hauth, Hau, Hv. cbn [negb orb].
  destruct (port_forward_socket c); [apply does_ret|]. cbn [on_session_message]. unfold on_misc.
  does_all. apply on_option_sets.
Qed.
End Permitted3.

(** ** The switch of sides *)

(** A handler that leads from [I] to [J] of its answer and of the connection, and does only
    what [P] admits. *)
Definition leads {A} (P : Effect -> Prop) (I : Conn -> Prop) (J : A -> Conn -> Prop) (m : M A) : Prop :=
  forall s, I (conn s) ->
    exists es, out (m s).2 = out s ++ es /\ Forall P es /\ J (m s).1 (conn (m s).2).

Section Leads.
Context (P : Effect -> Prop).

Lemma leads_does {A} I (m : M A) : does I P m -> leads P I (fun _ => I) m.
Proof. intros Hm s Hs. exact (Hm s Hs). Qed.

Lemma leads_ret {A} (I : Conn -> Prop) (J : A -> Conn -> Prop) x :
  (forall c, I c -> J x c) -> leads P I J (mret x).
Proof. intros HJ s Hs. exists []. cbn. rewrite app_nil_r. auto. Qed.

Lemma leads_bind {A B} I J (K : B -> Conn -> Prop) (m : M A) (k : A -> M B) :
  leads P I J m -> (forall a, leads P (J a) K (k a)) -> leads P I K (mbind k m).
Proof.
  intros Hm Hk s Hs. destruct (Hm s Hs) as (es & Ho & Hes & Hj). unfold mbind, M_bind.
  destruct (m s) as [a s1]. destruct (Hk a s1 Hj) as (es' & Ho' & Hes' & Hk').
  exists (es ++ es'). cbn in *. rewrite Ho', Ho, app_assoc. split_and!; [done| |done]. by apply Forall_app.
Qed.

Lemma leads_modify (I : Conn -> Prop) (J : unit -> Conn -> Prop) f :
  (forall c, I c -> J tt (f c)) -> leads P I J (modify f).
Proof. intros Hf s Hs. exists []. destruct s. cbn in *. rewrite app_nil_r. auto. Qed.
End Leads.

Section Switch.
Context (e : Env) (c0 : Conn).
Context (Hok : kind_ok c0) (Hk : is_kind c0 Remote).

Abbreviation P := (permitted e c0).

Lemma whitelist_leads my_id :
  leads P (same_kept c0)
    (fun ok c => same_kept c0 c
       /\ ok = (Buckets.check_id_whitelist (to_lowercase e) (id_failures e) (opt_id_whitelist e) (ip e) my_id
                  (now_ms e)).1.2)
    (check_id_whitelist e my_id).
Proof using Hk.
  unfold check_id_whitelist. destruct (Buckets.check_id_whitelist _ _ _ _ _ _) as [[failures ok] es]. cbn [fst snd].
  eapply leads_bind; [apply leads_does; by does_step|intros ?].
  eapply leads_bind; [apply leads_does; by repeat does_step|intros ?].
  eapply leads_bind; [apply leads_does|intros ?; by apply leads_ret].
  does_step. apply does_modify. intros c Hc. by destruct (close_reason c).
Qed.

Lemma permissions_leads my_id c1 :
  leads P (same_kept c1) (fun _ => same_kept (c1 <| perms ::= permissions_of e my_id |>))
    (apply_id_permissions e my_id).
Proof using Hk.
  unfold apply_id_permissions. eapply leads_bind.
  - apply (leads_modify _ _ (fun _ => same_kept (c1 <| perms ::= permissions_of e my_id |>))).
    intros c [Hc Hm]. split; [|exact Hm]. destruct c, c1. unfold kept in *. cbn in *. congruence.
  - intros ?. apply leads_does. does_step. apply does_for_each. intros [p b]. unfold send_permission, send. by does_step.
Qed.

Lemma switch_leads uuid lr :
  leads P (same_kept c0)
    (fun _ => same_kept (with_permissions_of e (switched_to e c0 (Some (SwitchSidesResponse uuid lr))) c0))
    (on_switch_sides_response e uuid lr).
Proof using Hok Hk.
  unfold on_switch_sides_response, switched_to. destruct lr as [lr|]; [|by apply leads_ret].
  assert (is_authed_remote_conn c0 = true) as -> by (by apply bool_decide_eq_true).
  eapply leads_bind; [apply leads_does; by does_step|intros ?]. cbn [andb].
  destruct (switch_code_ok e uuid lr); cbn [negb andb]; [|by apply leads_ret].
  destruct (login_has_union lr); cbn [negb andb].
  { eapply leads_bind; [apply leads_does; unfold send; by does_step|intros ?].
    eapply leads_bind; [apply leads_does|intros ?; by apply leads_ret].
    apply does_modify. intros c Hc. by destruct (close_reason c). }
  eapply leads_bind.
  { apply leads_does, does_modify. intros c [Hc Hm]. split; [|exact Hm].
    destruct Hok as [Hkind _]. rewrite Hk in Hkind. destruct Hkind as (Hf & Hv & Ht).
    destruct c. unfold kept in *. cbn in *. unfold constant. congruence. }
  intros ?. eapply leads_bind.
  { apply leads_does, does_modify. intros c Hc. by destruct (login_option_message lr). }
  intros ?. eapply leads_bind; [apply whitelist_leads|]. intros ok.
  destruct (Buckets.check_id_whitelist _ _ _ _ _ _) as [[failures b] es]. cbn [fst snd].
  destruct ok; cbn [negb]; [|apply leads_ret; by intros c [Hc <-]].
  destruct b; [|intros s [_ ?]; done]. cbn [with_permissions_of].
  eapply leads_bind; [intros s [Hs _]; exact (permissions_leads (login_my_id lr) c0 s Hs)|].
  intros ?. apply leads_does.
  unfold try_start_cm, send_clanto_effective_permissions, send_to_cm. by repeat does_step.
Qed.
End Switch.

(** C4 Whatever message the peer of an authorised session sends, all that is done for it
    is admitted by the kind of the session and by the permissions and the options of that
    moment, and neither the kind nor the permissions change, but for one message: when a
    session that views the desktop answers a switch of sides, with the code that this PC
    gave to an ID that the whitelist lets in, it stays a view of the desktop and its
    permissions become those of the options, of the profile of that ID and of the grant:
    also those that the person at the PC had taken away come back
    ([switching_sides_restores_permissions]). *)
Theorem session_acts_within_its_permissions e msg s :
  kind_ok (conn s) -> authorized (conn s) = true ->
  let s' := (on_message e msg s).2 in
  (exists es, out s' = out s ++ es /\ Forall (permitted e (conn s)) es)
  /\ kept (conn s') = kept (with_permissions_of e (switched_to e (conn s) msg) (conn s)).
Proof.
  intros Hok Hau.
  assert (exists es, out (on_message e msg s).2 = out s ++ es /\ Forall (permitted e (conn s)) es
            /\ same_kept (with_permissions_of e (switched_to e (conn s) msg) (conn s))
                 (conn (on_message e msg s).2)) as (es & Ho & Hes & Hs); [|split; [eauto|apply Hs]].
  destruct (decide (authorized_scope_violation (authed_conn_id (conn s)) msg = None)) as [Hv|Hv].
  1: assert ((exists uuid lr, msg = Some (SwitchSidesResponse uuid lr))
             \/ ~ exists uuid lr, msg = Some (SwitchSidesResponse uuid lr)) as [(uuid & lr & ->)|Hns]
       by (destruct msg as [[]|]; try (right; by intros (? & ? & ?)); eauto).
  - assert (is_kind (conn s) Remote) as Hk by by apply (scope_kind (conn s) (SwitchSidesResponse uuid lr)).
    unfold on_message, mbind, M_bind, get. rewrite Hau, Hv.
    by apply (switch_leads e (conn s) Hok Hk uuid lr s).
  - assert (switched_to e (conn s) msg = None) as ->.
    { unfold switched_to. destruct msg as [[]|]; try done. destruct Hns. eauto. }
    assert ((exists o, msg = Some (MiscMsg (Some (OptionMisc o)))) \/ ~ exists o, msg = Some (MiscMsg (Some (OptionMisc o))))
         as [[o ->]|Hno] by (destruct msg as [[| | | | | | | | |[[]|]| | | | | | | | | | | | ]|]; try (right; by intros [? ?]); eauto).
    + by apply on_option_message_sets.
    + eapply does_weaken; [apply on_message_acts; [done|done| |]|by split|apply same_chosen_kept|done].
      * intros o ->. destruct Hno. eauto.
      * intros uuid lr ->. destruct Hns. eauto.
  - assert (switched_to e (conn s) msg = None) as ->.
    { unfold switched_to. destruct msg as [[]|]; try done. destruct lr as [lr|]; [|done].
      unfold is_authed_remote_conn. case_bool_decide as E; [|done]. by rewrite E in Hv. }
    eapply does_weaken; [by apply on_message_acts|by split|apply same_chosen_kept|done].
Qed.

(** ** Concrete sessions *)

Definition quiet_options : FileScan.Options := mkOptions [] [] [] [].

Definition demo_env : Env := {|
  inner_id := 7; now := 0; one_way_file_transfer := false; one_way_clipboard_redirection := false;
  permission := fun _ => true; file_options := quiet_options;
  host_watermark := false; controller_watermark := false; recording_forbidden := false;
  scope_violation_alarm := true; scope_violation_close := true; allow_auto_disconnect := false;
  support_multi_ui_session := true; can_enable_overwrite_detection := true;
  is_support_file_copy_paste := true; before_1_2_4 := false;
  source_count := fun _ => 1; display_changed_msg := fun _ _ => None;
  displays := Some [Str.lit "eDP-1"]; primary_camera_exists := false;
  need_fs_cm_send_files := false;
  get_recursive_files := fun _ _ => Ok []; new_read := fun _ _ _ _ => Ok []; new_read_printer := fun _ => Ok [];
  check_file_count_limit := fun _ => None; parse_directory := fun _ => None;
  msg_2_clip := fun _ => true; serve_clip_messages := fun _ => [];
  is_privacy_mode_supported := false; is_in_privacy_mode := false; still_in_privacy_mode := false;
  privacy_mode_conn_id := None; cur_impl_key := None; is_current_privacy_mode_impl := fun _ => false;
  turn_on_result := None; check_privacy_mode_err := []; turn_off_result := None;
  modifier := fun _ => None; is_modifier := fun _ => false;
  cursor_data_message := fun _ => None; whiteboard_supported := false; session_reconnected := false;
  uuid_from_slice := fun _ => false; insert_pending_switch_sides_uuid := fun _ => false;
  terminal_answer := fun _ => Ok None; forward_asks_camera := fun _ => false;
  display_inited_msg := None; displays_on_login := Ok 0; removes_wallpaper := false;
  is_allowed_dir := fun _ => true; auto_disconnect_timeout := []; recv_elapsed := 0;
  display_under := fun _ _ => None; not_support_multi_clip := fun _ => None;
  switch_sides_uuid := ∅; id_failures := ∅; ip := Str.lit "192.0.2.1"; now_ms := 600000;
  to_lowercase := id; from_json := fun _ => None; opt_id_whitelist := []; opt_id_permissions := [];
  grant_allows := None |}.

Definition all_perms : Perms :=
  Connection.mk [] true true true true true true true true true true true true true true.

(** A connection whose login asked for the desktop, or for the camera. *)
Definition demo_conn (camera : bool) (p : Perms) : Conn := {|
  file_transfer := None; view_camera := camera; terminal := false;
  port_forward_socket := false; port_forward_mux := false;
  authorized := false; authed_conn_id := None; perms := p;
  disable_keyboard := false; disable_clipboard := false; disable_audio := false;
  enable_file_transfer := true; lock_after_session_end := false; show_remote_cursor := false;
  follow_remote_cursor := false; follow_remote_window := false; show_my_cursor := false;
  terminal_persistent := false; services_subed := false; voice_calling := false;
  voice_call_request_timestamp := None; audio_sender := false; display_idx := 0; multi_ui_session := false;
  chat_unanswered := false; file_transferred := false; closed := false; close_reason := None;
  scope_violation_messages := ∅; options_in_login := None; delayed_read_dir := None;
  cm_read_job_ids := ∅; read_jobs := []; printer_data := []; controller_identity := None;
  pressed_modifiers := ∅; auto_disconnect_timer := None; last_test_delay := None; network_delay := 0;
  terminal_user_token := false; terminal_generic_service := false; from_switch := false |}.

Definition demo_services : gmap rstr ServiceInner :=
  list_to_map ((fun name => (name, new false)) <$>
    [CLIPBOARD_NAME; FILE_NAME; AUDIO_NAME; NAME_POS; NAME_CURSOR; NAME_WINDOW_FOCUS]).

Definition demo_state (camera : bool) (p : Perms) : St := mkSt (demo_conn camera p) (Some (mkServer demo_services ∅)) [].

Definition demo (camera : bool) (evs : list Event) : bool * St :=
  run ((fun ev => (demo_env, ev)) <$> evs) (demo_state camera all_perms).

Definition switched (name : string) (enabled : bool) : Event := FromCm (SwitchPermission (Str.lit name) enabled).


Definition demo_logged : St := (demo false [LoggedOn]).2.

Definition left_click : Message := MouseEventMsg (mkMouse 10 3 4).

Lemma session_acts_within_its_permissions_witness :
  let s' := (on_message demo_env (Some left_click) demo_logged).2 in
  (exists es, out s' = out demo_logged ++ es /\ Forall (permitted demo_env (conn demo_logged)) es)
  /\ kept (conn s') = kept (conn demo_logged).
Proof.
  apply (session_acts_within_its_permissions demo_env (Some left_click) demo_logged); [|by vm_compute].
  by vm_compute.
Defined.

(** The PC has just given a code to this ID. *)
Definition switching_env : Env :=
  demo_env <| uuid_from_slice := fun _ => true |>
           <| switch_sides_uuid := {[Str.lit "111" := (5000, [8; 8])]} |>.

Definition switch_back : Message :=
  SwitchSidesResponse [8; 8] (Some (mkSwitchLogin (Str.lit "111") false None)).

(** The person at the PC takes the keyboard away; the answer to the switch of sides gives it
    back.  A code of another, or one given too long before, changes nothing. *)
Example switching_sides_restores_permissions :
  let s := (demo false [LoggedOn; switched "keyboard" false]).2 in
  let after e := keyboard (conn (on_message e (Some switch_back) s).2) in
  keyboard (conn s) = false /\ after switching_env = true /\ after demo_env = false
  /\ after (switching_env <| switch_sides_uuid := {[Str.lit "111" := (10000, [8; 8])]} |>) = false.
Proof. vm_compute. repeat split. Qed.
