(* ===== verification/SessionClip.v ===== *)
(** * The file clipboard of a session: [src/server/connection.rs]

    A connection hands the messages of the peer to the lists of [FileClipboard] and sends
    its own clipboard to the peer; both ways the policy of [FileScan] has the last word. *)

From coqutil Require Import Datatypes.RecordSetters.
From S2P Require Import Prelude PosixFs FileTransfer PortForwardMux FileScan FileClipboard Services SessionScope IdPermissions SessionState SessionHandler SessionSafety.
Import TriangleBracketNotations.

#[local] Arguments constant {E} newValue _ /.

Section Clip.
(** The encoding of a box for the user. *)
Context (message_box : rstr -> rstr -> rstr -> bytes).

(** ** From the clipboard of this end *)

Definition send_clip (e : Env) (m : ClipboardFile.ClipMessage) : M unit :=
  match m with
  | ClipboardFile.MessageBox msgtype title text => send (RawMessage (message_box msgtype title text))
  | ClipboardFile.AsCliprdr c =>
      let '(c, events) := filter_clipboard_from_host (file_options e) c in
      _ ← policy_audit events;
      send (OutClip c)
  end.

Definition is_format_list (clip : ClipboardFile.ClipboardFile) : bool :=
  match clip with ClipboardFile.FormatList _ => true | _ => false end.

Definition handle_file_clip (e : Env) (file_len : rstr -> option Z) (clip : ClipboardFile.ClipboardFile) : M unit :=
  c ← get;
  when (authorized c)
    (let stop := ClipboardFile.is_stopping_allowed clip && negb (file_transfer_enabled c) in
     when (negb stop)
       (if ClipboardFile.is_beginning_message clip && one_way_file_transfer e then mret tt
        else if is_format_list clip && clipboard_from_host_blocked (file_options e) then mret tt
        else send_clip e (ClipboardFile.clip_2_msg file_len clip))).

(** The arm of the loop. *)
Definition on_clip_file (e : Env) (file_len : rstr -> option Z) (clip : ClipboardFile.ClipboardFile) : M unit :=
  when (is_support_file_copy_paste e) (handle_file_clip e file_len clip).
End Clip.

(** ** To the lists of this end *)

Definition cliprdr_of (m : ClipboardFile.ClipMessage) : option Cliprdr :=
  match m with ClipboardFile.AsCliprdr c => Some c | ClipboardFile.MessageBox _ _ _ => None end.

(** What the lists answer, and the lists afterwards. *)
Definition serve (w : World) (conn_id : Z) (sh : ServFiles.Shared) (clip : Cliprdr) : list Cliprdr * ServFiles.Shared :=
  match ClipboardFile.msg_2_clip clip with
  | None => ([], sh)
  | Some clip => let '(ms, _, sh) := FileClipboard.serve_clip_messages w clip conn_id sh in (omap cliprdr_of ms, sh)
  end.

(** The environment of a handler in which the file clipboard is that of [FileClipboard]. *)
Definition with_lists (w : World) (sh : ServFiles.Shared) (e : Env) : Env :=
  e <| msg_2_clip := fun clip => bool_decide (is_Some (ClipboardFile.msg_2_clip clip)) |>
    <| SessionState.serve_clip_messages := fun clip => (serve w (inner_id e) sh clip).1 |>.

(** * Specification *)

(** No list of files goes out that holds, for the end that pastes it, a file which the
    policy keeps on this PC. *)
Definition leaves_permitted (e : Env) (eff : Effect) : Prop :=
  match eff with
  | Send (OutClip (FormatDataResponse _ data)) => paste_permitted (file_options e) AwayFromHost data
  | _ => True
  end.

(** * Theorems *)

(** A message that was filtered. *)
Lemma filtered_leaves e clip c events :
  filter_clipboard_from_host (file_options e) clip = (c, events) -> leaves_permitted e (Send (OutClip c)).
Proof. intros Hf. destruct c; try done. by eapply filtered_paste. Qed.

Lemma empty_leaves e flags : leaves_permitted e (Send (OutClip (FormatDataResponse flags []))).
Proof. intros conn files Hp. by apply parse_list_length in Hp. Qed.

Lemma refusal_leaves e clip r : refuse_clipboard_from_host (file_options e) clip = Some r -> leaves_permitted e (Send (OutClip r)).
Proof.
  unfold refuse_clipboard_from_host. destruct clip; cbn; try discriminate; destruct (clipboard_from_host_blocked _); try discriminate;
    intros [= <-]; [exact (empty_leaves e 0)|done].
Qed.

Section Leaves.
Context (e : Env) (I : Conn -> Prop).

Abbreviation leaves m := (does I (leaves_permitted e) m).

Lemma policy_audit_leaves events : leaves (policy_audit events).
Proof. unfold policy_audit. repeat does_step. done. Qed.

Lemma answer_clip_leaves clip : leaves (answer_clip e clip).
Proof.
  unfold answer_clip. destruct (filter_clipboard_from_host (file_options e) clip) as [c events] eqn:E.
  apply does_bind; [apply policy_audit_leaves|intros _].
  destruct c; apply does_emit; (done || by eapply filtered_leaves).
Qed.

Lemma on_cliprdr_leaves clip : leaves (on_cliprdr e clip).
Proof.
  unfold on_cliprdr. apply does_get. intros c Hc.
  destruct (filter_clipboard_to_host (file_options e) clip) as [clip' events].
  apply does_bind; [apply policy_audit_leaves|intros _].
  set (rest := if _ : bool then _ else _). assert (leaves rest) as Hrest.
  { subst rest. destruct (_ && one_way_file_transfer e); [apply does_ret|].
    destruct (refuse_clipboard_from_host _ clip') as [r|] eqn:Er; [apply does_emit; by eapply refusal_leaves|].
    apply does_when. intros _. apply does_bind; [by apply does_emit|intros _].
    apply does_for_each. intros x. apply answer_clip_leaves. }
  destruct clip'; (done || by apply does_emit).
Qed.

Lemma handle_file_clip_leaves box file_len clip : leaves (handle_file_clip box e file_len clip).
Proof.
  unfold handle_file_clip. apply does_get. intros c Hc. apply does_when. intros _. apply does_when. intros _.
  destruct (_ && one_way_file_transfer e); [apply does_ret|]. destruct (_ && _); [apply does_ret|].
  unfold send_clip. destruct (ClipboardFile.clip_2_msg file_len clip) as [ty ti te|m]; [by apply does_emit|].
  destruct (filter_clipboard_from_host (file_options e) m) as [c' events] eqn:E.
  apply does_bind; [apply policy_audit_leaves|intros _]. apply does_emit. by eapply filtered_leaves.
Qed.
End Leaves.

Lemma leaves_run (e : Env) (m : M unit) s :
  does (fun _ => True) (leaves_permitted e) m ->
  exists es, out (m s).2 = out s ++ es /\ Forall (leaves_permitted e) es.
Proof. intros H. destruct (H s I) as (es & ? & ? & _). by exists es. Qed.

(** Without the permission the lists are not asked. *)
Definition not_served (eff : Effect) : Prop := match eff with ServeClip _ => False | _ => True end.

Lemma on_cliprdr_unserved e clip :
  does (fun c => file_transfer_enabled c = false) not_served (on_cliprdr e clip).
Proof.
  unfold on_cliprdr, policy_audit, send. apply does_get. intros c Hc.
  repeat does_step; try done; by rewrite Hc, andb_false_r in H.
Qed.

(** C27 Whatever the peer asks of the file clipboard and whatever files are copied on this PC,
    the lists of files that go out paste no file that the policy keeps here, by the parser of
    the end that pastes.  Of the files copied here ([handle_file_clip]) a connection that is
    not authorised sends nothing, and one without the permission for files neither starts a
    paste nor has the lists asked for the peer.  This is of the messages of the clipboard of
    files: the contents of the clipboard itself go out as the messages of its service, which
    a connection may be subscribed to before its login
    ([SessionSubs.clipboard_before_the_authorisation]). *)
Theorem clipboard_leaves_by_the_policy box e file_len s clip msg :
  (exists es, out (handle_file_clip box e file_len clip s).2 = out s ++ es /\ Forall (leaves_permitted e) es)
  /\ (exists es, out (on_cliprdr e msg s).2 = out s ++ es /\ Forall (leaves_permitted e) es)
  /\ (authorized (conn s) = false
       \/ ClipboardFile.is_stopping_allowed clip = true /\ file_transfer_enabled (conn s) = false ->
       handle_file_clip box e file_len clip s = (tt, s))
  /\ (file_transfer_enabled (conn s) = false ->
       exists es, out (on_cliprdr e msg s).2 = out s ++ es /\ Forall not_served es).
Proof.
  split; [by apply leaves_run, handle_file_clip_leaves|]. split; [by apply leaves_run, on_cliprdr_leaves|]. split.
  - unfold handle_file_clip, mbind, M_bind, get. cbn. intros [->|[-> ->]]; [done|]. by destruct (authorized (conn s)).
  - intros Hp. destruct (on_cliprdr_unserved e msg s Hp) as (es & ? & ? & _). by exists es.
Qed.

(** ** From the clipboard to the peer *)

Lemma seen_not_blocked o data conn files :
  Filetype.parse_file_descriptors data conn = Ok files ->
  direction_allowed (file_direction_from (file_direction o)) AwayFromHost = true ->
  Forall (fun f => Filetype.kind f = Filetype.File -> extension_blocked (Filetype.name f) (file_blocked_ext o) = false) files ->
  files <> [] ->
  filter_clipboard_from_host o (FormatDataResponse 1 data) = (FormatDataResponse 1 data, []).
Proof.
  intros Hp Hd Hall Hne. unfold filter_clipboard_from_host, filter_clipboard_files.
  rewrite (seen_files _ _ _ Hp Hne). set (fs := _ <$> _).
  assert (blocked_clipboard_file o AwayFromHost fs = None) as ->; [|done].
  unfold blocked_clipboard_file. rewrite Hd. cbn [negb]. apply fmap_None, find_is_none, Forall_fmap, List.Forall_forall.
  intros d [Hin Hfd]%filter_In. apply list_elem_of_In, list_elem_of_lookup in Hin as [i Hi].
  apply parse_list_inv in Hp as (_ & _ & Hf). destruct (Forall2_lookup_l _ _ _ _ _ Hf Hi) as (f & Hfi & Hpd).
  assert (Filetype.kind f = Filetype.File) as Hk.
  { apply parse_descriptor_inv in Hpd as (n & s & _ & _ & _ & _ & _ & _ & _ & ->).
    unfold is_file_descriptor, CLIP_ATTRIBUTES_OFFSET, FILE_ATTRIBUTE_DIRECTORY in Hfd. by rewrite Hfd. }
  destruct (descriptor_seen _ _ _ _ (file_blocked_ext o) Hpd Hk) as [_ E]. change (extension_blocked (descriptor_name d) (file_blocked_ext o) = false). rewrite <- E.
  rewrite Forall_lookup in Hall. by apply (Hall i).
Qed.

#[local] Arguments file_transfer_enabled : simpl never.
#[local] Arguments clipboard_from_host_blocked : simpl never.
#[local] Arguments filter_clipboard_from_host : simpl never.
#[local] Arguments serve : simpl never.

(** C34 What is copied on this PC reaches a peer that may have it, when no name of a copied
    file holds a backslash (or a code that is no character: [plain]): asked for the list, the
    connection sends the one that is shared, and the peer reads in it the files of this PC,
    whatever was copied, sent and read before.  The peer may have it when it supports the
    copy of files, has the permission for files, the transfers are not one way, and the
    policy looks at this direction and blocks the extension of none of the files.  A list
    with a backslash in a name is sent too, and read as something else or refused
    ([FileClipboard.backslash_spoils_the_list]). *)
Theorem copied_files_reach_the_peer ops w e s requested_format_id peer :
  Forall op_ok ops ->
  let sh := foldl share_step at_start ops in
  let c := ServFiles.current sh in
  let e' := with_lists w sh e in
  is_support_file_copy_paste e = true -> file_transfer_enabled (conn s) = true -> one_way_file_transfer e = false ->
  direction_allowed (file_direction_from (file_direction (file_options e))) AwayFromHost = true ->
  Forall (fun f => LocalFiles.is_dir f = false ->
            extension_blocked (LocalFiles.descriptor_name f) (file_blocked_ext (file_options e)) = false)
    (ServFiles.file_list c) ->
  ServFiles.files_pdu c <> [] -> Forall plain (ServFiles.file_list c) ->
  Z.of_nat (length (ServFiles.file_list c)) < 2 ^ 32 ->
  exists data,
    out (on_cliprdr e' (FormatDataRequest requested_format_id) s).2
      = out s ++ [ServeClip (FormatDataRequest requested_format_id); Send (OutClip (FormatDataResponse 1 data))]
    /\ Filetype.parse_file_descriptors data peer = Ok (described peer (Filetype.file_list_id data) <$> ServFiles.file_list c).
Proof.
  intros Hops sh c e' Hsup Hft How Hdir Hext Hpdu Hplain Hcount.
  assert (shared_ok sh) as [[Hb Hl] _ _] by (apply shared_always_ok, at_start_ok; done).
  change (ServFiles.current sh) with c in Hb, Hl.
  assert (Forall sendable (ServFiles.file_list c)) as Hs.
  { apply List.Forall_forall. intros f Hf. rewrite List.Forall_forall in Hl, Hplain. apply listed_sendable; auto. }
  assert (ServFiles.file_list c <> []) as Hne by (destruct Hb as [[_ ?]|(? & _ & ? & _)]; done).
  exists (ServFiles.files_pdu c). pose proof (built_read_back c peer Hb Hpdu Hs Hcount) as Hread.
  rewrite (built_id c Hb Hpdu). split; [|done].
  assert (filter_clipboard_from_host (file_options e) (FormatDataResponse 1 (ServFiles.files_pdu c))
          = (FormatDataResponse 1 (ServFiles.files_pdu c), [])) as Hfil.
  { apply (seen_not_blocked _ _ _ _ Hread Hdir); [|by intros E%fmap_nil_inv].
    apply Forall_fmap, (Forall_impl _ _ _ Hext). intros f Hf. cbn. by destruct (LocalFiles.is_dir f); auto. }
  assert (serve w (inner_id e) sh (FormatDataRequest requested_format_id)
          = ([FormatDataResponse 1 (ServFiles.files_pdu c)], (ServFiles.get_file_list_pdu (inner_id e) sh).2)) as Hserve.
  { unfold serve. cbn. unfold ServFiles.get_file_list_pdu. fold c. by destruct (ServFiles.files_pdu c). }
  assert (clipboard_from_host_blocked (file_options e) = false) as Hb'.
  { unfold clipboard_from_host_blocked. by rewrite Hdir. }
  subst e'. destruct e. cbn in *. unfold on_cliprdr. cbn.
  unfold mbind, M_bind, get. cbn. rewrite How, Hsup, Hb', Hft. cbn. rewrite Hserve. cbn.
  unfold answer_clip, mbind, M_bind. cbn. rewrite Hfil. cbn. destruct s. cbn. by rewrite <- app_assoc.
Qed.

(** ** A copied file *)

Lemma copied_files_reach_the_peer_witness :
  exists data,
    out (on_cliprdr (with_lists (one_file 3 1050 [1; 2; 3]) (foldl share_step at_start first_copy) demo_env)
           (FormatDataRequest 49334) (demo_state false all_perms)).2
      = [ServeClip (FormatDataRequest 49334); Send (OutClip (FormatDataResponse 1 data))]
    /\ Filetype.name <$> match Filetype.parse_file_descriptors data 2 with Ok fs => fs | Err _ => [] end = [Str.lit "a.txt"].
Proof.
  destruct (copied_files_reach_the_peer first_copy (one_file 3 1050 [1; 2; 3]) demo_env (demo_state false all_perms)
    49334 2 first_copy_ok) as (data & E & Hp); [by vm_compute..| | | |by vm_compute|].
  - apply (bool_decide_unpack _). by vm_compute.
  - by vm_compute.
  - apply (bool_decide_unpack _). by vm_compute.
  - exists data. split; [exact E|]. rewrite Hp. by vm_compute.
Defined.

(** The same list with the extension blocked: the peer is told that there is nothing. *)
Example blocked_copy_is_refused :
  let blocks_txt := demo_env <| file_options := mkOptions [] [] [] (Str.lit "txt") |> in
  List.filter (fun eff => match eff with Send _ => true | _ => false end)
    (out (on_cliprdr (with_lists (one_file 3 1050 [1; 2; 3]) (foldl share_step at_start first_copy) blocks_txt)
            (FormatDataRequest 49334) (demo_state false all_perms)).2)
  = [Send (OutClip (FormatDataResponse 2 []))].
Proof. by vm_compute. Qed.
