(* ===== verification/SessionSubs.v ===== *)
(** * What a session is subscribed to: [src/server/connection.rs], [Server] of
      [src/server.rs]

    The subscriptions of a session that views the desktop follow its permissions and its
    options through every turn of its loop, over the handlers of [SessionHandler] and the
    table of [Services]. *)

From coqutil Require Import Datatypes.RecordSetters.
From S2P Require Import Prelude PortForwardMux FileScan Services SessionScope IdPermissions SessionState SessionHandler.
From S2P Require Import SessionSafety.
Import TriangleBracketNotations.

(** ** Subscriptions *)

(** What does not change, but for the authorisation at the end of the login: the number of
    the connection and the builtin options. *)
Record Fixed := mkFixed { fx_id : Z; fx_authorized : bool; fx_one_way_file : bool; fx_one_way_clipboard : bool }.

Definition env_ok (x : Fixed) (e : Env) : Prop :=
  inner_id e = fx_id x /\ one_way_file_transfer e = fx_one_way_file x
  /\ one_way_clipboard_redirection e = fx_one_way_clipboard x.

(** The message that takes the permissions again, which no subscription follows. *)
Definition shows_a_code (e : Env) (msg : option Message) : bool :=
  match msg with Some (SwitchSidesResponse uuid (Some lr)) => switch_code_ok e uuid lr | _ => false end.

(** A turn in which the peer does not answer a switch of sides with the code it was given. *)
Definition turn_ok (x : Fixed) (ee : Env * Event) : Prop :=
  env_ok x ee.1 /\ forall msg, ee.2 = FromPeer msg -> shows_a_code ee.1 msg = false.

(** What a connection may be subscribed to: the clipboard, the sound, the position of the
    cursor and the window in focus as the code asks when it subscribes; the files of the
    clipboard and the cursor by less than it asks then, since what it asks besides, the
    clipboard for the one and that the peer did not disable its keyboard for the other, is
    not looked at again when it changes ([can_sub_file_clipboard_service], [noperms]); the
    other services, the video of the displays, always. *)
Definition may_sub (x : Fixed) (name : rstr) (c : Conn) : bool :=
  if bool_decide (name = CLIPBOARD_NAME) then
    clipboard_enabled c && peer_keyboard_enabled c && negb (fx_one_way_clipboard x)
  else if bool_decide (name = FILE_NAME) then file_transfer_enabled c && negb (fx_one_way_file x)
  else if bool_decide (name = AUDIO_NAME) then audio_enabled c
  else if bool_decide (name = NAME_POS) then show_remote_cursor c
  else if bool_decide (name = NAME_WINDOW_FOCUS) then follow_remote_window c
  else if bool_decide (name = NAME_CURSOR) then keyboard c || show_remote_cursor c
  else true.

(** The subscriptions that a session has whenever it may. *)
Definition exact_names : list rstr := [CLIPBOARD_NAME; AUDIO_NAME; NAME_POS].

Definition open_session (c : Conn) : bool := services_subed c && negb (closed c).

(** The subscriptions of a connection that views the desktop, but for the services of
    [loose]: it has only those that it may have, and all the exact ones once it is
    logged on; before, it does not hear. *)
Definition subs_ok (x : Fixed) (loose : list rstr) (s : St) : Prop :=
  (is_remote (conn s) = true /\ authed_conn_id (conn s) <> Some ViewCamera
   /\ authorized (conn s) = fx_authorized x
   /\ (fx_authorized x = false -> services_subed (conn s) = false))
  /\ forall sv, server s = Some sv ->
       (tidy_server sv /\ (fx_authorized x = false -> ~ listens sv AUDIO_NAME (fx_id x)))
       /\ forall name, (name ∉ loose) ->
            (listens sv name (fx_id x) -> may_sub x name (conn s) = true)
            /\ (open_session (conn s) = true -> (name ∈ exact_names) -> contains name sv = true ->
                may_sub x name (conn s) = true -> listens sv name (fx_id x)).

(** A handler that leaves the subscriptions right, from [loose] to [loose']. *)
Definition sets_right (x : Fixed) {A} (loose loose' : list rstr) (m : M A) : Prop :=
  forall s, subs_ok x loose s -> subs_ok x loose' (m s).2.

Section Right.
Context (x : Fixed).

Lemma right_ret {A} loose (a : A) : sets_right x loose loose (mret a).
Proof. by intros s Hs. Qed.

Lemma right_bind {A B} l1 l2 l3 (m : M A) (k : A -> M B) :
  sets_right x l1 l2 m -> (forall a, sets_right x l2 l3 (k a)) -> sets_right x l1 l3 (mbind k m).
Proof.
  intros Hm Hk s Hs. specialize (Hm s Hs). unfold mbind, M_bind. destruct (m s) as [a s1]. by apply Hk.
Qed.

Lemma right_get {B} l1 l2 (k : Conn -> M B) :
  (forall c, is_remote c = true -> authed_conn_id c <> Some ViewCamera -> authorized c = fx_authorized x ->
     sets_right x l1 l2 (k c)) ->
  sets_right x l1 l2 (mbind k get).
Proof. intros Hk s Hs. pose proof Hs as [(Hr & Ha & Hu & _) _]. by apply (Hk (conn s)). Qed.

Lemma right_get_server loose : sets_right x loose loose get_server.
Proof. by intros s Hs. Qed.

Lemma right_emit loose eff : sets_right x loose loose (emit eff).
Proof. intros s Hs. destruct s. exact Hs. Qed.

Lemma right_when loose b (m : M unit) :
  (b = true -> sets_right x loose loose m) -> sets_right x loose loose (when b m).
Proof. intros Hm. destruct b; [by apply Hm|apply right_ret]. Qed.

Lemma right_for_each {A} loose (l : list A) f :
  (forall a, sets_right x loose loose (f a)) -> sets_right x loose loose (for_each l f).
Proof. intros Hf. induction l as [|a l IH]; [apply right_ret|]. eapply right_bind; [apply Hf|done]. Qed.

Lemma right_when_set loose o f :
  (forall b, sets_right x loose loose (f b)) -> sets_right x loose loose (when_set o f).
Proof. intros Hf. destruct o as [[]|]; cbn; [apply right_ret|apply Hf..|apply right_ret]. Qed.

(** What only the login sets. *)
Definition standing (c : Conn) := (authed_conn_id c, authorized c, services_subed c).

(** A change of the connection spoils the subscriptions that it bears on. *)
Lemma right_modify l1 l2 f :
  (forall c, is_remote c = true -> is_remote (f c) = true) ->
  (forall c, standing (f c) = standing c) ->
  (forall c, open_session (f c) = true -> open_session c = true) ->
  (forall c name, (name ∉ l2) -> (name ∉ l1) /\ may_sub x name (f c) = may_sub x name c) ->
  sets_right x l1 l2 (modify f).
Proof.
  intros Hr Ha Ho Hm s [(Hs1 & Hs2 & Hs3 & Hs4) Hs]. destruct s as [c sv o]. cbn in *. injection (Ha c) as Ha1 Ha2 Ha3.
  split; cbn; [rewrite Ha1, Ha2, Ha3; eauto|]. intros sv' E. destruct (Hs sv' E) as [Ht Hn]. split; [done|]. intros name Hl.
  destruct (Hm c name Hl) as [Hl1 ->]. destruct (Hn name Hl1) as [Hmay Hall]. split; [done|]. intros Hop. apply Hall. by apply Ho.
Qed.

Lemma right_keep loose f :
  (forall c, is_remote c = true -> is_remote (f c) = true) ->
  (forall c, standing (f c) = standing c) ->
  (forall c, open_session (f c) = true -> open_session c = true) ->
  (forall c name, may_sub x name (f c) = may_sub x name c) ->
  sets_right x loose loose (modify f).
Proof. intros Hr Ha Ho Hm. by apply right_modify. Qed.

(** A subscription mends its service, when it asks for what the connection may have. *)
Lemma right_sub l1 l2 e name sub :
  env_ok x e -> (name = AUDIO_NAME -> fx_authorized x = true) ->
  (forall c, sub c = true -> may_sub x name c = true) ->
  ((name ∈ exact_names) -> forall c, may_sub x name c = true -> sub c = true) ->
  (forall n, (n ∉ l2) -> n = name \/ (n ∉ l1)) ->
  sets_right x l1 l2 (sub_service e name sub).
Proof.
  intros (Hid & _) Haudio Hsub Hexact Hl s [Hk Hs]. unfold sub_service, get, with_server, mbind, M_bind.
  destruct s as [c sv o]. cbn in *. split; [done|]. intros sv' E. destruct sv as [sv|]; [|done]. cbn in E.
  injection E as <-. destruct (Hs sv eq_refl) as [[Ht Hq] Hn]. split.
  { split; [by apply subscribe_tidy|]. intros Hf. rewrite subscribe_listens by done. case_bool_decide as E; [|by apply Hq].
    destruct E as [<- _]. rewrite Haudio in Hf; done. }
  intros n Hnl. rewrite (subscribe_listens name _ _ sv n _ Ht), Hid.
  assert (contains n (subscribe name (fx_id x) (sub c) sv) = contains n sv) as ->.
  { unfold contains. apply bool_decide_ext. by rewrite <- !elem_of_dom, subscribe_names. }
  destruct (decide (n = name)) as [->|Hne].
  - rewrite bool_decide_eq_true_2 by done. split; [by intros [_ ?]; apply Hsub|].
    intros _ Hx Hc Hmay. split; [by apply bool_decide_eq_true in Hc|]. by apply Hexact.
  - rewrite bool_decide_eq_false_2 by tauto. apply Hn. destruct (Hl n Hnl); done.
Qed.

Lemma may_sub_video name c : is_video_service_name name = true -> may_sub x name c = true.
Proof.
  intros Hv. unfold may_sub. repeat case_bool_decide; try done; subst name; by vm_compute in Hv.
Qed.

Lemma exact_not_video name : (name ∈ exact_names) -> is_video_service_name name = false.
Proof.
  unfold exact_names. rewrite !elem_of_cons. intros [->|[->|[->|H]]]; [by vm_compute..|by apply elem_of_nil in H].
Qed.

Lemma audio_not_video : is_video_service_name AUDIO_NAME = false.
Proof. apply exact_not_video. unfold exact_names. rewrite !elem_of_cons. tauto. Qed.

(** Changes of the videos alone. *)
Lemma right_videos loose f :
  (forall sv, tidy_server sv -> tidy_server (f sv)) ->
  (forall sv name, tidy_server sv -> is_video_service_name name = false ->
     contains name (f sv) = contains name sv /\ (listens (f sv) name (fx_id x) <-> listens sv name (fx_id x))) ->
  sets_right x loose loose (with_server f).
Proof.
  intros Ht Hf s [Hk Hs]. destruct s as [c sv o]. cbn in *. split; [done|]. intros sv' E.
  destruct sv as [sv|]; [|done]. cbn in E. injection E as <-. destruct (Hs sv eq_refl) as [[Htidy Hq] Hn].
  split; [split; [by apply Ht|]; intros Hfa; by rewrite (proj2 (Hf sv AUDIO_NAME Htidy audio_not_video)); apply Hq|]. intros n Hnl. destruct (is_video_service_name n) eqn:Hv.
  - split; [intros _; by apply may_sub_video|]. intros _ Hx. apply exact_not_video in Hx. congruence.
  - destruct (Hf sv n Htidy Hv) as [-> ->]. by apply Hn.
Qed.
End Right.

#[export] Hint Resolve right_ret right_get_server right_emit : session.

Ltac right_step :=
  match goal with
  | |- sets_right _ _ _ (mbind _ get) => apply right_get; intros ? ? ? ?
  | |- sets_right _ _ _ (mbind _ _) => eapply right_bind; [|intros ?]
  | |- sets_right _ _ _ (when _ _) => apply right_when; intros ?
  | |- sets_right _ _ _ (when_set _ _) => apply right_when_set; intros ?
  | |- sets_right _ _ _ (for_each _ _) => apply right_for_each; intros ?
  | |- sets_right _ _ _ (modify _) =>
      apply right_keep; [intros ? ?; done|intros ?; done|intros ? ?; done|intros ? ?; reflexivity]
  | |- sets_right _ _ _ (match ?y with _ => _ end) => destruct y eqn:?
  | |- sets_right _ _ _ _ => solve [auto with session nocore]
  end.

Ltac right_all :=
  unfold send_permission, send_display_changed, send_clanto_effective_permissions, send_fs, send_to_cm, send,
    mark_permission, policy_audit, update_auto_disconnect_timer, try_empty_file_clipboard, forget_job in *;
  repeat right_step.

#[local] Strategy opaque [CLIPBOARD_NAME FILE_NAME AUDIO_NAME NAME_POS NAME_WINDOW_FOCUS NAME_CURSOR].

Section Right2.
Context (x : Fixed) (e : Env) (He : env_ok x e).

Abbreviation right m := (sets_right x [] [] m).

Lemma can_sub_may c : can_sub_clipboard_service e c = may_sub x CLIPBOARD_NAME c.
Proof using He. destruct He as (_ & _ & Hc). unfold can_sub_clipboard_service. by rewrite Hc. Qed.

Lemma can_sub_file_may c : can_sub_file_clipboard_service e c = true -> may_sub x FILE_NAME c = true.
Proof using He.
  destruct He as (_ & Hf & _). unfold can_sub_file_clipboard_service. rewrite Hf.
  change (may_sub x FILE_NAME c) with (file_transfer_enabled c && negb (fx_one_way_file x)).
  rewrite !andb_true_iff. tauto.
Qed.

Lemma cursor_may c b :
  (b = true -> keyboard c = true) -> b || show_remote_cursor c = true -> may_sub x NAME_CURSOR c = true.
Proof.
  intros Hb. change (may_sub x NAME_CURSOR c) with (keyboard c || show_remote_cursor c).
  rewrite !orb_true_iff. intuition.
Qed.

(** Which names are left to mend after a subscription to [name]. *)
Lemma right_clipboard l1 l2 : (forall n, (n ∉ l2) -> n = CLIPBOARD_NAME \/ (n ∉ l1)) ->
  sets_right x l1 l2 (sub_clipboard e).
Proof using He. intros Hl. apply right_sub; [done|done|intros c; by rewrite can_sub_may|intros _ c; by rewrite can_sub_may|done]. Qed.

Lemma right_file l1 l2 : (forall n, (n ∉ l2) -> n = FILE_NAME \/ (n ∉ l1)) ->
  sets_right x l1 l2 (sub_file_clipboard e).
Proof using He.
  intros Hl. apply right_sub; [done|done|apply can_sub_file_may| |done].
  intros H. exfalso. unfold exact_names in H. rewrite !elem_of_cons in H. by destruct H as [|[|[|?%elem_of_nil]]].
Qed.

Lemma right_cursor l1 l2 sub : (forall n, (n ∉ l2) -> n = NAME_CURSOR \/ (n ∉ l1)) ->
  (forall c, sub c = true -> may_sub x NAME_CURSOR c = true) ->
  sets_right x l1 l2 (sub_service e NAME_CURSOR sub).
Proof using He.
  intros Hl Hs. apply right_sub; [done|done|done| |done].
  intros H. exfalso. unfold exact_names in H. rewrite !elem_of_cons in H. by destruct H as [|[|[|?%elem_of_nil]]].
Qed.

Lemma right_audio l1 l2 : fx_authorized x = true -> (forall n, (n ∉ l2) -> n = AUDIO_NAME \/ (n ∉ l1)) ->
  sets_right x l1 l2 (sub_audio e).
Proof using He.
  intros Hx Hl. unfold sub_audio. apply right_get. intros c _ Ha _. unfold is_authed_view_camera_conn.
  rewrite bool_decide_eq_false_2 by done. by apply right_sub.
Qed.

Ltac other_names := unfold may_sub; repeat (case_bool_decide; [solve [contradiction|reflexivity]|]); reflexivity.

(** The names that a flag bears on. *)
Ltac bears_on := intros ? n Hn; rewrite ?not_elem_of_cons in Hn; destruct_and?; split; [apply not_elem_of_nil|];
  other_names.

Ltac left_over := intros n Hn; rewrite ?not_elem_of_cons in *; destruct (decide (n = CLIPBOARD_NAME));
  destruct (decide (n = FILE_NAME)); destruct (decide (n = NAME_CURSOR)); destruct (decide (n = AUDIO_NAME));
  destruct (decide (n = NAME_POS)); destruct (decide (n = NAME_WINDOW_FOCUS)); subst; try done; auto;
  right; repeat split; try done; apply not_elem_of_nil.

Lemma disable_keyboard_right yes :
  right (_ ← modify (fun c => c <| disable_keyboard := yes |>);
         _ ← sub_clipboard e; _ ← sub_file_clipboard e; sub_cursor e).
Proof using He.
  eapply right_bind; [|intros ?].
  { apply (right_modify x [] [CLIPBOARD_NAME]); [done|done|done|]. bears_on. }
  eapply right_bind; [|intros ?]. { apply (right_clipboard _ []). left_over. }
  eapply right_bind; [|intros ?]. { apply (right_file _ []). left_over. }
  apply right_cursor; [left_over|]. intros c. apply cursor_may. unfold peer_keyboard_enabled.
  intros Hk. by apply andb_true_iff in Hk as [? _].
Qed.

Lemma switch_keyboard_right enabled : right (switch_keyboard e enabled).
Proof using He.
  assert (forall s, switch_keyboard e enabled s =
    (_ ← modify (set_keyboard enabled); _ ← send_permission Profiles.Keyboard enabled;
     _ ← sub_clipboard e; _ ← sub_file_clipboard e;
     sub_service e NAME_CURSOR (fun c => keyboard c || show_remote_cursor c)) s) as E by (by intros []).
  intros s Hs. rewrite E. revert s Hs. eapply right_bind; [|intros ?].
  { apply (right_modify x [] [CLIPBOARD_NAME; NAME_CURSOR]); [done|done|done|]. bears_on. }
  eapply right_bind; [apply right_emit|intros ?].
  eapply right_bind; [|intros ?]. { apply (right_clipboard _ [NAME_CURSOR]). left_over. }
  eapply right_bind; [|intros ?]. { apply (right_file _ [NAME_CURSOR]). left_over. }
  apply right_cursor; [left_over|]. intros c. by apply cursor_may.
Qed.

(** One flag, one service. *)
Lemma one_right name f (m : M unit) :
  (forall c, is_remote c = true -> is_remote (f c) = true) ->
  (forall c, standing (f c) = standing c) ->
  (forall c, open_session (f c) = true -> open_session c = true) ->
  (forall c n, n <> name -> may_sub x n (f c) = may_sub x n c) ->
  sets_right x [name] [] m -> right (_ ← modify f; m).
Proof.
  intros Hr Ha Ho Hm H. eapply right_bind; [|intros ?; exact H].
  apply (right_modify x [] [name]); [done|done|done|]. intros c n Hn. rewrite not_elem_of_cons in Hn.
  split; [apply not_elem_of_nil|]. apply Hm. tauto.
Qed.

Ltac one_flag name := apply (one_right name); [done|done|done| |];
  [intros ? ? ?; other_names|].

Lemma cursor_options_right o : right (update_cursor_options e o).
Proof using He.
  unfold update_cursor_options. right_step; [|right_step; [by right_all|]].
  - right_step. eapply right_bind; [|intros ?].
    { apply (right_modify x [] [NAME_CURSOR; NAME_POS]); [done|done|done|]. bears_on. }
    eapply right_bind; [|intros ?].
    { apply (right_cursor _ [NAME_POS]); [left_over|]. intros c. apply cursor_may. unfold peer_keyboard_enabled.
      intros Hk. by apply andb_true_iff in Hk as [? _]. }
    apply right_sub; [done|done|done|done|left_over].
  - right_step. one_flag NAME_WINDOW_FOCUS. apply right_sub; [done|done|done| |left_over].
    intros H. exfalso. unfold exact_names in H. rewrite !elem_of_cons in H. by destruct H as [|[|[|?%elem_of_nil]]].
Qed.

Lemma audio_option_right o : fx_authorized x = true -> right (update_audio_option e o).
Proof using He.
  intros Hx. unfold update_audio_option. right_step.
  one_flag AUDIO_NAME. apply right_audio; [done|left_over].
Qed.

Lemma clipboard_options_right o : right (update_clipboard_options e o).
Proof using He.
  unfold update_clipboard_options. right_step; [|right_step].
  - right_step. one_flag FILE_NAME. eapply right_bind; [|intros ?; apply (right_file [FILE_NAME]); left_over].
    destruct (negb b); cbn; [apply right_emit|apply right_ret].
  - right_step. one_flag CLIPBOARD_NAME. apply right_clipboard. left_over.
  - right_step. apply disable_keyboard_right.
Qed.

Lemma privacy_right key : right (turn_on_privacy e key) /\ right (turn_off_privacy e key).
Proof. split; [unfold turn_on_privacy|unfold turn_off_privacy]; unfold turn_off_privacy_to_msg; right_all. Qed.

Lemma update_options_right o : fx_authorized x = true -> right (update_options e o).
Proof using He.
  intros Hx. unfold update_options, update_quality, update_privacy_option, update_block_input, update_show_my_cursor,
    update_terminal_persistence.
  right_all; first [apply cursor_options_right|by apply audio_option_right|apply clipboard_options_right|apply privacy_right].
Qed.
End Right2.

(** Changes of the table that leave all but the videos as they are. *)
Definition only_videos (f : Server -> Server) : Prop :=
  forall sv, tidy_server sv ->
    tidy_server (f sv)
    /\ forall name i, is_video_service_name name = false ->
         contains name (f sv) = contains name sv /\ (listens (f sv) name i <-> listens sv name i).

Lemma only_videos_compose f g : only_videos f -> only_videos g -> only_videos (fun sv => g (f sv)).
Proof.
  intros Hf Hg sv Ht. destruct (Hf sv Ht) as [Htf Hlf]. destruct (Hg _ Htf) as [Htg Hlg]. split; [done|].
  intros name i Hv. destruct (Hlf name i Hv) as [<- <-]. by apply Hlg.
Qed.

Lemma only_videos_id : only_videos id.
Proof. done. Qed.

Lemma only_videos_fold {A} (f : Server -> A -> Server) l :
  (forall a, only_videos (fun sv => f sv a)) -> only_videos (fun sv => foldl f sv l).
Proof.
  intros Hf. induction l as [|a l IH]; [apply only_videos_id|].
  by apply (only_videos_compose (fun sv => f sv a) (fun sv => foldl f sv l)).
Qed.

Lemma only_videos_ensure source idx : only_videos (ensure_video source idx).
Proof.
  intros sv Ht. split; [by apply ensure_tidy|]. intros name i Hv. split; [|apply ensure_listens].
  rewrite ensure_contains. rewrite (bool_decide_eq_false_2 (name = _)); [by rewrite orb_false_r|].
  intros ->. by rewrite video_names in Hv.
Qed.

Lemma contains_dom name sv sv' : dom (services sv) = dom (services sv') -> contains name sv = contains name sv'.
Proof. intros E. unfold contains. apply bool_decide_ext. by rewrite <- !elem_of_dom, E. Qed.

Lemma only_videos_subscribe source idx i sub : only_videos (subscribe (get_service_name source idx) i sub).
Proof.
  intros sv Ht. split; [by apply subscribe_tidy|]. intros name j Hv.
  split; [apply contains_dom, subscribe_names|]. rewrite subscribe_listens by done.
  rewrite bool_decide_eq_false_2; [done|]. intros [-> _]. by rewrite video_names in Hv.
Qed.

Lemma capture_names i source displays include exclude sv :
  dom (services (Services.capture_displays i source displays include exclude sv)) = dom (services sv).
Proof.
  unfold Services.capture_displays. generalize (elements (dom (services sv))). intros keys.
  revert sv. induction keys as [|k keys IH]; intros sv; [done|]. cbn. by rewrite IH, capture_name_names.
Qed.

Lemma only_videos_capture i source displays include exclude :
  only_videos (Services.capture_displays i source displays include exclude).
Proof.
  intros sv Ht. split; [by apply capture_tidy|]. intros name j Hv.
  split; [apply contains_dom, capture_names|]. rewrite capture_sets_the_displays by done.
  by rewrite Hv, andb_false_r.
Qed.

#[local] Arguments constant {E} newValue _ /.

Lemma only_videos_option display opt value : only_videos (set_video_service_opt display opt value).
Proof.
  intros [ss cs] Ht. unfold set_video_service_opt. split.
  - intros n s. cbn. rewrite map_lookup_imap. destruct (ss !! n) as [s0|] eqn:E; [|done]. cbn.
    apply (Ht n) in E. intros [= <-]. by repeat case_match.
  - intros name i Hv. unfold contains, listens. cbn. rewrite map_lookup_imap, Hv.
    destruct (ss !! name) as [s0|]; cbn; [|done]. by repeat case_match.
Qed.

Lemma only_videos_if (b : bool) f g : only_videos f -> only_videos g -> only_videos (fun sv => if b then f sv else g sv).
Proof. by destruct b. Qed.

#[export] Hint Resolve only_videos_id only_videos_ensure only_videos_subscribe only_videos_capture
  only_videos_option : session.

Lemma right_only_videos x loose f : only_videos f -> sets_right x loose loose (with_server f).
Proof.
  intros Hf. apply right_videos; [by intros sv Ht; apply Hf|]. intros sv name Ht Hv. by apply (Hf sv Ht).
Qed.

(** [is_authed_view_camera_conn] of a session that views the desktop. *)
Lemma not_camera c : authed_conn_id c <> Some ViewCamera -> is_authed_view_camera_conn c = false.
Proof. intros H. by apply bool_decide_eq_false_2. Qed.

Section Right3.
Context (x : Fixed) (e : Env) (He : env_ok x e).

Abbreviation right m := (sets_right x [] [] m).

Lemma remember_right reason : right (remember_close_reason reason).
Proof.
  apply right_keep; [intros c H; by destruct (close_reason c)|intros c; by destruct (close_reason c)
    |intros c; by destruct (close_reason c)|intros c n; by destruct (close_reason c)].
Qed.

Lemma no_retry_right reason : right (send_close_reason_no_retry reason).
Proof. unfold send_close_reason_no_retry. right_all; apply remember_right. Qed.

Lemma sockets_right : right (modify (fun c => c <| port_forward_socket := false |> <| port_forward_mux := false |>)).
Proof.
  apply right_keep; [|done|done|done]. intros c. unfold is_remote, is_port_forward. cbn.
  rewrite !andb_true_iff. tauto.
Qed.

Lemma closed_right : right (modify (fun c => c <| closed := true |>)).
Proof. apply right_keep; [done|done| |done]. intros c. unfold open_session. cbn. by rewrite andb_false_r. Qed.

Lemma on_close_right reason lock : right (on_close e reason lock).
Proof. unfold on_close. right_all; first [apply remember_right|apply closed_right|apply sockets_right]. Qed.

Lemma scope_violation_right message : right (handle_authorized_scope_violation e message).
Proof. unfold handle_authorized_scope_violation. right_all; first [apply no_retry_right|apply on_close_right]. Qed.

Lemma refresh_right display : right (refresh_video_display display).
Proof. unfold refresh_video_display. right_all. by apply right_only_videos, only_videos_option. Qed.

Lemma switch_display_right idx : right (switch_display_to e idx).
Proof.
  unfold switch_display_to. right_all. apply right_only_videos.
  destruct (negb (support_multi_ui_session e)).
  - refine (only_videos_compose _ _ (only_videos_ensure _ _) (only_videos_compose _ _ _ _)); apply only_videos_subscribe.
  - refine (only_videos_compose _ _ (only_videos_ensure _ _) _). apply only_videos_subscribe.
Qed.

Lemma change_resolution_right d width height : right (change_resolution e d width height).
Proof. unfold change_resolution. right_all. Qed.

Lemma handle_switch_display_right display width height : right (handle_switch_display e display width height).
Proof. unfold handle_switch_display. right_all; first [apply switch_display_right|apply change_resolution_right]. Qed.

(** The window's focus is asked for when it is followed. *)
Lemma focus_right :
  right (c ← get; when (follow_remote_window c) (sub_service e NAME_WINDOW_FOCUS (fun c => negb (multi_ui_session c)))).
Proof using He.
  intros s Hs. unfold mbind at 1, M_bind at 1, get at 1. destruct (follow_remote_window (conn s)) eqn:Ef; [|done]. cbn [when].
  pose proof (right_sub x [] [] e NAME_WINDOW_FOCUS
    (fun c => negb (multi_ui_session c) && follow_remote_window c)) as H.
  assert (sub_service e NAME_WINDOW_FOCUS (fun c => negb (multi_ui_session c)) s
    = sub_service e NAME_WINDOW_FOCUS (fun c => negb (multi_ui_session c) && follow_remote_window c) s) as ->.
  { unfold sub_service, mbind, M_bind, get. by rewrite Ef, andb_true_r. }
  apply H; [done|done| | |by right|done].
  - intros c E. apply andb_true_iff in E as [_ E]. exact E.
  - intros E. exfalso. unfold exact_names in E. rewrite !elem_of_cons in E. by destruct E as [|[|[|?%elem_of_nil]]].
Qed.

Lemma capture_displays_right add sub set : right (capture_displays e add sub set).
Proof using He.
  unfold capture_displays. right_step. destruct (_ || _ || _); [apply right_ret|].
  eapply right_bind; [|intros ?].
  { apply right_only_videos.
    assert (forall l, only_videos (fun sv => foldl (fun sv d => ensure_video (video_source c) d sv) sv l)) as Hl
      by (intros l; apply only_videos_fold; eauto with session).
    destruct add; [destruct sub|];
      refine (only_videos_compose _ _ (Hl _) (only_videos_compose _ _ (Hl _) (only_videos_capture _ _ _ _ _))). }
  right_step; [right_step|]. right_step; [|right_step]. right_step; [right_step|]. apply focus_right.
Qed.
End Right3.

Section Right4.
Context (x : Fixed) (e : Env) (He : env_ok x e).

Abbreviation right m := (sets_right x [] [] m).

(** Only a session that views a camera hears the voice calls. *)
Ltac no_camera := match goal with H : is_authed_view_camera_conn _ = true |- _ => by rewrite not_camera in H end.

Lemma handle_voice_call_right accepted : right (handle_voice_call e accepted).
Proof. unfold handle_voice_call. right_step. destruct (voice_call_request_timestamp c); right_all; by no_camera. Qed.

Lemma close_voice_call_right : right (close_voice_call e).
Proof. unfold close_voice_call. right_all; by no_camera. Qed.

Lemma press_modifier_right key pressed : right (modify (press_modifier key pressed)).
Proof. destruct key; [|apply right_keep]; try done. cbn. by right_all. Qed.

Lemma mouse_right me : right (on_mouse_event e me).
Proof. unfold on_mouse_event, input_mouse. right_all. Qed.

Lemma pointer_right pde : right (on_pointer_device_event e pde).
Proof. unfold on_pointer_device_event. right_all. Qed.

Lemma key_right me : right (on_key_event e me).
Proof. unfold on_key_event, input_key. right_all; apply press_modifier_right. Qed.

Lemma clipboards_right contents : right (on_clipboards contents).
Proof. unfold on_clipboards. right_all. Qed.

Lemma cliprdr_right clip : right (on_cliprdr e clip).
Proof. unfold on_cliprdr, answer_clip. right_all. Qed.

Lemma start_read_job_right id printer job path limit : right (create_and_start_read_job e id printer job path limit).
Proof. unfold create_and_start_read_job, process_new_read_job. right_all. Qed.

Lemma send_files_right id path hidden file_num file_type : right (send_files e id path hidden file_num file_type).
Proof. unfold send_files. right_all; apply start_read_job_right. Qed.

Lemma file_action_right action : right (on_file_action e action).
Proof.
  unfold on_file_action. right_step. destruct (_ || _); [|apply right_ret]. cbn [when].
  right_all; destruct action; cbn [do_file_action]; try apply send_files_right;
    unfold all_files, cancel_job, send_confirm; right_all.
Qed.

Lemma file_response_right r : right (on_file_response r).
Proof. destruct r; cbn; right_all. Qed.
End Right4.

Section Right5.
Context (x : Fixed) (e : Env) (He : env_ok x e).

Abbreviation right m := (sets_right x [] [] m).

Lemma keep_right (m : M unit) (b : bool) : right m -> right (_ ← m; mret b).
Proof. intros Hm. eapply right_bind; [exact Hm|intros ?; apply right_ret]. Qed.

Lemma on_option_right o : fx_authorized x = true -> right (on_option e o).
Proof using He. intros Hx. unfold on_option. right_all; by apply update_options_right. Qed.

Lemma toggle_privacy_right key on : right (toggle_privacy_mode e key on).
Proof. destruct on; apply privacy_right. Qed.

Lemma switch_sides_right uuid : right (on_switch_sides_request e uuid).
Proof. unfold on_switch_sides_request. right_all; apply on_close_right. Qed.

Lemma identity_right a o p : right (on_controller_identity e a o p).
Proof. unfold on_controller_identity. right_all. Qed.

Lemma cursor_data_right i : right (on_request_cursor_data e i).
Proof. unfold on_request_cursor_data. right_all. Qed.

Lemma misc_right misc : fx_authorized x = true -> right (on_misc e misc).
Proof using He.
  intros Hx. unfold on_misc. apply right_get. intros c _ _ _.
  destruct misc; try apply right_ret; try apply switch_sides_right; apply keep_right; try apply right_when; intros;
    try (by right_all).
  - apply handle_switch_display_right.
  - by apply on_option_right.
  - right_all. apply refresh_right.
  - apply change_resolution_right.
  - by apply capture_displays_right.
  - right_all. apply refresh_right.
  - apply toggle_privacy_right.
  - apply change_resolution_right.
  - apply cursor_data_right.
  - apply identity_right.
Qed.

Lemma audio_frame_right frame : right (on_audio_frame frame).
Proof. unfold on_audio_frame. right_all. Qed.

Lemma voice_request_right t b : right (on_voice_call_request e t b).
Proof. unfold on_voice_call_request. right_all; apply close_voice_call_right. Qed.

Lemma terminal_right action : right (handle_terminal_action e action).
Proof. unfold handle_terminal_action. right_all. Qed.

Lemma channel_right f : right (handle_port_forward_channel e f).
Proof. unfold handle_port_forward_channel. right_all. Qed.

Lemma screenshot_right display sid : right (on_screenshot_request e display sid).
Proof. unfold on_screenshot_request. right_all; apply refresh_right. Qed.

Lemma session_message_right msg : fx_authorized x = true -> right (on_session_message e msg).
Proof using He.
  intros Hx. destruct msg as [| | | | | | |[]| |[]| | | | | | | | | | | | ]; cbn [on_session_message];
    try apply right_ret; try (apply keep_right).
  - apply mouse_right.
  - apply audio_frame_right.
  - apply pointer_right.
  - apply key_right.
  - apply clipboards_right.
  - apply file_action_right.
  - apply file_response_right.
  - by apply misc_right.
  - apply cliprdr_right.
  - apply voice_request_right.
  - apply clipboards_right.
  - apply screenshot_right.
  - right_all. apply terminal_right.
  - right_all. apply channel_right.
Qed.

Lemma test_delay_right b t : right (on_test_delay e b t).
Proof. unfold on_test_delay. right_all. Qed.

Lemma forward_right msg : right (on_forward_message e msg).
Proof. unfold on_forward_message. right_all. Qed.

Lemma switch_right uuid lr :
  shows_a_code e (Some (SwitchSidesResponse uuid lr)) = false -> right (on_switch_sides_response e uuid lr).
Proof.
  intros Hc. unfold on_switch_sides_response. destruct lr as [lr|]; [|apply right_ret]. cbn in Hc. rewrite Hc.
  eapply right_bind; [apply right_emit|intros ?]. apply right_ret.
Qed.

Lemma message_right msg : shows_a_code e msg = false -> right (on_message e msg).
Proof using He.
  intros Hc. unfold on_message. apply right_get. intros c _ _ Hau.
  assert (forall m, right (if negb (authorized c) || port_forward_socket c then mret true else on_session_message e m)) as Hm.
  { intros m. rewrite Hau. destruct (fx_authorized x) eqn:Hx; [|apply right_ret]. cbn [negb orb].
    destruct (port_forward_socket c); [apply right_ret|by apply session_message_right]. }
  destruct msg as [[| | | | | | | | |[[]|]| | | | | | | | | | | | ]|]; try apply right_ret;
    try (destruct (if authorized c then _ else _); [apply scope_violation_right|]); try apply right_ret; try apply Hm.
  - apply keep_right, test_delay_right.
  - eapply right_bind; [apply on_close_right|intros ?]. apply keep_right, right_emit.
  - destruct (authorized c); [|apply right_ret]. apply keep_right, forward_right.
  - destruct (authorized c); [|apply right_ret]. by apply switch_right.
Qed.
End Right5.

Ltac keep_step := match goal with |- sets_right _ _ _ (mbind (fun _ => mret _) _) => apply keep_right end.

Section Right6.
Context (x : Fixed) (e : Env) (He : env_ok x e).

Abbreviation right m := (sets_right x [] [] m).

(** *** The connection manager *)

Lemma not_left (name n : rstr) : (n ∉ []) -> n = name \/ (n ∉ [name]).
Proof. intros _. rewrite list_elem_of_singleton. destruct (decide (n = name)); tauto. Qed.

Lemma switch_clipboard_right enabled : right (switch_clipboard e enabled).
Proof using He.
  unfold switch_clipboard. apply (one_right x CLIPBOARD_NAME); [done|done|done| |].
  - intros c n Hn. unfold may_sub. rewrite bool_decide_eq_false_2 by done. reflexivity.
  - eapply right_bind; [apply right_emit|intros ?]. apply right_clipboard; [done|apply not_left].
Qed.

(** Before the authorisation nothing is heard. *)
Lemma quiet_right : fx_authorized x = false -> sets_right x [AUDIO_NAME] [] (mret tt).
Proof.
  intros Hx s [Hk Hs]. split; [done|]. intros sv E. destruct (Hs sv E) as [[Ht Hq] Hn]. split; [done|].
  intros name _. destruct (decide (name = AUDIO_NAME)) as [->|Hne].
  - split; [intros Hl; by destruct (Hq Hx)|]. intros Ho. destruct Hk as (_ & _ & _ & Hsub).
    unfold open_session in Ho. cbn in Ho. by rewrite Hsub in Ho.
  - apply Hn. by rewrite list_elem_of_singleton.
Qed.

Lemma switch_audio_right enabled : right (switch_audio e enabled).
Proof using He.
  unfold switch_audio. apply (one_right x AUDIO_NAME); [done|done|done| |].
  - intros c n Hn. unfold may_sub. case_bool_decide; [reflexivity|]. case_bool_decide; [reflexivity|].
    rewrite bool_decide_eq_false_2 by done. reflexivity.
  - eapply right_bind; [apply right_emit|intros ?]. apply right_get. intros c _ _ ->.
    destruct (fx_authorized x) eqn:Hx; cbn [when]; [|by apply quiet_right].
    apply right_audio; [done|done|apply not_left].
Qed.

Lemma switch_file_right enabled : right (switch_file e enabled).
Proof using He.
  unfold switch_file. apply (one_right x FILE_NAME); [done|done|done| |].
  - intros c n Hn. unfold may_sub. case_bool_decide; [reflexivity|]. rewrite bool_decide_eq_false_2 by done. reflexivity.
  - eapply right_bind; [apply right_emit|intros ?]. eapply right_bind; [|intros ?].
    + destruct (negb enabled); [apply right_emit|apply right_ret].
    + apply right_file; [done|apply not_left].
Qed.

Lemma switch_privacy_right enabled : right (switch_privacy_mode e enabled).
Proof. unfold switch_privacy_mode. right_all. Qed.

Lemma switch_permission_right name enabled : right (on_switch_permission e name enabled).
Proof using He.
  unfold on_switch_permission. eapply right_bind; [|intros ?; by right_all].
  destruct (is_name name "keyboard"); [by apply switch_keyboard_right|].
  destruct (is_name name "clipboard"); [apply switch_clipboard_right|].
  destruct (is_name name "audio"); [apply switch_audio_right|].
  destruct (is_name name "file"); [apply switch_file_right|].
  destruct (is_name name "restart"); [by right_all|]. destruct (is_name name "recording"); [by right_all|].
  destruct (is_name name "block_input"); [by right_all|].
  destruct (is_name name "privacy_mode"); [apply switch_privacy_right|apply right_ret].
Qed.

Lemma when_awaited_right i m : right m -> right (when_awaited i m).
Proof. intros Hm. unfold when_awaited. right_all. Qed.

Lemma read_job_result_right i res : right (handle_read_job_init_result e i res).
Proof. apply when_awaited_right. right_all. Qed.

Lemma all_files_result_right i path res : right (handle_all_files_result e i path res).
Proof. unfold handle_all_files_result. right_all. Qed.

Lemma cm_message_right msg : right (on_cm_message e msg).
Proof using He.
  unfold on_cm_message. destruct msg;
    try keep_step;
    try match goal with |- sets_right _ _ _ (when _ _) => apply right_when; intros _ end.
  - eapply right_bind; [by right_all|intros ?]. eapply right_bind; [apply remember_right|intros ?].
    eapply right_bind; [apply no_retry_right|intros ?]. apply keep_right, on_close_right.
  - eapply right_bind; [by right_all|intros ?]. apply keep_right, on_close_right.
  - destruct expected; [apply right_ret|]. apply keep_right, on_close_right.
  - by right_all.
  - apply switch_permission_right.
  - apply right_emit.
  - apply right_emit.
  - apply right_emit.
  - apply handle_voice_call_right.
  - eapply right_bind; [apply close_voice_call_right|intros ?; apply right_emit].
  - apply right_emit.
  - apply right_emit.
  - apply read_job_result_right.
  - apply when_awaited_right. by right_all.
  - apply when_awaited_right. by right_all.
  - apply when_awaited_right. by right_all.
  - apply when_awaited_right. by right_all.
  - apply all_files_result_right.
Qed.

(** *** The services and the clock *)

Lemma service_message_right m : right (on_service_message e m).
Proof.
  unfold on_service_message. apply right_get. intros c _ _ _. destruct m; try keep_step.
  - eapply right_bind; [apply remember_right|intros ?]. eapply right_bind; [apply no_retry_right|intros ?].
    apply keep_right, on_close_right.
  - eapply right_bind; [apply refresh_right|intros ?; apply right_emit].
  - unfold handle_cursor_switch_display. by right_all.
  - apply right_emit.
  - by right_all.
  - apply right_emit.
Qed.

Lemma second_timer_right : right (on_second_timer e).
Proof. unfold on_second_timer. right_all; first [apply no_retry_right|apply on_close_right]. Qed.

Lemma delay_timer_right : right (on_test_delay_timer e).
Proof. unfold on_test_delay_timer. right_all; apply on_close_right. Qed.
End Right6.

Section Right7.
Context (x : Fixed) (e : Env) (He : env_ok x e).

Abbreviation right m := (sets_right x [] [] m).

(** *** The end of the login *)

Lemma elem_of_if (b : bool) (n name : rstr) : (n ∈ (if b then [name] else [])) <-> b = true /\ n = name.
Proof. destruct b; [rewrite list_elem_of_singleton; intuition|]. split; [by intros ?%elem_of_nil|by intros [? _]]. Qed.

Lemma noperms_may c n : (n ∉ noperms e c) -> may_sub x n c = true.
Proof using He.
  unfold noperms. rewrite !not_elem_of_app, !elem_of_if. intros (H1 & H2 & H3 & H4 & H5 & H6). unfold may_sub.
  repeat case_bool_decide; subst; try done.
  - destruct (can_sub_clipboard_service e c) eqn:E; [|by destruct H4]. by rewrite (can_sub_may x e He) in E.
  - destruct (can_sub_file_clipboard_service e c) eqn:E; [|by destruct H5]. by apply (can_sub_file_may x e He) in E.
  - destruct (audio_enabled c); [done|by destruct H6].
  - destruct (show_remote_cursor c); [done|by destruct H2].
  - destruct (follow_remote_window c); [done|by destruct H3].
  - destruct (keyboard c || show_remote_cursor c) eqn:E; [done|]. apply orb_false_iff in E as [Ek Es].
    destruct H1. split; [|done]. unfold peer_keyboard_enabled. by rewrite Ek, Es.
Qed.

Lemma may_noperms c n : (n ∈ exact_names) -> may_sub x n c = true -> n ∉ noperms e c.
Proof using He.
  unfold exact_names, noperms. rewrite !elem_of_cons, !elem_of_app, !elem_of_if.
  intros [->|[->|[->|[]%elem_of_nil]]] Hm H; intuition; try done; cbn [may_sub] in Hm.
  - rewrite (can_sub_may x e He), Hm in *. done.
  - change (may_sub x AUDIO_NAME c) with (audio_enabled c) in Hm. rewrite Hm in *. done.
  - change (may_sub x NAME_POS c) with (show_remote_cursor c) in Hm. rewrite Hm in *. done.
Qed.

Lemma monitor_contains (i : Z) (noperms : list rstr) (d : Z) (n : rstr) (sv : Server) :
  contains n (add_monitor_connection i noperms d sv) = contains n sv.
Proof. destruct sv as [ss cs]. unfold contains, add_monitor_connection. cbn. rewrite imap_lookup. by destruct (ss !! n). Qed.

(** The login takes all that the connection may have, and nothing else. *)
Lemma try_sub_right : fx_authorized x = true -> right (try_sub_monitor_services e).
Proof using He.
  intros Hx s Hs. unfold try_sub_monitor_services, get, mbind at 1, M_bind at 1.
  destruct (is_remote (conn s) && negb (services_subed (conn s))) eqn:Ew; [|done]. cbn [when].
  apply andb_true_iff in Ew as [Hr Hsub]. apply negb_true_iff in Hsub.
  destruct s as [c [sv|] o]; [|destruct Hs as [Hk Hs]; split; [|done]; cbn in *; intuition congruence].
  destruct Hs as [Hk Hs]. cbn in *. destruct (Hs sv eq_refl) as [[Ht _] Hn].
  split; [cbn; intuition congruence|]. intros sv' E.
  assert (sv' = add_monitor_connection (inner_id e) (noperms e c) (display_idx c)
                  (try_add_monitor_service (display_idx c) sv)) as -> by (cbn in E; by injection E as <-).
  clear E. cbn [conn fst snd]. split.
  { split; [by apply monitor_tidy, ensure_tidy|by rewrite Hx]. }
  intros n Hl. destruct (Hn n Hl) as [Hmay _]. destruct He as (Hid & _).
  unfold try_add_monitor_service. rewrite monitor_listens, ensure_listens.
  change (may_sub x n (c <| services_subed := true |> <| auto_disconnect_timer := get_auto_disconnect_timer e |>))
    with (may_sub x n c). split.
  - intros [H|(_ & _ & Hnp & _)]; [by apply Hmay|]. by apply (noperms_may c).
  - intros _ Hx2 Hc Hm. right. rewrite monitor_contains in Hc. unfold contains in Hc. apply bool_decide_eq_true in Hc.
    split_and!; [by rewrite Hid|done|by apply may_noperms|]. intros Hv. apply exact_not_video in Hx2. congruence.
Qed.
End Right7.

(** The connection's facts, before and after the login. *)
Definition logged (b : bool) (x : Fixed) : Fixed := mkFixed (fx_id x) b (fx_one_way_file x) (fx_one_way_clipboard x).

Lemma remote_kind c : is_remote c = true -> auth_conn_type c = Remote.
Proof.
  unfold is_remote, auth_conn_type. rewrite !andb_true_iff, !negb_true_iff. by intros [[[-> ->] ->] ->].
Qed.

Lemma is_remote_fields c : is_remote c = true -> file_transfer c = None /\ terminal c = false /\ view_camera c = false.
Proof.
  unfold is_remote, is_file_transfer. rewrite !andb_true_iff, !negb_true_iff. intros [[[Hf _] ->] ->].
  split; [|done]. by destruct (file_transfer c).
Qed.

Lemma answer_login_right x e : sets_right x [] [] (answer_login e).
Proof.
  unfold answer_login, on_remote_authorized. apply right_get. intros c Hr _ _.
  destruct (_ || _); [by right_all|]. destruct (view_camera c); [by right_all|].
  eapply right_bind; [destruct (display_inited_msg e); [apply right_emit|apply right_ret]|intros ?].
  eapply right_bind; [apply right_emit|intros ?]. destruct (displays_on_login e); by right_all.
Qed.

Lemma login_options_right x e : env_ok x e -> fx_authorized x = true -> sets_right x [] [] (update_scoped_login_options e).
Proof.
  intros He Hx. unfold update_scoped_login_options. apply right_get. intros c _ _ _.
  destruct (options_in_login c); [|apply right_ret]. eapply right_bind; [right_step|intros ?].
  destruct (authed_conn_id c) as [t|]; [|apply right_ret]. destruct (scoped_login_option t o).1; [|apply right_ret].
  by apply update_options_right.
Qed.

Lemma logon_right x e s :
  env_ok (logged false x) e -> subs_ok (logged false x) [] s -> subs_ok (logged true x) [] (logon_tail e s).2.
Proof.
  intros He [(Hr & Ha & Hau & Hq) Hs]. unfold logon_tail. unfold mbind at 1, M_bind at 1, modify at 1.
  assert (subs_ok (logged true x) [] (s <| conn ::= fun c => c <| authorized := true |> <| authed_conn_id := Some (auth_conn_type c) |> |>))
    as Hs1.
  { destruct s as [c sv o]. cbn in *. specialize (Hq eq_refl). split; cbn.
    - split_and!; [done| |done|done]. by rewrite remote_kind.
    - intros sv' E. destruct (Hs sv' E) as [[Ht _] Hn]. split; [done|]. intros n Hl. destruct (Hn n Hl) as [Hmay _].
      split; [exact Hmay|]. intros Ho. change (open_session c = true) in Ho. unfold open_session in Ho. by rewrite Hq in Ho. }
  revert Hs1. generalize (s <| conn ::= fun c => c <| authorized := true |> <| authed_conn_id := Some (auth_conn_type c) |> |>).
  assert (env_ok (logged true x) e) as He' by exact He.
  change (sets_right (logged true x) [] [] (sub ← answer_login e; _ ← update_scoped_login_options e; c ← get;
    match file_transfer c with
    | Some (dir, show_hidden) =>
        _ ← modify (set_keyboard false); send_fs (FsReadDir (if is_allowed_dir e dir then dir else []) show_hidden)
    | None =>
        if terminal c then
          _ ← modify (set_keyboard false);
          when (terminal_user_token c) (modify (fun c => c <| terminal_generic_service := true |>))
        else if view_camera c then
          _ ← try_sub_camera_displays e; _ ← modify (set_keyboard false); send_permission Profiles.Keyboard false
        else when sub (try_sub_monitor_services e)
    end)).
  eapply right_bind; [apply answer_login_right|intros sub]. eapply right_bind; [by apply login_options_right|intros _].
  apply right_get. intros c Hrc _ _. destruct (is_remote_fields c Hrc) as (-> & -> & ->).
  apply right_when. intros _. by apply try_sub_right.
Qed.

(** *** The loop *)

(** The subscriptions of a connection, authorised or not. *)
Definition subscriptions_ok (x : Fixed) (s : St) : Prop := subs_ok (logged (authorized (conn s)) x) [] s.

Lemma right_ok x {A} (m : M A) s :
  (forall b, sets_right (logged b x) [] [] m) -> subscriptions_ok x s -> subscriptions_ok x (m s).2.
Proof.
  intros Hm Hs. pose proof (Hm _ _ Hs) as Hs'. unfold subscriptions_ok.
  pose proof Hs' as [(_ & _ & Hau & _) _]. cbn in Hau. by rewrite Hau.
Qed.

Lemma handle_right x e ev s : turn_ok x (e, ev) -> subscriptions_ok x s -> subscriptions_ok x (handle e ev s).2.
Proof.
  intros [He Hc] Hs. cbn [fst snd] in *. assert (forall b, env_ok (logged b x) e) as He' by done. destruct ev; cbn [handle].
  - unfold mbind at 1, M_bind at 1, get. unfold when, mbind, M_bind.
    destruct (authorized (conn s)) eqn:Hau; cbn [negb]; [done|].
    unfold subscriptions_ok in Hs. rewrite Hau in Hs. pose proof (logon_right x e s He Hs) as Hl.
    destruct (logon_tail e s) as [? s']. cbn in *. unfold subscriptions_ok.
    pose proof Hl as [(_ & _ & Hau' & _) _]. cbn in Hau'. by rewrite Hau'.
  - apply right_ok; [|done]. intros b. eapply right_bind; [apply message_right; [done|by apply Hc]|intros []]; [|apply right_ret].
    apply right_get. intros c _ _ _. apply right_ret.
  - apply right_ok; [|done]. intros b. by apply cm_message_right.
  - apply right_ok; [|done]. intros b. by apply service_message_right.
  - apply right_ok; [|done]. intros b. by apply second_timer_right.
  - apply right_ok; [|done]. intros b. by apply delay_timer_right.
  - apply right_ok; [|done]. intros b. eapply right_bind; [apply no_retry_right|intros ?].
    apply keep_right, on_close_right.
  - apply right_ok; [|done]. intros b. apply keep_right, on_close_right.
Qed.

(** What leaves the services alone. *)
Definition serverless {A} (m : M A) : Prop := forall s, server (m s).2 = server s.

Lemma serverless_ret {A} (a : A) : serverless (mret a).
Proof. by intros s. Qed.
Lemma serverless_bind {A B} (m : M A) (k : A -> M B) : serverless m -> (forall a, serverless (k a)) -> serverless (mbind k m).
Proof. intros Hm Hk s. unfold mbind, M_bind. rewrite <- (Hm s). destruct (m s) as [a s']. apply Hk. Qed.
Lemma serverless_get {B} (k : Conn -> M B) : (forall c, serverless (k c)) -> serverless (mbind k get).
Proof. intros Hk s. apply (Hk (conn s)). Qed.
Lemma serverless_modify f : serverless (modify f).
Proof. by intros []. Qed.
Lemma serverless_emit eff : serverless (emit eff).
Proof. by intros []. Qed.
Lemma serverless_when b m : serverless m -> serverless (when b m).
Proof. by destruct b. Qed.

Lemma serverless_for_each {A} (l : list A) f : (forall a, serverless (f a)) -> serverless (for_each l f).
Proof. intros Hf. induction l as [|a l IH]; [apply serverless_ret|]. by apply serverless_bind. Qed.

Ltac serverless_all := repeat first
  [apply serverless_get; intros ?|apply serverless_bind; [|intros ?]|apply serverless_when|apply serverless_for_each; intros ?|apply serverless_ret
  |apply serverless_modify|apply serverless_emit
  |match goal with |- serverless (match ?b with _ => _ end) => destruct b end].

Lemma on_close_serverless e reason lock : serverless (on_close e reason lock).
Proof. unfold on_close, remember_close_reason, send_to_cm. serverless_all. Qed.

(** What changes the services once, by [f]. *)
Definition serves {A} (f : Server -> Server) (m : M A) : Prop := forall s, server (m s).2 = f <$> server s.

Lemma serves_after {A B} f (m : M A) (k : A -> M B) : serverless m -> (forall a, serves f (k a)) -> serves f (mbind k m).
Proof. intros Hm Hk s. unfold mbind, M_bind. rewrite <- (Hm s). destruct (m s) as [a s']. apply Hk. Qed.
Lemma serves_get {B} f (k : Conn -> M B) : (forall c, serves f (k c)) -> serves f (mbind k get).
Proof. intros Hk s. apply (Hk (conn s)). Qed.
Lemma serves_now {B} f (k : unit -> M B) : serverless (k tt) -> serves f (mbind k (with_server f)).
Proof. intros Hk []. unfold mbind, M_bind, with_server. by rewrite Hk. Qed.

Lemma finish_serves e : serves (remove_connection (inner_id e)) (finish e).
Proof.
  unfold finish, try_empty_file_clipboard, turn_off_privacy_to_msg.
  apply serves_after; [serverless_all|intros _]. apply serves_after; [serverless_all|intros _].
  apply serves_after; [serverless_all|intros _]. apply serves_get. intros c.
  apply serves_after; [serverless_all|intros _]. apply serves_now.
  apply serverless_bind; [apply on_close_serverless|intros _].
  unfold drop_connection, release_pressed_modifiers. serverless_all.
Qed.

(** The end of the loop takes the connection off all the services. *)
Lemma finish_leaves x e s sv name :
  env_ok x e -> subscriptions_ok x s -> server (finish e s).2 = Some sv -> ~ listens sv name (fx_id x).
Proof.
  intros (Hid & _) [_ Hs]. rewrite finish_serves, Hid. destruct (server s) as [sv0|]; [|done]. intros [= <-].
  destruct (Hs sv0 eq_refl) as [[Ht _] _]. rewrite remove_listens by done. tauto.
Qed.

Lemma run_right x evs s :
  Forall (turn_ok x) evs -> subscriptions_ok x s ->
  let '(kept, s') := run evs s in
  if kept : bool then subscriptions_ok x s'
  else forall sv name, server s' = Some sv -> ~ listens sv name (fx_id x).
Proof.
  intros Hevs. revert s. induction Hevs as [|[e ev] evs He Hevs IH]; intros s Hs; [done|]. cbn [run fst] in *.
  unfold turn. unfold mbind, M_bind. pose proof (handle_right x e ev s He Hs) as Hs1.
  destruct He as [He _]. destruct (handle e ev s) as [[] s1]; cbn in Hs1; [by apply IH|].
  pose proof (finish_leaves x e s1) as Hf. destruct (finish e s1) as [? s2]. cbn in *. intros sv name. by apply Hf.
Qed.

(** A connection that is about to be logged on. *)
Definition fresh (x : Fixed) (s : St) : Prop :=
  is_remote (conn s) = true /\ authed_conn_id (conn s) = None /\ authorized (conn s) = false
  /\ services_subed (conn s) = false
  /\ forall sv, server s = Some sv -> tidy_server sv /\ forall name, ~ listens sv name (fx_id x).

(** C3 Whatever the peer, the connection manager, the services and the clock do, a session
    that views the desktop is, at every moment, subscribed to the clipboard, the sound, the
    position of the cursor and the window in focus only while its permissions and options
    let it, to the files of the clipboard only while it may transfer files, and to the
    cursor only while it has the keyboard or shows the cursor of the PC; once it is logged
    on and until it is closed it is subscribed to the clipboard, the sound and the cursor's
    position whenever they let it; and when its loop has ended it is subscribed to nothing.
    For the files and the cursor the code asks for more when it subscribes, but not again:
    the files stay when the clipboard goes ([files_outlive_the_clipboard]) and the cursor
    when the peer disables its keyboard ([cursor_of_a_disabled_keyboard]).  The runs are
    those in which the peer does not answer a switch of sides with a good code: that takes
    the permissions again and leaves the subscriptions as they were
    ([switching_sides_keeps_the_subscriptions]). *)
Theorem subscriptions_follow_the_permissions x evs s :
  fresh x s -> Forall (turn_ok x) evs ->
  let '(kept, s') := run evs s in
  forall sv name, server s' = Some sv ->
    (listens sv name (fx_id x) -> kept = true /\ may_sub x name (conn s') = true)
    /\ (kept = true -> open_session (conn s') = true -> (name ∈ exact_names) -> contains name sv = true ->
        may_sub x name (conn s') = true -> listens sv name (fx_id x)).
Proof.
  intros (Hr & Ha & Hau & Hq & Hf) Hevs. pose proof (run_right x evs s Hevs) as H.
  assert (subscriptions_ok x s) as Hs.
  { unfold subscriptions_ok. rewrite Hau. split; [rewrite Ha; by split_and!|]. intros sv E.
    destruct (Hf sv E) as [Ht Hn]. split; [by split; [|intros _]|]. intros name _.
    split; [intros Hl; by destruct (Hn name)|]. unfold open_session. by rewrite Hq. }
  specialize (H Hs). destruct (run evs s) as [[] s']; intros sv name E.
  - destruct H as [_ H]. destruct (H sv E) as [_ Hn]. destruct (Hn name) as [Hmay Hall]; [apply not_elem_of_nil|].
    split; [intros Hl; split; [done|by apply Hmay]|]. intros _. apply Hall.
  - split; [intros Hl; by destruct (H sv name E)|done].
Qed.

(** ** Concrete sessions *)

(** Whether a state is subscribed to a service. *)
Definition hears (name : rstr) (s : St) : bool :=
  match server s with
  | Some sv => match services sv !! name with Some sr => is_subed 7 sr | None => false end
  | None => false
  end.

(** An ordinary session: it hears what it may, and nothing once it is over. *)
Example a_session_hears :
  (fun name => hears name (demo false [LoggedOn; switched "audio" false]).2)
    <$> [CLIPBOARD_NAME; AUDIO_NAME; NAME_CURSOR; NAME_POS] = [true; false; true; false]
  /\ hears CLIPBOARD_NAME (demo false [LoggedOn; FromCm CmClose]).2 = false.
Proof. vm_compute. done. Qed.

(** Of the switches of the connection manager only that of the sound asks whether the
    connection is authorised: one that is not yet is subscribed to the clipboard, and what
    that service sends goes to the peer. *)
Example clipboard_before_the_authorisation :
  let '(kept, s) := demo false [switched "clipboard" true; FromServices (OtherServiceMessage (Str.lit "secret"))] in
  kept = true /\ authorized (conn s) = false /\ hears CLIPBOARD_NAME s = true
  /\ out s = [Send (PermissionInfo Profiles.Clipboard true); ToCm (DataEffectivePermissions true true true true);
              Send (FromService (Str.lit "secret"))].
Proof. vm_compute. done. Qed.

(** Nor do they ask for the kind of the session: one that views the camera is given the
    clipboard of the desktop. *)
Example clipboard_of_a_camera_session :
  let s := (demo true [LoggedOn; switched "keyboard" true; switched "audio" true]).2 in
  authed_conn_id (conn s) = Some ViewCamera /\ hears CLIPBOARD_NAME s = true /\ hears AUDIO_NAME s = false.
Proof. vm_compute. done. Qed.

(** The files of the clipboard need the clipboard when the session is logged on, but its
    loss does not stop them. *)
Example files_outlive_the_clipboard :
  let s := (demo false [LoggedOn; switched "clipboard" false]).2 in
  can_sub_file_clipboard_service demo_env (conn s) = false /\ hears FILE_NAME s = true
  /\ hears FILE_NAME (demo false [switched "clipboard" false; LoggedOn]).2 = false.
Proof. vm_compute. done. Qed.

(** The keyboard's switch subscribes to the cursor although the peer disabled its
    keyboard, which its own option takes into account. *)
Example cursor_of_a_disabled_keyboard :
  let disable := FromPeer (Some (MiscMsg (Some (OptionMisc
    (mkOption (Known QualityNotSet) unset unset unset unset 0 unset unset unset None 0 (Known Yes) unset unset unset
       unset unset))))) in
  hears NAME_CURSOR (demo false [LoggedOn; disable]).2 = false
  /\ hears NAME_CURSOR (demo false [LoggedOn; disable; switched "keyboard" true]).2 = true.
Proof. vm_compute. done. Qed.

(** The sound that the person at the PC took away is allowed again after the answer to a
    switch of sides, and not subscribed to; and the sound that the options no longer allow
    by then stays. *)
Example switching_sides_keeps_the_subscriptions :
  let after e evs := (on_message e (Some switch_back) (demo false evs).2).2 in
  let s := after switching_env [LoggedOn; switched "audio" false] in
  let s' := after (switching_env <| permission := fun o => bool_decide (o <> Str.lit "enable-audio") |>) [LoggedOn] in
  audio_enabled (conn s) = true /\ hears AUDIO_NAME s = false
  /\ audio_enabled (conn s') = false /\ hears AUDIO_NAME s' = true.
Proof. vm_compute. repeat split. Qed.

(** Sound of the peer is played with no voice call. *)
Example sound_without_a_call :
  let s := (demo false [LoggedOn; FromPeer (Some (MiscMsg (Some (AudioFormat []))));
                        FromPeer (Some (AudioFrame (Str.lit "boo")))]).2 in
  voice_calling (conn s) = false /\ last (out s) = Some (PlayAudio (Str.lit "boo")).
Proof. vm_compute. done. Qed.

(** A modifier is not a press, and only a press is recorded: there is nothing to release
    at the end. *)
Lemma no_modifier_is_recorded e me c :
  pressed_modifiers (press_modifier (modifier e me) (is_press e me) c) ⊆ pressed_modifiers c.
Proof.
  unfold press_modifier, is_press. destruct (modifier e me) as [k|]; [|done].
  rewrite (bool_decide_eq_true_2 (is_Some (Some k))) by done. rewrite orb_true_r, andb_false_r. cbn. set_solver.
Qed.

Definition demo_x : Fixed := mkFixed 7 false false false.

Lemma demo_fresh : fresh demo_x (demo_state false all_perms).
Proof.
  split_and!; [done..|]. intros sv [= <-]. split.
  - intros name s Hs. apply elem_of_list_to_map_2 in Hs. apply list_elem_of_fmap in Hs as (? & [= -> ->] & _). apply new_tidy.
  - intros name (s & Hs & Hid). apply elem_of_list_to_map_2 in Hs. apply list_elem_of_fmap in Hs as (? & [= -> ->] & _).
    apply is_subed_true in Hid. cbn in Hid. set_solver.
Qed.

Lemma subscriptions_follow_the_permissions_witness :
  exists sv, server (demo false [LoggedOn; switched "audio" false]).2 = Some sv /\ listens sv CLIPBOARD_NAME 7.
Proof.
  destruct (server (demo false [LoggedOn; switched "audio" false]).2) as [sv|] eqn:E; [|by vm_compute in E].
  exists sv. split; [done|].
  pose proof (subscriptions_follow_the_permissions demo_x
    ((fun ev => (demo_env, ev)) <$> [LoggedOn; switched "audio" false]) (demo_state false all_perms) demo_fresh) as H.
  fold (demo false [LoggedOn; switched "audio" false]) in H.
  assert ((demo false [LoggedOn; switched "audio" false]).1 = true) as Ek by by vm_compute.
  assert (may_sub demo_x CLIPBOARD_NAME (conn (demo false [LoggedOn; switched "audio" false]).2) = true) as Em by by vm_compute.
  assert (open_session (conn (demo false [LoggedOn; switched "audio" false]).2) = true) as Eo by by vm_compute.
  assert (fmap (contains CLIPBOARD_NAME) (server (demo false [LoggedOn; switched "audio" false]).2) = Some true) as Ec by by vm_compute.
  destruct (demo false [LoggedOn; switched "audio" false]) as [kept s]. cbn in *.
  apply H; try done; [|by apply list_elem_of_here|].
  { repeat apply Forall_cons_2; [by split| |apply Forall_nil_2]. by split. }
  rewrite E in Ec. by injection Ec.
Defined.
